(* ===== verification/_CoqProject ===== *)
-Q . S2P
Prelude.v
Queue.v
QueueRefine.v
Wdog.v
WdogSpec.v
WdogTimer.v
WdogProps.v
Sched.v
SchedSpec.v
SchedInv.v
SchedOps.v
SchedProps.v
Semaphore.v
SemSpec.v
SemOps.v
SemProps.v
Calendar.v
Clock.v
TimedWait.v
SemTimed.v
SemTimedProps.v
MQueue.v
MqSpec.v
MqInv.v
MqWait.v
MqView.v
MqData.v
MqOps.v
MqCalls.v
MqHist.v
MqRun.v
MqInit.v
MqDes.v
MqProps.v
MqTimed.v
MqTimedOps.v
MqTimedProps.v
MqCases.v
MmHeap.v
MmHeapSpec.v
MmHeapInv.v
MmHeapOps.v
MmHeapInit.v
Alloc.v
MmHeapAlloc.v
MmHeapResize.v
MmHeapRealloc.v
MmHeapAlign.v
MmHeapZero.v
MmHeapProps.v
Gran.v
GranSpec.v
GranSearch.v
GranAlloc.v
GranInfo.v
GranProps.v
IobChain.v
Iob.v
IobSpec.v
IobOps.v
IobCopyin.v
IobPack.v
IobStore.v
IobQueue.v
IobWait.v
IobProps.v
