(* ===== verification/Prelude.v ===== *)
(** * A verification of the core of the NuttX kernel

    NuttX is a small real-time operating system in C.  This development models the
    parts of it on which the rest relies (the sources are under src/nuttx) and proves
    that they are correct.  Where the behaviour depends on a build option, the option
    is a field of [Config] (below) or the build that is modelled is named.

    ** The parts, and how they interact

    - _Queues_ (libs/libc/queue, include/queue.h): intrusive singly and doubly linked
      lists.  Timers, task lists and most other kernel structures are kept on them.
    - _Watchdog timers_ (sched/wdog): a queue of timers ordered by expiration, each
      with the delay after the one before it; the timer interrupt runs the functions
      of those that are due.
    - _Scheduler_ (sched/sched, with the context switch of arch/sim/src): task control
      blocks on one list per state; the ready-to-run list is ordered by priority and
      its head runs, except while that task holds the scheduler lock.
    - _Semaphores_ (sched/semaphore, libs/libc/semaphore): counts, with blocked tasks
      on a list of the scheduler; a wait can be interrupted or time out.
    - _Message queues_ (sched/mqueue): queues of messages ordered by priority, with pools
      of message structures and descriptors; senders to a full queue and receivers from
      an empty one block on lists of the scheduler.
    - _Timed waits_ (sem_tickwait.c, sem_timedwait.c, mq_timedsend.c, mq_timedreceive.c):
      the components together: a watchdog is started, the task blocks, and the timer
      interrupt ends the wait.
    - _Time_ (libs/libc/time, sched/clock): calendar time, timespecs and ticks.
    - _Memory manager_ (mm/mm_heap): the allocator behind malloc and free.
    - _Granule allocator_ (mm/mm_gran): an allocator with a bit per granule, for DMA
      memory and, through mm_pgalloc, for pages.  It and the heap implement one interface.
    - _I/O buffers_ (mm/iob): packets in chains of buffers of a fixed size, and queues of
      packets; the pools are guarded by the counts of semaphores.

    ** Files

    - [Prelude]: pointers and memories, machine integers ([u32], [s32], ...), the state
      and error monad [K] of the kernel code, simulation, and the tactics.
    - [Queue]: the queue functions, one definition each, on a memory of entries, and
      the predicates that relate a queue to a list; [QueueRefine]: sequences of calls
      refine an abstract list.
    - [Wdog]: the state and functions of sched/wdog; [WdogSpec], [WdogTimer]: the
      timers as a list of deadlines and the lemmas for each function; [WdogProps]: the
      properties.
    - [Sched]: TCBs, task lists and the functions of sched/sched, over a class of list
      primitives with two instances, linked lists and plain lists; [SchedSpec]: the
      first simulates the second; [SchedInv], [SchedOps]: the invariant on plain lists
      and that every function keeps it; [SchedProps]: the properties of the linked
      code.
    - [Semaphore]: the functions of sched/semaphore; [SemSpec], [SemOps], [SemProps]:
      as for the scheduler.
    - [Calendar], [Clock]: gmtime_r and mktime in three configurations against a
      reference calendar; ticks and timespecs.
    - [TimedWait]: what timed waits have in common, over any state that contains the
      scheduler; [SemTimed], [SemTimedProps]: timed waits for semaphores.
    - [MQueue]: the data and functions of sched/mqueue; [MqSpec]: the lists of messages,
      and the simulation; [MqInv]: the invariant; [MqWait], [MqView]: blocking and waking,
      and the interface to the signals; [MqData], [MqOps], [MqCalls]: the pools, delivery,
      and the calls on every branch; [MqHist], [MqRun]: histories of calls against
      mailboxes; [MqInit], [MqDes]: start-up and descriptors; [MqProps]: the properties;
      [MqTimed], [MqTimedOps], [MqTimedProps]: calls with a timeout; [MqCases]: the code in
      situations where it goes wrong, the deletion of a waiting task (sched/task) included.
    - [MmHeap]: struct mm_heap_s and every function of mm/mm_heap on memory words;
      [MmHeapSpec]: the free list; [MmHeapInv]: the region as a list of chunks, and the
      invariant [heap_ok]; [MmHeapOps]: mm_malloc and mm_free; [MmHeapInit]:
      mm_initialize, mm_mallinfo, mm_extend; [MmHeapResize], [MmHeapRealloc],
      [MmHeapAlign], [MmHeapZero]: mm_shrinkchunk, mm_realloc, mm_memalign, mm_zalloc;
      [Alloc]: the interface of an allocator and what its callers can rely on;
      [MmHeapAlloc]: the heap implements it; [MmHeapProps]: the properties.
    - [Gran]: struct gran_s and the functions of mm/mm_gran; [GranSpec]: the table as a
      list of granules and the reference search [first_fit]; [GranSearch], [GranAlloc],
      [GranInfo]: the search, allocation and release, and the counts; [GranProps]: the
      properties, and that it implements [Alloc].
    - [Iob]: buffers, containers, their pools and every operation of mm/iob; [IobChain]:
      linked cells; [IobSpec]: the pool and the steps of the operations, each of which
      leaves the buffers of other packets alone; [IobOps], [IobCopyin], [IobPack]: what
      the operations do to the bytes of a packet; [IobStore]: histories against an
      abstract map from packets to bytes; [IobQueue]: queues; [IobWait]: a task that waits
      for a buffer; [IobProps]: the properties.

    Definitions have the names of the C functions, and fields those of the C structures;
    loops that are functions of their own here say so.  State is passed explicitly: a
    function that reads or writes kernel data is of type [K S A], that is
    [S → option (A * S)]; [None] is undefined behaviour (a wild pointer) or a failed
    assertion, so that a theorem that gives a result also shows their absence.  One read
    is an exception: gran_alloc reads the word behind its table (mm_granalloc.c:127),
    which undefined behaviour the model does not show as [None]: the word is a field
    [behind] of any value, and the theorems on granules hold whatever it is.

    ** What the theorems show

    - _Safety of histories_ ([wd_history_safe], [sched_history_safe],
      [sem_history_safe], [mq_history_safe], [heap_history_safe],
      [gran_history_safe], [iob_history_wellformed]): any sequence of calls from a good
      state runs without undefined behaviour or failed assertion and keeps the invariant
      (of granules, but for the read named above).  They hold in builds with and without
      assertions; a few calls on which the code goes wrong are not part of the histories,
      each named in the comment of the theorem.
    - _What makes each component correct_: the highest-priority ready task runs; the
      count of a semaphore is minus the number of its waiters, who queue by priority and
      arrival, and a post releases the first; a message wakes the highest-priority receiver, and no wake-up
      is lost; timers fire when due, in order, once; timed waits end;
      blocks of the heap are disjoint, keep their contents and are found if there is
      room, a block that is resized takes the place of the old one, and an aligned request
      gives its excess back; totals add up; a buffer that is freed goes to the task that waits for it.
    - _Refinement and equivalence_: queues refine lists; the linked scheduler simulates
      the one on plain lists; one interrupt for many ticks equals many interrupts;
      merging the pending list equals inserting its tasks; the calendar agrees with a
      reference; the search for granules is a first-fit search and the tables of
      gran_info count; packets refine a map to bytes, and their queues a bounded list; the
      messages sent and received are a history of mailboxes that are sorted by priority.
    - _Round trips_: mktime and gmtime_r; mm_malloc and mm_free; pages; data copied in and
      out of packets; an interrupted wait.
    - _Errors and bounds_: what is rejected, and that it has no effect; ranges of ticks.
    - Where the code does not do what it means to, an example evaluates it on a concrete
      state (sections "Flaws" and "Counterexamples" of the property files, and Calendar,
      SemTimedProps, MqCases).  The hypotheses of the theorems leave those states out:
      the address of granules is right when the entries before them are full; assertions
      are off where iob_pack and iob_contig free a buffer in the middle of a packet; without
      assertions the priority of a ready task is not lowered ([may_setpriority]); with
      assertions the notifications of message queues can be delivered ([notes_ok]); memory
      behind the heap is readable where the copy of mm_realloc runs over its end
      ([readable]); a timed wait has at most INT32_MAX ticks left; a task waits for an I/O
      buffer in a build without a throttle; the calendar is that of a build without
      CONFIG_GREGORIAN_TIME.
    - Functions of watchdogs: the histories of timers, and the exact lists of the timers
      that fire, are for functions that leave the timers alone ([quiet]); that the interrupt
      returns and keeps the invariants is proved for functions that start and cancel timers
      as well ([WdogHandler]), those that end timed waits among them.

    ** Loops

    Loops are structural where the C loop counts; else they have fuel, and [None] when
    it runs out.  The fuel is the number of cells of the memory walked
    (a list without repetition is not longer), or the number of bits for shifts; the
    theorems give results, so that it is enough.  Only the number of times that a wait is
    interrupted has no bound: there the fuel is an argument.

    ** Not modelled

    Hardware, drivers, file systems, networking, graphics, other CPUs and boards, and
    the applications are outside.  Of the parts above: SMP, tickless operation of the
    scheduler, sporadic scheduling, priority inheritance, heaps of several regions or
    with 16-bit sizes, and the semaphores of the heap and of the granule table, which make
    their operations atomic.  The counts of the semaphores of the I/O buffers are part of
    their state; what other tasks do while one waits is a parameter ([IobEnv]).  The names
    and inodes of message queues (fs/mqueue) are left out, and with them nxmq_release; the
    delivery of the signals that notify tasks of messages (sched/signal, which changes the
    saved registers of a task) is a parameter with the contract [SignalsOk]: it may
    return any error and may end the waits of tasks, and leaves the messages alone.  Interrupts
    are modelled as operations between others, as the code disables them around its
    critical sections; a call on a message queue up to the point where it blocks is one
    step: interrupt handlers that send between the critical sections of a call are left out.

    Of the rest of the kernel, pthread mutexes and conditions, work queues and POSIX timers
    are layers on the components that are modelled; signals, task creation and loading
    depend on the registers and the memory of a CPU. *)

From stdpp Require Export base numbers list option gmap.
From stdpp Require Import fin_maps sorting.
From Stdlib Require Export Lia ZArith.

(** ** Pointers

    A C pointer to a structure of a pool is [NULL] or the address of a cell of
    the pool's memory. *)

Abbreviation addr := positive.
Abbreviation ptr := (option positive).
Abbreviation NULL := (@None positive).

(** A memory maps the addresses of the live structures of one C type to their
    contents.  Reading or writing through a pointer that is not in it is
    undefined behaviour in C and is [None] here. *)
Abbreviation mem A := (gmap positive A).

Declare Scope nx_scope.
Delimit Scope nx_scope with nx.

Section memory.
Context {A : Type}.
Implicit Types (m : mem A) (p : ptr) (f : A → A).

(** [*p] *)
Definition deref (p : ptr) (m : mem A) : option A :=
a ← p; m !! a.

(** [p->field = ...]: update the structure [p] points at. *)
Definition store (p : ptr) (f : A → A) (m : mem A) : option (mem A) :=
a ← p; x ← m !! a; Some (<[a := f x]> m).

Lemma deref_Some a m : deref (Some a) m = m !! a.
Proof. done. Qed.

Lemma store_Some a x f m :
m !! a = Some x → store (Some a) f m = Some (<[a := f x]> m).
Proof. intros Hx. unfold store. simpl. by rewrite Hx. Qed.

Lemma store_inv p f m m' :
store p f m = Some m' →
∃ a x, p = Some a ∧ m !! a = Some x ∧ m' = <[a := f x]> m.
Proof.
unfold store. destruct p as [a|]; simpl; [|done].
destruct (m !! a) as [x|] eqn:Hx; simpl; [|done].
intros ?; simplify_eq. eauto.
Qed.

(** The domain of a memory never changes by a store. *)
Lemma store_dom p f m m' : store p f m = Some m' → dom m' = dom m.
Proof.
intros (a & x & -> & Hx & ->)%store_inv.
apply dom_insert_lookup_L. by eexists.
Qed.
End memory.

#[global] Arguments deref {A} !p m / : simpl nomatch.
#[global] Arguments store : simpl never.

(** ** What a sequence of stores leaves alone

    [same_data g m m'] says that the memories have the same addresses with the
    same [g]-projections; [unchanged_but l m m'] that they agree off [l]. *)

Definition same_data {A D} (g : A → D) (m m' : mem A) : Prop :=
  g <$> m' = g <$> m.

Definition unchanged_but {A} (l : list addr) (m m' : mem A) : Prop :=
  ∀ a, a ∉ l → m' !! a = m !! a.

Section frame.
Context {A D : Type} (g : A → D).
Implicit Types (m : mem A) (l : list addr).

#[global] Instance same_data_equiv : Equivalence (same_data g).
Proof.
unfold same_data. split; [by intros m|by intros m m'|].
intros m1 m2 m3 H1 H2. by rewrite H2, H1.
Qed.

Lemma same_data_lookup m m' a x :
same_data g m m' → m !! a = Some x → ∃ x', m' !! a = Some x' ∧ g x' = g x.
Proof.
intros Hd Hx. apply (f_equal (.!! a)) in Hd.
rewrite !lookup_fmap, Hx in Hd. simpl in Hd.
destruct (m' !! a) as [x'|]; simplify_eq/=; eauto.
Qed.

Lemma same_data_lookup_r m m' a x' :
same_data g m m' → m' !! a = Some x' → ∃ x, m !! a = Some x ∧ g x = g x'.
Proof. intros Hd. apply same_data_lookup. by symmetry. Qed.

Lemma same_data_weaken {E} (h : A → E) m m' :
same_data g m m' → (∀ x y, g x = g y → h x = h y) → same_data h m m'.
Proof.
intros Hd Hgh. apply map_eq. intros a. apply (f_equal (.!! a)) in Hd.
rewrite !lookup_fmap in *.
destruct (m' !! a), (m !! a); simplify_eq/=; f_equal; auto.
Qed.

Lemma same_data_dom m m' : same_data g m m' → dom m' = dom m.
Proof. intros Hd. by rewrite <- (dom_fmap_L g m'), Hd, dom_fmap_L. Qed.

Lemma same_data_size m m' : same_data g m m' → size m' = size m.
Proof. intros Hd. by rewrite <- (map_size_fmap g m'), Hd, map_size_fmap. Qed.

#[global] Instance unchanged_but_refl l : Reflexive (@unchanged_but A l).
Proof. by intros m a. Qed.
#[global] Instance unchanged_but_trans l : Transitive (@unchanged_but A l).
Proof. intros m1 m2 m3 H1 H2 a Ha. by rewrite H2, H1. Qed.

Lemma same_data_insert m0 m a x y :
same_data g m0 m → m !! a = Some x → g y = g x →
same_data g m0 (<[a := y]> m).
Proof.
intros Hd Hx Hg. transitivity m; [done|]. apply map_eq. intros b.
rewrite !lookup_fmap.
destruct (decide (a = b)) as [->|]; simplify_map_eq; [by rewrite Hg|done].
Qed.

Lemma store_same_data p f m m' :
store p f m = Some m' → (∀ x, g (f x) = g x) → same_data g m m'.
Proof.
intros (a & x & -> & Hx & ->)%store_inv Hf.
eapply same_data_insert; [reflexivity|done|]. by rewrite Hf.
Qed.

Lemma unchanged_but_insert m0 m l a x :
unchanged_but l m0 m → a ∈ l → unchanged_but l m0 (<[a := x]> m).
Proof.
intros H Ha b Hb. rewrite lookup_insert_ne; [by apply H|]. by intros ->.
Qed.

Lemma unchanged_but_weaken l l' m m' :
unchanged_but l m m' → l ⊆ l' → unchanged_but l' m m'.
Proof. intros H Hl a Ha. apply H. set_solver. Qed.
End frame.

(** ** Configuration

    The [CONFIG_*] symbols the modelled code depends on.  The others are fixed:
    one CPU ([CONFIG_SMP] undefined), a periodic timer ([CONFIG_SCHED_TICKLESS]
    undefined, but for [Wdog.wd_timer_ticks]), no [CONFIG_PIC], no sporadic
    scheduling, no instrumentation and no priority inheritance. *)
Class Config := {
  CONFIG_DEBUG_ASSERTIONS : bool;
  CONFIG_DEBUG_FEATURES : bool;
  CONFIG_SCHED_TICKLESS_ALARM : bool;
  CONFIG_MAX_WDOGPARMS : nat;
  CONFIG_PREALLOC_WDOGS : nat;
  CONFIG_WDOG_INTRESERVE : Z;
  CONFIG_RR_INTERVAL : Z;
  CONFIG_USEC_PER_TICK : Z;
  CONFIG_MAX_TASKS : Z;
}.

(** ** Assertions

    [DEBUGASSERT] (include/assert.h) calls [up_assert], which does not return,
    when [CONFIG_DEBUG_ASSERTIONS] is defined and the condition is false; it is
    empty otherwise.  The panic is the [None] result. *)

Definition DEBUGASSERT `{Config} (cond : bool) : option unit :=
  if CONFIG_DEBUG_ASSERTIONS && negb cond then None else Some tt.

Lemma DEBUGASSERT_true `{Config} b : b = true → DEBUGASSERT b = Some tt.
Proof. intros ->. unfold DEBUGASSERT. by rewrite andb_false_r. Qed.

(** ** Kernel code

    Code that changes a state [S] and may fault: a panic or undefined behaviour
    is [None]. *)
Definition K (S A : Type) : Type := S → option (A * S).

#[global] Instance K_ret {S} : MRet (K S) := λ A a s, Some (a, s).
#[global] Instance K_bind {S} : MBind (K S) :=
  λ A B f c s, '(a, s) ← c s; f a s.
#[global] Instance K_fmap {S} : FMap (K S) :=
  λ A B f c s, '(a, s) ← c s; Some (f a, s).

(** A computation that does not change the state. *)
Definition klift {S A} (o : option A) : K S A := λ s, a ← o; Some (a, s).
Definition kget {S A} (f : S → option A) : K S A := λ s, a ← f s; Some (a, s).
Definition kput {S} (f : S → option S) : K S unit := λ s, s ← f s; Some (tt, s).
Definition kassert `{Config} {S} (b : bool) : K S unit := klift (DEBUGASSERT b).
(** [if (b) c;] *)
Definition kwhen {S} (b : bool) (c : K S unit) : K S unit := if b then c else mret tt.

Lemma K_bind_Some {S A B} (c : K S A) (f : A → K S B) s a s' :
  c s = Some (a, s') → (c ≫= f) s = f a s'.
Proof. intros Hc. unfold mbind, K_bind. by rewrite Hc. Qed.

Lemma K_bind_inv {S A B} (c : K S A) (f : A → K S B) s b s' :
  (c ≫= f) s = Some (b, s') → ∃ a s1, c s = Some (a, s1) ∧ f a s1 = Some (b, s').
Proof.
  unfold mbind at 1, K_bind. destruct (c s) as [[a s1]|]; simpl; [eauto|done].
Qed.

Lemma option_bind_eq {A B} (o : option A) (f : A → option B) x : o = Some x → o ≫= f = f x.
Proof. by intros ->. Qed.

(** Simulation: wherever the specification [d] succeeds, the code [c] does, with
    the same result, and the states stay related. *)
Definition sim {S T A} (R : S → T → Prop) (c : K S A) (d : K T A) : Prop :=
  ∀ s t a t', R s t → d t = Some (a, t') → ∃ s', c s = Some (a, s') ∧ R s' t'.

Section sim.
Context {S T : Type} (R : S → T → Prop).

Lemma sim_ret {A} (a : A) : sim R (mret a) (mret a).
Proof. intros s t b t' HR [= <- <-]. eexists. by split. Qed.

Lemma sim_bind {A B} (c : K S A) (d : K T A) (f : A → K S B) (g : A → K T B) :
  sim R c d → (∀ a, sim R (f a) (g a)) → sim R (c ≫= f) (d ≫= g).
Proof.
  intros Hc Hf s t b t' HR (a & t1 & Hd & Hg)%K_bind_inv.
  destruct (Hc s t a t1) as (s1 & Hs & HR1); [done..|].
  rewrite (K_bind_Some _ _ _ _ _ Hs). by eapply Hf.
Qed.

Lemma sim_lift {A} (o : option A) : sim R (klift o) (klift o).
Proof.
  intros s t a t' HR. unfold klift. destruct o; simpl; [|done].
  intros [= <- <-]. eauto.
Qed.

Lemma sim_assert `{Config} b : sim R (kassert b) (kassert b).
Proof. apply sim_lift. Qed.

Lemma sim_when b c d : sim R c d → sim R (kwhen b c) (kwhen b d).
Proof. destruct b; simpl; [done|]. intros. apply sim_ret. Qed.

Lemma sim_get {A} (f : S → option A) (g : T → option A) :
  (∀ s t a, R s t → g t = Some a → f s = Some a) → sim R (kget f) (kget g).
Proof.
  intros Hfg s t a t' HR. unfold kget. destruct (g t) as [b|] eqn:Hg; simpl; [|done].
  intros [= <- <-]. rewrite (Hfg _ _ _ HR Hg). simpl. eauto.
Qed.
End sim.

(** ** Flag words: [flags & bit], [flags |= bit], [flags &= ~bit] *)

Definition flag_isset (bit flags : Z) : bool := negb (Z.land flags bit =? 0)%Z.

(** ** Machine integers *)

Definition wrap_u (w : Z) (z : Z) : Z := (z mod 2 ^ w)%Z.
Definition wrap_s (w : Z) (z : Z) : Z :=
  ((z + 2 ^ (w - 1)) mod 2 ^ w - 2 ^ (w - 1))%Z.

Abbreviation u8 := (wrap_u 8).
Abbreviation u16 := (wrap_u 16).
Abbreviation u32 := (wrap_u 32).
Abbreviation s16 := (wrap_s 16).
Abbreviation s32 := (wrap_s 32).

Abbreviation INT32_MAX := 2147483647%Z.

Lemma wrap_u_small w z : (0 ≤ z < 2 ^ w)%Z → wrap_u w z = z.
Proof. intros. unfold wrap_u. by rewrite Z.mod_small. Qed.

Lemma wrap_u_idemp w x y : wrap_u w (wrap_u w x + y) = wrap_u w (x + y).
Proof. unfold wrap_u. apply Zplus_mod_idemp_l. Qed.

Lemma wrap_s_small w z :
  (0 < w)%Z → (- 2 ^ (w - 1) ≤ z < 2 ^ (w - 1))%Z → wrap_s w z = z.
Proof.
  intros Hw Hz. unfold wrap_s.
  assert (2 ^ w = 2 * 2 ^ (w - 1))%Z as ->.
  { rewrite <- Z.pow_succ_r by lia. f_equal; lia. }
  rewrite Z.mod_small; lia.
Qed.

Lemma u32_small z : (0 ≤ z < 4294967296)%Z → u32 z = z.
Proof. intros. by apply wrap_u_small. Qed.

Lemma s32_small z : (- 2147483648 ≤ z ≤ 2147483647)%Z → s32 z = z.
Proof. intros. apply wrap_s_small; [lia|]. change (2 ^ (32 - 1))%Z with 2147483648%Z. lia. Qed.

Lemma s16_small z : (- 32768 ≤ z ≤ 32767)%Z → s16 z = z.
Proof. intros. apply wrap_s_small; [lia|]. change (2 ^ (16 - 1))%Z with 32768%Z. lia. Qed.

Lemma u8_small z : (0 ≤ z < 256)%Z → u8 z = z.
Proof. intros. by apply wrap_u_small. Qed.

Lemma u16_small z : (0 ≤ z < 65536)%Z → u16 z = z.
Proof. intros. by apply wrap_u_small. Qed.

Section flags.
Implicit Types f w i j : Z.
Local Open Scope Z_scope.

Lemma flag_isset_testbit f i : 0 ≤ i → flag_isset (2 ^ i) f = Z.testbit f i.
Proof.
intros Hi. unfold flag_isset. destruct (Z.testbit f i) eqn:Hb.
- apply negb_true_iff, Z.eqb_neq. intros H0.
  assert (Z.testbit (Z.land f (2 ^ i)) i = false) as Hf by (rewrite H0; apply Z.bits_0).
  by rewrite Z.land_spec, Hb, Z.pow2_bits_true in Hf by done.
- apply negb_false_iff, Z.eqb_eq. apply Z.bits_inj'. intros j Hj.
  rewrite Z.land_spec, Z.bits_0, Z.pow2_bits_eqb by done.
  destruct (Z.eqb_spec i j) as [->|]; [by rewrite Hb|by rewrite andb_false_r].
Qed.

Lemma flag_isset_or w f i j :
0 ≤ i < w → 0 ≤ j →
flag_isset (2 ^ i) (wrap_u w (Z.lor f (2 ^ j))) =
((i =? j) || flag_isset (2 ^ i) f)%bool.
Proof.
intros Hi Hj. rewrite !flag_isset_testbit by lia. unfold wrap_u.
rewrite Z.mod_pow2_bits_low, Z.lor_spec, Z.pow2_bits_eqb by lia.
rewrite Z.eqb_sym. by destruct (Z.testbit f i), (i =? j).
Qed.

Lemma flag_isset_clear w f i j :
0 ≤ i < w → 0 ≤ j →
flag_isset (2 ^ i) (wrap_u w (Z.land f (Z.lnot (2 ^ j)))) =
(negb (i =? j) && flag_isset (2 ^ i) f)%bool.
Proof.
intros Hi Hj. rewrite !flag_isset_testbit by lia. unfold wrap_u.
rewrite Z.mod_pow2_bits_low, Z.land_spec, Z.lnot_spec, Z.pow2_bits_eqb by lia.
rewrite Z.eqb_sym. by destruct (Z.testbit f i), (i =? j).
Qed.
End flags.

(** ** Alignment *)

Section align.
Local Open Scope Z_scope.

(** The multiple of a power of two at or below [a], and the one at or above it. *)
Lemma round_down a k : 0 ≤ k → Z.land a (Z.lnot (2 ^ k - 1)) = 2 ^ k * (a / 2 ^ k).
Proof.
  intros Hk. change (2 ^ k - 1) with (Z.pred (2 ^ k)). rewrite <- Z.ones_equiv, <- Z.ldiff_land.
  rewrite Z.ldiff_ones_r, Z.shiftl_mul_pow2, Z.shiftr_div_pow2 by lia. apply Z.mul_comm.
Qed.

Lemma round_up a k :
  0 ≤ k → Z.land (a + (2 ^ k - 1)) (Z.lnot (2 ^ k - 1)) = 2 ^ k * ((a + 2 ^ k - 1) / 2 ^ k).
Proof. intros Hk. rewrite round_down by done. do 2 f_equal. lia. Qed.
End align.

(** ** Error codes (include/errno.h), returned negated by the kernel. *)

Definition OK : Z := 0.
Definition EINTR : Z := 4.
Definition EAGAIN : Z := 11.
Definition ENOMEM : Z := 12.
Definition EINVAL : Z := 22.
Definition ETIMEDOUT : Z := 116.

(** ** Automation *)

(** Break the [NoDup] facts of the context into disequalities and
    non-memberships. *)
Ltac nodup_facts :=
  repeat match goal with
  | H : NoDup (_ ++ _) |- _ => apply NoDup_app in H as (? & ? & ?)
  | H : NoDup (_ :: _) |- _ => apply NoDup_cons in H as [? ?]
  | H : _ ∉ _ :: _ |- _ => apply not_elem_of_cons in H as [? ?]
  | H : _ ∉ _ ++ _ |- _ => apply not_elem_of_app in H as [? ?]
  | H : _ ∉ [] |- _ => clear H
  end.

(** Look an address up in a memory written as a sequence of inserts. *)
Ltac solve_lookup :=
  first [ progress (simplify_map_eq); reflexivity | eassumption
        | repeat rewrite lookup_insert_ne by set_solver;
          first [ eassumption | apply lookup_insert_eq ] ].

(** Run the next store of the goal on a memory whose cells are known. *)
Ltac run_store :=
  match goal with
  | |- context [store (Some ?a) ?f ?m] =>
      erewrite (store_Some a _ f m) by solve_lookup; cbn [mbind option_bind]
  end.

Ltac solve_nodup :=
  nodup_facts;
  repeat match goal with
  | |- NoDup (_ ++ _) => apply NoDup_app; split_and!
  | |- NoDup (_ :: _) => apply NoDup_cons; split
  | |- NoDup [] => constructor
  | |- NoDup _ => assumption
  end; set_solver.

(** Case analysis on the comparisons of integers in the goal. *)
Ltac z_cases :=
  repeat match goal with
  | |- context [Z.eqb ?a ?b] => destruct (Z.eqb_spec a b)
  | |- context [Z.ltb ?a ?b] => destruct (Z.ltb_spec a b)
  | |- context [Z.leb ?a ?b] => destruct (Z.leb_spec a b)
  end.

(** Decide a closed decidable proposition by evaluation. *)
Ltac by_decide := apply (bool_decide_unpack _); vm_compute; exact I.
