(* ===== verification/Queue.v ===== *)
(** * Queue: the intrusive singly and doubly linked queues of libs/libc/queue

    [include/queue.h] declares the entries ([sq_entry_t], [dq_entry_t]) and the
    queues ([sq_queue_t], [dq_queue_t]); libs/libc/queue has one file per
    operation.  C code embeds an entry at the start of its own structure and
    casts; the classes [SqEntry] and [DqEntry] are that cast, and every
    operation is defined for any structure that has it.  A queue header is
    passed by value and returned. *)

From S2P Require Import Prelude.

(** ** Entries and queues *)

Record sq_queue_t := mk_sq { sq_head : ptr; sq_tail : ptr }.
Record dq_queue_t := mk_dq { dq_head : ptr; dq_tail : ptr }.

(** A structure whose first field is the forward link; [sq_data] is everything
    else. *)
Class SqEntry (A D : Type) := {
  sq_flink : A → ptr;
  sq_set_flink : ptr → A → A;
  sq_data : A → D;
  sq_flink_set p x : sq_flink (sq_set_flink p x) = p;
  sq_data_set p x : sq_data (sq_set_flink p x) = sq_data x;
}.
#[global] Hint Mode SqEntry ! - : typeclass_instances.

(** A structure that starts with the forward and the backward link. *)
Class DqEntry (A D : Type) := {
  dq_flink : A → ptr;
  dq_blink : A → ptr;
  dq_set_flink : ptr → A → A;
  dq_set_blink : ptr → A → A;
  dq_data : A → D;
  dq_flink_set_flink p x : dq_flink (dq_set_flink p x) = p;
  dq_blink_set_flink p x : dq_blink (dq_set_flink p x) = dq_blink x;
  dq_flink_set_blink p x : dq_flink (dq_set_blink p x) = dq_flink x;
  dq_blink_set_blink p x : dq_blink (dq_set_blink p x) = p;
  dq_data_set_flink p x : dq_data (dq_set_flink p x) = dq_data x;
  dq_data_set_blink p x : dq_data (dq_set_blink p x) = dq_data x;
}.
#[global] Hint Mode DqEntry ! - : typeclass_instances.

Create Rewrite HintDb queue_links.
#[export] Hint Rewrite @sq_flink_set @sq_data_set @dq_flink_set_flink
  @dq_blink_set_flink @dq_flink_set_blink @dq_blink_set_blink
  @dq_data_set_flink @dq_data_set_blink : queue_links.

(** The bare entries of include/queue.h. *)
Record sq_entry_t := mk_sq_entry { sqe_flink : ptr }.
Record dq_entry_t := mk_dq_entry { dqe_flink : ptr; dqe_blink : ptr }.

#[export] Program Instance sq_entry_SqEntry : SqEntry sq_entry_t unit := {|
  sq_flink := sqe_flink;
  sq_set_flink p _ := mk_sq_entry p;
  sq_data _ := tt;
|}.
Solve All Obligations with done.

#[export] Program Instance dq_entry_DqEntry : DqEntry dq_entry_t unit := {|
  dq_flink := dqe_flink;
  dq_blink := dqe_blink;
  dq_set_flink p x := mk_dq_entry p (dqe_blink x);
  dq_set_blink p x := mk_dq_entry (dqe_flink x) p;
  dq_data _ := tt;
|}.
Solve All Obligations with done.

(** A loop [while (p && go(p)) p = p->next] over the memory [m]; [n] bounds the
    number of iterations.  [S (size m)] iterations are enough for any acyclic
    list of [m] ([walk_spec]). *)
Section walk.
Context {A : Type} (next : A → ptr) (go : addr → A → bool).

Fixpoint walk (n : nat) (m : mem A) (p : ptr) : option ptr :=
  match p with
  | None => Some NULL
  | Some a =>
      x ← m !! a;
      if go a x then
        match n with O => None | S n => walk n m (next x) end
      else Some (Some a)
  end.
End walk.

(** ** List segments

    [sseg m l q]: the addresses [l] are linked forwards, the last one pointing
    at [q].  [dseg m p l q] also has the backward links, the first one pointing
    at [p]. *)

Definition hd_or (q : ptr) (l : list addr) : ptr :=
  match l with [] => q | a :: _ => Some a end.

Fixpoint last_or (p : ptr) (l : list addr) : ptr :=
  match l with [] => p | a :: l => last_or (Some a) l end.

Section segments.
Context {A : Type}.
Implicit Types (m : mem A) (l : list addr) (p q : ptr).

Fixpoint sseg (next : A → ptr) m l q : Prop :=
  match l with
  | [] => True
  | a :: l => (∃ x, m !! a = Some x ∧ next x = hd_or q l) ∧ sseg next m l q
  end.

Fixpoint dseg (next prev : A → ptr) m p l q : Prop :=
  match l with
  | [] => True
  | a :: l => (∃ x, m !! a = Some x ∧ next x = hd_or q l ∧ prev x = p) ∧
              dseg next prev m (Some a) l q
  end.

Lemma hd_or_app q l1 l2 : hd_or q (l1 ++ l2) = hd_or (hd_or q l2) l1.
Proof. by destruct l1. Qed.

Lemma last_or_app p l1 l2 : last_or p (l1 ++ l2) = last_or (last_or p l1) l2.
Proof. revert p. induction l1; simpl; auto. Qed.

Lemma last_or_last p l : last_or p l = match last l with None => p | o => o end.
Proof.
  destruct l as [|a l] using rev_ind; [done|].
  by rewrite last_or_app, last_snoc.
Qed.

Lemma last_or_ne (a b : addr) l : a ∉ b :: l → Some a ≠ last_or (Some a) (b :: l).
Proof.
  intros Ha. simpl. rewrite last_or_last. destruct (last l) eqn:Hl.
  - intros [= <-]. apply last_Some in Hl as [? ->]. set_solver.
  - set_solver.
Qed.

Lemma sseg_app next m l1 l2 q :
  sseg next m (l1 ++ l2) q ↔ sseg next m l1 (hd_or q l2) ∧ sseg next m l2 q.
Proof.
  induction l1 as [|a l1 IH]; simpl; [tauto|]. rewrite IH, hd_or_app. tauto.
Qed.

Lemma dseg_app next prev m p l1 l2 q :
  dseg next prev m p (l1 ++ l2) q ↔
  dseg next prev m p l1 (hd_or q l2) ∧ dseg next prev m (last_or p l1) l2 q.
Proof.
  revert p. induction l1 as [|a l1 IH]; intros p; simpl; [tauto|].
  rewrite IH, hd_or_app. tauto.
Qed.

Lemma sseg_frame next m m' l q :
  (∀ a, a ∈ l → m' !! a = m !! a) → sseg next m l q → sseg next m' l q.
Proof.
  induction l as [|a l IH]; simpl; [done|].
  intros Hm [Ha Hl]. split; [rewrite Hm by set_solver; done|].
  apply IH; set_solver.
Qed.

Lemma dseg_frame next prev m m' p l q :
  (∀ a, a ∈ l → m' !! a = m !! a) →
  dseg next prev m p l q → dseg next prev m' p l q.
Proof.
  revert p. induction l as [|a l IH]; intros p; simpl; [done|].
  intros Hm [Ha Hl]. split; [rewrite Hm by set_solver; done|].
  apply IH; set_solver.
Qed.

Lemma sseg_insert next m a x l q :
  a ∉ l → sseg next (<[a := x]> m) l q ↔ sseg next m l q.
Proof.
  intros Ha. split; apply sseg_frame; intros b Hb;
    rewrite lookup_insert_ne; set_solver.
Qed.

Lemma dseg_insert next prev m a x p l q :
  a ∉ l → dseg next prev (<[a := x]> m) p l q ↔ dseg next prev m p l q.
Proof.
  intros Ha. split; apply dseg_frame; intros b Hb;
    rewrite lookup_insert_ne; set_solver.
Qed.

Lemma dseg_sseg next prev m p l q : dseg next prev m p l q → sseg next m l q.
Proof. revert p. induction l; simpl; naive_solver. Qed.

Lemma sseg_dom next m l q : sseg next m l q → Forall (.∈ dom m) l.
Proof.
  induction l as [|a l IH]; simpl; [constructor|].
  intros [(x & Hx & _) Hl]. constructor; [|auto]. by eapply elem_of_dom_2.
Qed.

(** An acyclic list of [m] is no longer than [m] is large: the fuel of the
    walks is enough. *)
Lemma NoDup_dom_size m l : NoDup l → Forall (.∈ dom m) l → length l ≤ size m.
Proof.
  intros Hnd Hdom. rewrite <- size_dom, <- (size_list_to_set (C := gset addr) l) by done.
  apply subseteq_size. rewrite Forall_forall in Hdom. set_solver.
Qed.

(** The walk stops at the first entry that fails the test. *)
Fixpoint first_fail (go : addr → A → bool) m l : ptr :=
  match l with
  | [] => NULL
  | a :: l =>
      match m !! a with
      | Some x => if go a x then first_fail go m l else Some a
      | None => NULL
      end
  end.

Lemma walk_spec next go n m l :
  sseg next m l NULL → length l ≤ n →
  walk next go n m (hd_or NULL l) = Some (first_fail go m l).
Proof.
  revert n. induction l as [|a l IH]; intros n; simpl; [by destruct n|].
  intros [(x & Hx & Hnext) Hl] Hn. destruct n as [|n]; [lia|]. simpl.
  rewrite Hx. simpl. destruct (go a x); [|done].
  rewrite Hnext. apply IH; [done|lia].
Qed.

Lemma first_fail_app go m l1 l2 :
  Forall (λ a, ∃ x, m !! a = Some x ∧ go a x = true) l1 →
  first_fail go m (l1 ++ l2) = first_fail go m l2.
Proof.
  induction 1 as [|a l1 (x & Hx & Hgo) _ IH]; simpl; [done|].
  by rewrite Hx, Hgo.
Qed.
End segments.

#[global] Arguments walk : simpl never.

(** ** Singly linked queues *)

Module Sq.
Section ops.
Context {A D : Type} `{!SqEntry A D}.
Implicit Types (m : mem A) (q : sq_queue_t) (node prev : ptr).

Definition sq_init : sq_queue_t := mk_sq NULL NULL.

Definition sq_empty (q : sq_queue_t) : bool := bool_decide (sq_head q = NULL).

Definition sq_addfirst (node : ptr) (q : sq_queue_t) (m : mem A)
  : option (sq_queue_t * mem A) :=
  m ← store node (sq_set_flink (sq_head q)) m;
  let q := if bool_decide (sq_head q = NULL)
           then mk_sq (sq_head q) node else q in
  Some (mk_sq node (sq_tail q), m).

Definition sq_addlast (node : ptr) (q : sq_queue_t) (m : mem A)
  : option (sq_queue_t * mem A) :=
  m ← store node (sq_set_flink NULL) m;
  if bool_decide (sq_head q = NULL) then Some (mk_sq node node, m)
  else
    m ← store (sq_tail q) (sq_set_flink node) m;
    Some (mk_sq (sq_head q) node, m).

Definition sq_addafter (prev node : ptr) (q : sq_queue_t) (m : mem A)
  : option (sq_queue_t * mem A) :=
  if bool_decide (sq_head q = NULL) || bool_decide (prev = sq_tail q) then
    sq_addlast node q m
  else
    xprev ← deref prev m;
    m ← store node (sq_set_flink (sq_flink xprev)) m;
    m ← store prev (sq_set_flink node) m;
    Some (q, m).

(** Returns the new [queue1] and the new [queue2]. *)
Definition sq_cat (q1 q2 : sq_queue_t) (m : mem A)
  : option (sq_queue_t * sq_queue_t * mem A) :=
  if sq_empty q2 then Some (sq_init, q1, m)
  else if negb (sq_empty q1) then
    m ← store (sq_tail q2) (sq_set_flink (sq_head q1)) m;
    Some (sq_init, mk_sq (sq_head q2) (sq_tail q1), m)
  else Some (q1, q2, m).

Definition sq_remfirst (q : sq_queue_t) (m : mem A)
  : option (ptr * sq_queue_t * mem A) :=
  let ret := sq_head q in
  match ret with
  | None => Some (ret, q, m)
  | Some _ =>
      x ← deref ret m;
      let q := mk_sq (sq_flink x) (sq_tail q) in
      let q := if bool_decide (sq_head q = NULL)
               then mk_sq (sq_head q) NULL else q in
      m ← store ret (sq_set_flink NULL) m;
      Some (ret, q, m)
  end.

Definition sq_remlast (q : sq_queue_t) (m : mem A)
  : option (ptr * sq_queue_t * mem A) :=
  let ret := sq_tail q in
  match ret with
  | None => Some (ret, q, m)
  | Some _ =>
      '(q, m) ← (if bool_decide (sq_head q = sq_tail q) then Some (sq_init, m)
                 else
                   prev ← walk sq_flink (λ _ x, negb (bool_decide (sq_flink x = ret)))
                            (S (size m)) m (sq_head q);
                   match prev with
                   | None => Some (q, m)
                   | Some _ =>
                       m ← store prev (sq_set_flink NULL) m;
                       Some (mk_sq (sq_head q) prev, m)
                   end);
      m ← store ret (sq_set_flink NULL) m;
      Some (ret, q, m)
  end.

Definition sq_remafter (node : ptr) (q : sq_queue_t) (m : mem A)
  : option (ptr * sq_queue_t * mem A) :=
  x ← deref node m;
  let ret := sq_flink x in
  if negb (bool_decide (sq_head q = NULL)) && negb (bool_decide (ret = NULL)) then
    '(q, m) ← (if bool_decide (sq_tail q = ret) then
                 m ← store node (sq_set_flink NULL) m;
                 Some (mk_sq (sq_head q) node, m)
               else
                 xret ← deref ret m;
                 m ← store node (sq_set_flink (sq_flink xret)) m;
                 Some (q, m));
    m ← store ret (sq_set_flink NULL) m;
    Some (ret, q, m)
  else Some (ret, q, m).

Definition sq_rem (node : ptr) (q : sq_queue_t) (m : mem A)
  : option (sq_queue_t * mem A) :=
  if negb (bool_decide (sq_head q = NULL)) && negb (bool_decide (node = NULL)) then
    if bool_decide (node = sq_head q) then
      x ← deref node m;
      let q := mk_sq (sq_flink x) (sq_tail q) in
      Some (if bool_decide (node = sq_tail q) then mk_sq (sq_head q) NULL else q, m)
    else
      prev ← walk sq_flink (λ _ x, negb (bool_decide (sq_flink x = node)))
               (S (size m)) m (sq_head q);
      match prev with
      | None => Some (q, m)
      | Some _ => '(_, q, m) ← sq_remafter prev q m; Some (q, m)
      end
  else Some (q, m).

(** The loop of [sq_count]; [count] is a [size_t] of 32 bits. *)
Fixpoint sq_count_loop (n : nat) (m : mem A) (node : ptr) (count : Z) : option Z :=
  match node with
  | None => Some count
  | Some a =>
      x ← m !! a;
      match n with
      | O => None
      | S n => sq_count_loop n m (sq_flink x) (u32 (count + 1))
      end
  end.

Definition sq_count (q : sq_queue_t) (m : mem A) : option Z :=
  sq_count_loop (S (size m)) m (sq_head q) 0.
End ops.
End Sq.

(** ** Doubly linked queues *)

Module Dq.
Section ops.
Context {A D : Type} `{!DqEntry A D}.
Implicit Types (m : mem A) (q : dq_queue_t) (node prev next : ptr).

Definition dq_init : dq_queue_t := mk_dq NULL NULL.

Definition dq_empty (q : dq_queue_t) : bool := bool_decide (dq_head q = NULL).

(** [dq_move(q1, q2)]: the new [q1] and the new [q2]. *)
Definition dq_move (q1 q2 : dq_queue_t) : dq_queue_t * dq_queue_t :=
  (dq_init, mk_dq (dq_head q1) (dq_tail q1)).

Definition dq_addfirst (node : ptr) (q : dq_queue_t) (m : mem A)
  : option (dq_queue_t * mem A) :=
  m ← store node (dq_set_blink NULL) m;
  m ← store node (dq_set_flink (dq_head q)) m;
  if bool_decide (dq_head q = NULL) then Some (mk_dq node node, m)
  else
    m ← store (dq_head q) (dq_set_blink node) m;
    Some (mk_dq node (dq_tail q), m).

Definition dq_addlast (node : ptr) (q : dq_queue_t) (m : mem A)
  : option (dq_queue_t * mem A) :=
  m ← store node (dq_set_flink NULL) m;
  m ← store node (dq_set_blink (dq_tail q)) m;
  if bool_decide (dq_head q = NULL) then Some (mk_dq node node, m)
  else
    m ← store (dq_tail q) (dq_set_flink node) m;
    Some (mk_dq (dq_head q) node, m).

Definition dq_addafter (prev node : ptr) (q : dq_queue_t) (m : mem A)
  : option (dq_queue_t * mem A) :=
  if bool_decide (dq_head q = NULL) || bool_decide (prev = dq_tail q) then
    dq_addlast node q m
  else
    xprev ← deref prev m;
    let next := dq_flink xprev in
    m ← store node (dq_set_blink prev) m;
    m ← store node (dq_set_flink next) m;
    m ← store next (dq_set_blink node) m;
    m ← store prev (dq_set_flink node) m;
    Some (q, m).

Definition dq_addbefore (next node : ptr) (q : dq_queue_t) (m : mem A)
  : option (dq_queue_t * mem A) :=
  if bool_decide (dq_head q = NULL) || bool_decide (next = dq_head q) then
    dq_addfirst node q m
  else
    xnext ← deref next m;
    let prev := dq_blink xnext in
    m ← store node (dq_set_flink next) m;
    m ← store node (dq_set_blink prev) m;
    m ← store prev (dq_set_flink node) m;
    m ← store next (dq_set_blink node) m;
    Some (q, m).

Definition dq_cat (q1 q2 : dq_queue_t) (m : mem A)
  : option (dq_queue_t * dq_queue_t * mem A) :=
  if dq_empty q2 then
    let '(q1, q2) := dq_move q1 q2 in Some (q1, q2, m)
  else if negb (dq_empty q1) then
    m ← store (dq_tail q2) (dq_set_flink (dq_head q1)) m;
    m ← store (dq_head q1) (dq_set_blink (dq_tail q2)) m;
    Some (dq_init, mk_dq (dq_head q2) (dq_tail q1), m)
  else Some (q1, q2, m).

Definition dq_rem (node : ptr) (q : dq_queue_t) (m : mem A)
  : option (dq_queue_t * mem A) :=
  x ← deref node m;
  let prev := dq_blink x in
  let next := dq_flink x in
  '(q, m) ← match prev with
            | None => Some (mk_dq next (dq_tail q), m)
            | Some _ => m ← store prev (dq_set_flink next) m; Some (q, m)
            end;
  '(q, m) ← match next with
            | None => Some (mk_dq (dq_head q) prev, m)
            | Some _ => m ← store next (dq_set_blink prev) m; Some (q, m)
            end;
  m ← store node (dq_set_flink NULL) m;
  m ← store node (dq_set_blink NULL) m;
  Some (q, m).

Definition dq_remfirst (q : dq_queue_t) (m : mem A)
  : option (ptr * dq_queue_t * mem A) :=
  let ret := dq_head q in
  match ret with
  | None => Some (ret, q, m)
  | Some _ =>
      x ← deref ret m;
      let next := dq_flink x in
      '(q, m) ← match next with
                | None => Some (dq_init, m)
                | Some _ =>
                    m ← store next (dq_set_blink NULL) m;
                    Some (mk_dq next (dq_tail q), m)
                end;
      m ← store ret (dq_set_flink NULL) m;
      m ← store ret (dq_set_blink NULL) m;
      Some (ret, q, m)
  end.

Definition dq_remlast (q : dq_queue_t) (m : mem A)
  : option (ptr * dq_queue_t * mem A) :=
  let ret := dq_tail q in
  match ret with
  | None => Some (ret, q, m)
  | Some _ =>
      x ← deref ret m;
      let prev := dq_blink x in
      '(q, m) ← match prev with
                | None => Some (dq_init, m)
                | Some _ =>
                    m ← store prev (dq_set_flink NULL) m;
                    Some (mk_dq (dq_head q) prev, m)
                end;
      m ← store ret (dq_set_flink NULL) m;
      m ← store ret (dq_set_blink NULL) m;
      Some (ret, q, m)
  end.

Fixpoint dq_count_loop (n : nat) (m : mem A) (node : ptr) (count : Z) : option Z :=
  match node with
  | None => Some count
  | Some a =>
      x ← m !! a;
      match n with
      | O => None
      | S n => dq_count_loop n m (dq_flink x) (u32 (count + 1))
      end
  end.

Definition dq_count (q : dq_queue_t) (m : mem A) : option Z :=
  dq_count_loop (S (size m)) m (dq_head q) 0.
End ops.
End Dq.

(** ** Automation for the proofs on explicit memories *)

(** Prove a property of a memory written as a sequence of inserts. *)
Ltac solve_links :=
  nodup_facts;
  repeat match goal with
  | |- _ ∧ _ => split
  | |- True => exact I
  | |- ∃ _, _ => eexists
  | |- context [sseg _ (<[_ := _]> _) _ _] => rewrite sseg_insert by set_solver
  | |- context [dseg _ _ (<[_ := _]> _) _ _ _] => rewrite dseg_insert by set_solver
  | |- <[_ := _]> _ !! _ = Some _ => solve_lookup
  end; autorewrite with queue_links; try done.

Ltac solve_frame :=
  nodup_facts; split;
  [ repeat first [ reflexivity
                 | eapply same_data_insert; [|solve_lookup|by autorewrite with queue_links] ]
  | repeat first [ reflexivity | apply unchanged_but_insert; [|set_solver] ] ].

(** ** What the singly linked queue promises *)

Module SqSpec.
Import Sq.
Section spec.
Context {A D : Type} `{!SqEntry A D}.
Implicit Types (m : mem A) (q : sq_queue_t) (l : list addr) (a : addr).

(** The queue [q] of the memory [m] holds the entries [l], in order. *)
Definition sq_repr (m : mem A) (q : sq_queue_t) (l : list addr) : Prop :=
  NoDup l ∧ sq_head q = hd_or NULL l ∧ sq_tail q = last_or NULL l ∧
  sseg sq_flink m l NULL.

(** An operation on the entries [l] writes only links, and only theirs. *)
Definition sq_frame (l : list addr) (m m' : mem A) : Prop :=
  same_data sq_data m m' ∧ unchanged_but l m m'.

Lemma sq_repr_frame m m' q l l' :
  sq_repr m q l → unchanged_but l' m m' → l ## l' → sq_repr m' q l.
Proof.
  intros (? & ? & ? & Hseg) Hun Hdisj. repeat split; try done.
  eapply sseg_frame; [|done]. intros a Ha. apply Hun. intros ?. by eapply Hdisj.
Qed.

(** Writing fields other than the link keeps a queue. *)
Lemma sq_repr_same m m' q l :
  same_data sq_flink m m' → sq_repr m q l → sq_repr m' q l.
Proof.
  intros Hd (? & ? & ? & Hseg). repeat split; try done. clear -Hseg Hd.
  induction l as [|b l IH]; simpl in *; [done|].
  destruct Hseg as [(z & Hz & Hzn) Hseg]. split; [|auto].
  destruct (same_data_lookup _ _ _ _ _ Hd Hz) as (y & Hy & Hyz).
  exists y. by rewrite Hyz.
Qed.

Lemma sq_repr_insert m q l a x y :
  sq_repr m q l → m !! a = Some x → sq_flink y = sq_flink x →
  sq_repr (<[a := y]> m) q l.
Proof.
  intros Hr Hx Hy. eapply sq_repr_same; [|done].
  by eapply same_data_insert.
Qed.

Lemma sq_repr_dom m q l : sq_repr m q l → Forall (.∈ dom m) l.
Proof. intros (_ & _ & _ & Hseg). by eapply sseg_dom. Qed.

Lemma sq_repr_size m q l : sq_repr m q l → length l ≤ size m.
Proof. intros Hr. eapply NoDup_dom_size, sq_repr_dom, Hr. apply Hr. Qed.

Lemma sq_repr_next m q l1 a l2 :
  sq_repr m q (l1 ++ a :: l2) → ∃ x, m !! a = Some x ∧ sq_flink x = hd_or NULL l2.
Proof. intros (_ & _ & _ & Hseg). by apply sseg_app in Hseg as [_ [? _]]. Qed.

Lemma sq_addlast_spec m q l a :
  sq_repr m q l → a ∈ dom m → a ∉ l →
  ∃ q' m', sq_addlast (Some a) q m = Some (q', m') ∧
           sq_repr m' q' (l ++ [a]) ∧ sq_frame (l ++ [a]) m m'.
Proof.
  intros (Hnd & Hhd & Htl & Hseg) [x Hx]%elem_of_dom Ha.
  unfold sq_addlast. run_store.
  destruct l as [|b l _] using rev_ind; simpl in *.
  - rewrite Hhd. do 2 eexists. split; [done|]. split.
    + split; [apply NoDup_singleton|]. repeat split; simpl; solve_links.
    + solve_frame.
  - rewrite Hhd, hd_or_app. rewrite last_or_app in Htl. simpl in *. rewrite Htl.
    apply sseg_app in Hseg as [Hl [(y & Hy & Hyn) _]]. nodup_facts.
    rewrite bool_decide_eq_false_2 by (by destruct l).
    run_store. do 2 eexists. split; [done|]. split; [|solve_frame].
    split; [solve_nodup|].
    split; [by rewrite hd_or_app; destruct l|].
    split; [by rewrite !last_or_app|].
    rewrite <- app_assoc. apply sseg_app. simpl. solve_links.
Qed.

Lemma sq_addfirst_spec m q l a :
  sq_repr m q l → a ∈ dom m → a ∉ l →
  ∃ q' m', sq_addfirst (Some a) q m = Some (q', m') ∧
           sq_repr m' q' (a :: l) ∧ sq_frame (a :: l) m m'.
Proof.
  intros (Hnd & Hhd & Htl & Hseg) [x Hx]%elem_of_dom Ha.
  unfold sq_addfirst. rewrite Hhd. run_store.
  do 2 eexists. split; [done|]. split; [|solve_frame].
  split; [solve_nodup|]. split; [done|]. split.
  - destruct l as [|b l]; [done|]. by rewrite bool_decide_eq_false_2.
  - simpl. solve_links.
Qed.

Lemma sq_addafter_spec m q l1 l2 b a :
  sq_repr m q (l1 ++ b :: l2) → a ∈ dom m → a ∉ l1 ++ b :: l2 →
  ∃ q' m', sq_addafter (Some b) (Some a) q m = Some (q', m') ∧
           sq_repr m' q' (l1 ++ b :: a :: l2) ∧
           sq_frame (l1 ++ b :: a :: l2) m m'.
Proof.
  intros Hr Hdom Ha. pose proof Hr as (Hnd & Hhd & Htl & Hseg).
  unfold sq_addafter. rewrite Hhd, Htl, hd_or_app, last_or_app. simpl.
  rewrite bool_decide_eq_false_2 by (by destruct l1). simpl.
  destruct l2 as [|c l2].
  - simpl. rewrite bool_decide_eq_true_2 by done.
    destruct (sq_addlast_spec m q (l1 ++ [b]) a) as (q' & m' & Hrun & Hr' & Hf); try done.
    rewrite <- app_assoc in Hr', Hf. eauto.
  - rewrite bool_decide_eq_false_2.
    2: { apply last_or_ne. nodup_facts. set_solver. }
    apply sseg_app in Hseg as [Hl1 [(y & Hy & Hyn) Hl2]]. simpl in Hyn.
    apply elem_of_dom in Hdom as [x Hx]. nodup_facts.
    simpl. rewrite Hy. simpl. rewrite Hyn. do 2 run_store.
    do 2 eexists. split; [done|]. split; [|solve_frame].
    split; [solve_nodup|].
    split; [by rewrite Hhd, !hd_or_app|].
    split; [by rewrite Htl, !last_or_app|].
    apply sseg_app. simpl in *. destruct Hl2 as [(z & Hz & Hzn) Hl2].
    solve_links.
Qed.

Lemma sq_remfirst_spec m q a l :
  sq_repr m q (a :: l) →
  ∃ q' m', sq_remfirst q m = Some (Some a, q', m') ∧
           sq_repr m' q' l ∧ sq_frame [a] m m' ∧
           sq_flink <$> m' !! a = Some NULL.
Proof.
  intros (Hnd & Hhd & Htl & [(x & Hx & Hn) Hseg]).
  unfold sq_remfirst. simpl in Hhd. rewrite Hhd. simpl. rewrite Hx. simpl.
  rewrite Hn. run_store. do 2 eexists. split; [done|].
  split; [|split; [solve_frame|simplify_map_eq; by rewrite sq_flink_set]].
  nodup_facts. split; [done|]. split; [by destruct l|]. split.
  - by destruct l as [|b l].
  - by rewrite sseg_insert.
Qed.

Lemma sq_remfirst_empty m q :
  sq_repr m q [] → sq_remfirst q m = Some (NULL, q, m).
Proof. intros (_ & Hhd & _). unfold sq_remfirst. by rewrite Hhd. Qed.

Lemma sq_remafter_spec m q l1 b a l2 :
  sq_repr m q (l1 ++ b :: a :: l2) →
  ∃ q' m', sq_remafter (Some b) q m = Some (Some a, q', m') ∧
           sq_repr m' q' (l1 ++ b :: l2) ∧ sq_frame [b; a] m m' ∧
           sq_flink <$> m' !! a = Some NULL.
Proof.
  intros (Hnd & Hhd & Htl & Hseg).
  apply sseg_app in Hseg as [Hl1 [(y & Hy & Hyn) [(x & Hx & Hxn) Hl2]]].
  unfold sq_remafter. simpl in *. rewrite Hy. simpl. rewrite Hyn.
  rewrite Hhd, hd_or_app. simpl.
  rewrite bool_decide_eq_false_2 by (by destruct l1). simpl.
  rewrite Htl, last_or_app. simpl. nodup_facts.
  destruct l2 as [|c l2]; simpl in *.
  - rewrite bool_decide_eq_true_2 by done. simpl. do 2 run_store.
    do 2 eexists. split; [done|].
    split; [|split; [solve_frame|simplify_map_eq; by rewrite sq_flink_set]].
    split; [solve_nodup|]. split; [by rewrite hd_or_app|].
    split; [by rewrite last_or_app|]. apply sseg_app. simpl. solve_links.
  - rewrite bool_decide_eq_false_2; last first.
    { apply not_eq_sym, (last_or_ne a c l2). set_solver. }
    rewrite Hx. simpl. rewrite Hxn. do 2 run_store.
    do 2 eexists. split; [done|].
    split; [|split; [solve_frame|simplify_map_eq; by rewrite sq_flink_set]].
    split; [solve_nodup|]. split; [by rewrite Hhd, !hd_or_app|].
    split; [by rewrite Htl, !last_or_app|].
    apply sseg_app. simpl. destruct Hl2 as [(z & Hz & Hzn) Hl2].
    solve_links.
Qed.

Lemma sq_repr_nil m : sq_repr m sq_init [].
Proof. repeat split. constructor. Qed.

Lemma sq_cat_spec m q1 q2 l1 l2 :
  sq_repr m q1 l1 → sq_repr m q2 l2 → l1 ## l2 →
  ∃ q1' q2' m', sq_cat q1 q2 m = Some (q1', q2', m') ∧
    sq_repr m' q1' [] ∧ sq_repr m' q2' (l2 ++ l1) ∧ sq_frame (l2 ++ l1) m m'.
Proof.
  intros (Hnd1 & Hhd1 & Htl1 & Hseg1) (Hnd2 & Hhd2 & Htl2 & Hseg2) Hdisj.
  unfold sq_cat, sq_empty. rewrite Hhd1, Hhd2.
  destruct l2 as [|b l2 _] using rev_ind.
  { simpl. do 3 eexists. split; [done|].
    split; [apply sq_repr_nil|]. split; [by repeat split|solve_frame]. }
  rewrite hd_or_app. simpl.
  rewrite bool_decide_eq_false_2 by (by destruct l2). simpl.
  apply sseg_app in Hseg2 as [Hl2 [(y & Hy & Hyn) _]].
  rewrite last_or_app in Htl2. simpl in Htl2.
  destruct l1 as [|a l1]; simpl.
  { do 3 eexists. split; [done|]. split; [by repeat split|].
    rewrite app_nil_r. split; [|solve_frame].
    split; [done|]. split; [by rewrite Hhd2, !hd_or_app|].
    split; [by rewrite last_or_app|]. apply sseg_app; simpl; eauto. }
  rewrite Htl2. run_store.
  do 3 eexists. split; [done|].
  split; [apply sq_repr_nil|]. split; [|solve_frame].
  assert (NoDup ((l2 ++ [b]) ++ a :: l1)) as Hnd.
  { apply NoDup_app. split_and!; [done| |done]. set_solver. }
  split; [done|]. split; [by rewrite !hd_or_app; destruct l2|].
  split; [by rewrite !last_or_app, Htl1|]. nodup_facts.
  rewrite <- app_assoc. apply sseg_app. simpl in *.
  destruct Hseg1 as [(z & Hz & Hzn) Hseg1]. solve_links.
Qed.

(** The backwards search [for (prev = head; prev && prev->flink != node; ...)]
    finds the entry before [node], and nothing when [node] is not queued. *)
Lemma sq_find_prev m q l1 b a l2 :
  sq_repr m q (l1 ++ b :: a :: l2) →
  walk sq_flink (λ _ x, negb (bool_decide (sq_flink x = Some a)))
    (S (size m)) m (sq_head q) = Some (Some b).
Proof.
  intros (Hnd & Hhd & _ & Hseg). pose proof (sseg_dom _ _ _ _ Hseg) as Hdom.
  pose proof (NoDup_dom_size _ _ Hnd Hdom) as Hsize.
  rewrite Hhd. erewrite walk_spec by (done || lia).
  apply sseg_app in Hseg as [Hl1 [(y & Hy & Hyn) _]].
  rewrite first_fail_app.
  - simpl. rewrite Hy, Hyn. simpl. by rewrite bool_decide_eq_true_2.
  - clear Hdom Hhd Hyn Hsize. simpl in Hl1. induction l1 as [|c l1 IH]; constructor.
    + destruct Hl1 as [(z & Hz & Hzn) _]. exists z. split; [done|].
      rewrite bool_decide_eq_false_2; [done|]. rewrite Hzn.
      destruct l1; simpl; nodup_facts; set_solver.
    + apply IH; [by inversion Hnd|apply Hl1].
Qed.

Lemma sq_rem_spec m q l1 a l2 :
  sq_repr m q (l1 ++ a :: l2) →
  ∃ q' m', sq_rem (Some a) q m = Some (q', m') ∧
           sq_repr m' q' (l1 ++ l2) ∧ sq_frame (l1 ++ a :: l2) m m'.
Proof.
  intros Hr. pose proof Hr as (Hnd & Hhd & Htl & Hseg).
  unfold sq_rem. destruct l1 as [|b l1 _] using rev_ind; simpl in *.
  - rewrite Hhd. simpl. rewrite bool_decide_eq_true_2 by done. simpl.
    destruct Hseg as [(x & Hx & Hxn) Hseg]. rewrite Hx. simpl. rewrite Hxn.
    do 2 eexists. split; [done|]. split; [|solve_frame]. nodup_facts.
    rewrite Htl. destruct l2 as [|c l2]; simpl in *; [by rewrite bool_decide_eq_true_2|].
    rewrite bool_decide_eq_false_2; [done|].
    apply (last_or_ne a c l2). set_solver.
  - rewrite <- app_assoc in *. simpl in *.
    destruct (sq_remafter_spec _ _ _ _ _ _ Hr) as (q' & m' & Hrun & Hr' & Hf & _).
    rewrite (sq_find_prev _ _ _ _ _ _ Hr). simpl. rewrite Hrun. simpl.
    rewrite Hhd, hd_or_app. simpl.
    rewrite (bool_decide_eq_false_2 (hd_or (Some b) l1 = None)) by (by destruct l1).
    rewrite (bool_decide_eq_false_2 (Some a = _)); last first.
    { destruct l1; simpl; nodup_facts; set_solver. }
    simpl. do 2 eexists. split; [done|]. split; [done|].
    destruct Hf. split; [done|]. eapply unchanged_but_weaken; [done|]. set_solver.
Qed.

Lemma sq_remlast_spec m q l a :
  sq_repr m q (l ++ [a]) →
  ∃ q' m', sq_remlast q m = Some (Some a, q', m') ∧
           sq_repr m' q' l ∧ sq_frame (l ++ [a]) m m'.
Proof.
  intros Hr. pose proof Hr as (Hnd & Hhd & Htl & Hseg).
  rewrite last_or_app in Htl. simpl in Htl. unfold sq_remlast. rewrite Htl.
  apply sseg_app in Hseg as [Hl [(x & Hx & Hxn) _]].
  destruct l as [|b l _] using rev_ind; simpl in *.
  - rewrite Hhd, bool_decide_eq_true_2 by done. simpl. run_store.
    do 2 eexists. split; [done|]. split; [apply sq_repr_nil|solve_frame].
  - rewrite <- app_assoc in Hr. rewrite (sq_find_prev _ _ _ _ _ _ Hr). simpl.
    rewrite bool_decide_eq_false_2; last first.
    { rewrite Hhd. destruct l; simpl; nodup_facts; set_solver. }
    apply sseg_app in Hl as [Hl [(y & Hy & Hyn) _]]. nodup_facts.
    do 2 run_store. do 2 eexists. split; [done|]. split; [|solve_frame].
    split; [solve_nodup|]. split; [by rewrite Hhd; destruct l|].
    split; [by rewrite last_or_app|]. apply sseg_app. simpl. solve_links.
Qed.

Lemma sq_count_spec m q l :
  sq_repr m q l → sq_count q m = Some (u32 (Z.of_nat (length l))).
Proof.
  intros (Hnd & Hhd & _ & Hseg).
  pose proof (NoDup_dom_size _ _ Hnd (sseg_dom _ _ _ _ Hseg)) as Hsize.
  unfold sq_count. rewrite Hhd.
  assert (∀ n c, length l ≤ n →
    sq_count_loop n m (hd_or NULL l) (u32 c) = Some (u32 (c + Z.of_nat (length l)))) as Hloop.
  { clear Hhd Hsize Hnd. induction l as [|a l IH]; intros n c Hn; simpl.
    - destruct n; simpl; do 2 f_equal; lia.
    - destruct n as [|n]; [simpl in Hn; lia|]. simpl.
      destruct Hseg as [(x & Hx & Hxn) Hseg]. rewrite Hx. simpl. rewrite Hxn.
      rewrite wrap_u_idemp, IH; [do 2 f_equal; lia|done|simpl in Hn; lia]. }
  apply (Hloop (S (size m)) 0%Z). lia.
Qed.
End spec.
End SqSpec.

(** ** What the doubly linked queue promises *)

Module DqSpec.
Import Dq.
Section spec.
Context {A D : Type} `{!DqEntry A D}.
Implicit Types (m : mem A) (q : dq_queue_t) (l : list addr) (a : addr).

Definition dq_repr (m : mem A) (q : dq_queue_t) (l : list addr) : Prop :=
  NoDup l ∧ dq_head q = hd_or NULL l ∧ dq_tail q = last_or NULL l ∧
  dseg dq_flink dq_blink m NULL l NULL.

Definition dq_frame (l : list addr) (m m' : mem A) : Prop :=
  same_data dq_data m m' ∧ unchanged_but l m m'.

(** An entry that is on no queue. *)
Definition unlinked (m : mem A) (a : addr) : Prop :=
  ∃ x, m !! a = Some x ∧ dq_flink x = NULL ∧ dq_blink x = NULL.

Lemma dq_repr_nil m : dq_repr m dq_init [].
Proof. repeat split. constructor. Qed.

Lemma dq_repr_frame m m' q l l' :
  dq_repr m q l → unchanged_but l' m m' → l ## l' → dq_repr m' q l.
Proof.
  intros (? & ? & ? & Hseg) Hun Hdisj. repeat split; try done.
  eapply dseg_frame; [|done]. intros a Ha. apply Hun. intros ?. by eapply Hdisj.
Qed.

Lemma dq_repr_dom m q l : dq_repr m q l → Forall (.∈ dom m) l.
Proof. intros (_ & _ & _ & Hseg). by eapply sseg_dom, dseg_sseg. Qed.

Lemma dq_repr_size m q l : dq_repr m q l → length l ≤ size m.
Proof. intros Hr. apply NoDup_dom_size; [apply Hr|by eapply dq_repr_dom]. Qed.

Lemma dq_repr_next m q l1 a l2 :
  dq_repr m q (l1 ++ a :: l2) →
  ∃ x, m !! a = Some x ∧ dq_flink x = hd_or NULL l2 ∧ dq_blink x = last_or NULL l1.
Proof. by intros (_ & _ & _ & [_ [Hx _]]%dseg_app). Qed.

(** The links of an entry, all a queue depends on. *)
Definition dq_links (x : A) : ptr * ptr := (dq_flink x, dq_blink x).

Lemma dseg_same m m' (p p' : ptr) l :
  same_data dq_links m m' →
  dseg dq_flink dq_blink m p l p' → dseg dq_flink dq_blink m' p l p'.
Proof.
  intros Hd. revert p. induction l as [|a l IH]; intros p; simpl; [done|].
  intros [(x & Hx & Hn & Hp) Hl]. split; [|by apply IH].
  destruct (same_data_lookup _ _ _ _ _ Hd Hx) as (y & Hy & [= H1 H2]).
  exists y. by rewrite H1, H2.
Qed.

Lemma dq_repr_same m m' q l :
  same_data dq_links m m' → dq_repr m q l → dq_repr m' q l.
Proof. intros Hd (? & ? & ? & Hseg). repeat split; try done. by eapply dseg_same. Qed.

Lemma dq_addfirst_spec m q l a :
  dq_repr m q l → a ∈ dom m → a ∉ l →
  ∃ q' m', dq_addfirst (Some a) q m = Some (q', m') ∧
           dq_repr m' q' (a :: l) ∧ dq_frame (a :: l) m m'.
Proof.
  intros (Hnd & Hhd & Htl & Hseg) [x Hx]%elem_of_dom Ha.
  unfold dq_addfirst. rewrite Hhd. do 2 run_store.
  destruct l as [|b l]; simpl in *.
  - do 2 eexists. split; [done|]. split; [|solve_frame].
    split; [solve_nodup|]. repeat split; simpl; solve_links.
  - destruct Hseg as [(y & Hy & Hyn & Hyp) Hseg]. nodup_facts. run_store.
    do 2 eexists. split; [done|]. split; [|solve_frame].
    split; [solve_nodup|]. split; [done|]. split; [done|].
    simpl. solve_links.
Qed.

Lemma dq_addlast_spec m q l a :
  dq_repr m q l → a ∈ dom m → a ∉ l →
  ∃ q' m', dq_addlast (Some a) q m = Some (q', m') ∧
           dq_repr m' q' (l ++ [a]) ∧ dq_frame (l ++ [a]) m m'.
Proof.
  intros (Hnd & Hhd & Htl & Hseg) [x Hx]%elem_of_dom Ha.
  unfold dq_addlast. rewrite Hhd, Htl. do 2 run_store.
  destruct l as [|b l _] using rev_ind; simpl in *.
  - do 2 eexists. split; [done|]. split; [|solve_frame].
    split; [solve_nodup|]. repeat split; simpl; solve_links.
  - rewrite hd_or_app, !last_or_app. simpl.
    apply dseg_app in Hseg as [Hl [(y & Hy & Hyn & Hyp) _]]. nodup_facts.
    rewrite bool_decide_eq_false_2 by (by destruct l).
    run_store. do 2 eexists. split; [done|]. split; [|solve_frame].
    split; [solve_nodup|]. split; [by rewrite !hd_or_app|].
    split; [by rewrite !last_or_app|].
    rewrite <- app_assoc. apply dseg_app. simpl. solve_links.
Qed.

Lemma dq_addafter_spec m q l1 l2 b a :
  dq_repr m q (l1 ++ b :: l2) → a ∈ dom m → a ∉ l1 ++ b :: l2 →
  ∃ q' m', dq_addafter (Some b) (Some a) q m = Some (q', m') ∧
           dq_repr m' q' (l1 ++ b :: a :: l2) ∧
           dq_frame (l1 ++ b :: a :: l2) m m'.
Proof.
  intros Hr Hdom Ha. pose proof Hr as (Hnd & Hhd & Htl & Hseg).
  unfold dq_addafter. rewrite Hhd, Htl, hd_or_app, last_or_app. simpl.
  rewrite bool_decide_eq_false_2 by (by destruct l1). simpl.
  destruct l2 as [|c l2].
  - simpl. rewrite bool_decide_eq_true_2 by done.
    destruct (dq_addlast_spec m q (l1 ++ [b]) a) as (q' & m' & Hrun & Hr' & Hf); try done.
    rewrite <- app_assoc in Hr', Hf. eauto.
  - rewrite bool_decide_eq_false_2.
    2: { apply last_or_ne. nodup_facts. set_solver. }
    apply dseg_app in Hseg as [Hl1 [(y & Hy & Hyn & Hyp) [(z & Hz & Hzn & Hzp) Hl2]]].
    simpl in Hyn. apply elem_of_dom in Hdom as [x Hx]. nodup_facts.
    simpl. rewrite Hy. simpl. rewrite Hyn. do 4 run_store.
    do 2 eexists. split; [done|]. split; [|solve_frame].
    split; [solve_nodup|]. split; [by rewrite Hhd, !hd_or_app|].
    split; [by rewrite Htl, !last_or_app|].
    apply dseg_app. simpl in *. solve_links.
Qed.

Lemma dq_addbefore_spec m q l1 l2 b a :
  dq_repr m q (l1 ++ b :: l2) → a ∈ dom m → a ∉ l1 ++ b :: l2 →
  ∃ q' m', dq_addbefore (Some b) (Some a) q m = Some (q', m') ∧
           dq_repr m' q' (l1 ++ a :: b :: l2) ∧
           dq_frame (l1 ++ a :: b :: l2) m m'.
Proof.
  intros Hr Hdom Ha. pose proof Hr as (Hnd & Hhd & Htl & Hseg).
  unfold dq_addbefore. destruct l1 as [|c l1 _] using rev_ind.
  - rewrite Hhd. simpl. rewrite bool_decide_eq_true_2 by done.
    by apply dq_addfirst_spec.
  - rewrite Hhd, !hd_or_app. simpl.
    rewrite bool_decide_eq_false_2 by (by destruct l1). simpl.
    rewrite bool_decide_eq_false_2.
    2: { destruct l1; simpl; nodup_facts; set_solver. }
    apply dseg_app in Hseg as [Hl1 [(y & Hy & Hyn & Hyp) Hl2]].
    apply dseg_app in Hl1 as [Hl1 [(z & Hz & Hzn & Hzp) _]].
    apply elem_of_dom in Hdom as [x Hx]. rewrite last_or_app in Hyp. simpl in *.
    rewrite Hy. simpl. rewrite Hyp. nodup_facts.
    assert (c ≠ b) by set_solver. do 4 run_store.
    do 2 eexists. split; [done|]. split; [|solve_frame].
    split; [solve_nodup|]. split; [by rewrite Hhd, !hd_or_app|].
    split; [by rewrite Htl, !last_or_app|].
    rewrite !dseg_app, !last_or_app. simpl. solve_links.
Qed.

Lemma dq_rem_spec m q l1 a l2 :
  dq_repr m q (l1 ++ a :: l2) →
  ∃ q' m', dq_rem (Some a) q m = Some (q', m') ∧
           dq_repr m' q' (l1 ++ l2) ∧ dq_frame (l1 ++ a :: l2) m m' ∧
           unlinked m' a.
Proof.
  intros (Hnd & Hhd & Htl & Hseg).
  apply dseg_app in Hseg as [Hl1 [(x & Hx & Hxn & Hxp) Hl2]].
  unfold dq_rem. simpl in *. rewrite Hx. simpl. rewrite Hxn, Hxp.
  rewrite last_or_app in Htl. rewrite hd_or_app in Hhd. simpl in *.
  destruct l1 as [|b l1 _] using rev_ind; destruct l2 as [|c l2]; simpl in *.
  - do 2 run_store. do 2 eexists. split; [done|].
    split; [by repeat split; constructor|].
    split; [solve_frame|]. unfold unlinked. solve_links.
  - destruct Hl2 as [(z & Hz & Hzn & Hzp) Hl2]. nodup_facts.
    do 3 run_store. do 2 eexists. split; [done|]. split.
    + split; [solve_nodup|]. split; [done|]. split; [by rewrite Htl|].
      simpl. solve_links.
    + split; [solve_frame|]. unfold unlinked. solve_links.
  - apply dseg_app in Hl1 as [Hl1 [(y & Hy & Hyn & Hyp) _]].
    rewrite last_or_app in *. simpl in *. nodup_facts. assert (a ≠ b) by set_solver.
    do 3 run_store. do 2 eexists. split; [done|]. split.
    + rewrite app_nil_r. split; [solve_nodup|].
      split; [by rewrite Hhd, !hd_or_app; destruct l1|]. split; [by rewrite last_or_app|].
      apply dseg_app. simpl. solve_links.
    + split; [solve_frame|]. unfold unlinked. solve_links.
  - apply dseg_app in Hl1 as [Hl1 [(y & Hy & Hyn & Hyp) _]].
    rewrite last_or_app in *. simpl in *. destruct Hl2 as [(z & Hz & Hzn & Hzp) Hl2].
    nodup_facts. assert (a ≠ b) by set_solver. assert (b ≠ c) by set_solver.
    do 4 run_store. do 2 eexists. split; [done|]. split.
    + split; [solve_nodup|]. split; [by rewrite Hhd, !hd_or_app; destruct l1|].
      split; [by rewrite Htl, !last_or_app|].
      rewrite !dseg_app, last_or_app. simpl. solve_links.
    + split; [solve_frame|]. unfold unlinked. solve_links.
Qed.

Lemma dq_remfirst_spec m q a l :
  dq_repr m q (a :: l) →
  ∃ q' m', dq_remfirst q m = Some (Some a, q', m') ∧
           dq_repr m' q' l ∧ dq_frame (a :: l) m m' ∧ unlinked m' a.
Proof.
  intros (Hnd & Hhd & Htl & [(x & Hx & Hxn & Hxp) Hseg]).
  unfold dq_remfirst. simpl in Hhd. rewrite Hhd. simpl. rewrite Hx. simpl.
  rewrite Hxn. destruct l as [|b l]; simpl in *.
  - do 2 run_store. do 2 eexists. split; [done|].
    split; [apply dq_repr_nil|]. split; [solve_frame|]. unfold unlinked. solve_links.
  - destruct Hseg as [(y & Hy & Hyn & Hyp) Hseg]. nodup_facts.
    do 3 run_store. do 2 eexists. split; [done|]. split.
    + split; [solve_nodup|]. split; [done|]. split; [done|]. simpl. solve_links.
    + split; [solve_frame|]. unfold unlinked. solve_links.
Qed.

Lemma dq_remfirst_empty m q :
  dq_repr m q [] → dq_remfirst q m = Some (NULL, q, m).
Proof. intros (_ & Hhd & _). unfold dq_remfirst. by rewrite Hhd. Qed.

Lemma dq_remlast_spec m q a l :
  dq_repr m q (l ++ [a]) →
  ∃ q' m', dq_remlast q m = Some (Some a, q', m') ∧
           dq_repr m' q' l ∧ dq_frame (l ++ [a]) m m' ∧ unlinked m' a.
Proof.
  intros (Hnd & Hhd & Htl & Hseg).
  apply dseg_app in Hseg as [Hl [(x & Hx & Hxn & Hxp) _]].
  unfold dq_remlast. rewrite last_or_app in Htl. simpl in *. rewrite Htl. simpl.
  rewrite Hx. simpl. rewrite Hxp. destruct l as [|b l _] using rev_ind; simpl in *.
  - do 2 run_store. do 2 eexists. split; [done|].
    split; [apply dq_repr_nil|]. split; [solve_frame|]. unfold unlinked. solve_links.
  - apply dseg_app in Hl as [Hl [(y & Hy & Hyn & Hyp) _]].
    rewrite last_or_app in *. simpl in *. nodup_facts. assert (a ≠ b) by set_solver.
    do 3 run_store. do 2 eexists. split; [done|]. split.
    + split; [solve_nodup|]. split; [by rewrite Hhd, !hd_or_app; destruct l|].
      split; [by rewrite last_or_app|]. apply dseg_app. simpl. solve_links.
    + split; [solve_frame|]. unfold unlinked. solve_links.
Qed.

Lemma dq_cat_spec m q1 q2 l1 l2 :
  dq_repr m q1 l1 → dq_repr m q2 l2 → l1 ## l2 →
  ∃ q1' q2' m', dq_cat q1 q2 m = Some (q1', q2', m') ∧
    dq_repr m' q1' [] ∧ dq_repr m' q2' (l2 ++ l1) ∧ dq_frame (l2 ++ l1) m m'.
Proof.
  intros (Hnd1 & Hhd1 & Htl1 & Hseg1) (Hnd2 & Hhd2 & Htl2 & Hseg2) Hdisj.
  unfold dq_cat, dq_empty, dq_move. rewrite Hhd1, Hhd2.
  destruct l2 as [|b l2 _] using rev_ind.
  { simpl. do 3 eexists. split; [done|].
    split; [apply dq_repr_nil|]. split; [by repeat split|solve_frame]. }
  rewrite hd_or_app. simpl.
  rewrite bool_decide_eq_false_2 by (by destruct l2). simpl.
  apply dseg_app in Hseg2 as [Hl2 [(y & Hy & Hyn & Hyp) _]].
  rewrite last_or_app in Htl2. simpl in Htl2.
  destruct l1 as [|a l1]; simpl.
  { do 3 eexists. split; [done|]. split; [by repeat split|].
    rewrite app_nil_r. split; [|solve_frame].
    split; [done|]. split; [by rewrite Hhd2, !hd_or_app|].
    split; [by rewrite last_or_app|]. apply dseg_app; simpl; eauto 10. }
  destruct Hseg1 as [(z & Hz & Hzn & Hzp) Hseg1].
  assert (a ≠ b) by set_solver. rewrite Htl2. do 2 run_store.
  do 3 eexists. split; [done|].
  split; [apply dq_repr_nil|]. split; [|solve_frame].
  split; [apply NoDup_app; split_and!; [done|set_solver|done]|].
  split; [by rewrite !hd_or_app; destruct l2|].
  split; [by rewrite !last_or_app, Htl1|].
  rewrite !dseg_app, last_or_app. simpl in *. solve_links.
Qed.

Lemma dq_count_spec m q l :
  dq_repr m q l → dq_count q m = Some (u32 (Z.of_nat (length l))).
Proof.
  intros Hr. pose proof Hr as (Hnd & Hhd & _ & Hseg).
  pose proof (NoDup_dom_size _ _ Hnd (dq_repr_dom _ _ _ Hr)) as Hsize.
  apply dseg_sseg in Hseg. unfold dq_count. rewrite Hhd.
  assert (∀ n c, length l ≤ n →
    dq_count_loop n m (hd_or NULL l) (u32 c) = Some (u32 (c + Z.of_nat (length l)))) as Hloop.
  { clear Hhd Hsize Hnd Hr. induction l as [|a l IH]; intros n c Hn; simpl.
    - destruct n; simpl; do 2 f_equal; lia.
    - destruct n as [|n]; [simpl in Hn; lia|]. simpl.
      destruct Hseg as [(x & Hx & Hxn) Hseg]. rewrite Hx. simpl. rewrite Hxn.
      rewrite wrap_u_idemp, IH; [do 2 f_equal; lia|done|simpl in Hn; lia]. }
  apply (Hloop (S (size m)) 0%Z). lia.
Qed.
End spec.
End DqSpec.
