(* ===== verification/QueueRefine.v ===== *)
(** * QueueRefine: the queue API refines an abstract sequence of entries

    The abstract state of a queue is the list of the addresses queued, in
    order; [sq_abs] and [dq_abs] say what each call of the API does to it and
    when it may be called.  The theorems run any sequence of calls on the
    pointer representation and on the list side by side. *)

From S2P Require Import Prelude Queue.
Import Sq Dq SqSpec DqSpec.

(** Abstract operations on the list of queued addresses. *)
Fixpoint insert_after (b a : addr) (l : list addr) : list addr :=
  match l with
  | [] => []
  | c :: l => if bool_decide (c = b) then c :: a :: l else c :: insert_after b a l
  end.

Fixpoint insert_before (b a : addr) (l : list addr) : list addr :=
  match l with
  | [] => []
  | c :: l => if bool_decide (c = b) then a :: c :: l else c :: insert_before b a l
  end.

Fixpoint remove_first (a : addr) (l : list addr) : list addr :=
  match l with
  | [] => []
  | c :: l => if bool_decide (c = a) then l else c :: remove_first a l
  end.

(** The entry after [b]. *)
Fixpoint next_in (b : addr) (l : list addr) : ptr :=
  match l with
  | [] => NULL
  | c :: l => if bool_decide (c = b) then hd_or NULL l else next_in b l
  end.

Definition remove_after (b : addr) (l : list addr) : list addr :=
  match next_in b l with Some a => remove_first a l | None => l end.

Lemma insert_after_app b a l1 l2 :
  b ∉ l1 → insert_after b a (l1 ++ b :: l2) = l1 ++ b :: a :: l2.
Proof.
  induction l1 as [|c l1 IH]; intros Hb; simpl.
  - by rewrite bool_decide_eq_true_2.
  - rewrite bool_decide_eq_false_2 by set_solver. rewrite IH; set_solver.
Qed.

Lemma insert_before_app b a l1 l2 :
  b ∉ l1 → insert_before b a (l1 ++ b :: l2) = l1 ++ a :: b :: l2.
Proof.
  induction l1 as [|c l1 IH]; intros Hb; simpl.
  - by rewrite bool_decide_eq_true_2.
  - rewrite bool_decide_eq_false_2 by set_solver. rewrite IH; set_solver.
Qed.

Lemma remove_first_app a l1 l2 :
  a ∉ l1 → remove_first a (l1 ++ a :: l2) = l1 ++ l2.
Proof.
  induction l1 as [|c l1 IH]; intros Hb; simpl.
  - by rewrite bool_decide_eq_true_2.
  - rewrite bool_decide_eq_false_2 by set_solver. rewrite IH; set_solver.
Qed.

Lemma remove_first_notin a l : a ∉ l → remove_first a l = l.
Proof.
  induction l as [|c l IH]; intros Ha; simpl; [done|].
  rewrite bool_decide_eq_false_2 by set_solver. rewrite IH; set_solver.
Qed.

Lemma next_in_app b l1 l2 : b ∉ l1 → next_in b (l1 ++ b :: l2) = hd_or NULL l2.
Proof.
  induction l1 as [|c l1 IH]; intros Hb; simpl.
  - by rewrite bool_decide_eq_true_2.
  - rewrite bool_decide_eq_false_2 by set_solver. apply IH. set_solver.
Qed.

(** What a call returns. *)
Inductive qret := RVoid | RPtr (p : ptr) | RCount (n : Z).

Definition last_ptr (l : list addr) : ptr := last_or NULL l.

(** ** The singly linked queue *)

Inductive sq_call :=
  | SqAddFirst (a : addr) | SqAddLast (a : addr) | SqAddAfter (b a : addr)
  | SqRemFirst | SqRemLast | SqRemAfter (b : addr) | SqRem (a : addr) | SqCount.

(** One call on the list: [None] when its precondition fails. *)
Definition sq_abs (c : sq_call) (l : list addr) : option (qret * list addr) :=
  match c with
  | SqAddFirst a => if bool_decide (a ∈ l) then None else Some (RVoid, a :: l)
  | SqAddLast a => if bool_decide (a ∈ l) then None else Some (RVoid, l ++ [a])
  | SqAddAfter b a =>
      if bool_decide (b ∈ l) && negb (bool_decide (a ∈ l))
      then Some (RVoid, insert_after b a l) else None
  | SqRemFirst => Some (RPtr (hd_or NULL l), tail l)
  | SqRemLast => Some (RPtr (last_ptr l), removelast l)
  | SqRemAfter b =>
      if bool_decide (b ∈ l) then Some (RPtr (next_in b l), remove_after b l) else None
  | SqRem a => Some (RVoid, remove_first a l)
  | SqCount => Some (RCount (u32 (Z.of_nat (length l))), l)
  end.

(** The entries a call adds. *)
Definition sq_adds (c : sq_call) : list addr :=
  match c with SqAddFirst a | SqAddLast a | SqAddAfter _ a => [a] | _ => [] end.

Ltac refine_done := simpl; do 2 eexists; split_and!; done.

Section run.
Context {S C : Type} (step : C → S → option (qret * S)).
Fixpoint run (cs : list C) (s : S) : option (list qret * S) :=
  match cs with
  | [] => Some ([], s)
  | c :: cs => '(r, s) ← step c s; '(rs, s) ← run cs s; Some (r :: rs, s)
  end.
End run.

(** A step-wise simulation lifts to runs. *)
Lemma run_sim {S T C} (abs : C → T → option (qret * T)) (exec : C → S → option (qret * S))
    (R : S → T → Prop) (ok : C → Prop) :
  (∀ c s t r t', R s t → ok c → abs c t = Some (r, t') →
    ∃ s', exec c s = Some (r, s') ∧ R s' t') →
  ∀ cs s t rs t', R s t → Forall ok cs → run abs cs t = Some (rs, t') →
    ∃ s', run exec cs s = Some (rs, s') ∧ R s' t'.
Proof.
  intros Hstep cs. induction cs as [|c cs IH]; intros s t rs t' HR Hok Hrun; simpl in *.
  - simplify_eq. eauto.
  - apply Forall_cons in Hok as [Hc Hcs].
    destruct (abs c t) as [[r t1]|] eqn:Habs; simpl in Hrun; [|done].
    destruct (run abs cs t1) as [[rs1 t2]|] eqn:Hrun1; simplify_eq/=.
    destruct (Hstep c s t r t1) as (s1 & -> & HR1); [done..|]. simpl.
    destruct (IH s1 t1 rs1 t') as (s2 & -> & HR2); [done..|]. simpl. eauto.
Qed.

Section sq.
Context {A D : Type} `{!SqEntry A D}.
Implicit Types (m : mem A) (q : sq_queue_t) (l : list addr).

Definition sq_exec (c : sq_call) (s : sq_queue_t * mem A)
  : option (qret * (sq_queue_t * mem A)) :=
  let '(q, m) := s in
  match c with
  | SqAddFirst a => s ← sq_addfirst (Some a) q m; Some (RVoid, s)
  | SqAddLast a => s ← sq_addlast (Some a) q m; Some (RVoid, s)
  | SqAddAfter b a => s ← sq_addafter (Some b) (Some a) q m; Some (RVoid, s)
  | SqRemFirst => '(p, q, m) ← sq_remfirst q m; Some (RPtr p, (q, m))
  | SqRemLast => '(p, q, m) ← sq_remlast q m; Some (RPtr p, (q, m))
  | SqRemAfter b => '(p, q, m) ← sq_remafter (Some b) q m; Some (RPtr p, (q, m))
  | SqRem a => s ← sq_rem (Some a) q m; Some (RVoid, s)
  | SqCount => n ← sq_count q m; Some (RCount n, (q, m))
  end.

(** Searching for an entry that is not queued finds nothing. *)
Lemma sq_rem_notin m q l a :
  sq_repr m q l → a ∉ l → sq_rem (Some a) q m = Some (q, m).
Proof.
  intros (Hnd & Hhd & Htl & Hseg) Ha.
  pose proof (NoDup_dom_size _ _ Hnd (sseg_dom _ _ _ _ Hseg)).
  unfold sq_rem. destruct l as [|b l]; simpl in Hhd.
  { by rewrite Hhd. }
  rewrite Hhd. simpl. rewrite bool_decide_eq_false_2 by set_solver.
  change (Some b) with (hd_or NULL (b :: l)).
  erewrite walk_spec by (done || lia).
  assert (∀ k, sseg sq_flink m k NULL → a ∉ k →
    first_fail (λ _ x, negb (bool_decide (sq_flink x = Some a))) m k = NULL) as Hff.
  { clear. induction k as [|c k IH]; simpl; [done|].
    intros [(x & Hx & Hxn) Hk] Ha. rewrite Hx, Hxn.
    rewrite bool_decide_eq_false_2 by (destruct k; simpl; set_solver).
    simpl. apply IH; set_solver. }
  by rewrite (Hff (b :: l)).
Qed.

Lemma sq_remafter_last m q l b :
  sq_repr m q (l ++ [b]) → sq_remafter (Some b) q m = Some (NULL, q, m).
Proof.
  intros (_ & _ & _ & [_ [(x & Hx & Hxn) _]]%sseg_app). unfold sq_remafter.
  simpl in *. rewrite Hx. simpl. rewrite Hxn. by rewrite andb_false_r.
Qed.

(** One call: if the list allows it and the entry added is allocated, the
    pointer code returns the same result and represents the new list. *)
Lemma sq_exec_refines c m q l r l' :
  sq_repr m q l → Forall (.∈ dom m) (sq_adds c) → sq_abs c l = Some (r, l') →
  ∃ q' m', sq_exec c (q, m) = Some (r, (q', m')) ∧ sq_repr m' q' l' ∧
           same_data sq_data m m'.
Proof.
  intros Hr Hdom Habs.
  destruct c; simpl in *; rewrite ?Forall_cons in Hdom;
    repeat case_bool_decide; simplify_eq/=.
  - destruct (sq_addfirst_spec m q l a) as (? & ? & -> & ? & []); try refine_done; naive_solver.
  - destruct (sq_addlast_spec m q l a) as (? & ? & -> & ? & []); try refine_done; naive_solver.
  - destruct (list_elem_of_split_l l b) as (l1 & l2 & -> & ?); [done|].
    destruct (sq_addafter_spec m q l1 l2 b a) as (? & ? & -> & ? & []);
      [done|naive_solver|done|]. rewrite insert_after_app by done. refine_done.
  - destruct l as [|a l]; simpl.
    + rewrite (sq_remfirst_empty _ _ Hr). simpl. refine_done.
    + destruct (sq_remfirst_spec m q a l Hr) as (? & ? & -> & ? & [] & _). simpl. refine_done.
  - destruct l as [|a l _] using rev_ind.
    + destruct Hr as (? & ? & Htl & ?). unfold sq_remlast. rewrite Htl. simpl.
      refine_done.
    + destruct (sq_remlast_spec m q l a Hr) as (? & ? & -> & ? & []).
      unfold last_ptr. rewrite last_or_app, removelast_last. simpl. refine_done.
  - destruct (list_elem_of_split_l l b) as (l1 & l2 & -> & ?); [done|].
    unfold remove_after. rewrite next_in_app by done.
    destruct l2 as [|a l2]; simpl.
    + rewrite (sq_remafter_last _ _ _ _ Hr). simpl. refine_done.
    + destruct (sq_remafter_spec m q l1 b a l2 Hr) as (? & ? & -> & Hr' & [] & _).
      change (b :: a :: l2) with ([b] ++ a :: l2) in *. rewrite app_assoc.
      destruct Hr as [Hnd _]. rewrite app_assoc in Hnd.
      rewrite remove_first_app by (nodup_facts; set_solver).
      rewrite <- app_assoc. simpl. refine_done.
  - destruct (decide (a ∈ l)) as [Ha|Ha].
    + destruct (list_elem_of_split_l l a Ha) as (l1 & l2 & -> & ?).
      destruct (sq_rem_spec m q l1 a l2 Hr) as (? & ? & -> & ? & []).
      rewrite remove_first_app by done. simpl. refine_done.
    + rewrite (sq_rem_notin m q l a), remove_first_notin by done. simpl. refine_done.
  - rewrite (sq_count_spec _ _ _ Hr). simpl. refine_done.
Qed.

(** C31: any sequence of calls the abstract list allows runs without fault on
    the linked representation, returns the same results, represents the same
    final sequence and leaves every field but the links alone. *)
Theorem sq_api_refines_list (cs : list sq_call) m q l rs l' :
  sq_repr m q l →
  Forall (λ c, Forall (.∈ dom m) (sq_adds c)) cs →
  run sq_abs cs l = Some (rs, l') →
  ∃ q' m', run sq_exec cs (q, m) = Some (rs, (q', m')) ∧
           sq_repr m' q' l' ∧ same_data sq_data m m'.
Proof.
  intros Hr Hok Hrun.
  destruct (run_sim sq_abs sq_exec
    (λ s l, sq_repr s.2 s.1 l ∧ same_data sq_data m s.2)
    (λ c, Forall (.∈ dom m) (sq_adds c))) with cs (q, m) l rs l'
    as ([q' m'] & Hrun' & Hr' & Hd); [|done..|eauto].
  intros c [q1 m1] l1 r l2 [Hr1 Hd1] Hc Habs. simpl in *.
  destruct (sq_exec_refines c m1 q1 l1 r l2) as (q2 & m2 & Hex & Hr2 & Hd2);
    [done|by rewrite (same_data_dom _ _ _ Hd1)|done|].
  exists (q2, m2). split_and!; [done..|by etrans].
Qed.
End sq.

(** ** The doubly linked queue *)

Inductive dq_call :=
  | DqAddFirst (a : addr) | DqAddLast (a : addr)
  | DqAddAfter (b a : addr) | DqAddBefore (b a : addr)
  | DqRemFirst | DqRemLast | DqRem (a : addr) | DqCount.

(** [dq_rem] may only be called on a queued entry. *)
Definition dq_abs (c : dq_call) (l : list addr) : option (qret * list addr) :=
  match c with
  | DqAddFirst a => if bool_decide (a ∈ l) then None else Some (RVoid, a :: l)
  | DqAddLast a => if bool_decide (a ∈ l) then None else Some (RVoid, l ++ [a])
  | DqAddAfter b a =>
      if bool_decide (b ∈ l) && negb (bool_decide (a ∈ l))
      then Some (RVoid, insert_after b a l) else None
  | DqAddBefore b a =>
      if bool_decide (b ∈ l) && negb (bool_decide (a ∈ l))
      then Some (RVoid, insert_before b a l) else None
  | DqRemFirst => Some (RPtr (hd_or NULL l), tail l)
  | DqRemLast => Some (RPtr (last_ptr l), removelast l)
  | DqRem a => if bool_decide (a ∈ l) then Some (RVoid, remove_first a l) else None
  | DqCount => Some (RCount (u32 (Z.of_nat (length l))), l)
  end.

Definition dq_adds (c : dq_call) : list addr :=
  match c with
  | DqAddFirst a | DqAddLast a | DqAddAfter _ a | DqAddBefore _ a => [a]
  | _ => []
  end.

Section dq.
Context {A D : Type} `{!DqEntry A D}.
Implicit Types (m : mem A) (q : dq_queue_t) (l : list addr).

Definition dq_exec (c : dq_call) (s : dq_queue_t * mem A)
  : option (qret * (dq_queue_t * mem A)) :=
  let '(q, m) := s in
  match c with
  | DqAddFirst a => s ← dq_addfirst (Some a) q m; Some (RVoid, s)
  | DqAddLast a => s ← dq_addlast (Some a) q m; Some (RVoid, s)
  | DqAddAfter b a => s ← dq_addafter (Some b) (Some a) q m; Some (RVoid, s)
  | DqAddBefore b a => s ← dq_addbefore (Some b) (Some a) q m; Some (RVoid, s)
  | DqRemFirst => '(p, q, m) ← dq_remfirst q m; Some (RPtr p, (q, m))
  | DqRemLast => '(p, q, m) ← dq_remlast q m; Some (RPtr p, (q, m))
  | DqRem a => s ← dq_rem (Some a) q m; Some (RVoid, s)
  | DqCount => n ← dq_count q m; Some (RCount n, (q, m))
  end.

Lemma dq_exec_refines c m q l r l' :
  dq_repr m q l → Forall (.∈ dom m) (dq_adds c) → dq_abs c l = Some (r, l') →
  ∃ q' m', dq_exec c (q, m) = Some (r, (q', m')) ∧ dq_repr m' q' l' ∧
           same_data dq_data m m'.
Proof.
  intros Hr Hdom Habs.
  destruct c; simpl in *; rewrite ?Forall_cons in Hdom;
    repeat case_bool_decide; simplify_eq/=.
  - destruct (dq_addfirst_spec m q l a) as (? & ? & -> & ? & []); try refine_done; naive_solver.
  - destruct (dq_addlast_spec m q l a) as (? & ? & -> & ? & []); try refine_done; naive_solver.
  - destruct (list_elem_of_split_l l b) as (l1 & l2 & -> & ?); [done|].
    destruct (dq_addafter_spec m q l1 l2 b a) as (? & ? & -> & ? & []);
      [done|naive_solver|done|]. rewrite insert_after_app by done. refine_done.
  - destruct (list_elem_of_split_l l b) as (l1 & l2 & -> & ?); [done|].
    destruct (dq_addbefore_spec m q l1 l2 b a) as (? & ? & -> & ? & []);
      [done|naive_solver|done|]. rewrite insert_before_app by done. refine_done.
  - destruct l as [|a l].
    + rewrite (dq_remfirst_empty _ _ Hr). refine_done.
    + destruct (dq_remfirst_spec m q a l Hr) as (? & ? & -> & ? & [] & _). refine_done.
  - destruct l as [|a l _] using rev_ind.
    + destruct Hr as (? & ? & Htl & ?). unfold dq_remlast. rewrite Htl. refine_done.
    + destruct (dq_remlast_spec m q a l Hr) as (? & ? & -> & ? & [] & _).
      unfold last_ptr. rewrite last_or_app, removelast_last. refine_done.
  - destruct (list_elem_of_split_l l a) as (l1 & l2 & -> & ?); [done|].
    destruct (dq_rem_spec m q l1 a l2 Hr) as (? & ? & -> & ? & [] & _).
    rewrite remove_first_app by done. refine_done.
  - rewrite (dq_count_spec _ _ _ Hr). refine_done.
Qed.

(** C32: any sequence of calls the abstract list allows (in particular
    [dq_rem] only on queued entries) runs without fault on the doubly linked
    representation, returns the same results, represents the same final
    sequence and leaves every field but the links alone. *)
Theorem dq_api_refines_list (cs : list dq_call) m q l rs l' :
  dq_repr m q l →
  Forall (λ c, Forall (.∈ dom m) (dq_adds c)) cs →
  run dq_abs cs l = Some (rs, l') →
  ∃ q' m', run dq_exec cs (q, m) = Some (rs, (q', m')) ∧
           dq_repr m' q' l' ∧ same_data dq_data m m'.
Proof.
  intros Hr Hok Hrun.
  destruct (run_sim dq_abs dq_exec
    (λ s l, dq_repr s.2 s.1 l ∧ same_data dq_data m s.2)
    (λ c, Forall (.∈ dom m) (dq_adds c))) with cs (q, m) l rs l'
    as ([q' m'] & Hrun' & Hr' & Hd); [|done..|eauto].
  intros c [q1 m1] l1 r l2 [Hr1 Hd1] Hc Habs. simpl in *.
  destruct (dq_exec_refines c m1 q1 l1 r l2) as (q2 & m2 & Hex & Hr2 & Hd2);
    [done|by rewrite (same_data_dom _ _ _ Hd1)|done|].
  exists (q2, m2). split_and!; [done..|by etrans].
Qed.
End dq.

(** ** Concrete queues *)

(** Three bare entries, of which the first two are queued. *)
Definition demo_sq_mem : mem sq_entry_t :=
  {[1%positive := mk_sq_entry (Some 2%positive); 2%positive := mk_sq_entry NULL;
    3%positive := mk_sq_entry NULL]}.
Definition demo_sq : sq_queue_t := mk_sq (Some 1%positive) (Some 2%positive).
Definition demo_sq_calls : list sq_call :=
  [SqAddAfter 1 3; SqRemLast; SqRem 1; SqAddFirst 2; SqRemAfter 2; SqCount].

Lemma demo_sq_repr : sq_repr demo_sq_mem demo_sq [1%positive; 2%positive].
Proof.
  split; [solve_nodup|]. split; [done|]. split; [done|].
  split; [by eexists|]. split; [by eexists|done].
Qed.

Lemma sq_api_refines_list_witness :
  ∃ q' m', run sq_exec demo_sq_calls (demo_sq, demo_sq_mem) =
             Some ([RVoid; RPtr (Some 2%positive); RVoid; RVoid; RPtr (Some 3%positive);
                    RCount 1], (q', m')) ∧
           sq_repr m' q' [2%positive] ∧ same_data sq_data demo_sq_mem m'.
Proof.
  apply (sq_api_refines_list demo_sq_calls demo_sq_mem demo_sq [1%positive; 2%positive]).
  - apply demo_sq_repr.
  - repeat constructor; vm_compute; eauto.
  - reflexivity.
Defined.

Definition demo_dq_mem : mem dq_entry_t :=
  {[1%positive := mk_dq_entry (Some 2%positive) NULL;
    2%positive := mk_dq_entry NULL (Some 1%positive);
    3%positive := mk_dq_entry NULL NULL]}.
Definition demo_dq : dq_queue_t := mk_dq (Some 1%positive) (Some 2%positive).
Definition demo_dq_calls : list dq_call :=
  [DqAddBefore 1 3; DqRem 1; DqRemLast; DqAddAfter 3 2; DqAddFirst 1; DqCount].

Lemma demo_dq_repr : dq_repr demo_dq_mem demo_dq [1%positive; 2%positive].
Proof.
  split; [solve_nodup|]. split; [done|]. split; [done|].
  split; [by eexists|]. split; [by eexists|done].
Qed.

Lemma dq_api_refines_list_witness :
  ∃ q' m', run dq_exec demo_dq_calls (demo_dq, demo_dq_mem) =
             Some ([RVoid; RVoid; RPtr (Some 2%positive); RVoid; RVoid; RCount 3],
                   (q', m')) ∧
           dq_repr m' q' [1%positive; 3%positive; 2%positive] ∧
           same_data dq_data demo_dq_mem m'.
Proof.
  apply (dq_api_refines_list demo_dq_calls demo_dq_mem demo_dq [1%positive; 2%positive]).
  - apply demo_dq_repr.
  - repeat constructor; vm_compute; eauto.
  - reflexivity.
Defined.
