(* ===== verification/Wdog.v ===== *)
(** * Wdog: the watchdog timers of sched/wdog

    The active timers are a singly linked queue ordered by expiration; each
    holds in [lag] the ticks between the expiration of the timer before it and
    its own.  This file models the seven files of sched/wdog: data, operations
    and the watchdog interrupt.  Watchdog functions are arbitrary code: the
    argument [wdentry] of [wd_expiration] and [wd_timer].  Critical sections
    make each operation atomic, so an operation is a function on the state. *)

From S2P Require Import Prelude Queue.
Import Sq.

(** ** Data: include/nuttx/wdog.h *)

Record wdog_s := mk_wdog {
  next : ptr;          (* support for singly linked lists *)
  func : Z;            (* the function to execute when the delay expires *)
  lag : Z;             (* int: timer associated with the delay *)
  flags : Z;           (* uint8_t: see WDOGF_* *)
  argc : Z;            (* uint8_t: the number of parameters to pass *)
  parm : list Z;       (* wdparm_t parm[CONFIG_MAX_WDOGPARMS] *)
}.

Definition set_next (p : ptr) (w : wdog_s) : wdog_s :=
  mk_wdog p (func w) (lag w) (flags w) (argc w) (parm w).
Definition set_lag (z : Z) (w : wdog_s) : wdog_s :=
  mk_wdog (next w) (func w) z (flags w) (argc w) (parm w).
Definition set_flags (z : Z) (w : wdog_s) : wdog_s :=
  mk_wdog (next w) (func w) (lag w) z (argc w) (parm w).
Definition set_call (f n : Z) (ps : list Z) (w : wdog_s) : wdog_s :=
  mk_wdog (next w) f (lag w) (flags w) n ps.

(** Bits 0, 1 and 2 of [flags]. *)
Definition WDOGF_ACTIVE : Z := 1.
Definition WDOGF_ALLOCED : Z := 2.
Definition WDOGF_STATIC : Z := 4.

Definition WDOG_ISACTIVE (w : wdog_s) : bool := flag_isset WDOGF_ACTIVE (flags w).
Definition WDOG_ISALLOCED (w : wdog_s) : bool := flag_isset WDOGF_ALLOCED (flags w).
Definition WDOG_ISSTATIC (w : wdog_s) : bool := flag_isset WDOGF_STATIC (flags w).
Definition WDOG_SETACTIVE (w : wdog_s) : wdog_s :=
  set_flags (u8 (Z.lor (flags w) WDOGF_ACTIVE)) w.
Definition WDOG_CLRACTIVE (w : wdog_s) : wdog_s :=
  set_flags (u8 (Z.land (flags w) (Z.lnot WDOGF_ACTIVE))) w.

(** [(FAR sq_entry_t * )wdog]: the link is the first field. *)
#[export] Program Instance wdog_SqEntry : SqEntry wdog_s (Z * Z * Z * Z * list Z) := {|
  sq_flink := next;
  sq_set_flink := set_next;
  sq_data w := (func w, lag w, flags w, argc w, parm w);
|}.
Solve All Obligations with done.

(** The state of the component; [world] is whatever else watchdog functions
    act on. *)
Record wd_state (W : Type) := mk_wd {
  wdogs : mem wdog_s;
  g_wdfreelist : sq_queue_t;
  g_wdactivelist : sq_queue_t;
  g_wdnfree : Z;       (* uint16_t *)
  world : W;
}.
Arguments mk_wd {W}. Arguments wdogs {W}. Arguments g_wdfreelist {W}.
Arguments g_wdactivelist {W}. Arguments g_wdnfree {W}. Arguments world {W}.

Section ops.
Context `{Config} {W : Type}.
Implicit Types (s : wd_state W) (m : mem wdog_s) (wdog : ptr).

Definition set_wdogs (m : mem wdog_s) (s : wd_state W) : wd_state W :=
  mk_wd m (g_wdfreelist s) (g_wdactivelist s) (g_wdnfree s) (world s).
Definition set_active (q : sq_queue_t) (m : mem wdog_s) (s : wd_state W) : wd_state W :=
  mk_wd m (g_wdfreelist s) q (g_wdnfree s) (world s).
Definition set_free (q : sq_queue_t) (n : Z) (m : mem wdog_s) (s : wd_state W)
  : wd_state W :=
  mk_wd m q (g_wdactivelist s) (u16 n) (world s).

(** *** wd_initialize.c *)

(** [for (i = 0; i < CONFIG_PREALLOC_WDOGS; i++) sq_addlast(wdog++, &g_wdfreelist)];
    [pool] lists the addresses of the elements of [g_wdpool]. *)
Fixpoint wd_initialize_loop (pool : list addr) (q : sq_queue_t) (m : mem wdog_s)
  : option (sq_queue_t * mem wdog_s) :=
  match pool with
  | [] => Some (q, m)
  | wdog :: pool => '(q, m) ← sq_addlast (Some wdog) q m; wd_initialize_loop pool q m
  end.

Definition wd_initialize (pool : list addr) (s : wd_state W) : option (wd_state W) :=
  '(q, m) ← wd_initialize_loop pool sq_init (wdogs s);
  Some (mk_wd m q sq_init (u16 (Z.of_nat CONFIG_PREALLOC_WDOGS)) (world s)).

(** *** wd_create.c *)

(** [up_interrupt_context] and [kmm_malloc] are other components: whether the
    caller is an interrupt handler, and the block the heap hands out with its
    undefined contents, if any, are arguments. *)
Definition wd_create (up_interrupt_context : bool) (kmm_malloc : option (addr * wdog_s))
    (s : wd_state W) : option (ptr * wd_state W) :=
  if (CONFIG_WDOG_INTRESERVE <? g_wdnfree s)%Z || up_interrupt_context then
    '(wdog, q, m) ← sq_remfirst (g_wdfreelist s) (wdogs s);
    match wdog with
    | Some _ =>
        _ ← DEBUGASSERT (0 <? g_wdnfree s)%Z;
        m ← store wdog (set_next NULL) m;
        m ← store wdog (set_flags 0) m;
        Some (wdog, set_free q (g_wdnfree s - 1) m s)
    | None =>
        _ ← DEBUGASSERT (g_wdnfree s =? 0)%Z;
        Some (wdog, mk_wd m q (g_wdactivelist s) (g_wdnfree s) (world s))
    end
  else
    match kmm_malloc with
    | None => Some (NULL, s)
    | Some (a, w) =>
        let w := set_next NULL w in
        let w := set_flags WDOGF_ALLOCED w in
        Some (Some a, set_wdogs (<[a := w]> (wdogs s)) s)
    end.

(** *** wd_cancel.c *)

(** [while ((curr) && (curr != wdog)) { prev = curr; curr = curr->next; }] *)
Fixpoint wd_cancel_search (n : nat) (m : mem wdog_s) (wdog prev curr : ptr)
  : option (ptr * ptr) :=
  match curr with
  | None => Some (prev, curr)
  | Some c =>
      if bool_decide (curr = wdog) then Some (prev, curr)
      else
        x ← m !! c;
        match n with
        | O => None
        | S n => wd_cancel_search n m wdog curr (next x)
        end
  end.

Definition wd_cancel (wdog : ptr) (s : wd_state W) : option (Z * wd_state W) :=
  match wdog with
  | None => Some ((- EINVAL)%Z, s)
  | Some _ =>
      x ← deref wdog (wdogs s);
      if WDOG_ISACTIVE x then
        let m := wdogs s in
        '(prev, curr) ← wd_cancel_search (S (size m)) m wdog NULL
                          (sq_head (g_wdactivelist s));
        _ ← DEBUGASSERT (negb (bool_decide (curr = NULL)));
        xc ← deref curr m;
        m ← match next xc with
            | None => Some m
            | Some _ => store (next xc) (λ y, set_lag (s32 (lag y + lag xc)) y) m
            end;
        '(_, q, m) ← match prev with
                     | Some _ => sq_remafter prev (g_wdactivelist s) m
                     | None => sq_remfirst (g_wdactivelist s) m
                     end;
        m ← store wdog (set_next NULL) m;
        m ← store wdog WDOG_CLRACTIVE m;
        Some (OK, set_active q m s)
      else Some ((- EINVAL)%Z, s)
  end.

(** *** wd_delete.c *)

Definition wd_delete (wdog : ptr) (s : wd_state W) : option (Z * wd_state W) :=
  _ ← DEBUGASSERT (negb (bool_decide (wdog = NULL)));
  x ← deref wdog (wdogs s);
  s ← (if WDOG_ISACTIVE x then '(_, s) ← wd_cancel wdog s; Some s else Some s);
  a ← wdog; x ← wdogs s !! a;
  if WDOG_ISALLOCED x then
    (* sched_kfree(wdog) *)
    Some (OK, set_wdogs (delete a (wdogs s)) s)
  else if negb (WDOG_ISSTATIC x) then
    '(q, m) ← sq_addlast wdog (g_wdfreelist s) (wdogs s);
    let s := set_free q (g_wdnfree s + 1) m s in
    _ ← DEBUGASSERT (g_wdnfree s <=? Z.of_nat CONFIG_PREALLOC_WDOGS)%Z;
    Some (OK, s)
  else Some (OK, s).

(** *** wd_gettime.c *)

Fixpoint wd_gettime_loop (n : nat) (m : mem wdog_s) (wdog curr : ptr) (delay : Z)
  : option Z :=
  match curr with
  | None => Some 0%Z
  | Some c =>
      x ← m !! c;
      let delay := s32 (delay + lag x) in
      if bool_decide (curr = wdog) then Some delay
      else match n with
           | O => None
           | S n => wd_gettime_loop n m wdog (next x) delay
           end
  end.

Definition wd_gettime (wdog : ptr) (s : wd_state W) : option Z :=
  match wdog with
  | None => Some 0%Z
  | Some _ =>
      x ← deref wdog (wdogs s);
      if WDOG_ISACTIVE x then
        wd_gettime_loop (S (size (wdogs s))) (wdogs s) wdog
          (sq_head (g_wdactivelist s)) 0
      else Some 0%Z
  end.
End ops.

Section start.
Context `{Config} {W : Type}.
Implicit Types (s : wd_state W) (m : mem wdog_s) (wdog : ptr).

(** *** wd_start.c *)

(** Lines 251-268: save the function and its parameters.  [args] are the
    variable arguments; the unused parameters are cleared only in a build
    with [CONFIG_DEBUG_FEATURES]. *)
Definition wd_save_call (wdentry argc : Z) (args : list Z) (w : wdog_s) : wdog_s :=
  let n := Z.to_nat argc in
  set_call wdentry (u8 argc)
    (take n args ++
     (if CONFIG_DEBUG_FEATURES
      then replicate (CONFIG_MAX_WDOGPARMS - n) 0%Z
      else drop n (parm w))) w.

(** Lines 270-279: delay+1, forced into the range of int32_t.  The increment
    of the largest delay wraps around. *)
Definition wd_start_delay (delay : Z) : Z :=
  if (delay <=? 0)%Z then 1%Z
  else
    let delay := s32 (delay + 1) in
    if (delay <=? 0)%Z then s32 (delay - 1) else delay.

(** [while ((now += curr->lag) < 0 && curr->next) { prev = curr; curr = curr->next; }] *)
Fixpoint wd_advance_positive (n : nat) (m : mem wdog_s) (now : Z) (prev curr : ptr)
  : option (Z * ptr * ptr) :=
  x ← deref curr m;
  let now := s32 (now + lag x) in
  if (now <? 0)%Z && negb (bool_decide (next x = NULL)) then
    match n with
    | O => None
    | S n => wd_advance_positive n m now curr (next x)
    end
  else Some (now, prev, curr).

(** [while (now <= delay && curr->next)
       { prev = curr; curr = curr->next; now += curr->lag; }] *)
Fixpoint wd_advance_shorter (n : nat) (m : mem wdog_s) (delay now : Z) (prev curr : ptr)
  : option (Z * ptr * ptr) :=
  x ← deref curr m;
  if (now <=? delay)%Z && negb (bool_decide (next x = NULL)) then
    y ← deref (next x) m;
    match n with
    | O => None
    | S n => wd_advance_shorter n m delay (s32 (now + lag y)) curr (next x)
    end
  else Some (now, prev, curr).

(** Lines 291-379: put the timer in the active queue, with its lag. *)
Definition wd_enqueue (wdog : ptr) (delay : Z) (s : wd_state W) : option (wd_state W) :=
  let m := wdogs s in
  let q := g_wdactivelist s in
  '(delay, q, m) ←
    (if bool_decide (sq_head q = NULL) then
       '(q, m) ← sq_addlast wdog q m;
       Some (delay, q, m)
     else
       '(now, prev, curr) ← wd_advance_positive (S (size m)) m 0 (sq_head q) (sq_head q);
       '(now, prev, curr) ← wd_advance_shorter (S (size m)) m delay now prev curr;
       if (delay <? now)%Z then
         x ← deref curr m;
         let delay := s32 (delay - s32 (now - lag x)) in
         m ← store curr (λ y, set_lag (s32 (lag y - delay)) y) m;
         '(q, m) ← (if bool_decide (curr = sq_head q)
                    then sq_addfirst wdog q m
                    else sq_addafter prev wdog q m);
         Some (delay, q, m)
       else
         let delay := s32 (delay - now) in
         x ← deref curr m;
         match next x with
         | None =>
             '(q, m) ← sq_addlast wdog q m;
             Some (delay, q, m)
         | Some _ =>
             m ← store (next x) (λ y, set_lag (s32 (lag y - delay)) y) m;
             '(q, m) ← sq_addafter curr wdog q m;
             Some (delay, q, m)
         end);
  m ← store wdog (set_lag delay) m;
  m ← store wdog WDOG_SETACTIVE m;
  Some (set_active q m s).

Definition wd_start (wdog : ptr) (delay : Z) (wdentry : Z) (argc : Z) (args : list Z)
    (s : wd_state W) : option (Z * wd_state W) :=
  if bool_decide (wdog = NULL) || (Z.of_nat CONFIG_MAX_WDOGPARMS <? argc)%Z
     || (delay <? 0)%Z
  then Some ((- EINVAL)%Z, s)
  else
    x ← deref wdog (wdogs s);
    s ← (if WDOG_ISACTIVE x then '(_, s) ← wd_cancel wdog s; Some s else Some s);
    m ← store wdog (wd_save_call wdentry argc args) (wdogs s);
    let s := set_wdogs m s in
    s ← wd_enqueue wdog (wd_start_delay delay) s;
    Some (OK, s).

(** *** The timer interrupt *)

Section expire.
(** Calling the watchdog function [func] with its parameters. *)
Variable wdentry : Z → list Z → wd_state W → option (wd_state W).

(** The body of the loop of [wd_expiration]: remove the timer at the head of
    the queue and execute it. *)
Definition wd_expire_head (s : wd_state W) : option (wd_state W) :=
  '(wdog, q, m) ← sq_remfirst (g_wdactivelist s) (wdogs s);
  x ← deref wdog m;
  m ← match sq_head q with
      | None => Some m
      | Some _ => store (sq_head q) (λ y, set_lag (s32 (lag y + lag x)) y) m
      end;
  m ← store wdog WDOG_CLRACTIVE m;
  let s := set_active q m s in
  if (0 <=? argc x)%Z && (argc x <=? Z.min 4 (Z.of_nat CONFIG_MAX_WDOGPARMS))%Z then
    wdentry (func x) (take (Z.to_nat (argc x)) (parm x)) s
  else
    (* DEBUGPANIC *)
    _ ← DEBUGASSERT false; Some s.

(** [while (head && head->lag <= 0) ...] *)
Fixpoint wd_expiration_loop (n : nat) (s : wd_state W) : option (wd_state W) :=
  match sq_head (g_wdactivelist s) with
  | None => Some s
  | Some a =>
      x ← wdogs s !! a;
      if (lag x <=? 0)%Z then
        match n with
        | O => None
        | S n => s ← wd_expire_head s; wd_expiration_loop n s
        end
      else Some s
  end.

(** The callers have checked that there is a head. *)
Definition wd_expiration (s : wd_state W) : option (wd_state W) :=
  x ← deref (sq_head (g_wdactivelist s)) (wdogs s);
  if (lag x <=? 0)%Z then wd_expiration_loop (S (size (wdogs s))) s else Some s.

(** [wd_timer(void)], lines 487-520. *)
Definition wd_timer (s : wd_state W) : option (wd_state W) :=
  match sq_head (g_wdactivelist s) with
  | None => Some s
  | Some a =>
      m ← store (Some a) (λ y, set_lag (s32 (lag y - 1)) y) (wdogs s);
      wd_expiration (set_wdogs m s)
  end.

(** [wd_timer(int ticks)] of [CONFIG_SCHED_TICKLESS], lines 420-484: the loop
    and the function, which returns the delay to the next expiration. *)
Fixpoint wd_timer_ticks_loop (n : nat) (ticks : Z) (s : wd_state W)
  : option (wd_state W) :=
  match sq_head (g_wdactivelist s) with
  | None => Some s
  | Some a =>
      if (0 <? ticks)%Z then
        match n with
        | O => None
        | S n =>
            x ← wdogs s !! a;
            _ ← (if CONFIG_SCHED_TICKLESS_ALARM then Some tt
                 else DEBUGASSERT (ticks <=? lag x)%Z);
            let decr := Z.min (lag x) ticks in
            m ← store (Some a) (λ y, set_lag (s32 (lag y - decr)) y) (wdogs s);
            s ← wd_expiration (set_wdogs m s);
            wd_timer_ticks_loop n (s32 (ticks - decr)) s
        end
      else Some s
  end.

Definition wd_timer_ticks (ticks : Z) (s : wd_state W) : option (Z * wd_state W) :=
  s ← wd_timer_ticks_loop (S (size (wdogs s))) ticks s;
  match sq_head (g_wdactivelist s) with
  | None => Some (0%Z, s)
  | Some a => x ← wdogs s !! a; Some (u32 (lag x), s)
  end.
End expire.

(** *** wd_recover.c: [waitdog] is [tcb->waitdog]; its new value is returned. *)
Definition wd_recover (waitdog : ptr) (s : wd_state W) : option (ptr * wd_state W) :=
  match waitdog with
  | None => Some (waitdog, s)
  | Some _ =>
      '(_, s) ← wd_cancel waitdog s;
      '(_, s) ← wd_delete waitdog s;
      Some (NULL, s)
  end.
End start.
