(* ===== verification/WdogSpec.v ===== *)
(** * WdogSpec: the watchdog queue refines a list of expiration times

    Abstractly the active timers are a list [ts] of pairs (timer, ticks until it
    expires) in order of expiration.  The lag of a timer is its time minus the
    time of the timer before it ([lags]); [wd_repr] is the invariant of the whole
    component.  The lemmas show what each operation of [Wdog] does to [ts]. *)

From S2P Require Import Prelude Queue Wdog.
Import Sq SqSpec.
Local Open Scope Z_scope.

Abbreviation timers := (list (addr * Z)).

(** ** Abstract operations *)

(** Insert a timer after all those that expire no later. *)
Fixpoint tq_insert (w : addr) (d : Z) (ts : timers) : timers :=
  match ts with
  | [] => [(w, d)]
  | (a, e) :: ts => if e <=? d then (a, e) :: tq_insert w d ts else (w, d) :: (a, e) :: ts
  end.

Definition tq_remove (w : addr) (ts : timers) : timers :=
  filter (λ p, p.1 ≠ w) ts.

(** The time of a timer, and 0 when it is not active. *)
Fixpoint tq_time (w : addr) (ts : timers) : Z :=
  match ts with
  | [] => 0
  | (a, e) :: ts => if bool_decide (a = w) then e else tq_time w ts
  end.

(** [n] ticks pass. *)
Definition tq_shift (n : Z) (ts : timers) : timers :=
  (λ p, (p.1, p.2 - n)) <$> ts.

(** The time of the last timer of [ts], [t] when there is none. *)
Fixpoint last_time (t : Z) (ts : timers) : Z :=
  match ts with [] => t | (_, d) :: ts => last_time d ts end.

(** ** The lags *)

(** The lags of [ts] in [m] are the differences of their times, starting from
    time [t]; the times do not decrease and fit an int32_t. *)
Fixpoint lags (m : mem wdog_s) (t : Z) (ts : timers) : Prop :=
  match ts with
  | [] => True
  | (a, d) :: ts =>
      (∃ x, m !! a = Some x ∧ lag x = d - t) ∧ t ≤ d ≤ INT32_MAX ∧ lags m d ts
  end.

Lemma last_time_app t ts1 ts2 : last_time t (ts1 ++ ts2) = last_time (last_time t ts1) ts2.
Proof. revert t. induction ts1 as [|[a d] ts1 IH]; simpl; auto. Qed.

Lemma lags_app m t ts1 ts2 :
  lags m t (ts1 ++ ts2) ↔ lags m t ts1 ∧ lags m (last_time t ts1) ts2.
Proof. revert t. induction ts1 as [|[a d] ts1 IH]; intros t; simpl; [tauto|]. rewrite IH. tauto. Qed.

Lemma lags_frame m m' t ts :
  (∀ a, a ∈ ts.*1 → lag <$> m' !! a = lag <$> m !! a) → lags m t ts → lags m' t ts.
Proof.
  revert t. induction ts as [|[a d] ts IH]; intros t Hm; simpl; [done|].
  intros ((x & Hx & Hl) & Hd & Hts). split_and!; [|lia|lia|].
  - pose proof (Hm a ltac:(left)) as Ha. rewrite Hx in Ha. simpl in Ha.
    destruct (m' !! a) as [y|] eqn:Hy; simplify_eq/=. exists y. split; [done|lia].
  - apply IH; [|done]. intros b Hb. apply Hm. by right.
Qed.

Lemma lags_insert m t ts a y :
  a ∉ ts.*1 → lags m t ts → lags (<[a := y]> m) t ts.
Proof.
  intros Ha. apply lags_frame. intros b Hb. rewrite lookup_insert_ne; [done|]. by intros ->.
Qed.

Lemma lags_same m m' t ts :
  same_data sq_data m m' → lags m t ts → lags m' t ts.
Proof.
  intros Hd. apply lags_frame. intros a _.
  apply (f_equal (.!! a)) in Hd. rewrite !lookup_fmap in Hd.
  destruct (m' !! a), (m !! a); simplify_eq/=; congruence.
Qed.

Lemma lags_bounds m t ts : lags m t ts → Forall (λ p, t ≤ p.2 ≤ INT32_MAX) ts.
Proof.
  revert t. induction ts as [|[a d] ts IH]; intros t; simpl; [constructor|].
  intros (_ & Hd & Hts). constructor; [done|].
  eapply Forall_impl; [by apply IH|]. intros p. simpl. lia.
Qed.

Lemma lags_last m t ts : lags m t ts → t ≤ last_time t ts.
Proof.
  revert t. induction ts as [|[a d] ts IH]; intros t; simpl; [lia|].
  intros (_ & Hd & Hts). specialize (IH d Hts). lia.
Qed.

(** ** Lists of timers *)

Lemma tq_insert_app w d ts1 ts2 :
  Forall (λ p, p.2 ≤ d) ts1 → tq_insert w d (ts1 ++ ts2) = ts1 ++ tq_insert w d ts2.
Proof.
  induction 1 as [|[a e] ts1 Hle _ IH]; simpl in *; [done|].
  by rewrite (proj2 (Z.leb_le e d) Hle), IH.
Qed.

Lemma tq_insert_before w d ts1 c e ts2 :
  Forall (λ p, p.2 ≤ d) ts1 → d < e →
  tq_insert w d (ts1 ++ (c, e) :: ts2) = ts1 ++ (w, d) :: (c, e) :: ts2.
Proof.
  intros Hall Hd. rewrite tq_insert_app by done. simpl.
  by rewrite (proj2 (Z.leb_gt e d) Hd).
Qed.

Lemma tq_insert_last w d ts :
  Forall (λ p, p.2 ≤ d) ts → tq_insert w d ts = ts ++ [(w, d)].
Proof. intros Hall. rewrite <- (app_nil_r ts) at 1. by rewrite tq_insert_app. Qed.

Lemma tq_insert_perm w d ts : tq_insert w d ts ≡ₚ (w, d) :: ts.
Proof.
  induction ts as [|[a e] ts IH]; simpl; [done|].
  destruct (e <=? d); [|done]. rewrite IH. apply perm_swap.
Qed.

Lemma tq_insert_addrs w d ts : (tq_insert w d ts).*1 ≡ₚ w :: ts.*1.
Proof. by rewrite tq_insert_perm. Qed.

Lemma tq_remove_notin w ts : w ∉ ts.*1 → tq_remove w ts = ts.
Proof.
  induction ts as [|[a e] ts IH]; simpl; [done|]. intros Hw.
  unfold tq_remove. rewrite filter_cons_True by (simpl; set_solver).
  f_equal. apply IH. set_solver.
Qed.

Lemma tq_remove_app w d ts1 ts2 :
  w ∉ ts1.*1 → w ∉ ts2.*1 → tq_remove w (ts1 ++ (w, d) :: ts2) = ts1 ++ ts2.
Proof.
  intros H1 H2. unfold tq_remove. rewrite filter_app, filter_cons_False by (simpl; tauto).
  by f_equal; apply tq_remove_notin.
Qed.

Lemma tq_remove_addrs w ts : w ∉ (tq_remove w ts).*1.
Proof.
  unfold tq_remove. intros (p & -> & [Hp _]%list_elem_of_filter)%list_elem_of_fmap. done.
Qed.

Lemma tq_remove_subset w ts : (tq_remove w ts).*1 ⊆ ts.*1.
Proof.
  unfold tq_remove. intros a (p & -> & [_ Hp]%list_elem_of_filter)%list_elem_of_fmap.
  apply list_elem_of_fmap. eauto.
Qed.

Lemma timers_split w (ts : timers) :
  NoDup ts.*1 → w ∈ ts.*1 →
  ∃ ts1 d ts2, ts = ts1 ++ (w, d) :: ts2 ∧ (w ∉ ts1.*1) ∧ (w ∉ ts2.*1).
Proof.
  intros Hnd ([a d] & -> & Hin)%list_elem_of_fmap.
  apply list_elem_of_split in Hin as (ts1 & ts2 & ->).
  rewrite fmap_app in Hnd. simpl in *. exists ts1, d, ts2. nodup_facts. set_solver.
Qed.

Lemma tq_time_app w d ts1 ts2 : w ∉ ts1.*1 → tq_time w (ts1 ++ (w, d) :: ts2) = d.
Proof.
  induction ts1 as [|[a e] ts1 IH]; simpl; intros Hw.
  - by rewrite bool_decide_eq_true_2.
  - rewrite bool_decide_eq_false_2 by set_solver. apply IH. set_solver.
Qed.

Lemma tq_time_notin w ts : w ∉ ts.*1 → tq_time w ts = 0.
Proof.
  induction ts as [|[a e] ts IH]; simpl; intros Hw; [done|].
  rewrite bool_decide_eq_false_2 by set_solver. apply IH. set_solver.
Qed.

(** ** The state invariant *)

(** What executing the timer depends on, and how it was allocated. *)
Definition wd_call (x : wdog_s) : Z * Z * list Z := (func x, argc x, parm x).
Definition wd_kind (x : wdog_s) : bool * bool := (WDOG_ISALLOCED x, WDOG_ISSTATIC x).
Definition wd_info (x : wdog_s) := (wd_call x, wd_kind x).
(** All fields but the link and the lag. *)
Definition wd_meta (x : wdog_s) := (wd_call x, flags x).

Lemma WDOG_CLRACTIVE_spec x :
  WDOG_ISACTIVE (WDOG_CLRACTIVE x) = false ∧ wd_info (WDOG_CLRACTIVE x) = wd_info x ∧
  lag (WDOG_CLRACTIVE x) = lag x ∧ next (WDOG_CLRACTIVE x) = next x.
Proof.
  unfold wd_info, wd_kind, WDOG_ISACTIVE, WDOG_ISALLOCED, WDOG_ISSTATIC, WDOG_CLRACTIVE.
  change WDOGF_ACTIVE with (2 ^ 0). change WDOGF_ALLOCED with (2 ^ 1).
  change WDOGF_STATIC with (2 ^ 2). simpl flags.
  by rewrite !flag_isset_clear by lia.
Qed.

Lemma WDOG_SETACTIVE_spec x :
  WDOG_ISACTIVE (WDOG_SETACTIVE x) = true ∧ wd_info (WDOG_SETACTIVE x) = wd_info x ∧
  lag (WDOG_SETACTIVE x) = lag x ∧ next (WDOG_SETACTIVE x) = next x.
Proof.
  unfold wd_info, wd_kind, WDOG_ISACTIVE, WDOG_ISALLOCED, WDOG_ISSTATIC, WDOG_SETACTIVE.
  change WDOGF_ACTIVE with (2 ^ 0). change WDOGF_ALLOCED with (2 ^ 1).
  change WDOGF_STATIC with (2 ^ 2). simpl flags.
  by rewrite !flag_isset_or by lia.
Qed.

Lemma sq_data_meta m m' : same_data sq_data m m' → same_data wd_meta m m'.
Proof.
  intros Hd. eapply same_data_weaken; [done|]. intros x y Hxy.
  unfold wd_meta, wd_call. simpl in Hxy. congruence.
Qed.

(** Everything but the lag. *)
Definition wd_keep (x : wdog_s) := (next x, wd_meta x).

Lemma wd_keep_meta m m' : same_data wd_keep m m' → same_data wd_meta m m'.
Proof. intros Hd. eapply same_data_weaken; [done|]. unfold wd_keep. congruence. Qed.

Lemma wd_keep_links m m' : same_data wd_keep m m' → same_data (sq_flink (A := wdog_s)) m m'.
Proof. intros Hd. eapply same_data_weaken; [done|]. unfold wd_keep. simpl. congruence. Qed.

Lemma wd_meta_info m m' : same_data wd_meta m m' → same_data wd_info m m'.
Proof.
  intros Hd. eapply same_data_weaken; [done|]. intros x y.
  unfold wd_meta, wd_info, wd_kind, WDOG_ISALLOCED, WDOG_ISSTATIC. congruence.
Qed.

(** Adding the lag of a timer that leaves the queue to the next one keeps the
    times of all the timers behind it. *)
Lemma inherit_lag m t w d ts x :
  lags m t ((w, d) :: ts) → m !! w = Some x → w ∉ ts.*1 → NoDup ts.*1 → 0 ≤ t →
  ∃ m', match hd_or NULL ts.*1 with
        | None => Some m
        | Some _ => store (hd_or NULL ts.*1) (λ y, set_lag (s32 (lag y + lag x)) y) m
        end = Some m' ∧
    lags m' t ts ∧ same_data wd_keep m m' ∧ unchanged_but ts.*1 m m'.
Proof.
  simpl. intros ((x' & Hx' & Hlx) & Hd & Hts) Hx Hw Hnd Ht. simplify_eq.
  destruct ts as [|[b e] ts]; simpl in *; [exists m; by split_and!|].
  destruct Hts as ((y & Hy & Hly) & He & Hts). run_store.
  eexists. split; [done|]. split_and!.
  - eexists. split; [by apply lookup_insert_eq|]. simpl. rewrite s32_small; lia.
  - lia.
  - lia.
  - apply lags_insert; [|done]. by nodup_facts.
  - by eapply same_data_insert.
  - apply unchanged_but_insert; [done|set_solver].
Qed.

Section spec.
Context `{Config} {W : Type} (pool : list addr).
Implicit Types (s : wd_state W) (ts : timers) (lf : list addr) (m : mem wdog_s).

Definition argc_ok (x : wdog_s) : Prop :=
  0 ≤ argc x ≤ Z.min 4 (Z.of_nat CONFIG_MAX_WDOGPARMS).

(** The flags of the memory [m] agree with the active timers [ts]. *)
Definition flags_ok (m : mem wdog_s) (ts : timers) : Prop :=
  ∀ a x, m !! a = Some x →
    WDOG_ISACTIVE x = bool_decide (a ∈ ts.*1) ∧
    (a ∈ ts.*1 → argc_ok x) ∧
    (a ∈ pool ↔ wd_kind x = (false, false)).

(** [s] represents the active timers [ts] and the free list [lf]. *)
Record wd_repr (s : wd_state W) (ts : timers) (lf : list addr) : Prop := {
  wr_active : sq_repr (wdogs s) (g_wdactivelist s) ts.*1;
  wr_lags : lags (wdogs s) 0 ts;
  wr_free : sq_repr (wdogs s) (g_wdfreelist s) lf;
  wr_disj : ts.*1 ## lf;
  wr_flags : flags_ok (wdogs s) ts;
  wr_nfree : g_wdnfree s = Z.of_nat (length lf);
  wr_pool : lf ⊆ pool;
}.

Lemma wd_cancel_search_spec n m w l1 l2 prev :
  sseg next m (l1 ++ w :: l2) NULL → w ∉ l1 → (length l1 ≤ n)%nat →
  wd_cancel_search n m (Some w) prev (hd_or NULL (l1 ++ w :: l2)) =
    Some (last_or prev l1, Some w).
Proof.
  revert n prev. induction l1 as [|b l1 IH]; intros n prev Hseg Hw Hn; simpl.
  - destruct n; simpl; by rewrite bool_decide_eq_true_2.
  - destruct Hseg as [(x & Hx & Hxn) Hseg]. destruct n as [|n]; [simpl in Hn; lia|].
    simpl. rewrite bool_decide_eq_false_2 by set_solver. rewrite Hx. simpl.
    rewrite Hxn. apply IH; [done|set_solver|simpl in Hn; lia].
Qed.

#[local] Arguments wd_cancel_search : simpl never.

(** The generic part of re-establishing the invariant after a change to the
    active queue. *)
Lemma wd_repr_active s ts lf q m ts' :
  wd_repr s ts lf →
  sq_repr m q ts'.*1 → lags m 0 ts' → sq_repr m (g_wdfreelist s) lf →
  ts'.*1 ## lf → flags_ok m ts' →
  wd_repr (set_active q m s) ts' lf.
Proof. intros []. by split. Qed.

(** Lines 122-141 of wd_cancel.c: unlink the timer from wherever it is. *)
Lemma wd_unlink m q l1 w l2 :
  sq_repr m q (l1 ++ w :: l2) →
  ∃ q' m', match last_or NULL l1 with
           | Some _ => sq_remafter (last_or NULL l1) q m
           | None => sq_remfirst q m
           end = Some (Some w, q', m') ∧
    sq_repr m' q' (l1 ++ l2) ∧ sq_frame (l1 ++ w :: l2) m m'.
Proof.
  intros Ha. destruct l1 as [|b l1 _] using rev_ind; simpl in *.
  - destruct (sq_remfirst_spec _ _ _ _ Ha) as (q' & m' & ? & ? & [? ?] & _).
    exists q', m'. split_and!; [done..|]. split; [done|].
    eapply unchanged_but_weaken; [done|set_solver].
  - rewrite last_or_app. simpl. rewrite <- !app_assoc in *.
    destruct (sq_remafter_spec _ _ _ _ _ _ Ha) as (q' & m' & ? & ? & [? ?] & _).
    exists q', m'. split_and!; [done..|]. split; [done|].
    eapply unchanged_but_weaken; [done|set_solver].
Qed.

(** Rewriting the timer [w] after it joined or left the queue. *)
Lemma flags_ok_update m m' ts ts' w x y :
  flags_ok m ts → same_data wd_meta m m' →
  m' !! w = Some x → wd_info y = wd_info x →
  WDOG_ISACTIVE y = bool_decide (w ∈ ts'.*1) → (w ∈ ts'.*1 → argc_ok x) →
  (∀ a, a ≠ w → a ∈ ts'.*1 ↔ a ∈ ts.*1) →
  flags_ok (<[w := y]> m') ts'.
Proof.
  intros Hfl Hm Hx Hyx Hy Hargc Hin a z Hz.
  destruct (decide (a = w)) as [->|Hne].
  - rewrite lookup_insert_eq in Hz. injection Hz as <-.
    destruct (same_data_lookup_r _ _ _ _ _ (wd_meta_info _ _ Hm) Hx) as (z' & Hz' & Hi).
    destruct (Hfl w z' Hz') as (_ & _ & Hpool). unfold wd_info, wd_call in *.
    split_and!; [done| |].
    + unfold argc_ok in *. replace (argc y) with (argc x) by congruence. done.
    + rewrite Hpool. by replace (wd_kind y) with (wd_kind z') by congruence.
  - rewrite lookup_insert_ne in Hz by done.
    destruct (same_data_lookup_r _ _ _ _ _ Hm Hz) as (z' & Hz' & Hi).
    destruct (Hfl a z' Hz') as (Hact & Hargc' & Hpool). unfold wd_meta, wd_call in Hi.
    unfold WDOG_ISACTIVE, wd_kind, WDOG_ISALLOCED, WDOG_ISSTATIC, argc_ok in *.
    replace (flags z) with (flags z') by congruence.
    replace (argc z) with (argc z') by congruence.
    split_and!; [|by rewrite Hin|done].
    rewrite Hact. apply bool_decide_ext. by rewrite Hin.
Qed.

Lemma wd_repr_NoDup s ts1 w d ts2 lf :
  wd_repr s (ts1 ++ (w, d) :: ts2) lf →
  (w ∉ (ts1 ++ ts2).*1) ∧ NoDup (ts1.*1 ++ w :: ts2.*1).
Proof.
  intros [(Hnd & _) _ _ _ _ _ _]. rewrite !fmap_app in *. csimpl in *.
  split; [|done]. nodup_facts. set_solver.
Qed.

Lemma wd_cancel_active s ts1 w d ts2 lf :
  wd_repr s (ts1 ++ (w, d) :: ts2) lf →
  ∃ s', wd_cancel (Some w) s = Some (OK, s') ∧ wd_repr s' (ts1 ++ ts2) lf ∧
        same_data wd_info (wdogs s) (wdogs s') ∧ world s' = world s.
Proof.
  intros Hr. destruct (wd_repr_NoDup _ _ _ _ _ _ Hr) as [Hw Hnd'].
  pose proof Hr as [Ha Hlags Hf Hdisj Hfl Hn Hp].
  pose proof (sq_repr_size _ _ _ Ha) as Hsize.
  rewrite fmap_app in Ha, Hdisj, Hsize. csimpl in *. pose proof Ha as (Hnd & Hhd & _ & Hseg).
  destruct (sq_repr_next _ _ _ _ _ Ha) as (x & Hx & Hxn).
  apply lags_app in Hlags as [Hl1 Hl2].
  destruct (inherit_lag _ _ _ _ _ _ Hl2 Hx) as (m1 & Hm1 & Hl2' & Hk1 & Hu1);
    [nodup_facts; set_solver..|by eapply lags_last|].
  destruct (wd_unlink m1 (g_wdactivelist s) ts1.*1 w ts2.*1)
    as (q & m2 & Hrun & Ha2 & Hd2 & Hu2).
  { eapply sq_repr_same; [by apply wd_keep_links|done]. }
  assert (m1 !! w = Some x) as Hx1.
  { rewrite Hu1; [done|]. nodup_facts. set_solver. }
  assert (same_data wd_meta (wdogs s) m2) as Hm2.
  { transitivity m1; [by apply wd_keep_meta|by apply sq_data_meta]. }
  destruct (same_data_lookup _ _ _ _ _ Hd2 Hx1) as (x2 & Hx2 & _).
  unfold wd_cancel. simpl. rewrite Hx. simpl.
  rewrite (proj1 (Hfl _ _ Hx)), bool_decide_eq_true_2 by (rewrite fmap_app; set_solver).
  rewrite Hhd, wd_cancel_search_spec; [|done|nodup_facts; set_solver|].
  2: { rewrite length_app in Hsize. simpl in Hsize. lia. }
  simpl. rewrite DEBUGASSERT_true by done. simpl. rewrite Hx. simpl.
  change (next x) with (sq_flink x). rewrite Hxn, Hm1. simpl. rewrite Hrun. simpl.
  do 2 run_store. rewrite insert_insert_eq.
  destruct (WDOG_CLRACTIVE_spec (set_next NULL x2)) as (Hc1 & Hc2 & Hc3 & Hc4).
  eexists. split; [done|]. split_and!; [|simpl|done].
  - eapply wd_repr_active; [done|..].
    + rewrite fmap_app. eapply sq_repr_frame; [done| |].
      * apply (unchanged_but_insert _ _ [w]); [done|set_solver].
      * rewrite fmap_app in Hw. set_solver.
    + apply lags_insert; [done|]. apply lags_app. split.
      * eapply lags_same; [done|]. eapply lags_frame; [|done].
        intros b Hb. rewrite Hu1; [done|]. nodup_facts. set_solver.
      * by eapply lags_same.
    + eapply sq_repr_frame; [exact Hf|..].
      * apply (unchanged_but_insert _ m2 (ts1.*1 ++ w :: ts2.*1)); [|set_solver].
        transitivity m1; [|done]. eapply unchanged_but_weaken; [done|set_solver].
      * set_solver.
    + rewrite fmap_app. set_solver.
    + eapply flags_ok_update; [done..| |done|].
      * by rewrite bool_decide_eq_false_2.
      * intros a Ha'. rewrite !fmap_app in *. csimpl. set_solver.
  - eapply same_data_insert; [by apply wd_meta_info|done|]. by rewrite Hc2.
Qed.

(** *** wd_gettime *)

Lemma wd_gettime_loop_spec n m w d ts1 ts2 t :
  sseg next m (ts1 ++ (w, d) :: ts2).*1 NULL → lags m t (ts1 ++ (w, d) :: ts2) →
  w ∉ ts1.*1 → 0 ≤ t → (length ts1 ≤ n)%nat →
  wd_gettime_loop n m (Some w) (hd_or NULL (ts1 ++ (w, d) :: ts2).*1) t = Some d.
Proof.
  revert n t. induction ts1 as [|[b e] ts1 IH]; intros n t Hseg Hl Hw Ht Hn; simpl.
  - destruct Hl as ((x & Hx & Hlx) & Hd & _).
    destruct n; simpl; rewrite Hx; simpl; rewrite bool_decide_eq_true_2 by done;
      rewrite s32_small; f_equal; lia.
  - csimpl in *. destruct Hseg as [(x & Hx & Hxn) Hseg].
    destruct Hl as ((x' & Hx' & Hlx) & He & Hl). simplify_eq. destruct n as [|n]; [simpl in Hn; lia|]. simpl.
    rewrite Hx. simpl.
    rewrite bool_decide_eq_false_2 by set_solver.
    rewrite Hxn.
    rewrite s32_small by lia. replace (t + lag x) with e by lia.
    apply IH; [done..|set_solver|lia|simpl in Hn; lia].
Qed.

#[local] Arguments wd_gettime_loop : simpl never.

(** The time remaining is the time of the timer in the abstract queue. *)
Lemma wd_gettime_spec s ts lf w :
  wd_repr s ts lf → w ∈ dom (wdogs s) →
  wd_gettime (Some w) s = Some (tq_time w ts).
Proof.
  intros Hr [x Hx]%elem_of_dom. unfold wd_gettime. simpl. rewrite Hx. simpl.
  destruct Hr as [Ha Hlags _ _ Hfl _ _]. rewrite (proj1 (Hfl _ _ Hx)).
  case_bool_decide as Hw.
  - pose proof (sq_repr_size _ _ _ Ha) as Hsize. pose proof Ha as (Hnd & Hhd & _ & Hseg).
    destruct (timers_split w ts Hnd Hw) as (ts1 & d & ts2 & -> & Hw1 & _).
    rewrite Hhd, wd_gettime_loop_spec; [by rewrite tq_time_app|done..|].
    rewrite length_fmap, length_app in Hsize. lia.
  - by rewrite tq_time_notin.
Qed.

(** *** wd_start *)

Lemma wd_start_delay_spec d :
  0 ≤ d ≤ INT32_MAX → wd_start_delay d = Z.min (d + 1) INT32_MAX.
Proof.
  intros Hd. unfold wd_start_delay. destruct (Z.leb_spec d 0); [lia|].
  destruct (decide (d = INT32_MAX)) as [->|]; [reflexivity|].
  rewrite s32_small by lia. destruct (Z.leb_spec (d + 1) 0); lia.
Qed.

(** The second loop of the search stops at the first timer that expires after
    [delay], or at the last one. *)
Lemma wd_advance_shorter_spec n m delay c e ts t prev :
  sseg next m ((c, e) :: ts).*1 NULL → lags m t ((c, e) :: ts) → 0 ≤ t →
  (length ts ≤ n)%nat →
  ∃ ts1 c' e' ts2, (c, e) :: ts = ts1 ++ (c', e') :: ts2 ∧
    wd_advance_shorter n m delay e prev (Some c) =
      Some (e', last_or prev ts1.*1, Some c') ∧
    Forall (λ p, p.2 ≤ delay) ts1 ∧ (delay < e' ∨ ts2 = []).
Proof.
  revert n c e t prev. induction ts as [|[b f] ts IH]; intros n c e t prev Hseg Hl Ht Hn.
  - exists [], c, e, []. split; [done|]. csimpl in *. destruct Hseg as [(x & Hx & Hxn) _].
    split; [|by auto]. destruct n; simpl; rewrite Hx; simpl;
      rewrite Hxn; simpl; by rewrite andb_false_r.
  - csimpl in *. destruct Hseg as [(x & Hx & Hxn) Hseg]. destruct Hl as (_ & He & Hl).
    pose proof Hl as ((y & Hy & Hly) & Hf & _).
    destruct n as [|n]; [simpl in Hn; lia|]. simpl. rewrite Hx. simpl.
    rewrite Hxn. simpl.
    destruct (Z.leb_spec e delay) as [Hle|Hgt]; simpl.
    + rewrite Hy. simpl. rewrite s32_small by lia. replace (e + lag y) with f by lia.
      destruct (IH n b f e (Some c)) as (ts1 & c' & e' & ts2 & Heq & Hrun & Hall & Hend);
        [done|done|lia|simpl in Hn; lia|].
      exists ((c, e) :: ts1), c', e', ts2. rewrite Heq. split_and!; [done|done| |done].
      constructor; [done|done].
    + exists [], c, e, ((b, f) :: ts). split_and!; [done..|by left].
Qed.

(** The last steps of [wd_start], from a queue where [w] is linked between
    [ts1] and [ts2]. *)
Lemma wd_link s ts1 ts2 lf w d q m :
  wd_repr s (ts1 ++ ts2) lf → w ∉ (ts1 ++ ts2).*1 → w ∉ lf →
  (∀ x, wdogs s !! w = Some x → argc_ok x) →
  sq_repr m q (ts1.*1 ++ w :: ts2.*1) →
  lags m 0 ts1 → lags m d ts2 → last_time 0 ts1 ≤ d ≤ INT32_MAX →
  same_data wd_meta (wdogs s) m → unchanged_but (w :: (ts1 ++ ts2).*1) (wdogs s) m →
  ∃ m1 m', store (Some w) (set_lag (d - last_time 0 ts1)) m = Some m1 ∧
    store (Some w) WDOG_SETACTIVE m1 = Some m' ∧
    wd_repr (set_active q m' s) (ts1 ++ (w, d) :: ts2) lf ∧
    same_data wd_info (wdogs s) m'.
Proof.
  intros Hr Hw Hlf Hargc Ha Hl1 Hl2 Hd Hm Hu. pose proof Hr as [_ _ Hf Hdisj Hfl _ _].
  destruct (sq_repr_next _ _ _ _ _ Ha) as (x & Hx & Hxn).
  destruct (WDOG_SETACTIVE_spec (set_lag (d - last_time 0 ts1) x)) as (Hc1 & Hc2 & Hc3 & Hc4).
  eexists _, (<[w := WDOG_SETACTIVE (set_lag (d - last_time 0 ts1) x)]> m).
  run_store. split; [done|]. run_store. rewrite insert_insert_eq. split; [done|]. split.
  - eapply wd_repr_active; [done|..].
    + rewrite fmap_app. csimpl. eapply sq_repr_insert; [done|done|]. done.
    + rewrite fmap_app in Hw. apply lags_app. split; [apply lags_insert; [set_solver|done]|].
      simpl. split_and!; [|lia|lia|apply lags_insert; [set_solver|done]].
      eexists. split; [apply lookup_insert_eq|]. by rewrite Hc3.
    + eapply sq_repr_frame; [exact Hf|..].
      * apply (unchanged_but_insert _ _ (w :: (ts1 ++ ts2).*1)); [done|set_solver].
      * set_solver.
    + rewrite !fmap_app in *. csimpl. set_solver.
    + eapply flags_ok_update; [done..| | |].
      * rewrite fmap_app. csimpl. rewrite bool_decide_eq_true_2; [done|set_solver].
      * intros _. destruct (same_data_lookup_r _ _ _ _ _ Hm Hx) as (z & Hz & Hi).
        unfold wd_meta, wd_call, argc_ok in *. replace (argc x) with (argc z) by congruence.
        by apply Hargc.
      * intros a Ha'. rewrite !fmap_app. csimpl. set_solver.
  - eapply same_data_insert; [by apply wd_meta_info|done|]. by rewrite Hc2.
Qed.

(** The first loop does nothing on a queue whose times are not negative. *)
Lemma wd_advance_positive_spec n m c e ts prev :
  lags m 0 ((c, e) :: ts) →
  wd_advance_positive n m 0 prev (Some c) = Some (e, prev, Some c).
Proof.
  intros ((x & Hx & Hlx) & He & _).
  destruct n; simpl; rewrite Hx; simpl; rewrite s32_small by lia;
    replace (0 + lag x) with e by lia; (destruct (Z.ltb_spec e 0); [lia|done]).
Qed.

Lemma last_time_le t d ts : t ≤ d → Forall (λ p, p.2 ≤ d) ts → last_time t ts ≤ d.
Proof.
  intros Ht Hall. revert t Ht. induction Hall as [|[a e] ts He _ IH]; simpl; auto.
Qed.

#[local] Arguments tq_insert : simpl never.
#[local] Arguments wd_advance_positive : simpl never.
#[local] Arguments wd_advance_shorter : simpl never.

(** Taking the part [d - t] off the lag of the timer at time [e]. *)
Lemma split_lag m t d c e ts x :
  lags m t ((c, e) :: ts) → m !! c = Some x → c ∉ ts.*1 → t ≤ d ≤ e → 0 ≤ t →
  lags (<[c := set_lag (s32 (lag x - s32 (d - s32 (e - lag x)))) x]> m) d ((c, e) :: ts).
Proof.
  intros ((x' & Hx' & Hlx) & He & Hts) Hx Hc Hd Ht.
  assert (x' = x) as -> by congruence.
  split_and!; [|lia|lia|by apply lags_insert].
  eexists. split; [apply lookup_insert_eq|]. simpl.
  rewrite (s32_small (e - lag x)), (s32_small (d - _)), s32_small; lia.
Qed.

(** Lines 291-374: [w] linked before [(c, e)], the first timer that expires
    after it, at the head of the queue or behind [ts1]. *)
Lemma wd_link_before s ts1 c e ts2 lf w d x prev :
  wd_repr s (ts1 ++ (c, e) :: ts2) lf → w ∈ dom (wdogs s) →
  w ∉ (ts1 ++ (c, e) :: ts2).*1 → wdogs s !! c = Some x →
  last_time 0 ts1 ≤ d < e →
  ∃ m1 q m,
    store (Some c) (λ y, set_lag (s32 (lag y - s32 (d - s32 (e - lag x)))) y) (wdogs s)
      = Some m1 ∧
    (if bool_decide (Some c = sq_head (g_wdactivelist s))
     then sq_addfirst (Some w) (g_wdactivelist s) m1
     else sq_addafter (last_or prev ts1.*1) (Some w) (g_wdactivelist s) m1)
      = Some (q, m) ∧
    sq_repr m q (ts1.*1 ++ w :: ((c, e) :: ts2).*1) ∧
    lags m 0 ts1 ∧ lags m d ((c, e) :: ts2) ∧
    same_data wd_meta (wdogs s) m ∧
    unchanged_but (w :: (ts1 ++ (c, e) :: ts2).*1) (wdogs s) m.
Proof.
  intros Hr Hdom Hw Hx Hd. destruct (wd_repr_NoDup _ _ _ _ _ _ Hr) as [Hc Hnd].
  pose proof Hr as [Ha Hlags _ _ _ _ _]. apply lags_app in Hlags as [Hl1 Hl2].
  pose proof (lags_last _ _ _ Hl1) as Ht0. eexists. run_store.
  pose proof (split_lag _ _ d _ _ _ _ Hl2 Hx) as Hl2'.
  set (m1 := <[c := _]> (wdogs s)) in *.
  rewrite fmap_app in *. csimpl in *.
  assert (same_data wd_keep (wdogs s) m1) as Hk1 by (by eapply same_data_insert).
  assert (sq_repr m1 (g_wdactivelist s) (ts1.*1 ++ c :: ts2.*1)) as Ha1.
  { eapply sq_repr_same; [by apply wd_keep_links|done]. }
  assert (w ∈ dom m1) as Hdom1 by (by rewrite (same_data_dom _ _ _ Hk1)).
  assert (∃ q m, (if bool_decide (Some c = sq_head (g_wdactivelist s))
                  then sq_addfirst (Some w) (g_wdactivelist s) m1
                  else sq_addafter (last_or prev ts1.*1) (Some w) (g_wdactivelist s) m1)
            = Some (q, m) ∧ sq_repr m q (ts1.*1 ++ w :: c :: ts2.*1) ∧
            sq_frame (ts1.*1 ++ w :: c :: ts2.*1) m1 m) as (q & m & Hrun & Ha' & Hsd & Hu).
  { pose proof Ha as (_ & -> & _ & _). destruct ts1 as [|[b f] ts1 _] using rev_ind.
    - simpl. rewrite bool_decide_eq_true_2 by done. by apply sq_addfirst_spec.
    - rewrite fmap_app, last_or_app, hd_or_app in *. csimpl in *.
      rewrite bool_decide_eq_false_2.
      2: { destruct ts1; simpl; nodup_facts; set_solver. }
      rewrite <- !app_assoc in *. by apply sq_addafter_spec. }
  exists q, m. split; [done|]. split; [done|]. split; [done|].
  split; [|split; [|split]].
  - eapply lags_same; [done|]. apply lags_insert; [set_solver|done].
  - apply (lags_same m1 m d ((c, e) :: ts2)); [done|].
    apply Hl2'; [nodup_facts; set_solver|lia|lia].
  - transitivity m1; [by apply wd_keep_meta|by apply sq_data_meta].
  - transitivity m1; [apply unchanged_but_insert; [done|set_solver]|].
    eapply unchanged_but_weaken; [done|set_solver].
Qed.

Lemma wd_enqueue_spec s ts lf w d :
  wd_repr s ts lf → w ∈ dom (wdogs s) → w ∉ ts.*1 → w ∉ lf →
  (∀ x, wdogs s !! w = Some x → argc_ok x) → 0 ≤ d ≤ INT32_MAX →
  ∃ s', wd_enqueue (Some w) d s = Some s' ∧ wd_repr s' (tq_insert w d ts) lf ∧
        same_data wd_info (wdogs s) (wdogs s') ∧ world s' = world s.
Proof.
  intros Hr Hdom Hw Hlf Hargc Hd. pose proof Hr as [Ha Hlags _ _ _ _ _].
  pose proof (sq_repr_size _ _ _ Ha) as Hsize. rewrite length_fmap in Hsize.
  pose proof Ha as (Hnd & Hhd & _ & Hseg). unfold wd_enqueue.
  destruct ts as [|[c e] ts].
  { rewrite Hhd. simpl.
    destruct (sq_addlast_spec _ _ _ w Ha) as (q & m & -> & Ha' & Hsd & Hu); [done..|].
    simpl. destruct (wd_link s [] [] lf w d q m) as (m1 & m' & Hm1 & Hm' & Hr' & Hi); try done.
    { by apply sq_data_meta. }
    simpl in Hm1. rewrite Z.sub_0_r in Hm1. rewrite Hm1. simpl. rewrite Hm'. simpl. eauto. }
  csimpl in Hhd. rewrite Hhd, bool_decide_eq_false_2 by done.
  rewrite (wd_advance_positive_spec _ _ c e ts) by done. simpl.
  destruct (wd_advance_shorter_spec (S (size (wdogs s))) (wdogs s) d c e ts 0 (Some c))
    as (ts1 & c' & e' & ts2 & Heq & -> & Hall & Hend); [done..|simpl in Hsize; lia|].
  rewrite <- Hhd. rewrite Heq in *. simpl. clear Heq Hhd Hsize Hseg.
  apply lags_app in Hlags as [Hl1 Hl2].
  assert (last_time 0 ts1 ≤ d) as Ht by (apply last_time_le; [lia|done]).
  pose proof (lags_last _ _ _ Hl1) as Ht0.
  pose proof Hl2 as ((x & Hx & Hlx) & He & Hl3). rewrite Hx. simpl.
  destruct (Z.ltb_spec d e') as [Hlt|Hge].
  - rewrite tq_insert_before by (done || lia).
    destruct (wd_link_before s ts1 c' e' ts2 lf w d x (sq_head (g_wdactivelist s)))
      as (m1 & q & m & -> & Hrun & Ha' & Hl1' & Hl2' & Hm & Hu); [done..|].
    simpl. rewrite Hrun. simpl.
    destruct (wd_link s ts1 ((c', e') :: ts2) lf w d q m)
      as (m2 & m' & Hm2 & Hm' & Hr' & Hi); [done..|lia|done|done|].
    rewrite (s32_small (e' - lag x)) by lia. rewrite s32_small by lia.
    replace (d - (e' - lag x)) with (d - last_time 0 ts1) by lia.
    rewrite Hm2. simpl. rewrite Hm'. simpl. eauto.
  - destruct Hend as [Hend| ->]; [lia|].
    rewrite tq_insert_last by (apply Forall_app; auto).
    rewrite fmap_app in Ha. destruct (sq_repr_next _ _ _ _ _ Ha) as (x' & Hx' & Hxn).
    simpl in Hx'. assert (x' = x) as -> by congruence. csimpl in Hxn. rewrite Hxn.
    rewrite <- fmap_app in Ha.
    destruct (sq_addlast_spec _ _ _ w Ha) as (q & m & -> & Ha' & Hsd & Hu); [done..|].
    simpl. rewrite s32_small by lia.
    destruct (wd_link s (ts1 ++ [(c', e')]) [] lf w d q m)
      as (m2 & m' & Hm2 & Hm' & Hr' & Hi); rewrite ?app_nil_r, ?last_time_app in *;
      [done..| |done|simpl; lia|by apply sq_data_meta| |].
    + eapply lags_same; [done|]. apply lags_app. done.
    + eapply unchanged_but_weaken; [done|].
      intros a. rewrite elem_of_app, !elem_of_cons, elem_of_nil. tauto.
    + simpl in Hm2. rewrite Hm2. simpl. rewrite Hm'. simpl. eauto.
Qed.

#[local] Arguments wd_cancel : simpl never.
#[local] Arguments wd_enqueue : simpl never.

(** Cancelling: an active timer leaves the queue and every other one keeps its
    time; an inactive one is an error that changes nothing. *)
Lemma wd_cancel_spec s ts lf w :
  wd_repr s ts lf → w ∈ dom (wdogs s) →
  ∃ s', wd_cancel (Some w) s = Some (if bool_decide (w ∈ ts.*1) then OK else - EINVAL, s') ∧
        wd_repr s' (tq_remove w ts) lf ∧
        same_data wd_info (wdogs s) (wdogs s') ∧ world s' = world s.
Proof.
  intros Hr Hdom. case_bool_decide as Hw.
  - destruct (timers_split w ts) as (ts1 & d & ts2 & -> & Hw1 & Hw2); [apply Hr|done|].
    rewrite tq_remove_app by done. by eapply wd_cancel_active.
  - rewrite tq_remove_notin by done. apply elem_of_dom in Hdom as [x Hx].
    exists s. unfold wd_cancel. simpl. rewrite Hx. simpl.
    destruct Hr as [? ? ? ? Hfl ? ?]. rewrite (proj1 (Hfl _ _ Hx)).
    by rewrite bool_decide_eq_false_2.
Qed.

(** [wd_start] and [wd_delete] first cancel the timer if it is active. *)
Lemma wd_cancel_if_active s ts lf w x :
  wd_repr s ts lf → wdogs s !! w = Some x →
  ∃ s', (if WDOG_ISACTIVE x then '(_, s) ← wd_cancel (Some w) s; Some s else Some s)
          = Some s' ∧
        wd_repr s' (tq_remove w ts) lf ∧
        same_data wd_info (wdogs s) (wdogs s') ∧ world s' = world s.
Proof.
  intros Hr Hx. pose proof (wr_flags _ _ _ Hr w x Hx) as [-> _].
  destruct (wd_cancel_spec s ts lf w Hr) as (s' & Hrun & ?); [by eapply elem_of_dom_2|].
  case_bool_decide; [rewrite Hrun; simpl; by eauto|].
  exists s. by rewrite tq_remove_notin.
Qed.

(** Changing what an inactive timer will execute. *)
Lemma wd_repr_save_call s ts lf w x f n args :
  wd_repr s ts lf → wdogs s !! w = Some x → w ∉ ts.*1 →
  wd_repr (set_wdogs (<[w := wd_save_call f n args x]> (wdogs s)) s) ts lf.
Proof.
  intros [Ha Hl Hf Hdisj Hfl Hn Hp] Hx Hw. split; simpl; try done.
  - by eapply sq_repr_insert.
  - by apply lags_insert.
  - by eapply sq_repr_insert.
  - intros a y Hy. destruct (decide (a = w)) as [->|].
    + rewrite lookup_insert_eq in Hy. injection Hy as <-.
      destruct (Hfl w x Hx) as (? & ? & ?). by split_and!.
    + rewrite lookup_insert_ne in Hy by done. by apply Hfl.
Qed.

Lemma wd_save_call_info f n args x y :
  wd_info x = wd_info y → wd_info (wd_save_call f n args x) = wd_info (wd_save_call f n args y).
Proof.
  unfold wd_info, wd_call, wd_save_call, wd_kind, WDOG_ISALLOCED, WDOG_ISSTATIC.
  simpl. intros [= _ _ Hp H1 H2]. by rewrite Hp, H1, H2.
Qed.

Lemma wd_start_spec s ts lf w x delay f n args :
  wd_repr s ts lf → wdogs s !! w = Some x → w ∉ lf →
  0 ≤ delay ≤ INT32_MAX → 0 ≤ n ≤ Z.min 4 (Z.of_nat CONFIG_MAX_WDOGPARMS) →
  ∃ s', wd_start (Some w) delay f n args s = Some (OK, s') ∧
    wd_repr s' (tq_insert w (Z.min (delay + 1) INT32_MAX) (tq_remove w ts)) lf ∧
    same_data wd_info (<[w := wd_save_call f n args x]> (wdogs s)) (wdogs s') ∧
    world s' = world s.
Proof.
  intros Hr Hx Hlf Hd Hn. unfold wd_start.
  rewrite bool_decide_eq_false_2 by done. simpl.
  destruct (Z.ltb_spec (Z.of_nat CONFIG_MAX_WDOGPARMS) n); [lia|].
  destruct (Z.ltb_spec delay 0); [lia|]. simpl. rewrite Hx. simpl.
  destruct (wd_cancel_if_active s ts lf w x Hr Hx) as (s1 & -> & Hr1 & Hi1 & Hw1). simpl.
  destruct (same_data_lookup _ _ _ _ _ Hi1 Hx) as (x1 & Hx1 & Hxi). run_store.
  pose proof (tq_remove_addrs w ts) as Hnot.
  destruct (wd_enqueue_spec (set_wdogs (<[w := wd_save_call f n args x1]> (wdogs s1)) s1)
    (tq_remove w ts) lf w (wd_start_delay delay)) as (s2 & -> & Hr2 & Hi2 & Hw2); simpl.
  - by eapply wd_repr_save_call.
  - rewrite dom_insert_L. set_solver.
  - done.
  - done.
  - intros y. rewrite lookup_insert_eq. intros [= <-]. unfold argc_ok. simpl.
    rewrite wrap_u_small by (change (2 ^ 8) with 256; lia). lia.
  - rewrite wd_start_delay_spec; lia.
  - rewrite wd_start_delay_spec in Hr2 by lia. exists s2. split; [done|].
    split; [done|]. split; [|by rewrite Hw2].
    etrans; [|exact Hi2]. simpl. unfold same_data. rewrite !fmap_insert.
    rewrite Hi1. f_equal. by apply wd_save_call_info.
Qed.

Lemma wd_start_error s w delay f n args :
  w = NULL ∨ Z.of_nat CONFIG_MAX_WDOGPARMS < n ∨ delay < 0 →
  wd_start w delay f n args s = Some (- EINVAL, s).
Proof.
  intros Hor. unfold wd_start. case_bool_decide; simpl; [done|].
  destruct (Z.ltb_spec (Z.of_nat CONFIG_MAX_WDOGPARMS) n); simpl; [done|].
  destruct (Z.ltb_spec delay 0); simpl; [done|]. naive_solver lia.
Qed.

(** *** Allocation *)

(** [g_wdpool] has [CONFIG_PREALLOC_WDOGS] elements, counted by a uint16_t. *)
Hypothesis pool_ok : NoDup pool ∧ length pool = CONFIG_PREALLOC_WDOGS ∧
                     Z.of_nat CONFIG_PREALLOC_WDOGS < 65536.

Lemma free_length lf : NoDup lf → lf ⊆ pool → (length lf ≤ CONFIG_PREALLOC_WDOGS)%nat.
Proof.
  intros Hnd Hsub. destruct pool_ok as (_ & <- & _).
  by apply submseteq_length, NoDup_submseteq.
Qed.

(** Removing the memory of a timer that is on no queue. *)
Lemma wd_repr_free_block s ts lf w :
  wd_repr s ts lf → w ∉ ts.*1 → w ∉ lf →
  wd_repr (set_wdogs (delete w (wdogs s)) s) ts lf.
Proof.
  intros [Ha Hl Hf Hdisj Hfl Hn Hp] Hw Hlf.
  assert (unchanged_but [w] (wdogs s) (delete w (wdogs s))) as Hu.
  { intros a Ha'. rewrite lookup_delete_ne; [done|]. set_solver. }
  split; simpl; try done.
  - eapply sq_repr_frame; [done..|set_solver].
  - eapply lags_frame; [|done]. intros a Ha'. rewrite Hu; [done|set_solver].
  - eapply sq_repr_frame; [done..|set_solver].
  - intros a x [_ Hx]%lookup_delete_Some. by apply Hfl.
Qed.

(** Putting a timer of the pool that is on no queue on the free list. *)
Lemma wd_repr_free_pool s ts lf w :
  wd_repr s ts lf → w ∈ dom (wdogs s) → w ∉ ts.*1 → w ∉ lf → w ∈ pool →
  ∃ q m, sq_addlast (Some w) (g_wdfreelist s) (wdogs s) = Some (q, m) ∧
    wd_repr (set_free q (g_wdnfree s + 1) m s) ts (lf ++ [w]) ∧
    same_data wd_info (wdogs s) m ∧
    g_wdnfree (set_free q (g_wdnfree s + 1) m s) ≤ Z.of_nat CONFIG_PREALLOC_WDOGS.
Proof.
  intros [Ha Hl Hf Hdisj Hfl Hn Hp] Hdom Hw Hlf Hwp.
  destruct (sq_addlast_spec _ _ _ w Hf) as (q & m & Hrun & Hf' & Hsd & Hu); [done..|].
  assert (lf ++ [w] ⊆ pool) as Hp' by set_solver.
  pose proof (free_length _ (proj1 Hf') Hp') as Hlen. rewrite length_app in Hlen. simpl in Hlen.
  destruct pool_ok as (_ & _ & Hmax).
  exists q, m. split; [done|].
  assert (u16 (g_wdnfree s + 1) = Z.of_nat (length (lf ++ [w]))) as Hn'.
  { rewrite Hn, wrap_u_small, length_app by (change (2 ^ 16) with 65536; lia). simpl. lia. }
  split; [split; simpl|split].
  - eapply sq_repr_frame; [done..|set_solver].
  - by eapply lags_same.
  - done.
  - set_solver.
  - intros a y Hy. pose proof (sq_data_meta _ _ Hsd) as Hm.
    destruct (same_data_lookup_r _ _ _ _ _ Hm Hy) as (y' & Hy' & Hyy).
    destruct (Hfl a y' Hy') as (H1 & H2 & H3). unfold wd_meta, wd_call in Hyy.
    unfold WDOG_ISACTIVE, argc_ok, wd_kind, WDOG_ISALLOCED, WDOG_ISSTATIC in *.
    replace (flags y) with (flags y') by congruence.
    by replace (argc y) with (argc y') by congruence.
  - done.
  - set_solver.
  - by apply wd_meta_info, sq_data_meta.
  - simpl. rewrite Hn', length_app. simpl. lia.
Qed.

#[local] Arguments set_free : simpl never.

(** Deleting: an active timer is first cancelled; then a timer of the heap is
    freed, a timer of the pool goes back to the free list and a static one is
    left to its owner. *)
Lemma wd_delete_spec s ts lf w x :
  wd_repr s ts lf → wdogs s !! w = Some x → w ∉ lf →
  ∃ s', wd_delete (Some w) s = Some (OK, s') ∧ world s' = world s ∧
    wd_repr s' (tq_remove w ts) (if bool_decide (w ∈ pool) then lf ++ [w] else lf) ∧
    (if WDOG_ISALLOCED x then dom (wdogs s') = dom (wdogs s) ∖ {[w]}
     else same_data wd_info (wdogs s) (wdogs s')).
Proof.
  intros Hr Hx Hlf. unfold wd_delete. rewrite DEBUGASSERT_true by done. simpl.
  rewrite Hx. simpl.
  destruct (wd_cancel_if_active s ts lf w x Hr Hx) as (s1 & -> & Hr1 & Hi1 & Hw1). simpl.
  destruct (same_data_lookup _ _ _ _ _ Hi1 Hx) as (x1 & Hx1 & Hxi). rewrite Hx1. simpl.
  pose proof (tq_remove_addrs w ts) as Hnot.
  pose proof (wr_flags _ _ _ Hr1 w x1 Hx1) as (_ & _ & Hpool).
  unfold wd_info, wd_kind in *. injection Hxi as _ _ _ Hk1 Hk2. rewrite Hk1.
  destruct (WDOG_ISALLOCED x) eqn:HA; [|destruct (WDOG_ISSTATIC x) eqn:HS].
  - rewrite bool_decide_eq_false_2 by (rewrite Hpool, Hk1; naive_solver).
    eexists. split; [done|]. split; [done|]. split; [by apply wd_repr_free_block|].
    simpl. by rewrite dom_delete_L, (same_data_dom _ _ _ Hi1).
  - rewrite bool_decide_eq_false_2 by (rewrite Hpool, Hk1, Hk2; naive_solver).
    rewrite Hk2. simpl. eauto.
  - assert (w ∈ pool) as Hp by (rewrite Hpool; congruence).
    rewrite bool_decide_eq_true_2 by done. rewrite Hk2. simpl.
    destruct (wd_repr_free_pool s1 _ lf w Hr1) as (q & m & -> & Hr2 & Hi2 & Hle);
      [by eapply elem_of_dom_2|done..|]. simpl.
    rewrite DEBUGASSERT_true by (by apply Z.leb_le). simpl.
    eexists. split; [done|]. split; [done|]. split; [done|].
    transitivity (wdogs s1); [done|]. by unfold set_free.
Qed.

(** Creating from the free list; the timer comes back inactive, unlinked and
    not on the free list any more. *)
Lemma wd_create_pool s ts w lf irq kmm :
  wd_repr s ts (w :: lf) →
  CONFIG_WDOG_INTRESERVE < Z.of_nat (S (length lf)) ∨ irq = true →
  ∃ s', wd_create irq kmm s = Some (Some w, s') ∧ wd_repr s' ts lf ∧
        world s' = world s ∧ dom (wdogs s') = dom (wdogs s).
Proof.
  intros [Ha Hl Hf Hdisj Hfl Hn Hp] Hor. unfold wd_create.
  replace ((CONFIG_WDOG_INTRESERVE <? g_wdnfree s) || irq) with true; last first.
  { symmetry. apply orb_true_iff. rewrite Hn, Z.ltb_lt. naive_solver. }
  destruct (sq_remfirst_spec _ _ _ _ Hf) as (q & m & -> & Hf' & [Hsd Hu] & _). simpl.
  rewrite DEBUGASSERT_true by (rewrite Hn; simpl; apply Z.ltb_lt; lia). simpl.
  pose proof (sq_repr_dom _ _ _ Hf) as Hdom. apply Forall_cons in Hdom as [[x Hx]%elem_of_dom _].
  destruct (same_data_lookup _ _ _ _ _ Hsd Hx) as (x1 & Hx1 & _).
  do 2 run_store. rewrite insert_insert_eq.
  pose proof (free_length _ (proj1 Hf) Hp) as Hlen. destruct pool_ok as (_ & _ & Hmax).
  pose proof (proj1 Hf) as Hnd. simpl in Hn, Hlen. nodup_facts.
  set (m' := <[w := _]> m).
  assert (unchanged_but [w] (wdogs s) m') as Hu'.
  { apply unchanged_but_insert; [done|set_solver]. }
  eexists. split; [done|]. split; [split; simpl|split; [done|]].
  - eapply sq_repr_frame; [done..|set_solver].
  - eapply lags_frame; [|done]. intros a Ha'. rewrite Hu'; [done|set_solver].
  - eapply sq_repr_frame; [exact Hf'| |].
    + apply (unchanged_but_insert _ _ [w]); [done|set_solver].
    + set_solver.
  - set_solver.
  - intros a y Hy. destruct (decide (a = w)) as [->|].
    + unfold m' in Hy. rewrite lookup_insert_eq in Hy. injection Hy as <-.
      split_and!; [by rewrite bool_decide_eq_false_2 by set_solver|set_solver|].
      split; [done|]. set_solver.
    + rewrite Hu' in Hy by set_solver. by apply Hfl.
  - rewrite Hn, wrap_u_small; [lia|]. change (2 ^ 16) with 65536. lia.
  - set_solver.
  - simpl. unfold m'. rewrite dom_insert_lookup_L by done. by apply (same_data_dom sq_data).
Qed.

(** Creating from the heap, in a task when the free list is down to the
    reserve for interrupt handlers. *)
Lemma wd_create_heap s ts lf a x :
  wd_repr s ts lf → Z.of_nat (length lf) ≤ CONFIG_WDOG_INTRESERVE →
  a ∉ dom (wdogs s) → a ∉ pool →
  ∃ s', wd_create false (Some (a, x)) s = Some (Some a, s') ∧ wd_repr s' ts lf ∧
        world s' = world s ∧ dom (wdogs s') = {[a]} ∪ dom (wdogs s).
Proof.
  intros [Ha Hl Hf Hdisj Hfl Hn Hp] Hres Hdom Hpool. unfold wd_create.
  rewrite (proj2 (Z.ltb_ge _ _)) by lia. simpl.
  pose proof (sq_repr_dom _ _ _ Ha) as Hda. pose proof (sq_repr_dom _ _ _ Hf) as Hdf.
  rewrite Forall_forall in Hda, Hdf.
  assert (a ∉ ts.*1) as Hats by (intros ?; set_solver).
  assert (a ∉ lf) as Half by (intros ?; set_solver).
  assert (unchanged_but [a] (wdogs s)
    (<[a := set_flags WDOGF_ALLOCED (set_next NULL x)]> (wdogs s))) as Hu.
  { apply unchanged_but_insert; [done|set_solver]. }
  eexists. split; [done|]. split; [split; simpl; try done|split; [done|]].
  - eapply sq_repr_frame; [done..|set_solver].
  - by apply lags_insert.
  - eapply sq_repr_frame; [done..|set_solver].
  - intros b y Hy. destruct (decide (b = a)) as [->|].
    + rewrite lookup_insert_eq in Hy. injection Hy as <-.
      split_and!; [by rewrite bool_decide_eq_false_2|done|]. split; done.
    + rewrite Hu in Hy by set_solver. by apply Hfl.
  - simpl. apply dom_insert_L.
Qed.

(** A handler gets [NULL], and nothing changes, when the pool is exhausted. *)
Lemma wd_create_exhausted s ts kmm :
  wd_repr s ts [] →
  ∃ s', wd_create true kmm s = Some (NULL, s') ∧ wd_repr s' ts [] ∧ wdogs s' = wdogs s.
Proof.
  intros Hr. pose proof Hr as [Ha Hl Hf Hdisj Hfl Hn Hp]. unfold wd_create.
  rewrite orb_true_r, (sq_remfirst_empty _ _ Hf). simpl.
  rewrite DEBUGASSERT_true by (by rewrite Hn). simpl.
  eexists. split; [done|]. split; [by split|done].
Qed.

(** *** wd_recover *)

Lemma wd_recover_spec s ts lf w x :
  wd_repr s ts lf → wdogs s !! w = Some x → w ∉ lf →
  ∃ s', wd_recover (Some w) s = Some (NULL, s') ∧ world s' = world s ∧
    wd_repr s' (tq_remove w ts) (if bool_decide (w ∈ pool) then lf ++ [w] else lf) ∧
    (if WDOG_ISALLOCED x then dom (wdogs s') = dom (wdogs s) ∖ {[w]}
     else same_data wd_info (wdogs s) (wdogs s')).
Proof.
  intros Hr Hx Hlf. unfold wd_recover.
  destruct (wd_cancel_spec s ts lf w Hr) as (s1 & -> & Hr1 & Hi1 & Hw1);
    [by eapply elem_of_dom_2|]. simpl.
  destruct (same_data_lookup _ _ _ _ _ Hi1 Hx) as (x1 & Hx1 & Hxi).
  destruct (wd_delete_spec s1 _ lf w x1 Hr1 Hx1 Hlf) as (s2 & -> & Hw2 & Hr2 & Hdom).
  simpl. exists s2. split; [done|]. split; [congruence|].
  rewrite (tq_remove_notin w (tq_remove w ts)) in Hr2 by apply tq_remove_addrs.
  split; [done|]. injection Hxi as _ _ _ Hk1 _. rewrite <- Hk1.
  destruct (WDOG_ISALLOCED x1); [by rewrite Hdom, (same_data_dom _ _ _ Hi1)|by etrans].
Qed.

(** *** wd_initialize *)

Lemma wd_initialize_loop_spec ps q m l :
  sq_repr m q l → NoDup (l ++ ps) → Forall (.∈ dom m) ps →
  ∃ q' m', wd_initialize_loop ps q m = Some (q', m') ∧ sq_repr m' q' (l ++ ps) ∧
           same_data sq_data m m'.
Proof.
  revert q m l. induction ps as [|w ps IH]; intros q m l Hr Hnd Hdom; simpl.
  - rewrite app_nil_r. exists q, m. by split_and!.
  - apply Forall_cons in Hdom as [Hw Hdom].
    destruct (sq_addlast_spec _ _ _ w Hr) as (q1 & m1 & -> & Hr1 & Hsd & _);
      [done|nodup_facts; set_solver|]. simpl.
    destruct (IH q1 m1 (l ++ [w])) as (q2 & m2 & -> & Hr2 & Hsd2); [done| | |].
    { by rewrite <- app_assoc. }
    { eapply Forall_impl; [done|]. intros ?. by rewrite (same_data_dom _ _ _ Hsd). }
    rewrite <- app_assoc in Hr2. exists q2, m2. split_and!; [done..|by etrans].
Qed.

(** Initialization puts the whole pool, whose structures are zero at start-up,
    on the free list. *)
Lemma wd_initialize_spec s :
  Forall (.∈ dom (wdogs s)) pool → flags_ok (wdogs s) [] →
  ∃ s', wd_initialize pool s = Some s' ∧ wd_repr s' [] pool ∧ world s' = world s.
Proof.
  intros Hdom Hfl. destruct pool_ok as (Hnd & Hlen & Hmax).
  destruct (wd_initialize_loop_spec pool sq_init (wdogs s) []) as (q & m & Hrun & Hr & Hsd);
    [apply sq_repr_nil|done|done|].
  unfold wd_initialize. rewrite Hrun. simpl. eexists. split; [done|]. split; [|done].
  split; simpl; try done.
  - apply sq_repr_nil.
  - intros a Ha. inversion Ha.
  - intros a y Hy. destruct (same_data_lookup_r _ _ _ _ _ (sq_data_meta _ _ Hsd) Hy)
      as (y' & Hy' & Hyy).
    destruct (Hfl a y' Hy') as (H1 & H2 & H3). unfold wd_meta, wd_call in Hyy.
    unfold WDOG_ISACTIVE, argc_ok, wd_kind, WDOG_ISALLOCED, WDOG_ISSTATIC in *.
    replace (flags y) with (flags y') by congruence.
    by replace (argc y) with (argc y') by congruence.
  - rewrite wrap_u_small, Hlen; [done|]. change (2 ^ 16) with 65536. lia.
Qed.
End spec.
