(* ===== verification/WdogTimer.v ===== *)
(** * WdogTimer: the timer interrupt, and histories of the watchdog component

    What [wd_timer] does to the abstract timers of [WdogSpec]: for any watchdog
    functions that keep a contract ([WdogHandler]: they may call the watchdog
    interface, for example to restart their timer) the interrupt returns and
    keeps the invariant; for functions that leave the watchdogs alone
    ([quiet]) it executes exactly the timers that are due, in order, and
    [wd_timer_ticks] agrees with that many single ticks. *)

From S2P Require Import Prelude Queue Wdog WdogSpec.
Import Sq SqSpec.
Local Open Scope Z_scope.

(** ** Timers that are due *)

Definition tq_due (n : Z) (ts : timers) : timers := filter (λ p, p.2 ≤ n) ts.
Definition tq_later (n : Z) (ts : timers) : timers := filter (λ p, n < p.2) ts.

(** Times do not decrease along the queue, starting from [t]. *)
Fixpoint ordered (t : Z) (ts : timers) : Prop :=
  match ts with [] => True | (_, d) :: ts => t ≤ d ∧ ordered d ts end.

Lemma lags_ordered m t ts : lags m t ts → ordered t ts.
Proof.
  revert t. induction ts as [|[a d] ts IH]; intros t; simpl; [done|].
  intros (_ & Hd & Hts). split; [lia|auto].
Qed.

Lemma ordered_weaken t t' ts : t' ≤ t → ordered t ts → ordered t' ts.
Proof. destruct ts as [|[a d] ts]; simpl; [done|]. intros ? [? ?]. split; [lia|done]. Qed.

Lemma tq_due_none n t ts : ordered t ts → n < t → tq_due n ts = [].
Proof.
  revert t. induction ts as [|[a d] ts IH]; intros t Ho Ht; [done|].
  destruct Ho as [Hd Ho]. unfold tq_due. rewrite filter_cons_False by (simpl; lia).
  apply (IH d); [done|lia].
Qed.

Lemma tq_later_all n t ts : ordered t ts → n < t → tq_later n ts = ts.
Proof.
  revert t. induction ts as [|[a d] ts IH]; intros t Ho Ht; [done|].
  destruct Ho as [Hd Ho]. unfold tq_later. rewrite filter_cons_True by (simpl; lia).
  f_equal. apply (IH d); [done|lia].
Qed.

Lemma tq_due_cons n a d ts : d ≤ n → tq_due n ((a, d) :: ts) = (a, d) :: tq_due n ts.
Proof. intros. unfold tq_due. by rewrite filter_cons_True. Qed.

Lemma tq_later_cons n a d ts : d ≤ n → tq_later n ((a, d) :: ts) = tq_later n ts.
Proof. intros. unfold tq_later. rewrite filter_cons_False; [done|]. simpl. lia. Qed.

Lemma tq_later_lower n ts : Forall (λ p, n < p.2) (tq_later n ts).
Proof. apply Forall_forall. intros p [Hp _]%list_elem_of_filter. done. Qed.

Lemma tq_shift_addrs n ts : (tq_shift n ts).*1 = ts.*1.
Proof. unfold tq_shift. rewrite <- list_fmap_compose. by apply list_fmap_ext. Qed.

Lemma tq_shift_0 ts : tq_shift 0 ts = ts.
Proof.
  unfold tq_shift. rewrite <- (list_fmap_id ts) at 2. apply list_fmap_ext.
  intros _ [a d] _. simpl. f_equal. lia.
Qed.

Lemma tq_shift_add n k ts : tq_shift n (tq_shift k ts) = tq_shift (k + n) ts.
Proof.
  unfold tq_shift. rewrite <- list_fmap_compose. apply list_fmap_ext.
  intros _ [a d] _. simpl. f_equal. lia.
Qed.

Lemma tq_due_shift n k ts : tq_due n (tq_shift k ts) = tq_shift k (tq_due (k + n) ts).
Proof.
  unfold tq_due, tq_shift. induction ts as [|[a d] ts IH]; [done|].
  csimpl. rewrite !filter_cons. simpl.
  repeat case_decide; simpl; try lia; by rewrite IH.
Qed.

Lemma tq_later_shift n k ts : tq_later n (tq_shift k ts) = tq_shift k (tq_later (k + n) ts).
Proof.
  unfold tq_later, tq_shift. induction ts as [|[a d] ts IH]; [done|].
  csimpl. rewrite !filter_cons. simpl.
  repeat case_decide; simpl; try lia; by rewrite IH.
Qed.

Lemma tq_later_later n k ts : k ≤ n → tq_later n (tq_later k ts) = tq_later n ts.
Proof.
  intros Hk. unfold tq_later. rewrite list_filter_filter. apply list_filter_iff.
  intros p. lia.
Qed.

(** Splitting what is due at [n] at an earlier time [k]. *)
Lemma tq_due_split n k t ts :
  ordered t ts → k ≤ n → tq_due n ts = tq_due k ts ++ tq_due n (tq_later k ts).
Proof.
  revert t. induction ts as [|[a d] ts IH]; intros t Ho Hk; [done|]. destruct Ho as [Hd Ho].
  destruct (decide (d ≤ k)) as [Hle|Hgt].
  - rewrite (tq_due_cons k), (tq_due_cons n), tq_later_cons by lia. simpl. f_equal. by eapply IH.
  - assert (ordered d ((a, d) :: ts)) as Ho' by (simpl; split; [lia|done]).
    by rewrite (tq_due_none k d), (tq_later_all k d) by (done || lia).
Qed.

(** ** The head of the queue *)

Section timer.
Context `{Config} {W : Type} (pool : list addr).
Implicit Types (s : wd_state W) (ts : timers) (lf : list addr) (m : mem wdog_s).
Abbreviation repr := (wd_repr (W := W) pool).

(** Changing lags only. *)
Lemma wd_repr_lags s ts lf m ts' :
  repr s ts lf → same_data wd_keep (wdogs s) m → ts'.*1 = ts.*1 → lags m 0 ts' →
  repr (set_wdogs m s) ts' lf.
Proof.
  intros [Ha _ Hf Hdisj Hfl Hn Hp] Hk Hts Hl. split; simpl; rewrite ?Hts; try done.
  - eapply sq_repr_same; [by apply wd_keep_links|done].
  - eapply sq_repr_same; [by apply wd_keep_links|done].
  - intros a x Hx. destruct (same_data_lookup_r _ _ _ _ _ (wd_keep_meta _ _ Hk) Hx)
      as (y & Hy & Hyx). destruct (Hfl a y Hy) as (H1 & H2 & H3).
    unfold wd_meta, wd_call in Hyx.
    unfold WDOG_ISACTIVE, argc_ok, wd_kind, WDOG_ISALLOCED, WDOG_ISSTATIC in *.
    rewrite Hts. replace (flags x) with (flags y) by congruence.
    by replace (argc x) with (argc y) by congruence.
Qed.

Lemma wd_keep_info m m' : same_data wd_keep m m' → same_data wd_info m m'.
Proof. intros. by apply wd_meta_info, wd_keep_meta. Qed.

Lemma lags_shift m t n ts :
  0 ≤ n → lags m t ts → lags m (t - n) (tq_shift n ts).
Proof.
  intros Hn. revert t. induction ts as [|[a d] ts IH]; intros t; [done|].
  intros ((x & Hx & Hl) & Hd & Hts). csimpl. split; [|split; [lia|by apply IH]].
  exists x. split; [done|lia].
Qed.

(** Taking [n] ticks off the lag of the head takes them off every time. *)
Lemma wd_tick_head s ts lf a d n :
  repr s ((a, d) :: ts) lf → 0 ≤ n ≤ d →
  ∃ m, store (Some a) (λ y, set_lag (s32 (lag y - n)) y) (wdogs s) = Some m ∧
    repr (set_wdogs m s) (tq_shift n ((a, d) :: ts)) lf ∧
    same_data wd_info (wdogs s) m.
Proof.
  intros Hr Hn. pose proof (wr_lags _ _ _ _ Hr) as ((x & Hx & Hlx) & Hd & Hl).
  pose proof (proj1 (wr_active _ _ _ _ Hr)) as Hnd. csimpl in Hnd. nodup_facts.
  run_store. eexists. split; [done|].
  set (m := <[a := _]> (wdogs s)).
  assert (same_data wd_keep (wdogs s) m) as Hk by (by eapply same_data_insert).
  split; [|by apply wd_keep_info].
  apply (wd_repr_lags s _ _ _ _ Hr Hk); [apply tq_shift_addrs|].
  csimpl. split; [|split; [lia|]].
  - eexists. split; [apply lookup_insert_eq|]. simpl. rewrite s32_small; lia.
  - apply lags_shift; [lia|]. by apply lags_insert.
Qed.

(** Removing the head: the state in which its function runs. *)
Lemma wd_expire_head_spec wdentry s w d ts lf x :
  repr s ((w, d) :: ts) lf → wdogs s !! w = Some x →
  ∃ s1, repr s1 ts lf ∧ same_data wd_info (wdogs s) (wdogs s1) ∧ world s1 = world s ∧
    wd_expire_head wdentry s = wdentry (func x) (take (Z.to_nat (argc x)) (parm x)) s1.
Proof.
  intros Hr Hx. pose proof Hr as [Ha Hl Hf Hdisj Hfl Hn Hp].
  csimpl in Ha. pose proof (proj1 Ha) as Hnd. csimpl in Hdisj.
  destruct (sq_remfirst_spec _ _ _ _ Ha) as (q & m & Hrun & Ha1 & [Hsd Hu] & _).
  destruct (same_data_lookup _ _ _ _ _ Hsd Hx) as (x1 & Hx1 & Hxx).
  assert (wd_call x1 = wd_call x) as Hcall by (unfold wd_call; simpl in Hxx; congruence).
  injection Hcall as Hf1 Hf2 Hf3.
  destruct (inherit_lag m 0 w d ts x1) as (m1 & Hm1 & Hl1 & Hk1 & Hu1);
    [by eapply lags_same|done|by nodup_facts|by nodup_facts|done|].
  assert (m1 !! w = Some x1) as Hw1 by (rewrite Hu1; [done|by nodup_facts]).
  pose proof Ha1 as (_ & Hhd1 & _).
  destruct (Hfl w x Hx) as (_ & Hargc & _). specialize (Hargc ltac:(left)). unfold argc_ok in Hargc.
  unfold wd_expire_head. rewrite Hrun. simpl. rewrite Hx1. simpl. rewrite Hhd1, Hm1. simpl.
  run_store. rewrite Hf2, (proj2 (Z.leb_le _ _)), (proj2 (Z.leb_le _ _)), Hf1, Hf3 by lia.
  eexists. split; [|split; [|split; [|done]]]; [|simpl|done].
  - destruct (WDOG_CLRACTIVE_spec x1) as (Hc1 & Hc2 & Hc3 & Hc4).
    assert (same_data wd_meta (wdogs s) m1) as Hm.
    { transitivity m; [by apply sq_data_meta|by apply wd_keep_meta]. }
    nodup_facts. eapply wd_repr_active; [done|..].
    + eapply sq_repr_insert; [|done|exact Hc4].
      eapply sq_repr_same; [by apply wd_keep_links|done].
    + by apply lags_insert.
    + eapply sq_repr_frame; [exact Hf|..].
      * apply (unchanged_but_insert _ m1 (w :: ts.*1)); [|set_solver].
        transitivity m; eapply unchanged_but_weaken; [done|set_solver|done|set_solver].
      * set_solver.
    + set_solver.
    + eapply flags_ok_update; [exact Hfl|done|done|by rewrite Hc2| | |].
      * by rewrite bool_decide_eq_false_2.
      * done.
      * intros a Ha'. csimpl. set_solver.
  - eapply same_data_insert; [|done|by apply WDOG_CLRACTIVE_spec].
    apply wd_meta_info. transitivity m; [by apply sq_data_meta|by apply wd_keep_meta].
Qed.

(** ** Arbitrary watchdog functions

    What the interrupt needs of the functions it calls: from a state of the
    invariant they return to one, without making more timers due.  [I] is
    whatever the functions themselves rely on. *)
Class WdogHandler (I : gset addr → list addr → W → Prop)
    (wdentry : Z → list Z → wd_state W → option (wd_state W)) : Prop := {
  handler_ok f ps s ts lf :
    repr s ts lf → I (dom (wdogs s)) lf (world s) →
    ∃ s' ts' lf', wdentry f ps s = Some s' ∧ repr s' ts' lf' ∧
      I (dom (wdogs s')) lf' (world s') ∧
      (length (tq_due 0 ts') ≤ length (tq_due 0 ts))%nat;
}.

Section handlers.
Context (I : gset addr → list addr → W → Prop)
        (wdentry : Z → list Z → wd_state W → option (wd_state W)).
Context `{!WdogHandler I wdentry}.

Lemma wd_expiration_loop_ok n s ts lf :
  repr s ts lf → I (dom (wdogs s)) lf (world s) → (length (tq_due 0 ts) ≤ n)%nat →
  ∃ s' ts' lf', wd_expiration_loop wdentry n s = Some s' ∧ repr s' ts' lf' ∧
    I (dom (wdogs s')) lf' (world s') ∧ Forall (λ p, 1 ≤ p.2) ts'.
Proof.
  revert s ts lf. induction n as [|n IH]; intros s ts lf Hr HI Hn;
    pose proof (wr_active _ _ _ _ Hr) as (_ & Hhd & _ & _);
    (destruct ts as [|[a d] ts]; [exists s, [], lf; simpl; rewrite Hhd; by auto|]);
    pose proof (wr_lags _ _ _ _ Hr) as ((x & Hx & Hlx) & Hd & Hl);
    simpl; rewrite Hhd; csimpl; rewrite Hx; simpl;
    (destruct (Z.leb_spec (lag x) 0) as [Hle|Hgt];
     [rewrite tq_due_cons in Hn by lia; simpl in Hn|
      exists s, ((a, d) :: ts), lf; split_and!; [done..|];
      constructor; [simpl; lia|]; eapply Forall_impl; [by eapply lags_bounds|];
      simpl; lia]); [lia|].
  destruct (wd_expire_head_spec wdentry s a d ts lf x Hr Hx) as (s1 & Hr1 & Hi1 & Hw1 & ->).
  destruct (handler_ok (func x) (take (Z.to_nat (argc x)) (parm x)) s1 ts lf Hr1)
    as (s2 & ts2 & lf2 & -> & Hr2 & HI2 & Hdue).
  { rewrite (same_data_dom _ _ _ Hi1), Hw1. done. }
  simpl. apply (IH s2 ts2 lf2); [done..|lia].
Qed.

Lemma tq_due_size s ts lf n : repr s ts lf → (length (tq_due n ts) ≤ size (wdogs s))%nat.
Proof.
  intros Hr. pose proof (sq_repr_size _ _ _ (wr_active _ _ _ _ Hr)) as Hsz.
  rewrite length_fmap in Hsz. unfold tq_due.
  pose proof (length_filter (λ p : addr * Z, p.2 ≤ n) ts). lia.
Qed.

Lemma wd_expiration_ok s ts lf :
  repr s ts lf → ts ≠ [] → I (dom (wdogs s)) lf (world s) →
  ∃ s' ts' lf', wd_expiration wdentry s = Some s' ∧ repr s' ts' lf' ∧
    I (dom (wdogs s')) lf' (world s') ∧ Forall (λ p, 1 ≤ p.2) ts'.
Proof.
  intros Hr Hne HI.
  destruct (wd_expiration_loop_ok (S (size (wdogs s))) s ts lf Hr HI)
    as (s' & ts' & lf' & Hrun & Hok); [pose proof (tq_due_size _ _ _ 0 Hr); lia|].
  exists s', ts', lf'. split; [|done]. rewrite <- Hrun. unfold wd_expiration.
  pose proof (wr_active _ _ _ _ Hr) as (_ & Hhd & _ & _).
  destruct ts as [|[a d] ts]; [done|]. csimpl in Hhd.
  pose proof (wr_lags _ _ _ _ Hr) as ((x & Hx & Hlx) & _ & _).
  rewrite Hhd. simpl. rewrite Hhd, Hx. simpl. by destruct (lag x <=? 0).
Qed.

Lemma wd_timer_ok s ts lf :
  repr s ts lf → Forall (λ p, 1 ≤ p.2) ts → I (dom (wdogs s)) lf (world s) →
  ∃ s' ts' lf', wd_timer wdentry s = Some s' ∧ repr s' ts' lf' ∧
    I (dom (wdogs s')) lf' (world s') ∧ Forall (λ p, 1 ≤ p.2) ts'.
Proof.
  intros Hr Hpos HI. unfold wd_timer.
  pose proof (wr_active _ _ _ _ Hr) as (_ & Hhd & _ & _). rewrite Hhd.
  destruct ts as [|[a d] ts]; csimpl; [by eauto 10|].
  apply Forall_cons in Hpos as [Hd _]. simpl in Hd.
  destruct (wd_tick_head s ts lf a d 1 Hr) as (m & -> & Hr1 & Hi); [lia|]. simpl.
  eapply wd_expiration_ok; [done|done|]. simpl. by rewrite (same_data_dom _ _ _ Hi).
Qed.
End handlers.

(** ** Watchdog functions that leave the watchdogs alone *)

Definition set_world (w : W) (s : wd_state W) : wd_state W :=
  mk_wd (wdogs s) (g_wdfreelist s) (g_wdactivelist s) (g_wdnfree s) w.

Definition quiet (act : Z → list Z → W → W) (f : Z) (ps : list Z) (s : wd_state W)
  : option (wd_state W) := Some (set_world (act f ps (world s)) s).

Lemma wd_repr_world s ts lf w : repr s ts lf → repr (set_world w s) ts lf.
Proof. intros []. by split. Qed.

#[global] Instance quiet_handler act : WdogHandler (λ _ _ _, True) (quiet act).
Proof.
  split. intros f ps s ts lf Hr _. eexists _, ts, lf. split; [done|].
  split; [by apply wd_repr_world|]. done.
Qed.

(** The functions of the timers [l] executed in order, the timers described
    by [m]. *)
Definition fire (act : Z → list Z → W → W) (m : mem wdog_s) (w : W) (p : addr * Z) : W :=
  match m !! p.1 with
  | Some x => act (func x) (take (Z.to_nat (argc x)) (parm x)) w
  | None => w
  end.
Definition fire_all act m (l : timers) (w : W) : W := foldl (fire act m) w l.

Lemma fire_all_same act m m' l w :
  same_data wd_info m m' → fire_all act m' l w = fire_all act m l w.
Proof.
  intros Hd. unfold fire_all. revert w. induction l as [|[a d] l IH]; intros w; simpl; [done|].
  rewrite IH. f_equal. unfold fire. simpl. apply (f_equal (.!! a)) in Hd.
  rewrite !lookup_fmap in Hd.
  destruct (m' !! a), (m !! a); simpl in Hd; try done.
  unfold wd_info, wd_call in Hd. injection Hd as -> -> -> _ _. done.
Qed.

Lemma fire_all_shift act m n l w : fire_all act m (tq_shift n l) w = fire_all act m l w.
Proof. unfold fire_all. revert w. induction l as [|[a d] l IH]; intros w; simpl; auto. Qed.

(** The effect of [n] ticks: [s'] has executed the timers due within [n] ticks,
    and keeps the others, [n] ticks closer. *)
Record ticked (act : Z → list Z → W → W) (n : Z) (s : wd_state W) (ts : timers)
    (lf : list addr) (s' : wd_state W) : Prop := {
  tk_repr : repr s' (tq_shift n (tq_later n ts)) lf;
  tk_info : same_data wd_info (wdogs s) (wdogs s');
  tk_world : world s' = fire_all act (wdogs s) (tq_due n ts) (world s);
}.

Section quiet.
Context (act : Z → list Z → W → W).

Lemma ticked_refl s ts lf :
  repr s ts lf → Forall (λ p, 1 ≤ p.2) ts → ticked act 0 s ts lf s.
Proof.
  intros Hr Hpos. assert (ordered 1 ts) as Ho.
  { pose proof (lags_ordered _ _ _ (wr_lags _ _ _ _ Hr)) as Ho.
    destruct Hpos as [|[a d] ts Hd _]; [done|]. simpl in *. naive_solver. }
  split; [|done|].
  - by rewrite (tq_later_all 0 1), tq_shift_0 by (done || lia).
  - by rewrite (tq_due_none 0 1) by (done || lia).
Qed.

Lemma ticked_trans n k s ts lf s1 s2 :
  repr s ts lf → 0 ≤ n → 0 ≤ k → ticked act n s ts lf s1 →
  ticked act k s1 (tq_shift n (tq_later n ts)) lf s2 →
  ticked act (n + k) s ts lf s2.
Proof.
  intros Hr Hn Hk [Hr1 Hi1 Hw1] [Hr2 Hi2 Hw2]. split.
  - rewrite tq_later_shift, tq_shift_add, tq_later_later in Hr2 by lia. done.
  - by etrans.
  - rewrite Hw2, Hw1, (fire_all_same _ _ _ _ _ Hi1), tq_due_shift, fire_all_shift.
    pose proof (lags_ordered _ _ _ (wr_lags _ _ _ _ Hr)) as Ho.
    rewrite (tq_due_split (n + k) n 0 ts) by (done || lia).
    unfold fire_all. by rewrite foldl_app.
Qed.

Lemma wd_expiration_loop_quiet n s ts lf :
  repr s ts lf → (length (tq_due 0 ts) ≤ n)%nat →
  ∃ s', wd_expiration_loop (quiet act) n s = Some s' ∧ ticked act 0 s ts lf s'.
Proof.
  revert s ts. induction n as [|n IH]; intros s ts Hr Hn;
    pose proof (wr_active _ _ _ _ Hr) as (_ & Hhd & _ & _);
    (destruct ts as [|[a d] ts];
       [exists s; simpl; rewrite Hhd; split; [done|by apply ticked_refl]|]);
    pose proof (wr_lags _ _ _ _ Hr) as ((x & Hx & Hlx) & Hd & Hl);
    simpl; rewrite Hhd; csimpl; rewrite Hx; simpl;
    (destruct (Z.leb_spec (lag x) 0) as [Hle|Hgt];
     [rewrite tq_due_cons in Hn by lia; simpl in Hn|
      exists s; split; [done|]; apply ticked_refl; [done|];
      constructor; [simpl; lia|]; eapply Forall_impl; [by eapply lags_bounds|];
      simpl; lia]); [lia|].
  destruct (wd_expire_head_spec (quiet act) s a d ts lf x Hr Hx)
    as (s1 & Hr1 & Hi1 & Hw1 & ->). unfold quiet at 1. simpl.
  destruct (IH (set_world (act (func x) (take (Z.to_nat (argc x)) (parm x)) (world s1)) s1) ts)
    as (s2 & Hrun & [Hr2 Hi2 Hw2]); [by apply wd_repr_world|lia|].
  exists s2. split; [done|]. split.
  - by rewrite tq_later_cons by lia.
  - by etrans.
  - rewrite Hw2. simpl. rewrite (fire_all_same _ _ _ _ _ Hi1), Hw1, tq_due_cons by lia.
    unfold fire_all. simpl. f_equal. unfold fire. simpl. by rewrite Hx.
Qed.

Lemma wd_expiration_quiet s ts lf :
  repr s ts lf → ts ≠ [] →
  ∃ s', wd_expiration (quiet act) s = Some s' ∧ ticked act 0 s ts lf s'.
Proof.
  intros Hr Hne.
  destruct (wd_expiration_loop_quiet (S (size (wdogs s))) s ts lf Hr)
    as (s' & Hrun & Hok); [pose proof (tq_due_size _ _ _ 0 Hr); lia|].
  exists s'. split; [|done]. rewrite <- Hrun. unfold wd_expiration.
  pose proof (wr_active _ _ _ _ Hr) as (_ & Hhd & _ & _).
  destruct ts as [|[a d] ts]; [done|]. csimpl in Hhd.
  pose proof (wr_lags _ _ _ _ Hr) as ((x & Hx & Hlx) & _ & _).
  rewrite Hhd. simpl. rewrite Hhd, Hx. simpl. by destruct (lag x <=? 0).
Qed.

(** Taking [n] ticks off the head and expiring what is due. *)
Lemma wd_tick_expire s a d ts lf n :
  repr s ((a, d) :: ts) lf → 0 ≤ n ≤ d →
  ∃ m s', store (Some a) (λ y, set_lag (s32 (lag y - n)) y) (wdogs s) = Some m ∧
    wd_expiration (quiet act) (set_wdogs m s) = Some s' ∧
    ticked act n s ((a, d) :: ts) lf s'.
Proof.
  intros Hr Hn. destruct (wd_tick_head s ts lf a d n Hr Hn) as (m & Hm & Hr1 & Hi).
  destruct (wd_expiration_quiet _ _ _ Hr1) as (s' & Hrun & [Hr' Hi' Hw']); [done|].
  exists m, s'. split; [done|]. split; [done|]. split.
  - rewrite tq_later_shift, tq_shift_add, !Z.add_0_r in Hr'. done.
  - by etrans.
  - rewrite Hw', tq_due_shift, Z.add_0_r. cbn [wdogs set_wdogs world].
    rewrite (fire_all_same _ _ _ _ _ Hi).
    by rewrite fire_all_shift.
Qed.

Lemma wd_timer_quiet s ts lf :
  repr s ts lf → Forall (λ p, 1 ≤ p.2) ts →
  ∃ s', wd_timer (quiet act) s = Some s' ∧ ticked act 1 s ts lf s'.
Proof.
  intros Hr Hpos. unfold wd_timer.
  pose proof (wr_active _ _ _ _ Hr) as (_ & Hhd & _ & _). rewrite Hhd.
  destruct ts as [|[a d] ts]; csimpl; [by exists s|].
  apply Forall_cons in Hpos as [Hd _]. simpl in Hd.
  destruct (wd_tick_expire s a d ts lf 1 Hr) as (m & s' & -> & Hrun & Hok); [lia|].
  simpl. eauto.
Qed.

Lemma ticked_pos n s ts lf s' :
  ticked act n s ts lf s' → Forall (λ p, 1 ≤ p.2) (tq_shift n (tq_later n ts)).
Proof.
  intros _. unfold tq_shift. apply Forall_fmap.
  eapply Forall_impl; [apply tq_later_lower|]. intros p. simpl. lia.
Qed.

Lemma wd_timer_iter n s ts lf :
  repr s ts lf → Forall (λ p, 1 ≤ p.2) ts →
  ∃ s', Nat.iter n (λ o, o ≫= wd_timer (quiet act)) (Some s) = Some s' ∧
        ticked act (Z.of_nat n) s ts lf s'.
Proof.
  intros Hr Hpos. induction n as [|n (s1 & Hrun & Ht)].
  - exists s. split; [done|]. by apply ticked_refl.
  - simpl. rewrite Hrun. simpl.
    destruct (wd_timer_quiet s1 _ lf (tk_repr _ _ _ _ _ _ Ht)) as (s2 & Hrun2 & Ht2).
    { by eapply ticked_pos. }
    exists s2. split; [done|]. rewrite Nat2Z.inj_succ, <- Z.add_1_r.
    eapply ticked_trans; [done|lia|lia|done|done].
Qed.

(** The tickless interrupt asserts that it does not come late, unless the
    timer is an alarm. *)
Definition not_late (ticks : Z) (ts : timers) : Prop :=
  CONFIG_SCHED_TICKLESS_ALARM = true ∨ CONFIG_DEBUG_ASSERTIONS = false ∨
  Forall (λ p, ticks ≤ p.2) ts.

Lemma not_late_assert ticks a d ts x :
  not_late ticks ((a, d) :: ts) → lag x = d →
  (if CONFIG_SCHED_TICKLESS_ALARM then Some tt else DEBUGASSERT (ticks <=? lag x)) = Some tt.
Proof.
  intros Hor Hlx. rewrite Hlx. destruct Hor as [->|[Hd|Hle]]; [done|..].
  - destruct CONFIG_SCHED_TICKLESS_ALARM; [done|]. unfold DEBUGASSERT. by rewrite Hd.
  - apply Forall_cons in Hle as [Hle _]. rewrite DEBUGASSERT_true by (by apply Z.leb_le).
    by destruct CONFIG_SCHED_TICKLESS_ALARM.
Qed.

Lemma wd_timer_ticks_loop_0 n s : wd_timer_ticks_loop (quiet act) n 0 s = Some s.
Proof. destruct n; simpl; by destruct (sq_head (g_wdactivelist s)). Qed.

Lemma wd_timer_ticks_loop_spec n ticks s ts lf :
  repr s ts lf → Forall (λ p, 1 ≤ p.2) ts → 0 ≤ ticks ≤ INT32_MAX →
  not_late ticks ts → (length ts < n)%nat →
  ∃ s', wd_timer_ticks_loop (quiet act) n ticks s = Some s' ∧
        ticked act ticks s ts lf s'.
Proof.
  revert ticks s ts. induction n as [|n IH]; intros ticks s ts Hr Hpos Ht Hlate Hn; [lia|].
  pose proof (wr_active _ _ _ _ Hr) as (_ & Hhd & _ & _).
  destruct (decide (ticks = 0)) as [->|Hne].
  { exists s. rewrite wd_timer_ticks_loop_0. split; [done|]. by apply ticked_refl. }
  simpl. rewrite Hhd. destruct ts as [|[a d] ts]; csimpl; [by exists s|].
  pose proof (wr_lags _ _ _ _ Hr) as ((x & Hx & Hlx) & Hd & Hl).
  rewrite Z.sub_0_r in Hlx. rewrite (proj2 (Z.ltb_lt _ _)), Hx by lia. simpl.
  rewrite (not_late_assert _ _ _ _ _ Hlate Hlx), Hlx. simpl.
  destruct (wd_tick_expire s a d ts lf (Z.min d ticks) Hr)
    as (m & s1 & -> & Hrun & Hok); [lia|]. simpl. rewrite Hrun. simpl.
  rewrite s32_small by lia. destruct (decide (ticks ≤ d)) as [Hle|Hgt].
  - rewrite Z.min_r, Z.sub_diag, wd_timer_ticks_loop_0 in * by lia. eauto.
  - rewrite Z.min_l in * by lia.
    destruct (IH (ticks - d) s1 (tq_shift d (tq_later d ((a, d) :: ts))))
      as (s2 & Hrun2 & Hok2).
    + apply Hok.
    + by eapply ticked_pos.
    + lia.
    + destruct Hlate as [?|[?|Hall]]; [by left|by right; left|].
      apply Forall_cons in Hall as [Hall _]. simpl in Hall. lia.
    + rewrite tq_later_cons by lia. unfold tq_shift, tq_later. rewrite length_fmap.
      pose proof (length_filter (λ p : addr * Z, d < p.2) ts). simpl in Hn. lia.
    + exists s2. split; [done|]. replace ticks with (d + (ticks - d)) by lia.
      eapply ticked_trans; [done|lia|lia|done|done].
Qed.

Definition next_expiration (ts : timers) : Z :=
  match ts with [] => 0 | (_, d) :: _ => d end.

Lemma wd_timer_ticks_spec ticks s ts lf :
  repr s ts lf → Forall (λ p, 1 ≤ p.2) ts → 0 ≤ ticks ≤ INT32_MAX → not_late ticks ts →
  ∃ s', wd_timer_ticks (quiet act) ticks s =
          Some (next_expiration (tq_shift ticks (tq_later ticks ts)), s') ∧
        ticked act ticks s ts lf s'.
Proof.
  intros Hr Hpos Ht Hlate. unfold wd_timer_ticks.
  pose proof (sq_repr_size _ _ _ (wr_active _ _ _ _ Hr)) as Hsz. rewrite length_fmap in Hsz.
  destruct (wd_timer_ticks_loop_spec (S (size (wdogs s))) ticks s ts lf)
    as (s' & -> & Hok); [done..|lia|]. cbn [mbind option_bind].
  exists s'. split; [|done]. pose proof (tk_repr _ _ _ _ _ _ Hok) as Hr'.
  pose proof (wr_active _ _ _ _ Hr') as (_ & -> & _ & _).
  destruct (tq_shift ticks (tq_later ticks ts)) as [|[a d] ts']; [done|].
  csimpl. destruct (wr_lags _ _ _ _ Hr') as ((x & -> & Hlx) & Hd & _). simpl.
  rewrite wrap_u_small; [do 2 f_equal; lia|]. change (2 ^ 32) with 4294967296. lia.
Qed.
End quiet.
End timer.

(** ** A watchdog function that restarts its timer *)

Definition restart `{Config} {W} (w0 : addr) (period : Z) (f : Z) (ps : list Z)
    (s : wd_state W) : option (wd_state W) :=
  '(_, s) ← wd_start (Some w0) period f (Z.of_nat (length ps)) ps s; Some s.

Section clients.
Context `{Config} {W : Type} (pool : list addr).
Implicit Types (s : wd_state W) (ts : timers) (lf : list addr).
Abbreviation repr := (wd_repr (W := W) pool).

Lemma tq_due_insert n w d ts : n < d → tq_due n (tq_insert w d ts) = tq_due n ts.
Proof.
  intros Hd. unfold tq_due. induction ts as [|[a e] ts IH]; simpl.
  - by rewrite filter_cons_False by (simpl; lia).
  - destruct (e <=? d); [rewrite !filter_cons; by rewrite IH|].
    by rewrite filter_cons_False by (simpl; lia).
Qed.

Lemma tq_due_remove n w ts : (length (tq_due n (tq_remove w ts)) ≤ length (tq_due n ts))%nat.
Proof.
  unfold tq_due, tq_remove. induction ts as [|p ts IH]; [done|].
  rewrite !filter_cons. repeat case_decide; rewrite ?filter_cons; repeat case_decide;
    simpl; lia || done.
Qed.

#[local] Arguments wd_start : simpl never.

(** It keeps the contract when the timer is one a client owns and the period
    and the parameters are in range: the timer it starts is never due at
    once. *)
#[global] Instance restart_handler w0 period :
  0 ≤ period ≤ INT32_MAX →
  WdogHandler pool (λ d l _, w0 ∈ d ∧ w0 ∉ l)
    (λ f ps, restart (W := W) w0 period f (take (Nat.min 4 CONFIG_MAX_WDOGPARMS) ps)).
Proof.
  intros Hp. split. intros f ps s ts lf Hr [[x Hx]%elem_of_dom Hlf].
  set (ps' := take _ ps).
  destruct (wd_start_spec pool s ts lf w0 x period f (Z.of_nat (length ps')) ps' Hr Hx Hlf Hp)
    as (s' & Hrun & Hr' & Hi & Hw).
  { unfold ps'. rewrite length_take. lia. }
  unfold restart. rewrite Hrun. simpl. eexists s', _, lf. split; [done|]. split; [done|].
  split.
  - rewrite (same_data_dom _ _ _ Hi), dom_insert_L. set_solver.
  - rewrite tq_due_insert by lia. apply tq_due_remove.
Qed.
End clients.

(** ** Histories

    A client may pass an operation only a timer it got from [wd_create] (or a
    static one) and has not deleted since: [handles] are those timers.  The heap
    gives fresh memory. *)

Inductive wd_op :=
  | WdCreate (irq : bool) (kmm_malloc : option (addr * wdog_s))
  | WdDelete (w : addr)
  | WdStart (w : addr) (delay f n : Z) (args : list Z)
  | WdCancel (w : addr)
  | WdTimer.

Section history.
Context `{Config} {W : Type} (pool : list addr) (act : Z → list Z → W → W).
Hypothesis pool_ok : NoDup pool ∧ length pool = CONFIG_PREALLOC_WDOGS ∧
                     Z.of_nat CONFIG_PREALLOC_WDOGS < 65536.
Hypothesis intreserve_ok : 0 ≤ CONFIG_WDOG_INTRESERVE.
Implicit Types (s : wd_state W) (ts : timers) (lf : list addr) (h : gset addr).

Definition wd_op_valid (o : wd_op) (s : wd_state W) (h : gset addr) : bool :=
  match o with
  | WdCreate _ None => true
  | WdCreate _ (Some (a, _)) => bool_decide ((a ∉ dom (wdogs s)) ∧ (a ∉ pool))
  | WdDelete w | WdCancel w => bool_decide (w ∈ h)
  | WdStart w delay _ n _ =>
      bool_decide (w ∈ h ∧ delay ≤ INT32_MAX ∧
                   0 ≤ n ≤ Z.min 4 (Z.of_nat CONFIG_MAX_WDOGPARMS))
  | WdTimer => true
  end.

Definition wd_exec (o : wd_op) (st : wd_state W * gset addr)
  : option (wd_state W * gset addr) :=
  let '(s, h) := st in
  match o with
  | WdCreate irq kmm =>
      '(p, s) ← wd_create irq kmm s;
      Some (s, match p with Some a => {[a]} ∪ h | None => h end)
  | WdDelete w => '(_, s) ← wd_delete (Some w) s; Some (s, h ∖ {[w]})
  | WdStart w delay f n args => '(_, s) ← wd_start (Some w) delay f n args s; Some (s, h)
  | WdCancel w => '(_, s) ← wd_cancel (Some w) s; Some (s, h)
  | WdTimer => s ← wd_timer (quiet act) s; Some (s, h)
  end.

(** What holds between any two operations. *)
Definition wd_inv (st : wd_state W * gset addr) : Prop :=
  ∃ ts lf, wd_repr pool st.1 ts lf ∧ Forall (λ p, 1 ≤ p.2) ts ∧
           st.2 ⊆ dom (wdogs st.1) ∧ (∀ a, a ∈ st.2 → a ∉ lf).

#[local] Arguments wd_start : simpl never.
#[local] Arguments wd_cancel : simpl never.
#[local] Arguments wd_create : simpl never.
#[local] Arguments wd_delete : simpl never.
#[local] Arguments wd_timer : simpl never.


Lemma tq_remove_pos w ts : Forall (λ p, 1 ≤ p.2) ts → Forall (λ p, 1 ≤ p.2) (tq_remove w ts).
Proof.
  rewrite !Forall_forall. intros Hall p [_ Hp]%list_elem_of_filter. by apply Hall.
Qed.

Lemma tq_insert_pos w d ts :
  1 ≤ d → Forall (λ p, 1 ≤ p.2) ts → Forall (λ p, 1 ≤ p.2) (tq_insert w d ts).
Proof. intros Hd Hall. rewrite tq_insert_perm. by constructor. Qed.

Lemma wd_exec_create irq kmm s h :
  wd_inv (s, h) → wd_op_valid (WdCreate irq kmm) s h = true →
  ∃ st', wd_exec (WdCreate irq kmm) (s, h) = Some st' ∧ wd_inv st'.
Proof.
  intros (ts & lf & Hr & Hpos & Hh & Hlf) Hv. simpl in *.
  destruct (decide (CONFIG_WDOG_INTRESERVE < Z.of_nat (length lf) ∨ irq = true)) as [Hor|Hno].
  - destruct lf as [|w lf].
    + destruct Hor as [Hor| ->]; [simpl in Hor; lia|].
      destruct (wd_create_exhausted pool s ts kmm Hr) as (s' & -> & Hr' & Hm).
      simpl. eexists. split; [done|]. exists ts, []. simpl. rewrite Hm. done.
    + destruct (wd_create_pool pool pool_ok s ts w lf irq kmm Hr Hor)
        as (s' & -> & Hr' & _ & Hdom). simpl.
      eexists. split; [done|]. exists ts, lf. simpl. split; [done|]. split; [done|].
      pose proof (wr_free _ _ _ _ Hr) as Hf.
      pose proof (sq_repr_dom _ _ _ Hf) as Hd. apply Forall_cons in Hd as [Hd _].
      pose proof (proj1 Hf) as Hnd. nodup_facts. rewrite Hdom. set_solver.
  - assert (irq = false) as -> by (destruct irq; [naive_solver|done]).
    destruct kmm as [[a x]|].
    + apply bool_decide_eq_true_1 in Hv as [Ha Hap].
      destruct (wd_create_heap pool pool_ok s ts lf a x Hr) as (s' & -> & Hr' & _ & Hdom);
        [lia|done|done|]. simpl. eexists. split; [done|]. exists ts, lf. simpl.
      split; [done|]. split; [done|]. rewrite Hdom.
      pose proof (wr_pool _ _ _ _ Hr) as Hp. split; [set_solver|].
      intros b [->%elem_of_singleton|Hb]%elem_of_union; [set_solver|by apply Hlf].
    + unfold wd_create. rewrite (wr_nfree _ _ _ _ Hr), (proj2 (Z.ltb_ge _ _)) by lia.
      simpl. eexists. split; [done|]. by exists ts, lf.
Qed.

Lemma wd_exec_delete w s h :
  wd_inv (s, h) → w ∈ h → ∃ st', wd_exec (WdDelete w) (s, h) = Some st' ∧ wd_inv st'.
Proof.
  intros (ts & lf & Hr & Hpos & Hh & Hlf) Hw. simpl in *.
  assert (w ∈ dom (wdogs s)) as [x Hx]%elem_of_dom by set_solver.
  destruct (wd_delete_spec pool pool_ok s ts lf w x Hr Hx) as (s' & -> & _ & Hr' & Hdom);
    [auto|]. simpl. eexists. split; [done|]. eexists _, _. split; [exact Hr'|].
  split; [by apply tq_remove_pos|]. simpl. split.
  - destruct (WDOG_ISALLOCED x); [rewrite Hdom|rewrite (same_data_dom _ _ _ Hdom)]; set_solver.
  - intros a [Ha Hne]%elem_of_difference. specialize (Hlf a Ha).
    case_bool_decide; set_solver.
Qed.

Lemma wd_exec_start w delay f n args s h :
  wd_inv (s, h) → wd_op_valid (WdStart w delay f n args) s h = true →
  ∃ st', wd_exec (WdStart w delay f n args) (s, h) = Some st' ∧ wd_inv st'.
Proof.
  intros Hinv (Hw & Hd & Hn)%bool_decide_eq_true_1.
  destruct (decide (delay < 0)) as [Hneg|Hge]; simpl.
  { rewrite wd_start_error by auto. simpl. eauto. }
  destruct Hinv as (ts & lf & Hr & Hpos & Hh & Hlf). simpl in *.
  assert (w ∈ dom (wdogs s)) as [x Hx]%elem_of_dom by set_solver.
  destruct (wd_start_spec pool s ts lf w x delay f n args Hr Hx) as (s' & -> & Hr' & Hi & _);
    [auto|lia|done|]. simpl. eexists. split; [done|]. eexists _, _. split; [exact Hr'|].
  split; [apply tq_insert_pos; [lia|by apply tq_remove_pos]|]. simpl.
  rewrite (same_data_dom _ _ _ Hi), dom_insert_L. split; [set_solver|done].
Qed.

Lemma wd_exec_ok o s h :
  wd_inv (s, h) → wd_op_valid o s h = true →
  ∃ st', wd_exec o (s, h) = Some st' ∧ wd_inv st'.
Proof.
  destruct o; intros Hinv Hv.
  - by apply wd_exec_create.
  - apply bool_decide_eq_true_1 in Hv. by apply wd_exec_delete.
  - by apply wd_exec_start.
  - apply bool_decide_eq_true_1 in Hv.
    destruct Hinv as (ts & lf & Hr & Hpos & Hh & Hlf). simpl in *.
    destruct (wd_cancel_spec pool s ts lf w Hr) as (s' & -> & Hr' & Hi & _); [set_solver|].
    simpl. eexists. split; [done|]. eexists _, _. split; [exact Hr'|].
    split; [by apply tq_remove_pos|]. simpl. by rewrite (same_data_dom _ _ _ Hi).
  - destruct Hinv as (ts & lf & Hr & Hpos & Hh & Hlf). simpl in *.
    destruct (wd_timer_quiet pool act s ts lf Hr Hpos) as (s' & -> & Hok). simpl.
    eexists. split; [done|]. eexists _, _. split; [apply Hok|].
    split; [by eapply ticked_pos|]. simpl.
    by rewrite (same_data_dom _ _ _ (tk_info _ _ _ _ _ _ _ Hok)).
Qed.

(** Operations that are not valid where they come are skipped. *)
Fixpoint wd_run (os : list wd_op) (st : wd_state W * gset addr)
  : option (wd_state W * gset addr) :=
  match os with
  | [] => Some st
  | o :: os => if wd_op_valid o st.1 st.2
               then st ← wd_exec o st; wd_run os st
               else wd_run os st
  end.

#[local] Arguments wd_exec : simpl never.

Lemma wd_run_ok os st : wd_inv st → ∃ st', wd_run os st = Some st' ∧ wd_inv st'.
Proof.
  revert st. induction os as [|o os IH]; intros [s h] Hinv; simpl; [eauto|].
  destruct (wd_op_valid o s h) eqn:Hv; [|by apply IH].
  destruct (wd_exec_ok o s h Hinv Hv) as (st1 & -> & Hinv1). simpl. by apply IH.
Qed.
End history.
