(* ===== verification/WdogProps.v ===== *)
(** * WdogProps: what the watchdog component guarantees

    The properties of sched/wdog, each with a concrete instance: an initialized
    component whose pool has three timers, two of them running. *)

From S2P Require Import Prelude Queue Wdog WdogSpec WdogTimer.
Import Sq SqSpec.
Local Open Scope Z_scope.

(** ** A concrete component *)

#[local] Instance demo_config : Config := {|
  CONFIG_DEBUG_ASSERTIONS := true;
  CONFIG_DEBUG_FEATURES := true;
  CONFIG_SCHED_TICKLESS_ALARM := true;
  CONFIG_MAX_WDOGPARMS := 4;
  CONFIG_PREALLOC_WDOGS := 3;
  CONFIG_WDOG_INTRESERVE := 1;
  CONFIG_RR_INTERVAL := 200;
  CONFIG_USEC_PER_TICK := 10000;
  CONFIG_MAX_TASKS := 16;
|}.

(** The log of the watchdog functions executed. *)
Abbreviation log := (list (Z * list Z)).
Definition log_act (f : Z) (ps : list Z) (l : log) : log := l ++ [(f, ps)].

Definition demo_pool : list addr := [1%positive; 2%positive; 3%positive].
Definition zero_wdog : wdog_s := mk_wdog NULL 0 0 0 0 [0; 0; 0; 0].
(** At start-up the pool is zero and the queues are undefined. *)
Definition demo_boot : wd_state log :=
  mk_wd {[1%positive := zero_wdog; 2%positive := zero_wdog; 3%positive := zero_wdog]}
    (mk_sq NULL NULL) (mk_sq NULL NULL) 0 [].
(** Timers 1 and 2 run for 3 and 5 more ticks, timer 3 is free. *)
Definition demo_state : wd_state log :=
  mk_wd {[1%positive := mk_wdog (Some 2%positive) 100 3 1 1 [7; 0; 0; 0];
          2%positive := mk_wdog NULL 200 2 1 0 [0; 0; 0; 0];
          3%positive := zero_wdog]}
    (mk_sq (Some 3%positive) (Some 3%positive)) (mk_sq (Some 1%positive) (Some 2%positive))
    1 [].
Definition demo_timers : timers := [(1%positive, 3); (2%positive, 5)].

Lemma flags_ok_check pool m ts :
  map_Forall (λ a x, WDOG_ISACTIVE x = bool_decide (a ∈ ts.*1) ∧
    (a ∈ ts.*1 → 0 ≤ argc x ≤ 4) ∧
    (a ∈ pool ↔ wd_kind x = (false, false))) m → flags_ok pool m ts.
Proof. intros Hall a x Hx. exact (Hall a x Hx). Qed.

Lemma demo_repr : wd_repr demo_pool demo_state demo_timers [3%positive].
Proof.
  split.
  - split; [by_decide|]. split; [done|]. split; [done|].
    split; [by eexists|]. split; [by eexists|done].
  - split; [by eexists|]. split; [lia|]. split; [by eexists|]. split; [lia|done].
  - split; [by_decide|]. split; [done|]. split; [done|]. split; [by eexists|done].
  - unfold demo_timers. csimpl. set_solver.
  - apply flags_ok_check. by_decide.
  - done.
  - unfold demo_pool. set_solver.
Qed.

Lemma demo_pos : Forall (λ p, 1 ≤ p.2) demo_timers.
Proof. repeat constructor; simpl; lia. Qed.

Lemma demo_pool_ok :
  NoDup demo_pool ∧ length demo_pool = CONFIG_PREALLOC_WDOGS ∧
  Z.of_nat CONFIG_PREALLOC_WDOGS < 65536.
Proof. split; [by_decide|]. done. Qed.

(** ** Properties *)

Section props.
Context `{Config} {W : Type} (pool : list addr).
Implicit Types (s : wd_state W) (ts : timers) (lf : list addr).

(** C19: from start-up, no history of calls of the watchdog interface, by clients
    that pass only timers they own, and of timer interrupts reaches undefined
    behaviour or a failed assertion: every operation returns, and the whole
    invariant (acyclic ordered queue, lags, flags, free count) holds after
    it.  The watchdog functions leave the timers alone ([quiet]); functions
    that start and cancel timers are in [wd_timer_terminates]. *)
Theorem wd_history_safe act os s :
  NoDup pool ∧ length pool = CONFIG_PREALLOC_WDOGS ∧
    Z.of_nat CONFIG_PREALLOC_WDOGS < 65536 →
  0 ≤ CONFIG_WDOG_INTRESERVE →
  Forall (.∈ dom (wdogs s)) pool → flags_ok pool (wdogs s) [] →
  ∃ s0 st', wd_initialize pool s = Some s0 ∧
    wd_run pool act os (s0, ∅) = Some st' ∧ wd_inv pool st'.
Proof.
  intros Hpool Hres Hdom Hfl.
  destruct (wd_initialize_spec pool Hpool s Hdom Hfl) as (s0 & Hs0 & Hr & _).
  destruct (wd_run_ok pool act Hpool Hres os (s0, ∅)) as (st' & Hrun & Hinv).
  { exists [], pool. split; [done|]. split; [done|]. set_solver. }
  eauto.
Qed.

(** C20: [wd_start] with a legal delay and parameter count puts the timer, taken
    out of the queue first if it was running, after all the timers that expire
    no later than [delay + 1] ticks (saturated at INT32_MAX); every other
    timer keeps its time, and the function and parameters are saved. *)
Theorem wd_start_schedules s ts lf w x delay f n args :
  wd_repr pool s ts lf → wdogs s !! w = Some x → w ∉ lf →
  0 ≤ delay ≤ INT32_MAX → 0 ≤ n ≤ Z.min 4 (Z.of_nat CONFIG_MAX_WDOGPARMS) →
  ∃ s', wd_start (Some w) delay f n args s = Some (OK, s') ∧
    wd_repr pool s' (tq_insert w (Z.min (delay + 1) INT32_MAX) (tq_remove w ts)) lf ∧
    same_data wd_info (<[w := wd_save_call f n args x]> (wdogs s)) (wdogs s') ∧
    world s' = world s.
Proof. apply wd_start_spec. Qed.

(** [wd_cancel] takes a running timer out of the queue, returning OK, and
    leaves the expiration of every other timer unchanged (the next timer
    inherits its lag); on a timer that is not running it returns -EINVAL and
    the queue is the same. *)
Theorem wd_cancel_keeps_others s ts lf w :
  wd_repr pool s ts lf → w ∈ dom (wdogs s) →
  ∃ s', wd_cancel (Some w) s =
          Some (if bool_decide (w ∈ ts.*1) then OK else - EINVAL, s') ∧
        wd_repr pool s' (tq_remove w ts) lf ∧
        same_data wd_info (wdogs s) (wdogs s') ∧ world s' = world s.
Proof. apply wd_cancel_spec. Qed.

(** C21: one timer interrupt executes exactly the timers whose time has come, in
    queue order, each function with the parameters saved for it, removes them,
    and moves every other timer one tick closer, when the functions leave the
    timers alone ([quiet]). *)
Theorem wd_timer_fires_due act s ts lf :
  wd_repr pool s ts lf → Forall (λ p, 1 ≤ p.2) ts →
  ∃ s', wd_timer (quiet act) s = Some s' ∧
    wd_repr pool s' (tq_shift 1 (filter (λ p, 1 < p.2) ts)) lf ∧
    world s' = fire_all act (wdogs s) (filter (λ p, p.2 ≤ 1) ts) (world s).
Proof.
  intros Hr Hpos. destruct (wd_timer_quiet pool act s ts lf Hr Hpos) as (s' & Hrun & []).
  eauto.
Qed.

(** C33: the timer interrupt returns, with the invariant and with no timer left
    due, whatever the watchdog functions do (restart their timer, start and
    cancel others), as long as each of them keeps the invariant and does not
    make more timers due. *)
Theorem wd_timer_terminates I wdentry s ts lf :
  WdogHandler pool I wdentry →
  wd_repr pool s ts lf → Forall (λ p, 1 ≤ p.2) ts → I (dom (wdogs s)) lf (world s) →
  ∃ s' ts' lf', wd_timer wdentry s = Some s' ∧ wd_repr pool s' ts' lf' ∧
    I (dom (wdogs s')) lf' (world s') ∧ Forall (λ p, 1 ≤ p.2) ts'.
Proof. intros Hh. by apply wd_timer_ok. Qed.

(** C22: the tickless interrupt for [n] elapsed ticks is equivalent to [n] periodic
    interrupts: same functions executed in the same order, same timers left
    with the same times; it returns the time to the next expiration, 0 when
    no timer is left.  The functions leave the timers alone ([quiet]), and the
    interrupt is not later than the first expiration ([not_late], which the
    source asserts). *)
Theorem wd_timer_ticks_equiv act n s ts lf :
  wd_repr pool s ts lf → Forall (λ p, 1 ≤ p.2) ts → Z.of_nat n ≤ INT32_MAX →
  not_late (Z.of_nat n) ts →
  ∃ s1 s2 ts', wd_timer_ticks (quiet act) (Z.of_nat n) s = Some (next_expiration ts', s1) ∧
    Nat.iter n (λ o, o ≫= wd_timer (quiet act)) (Some s) = Some s2 ∧
    wd_repr pool s1 ts' lf ∧ wd_repr pool s2 ts' lf ∧ world s1 = world s2.
Proof.
  intros Hr Hpos Hn Hlate.
  destruct (wd_timer_ticks_spec pool act (Z.of_nat n) s ts lf) as (s1 & Hrun1 & []);
    [done|done|lia|done|].
  destruct (wd_timer_iter pool act n s ts lf) as (s2 & Hrun2 & []); [done..|].
  do 3 eexists. split; [done|]. split; [done|]. split; [done|]. split; [done|congruence].
Qed.

Lemma tq_time_later n w ts :
  0 ≤ n → NoDup ts.*1 → Forall (λ p, 1 ≤ p.2) ts →
  tq_time w (tq_shift n (tq_later n ts)) = Z.max 0 (tq_time w ts - n).
Proof.
  intros Hn Hnd Hpos. induction ts as [|[a d] ts IH]; csimpl in *; [lia|].
  apply Forall_cons in Hpos as [Hd Hpos]. simpl in Hd. nodup_facts.
  unfold tq_later. rewrite filter_cons. simpl.
  destruct (decide (n < d)); csimpl; case_bool_decide; try (by apply IH); [lia|].
  subst a. rewrite Z.max_l by lia.
  assert (w ∉ (tq_shift n (tq_later n ts)).*1) as Hw.
  { rewrite tq_shift_addrs.
    intros (p & -> & [_ Hp]%list_elem_of_filter)%list_elem_of_fmap.
    apply (list_elem_of_fmap_2 fst) in Hp. done. }
  by apply tq_time_notin.
Qed.

Lemma tq_time_insert w e ts : w ∉ ts.*1 → tq_time w (tq_insert w e ts) = e.
Proof.
  induction ts as [|[a d] ts IH]; csimpl; intros Hw.
  - by rewrite bool_decide_eq_true_2.
  - destruct (d <=? e); csimpl; [|by rewrite bool_decide_eq_true_2].
    rewrite bool_decide_eq_false_2 by set_solver. apply IH. set_solver.
Qed.

(** A timer started with delay [d] expires on tick [d + 1]: after [n] ticks
    [wd_gettime] reads [d + 1 - n] (with the saturated delay), and from tick
    [d + 1] on it reads 0. *)
Theorem wd_start_expires act s ts lf w x delay f k args (n : nat) :
  wd_repr pool s ts lf → Forall (λ p, 1 ≤ p.2) ts → wdogs s !! w = Some x → w ∉ lf →
  0 ≤ delay ≤ INT32_MAX → 0 ≤ k ≤ Z.min 4 (Z.of_nat CONFIG_MAX_WDOGPARMS) →
  ∃ s1 s2, wd_start (Some w) delay f k args s = Some (OK, s1) ∧
    Nat.iter n (λ o, o ≫= wd_timer (quiet act)) (Some s1) = Some s2 ∧
    wd_gettime (Some w) s2 =
      Some (Z.max 0 (Z.min (delay + 1) INT32_MAX - Z.of_nat n)).
Proof.
  intros Hr Hpos Hx Hlf Hd Hk.
  destruct (wd_start_spec pool s ts lf w x delay f k args) as (s1 & Hrun1 & Hr1 & Hi1 & _);
    [done..|].
  set (ts1 := tq_insert w _ _) in Hr1.
  assert (Forall (λ p, 1 ≤ p.2) ts1) as Hpos1.
  { apply tq_insert_pos; [lia|by apply tq_remove_pos]. }
  destruct (wd_timer_iter pool act n s1 ts1 lf Hr1 Hpos1) as (s2 & Hrun2 & [Hr2 Hi2 _]).
  exists s1, s2. split; [done|]. split; [done|].
  rewrite (wd_gettime_spec pool s2 _ lf w Hr2).
  - rewrite tq_time_later; [|lia|apply (wr_active _ _ _ _ Hr1)|done]. unfold ts1.
    by rewrite tq_time_insert by apply tq_remove_addrs.
  - rewrite (same_data_dom _ _ _ Hi2), (same_data_dom _ _ _ Hi1), dom_insert_L. set_solver.
Qed.

(** [wd_delete] cancels the timer if it runs; then a timer of the heap is
    freed, one of the pool goes back to the end of the free list (whose count
    stays exact and within the pool) and a static one is left alone. *)
Theorem wd_delete_releases s ts lf w x :
  NoDup pool ∧ length pool = CONFIG_PREALLOC_WDOGS ∧
    Z.of_nat CONFIG_PREALLOC_WDOGS < 65536 →
  wd_repr pool s ts lf → wdogs s !! w = Some x → w ∉ lf →
  ∃ s', wd_delete (Some w) s = Some (OK, s') ∧ world s' = world s ∧
    wd_repr pool s' (tq_remove w ts) (if bool_decide (w ∈ pool) then lf ++ [w] else lf) ∧
    (if WDOG_ISALLOCED x then dom (wdogs s') = dom (wdogs s) ∖ {[w]}
     else same_data wd_info (wdogs s) (wdogs s')).
Proof. intros Hpool. by apply wd_delete_spec. Qed.

(** [wd_create] keeps [CONFIG_WDOG_INTRESERVE] timers of the pool for
    interrupt handlers: a task gets a pool timer only when more than the
    reserve are free, and a block of the heap otherwise; a handler gets a pool
    timer as long as there is one, and NULL after that. *)
Theorem wd_create_reserves s ts lf irq a x :
  NoDup pool ∧ length pool = CONFIG_PREALLOC_WDOGS ∧
    Z.of_nat CONFIG_PREALLOC_WDOGS < 65536 →
  0 ≤ CONFIG_WDOG_INTRESERVE → wd_repr pool s ts lf → a ∉ dom (wdogs s) → a ∉ pool →
  ∃ s', wd_create irq (Some (a, x)) s =
      Some (if irq || (CONFIG_WDOG_INTRESERVE <? Z.of_nat (length lf))
            then hd_or NULL lf else Some a, s') ∧
    wd_repr pool s' ts
      (if irq || (CONFIG_WDOG_INTRESERVE <? Z.of_nat (length lf)) then tail lf else lf).
Proof.
  intros Hpool Hres Hr Ha Hap.
  destruct (irq || (CONFIG_WDOG_INTRESERVE <? Z.of_nat (length lf))) eqn:Hb.
  - apply orb_true_iff in Hb. rewrite Z.ltb_lt in Hb. destruct lf as [|w lf].
    + destruct Hb as [->|Hb]; [|simpl in Hb; lia].
      destruct (wd_create_exhausted pool s ts (Some (a, x)) Hr) as (s' & Hrun & Hr' & _). eauto.
    + destruct (wd_create_pool pool Hpool s ts w lf irq (Some (a, x)) Hr)
        as (s' & Hrun & Hr' & _); [naive_solver|]. eauto.
  - apply orb_false_iff in Hb as [-> Hb%Z.ltb_ge].
    destruct (wd_create_heap pool Hpool s ts lf a x Hr) as (s' & Hrun & Hr' & _); eauto.
Qed.

(** [wd_start] on a NULL timer, with too many parameters or with a negative
    delay returns -EINVAL before any state change: the timer, if it runs,
    keeps running. *)
Theorem wd_start_rejects s w delay f n args :
  w = NULL ∨ Z.of_nat CONFIG_MAX_WDOGPARMS < n ∨ delay < 0 →
  wd_start w delay f n args s = Some (- EINVAL, s).
Proof. apply wd_start_error. Qed.
End props.

(** ** The properties on the concrete component *)

Definition demo_ops : list wd_op :=
  [WdCreate false None; WdCreate true None; WdStart 1 2 100 1 [7]; WdStart 2 0 200 0 [];
   WdTimer; WdCancel 1; WdStart 1 0 300 0 []; WdTimer; WdDelete 2; WdCreate false None].

Lemma wd_history_safe_witness :
  ∃ s0 st', wd_initialize demo_pool demo_boot = Some s0 ∧
    wd_run demo_pool log_act demo_ops (s0, ∅) = Some st' ∧ wd_inv demo_pool st'.
Proof.
  apply (wd_history_safe demo_pool log_act demo_ops demo_boot).
  - apply demo_pool_ok.
  - done.
  - by_decide.
  - apply flags_ok_check. by_decide.
Defined.

Lemma wd_start_schedules_witness :
  ∃ s', wd_start (Some 1%positive) 3 300 2 [8; 9] demo_state = Some (OK, s') ∧
    wd_repr demo_pool s' [(1%positive, 4); (2%positive, 5)] [3%positive].
Proof.
  destruct (wd_start_schedules demo_pool demo_state demo_timers [3%positive] 1
    (mk_wdog (Some 2%positive) 100 3 1 1 [7; 0; 0; 0]) 3 300 2 [8; 9])
    as (s' & Hrun & Hr & _).
  - apply demo_repr.
  - reflexivity.
  - by_decide.
  - lia.
  - simpl. lia.
  - exists s'. split; [exact Hrun|exact Hr].
Defined.

Lemma wd_cancel_keeps_others_witness :
  ∃ s', wd_cancel (Some 1%positive) demo_state = Some (OK, s') ∧
    wd_repr demo_pool s' [(2%positive, 5)] [3%positive].
Proof.
  destruct (wd_cancel_keeps_others demo_pool demo_state demo_timers [3%positive] 1)
    as (s' & Hrun & Hr & _).
  - apply demo_repr.
  - by_decide.
  - exists s'. split; [exact Hrun|exact Hr].
Defined.

Lemma wd_timer_fires_due_witness :
  ∃ s', wd_timer (quiet log_act) demo_state = Some s' ∧
    wd_repr demo_pool s' [(1%positive, 2); (2%positive, 4)] [3%positive] ∧ world s' = [].
Proof.
  apply (wd_timer_fires_due demo_pool log_act demo_state demo_timers [3%positive]).
  - apply demo_repr.
  - apply demo_pos.
Defined.

Lemma wd_timer_terminates_witness :
  ∃ s' ts' lf',
    wd_timer (λ f ps, restart 1 9 f (take (Nat.min 4 CONFIG_MAX_WDOGPARMS) ps)) demo_state
      = Some s' ∧ wd_repr demo_pool s' ts' lf' ∧
    (1%positive ∈ dom (wdogs s') ∧ 1%positive ∉ lf') ∧ Forall (λ p, 1 ≤ p.2) ts'.
Proof.
  apply (wd_timer_terminates demo_pool (λ d l _, 1%positive ∈ d ∧ 1%positive ∉ l)
    (λ f ps, restart 1 9 f (take (Nat.min 4 CONFIG_MAX_WDOGPARMS) ps))
    demo_state demo_timers [3%positive]).
  - apply restart_handler. lia.
  - apply demo_repr.
  - apply demo_pos.
  - by_decide.
Defined.

Lemma wd_timer_ticks_equiv_witness :
  ∃ s1 s2 ts', wd_timer_ticks (quiet log_act) 4 demo_state = Some (next_expiration ts', s1) ∧
    Nat.iter 4 (λ o, o ≫= wd_timer (quiet log_act)) (Some demo_state) = Some s2 ∧
    wd_repr demo_pool s1 ts' [3%positive] ∧ wd_repr demo_pool s2 ts' [3%positive] ∧
    world s1 = world s2.
Proof.
  apply (wd_timer_ticks_equiv demo_pool log_act 4 demo_state demo_timers [3%positive]).
  - apply demo_repr.
  - apply demo_pos.
  - done.
  - by left.
Defined.

(** The run itself: timer 1 fires on tick 3, and timer 2 has one tick left. *)
Example wd_timer_ticks_example :
  ∃ s, wd_timer_ticks (quiet log_act) 4 demo_state = Some (1, s) ∧ world s = [(100, [7])].
Proof. eexists. split; [vm_compute; reflexivity|reflexivity]. Qed.

Lemma wd_start_expires_witness :
  ∃ s1 s2, wd_start (Some 2%positive) 6 300 0 [] demo_state = Some (OK, s1) ∧
    Nat.iter 5 (λ o, o ≫= wd_timer (quiet log_act)) (Some s1) = Some s2 ∧
    wd_gettime (Some 2%positive) s2 = Some 2.
Proof.
  apply (wd_start_expires demo_pool log_act demo_state demo_timers [3%positive] 2
    (mk_wdog NULL 200 2 1 0 [0; 0; 0; 0]) 6 300 0 [] 5).
  - apply demo_repr.
  - apply demo_pos.
  - reflexivity.
  - by_decide.
  - lia.
  - simpl. lia.
Defined.

Lemma wd_delete_releases_witness :
  ∃ s', wd_delete (Some 1%positive) demo_state = Some (OK, s') ∧
    wd_repr demo_pool s' [(2%positive, 5)] [3%positive; 1%positive].
Proof.
  destruct (wd_delete_releases demo_pool demo_state demo_timers [3%positive] 1
    (mk_wdog (Some 2%positive) 100 3 1 1 [7; 0; 0; 0])) as (s' & Hrun & _ & Hr & _).
  - apply demo_pool_ok.
  - apply demo_repr.
  - reflexivity.
  - by_decide.
  - exists s'. split; [exact Hrun|exact Hr].
Defined.

Lemma wd_create_reserves_witness :
  ∃ s', wd_create false (Some (9%positive, zero_wdog)) demo_state = Some (Some 9%positive, s') ∧
    wd_repr demo_pool s' demo_timers [3%positive].
Proof.
  destruct (wd_create_reserves demo_pool demo_state demo_timers [3%positive] false 9 zero_wdog)
    as (s' & Hrun & Hr).
  - apply demo_pool_ok.
  - done.
  - apply demo_repr.
  - by_decide.
  - by_decide.
  - exists s'. split; [exact Hrun|exact Hr].
Defined.

Lemma wd_start_rejects_witness :
  wd_start (Some 1%positive) (-1) 300 0 [] demo_state = Some (- EINVAL, demo_state).
Proof. apply wd_start_rejects. right. right. lia. Defined.
