(* ===== verification/Sched.v ===== *)
(** * Sched: tasks, task lists and the scheduler (sched/sched, arch/sim)

    The scheduler keeps every task control block (TCB) on one of several doubly
    linked lists; the list a TCB is on and its [task_state] say the same thing.
    [g_readytorun] is ordered by priority and its head is the running task;
    [g_pendingtasks] collects the tasks that would pre-empt a running task that
    has locked the scheduler.

    The scheduler code is written once, over the class [TaskLists] of the
    primitives it uses on the TCBs: [ptr_TaskLists] is the pointer code of the
    repository (links in the TCBs, [sched_addprioritized], [sched_mergepending],
    [dq_rem], [dq_addlast]); SchedSpec.v gives the same primitives on plain
    lists and shows that the former implements the latter.

    A context switch hands the CPU to the task at the head of [g_readytorun]:
    an operation that switches returns [true], and what the caller does when it
    is resumed is a function of its own.  Signal delivery during a switch
    ([xcp.sigdeliver]) is not modelled. *)

From S2P Require Import Prelude Queue.
Import Dq.
Local Open Scope Z_scope.

(** ** Data *)

(** [enum tstate_e] of include/nuttx/sched.h, without SMP and paging. *)
Inductive tstate_t :=
  | TSTATE_TASK_INVALID | TSTATE_TASK_PENDING | TSTATE_TASK_READYTORUN
  | TSTATE_TASK_RUNNING | TSTATE_TASK_INACTIVE | TSTATE_WAIT_SEM | TSTATE_WAIT_SIG
  | TSTATE_WAIT_MQNOTEMPTY | TSTATE_WAIT_MQNOTFULL.

#[export] Instance tstate_eq_dec : EqDecision tstate_t.
Proof. solve_decision. Defined.

(** [FIRST_READY_TO_RUN_STATE <= s <= LAST_READY_TO_RUN_STATE] *)
Definition is_readytorun_state (s : tstate_t) : bool :=
  match s with TSTATE_TASK_READYTORUN | TSTATE_TASK_RUNNING => true | _ => false end.
(** [FIRST_BLOCKED_STATE <= s <= LAST_BLOCKED_STATE] *)
Definition is_blocked_state (s : tstate_t) : bool :=
  match s with
  | TSTATE_TASK_INVALID | TSTATE_TASK_PENDING
  | TSTATE_TASK_READYTORUN | TSTATE_TASK_RUNNING => false
  | _ => true
  end.

(** The task lists of sched/init/os_start.c. *)
Inductive tasklist :=
  | g_readytorun | g_pendingtasks | g_inactivetasks | g_waitingforsemaphore
  | g_waitingforsignal | g_waitingformqnotempty | g_waitingformqnotfull.

#[export] Instance tasklist_eq_dec : EqDecision tasklist.
Proof. solve_decision. Defined.

Definition TLIST_ATTR_PRIORITIZED : Z := 1.
Definition TLIST_ATTR_RUNNABLE : Z := 4.

(** The list of each task state, with its attributes. *)
Definition g_tasklisttable (s : tstate_t) : option tasklist * Z :=
  match s with
  | TSTATE_TASK_INVALID => (None, 0)
  | TSTATE_TASK_PENDING => (Some g_pendingtasks, TLIST_ATTR_PRIORITIZED)
  | TSTATE_TASK_READYTORUN =>
      (Some g_readytorun, Z.lor TLIST_ATTR_PRIORITIZED TLIST_ATTR_RUNNABLE)
  | TSTATE_TASK_RUNNING =>
      (Some g_readytorun, Z.lor TLIST_ATTR_PRIORITIZED TLIST_ATTR_RUNNABLE)
  | TSTATE_TASK_INACTIVE => (Some g_inactivetasks, 0)
  | TSTATE_WAIT_SEM => (Some g_waitingforsemaphore, TLIST_ATTR_PRIORITIZED)
  | TSTATE_WAIT_SIG => (Some g_waitingforsignal, 0)
  | TSTATE_WAIT_MQNOTEMPTY => (Some g_waitingformqnotempty, TLIST_ATTR_PRIORITIZED)
  | TSTATE_WAIT_MQNOTFULL => (Some g_waitingformqnotfull, TLIST_ATTR_PRIORITIZED)
  end.

Definition TLIST_BLOCKED (s : tstate_t) : option tasklist := fst (g_tasklisttable s).
Definition TLIST_ISPRIORITIZED (s : tstate_t) : bool :=
  flag_isset TLIST_ATTR_PRIORITIZED (snd (g_tasklisttable s)).

(** The fields of [struct tcb_s] the modelled code uses, but for the links. *)
Record tcb_data := mk_td {
  pid : Z;                    (* pid_t *)
  sched_priority : Z;         (* uint8_t: current priority *)
  task_state : tstate_t;
  policy : Z;                 (* uint16_t flags: the scheduling policy *)
  lockcount : Z;              (* int16_t: 0 = pre-emptable *)
  timeslice : Z;              (* int32_t *)
  waitdog : ptr;              (* the timer of a timed wait *)
  waitsem : ptr;              (* the semaphore waited on *)
  msgwaitq : ptr;             (* the message queue waited on *)
  pterrno : Z;                (* per-thread errno *)
}.

Record tcb_s := mk_tcb { flink : ptr; blink : ptr; td : tcb_data }.

Definition set_sched_priority (z : Z) (x : tcb_data) : tcb_data :=
  mk_td (pid x) z (task_state x) (policy x) (lockcount x) (timeslice x) (waitdog x)
    (waitsem x) (msgwaitq x) (pterrno x).
Definition set_task_state (z : tstate_t) (x : tcb_data) : tcb_data :=
  mk_td (pid x) (sched_priority x) z (policy x) (lockcount x) (timeslice x) (waitdog x)
    (waitsem x) (msgwaitq x) (pterrno x).
Definition set_lockcount (z : Z) (x : tcb_data) : tcb_data :=
  mk_td (pid x) (sched_priority x) (task_state x) (policy x) z (timeslice x) (waitdog x)
    (waitsem x) (msgwaitq x) (pterrno x).
Definition set_timeslice (z : Z) (x : tcb_data) : tcb_data :=
  mk_td (pid x) (sched_priority x) (task_state x) (policy x) (lockcount x) z (waitdog x)
    (waitsem x) (msgwaitq x) (pterrno x).
Definition set_waitdog (p : ptr) (x : tcb_data) : tcb_data :=
  mk_td (pid x) (sched_priority x) (task_state x) (policy x) (lockcount x) (timeslice x) p
    (waitsem x) (msgwaitq x) (pterrno x).
Definition set_waitsem (p : ptr) (x : tcb_data) : tcb_data :=
  mk_td (pid x) (sched_priority x) (task_state x) (policy x) (lockcount x) (timeslice x)
    (waitdog x) p (msgwaitq x) (pterrno x).
Definition set_msgwaitq (p : ptr) (x : tcb_data) : tcb_data :=
  mk_td (pid x) (sched_priority x) (task_state x) (policy x) (lockcount x) (timeslice x)
    (waitdog x) (waitsem x) p (pterrno x).
Definition set_pterrno (z : Z) (x : tcb_data) : tcb_data :=
  mk_td (pid x) (sched_priority x) (task_state x) (policy x) (lockcount x) (timeslice x)
    (waitdog x) (waitsem x) (msgwaitq x) z.

Definition set_td (f : tcb_data → tcb_data) (x : tcb_s) : tcb_s :=
  mk_tcb (flink x) (blink x) (f (td x)).

#[export] Program Instance tcb_DqEntry : DqEntry tcb_s tcb_data := {|
  dq_flink := flink;
  dq_blink := blink;
  dq_set_flink p x := mk_tcb p (blink x) (td x);
  dq_set_blink p x := mk_tcb (flink x) p (td x);
  dq_data := td;
|}.
Solve All Obligations with done.

Definition SCHED_PRIORITY_MIN : Z := 1.
Definition SCHED_PRIORITY_MAX : Z := 255.
Definition MAX_LOCK_COUNT : Z := 127.

(** include/nuttx/clock.h *)
Definition MSEC2TICK `{Config} (msec : Z) : Z :=
  let USEC_PER_TICK := CONFIG_USEC_PER_TICK in
  let MSEC_PER_TICK := USEC_PER_TICK / 1000 in
  if MSEC_PER_TICK * 1000 =? USEC_PER_TICK
  then (msec + MSEC_PER_TICK / 2) / MSEC_PER_TICK
  else (msec * 1000 + USEC_PER_TICK / 2) / USEC_PER_TICK.

(** ** The interface to the task lists *)

(** The links of a TCB are read only while it is on a list, which the caller
    knows: the argument of [tcb_flink] and [tcb_blink]. *)
Class TaskLists (S : Type) := {
  tcb_get : addr → K S tcb_data;
  tcb_set : (tcb_data → tcb_data) → addr → K S unit;
  tcb_flink : tasklist → addr → K S ptr;
  tcb_blink : tasklist → addr → K S ptr;
  list_head : tasklist → K S ptr;
  list_rem : addr → tasklist → K S unit;
  list_addlast : addr → tasklist → K S unit;
  list_addprioritized : addr → tasklist → K S bool;
  list_mergepending : K S bool;
  tcb_count : K S nat;
}.

(** ** The pointer implementation *)

Record sched_s := mk_sched { tcbs : mem tcb_s; queues : tasklist → dq_queue_t }.

Definition set_queue (k : tasklist) (q : dq_queue_t) (m : mem tcb_s) (s : sched_s) : sched_s :=
  mk_sched m (λ k', if decide (k' = k) then q else queues s k').

Definition priority_of (p : addr) (m : mem tcb_s) : option Z :=
  sched_priority ∘ td <$> m !! p.

Section pointers.
Context `{Config}.

(** sched_addprioritized.c: [list] is passed by value and returned. *)
Definition sched_addprioritized (tcb : addr) (list : dq_queue_t) (m : mem tcb_s)
  : option (bool * dq_queue_t * mem tcb_s) :=
  x ← m !! tcb;
  let priority := sched_priority (td x) in
  _ ← DEBUGASSERT (SCHED_PRIORITY_MIN <=? priority);
  next ← walk flink (λ _ y, priority <=? sched_priority (td y)) (S (size m)) m (dq_head list);
  match next with
  | None =>
      let prev := dq_tail list in
      match prev with
      | None =>
          m ← store (Some tcb) (dq_set_flink NULL) m;
          m ← store (Some tcb) (dq_set_blink NULL) m;
          Some (true, mk_dq (Some tcb) (Some tcb), m)
      | Some _ =>
          m ← store (Some tcb) (dq_set_flink NULL) m;
          m ← store (Some tcb) (dq_set_blink prev) m;
          m ← store prev (dq_set_flink (Some tcb)) m;
          Some (false, mk_dq (dq_head list) (Some tcb), m)
      end
  | Some next =>
      y ← m !! next;
      let prev := blink y in
      match prev with
      | None =>
          m ← store (Some tcb) (dq_set_flink (Some next)) m;
          m ← store (Some tcb) (dq_set_blink NULL) m;
          m ← store (Some next) (dq_set_blink (Some tcb)) m;
          Some (true, mk_dq (Some tcb) (dq_tail list), m)
      | Some _ =>
          m ← store (Some tcb) (dq_set_flink (Some next)) m;
          m ← store (Some tcb) (dq_set_blink prev) m;
          m ← store prev (dq_set_flink (Some tcb)) m;
          m ← store (Some next) (dq_set_blink (Some tcb)) m;
          Some (false, list, m)
      end
  end.

(** sched_mergepending.c, the body of the outer loop: insert [ptcb], searching
    from [rtcb] on.  Returns whether it became the head. *)
Definition sched_mergepending_one (ptcb : addr) (rtcb : ptr) (q : dq_queue_t) (m : mem tcb_s)
  : option (bool * dq_queue_t * mem tcb_s) :=
  p ← m !! ptcb;
  rtcb ← walk flink (λ _ y, sched_priority (td p) <=? sched_priority (td y)) (S (size m)) m rtcb;
  _ ← DEBUGASSERT (negb (bool_decide (rtcb = NULL)));
  r ← deref rtcb m;
  let rprev := blink r in
  match rprev with
  | None =>
      m ← store (Some ptcb) (dq_set_flink rtcb) m;
      m ← store (Some ptcb) (dq_set_blink NULL) m;
      m ← store rtcb (dq_set_blink (Some ptcb)) m;
      let q := mk_dq (Some ptcb) (dq_tail q) in
      m ← store rtcb (set_td (set_task_state TSTATE_TASK_READYTORUN)) m;
      m ← store (Some ptcb) (set_td (set_task_state TSTATE_TASK_RUNNING)) m;
      Some (true, q, m)
  | Some _ =>
      m ← store (Some ptcb) (dq_set_flink rtcb) m;
      m ← store (Some ptcb) (dq_set_blink rprev) m;
      m ← store rprev (dq_set_flink (Some ptcb)) m;
      m ← store rtcb (dq_set_blink (Some ptcb)) m;
      m ← store (Some ptcb) (set_td (set_task_state TSTATE_TASK_READYTORUN)) m;
      Some (false, q, m)
  end.

Fixpoint sched_mergepending_loop (n : nat) (ptcb rtcb : ptr) (ret : bool) (q : dq_queue_t)
    (m : mem tcb_s) : option (bool * dq_queue_t * mem tcb_s) :=
  match ptcb with
  | None => Some (ret, q, m)
  | Some a =>
      p ← m !! a;
      let pnext := flink p in
      '(head, q, m) ← sched_mergepending_one a rtcb q m;
      match n with
      | O => None
      | S n => sched_mergepending_loop n pnext (Some a) (head || ret) q m
      end
  end.

Definition sched_mergepending (s : sched_s) : option (bool * sched_s) :=
  let q := queues s g_readytorun in
  '(ret, q, m) ← sched_mergepending_loop (S (size (tcbs s)))
                   (dq_head (queues s g_pendingtasks)) (dq_head q) false q (tcbs s);
  Some (ret, set_queue g_pendingtasks dq_init m (set_queue g_readytorun q m s)).

#[export] Instance ptr_TaskLists : TaskLists sched_s := {|
  tcb_get a := kget (λ s, td <$> tcbs s !! a);
  tcb_set f a := kput (λ s, m ← store (Some a) (set_td f) (tcbs s); Some (mk_sched m (queues s)));
  tcb_flink _ a := kget (λ s, flink <$> tcbs s !! a);
  tcb_blink _ a := kget (λ s, blink <$> tcbs s !! a);
  list_head k := kget (λ s, Some (dq_head (queues s k)));
  list_rem a k := kput (λ s,
    '(q, m) ← dq_rem (Some a) (queues s k) (tcbs s); Some (set_queue k q m s));
  list_addlast a k := kput (λ s,
    '(q, m) ← dq_addlast (Some a) (queues s k) (tcbs s); Some (set_queue k q m s));
  list_addprioritized a k := λ s,
    '(b, q, m) ← sched_addprioritized a (queues s k) (tcbs s); Some (b, set_queue k q m s);
  list_mergepending := sched_mergepending;
  tcb_count := kget (λ s, Some (size (tcbs s)));
|}.
End pointers.

(** ** The scheduler *)

Section scheduler.
Context `{Config} {S : Type} `{!TaskLists S}.
Implicit Types (tcb btcb rtcb : addr).

(** [this_task()], where the result is dereferenced: there is always a running
    task once the IDLE task is set up. *)
Definition this_task : K S addr := p ← list_head g_readytorun; klift p.

(** sched_addreadytorun.c *)
Definition sched_addreadytorun (btcb : addr) : K S bool :=
  rtcb ← this_task;
  r ← tcb_get rtcb;
  b ← tcb_get btcb;
  if (0 <? lockcount r) && (sched_priority r <? sched_priority b) then
    _ ← list_addprioritized btcb g_pendingtasks;
    tcb_set (set_task_state TSTATE_TASK_PENDING) btcb;;
    mret false
  else
    head ← list_addprioritized btcb g_readytorun;
    if head : bool then
      next ← tcb_flink g_readytorun btcb;
      kassert ((lockcount r =? 0) && negb (bool_decide (next = NULL)));;
      tcb_set (set_task_state TSTATE_TASK_RUNNING) btcb;;
      next ← klift next;
      tcb_set (set_task_state TSTATE_TASK_READYTORUN) next;;
      mret true
    else
      tcb_set (set_task_state TSTATE_TASK_READYTORUN) btcb;;
      mret false.

(** sched_removereadytorun.c *)
Definition sched_removereadytorun (rtcb : addr) : K S bool :=
  prev ← tcb_blink g_readytorun rtcb;
  doswitch ←
    (if bool_decide (prev = NULL) then
       nxttcb ← tcb_flink g_readytorun rtcb;
       kassert (negb (bool_decide (nxttcb = NULL)));;
       nxttcb ← klift nxttcb;
       tcb_set (set_task_state TSTATE_TASK_RUNNING) nxttcb;;
       mret true
     else mret false);
  list_rem rtcb g_readytorun;;
  tcb_set (set_task_state TSTATE_TASK_INVALID) rtcb;;
  mret doswitch.

(** sched_addblocked.c *)
Definition sched_addblocked (btcb : addr) (state : tstate_t) : K S unit :=
  kassert (is_blocked_state state);;
  list ← klift (TLIST_BLOCKED state);
  (if TLIST_ISPRIORITIZED state
   then _ ← list_addprioritized btcb list; mret tt
   else list_addlast btcb list);;
  tcb_set (set_task_state state) btcb.

(** sched_removeblocked.c *)
Definition sched_removeblocked (btcb : addr) : K S unit :=
  b ← tcb_get btcb;
  kassert (is_blocked_state (task_state b));;
  list ← klift (TLIST_BLOCKED (task_state b));
  list_rem btcb list;;
  tcb_set (set_task_state TSTATE_TASK_INVALID) btcb.

(** sched_resumescheduler.c: the time slice of the task that is resumed.
    ([sched_suspend_scheduler] is empty without sporadic scheduling and
    instrumentation.) *)
Definition sched_resume_scheduler (tcb : addr) : K S unit :=
  kwhen (0 <? CONFIG_RR_INTERVAL)
    (tcb_set (set_timeslice (s32 (MSEC2TICK CONFIG_RR_INTERVAL))) tcb).

(** The common end of the functions below, for example lines 117-151 of
    up_blocktask.c. *)
Definition up_switch (switch_needed : bool) : K S bool :=
  (if switch_needed then
     rtcb ← this_task;
     sched_resume_scheduler rtcb
   else mret tt);;
  mret switch_needed.

(** [if (g_pendingtasks.head) switch_needed |= sched_mergepending();] *)
Definition merge_if_pending : K S bool :=
  p ← list_head g_pendingtasks;
  if bool_decide (p = NULL) then mret false else list_mergepending.

(** up_blocktask.c *)
Definition up_block_task (tcb : addr) (state : tstate_t) : K S bool :=
  t ← tcb_get tcb;
  kassert (is_readytorun_state (task_state t));;
  switch_needed ← sched_removereadytorun tcb;
  sched_addblocked tcb state;;
  merged ← merge_if_pending;
  up_switch (switch_needed || merged).

(** up_unblocktask.c *)
Definition up_unblock_task (tcb : addr) : K S bool :=
  t ← tcb_get tcb;
  kassert (is_blocked_state (task_state t));;
  sched_removeblocked tcb;;
  switch_needed ← sched_addreadytorun tcb;
  up_switch switch_needed.

(** up_releasepending.c *)
Definition up_release_pending : K S bool :=
  switch_needed ← list_mergepending;
  up_switch switch_needed.

(** up_reprioritizertr.c *)
Definition up_reprioritize_rtr (tcb : addr) (priority : Z) : K S bool :=
  t ← tcb_get tcb;
  if negb (is_readytorun_state (task_state t)) || (priority <? SCHED_PRIORITY_MIN) then
    kassert false;; mret false
  else
    removed ← sched_removereadytorun tcb;
    tcb_set (set_sched_priority (u8 priority)) tcb;;
    added ← sched_addreadytorun tcb;
    let switch_needed := xorb removed added in
    (if switch_needed then _ ← merge_if_pending; mret tt else mret tt);;
    up_switch switch_needed.

(** sched_setpriority.c *)
Definition sched_running_setpriority (tcb : addr) (priority : Z) : K S bool :=
  nxttcb ← tcb_flink g_readytorun tcb;
  kassert (negb (bool_decide (nxttcb = NULL)));;
  nxttcb ← klift nxttcb;
  n ← tcb_get nxttcb;
  if priority <=? sched_priority n then up_reprioritize_rtr tcb (u8 priority)
  else tcb_set (set_sched_priority (u8 priority)) tcb;; mret false.

(** [DEBUGASSERT(!f)]: the call is compiled out with the assertion. *)
Definition assert_not (f : K S bool) : K S unit :=
  if CONFIG_DEBUG_ASSERTIONS then b ← f; kassert (negb b) else mret tt.

Definition sched_readytorun_setpriority (tcb : addr) (priority : Z) : K S bool :=
  rtcb ← this_task;
  r ← tcb_get rtcb;
  if sched_priority r <? priority then up_reprioritize_rtr tcb (u8 priority)
  else
    assert_not (sched_removereadytorun tcb);;
    tcb_set (set_sched_priority (u8 priority)) tcb;;
    assert_not (sched_addreadytorun tcb);;
    mret false.

Definition sched_blocked_setpriority (tcb : addr) (priority : Z) : K S unit :=
  t ← tcb_get tcb;
  if TLIST_ISPRIORITIZED (task_state t) then
    list ← klift (TLIST_BLOCKED (task_state t));
    list_rem tcb list;;
    tcb_set (set_sched_priority (u8 priority)) tcb;;
    _ ← list_addprioritized tcb list;
    mret tt
  else tcb_set (set_sched_priority (u8 priority)) tcb.

(** Returns the result code and whether there was a context switch. *)
Definition nxsched_setpriority (tcb : addr) (priority : Z) : K S (Z * bool) :=
  if (priority <? SCHED_PRIORITY_MIN) || (SCHED_PRIORITY_MAX <? priority)
  then mret (- EINVAL, false)
  else
    t ← tcb_get tcb;
    match task_state t with
    | TSTATE_TASK_RUNNING => b ← sched_running_setpriority tcb priority; mret (OK, b)
    | TSTATE_TASK_READYTORUN => b ← sched_readytorun_setpriority tcb priority; mret (OK, b)
    | _ => sched_blocked_setpriority tcb priority;; mret (OK, false)
    end.

(** sched_yield.c: [ERROR] is -1. *)
Definition sched_yield : K S (Z * bool) :=
  rtcb ← this_task;
  r ← tcb_get rtcb;
  '(ret, b) ← nxsched_setpriority rtcb (sched_priority r);
  mret (if ret <? 0 then -1 else OK, b).

(** sched_lock.c and sched_unlock.c.  [up_interrupt_context] is an argument. *)
Definition sched_lock (up_interrupt_context : bool) : K S Z :=
  rtcb ← list_head g_readytorun;
  match rtcb with
  | Some rtcb =>
      if up_interrupt_context then mret OK
      else
        r ← tcb_get rtcb;
        kassert (lockcount r <? MAX_LOCK_COUNT);;
        tcb_set (λ r, set_lockcount (s16 (lockcount r + 1)) r) rtcb;;
        mret OK
  | None => mret OK
  end.

(** Lines 229-277.  What follows the release of the pending tasks (a new time
    slice for a round-robin task that is not the running one any more) has
    nothing to do without a switch, nor when the task is resumed, since it is
    then the running one. *)
Definition sched_unlock (up_interrupt_context : bool) : K S (Z * bool) :=
  rtcb ← list_head g_readytorun;
  match rtcb with
  | Some rtcb =>
      if up_interrupt_context then mret (OK, false)
      else
        r ← tcb_get rtcb;
        kwhen (0 <? lockcount r)
          (tcb_set (λ r, set_lockcount (s16 (lockcount r - 1)) r) rtcb);;
        r ← tcb_get rtcb;
        if lockcount r <=? 0 then
          tcb_set (set_lockcount 0) rtcb;;
          p ← list_head g_pendingtasks;
          if bool_decide (p = NULL) then mret (OK, false)
          else b ← up_release_pending; mret (OK, b)
        else mret (OK, false)
  | None => mret (OK, false)
  end.

(** sched_roundrobin.c: returns the ticks left (uint32_t) and whether there was
    a context switch.  [MIN(tcb->timeslice, ticks)] compares as unsigned. *)
Definition sched_roundrobin_process (tcb : addr) (ticks : Z) (noswitches : bool)
  : K S (Z * bool) :=
  t ← tcb_get tcb;
  let decr := s32 (Z.min (u32 (timeslice t)) ticks) in
  tcb_set (λ t, set_timeslice (s32 (timeslice t - decr)) t) tcb;;
  t ← tcb_get tcb;
  if (timeslice t <=? 0) && negb (0 <? lockcount t) then
    if noswitches then mret (1, false)
    else
      tcb_set (set_timeslice (s32 (MSEC2TICK CONFIG_RR_INTERVAL))) tcb;;
      t ← tcb_get tcb;
      next ← tcb_flink g_readytorun tcb;
      switch ←
        match next with
        | None => mret false
        | Some next =>
            n ← tcb_get next;
            if sched_priority t <=? sched_priority n
            then up_reprioritize_rtr tcb (sched_priority t) else mret false
        end;
      mret (u32 (timeslice t), switch)
  else mret (u32 (timeslice t), false).
End scheduler.
