(* ===== verification/SchedSpec.v ===== *)
(** * SchedSpec: the task lists as plain lists

    [ls_TaskLists] implements the primitives of the scheduler on lists of task
    addresses, with their preconditions as guards; the pointer code simulates it
    ([ptr_sim_*]), so every function of the scheduler does ([sched_sim]). *)

From S2P Require Import Prelude Queue QueueRefine Sched.
Import Dq DqSpec.
Local Open Scope Z_scope.

(** ** Lists of tasks *)

Abbreviation taskmap := (gmap addr tcb_data).

Definition prio (T : taskmap) (a : addr) : Z :=
  match T !! a with Some x => sched_priority x | None => 0 end.

(** Insert a task behind all those of the same or a higher priority. *)
Fixpoint prio_insert (T : taskmap) (a : addr) (l : list addr) : list addr :=
  match l with
  | [] => [a]
  | b :: l => if prio T a <=? prio T b then b :: prio_insert T a l else a :: b :: l
  end.

(** Highest priority first. *)
Fixpoint prio_sorted (T : taskmap) (l : list addr) : bool :=
  match l with
  | [] => true
  | a :: l => forallb (λ b, prio T b <=? prio T a) l && prio_sorted T l
  end.

(** The task before [b]. *)
Fixpoint prev_in (p : ptr) (b : addr) (l : list addr) : ptr :=
  match l with
  | [] => NULL
  | c :: l => if bool_decide (c = b) then p else prev_in (Some c) b l
  end.

Record lsched := mk_ls { tasks : taskmap; lists : tasklist → list addr }.

Definition set_list (k : tasklist) (l : list addr) (t : lsched) : lsched :=
  mk_ls (tasks t) (λ k', if decide (k' = k) then l else lists t k').

Definition all_lists : list tasklist :=
  [g_readytorun; g_pendingtasks; g_inactivetasks; g_waitingforsemaphore;
   g_waitingforsignal; g_waitingformqnotempty; g_waitingformqnotfull].

Definition on_no_list (a : addr) (t : lsched) : bool :=
  forallb (λ k, negb (bool_decide (a ∈ lists t k))) all_lists.

Section lists.
Context `{Config}.

(** One pending task put in the ready-to-run list [l]; there must be a task of
    lower priority (the IDLE task). *)
Definition ls_merge_one (a : addr) (T : taskmap) (l : list addr)
  : option (bool * taskmap * list addr) :=
  x ← T !! a;
  if existsb (λ b, prio T b <? prio T a) l then
    let l' := prio_insert T a l in
    if bool_decide (hd_or NULL l' = Some a) then
      r ← hd_or NULL l; y ← T !! r;
      Some (true, <[a := set_task_state TSTATE_TASK_RUNNING x]>
                    (<[r := set_task_state TSTATE_TASK_READYTORUN y]> T), l')
    else Some (false, <[a := set_task_state TSTATE_TASK_READYTORUN x]> T, l')
  else None.

Fixpoint ls_merge (ps : list addr) (ret : bool) (T : taskmap) (l : list addr)
  : option (bool * taskmap * list addr) :=
  match ps with
  | [] => Some (ret, T, l)
  | a :: ps => '(head, T, l) ← ls_merge_one a T l; ls_merge ps (head || ret) T l
  end.

Definition ls_mergepending (t : lsched) : option (bool * lsched) :=
  if prio_sorted (tasks t) (lists t g_pendingtasks) then
    '(ret, T, l) ← ls_merge (lists t g_pendingtasks) false (tasks t) (lists t g_readytorun);
    Some (ret, set_list g_pendingtasks [] (set_list g_readytorun l (mk_ls T (lists t))))
  else None.

#[export] Instance ls_TaskLists : TaskLists lsched := {|
  tcb_get a := kget (λ t, tasks t !! a);
  tcb_set f a := kput (λ t, x ← tasks t !! a; Some (mk_ls (<[a := f x]> (tasks t)) (lists t)));
  tcb_flink k a := kget (λ t,
    if bool_decide (a ∈ lists t k) then Some (next_in a (lists t k)) else None);
  tcb_blink k a := kget (λ t,
    if bool_decide (a ∈ lists t k) then Some (prev_in NULL a (lists t k)) else None);
  list_head k := kget (λ t, Some (hd_or NULL (lists t k)));
  list_rem a k := kput (λ t,
    if bool_decide (a ∈ lists t k)
    then Some (set_list k (remove_first a (lists t k)) t) else None);
  list_addlast a k := kput (λ t,
    if bool_decide (a ∈ dom (tasks t)) && on_no_list a t
    then Some (set_list k (lists t k ++ [a]) t) else None);
  list_addprioritized a k := λ t,
    x ← tasks t !! a;
    _ ← DEBUGASSERT (SCHED_PRIORITY_MIN <=? sched_priority x);
    if on_no_list a t then
      let l := prio_insert (tasks t) a (lists t k) in
      Some (bool_decide (hd_or NULL l = Some a), set_list k l t)
    else None;
  list_mergepending := ls_mergepending;
  tcb_count := kget (λ t, Some (size (tasks t)));
|}.
End lists.

(** ** Lemmas on lists of tasks *)

Lemma prio_insert_app T a l1 l2 :
  Forall (λ b, prio T a ≤ prio T b) l1 → prio_insert T a (l1 ++ l2) = l1 ++ prio_insert T a l2.
Proof.
  induction 1 as [|b l1 Hb _ IH]; simpl; [done|]. by rewrite (proj2 (Z.leb_le _ _) Hb), IH.
Qed.

Lemma prio_insert_before T a l1 r l2 :
  Forall (λ b, prio T a ≤ prio T b) l1 → prio T r < prio T a →
  prio_insert T a (l1 ++ r :: l2) = l1 ++ a :: r :: l2.
Proof.
  intros Hl Hr. rewrite prio_insert_app by done. simpl. by rewrite (proj2 (Z.leb_gt _ _) Hr).
Qed.

(** Where a task is inserted. *)
Lemma prio_split T a l :
  Forall (λ b, prio T a ≤ prio T b) l ∨
  ∃ l1 r l2, l = l1 ++ r :: l2 ∧ Forall (λ b, prio T a ≤ prio T b) l1 ∧ prio T r < prio T a.
Proof.
  induction l as [|b l IH]; [by left|]. destruct (decide (prio T a ≤ prio T b)) as [Hb|Hb].
  - destruct IH as [Hall|(l1 & r & l2 & -> & Hl1 & Hr)]; [left; by constructor|].
    right. exists (b :: l1), r, l2. split; [done|]. split; [by constructor|done].
  - right. exists [], b, l. split; [done|]. split; [done|lia].
Qed.

Lemma prio_insert_last T a l :
  Forall (λ b, prio T a ≤ prio T b) l → prio_insert T a l = l ++ [a].
Proof. intros Hl. rewrite <- (app_nil_r l) at 1. by rewrite prio_insert_app. Qed.

Lemma prio_insert_perm T a l : prio_insert T a l ≡ₚ a :: l.
Proof.
  induction l as [|b l IH]; simpl; [done|]. destruct (_ <=? _); [|done].
  rewrite IH. apply perm_swap.
Qed.

Lemma elem_of_prio_insert T a b l : b ∈ prio_insert T a l ↔ b = a ∨ b ∈ l.
Proof. by rewrite prio_insert_perm, elem_of_cons. Qed.

Lemma prio_insert_ext T T' a l :
  (∀ b, prio T b = prio T' b) → prio_insert T a l = prio_insert T' a l.
Proof.
  intros Hp. induction l as [|b l IH]; simpl; [done|]. by rewrite !Hp, IH.
Qed.

Lemma prev_in_app p b l1 l2 : b ∉ l1 → prev_in p b (l1 ++ b :: l2) = last_or p l1.
Proof.
  revert p. induction l1 as [|c l1 IH]; intros p Hb; simpl.
  - by rewrite bool_decide_eq_true_2.
  - rewrite bool_decide_eq_false_2 by set_solver. apply IH. set_solver.
Qed.

Lemma elem_of_all_lists k : k ∈ all_lists.
Proof. destruct k; unfold all_lists; set_solver. Qed.

Lemma on_no_list_true a t : on_no_list a t = true ↔ ∀ k, a ∉ lists t k.
Proof.
  unfold on_no_list. rewrite forallb_forall. split.
  - intros Hall k. specialize (Hall k). rewrite negb_true_iff, bool_decide_eq_false in Hall.
    apply Hall, list_elem_of_In, elem_of_all_lists.
  - intros Hall k _. by rewrite negb_true_iff, bool_decide_eq_false.
Qed.

Lemma lookup_set_list k l t k' :
  lists (set_list k l t) k' = if decide (k' = k) then l else lists t k'.
Proof. done. Qed.

(** ** The pointer code implements the lists *)

Record sched_repr (s : sched_s) (t : lsched) : Prop := {
  sr_tasks : td <$> tcbs s = tasks t;
  sr_lists k : dq_repr (tcbs s) (queues s k) (lists t k);
  sr_disj k k' a : a ∈ lists t k → a ∈ lists t k' → k = k';
}.

Section refine.
Context `{Config}.
Implicit Types (s : sched_s) (t : lsched) (a : addr).

Lemma sr_lookup s t a x : sched_repr s t → tcbs s !! a = Some x → tasks t !! a = Some (td x).
Proof. intros Hr Hx. by rewrite <- (sr_tasks _ _ Hr), lookup_fmap, Hx. Qed.

Lemma sr_lookup_r s t a d :
  sched_repr s t → tasks t !! a = Some d → ∃ x, tcbs s !! a = Some x ∧ td x = d.
Proof.
  intros Hr. rewrite <- (sr_tasks _ _ Hr), lookup_fmap.
  destruct (tcbs s !! a) as [x|]; simpl; [|done]. intros [= <-]. eauto.
Qed.

Lemma sr_prio s t a x : sched_repr s t → tcbs s !! a = Some x →
  sched_priority (td x) = prio (tasks t) a.
Proof. intros Hr Hx. unfold prio. by rewrite (sr_lookup _ _ _ _ Hr Hx). Qed.

(** Replacing one list. *)
Lemma sched_repr_set s t k q m l lw :
  sched_repr s t → dq_repr m q l → dq_frame lw (tcbs s) m →
  (∀ k' b, k' ≠ k → b ∈ lists t k' → b ∉ lw) →
  (∀ k' b, k' ≠ k → b ∈ l → b ∉ lists t k') →
  sched_repr (set_queue k q m s) (set_list k l t).
Proof.
  intros Hr Hq [Hd Hu] Hlw Hl. split; simpl.
  - etrans; [exact Hd|apply Hr].
  - intros k'. unfold set_queue, set_list. simpl. case_decide; [done|].
    eapply dq_repr_frame; [apply Hr|done|]. intros b Hb. by eapply Hlw.
  - intros k1 k2 b. simpl. repeat case_decide; subst; try done.
    + intros Hb1 Hb2. by destruct (Hl k2 b).
    + intros Hb1 Hb2. by destruct (Hl k1 b).
    + by apply Hr.
Qed.

Lemma sim_tcb_get a : sim sched_repr (tcb_get a) (tcb_get a).
Proof.
  apply sim_get. intros s t d Hr Hd.
  destruct (sr_lookup_r _ _ _ _ Hr Hd) as (x & -> & <-). done.
Qed.

Lemma sim_tcb_set f a : sim sched_repr (tcb_set f a) (tcb_set f a).
Proof.
  intros s t b t' Hr. simpl. unfold kput.
  destruct (tasks t !! a) as [d|] eqn:Hd; simpl; [|done]. intros [= <- <-].
  destruct (sr_lookup_r _ _ _ _ Hr Hd) as (x & Hx & <-). run_store. simpl.
  eexists. split; [done|]. split; simpl.
  - rewrite fmap_insert. by rewrite (sr_tasks _ _ Hr).
  - intros k. eapply dq_repr_same; [|apply Hr].
    by eapply same_data_insert.
  - apply Hr.
Qed.

Lemma sim_tcb_flink k a : sim sched_repr (tcb_flink k a) (tcb_flink k a).
Proof.
  apply sim_get. intros s t p Hr. case_bool_decide as Ha; [|done]. intros [= <-].
  destruct (list_elem_of_split_l _ _ Ha) as (l1 & l2 & Hl & Hn).
  pose proof (sr_lists _ _ Hr k) as Hq. rewrite Hl in *.
  destruct (dq_repr_next _ _ _ _ _ Hq) as (x & -> & Hx & _).
  rewrite next_in_app by done. simpl. by f_equal.
Qed.

Lemma sim_tcb_blink k a : sim sched_repr (tcb_blink k a) (tcb_blink k a).
Proof.
  apply sim_get. intros s t p Hr. case_bool_decide as Ha; [|done]. intros [= <-].
  destruct (list_elem_of_split_l _ _ Ha) as (l1 & l2 & Hl & Hn).
  pose proof (sr_lists _ _ Hr k) as Hq. rewrite Hl in *.
  destruct (dq_repr_next _ _ _ _ _ Hq) as (x & -> & _ & Hx).
  rewrite prev_in_app by done. simpl. by f_equal.
Qed.

Lemma sim_list_head k : sim sched_repr (list_head k) (list_head k).
Proof.
  apply sim_get. intros s t p Hr [= <-]. by destruct (sr_lists _ _ Hr k) as (_ & -> & _).
Qed.

Lemma sim_tcb_count : sim sched_repr tcb_count tcb_count.
Proof.
  apply sim_get. intros s t n Hr [= <-].
  by rewrite <- (sr_tasks _ _ Hr), map_size_fmap.
Qed.

Lemma sim_list_rem a k : sim sched_repr (list_rem a k) (list_rem a k).
Proof.
  intros s t u t' Hr. simpl. unfold kput. case_bool_decide as Ha; simpl; [|done].
  intros [= <- <-]. pose proof (sr_lists _ _ Hr k) as Hq.
  destruct (list_elem_of_split_l _ _ Ha) as (l1 & l2 & Hl & Hn). rewrite Hl in *.
  destruct (dq_rem_spec _ _ _ _ _ Hq) as (q' & m' & -> & Hq' & Hf & _). simpl.
  eexists. split; [done|]. rewrite remove_first_app by done.
  eapply (sched_repr_set _ _ _ _ _ _ (l1 ++ a :: l2)); [done..| |].
  - intros k' b Hk Hb Hb'. rewrite <- Hl in Hb'. by destruct Hk; eapply sr_disj.
  - intros k' b Hk Hb Hb'. destruct Hk. eapply (sr_disj _ _ Hr _ _ b); [done|].
    rewrite Hl. set_solver.
Qed.

(** Adding a task that is on no list. *)
Lemma sched_repr_add s t k q m l a :
  sched_repr s t → (∀ k, a ∉ lists t k) → l ≡ₚ a :: lists t k →
  dq_repr m q l → dq_frame l (tcbs s) m →
  sched_repr (set_queue k q m s) (set_list k l t).
Proof.
  intros Hr Ha Hl Hq Hf. eapply (sched_repr_set _ _ _ _ _ _ l); [done..| |].
  - intros k' b Hk Hb. rewrite Hl, elem_of_cons. intros [->|Hb']; [by eapply Ha|].
    by destruct Hk; eapply sr_disj.
  - intros k' b Hk. rewrite Hl, elem_of_cons. intros [->|Hb]; [by eapply Ha|].
    intros Hb'. by destruct Hk; eapply sr_disj.
Qed.

Lemma sim_list_addlast a k : sim sched_repr (list_addlast a k) (list_addlast a k).
Proof.
  intros s t u t' Hr. simpl. unfold kput.
  case_bool_decide as Hdom; simpl; [|done].
  destruct (on_no_list a t) eqn:Hno; simpl; [|done]. intros [= <- <-].
  rewrite on_no_list_true in Hno. rewrite <- (sr_tasks _ _ Hr), dom_fmap_L in Hdom.
  destruct (dq_addlast_spec _ _ _ a (sr_lists _ _ Hr k)) as (q' & m' & -> & Hq' & Hf);
    [done|apply Hno|]. simpl.
  eexists. split; [done|]. eapply sched_repr_add; try done.
  by rewrite Permutation_app_comm.
Qed.

(** *** sched_addprioritized *)

Lemma first_fail_prio s t a d l :
  sched_repr s t → tasks t !! a = Some d → Forall (.∈ dom (tcbs s)) l →
  Forall (λ b, prio (tasks t) a ≤ prio (tasks t) b) l →
  Forall (λ b, ∃ y, tcbs s !! b = Some y ∧
            (sched_priority d <=? sched_priority (td y)) = true) l.
Proof.
  intros Hr Hd Hdom Hall. apply Forall_forall. intros b Hb.
  rewrite Forall_forall in Hdom, Hall. destruct (proj1 (elem_of_dom _ _) (Hdom b Hb)) as [y Hy].
  exists y. split; [done|]. rewrite (sr_prio _ _ _ _ Hr Hy). apply Z.leb_le.
  specialize (Hall b Hb). unfold prio at 1 in Hall. by rewrite Hd in Hall.
Qed.

(** The search of [sched_addprioritized] from the start of the list. *)
Lemma sched_addprioritized_search s t a x k l1 l2 :
  sched_repr s t → tcbs s !! a = Some x → lists t k = l1 ++ l2 →
  Forall (λ b, prio (tasks t) a ≤ prio (tasks t) b) l1 →
  (∀ r l, l2 = r :: l → prio (tasks t) r < prio (tasks t) a) →
  walk flink (λ _ y, sched_priority (td x) <=? sched_priority (td y))
    (S (size (tcbs s))) (tcbs s) (dq_head (queues s k)) = Some (hd_or NULL l2).
Proof.
  intros Hr Hx Hl Hall Hl2. pose proof (sr_lists _ _ Hr k) as Hq.
  pose proof Hq as (_ & -> & _ & Hseg%dseg_sseg). pose proof (dq_repr_size _ _ _ Hq) as Hsize.
  pose proof (dq_repr_dom _ _ _ Hq) as Hdom. rewrite Hl in *.
  apply Forall_app in Hdom as [Hdom1 Hdom2].
  erewrite walk_spec by (done || lia). f_equal. rewrite first_fail_app.
  2: { eapply first_fail_prio; [done|by apply (sr_lookup _ _ _ _ Hr Hx)|done|done]. }
  destruct l2 as [|r l2]; simpl; [done|]. apply Forall_cons in Hdom2 as [[y Hy]%elem_of_dom _].
  rewrite Hy, (sr_prio _ _ _ _ Hr Hy), (sr_prio _ _ _ _ Hr Hx).
  by rewrite (proj2 (Z.leb_gt _ _) (Hl2 r l2 eq_refl)).
Qed.

Lemma DEBUGASSERT_inv b : DEBUGASSERT b = Some tt ∨ DEBUGASSERT b = None.
Proof. unfold DEBUGASSERT. destruct (_ && _); auto. Qed.

(** The inlined insertions are those of [dq_addlast] and [dq_addbefore]. *)
Lemma sched_addprioritized_last s t a x k :
  sched_repr s t → tcbs s !! a = Some x → a ∉ lists t k →
  Forall (λ b, prio (tasks t) a ≤ prio (tasks t) b) (lists t k) →
  sched_addprioritized a (queues s k) (tcbs s) =
    _ ← DEBUGASSERT (SCHED_PRIORITY_MIN <=? sched_priority (td x));
    '(q, m) ← dq_addlast (Some a) (queues s k) (tcbs s);
    Some (bool_decide (lists t k = []), q, m).
Proof.
  intros Hr Hx Ha Hall. pose proof (sr_lists _ _ Hr k) as Hq.
  unfold sched_addprioritized. rewrite Hx. cbn [mbind option_bind].
  destruct (DEBUGASSERT_inv (SCHED_PRIORITY_MIN <=? sched_priority (td x))) as [-> | ->];
    [|done]. cbn [mbind option_bind].
  rewrite (sched_addprioritized_search s t a x k (lists t k) []);
    [|done|done|by rewrite app_nil_r|done|done]. cbn [hd_or mbind option_bind].
  pose proof Hq as (_ & Hhd & Htl & _). unfold dq_addlast. rewrite Hhd, Htl.
  destruct (lists t k) as [|b l _] eqn:Hl using rev_ind; simpl.
  { by repeat run_store. }
  rewrite hd_or_app, last_or_app. simpl.
  rewrite (bool_decide_eq_false_2 (hd_or _ l = _)) by (by destruct l).
  rewrite bool_decide_eq_false_2 by (by destruct l).
  destruct (dq_repr_next _ _ l b [] Hq) as (y & Hy & _).
  assert (a ≠ b) by set_solver. by repeat run_store.
Qed.

Lemma sched_addprioritized_before s t a x k l1 r l2 :
  sched_repr s t → tcbs s !! a = Some x → a ∉ lists t k → lists t k = l1 ++ r :: l2 →
  Forall (λ b, prio (tasks t) a ≤ prio (tasks t) b) l1 → prio (tasks t) r < prio (tasks t) a →
  sched_addprioritized a (queues s k) (tcbs s) =
    _ ← DEBUGASSERT (SCHED_PRIORITY_MIN <=? sched_priority (td x));
    '(q, m) ← dq_addbefore (Some r) (Some a) (queues s k) (tcbs s);
    Some (bool_decide (l1 = []), q, m).
Proof.
  intros Hr Hx Ha Hl Hall Hlt. pose proof (sr_lists _ _ Hr k) as Hq.
  unfold sched_addprioritized. rewrite Hx. cbn [mbind option_bind].
  destruct (DEBUGASSERT_inv (SCHED_PRIORITY_MIN <=? sched_priority (td x))) as [-> | ->];
    [|done]. cbn [mbind option_bind].
  rewrite (sched_addprioritized_search s t a x k l1 (r :: l2));
    [|done..|by intros ? ? [= <- <-]]. cbn [hd_or mbind option_bind].
  pose proof Hq as (Hnd & Hhd & Htl & _). rewrite Hl in *.
  destruct (dq_repr_next _ _ _ _ _ Hq) as (y & Hy & _ & Hyp). simpl in Hyp.
  rewrite Hy. cbn [mbind option_bind]. rewrite Hyp. unfold dq_addbefore. rewrite Hhd.
  assert (a ≠ r) by set_solver.
  destruct l1 as [|b l1 _] using rev_ind; simpl.
  - rewrite bool_decide_eq_true_2 by done. unfold dq_addfirst. rewrite Hhd. simpl.
    repeat run_store. by rewrite !insert_insert_eq.
  - rewrite last_or_app, !hd_or_app. simpl.
    rewrite (bool_decide_eq_false_2 (hd_or _ l1 = _)) by (by destruct l1).
    rewrite (bool_decide_eq_false_2 (Some r = _)), (bool_decide_eq_false_2 (_ ++ _ = _)).
    2: by destruct l1.
    2: { destruct l1; simpl; nodup_facts; set_solver. }
    simpl. rewrite Hy. simpl. rewrite Hyp, last_or_app. simpl.
    rewrite <- app_assoc in Hq. destruct (dq_repr_next _ _ l1 b (r :: l2) Hq) as (z & Hz & _).
    assert (a ≠ b) by set_solver. assert (b ≠ r) by (nodup_facts; set_solver).
    by repeat run_store.
Qed.

Lemma sim_list_addprioritized a k :
  sim sched_repr (list_addprioritized a k) (list_addprioritized a k).
Proof.
  intros s t b t' Hr. simpl. destruct (tasks t !! a) as [d|] eqn:Hd; simpl; [|done].
  destruct (sr_lookup_r _ _ _ _ Hr Hd) as (x & Hx & <-).
  destruct (DEBUGASSERT_inv (SCHED_PRIORITY_MIN <=? sched_priority (td x))) as [HA | ->];
    [rewrite HA|done]. simpl.
  destruct (on_no_list a t) eqn:Hno; [|done]. intros [= <- <-].
  rewrite on_no_list_true in Hno. pose proof (sr_lists _ _ Hr k) as Hq.
  assert (a ∈ dom (tcbs s)) as Hdom by (by eapply elem_of_dom_2).
  destruct (prio_split (tasks t) a (lists t k)) as [Hall|(l1 & r & l2 & Hl & Hall & Hlt)].
  - rewrite (sched_addprioritized_last s t a x k Hr Hx (Hno k) Hall), HA. simpl.
    destruct (dq_addlast_spec _ _ _ a Hq) as (q' & m' & -> & Hq' & Hf); [done|apply Hno|].
    simpl. rewrite prio_insert_last by done.
    eexists. split; [|eapply sched_repr_add; try done; by rewrite Permutation_app_comm].
    do 2 f_equal. apply bool_decide_ext. rewrite hd_or_app.
    destruct (lists t k) as [|c l] eqn:Hlk; simpl; [done|].
    split; [done|]. intros [= ->]. destruct (Hno k). rewrite Hlk. set_solver.
  - rewrite (sched_addprioritized_before s t a x k l1 r l2 Hr Hx (Hno k) Hl Hall Hlt), HA.
    simpl. rewrite Hl in Hq.
    destruct (dq_addbefore_spec _ _ _ _ r a Hq) as (q' & m' & -> & Hq' & Hf);
      [done|rewrite <- Hl; apply Hno|].
    simpl. rewrite Hl, prio_insert_before by done.
    eexists. split; [|eapply sched_repr_add; try done; rewrite Hl; by rewrite <- Permutation_middle].
    do 2 f_equal. apply bool_decide_ext. rewrite hd_or_app.
    destruct l1 as [|c l1]; simpl; [done|].
    split; [done|]. intros [= ->]. destruct (Hno k). rewrite Hl. set_solver.
Qed.

(** *** sched_mergepending *)

(** Changing states keeps the priorities. *)
Lemma prio_set_state T a x st b :
  T !! a = Some x → prio (<[a := set_task_state st x]> T) b = prio T b.
Proof.
  intros Hx. unfold prio. destruct (decide (a = b)) as [->|].
  - by rewrite lookup_insert_eq, Hx.
  - by rewrite lookup_insert_ne.
Qed.

Lemma prio_sorted_cons T a l :
  prio_sorted T (a :: l) = true ↔ Forall (λ b, prio T b ≤ prio T a) l ∧ prio_sorted T l = true.
Proof.
  simpl. rewrite andb_true_iff, forallb_forall, Forall_forall. split; intros [Hall Hs];
    (split; [|done]); intros b Hb.
  - apply Z.leb_le, Hall, list_elem_of_In, Hb.
  - apply Z.leb_le, Hall, list_elem_of_In, Hb.
Qed.

Lemma prio_sorted_ext T T' l :
  (∀ b, prio T b = prio T' b) → prio_sorted T l = true → prio_sorted T' l = true.
Proof.
  intros Hp. induction l as [|a l IH]; [done|]. rewrite !prio_sorted_cons.
  intros [Hall Hs]. split; [|by apply IH]. eapply Forall_impl; [done|].
  intros b. simpl. by rewrite !Hp.
Qed.

Lemma prio_fmap m a (x : tcb_s) : m !! a = Some x → prio (td <$> m) a = sched_priority (td x).
Proof. intros Hx. unfold prio. by rewrite lookup_fmap, Hx. Qed.

(** The insertion of [sched_mergepending] is that of [dq_addbefore], followed by
    the new states. *)
Definition merge_state (head : bool) (a r : addr) (q : dq_queue_t) (m : mem tcb_s)
  : option (bool * dq_queue_t * mem tcb_s) :=
  m ← (if head then store (Some r) (set_td (set_task_state TSTATE_TASK_READYTORUN)) m
       else Some m);
  m ← store (Some a) (set_td (set_task_state
         (if head then TSTATE_TASK_RUNNING else TSTATE_TASK_READYTORUN))) m;
  Some (head, q, m).

Lemma sched_mergepending_one_eq m q l r l3 a p rtcb :
  dq_repr m q (l ++ r :: l3) → a ∉ l ++ r :: l3 → m !! a = Some p →
  walk flink (λ _ y, sched_priority (td p) <=? sched_priority (td y)) (S (size m)) m rtcb =
    Some (Some r) →
  sched_mergepending_one a rtcb q m =
    '(q, m) ← dq_addbefore (Some r) (Some a) q m; merge_state (bool_decide (l = [])) a r q m.
Proof.
  intros Hq Ha Hp Hwalk. pose proof Hq as (Hnd & Hhd & Htl & _).
  destruct (dq_repr_next _ _ _ _ _ Hq) as (y & Hy & Hyn & Hyp). simpl in Hyp.
  unfold sched_mergepending_one. rewrite Hp. cbn [mbind option_bind]. rewrite Hwalk.
  cbn [mbind option_bind]. rewrite DEBUGASSERT_true by done. simpl. rewrite Hy. simpl.
  rewrite Hyp. unfold dq_addbefore, merge_state. rewrite Hhd.
  assert (a ≠ r) by set_solver.
  destruct l as [|b l _] using rev_ind; simpl.
  - rewrite bool_decide_eq_true_2 by done. unfold dq_addfirst. rewrite Hhd. simpl.
    repeat run_store. by rewrite !insert_insert_eq.
  - rewrite last_or_app, !hd_or_app. simpl.
    rewrite (bool_decide_eq_false_2 (hd_or _ l = _)) by (by destruct l).
    rewrite (bool_decide_eq_false_2 (Some r = _)), (bool_decide_eq_false_2 (_ ++ _ = _)).
    2: by destruct l.
    2: { destruct l; simpl; nodup_facts; set_solver. }
    simpl. rewrite Hy. simpl. rewrite Hyp, last_or_app. simpl.
    rewrite <- app_assoc in Hq. destruct (dq_repr_next _ _ l b (r :: l3) Hq) as (z & Hz & _).
    assert (a ≠ b) by set_solver. assert (b ≠ r) by (nodup_facts; set_solver).
    by repeat run_store.
Qed.

(** The search from the place of the task inserted before. *)
Lemma sched_mergepending_search m q l1 l2 r l3 a p :
  dq_repr m q (l1 ++ l2 ++ r :: l3) → m !! a = Some p →
  Forall (λ b, prio (td <$> m) a ≤ prio (td <$> m) b) l2 →
  prio (td <$> m) r < prio (td <$> m) a →
  walk flink (λ _ y, sched_priority (td p) <=? sched_priority (td y)) (S (size m)) m
    (hd_or NULL (l2 ++ r :: l3)) = Some (Some r).
Proof.
  intros Hq Hp Hall Hlt. pose proof Hq as (_ & _ & _ & [_ Hseg]%dseg_sseg%sseg_app).
  pose proof (dq_repr_dom _ _ _ Hq) as Hdom. pose proof (dq_repr_size _ _ _ Hq) as Hsize.
  rewrite length_app in Hsize. erewrite walk_spec by (done || lia). f_equal.
  apply Forall_app in Hdom as [_ [Hdom Hdr]%Forall_app].
  apply Forall_cons in Hdr as [[y Hy]%elem_of_dom _]. rewrite first_fail_app.
  - simpl. rewrite Hy, <- (prio_fmap _ _ _ Hy), <- (prio_fmap _ _ _ Hp).
    by rewrite (proj2 (Z.leb_gt _ _) Hlt).
  - apply Forall_forall. intros b Hb. rewrite Forall_forall in Hall, Hdom.
    destruct (proj1 (elem_of_dom _ _) (Hdom b Hb)) as [z Hz]. exists z. split; [done|].
    apply Z.leb_le. rewrite <- (prio_fmap _ _ _ Hz), <- (prio_fmap _ _ _ Hp). auto.
Qed.

Lemma ls_merge_one_before a T l r l3 x y :
  T !! a = Some x → T !! r = Some y → a ∉ l → Forall (λ b, prio T a ≤ prio T b) l →
  prio T r < prio T a →
  ls_merge_one a T (l ++ r :: l3) =
    Some (bool_decide (l = []),
          if bool_decide (l = [])
          then <[a := set_task_state TSTATE_TASK_RUNNING x]>
                 (<[r := set_task_state TSTATE_TASK_READYTORUN y]> T)
          else <[a := set_task_state TSTATE_TASK_READYTORUN x]> T,
          l ++ a :: r :: l3).
Proof.
  intros Hx Hy Ha Hall Hlt. unfold ls_merge_one. rewrite Hx. cbn [mbind option_bind].
  rewrite existsb_app. cbn [existsb]. rewrite (proj2 (Z.ltb_lt _ _) Hlt), orb_true_r.
  rewrite prio_insert_before by done. destruct l as [|b l]; simpl.
  - rewrite !bool_decide_eq_true_2 by done. rewrite Hy. done.
  - rewrite !bool_decide_eq_false_2 by set_solver. done.
Qed.

Lemma ls_merge_one_prio a T l head T' l' b :
  ls_merge_one a T l = Some (head, T', l') → prio T' b = prio T b.
Proof.
  unfold ls_merge_one. destruct (T !! a) as [x|] eqn:Hx; simpl; [|done].
  destruct (existsb _ l); [|done]. case_bool_decide.
  - destruct (hd_or NULL l) as [r|]; simpl; [|done].
    destruct (T !! r) as [y|] eqn:Hy; simpl; [|done]. intros [= _ <- _].
    destruct (decide (a = r)) as [->|].
    + assert (x = y) as -> by congruence. rewrite insert_insert_eq. by apply prio_set_state.
    + rewrite prio_set_state; [by apply prio_set_state|]. by rewrite lookup_insert_ne.
  - intros [= _ <- _]. by apply prio_set_state.
Qed.

Lemma ls_merge_one_perm a T l head T' l' :
  ls_merge_one a T l = Some (head, T', l') → l' ≡ₚ a :: l.
Proof.
  unfold ls_merge_one. destruct (T !! a) as [x|]; simpl; [|done].
  destruct (existsb _ l); [|done]. case_bool_decide.
  - destruct (hd_or NULL l) as [r|]; simpl; [|done].
    destruct (T !! r) as [y|]; simpl; [|done]. intros [= _ _ <-]. apply prio_insert_perm.
  - intros [= _ _ <-]. apply prio_insert_perm.
Qed.

Lemma ls_merge_perm ps ret T l ret' T' l' :
  ls_merge ps ret T l = Some (ret', T', l') → l' ≡ₚ ps ++ l.
Proof.
  revert ret T l. induction ps as [|a ps IH]; intros ret T l; simpl; [by intros [= _ _ <-]|].
  destruct (ls_merge_one a T l) as [[[h T1] l1]|] eqn:Hone; simpl; [|done].
  intros ->%IH. rewrite (ls_merge_one_perm _ _ _ _ _ _ Hone). by rewrite <- Permutation_middle.
Qed.

(** One pending task, put before [r]: the pointer code does what [ls_merge_one]
    does. *)
Lemma sched_mergepending_one_spec m q l1 l2 r l3 a p :
  dq_repr m q (l1 ++ l2 ++ r :: l3) → a ∉ l1 ++ l2 ++ r :: l3 → m !! a = Some p →
  Forall (λ b, prio (td <$> m) a ≤ prio (td <$> m) b) (l1 ++ l2) →
  prio (td <$> m) r < prio (td <$> m) a →
  ∃ q' m',
    sched_mergepending_one a (hd_or NULL (l2 ++ r :: l3)) q m =
      Some (bool_decide (l1 ++ l2 = []), q', m') ∧
    ls_merge_one a (td <$> m) ((l1 ++ l2) ++ r :: l3) =
      Some (bool_decide (l1 ++ l2 = []), td <$> m', (l1 ++ l2) ++ a :: r :: l3) ∧
    dq_repr m' q' ((l1 ++ l2) ++ a :: r :: l3) ∧
    unchanged_but (a :: (l1 ++ l2) ++ r :: l3) m m'.
Proof.
  intros Hq Ha Hp Hall Hlt.
  pose proof (sched_mergepending_search m q l1 l2 r l3 a p Hq Hp) as Hwalk.
  specialize (Hwalk (proj2 (proj1 (Forall_app _ _ _) Hall)) Hlt).
  rewrite (app_assoc l1) in Hq, Ha.
  rewrite (sched_mergepending_one_eq m q _ r l3 a p _ Hq Ha Hp Hwalk).
  destruct (dq_addbefore_spec _ _ _ _ r a Hq) as (q1 & m1 & -> & Hq1 & Hd & Hu);
    [by eapply elem_of_dom_2|done|]. cbn [mbind option_bind].
  destruct (dq_repr_next _ _ _ _ _ Hq) as (y & Hy & _).
  destruct (same_data_lookup _ _ _ _ _ Hd Hp) as (p1 & Hp1 & Hpp).
  destruct (same_data_lookup _ _ _ _ _ Hd Hy) as (y1 & Hy1 & Hyy).
  simpl in Hpp, Hyy. unfold same_data in Hd. simpl in Hd.
  assert (a ≠ r) by set_solver.
  assert (∀ m2, same_data dq_links m1 m2 → dq_repr m2 q1 ((l1 ++ l2) ++ a :: r :: l3)) as Hsame.
  { intros m2 Hm2. by eapply dq_repr_same. }
  assert (unchanged_but (a :: (l1 ++ l2) ++ r :: l3) m m1) as Hu1.
  { eapply unchanged_but_weaken; [done|]. set_solver. }
  rewrite (ls_merge_one_before a (td <$> m) (l1 ++ l2) r l3 (td p) (td y));
    [|by rewrite lookup_fmap, Hp|by rewrite lookup_fmap, Hy|set_solver|done|done].
  unfold merge_state. case_bool_decide.
  - run_store. run_store. do 2 eexists. split; [done|]. split; [|split].
    + by rewrite !fmap_insert, Hd, <- Hpp, <- Hyy.
    + apply Hsame. eapply same_data_insert; [eapply same_data_insert; done|solve_lookup|done].
    + apply unchanged_but_insert; [apply unchanged_but_insert; [done|set_solver]|set_solver].
  - cbn [mbind option_bind]. run_store. do 2 eexists. split; [done|]. split; [|split].
    + by rewrite !fmap_insert, Hd, <- Hpp.
    + apply Hsame. eapply same_data_insert; done.
    + apply unchanged_but_insert; [done|set_solver].
Qed.

#[global] Arguments prio_sorted : simpl never.
#[local] Arguments sched_mergepending_one : simpl never.
#[local] Arguments ls_merge_one : simpl never.

Lemma existsb_lower T a l :
  existsb (λ b, prio T b <? prio T a) l = true → ¬ Forall (λ b, prio T a ≤ prio T b) l.
Proof.
  intros (b & Hb%list_elem_of_In & Hlt%Z.ltb_lt)%existsb_exists Hall.
  rewrite Forall_forall in Hall. specialize (Hall b Hb). lia.
Qed.

(** The loop, [ps] being the pending tasks left and [l1] the ready-to-run tasks
    the search has passed. *)
Lemma sched_mergepending_loop_spec n ps ret m q l1 l2 ret' T' l' :
  dq_repr m q (l1 ++ l2) → sseg flink m ps NULL → NoDup ps → ps ## l1 ++ l2 →
  prio_sorted (td <$> m) ps = true →
  Forall (λ c, Forall (λ p, prio (td <$> m) p ≤ prio (td <$> m) c) ps) l1 →
  (length ps ≤ n)%nat →
  ls_merge ps ret (td <$> m) (l1 ++ l2) = Some (ret', T', l') →
  ∃ q' m', sched_mergepending_loop n (hd_or NULL ps) (hd_or NULL l2) ret q m =
             Some (ret', q', m') ∧ td <$> m' = T' ∧ dq_repr m' q' l' ∧
           unchanged_but (ps ++ l1 ++ l2) m m'.
Proof.
  revert n ret m q l1 l2. induction ps as [|a ps IH];
    intros n ret m q l1 l2 Hq Hps Hnd Hdisj Hsort Hl1 Hn Hrun; simpl in *.
  { injection Hrun as <- <- <-. exists q, m. destruct n; simpl; by split_and!. }
  destruct Hps as [(p & Hp & Hpn) Hps]. destruct n as [|n]; [lia|].
  assert (a ∉ l1 ++ l2) as Ha by set_solver.
  apply prio_sorted_cons in Hsort as [Hle Hsort'].
  assert (Forall (λ c, prio (td <$> m) a ≤ prio (td <$> m) c) l1) as Hl1a.
  { eapply Forall_impl; [done|]. intros c Hc. by apply Forall_cons in Hc as [? _]. }
  destruct (prio_split (td <$> m) a l2) as [Hall|(l2a & r & l3 & -> & Hall & Hlt)].
  { unfold ls_merge_one in Hrun. destruct ((td <$> m) !! a); [|done]. simpl in Hrun.
    destruct (existsb _ _) eqn:He; [|done]. destruct (existsb_lower _ _ _ He).
    by apply Forall_app. }
  destruct (sched_mergepending_one_spec m q l1 l2a r l3 a p)
    as (q1 & m1 & Hone & Hls & Hq1 & Hu1); [done|done|done|by apply Forall_app|done|].
  rewrite (app_assoc l1), Hls in Hrun. simpl in Hrun. simpl. rewrite Hp. simpl. rewrite Hone. simpl.
  assert (∀ b, prio (td <$> m1) b = prio (td <$> m) b) as Hprio.
  { intros b. by apply (ls_merge_one_prio _ _ _ _ _ _ b Hls). }
  rewrite Hpn. change (Some a) with (hd_or NULL (a :: r :: l3)).
  nodup_facts. destruct (IH n (bool_decide (l1 ++ l2a = []) || ret) m1 q1 (l1 ++ l2a) (a :: r :: l3))
    as (q' & m' & Hloop & HT & Hq' & Hu'); try done.
  - eapply sseg_frame; [|done]. intros b Hb. apply Hu1. set_solver.
  - set_solver.
  - by eapply prio_sorted_ext; [intros b; symmetry; apply Hprio|].
  - apply Forall_app. split.
    + eapply Forall_impl; [exact Hl1|]. intros c Hc. apply Forall_cons in Hc as [_ Hc].
      eapply Forall_impl; [exact Hc|]. intros b. simpl. by rewrite !Hprio.
    + eapply Forall_impl; [exact Hall|]. intros c Hc. eapply Forall_impl; [exact Hle|].
      intros b. simpl in *. rewrite !Hprio. lia.
  - lia.
  - exists q', m'. split; [done|]. split; [done|]. split; [done|].
    transitivity m1; eapply unchanged_but_weaken; [done|set_solver|done|set_solver].
Qed.

#[local] Arguments sched_mergepending_loop : simpl never.

Lemma sim_list_mergepending : sim sched_repr list_mergepending list_mergepending.
Proof.
  intros s t b t' Hr. simpl. unfold ls_mergepending, sched_mergepending.
  destruct (prio_sorted _ _) eqn:Hsort; [|done].
  destruct (ls_merge _ _ _ _) as [[[ret T'] l']|] eqn:Hls; simpl; [|done]. intros [= <- <-].
  pose proof (sr_lists _ _ Hr g_readytorun) as Hq.
  pose proof (sr_lists _ _ Hr g_pendingtasks) as Hpend.
  pose proof Hpend as (Hnd & Hhd & _ & Hseg%dseg_sseg).
  pose proof (dq_repr_size _ _ _ Hpend) as Hsize. pose proof Hq as (_ & Hhr & _).
  rewrite <- (sr_tasks _ _ Hr) in Hsort, Hls.
  destruct (sched_mergepending_loop_spec (S (size (tcbs s))) (lists t g_pendingtasks) false
    (tcbs s) (queues s g_readytorun) [] (lists t g_readytorun) ret T' l')
    as (q' & m' & Hrun & HT & Hq' & Hu); try done.
  { intros a Ha Ha'. by pose proof (sr_disj _ _ Hr _ _ _ Ha Ha'). }
  { lia. }
  rewrite Hhd, Hhr, Hrun. simpl. eexists. split; [done|].
  pose proof (ls_merge_perm _ _ _ _ _ _ _ Hls) as Hperm. split; simpl; [done|..].
  - intros k. unfold set_queue, set_list. simpl.
    repeat case_decide; subst; [apply dq_repr_nil|done|].
    eapply dq_repr_frame; [apply Hr|done|]. intros a Ha.
    rewrite elem_of_app. intros [Ha'|Ha'];
      by pose proof (sr_disj _ _ Hr _ _ _ Ha Ha').
  - intros k k' a. unfold set_list. simpl.
    repeat case_decide; subst; try done; rewrite ?Hperm, ?elem_of_app, ?elem_of_nil;
      intros Ha Ha'; try done; try (by eapply sr_disj);
      destruct_or?; by pose proof (sr_disj _ _ Hr _ _ _ Ha Ha').
Qed.

End refine.

(** ** Every function of the scheduler on pointers simulates itself on lists *)

Create HintDb sched_sim.
#[export] Hint Resolve sim_tcb_get sim_tcb_set sim_tcb_flink sim_tcb_blink sim_list_head
  sim_list_rem sim_list_addlast sim_list_addprioritized sim_list_mergepending
  sim_tcb_count : sched_sim.

Ltac sim_step :=
  match goal with
  | |- sim _ (mret _) (mret _) => apply sim_ret
  | |- sim _ (klift _) (klift _) => apply sim_lift
  | |- sim _ (kassert _) (kassert _) => apply sim_assert
  | |- sim _ (kwhen _ _) (kwhen _ _) => apply sim_when
  | |- sim _ (_ ≫= _) (_ ≫= _) => apply sim_bind; [|intros ?]
  | |- sim _ (if ?b then _ else _) (if ?b then _ else _) => destruct b
  | |- sim _ (match ?x with _ => _ end) (match ?x with _ => _ end) => destruct x
  end.
Ltac solve_sim := repeat first [ solve [eauto with sched_sim] | sim_step ].

Section scheduler_sim.
Context `{Config}.
Abbreviation simulates c := (sim sched_repr c c).

Lemma sim_this_task : simulates this_task.
Proof. unfold this_task. solve_sim. Qed.
#[local] Hint Resolve sim_this_task : sched_sim.

Lemma sim_addreadytorun a : simulates (sched_addreadytorun a).
Proof. unfold sched_addreadytorun. solve_sim. Qed.

Lemma sim_removereadytorun a : simulates (sched_removereadytorun a).
Proof. unfold sched_removereadytorun. solve_sim. Qed.

Lemma sim_addblocked a st : simulates (sched_addblocked a st).
Proof. unfold sched_addblocked. solve_sim. Qed.

Lemma sim_removeblocked a : simulates (sched_removeblocked a).
Proof. unfold sched_removeblocked. solve_sim. Qed.

Lemma sim_resume_scheduler a : simulates (sched_resume_scheduler a).
Proof. unfold sched_resume_scheduler. solve_sim. Qed.
#[local] Hint Resolve sim_addreadytorun sim_removereadytorun sim_addblocked
  sim_removeblocked sim_resume_scheduler : sched_sim.

Lemma sim_up_switch b : simulates (up_switch b).
Proof. unfold up_switch. solve_sim. Qed.

Lemma sim_merge_if_pending : simulates merge_if_pending.
Proof. unfold merge_if_pending. solve_sim. Qed.
#[local] Hint Resolve sim_up_switch sim_merge_if_pending : sched_sim.

Lemma sim_up_block_task a st : simulates (up_block_task a st).
Proof. unfold up_block_task. solve_sim. Qed.

Lemma sim_up_unblock_task a : simulates (up_unblock_task a).
Proof. unfold up_unblock_task. solve_sim. Qed.

Lemma sim_up_release_pending : simulates up_release_pending.
Proof. unfold up_release_pending. solve_sim. Qed.

Lemma sim_up_reprioritize_rtr a p : simulates (up_reprioritize_rtr a p).
Proof. unfold up_reprioritize_rtr. solve_sim. Qed.
#[local] Hint Resolve sim_up_release_pending sim_up_reprioritize_rtr : sched_sim.

Lemma sim_assert_not c d : sim sched_repr c d → sim sched_repr (assert_not c) (assert_not d).
Proof. intros Hc. unfold assert_not. solve_sim. Qed.
#[local] Hint Resolve sim_assert_not : sched_sim.

Lemma sim_setpriority a p : simulates (nxsched_setpriority a p).
Proof.
  unfold nxsched_setpriority, sched_running_setpriority, sched_readytorun_setpriority,
    sched_blocked_setpriority. solve_sim.
Qed.
#[local] Hint Resolve sim_setpriority : sched_sim.

Lemma sim_yield : simulates sched_yield.
Proof. unfold sched_yield. solve_sim. Qed.

Lemma sim_lock irq : simulates (sched_lock irq).
Proof. unfold sched_lock. solve_sim. Qed.

Lemma sim_unlock irq : simulates (sched_unlock irq).
Proof. unfold sched_unlock. solve_sim. Qed.

Lemma sim_roundrobin a n b : simulates (sched_roundrobin_process a n b).
Proof. unfold sched_roundrobin_process. solve_sim. Qed.
End scheduler_sim.

#[export] Hint Resolve sim_this_task sim_addreadytorun sim_removereadytorun sim_addblocked
  sim_removeblocked sim_up_block_task sim_up_unblock_task sim_up_release_pending
  sim_up_reprioritize_rtr sim_setpriority sim_yield sim_lock sim_unlock sim_roundrobin
  : sched_sim.
