(* ===== verification/SchedInv.v ===== *)
(** * SchedInv: the invariant of the scheduler

    On the lists of SchedSpec.v: the list a task is on is the one its
    [task_state] names, the running task is the head of [g_readytorun], the
    prioritized lists are ordered by priority with the IDLE task at the end of
    [g_readytorun], and tasks are pending only while the running task has locked
    the scheduler.  Each function of the scheduler returns and keeps it. *)

From S2P Require Import Prelude Queue QueueRefine Sched SchedSpec.
Local Open Scope Z_scope.

(** ** The list primitives as equations *)

(** [p->field = ...] *)
Definition upd (f : tcb_data → tcb_data) (a : addr) (t : lsched) : lsched :=
  mk_ls (alter f a (tasks t)) (lists t).

Abbreviation set_state st := (upd (set_task_state st)).

Lemma alter_insert_Some {A} (f : A → A) (T : mem A) a x :
  T !! a = Some x → <[a := f x]> T = alter f a T.
Proof.
  intros Hx. apply map_eq. intros b. destruct (decide (a = b)) as [->|].
  - by rewrite lookup_insert_eq, lookup_alter_eq, Hx.
  - by rewrite lookup_insert_ne, lookup_alter_ne.
Qed.

Section prims.
Context `{Config}.
Implicit Types (t : lsched) (a : addr).

Lemma ls_get a t x : tasks t !! a = Some x → tcb_get a t = Some (x, t).
Proof. intros Hx. simpl. unfold kget. by rewrite Hx. Qed.

Lemma ls_set f a t : is_Some (tasks t !! a) → tcb_set f a t = Some (tt, upd f a t).
Proof.
  intros [x Hx]. simpl. unfold kput. rewrite Hx. simpl. by rewrite (alter_insert_Some f _ _ _ Hx).
Qed.

Lemma ls_flink k a t l1 l2 :
  lists t k = l1 ++ a :: l2 → a ∉ l1 → tcb_flink k a t = Some (hd_or NULL l2, t).
Proof.
  intros Hl Ha. simpl. unfold kget. rewrite Hl, bool_decide_eq_true_2 by set_solver.
  by rewrite next_in_app.
Qed.

Lemma ls_blink k a t l1 l2 :
  lists t k = l1 ++ a :: l2 → a ∉ l1 → tcb_blink k a t = Some (last_or NULL l1, t).
Proof.
  intros Hl Ha. simpl. unfold kget. rewrite Hl, bool_decide_eq_true_2 by set_solver.
  by rewrite prev_in_app.
Qed.

Lemma ls_head k t : list_head k t = Some (hd_or NULL (lists t k), t).
Proof. done. Qed.

Lemma ls_rem k a t l1 l2 :
  lists t k = l1 ++ a :: l2 → a ∉ l1 → list_rem a k t = Some (tt, set_list k (l1 ++ l2) t).
Proof.
  intros Hl Ha. simpl. unfold kput. rewrite Hl, bool_decide_eq_true_2 by set_solver.
  by rewrite remove_first_app.
Qed.

Lemma ls_addlast k a t :
  is_Some (tasks t !! a) → (∀ k, a ∉ lists t k) →
  list_addlast a k t = Some (tt, set_list k (lists t k ++ [a]) t).
Proof.
  intros Hx Ha. simpl. unfold kput. rewrite bool_decide_eq_true_2 by (by apply elem_of_dom).
  by rewrite (proj2 (on_no_list_true _ _) Ha).
Qed.

Lemma ls_addprioritized k a t x :
  tasks t !! a = Some x → SCHED_PRIORITY_MIN ≤ sched_priority x → (∀ k, a ∉ lists t k) →
  list_addprioritized a k t =
    Some (bool_decide (hd_or NULL (prio_insert (tasks t) a (lists t k)) = Some a),
          set_list k (prio_insert (tasks t) a (lists t k)) t).
Proof.
  intros Hx Hmin Ha. simpl. rewrite Hx. simpl.
  rewrite DEBUGASSERT_true by (by apply Z.leb_le). simpl.
  by rewrite (proj2 (on_no_list_true _ _) Ha).
Qed.

Lemma ls_assert b t : b = true → kassert b t = Some (tt, t).
Proof. intros ->. unfold kassert, klift. by rewrite DEBUGASSERT_true. Qed.

Lemma ls_lift {A} (o : option A) x t : o = Some x → klift o t = Some (x, t).
Proof. by intros ->. Qed.

Lemma ls_this_task t r l : lists t g_readytorun = r :: l → this_task t = Some (r, t).
Proof. intros Hl. unfold this_task. by rewrite (K_bind_Some _ _ _ _ _ (ls_head _ _)), Hl. Qed.
End prims.

#[global] Arguments tcb_get : simpl never.
#[global] Arguments tcb_set : simpl never.
#[global] Arguments tcb_flink : simpl never.
#[global] Arguments tcb_blink : simpl never.
#[global] Arguments list_head : simpl never.
#[global] Arguments list_rem : simpl never.
#[global] Arguments list_addlast : simpl never.
#[global] Arguments list_addprioritized : simpl never.
#[global] Arguments list_mergepending : simpl never.

Lemma is_Some_upd (f : tcb_data → tcb_data) (T : taskmap) b a :
  is_Some (T !! a) → is_Some (alter f b T !! a).
Proof. by rewrite lookup_alter_is_Some. Qed.

(** Side conditions of the steps. *)
Ltac ksolve :=
  simpl; repeat apply is_Some_upd;
  first [ done | eassumption | by eexists | set_solver ].
(** Run one step of kernel code whose result is the equation [H]. *)
Tactic Notation "krun" uconstr(H) :=
  erewrite K_bind_Some by (eapply H; ksolve); cbv beta.

(** ** The invariant *)

Section invariant.
Context (idle : addr).
Implicit Types (t : lsched) (T : taskmap) (a : addr).

Definition prioritized (k : tasklist) : bool :=
  match k with g_inactivetasks | g_waitingforsignal => false | _ => true end.

(** All but which ready-to-run task is the running one. *)
Record sched_core t : Prop := {
  sc_listed a k : a ∈ lists t k ↔
    ∃ x, tasks t !! a = Some x ∧ TLIST_BLOCKED (task_state x) = Some k;
  sc_nodup k : NoDup (lists t k);
  sc_sorted k : prioritized k = true → prio_sorted (tasks t) (lists t k) = true;
  sc_idle : ∃ l, lists t g_readytorun = l ++ [idle] ∧ idle ∉ l;
  sc_idle_prio : prio (tasks t) idle = 0;
  sc_prio a x : tasks t !! a = Some x → a ≠ idle → 1 ≤ sched_priority x ≤ 255;
  sc_lock a x : tasks t !! a = Some x → 0 ≤ lockcount x ≤ MAX_LOCK_COUNT;
}.

Definition running_ok t : Prop := ∀ a x, tasks t !! a = Some x →
  task_state x = TSTATE_TASK_RUNNING ↔ hd_or NULL (lists t g_readytorun) = Some a.

(** Tasks are pending only while the running task has locked the scheduler. *)
Definition lock_ok t : Prop :=
  lists t g_pendingtasks ≠ [] →
  ∃ r l x, lists t g_readytorun = r :: l ∧ tasks t !! r = Some x ∧ 0 < lockcount x.

Record sched_inv t : Prop := {
  sv_core : sched_core t;
  sv_running : running_ok t;
  sv_lock : lock_ok t;
}.
End invariant.

(** ** Priorities and ordered lists *)

Section sorted.
Implicit Types (T : taskmap) (a : addr) (l : list addr).

Lemma prio_alter T f a b :
  (∀ x, sched_priority (f x) = sched_priority x) → prio (alter f a T) b = prio T b.
Proof.
  intros Hf. unfold prio. destruct (decide (a = b)) as [->|].
  - rewrite lookup_alter_eq. destruct (T !! b); simpl; [apply Hf|done].
  - by rewrite lookup_alter_ne.
Qed.

Lemma prio_alter_ne T f a b : a ≠ b → prio (alter f a T) b = prio T b.
Proof. intros Hne. unfold prio. by rewrite lookup_alter_ne. Qed.

Lemma prio_sorted_app T l1 l2 :
  prio_sorted T (l1 ++ l2) = true ↔
  prio_sorted T l1 = true ∧ prio_sorted T l2 = true ∧
  Forall (λ a, Forall (λ b, prio T b ≤ prio T a) l2) l1.
Proof.
  induction l1 as [|a l1 IH]; [naive_solver|]. rewrite <- app_comm_cons, !prio_sorted_cons, IH.
  rewrite Forall_app, Forall_cons. naive_solver.
Qed.

Lemma prio_sorted_agree T T' l :
  (∀ b, b ∈ l → prio T b = prio T' b) → prio_sorted T l = true → prio_sorted T' l = true.
Proof.
  induction l as [|a l IH]; [done|]. rewrite !prio_sorted_cons.
  intros Hp [Hall Hs]. split; [|apply IH; [set_solver|done]].
  rewrite Forall_forall in *. intros b Hb. rewrite <- !Hp by set_solver. by apply Hall.
Qed.

Lemma prio_sorted_remove T l1 a l2 :
  prio_sorted T (l1 ++ a :: l2) = true → prio_sorted T (l1 ++ l2) = true.
Proof.
  rewrite !prio_sorted_app, prio_sorted_cons. intros (? & (_ & ?) & Hall). split_and!; [done..|].
  eapply Forall_impl; [done|]. intros b Hb. by apply Forall_cons in Hb as [_ ?].
Qed.

Lemma prio_sorted_insert T a l :
  prio_sorted T l = true → prio_sorted T (prio_insert T a l) = true.
Proof.
  intros Hs. destruct (prio_split T a l) as [Hall|(l1 & r & l2 & -> & Hall & Hlt)].
  - rewrite prio_insert_last, prio_sorted_app by done. split_and!; [done|done|].
    eapply Forall_impl; [done|]. intros b Hb. by repeat constructor.
  - rewrite prio_insert_before by done. apply prio_sorted_app in Hs as (Hs1 & Hs2 & Hs3).
    rewrite prio_sorted_app, prio_sorted_cons. split_and!; [done| |done|].
    + apply prio_sorted_cons in Hs2 as [Hr _]. constructor; [lia|].
      eapply Forall_impl; [done|]. simpl. lia.
    + rewrite Forall_forall in *. intros b Hb. constructor; [by apply Hall|by apply Hs3].
Qed.
End sorted.

Section core.
Context (idle : addr).
Implicit Types (t : lsched) (a : addr).
Abbreviation core := (sched_core idle).

Lemma sc_lookup t a k : core t → a ∈ lists t k →
  ∃ x, tasks t !! a = Some x ∧ TLIST_BLOCKED (task_state x) = Some k.
Proof. intros Hc Ha. by apply (sc_listed _ _ Hc). Qed.

Lemma sc_unlisted t a x : core t → tasks t !! a = Some x →
  TLIST_BLOCKED (task_state x) = None → ∀ k, a ∉ lists t k.
Proof.
  intros Hc Hx Hn k Ha. destruct (sc_lookup _ _ _ Hc Ha) as (y & Hy & Hk). congruence.
Qed.

Lemma sc_disjoint t a k k' : core t → a ∈ lists t k → a ∈ lists t k' → k = k'.
Proof.
  intros Hc (x & Hx & Hk)%(sc_lookup _ _ _ Hc) (y & Hy & Hk')%(sc_lookup _ _ _ Hc). congruence.
Qed.

Lemma sc_idle_listed t a k : core t → a ∈ lists t k → k ≠ g_readytorun → a ≠ idle.
Proof.
  intros Hc Ha Hk ->. destruct (sc_idle _ _ Hc) as (l & Hl & _).
  apply Hk, (sc_disjoint t idle k g_readytorun Hc Ha). rewrite Hl. set_solver.
Qed.

(** Changing fields that the lists do not depend on. *)
Lemma core_upd t f a :
  core t →
  (∀ x, tasks t !! a = Some x → TLIST_BLOCKED (task_state (f x)) = TLIST_BLOCKED (task_state x) ∧
        sched_priority (f x) = sched_priority x ∧ 0 ≤ lockcount (f x) ≤ MAX_LOCK_COUNT) →
  core (upd f a t).
Proof.
  intros Hc Hf.
  assert (∀ b, prio (alter f a (tasks t)) b = prio (tasks t) b) as Hp.
  { intros b. unfold prio. destruct (decide (a = b)) as [->|]; [|by rewrite lookup_alter_ne].
    rewrite lookup_alter_eq. destruct (tasks t !! b) as [x|] eqn:Hx; simpl; [|done].
    by apply Hf. }
  assert (∀ b y, alter f a (tasks t) !! b = Some y → ∃ x, tasks t !! b = Some x ∧
    TLIST_BLOCKED (task_state y) = TLIST_BLOCKED (task_state x) ∧
    sched_priority y = sched_priority x ∧ 0 ≤ lockcount y ≤ MAX_LOCK_COUNT) as Hinv.
  { intros b y. rewrite lookup_alter_Some. intros [(-> & x & Hx & ->)|[_ Hx]].
    - exists x. destruct (Hf x Hx) as (? & ? & ?). done.
    - exists y. split_and!; try done; by apply (sc_lock _ _ Hc b y Hx). }
  split; simpl.
  - intros b k. rewrite (sc_listed _ _ Hc). split.
    + intros (x & Hx & Hk). destruct (decide (a = b)) as [->|].
      * exists (f x). rewrite lookup_alter_eq, Hx. split; [done|].
        by rewrite (proj1 (Hf x Hx)).
      * exists x. by rewrite lookup_alter_ne.
    + intros (y & Hy & Hk). destruct (Hinv b y Hy) as (x & Hx & Hl & _).
      exists x. split; [done|]. congruence.
  - apply Hc.
  - intros k Hk. eapply prio_sorted_agree; [|by apply Hc]. intros b _. by rewrite Hp.
  - apply Hc.
  - rewrite Hp. apply Hc.
  - intros b y Hy Hb. destruct (Hinv b y Hy) as (x & Hx & _ & -> & _).
    by apply (sc_prio _ _ Hc b x).
  - intros b y Hy. by destruct (Hinv b y Hy) as (x & Hx & _ & _ & ?).
Qed.

(** A new priority that leaves the lists in order. *)
Lemma core_priority_gen t a x p :
  core t → tasks t !! a = Some x → a ≠ idle → 1 ≤ p ≤ 255 →
  (∀ k, prioritized k = true →
        prio_sorted (alter (set_sched_priority p) a (tasks t)) (lists t k) = true) →
  core (upd (set_sched_priority p) a t).
Proof.
  intros Hc Hx Hi Hp Hs. split; simpl; try apply Hc.
  - intros b k. rewrite (sc_listed _ _ Hc).
    destruct (decide (a = b)) as [->|]; [|by rewrite lookup_alter_ne].
    rewrite lookup_alter_eq, Hx. simpl. split; intros (y & [= <-] & Hk); eauto.
  - done.
  - rewrite prio_alter_ne by done. apply Hc.
  - intros b y. rewrite lookup_alter_Some. intros [(-> & z & Hz & ->)|[_ Hy]] Hb; [done|].
    by apply (sc_prio _ _ Hc b y).
  - intros b y. rewrite lookup_alter_Some. intros [(-> & z & Hz & ->)|[_ Hy]].
    + by apply (sc_lock _ _ Hc b z).
    + by apply (sc_lock _ _ Hc b y).
Qed.

Lemma sorted_other t a p k :
  core t → a ∉ lists t k → prioritized k = true →
  prio_sorted (alter (set_sched_priority p) a (tasks t)) (lists t k) = true.
Proof.
  intros Hc Ha Hk. eapply prio_sorted_agree; [|by apply Hc]. intros b Hb.
  rewrite prio_alter_ne; [done|]. by intros ->.
Qed.

(** A task that is on no list. *)
Lemma core_priority t a x p :
  core t → tasks t !! a = Some x → TLIST_BLOCKED (task_state x) = None → a ≠ idle →
  1 ≤ p ≤ 255 → core (upd (set_sched_priority p) a t).
Proof.
  intros Hc Hx Hn Hi Hp. eapply core_priority_gen; [done..|]. intros k Hk.
  apply sorted_other; [done| |done]. by eapply sc_unlisted.
Qed.

(** A task of a list that is not prioritized. *)
Lemma core_priority_blocked t a x p k :
  core t → tasks t !! a = Some x → TLIST_BLOCKED (task_state x) = Some k →
  prioritized k = false → a ≠ idle → 1 ≤ p ≤ 255 → core (upd (set_sched_priority p) a t).
Proof.
  intros Hc Hx Hk Hnp Hi Hp. eapply core_priority_gen; [done..|]. intros k' Hk'.
  apply sorted_other; [done| |done]. intros Ha.
  assert (a ∈ lists t k) as Ha' by (apply (sc_listed _ _ Hc); eauto).
  rewrite (sc_disjoint _ _ _ _ Hc Ha Ha') in Hk'. congruence.
Qed.

(** The running task, when it stays ahead of the next one. *)
Lemma core_priority_head t a n l x p :
  core t → tasks t !! a = Some x → lists t g_readytorun = a :: n :: l →
  prio (tasks t) n < p → a ≠ idle → 1 ≤ p ≤ 255 → core (upd (set_sched_priority p) a t).
Proof.
  intros Hc Hx Hl Hn Hi Hp. pose proof (sc_nodup _ _ Hc g_readytorun) as Hnd. rewrite Hl in Hnd.
  eapply core_priority_gen; [done..|]. intros k Hk.
  destruct (decide (k = g_readytorun)) as [->|Hkr].
  - pose proof (sc_sorted _ _ Hc g_readytorun eq_refl) as Hs. rewrite Hl in *.
    apply prio_sorted_cons in Hs as [_ Hs]. pose proof Hs as [Hln _]%prio_sorted_cons.
    assert (∀ b, b ∈ n :: l → prio (alter (set_sched_priority p) a (tasks t)) b
              = prio (tasks t) b) as Hsame.
    { intros b Hb. apply prio_alter_ne. intros ->. nodup_facts. set_solver. }
    apply prio_sorted_cons. split.
    + apply Forall_forall. intros b Hb. rewrite Hsame by done.
      unfold prio at 2. rewrite lookup_alter_eq, Hx. simpl.
      apply elem_of_cons in Hb as [->|Hb]; [lia|]. rewrite Forall_forall in Hln.
      specialize (Hln b Hb). lia.
    + eapply prio_sorted_agree; [|done]. intros b Hb. by rewrite Hsame.
  - apply sorted_other; [done| |done]. intros Ha.
    assert (a ∈ lists t g_readytorun) as Ha' by (rewrite Hl; set_solver).
    by destruct Hkr; eapply sc_disjoint.
Qed.

Lemma lookup_set_state t st a b y :
  tasks (set_state st a t) !! b = Some y ↔
  ∃ x, tasks t !! b = Some x ∧ y = if decide (b = a) then set_task_state st x else x.
Proof.
  simpl. rewrite lookup_alter_Some. split.
  - intros [(-> & x & Hx & ->)|[Hne Hy]]; [exists x|exists y]; case_decide; naive_solver.
  - intros (x & Hx & ->). case_decide; [left|right]; naive_solver.
Qed.

(** Taking a task off its list. *)
Lemma core_remove t k l1 a l2 :
  core t → lists t k = l1 ++ a :: l2 → a ≠ idle →
  core (set_state TSTATE_TASK_INVALID a (set_list k (l1 ++ l2) t)).
Proof.
  intros Hc Hl Hi. pose proof (sc_nodup _ _ Hc k) as Hnd. rewrite Hl in Hnd.
  assert (∀ b k', b ∈ lists (set_list k (l1 ++ l2) t) k' ↔ b ∈ lists t k' ∧ b ≠ a) as Hin.
  { intros b k'. rewrite lookup_set_list. case_decide; subst.
    - rewrite Hl. nodup_facts. set_solver.
    - split; [|naive_solver]. intros Hb. split; [done|]. intros ->.
      assert (k' = k) by (apply (sc_disjoint t a); [done..|]; rewrite Hl; set_solver). done. }
  split.
  - intros b k'. cbn [lists upd]. rewrite Hin, (sc_listed _ _ Hc). split.
    + intros ((x & Hx & Hk) & Hb). exists x. rewrite lookup_set_state.
      split; [|done]. exists x. split; [done|]. by case_decide.
    + intros (y & (x & Hx & ->)%lookup_set_state & Hk). simpl in Hx.
      case_decide; [done|]. eauto.
  - intros k'. cbn [lists upd]. rewrite lookup_set_list. case_decide; [|apply Hc].
    nodup_facts. apply NoDup_app. set_solver.
  - intros k' Hk'. cbn [tasks upd lists]. eapply prio_sorted_agree.
    { intros b _. symmetry. by apply prio_alter. }
    rewrite lookup_set_list. case_decide; [subst|by apply Hc].
    eapply prio_sorted_remove. rewrite <- Hl. by apply Hc.
  - destruct (sc_idle _ _ Hc) as (l & Hr & Hn). cbn [lists upd]. rewrite lookup_set_list.
    case_decide; [subst|eauto]. rewrite Hl in Hr. destruct l2 as [|c l2 _] using rev_ind.
    { apply app_inj_tail in Hr as [_ ->]. done. }
    change (l1 ++ a :: l2 ++ [c]) with (l1 ++ (a :: l2) ++ [c]) in Hr.
    rewrite app_assoc in Hr. apply app_inj_tail in Hr as [<- ->].
    exists (l1 ++ l2). rewrite app_assoc. set_solver.
  - cbn [tasks upd]. rewrite prio_alter by done. apply Hc.
  - intros b y (x & Hx & ->)%lookup_set_state Hb. simpl in Hx.
    pose proof (sc_prio _ _ Hc b x Hx Hb). by case_decide.
  - intros b y (x & Hx & ->)%lookup_set_state. simpl in Hx.
    pose proof (sc_lock _ _ Hc b x Hx). by case_decide.
Qed.

(** Putting a task that is on no list on one. *)
Lemma core_add t k a x st l' :
  core t → tasks t !! a = Some x → TLIST_BLOCKED (task_state x) = None → a ≠ idle →
  TLIST_BLOCKED st = Some k → l' ≡ₚ a :: lists t k →
  (prioritized k = true → prio_sorted (tasks t) l' = true) →
  (k = g_readytorun → ∃ l, l' = l ++ [idle] ∧ idle ∉ l) →
  core (set_state st a (set_list k l' t)).
Proof.
  intros Hc Hx Hn Hi Hst Hl' Hs Hidle. pose proof (sc_unlisted _ _ _ Hc Hx Hn) as Ha.
  assert (∀ b k', b ∈ lists (set_list k l' t) k' ↔ b ∈ lists t k' ∨ b = a ∧ k' = k) as Hin.
  { intros b k'. rewrite lookup_set_list. case_decide; subst; [rewrite Hl'|]; set_solver. }
  split.
  - intros b k'. cbn [lists upd]. rewrite Hin, (sc_listed _ _ Hc). split.
    + intros [(y & Hy & Hk)|[-> ->]].
      * exists y. rewrite lookup_set_state. split; [|done]. exists y. split; [done|].
        case_decide; [|done]. subst. congruence.
      * exists (set_task_state st x). rewrite lookup_set_state. split; [|done].
        exists x. split; [done|]. by case_decide.
    + intros (y & (z & Hz & ->)%lookup_set_state & Hk). simpl in Hz.
      case_decide; [|by eauto]. subst. right. simpl in Hk. split; [done|congruence].
  - intros k'. cbn [lists upd]. rewrite lookup_set_list. case_decide; [subst|apply Hc].
    rewrite Hl'. apply NoDup_cons. split; [apply Ha|apply Hc].
  - intros k' Hk'. cbn [tasks upd lists]. eapply prio_sorted_agree.
    { intros b _. symmetry. by apply prio_alter. }
    rewrite lookup_set_list. case_decide; [subst; by apply Hs|by apply Hc].
  - cbn [lists upd]. rewrite lookup_set_list. case_decide; [by apply Hidle|apply Hc].
  - cbn [tasks upd]. rewrite prio_alter by done. apply Hc.
  - intros b y (z & Hz & ->)%lookup_set_state Hb. simpl in Hz.
    pose proof (sc_prio _ _ Hc b z Hz Hb). by case_decide.
  - intros b y (z & Hz & ->)%lookup_set_state. simpl in Hz.
    pose proof (sc_lock _ _ Hc b z Hz). by case_decide.
Qed.

(** The IDLE task stays at the end. *)
Lemma prio_insert_idle T a l :
  prio T idle = 0 → 1 ≤ prio T a → idle ∉ l → a ≠ idle →
  ∃ l', prio_insert T a (l ++ [idle]) = l' ++ [idle] ∧ idle ∉ l'.
Proof.
  intros Hi Ha Hl Hne. destruct (prio_split T a l) as [Hall|(l1 & r & l2 & -> & Hall & Hlt)].
  - rewrite prio_insert_before by (done || lia). exists (l ++ [a]). rewrite <- app_assoc. set_solver.
  - rewrite <- app_assoc, <- app_comm_cons, prio_insert_before by done.
    exists (l1 ++ a :: r :: l2). rewrite <- app_assoc. set_solver.
Qed.

Lemma core_insert t k a x st :
  core t → tasks t !! a = Some x → TLIST_BLOCKED (task_state x) = None → a ≠ idle →
  TLIST_BLOCKED st = Some k → prioritized k = true →
  core (set_state st a (set_list k (prio_insert (tasks t) a (lists t k)) t)).
Proof.
  intros Hc Hx Hn Hi Hst Hk. eapply core_add; try done.
  - apply prio_insert_perm.
  - intros _. by apply prio_sorted_insert, Hc.
  - intros ->. destruct (sc_idle _ _ Hc) as (l & -> & Hl). apply prio_insert_idle; try done.
    + apply Hc.
    + unfold prio. rewrite Hx. apply (sc_prio _ _ Hc a x Hx Hi).
Qed.

Lemma core_addlast t k a x st :
  core t → tasks t !! a = Some x → TLIST_BLOCKED (task_state x) = None → a ≠ idle →
  TLIST_BLOCKED st = Some k → prioritized k = false →
  core (set_state st a (set_list k (lists t k ++ [a]) t)).
Proof.
  intros Hc Hx Hn Hi Hst Hk. eapply core_add; try done.
  - by rewrite Permutation_app_comm.
  - by rewrite Hk.
  - by intros ->.
Qed.
End core.

(** ** The scheduler functions on the lists *)

Section ops.
Context `{Config} (idle : addr).
Implicit Types (t : lsched) (a : addr).
Abbreviation core := (sched_core idle).

(** *** sched_removereadytorun *)

Lemma removereadytorun_head t a n l :
  lists t g_readytorun = a :: n :: l → is_Some (tasks t !! a) → is_Some (tasks t !! n) →
  sched_removereadytorun a t =
    Some (true, set_state TSTATE_TASK_INVALID a (set_list g_readytorun (n :: l)
                  (set_state TSTATE_TASK_RUNNING n t))).
Proof.
  intros Hl Ha Hn. unfold sched_removereadytorun.
  krun (ls_blink g_readytorun a t [] (n :: l)).
  cbn [last_or]. rewrite bool_decide_eq_true_2 by done.
  erewrite K_bind_Some; cbv beta.
  2: { krun (ls_flink g_readytorun a t [] (n :: l)). cbn [hd_or].
       krun ls_assert. krun (ls_lift (Some n)). krun ls_set. done. }
  krun (ls_rem g_readytorun a _ [] (n :: l)). krun ls_set. done.
Qed.

Lemma removereadytorun_tail t l1 a l2 :
  lists t g_readytorun = l1 ++ a :: l2 → l1 ≠ [] → a ∉ l1 → is_Some (tasks t !! a) →
  sched_removereadytorun a t =
    Some (false, set_state TSTATE_TASK_INVALID a (set_list g_readytorun (l1 ++ l2) t)).
Proof.
  intros Hl Hne Hn Ha. unfold sched_removereadytorun.
  krun (ls_blink g_readytorun a t l1 l2).
  rewrite bool_decide_eq_false_2 by (destruct l1 as [|? ? _] using rev_ind;
    [done|by rewrite last_or_app]).
  erewrite K_bind_Some by done; cbv beta. krun (ls_rem g_readytorun a t l1 l2). by krun ls_set.
Qed.

(** *** sched_addreadytorun *)

Lemma prio_lookup T a x : T !! a = Some x → prio T a = sched_priority x.
Proof. intros Hx. unfold prio. by rewrite Hx. Qed.

Section add.
Context t r l a xr xa
  (Hl : lists t g_readytorun = r :: l) (Hr : tasks t !! r = Some xr)
  (Ha : tasks t !! a = Some xa) (Hmin : SCHED_PRIORITY_MIN ≤ sched_priority xa)
  (Hno : ∀ k, a ∉ lists t k).

Lemma addreadytorun_pending :
  0 < lockcount xr → sched_priority xr < sched_priority xa →
  sched_addreadytorun a t =
    Some (false, set_state TSTATE_TASK_PENDING a
            (set_list g_pendingtasks (prio_insert (tasks t) a (lists t g_pendingtasks)) t)).
Proof.
  intros Hlock Hlt. unfold sched_addreadytorun. krun ls_this_task. do 2 krun ls_get.
  rewrite (proj2 (Z.ltb_lt _ _) Hlock), (proj2 (Z.ltb_lt _ _) Hlt). cbn [andb].
  krun ls_addprioritized. by krun ls_set.
Qed.

Lemma addreadytorun_head :
  lockcount xr = 0 → sched_priority xr < sched_priority xa →
  sched_addreadytorun a t =
    Some (true, set_state TSTATE_TASK_READYTORUN r (set_state TSTATE_TASK_RUNNING a
            (set_list g_readytorun (a :: r :: l) t))).
Proof.
  intros Hlock Hlt. unfold sched_addreadytorun. krun ls_this_task. do 2 krun ls_get.
  rewrite Hlock. cbn [Z.ltb Z.compare andb].
  assert (prio_insert (tasks t) a (r :: l) = a :: r :: l) as Hins.
  { simpl. rewrite (prio_lookup _ _ _ Hr), (prio_lookup _ _ _ Ha).
    by rewrite (proj2 (Z.leb_gt _ _) Hlt). }
  krun ls_addprioritized. rewrite Hl, Hins. cbn [hd_or]. rewrite bool_decide_eq_true_2 by done.
  krun (ls_flink g_readytorun a _ [] (r :: l)). cbn [hd_or]. krun ls_assert. krun ls_set.
  krun (ls_lift (Some r)). by krun ls_set.
Qed.

Lemma addreadytorun_mid :
  sched_priority xa ≤ sched_priority xr →
  sched_addreadytorun a t =
    Some (false, set_state TSTATE_TASK_READYTORUN a
            (set_list g_readytorun (r :: prio_insert (tasks t) a l) t)).
Proof.
  intros Hle. unfold sched_addreadytorun. krun ls_this_task. do 2 krun ls_get.
  rewrite (proj2 (Z.ltb_ge _ _) Hle), andb_false_r.
  assert (prio_insert (tasks t) a (r :: l) = r :: prio_insert (tasks t) a l) as Hins.
  { simpl. rewrite (prio_lookup _ _ _ Hr), (prio_lookup _ _ _ Ha).
    by rewrite (proj2 (Z.leb_le _ _) Hle). }
  krun ls_addprioritized. rewrite Hl, Hins. cbn [hd_or]. rewrite bool_decide_eq_false_2.
  - by krun ls_set.
  - intros [= ->]. destruct (Hno g_readytorun). rewrite Hl. set_solver.
Qed.
End add.

(** *** The invariant across sched_removereadytorun and sched_addreadytorun *)

(** [t'] has the tasks of [t] with other states at most. *)
Definition states_only t t' : Prop :=
  set_task_state TSTATE_TASK_INVALID <$> tasks t' = set_task_state TSTATE_TASK_INVALID <$> tasks t.

Lemma states_only_upd t st a : states_only t (set_state st a t).
Proof.
  unfold states_only. apply map_eq. intros b. rewrite !lookup_fmap. simpl.
  destruct (decide (a = b)) as [->|]; [|by rewrite lookup_alter_ne].
  rewrite lookup_alter_eq. by destruct (tasks t !! b).
Qed.

Lemma states_only_trans t1 t2 t3 : states_only t1 t2 → states_only t2 t3 → states_only t1 t3.
Proof. unfold states_only. congruence. Qed.

Lemma states_only_list t t' k l : states_only t t' → states_only t (set_list k l t').
Proof. done. Qed.

Lemma states_only_lookup t t' a x :
  states_only t t' → tasks t !! a = Some x → ∃ st, tasks t' !! a = Some (set_task_state st x).
Proof.
  intros Hs Hx. apply (f_equal (.!! a)) in Hs. rewrite !lookup_fmap, Hx in Hs. simpl in Hs.
  destruct (tasks t' !! a) as [y|]; [|done]. exists (task_state y). f_equal.
  injection Hs as ? ? ? ? ? ? ? ? ?. destruct x, y; unfold set_task_state; simpl in *; congruence.
Qed.

Lemma states_only_prio t t' a : states_only t t' → prio (tasks t') a = prio (tasks t) a.
Proof.
  intros Hs. apply (f_equal (.!! a)) in Hs. rewrite !lookup_fmap in Hs. unfold prio.
  destruct (tasks t' !! a), (tasks t !! a); simpl in Hs; try done.
  by injection Hs.
Qed.

Lemma ready_split t a :
  core t → a ∈ lists t g_readytorun → a ≠ idle →
  ∃ l1 n l2, lists t g_readytorun = l1 ++ a :: n :: l2 ∧ NoDup (l1 ++ a :: n :: l2).
Proof.
  intros Hc Ha Hi. pose proof (sc_nodup _ _ Hc g_readytorun) as Hnd.
  destruct (sc_idle _ _ Hc) as (l & Hl & _). rewrite Hl in *.
  apply elem_of_app in Ha as [Ha|Ha]; [|set_solver].
  apply list_elem_of_split in Ha as (l1 & l2 & ->). rewrite <- app_assoc in *.
  destruct l2 as [|n l2]; simpl in *; [by exists l1, idle, []|].
  exists l1, n, (l2 ++ [idle]). done.
Qed.

Lemma ready_head t : core t → ∃ r l xr,
  lists t g_readytorun = r :: l ∧ tasks t !! r = Some xr ∧
  TLIST_BLOCKED (task_state xr) = Some g_readytorun.
Proof.
  intros Hc. destruct (sc_idle _ _ Hc) as (l & Hl & _).
  assert (∃ r l', lists t g_readytorun = r :: l') as (r & l' & Hl').
  { rewrite Hl. destruct l; simpl; eauto. }
  destruct (sc_lookup _ _ r g_readytorun Hc) as (xr & Hxr & Hk); [rewrite Hl'; set_solver|].
  eauto 10.
Qed.

Lemma lookup_state t st a b x : tasks t !! b = Some x →
  tasks (set_state st a t) !! b = Some (if decide (b = a) then set_task_state st x else x).
Proof. intros Hx. apply lookup_set_state. eauto. Qed.

(** What [sched_removereadytorun] leaves, [a] being between [l1] and [l2]. *)
Record removed t a (l1 l2 : list addr) (b : bool) t' : Prop := {
  rm_head : b = bool_decide (l1 = []);
  rm_core : core t';
  rm_running : running_ok t';
  rm_states : states_only t t';
  rm_lists k : lists t' k = if decide (k = g_readytorun) then l1 ++ l2 else lists t k;
  rm_task x : tasks t !! a = Some x → tasks t' !! a = Some (set_task_state TSTATE_TASK_INVALID x);
}.

Lemma removereadytorun_ok t a :
  core t → running_ok t → a ∈ lists t g_readytorun → a ≠ idle →
  ∃ l1 l2 b t', lists t g_readytorun = l1 ++ a :: l2 ∧ l2 ≠ [] ∧
    sched_removereadytorun a t = Some (b, t') ∧ removed t a l1 l2 b t'.
Proof.
  intros Hc Hrun Ha Hi. destruct (ready_split t a Hc Ha Hi) as (l1 & n & l2 & Hl & Hnd).
  destruct (sc_lookup _ _ a _ Hc Ha) as (x & Hx & _).
  assert (n ∈ lists t g_readytorun) as (y & Hy & Hyk)%(sc_lookup _ _ _ _ Hc)
    by (rewrite Hl; set_solver).
  destruct l1 as [|c l1].
  - exists [], (n :: l2). do 2 eexists. split; [done|]. split; [done|].
    split; [apply removereadytorun_head; by (done || eexists)|].
    simpl in Hnd. assert (a ≠ n) by (nodup_facts; set_solver). split.
    + done.
    + apply (core_remove idle (set_state TSTATE_TASK_RUNNING n t) g_readytorun [] a (n :: l2));
        [|done|done]. apply core_upd; [done|]. intros z Hz.
      assert (z = y) as -> by congruence. split; [done|]. split; [done|].
      apply (sc_lock _ _ Hc n y Hy).
    + intros b z (z1 & (z2 & Hz & ->)%lookup_set_state & ->)%lookup_set_state. simpl.
      specialize (Hrun b z2 Hz). rewrite Hl in Hrun. simpl in Hrun. simpl in Hz.
      repeat case_decide; simpl; naive_solver.
    + eapply states_only_trans; [apply states_only_upd|].
      apply states_only_trans with (t2 := set_list g_readytorun (n :: l2)
        (set_state TSTATE_TASK_RUNNING n t)); [done|apply states_only_upd].
    + done.
    + intros z Hz. assert (z = x) as -> by congruence.
      rewrite (lookup_state _ _ _ _ x); [by case_decide|].
      simpl. by rewrite lookup_alter_ne.
  - exists (c :: l1), (n :: l2). do 2 eexists. split; [done|]. split; [done|].
    split; [apply removereadytorun_tail; [done|done|nodup_facts; set_solver|by eexists]|].
    assert (a ≠ c) by (nodup_facts; set_solver). split.
    + done.
    + by apply core_remove.
    + intros b z (z1 & Hz & ->)%lookup_set_state. simpl in *.
      specialize (Hrun b z1 Hz). rewrite Hl in Hrun. simpl in Hrun.
      case_decide; simpl; naive_solver.
    + apply states_only_trans with (t2 := set_list g_readytorun ((c :: l1) ++ n :: l2) t);
        [done|apply states_only_upd].
    + done.
    + intros z Hz. rewrite (lookup_state _ _ _ _ z); [by case_decide|done].
Qed.

(** What [sched_addreadytorun] leaves, [r] being the running task. *)
Record added t a (r : addr) (xr xa : tcb_data) (b : bool) t' : Prop := {
  ad_core : core t';
  ad_running : running_ok t';
  ad_states : states_only t t';
  ad_head : b = (lockcount xr =? 0) && (sched_priority xr <? sched_priority xa);
  ad_lists k : lists t' k =
    if decide (k = if (0 <? lockcount xr) && (sched_priority xr <? sched_priority xa)
                   then g_pendingtasks else g_readytorun)
    then prio_insert (tasks t) a (lists t k) else lists t k;
}.

Section added.
Context t a (xa : tcb_data) (r : addr) (l : list addr) (xr : tcb_data).
Context (Hc : core t) (Hrun : running_ok t) (Ha : tasks t !! a = Some xa)
  (Hn : TLIST_BLOCKED (task_state xa) = None) (Hi : a ≠ idle)
  (Hl : lists t g_readytorun = r :: l) (Hr : tasks t !! r = Some xr).

Lemma added_states k l' st : states_only t (set_state st a (set_list k l' t)).
Proof using. apply states_only_trans with (t2 := set_list k l' t); [done|apply states_only_upd]. Qed.

(** The task preempts the running task. *)
Lemma added_head :
  lockcount xr = 0 → sched_priority xr < sched_priority xa → a ≠ r →
  added t a r xr xa true (set_state TSTATE_TASK_READYTORUN r (set_state TSTATE_TASK_RUNNING a
    (set_list g_readytorun (a :: r :: l) t))).
Proof using Hc Hrun Ha Hn Hi Hl Hr.
  intros H0 Hlt Har.
  assert (prio_insert (tasks t) a (r :: l) = a :: r :: l) as Hins.
  { simpl. rewrite (prio_lookup _ _ _ Hr), (prio_lookup _ _ _ Ha). by rewrite (proj2 (Z.leb_gt _ _) Hlt). }
  split.
  - apply core_upd.
    + rewrite <- Hins, <- Hl. by eapply core_insert.
    + pose proof (sc_lock _ _ Hc r xr Hr) as Hlk. destruct (ready_head t Hc) as (r' & l' & xr' & Hl' & Hr' & Hrk).
      rewrite Hl in Hl'. injection Hl' as <- <-. assert (xr' = xr) as -> by congruence.
      intros z (z1 & Hz & ->)%lookup_set_state. simpl in Hz. case_decide; [done|].
      by assert (z1 = xr) as -> by congruence.
  - intros b z (z1 & (z2 & Hz & ->)%lookup_set_state & ->)%lookup_set_state. simpl in *.
    specialize (Hrun b z2 Hz). rewrite Hl in Hrun. simpl in Hrun.
    repeat case_decide; simpl; naive_solver.
  - eapply states_only_trans; [apply added_states|apply states_only_upd].
  - by rewrite H0, (proj2 (Z.ltb_lt _ _) Hlt).
  - intros k. rewrite H0. simpl. case_decide; [|done]. subst. by rewrite Hl.
Qed.

(** It would, but the running task has the scheduler locked. *)
Lemma added_pending :
  0 < lockcount xr → sched_priority xr < sched_priority xa → a ≠ r →
  added t a r xr xa false (set_state TSTATE_TASK_PENDING a
    (set_list g_pendingtasks (prio_insert (tasks t) a (lists t g_pendingtasks)) t)).
Proof using Hc Hrun Ha Hn Hi Hl.
  intros H0 Hlt Har. split.
  - by eapply core_insert.
  - intros b z (z1 & Hz & ->)%lookup_set_state. simpl in *.
    specialize (Hrun b z1 Hz). rewrite Hl in *. simpl in Hrun. case_decide; simpl; naive_solver.
  - apply added_states.
  - by rewrite (proj2 (Z.eqb_neq (lockcount xr) 0)) by lia.
  - intros k. rewrite (proj2 (Z.ltb_lt 0 (lockcount xr))), (proj2 (Z.ltb_lt _ _) Hlt) by lia.
    simpl. by case_decide; subst.
Qed.

(** It does not. *)
Lemma added_mid :
  sched_priority xa ≤ sched_priority xr → a ≠ r →
  added t a r xr xa false (set_state TSTATE_TASK_READYTORUN a
    (set_list g_readytorun (r :: prio_insert (tasks t) a l) t)).
Proof using Hc Hrun Ha Hn Hi Hl Hr.
  intros Hge Har.
  assert (prio_insert (tasks t) a (r :: l) = r :: prio_insert (tasks t) a l) as Hins.
  { simpl. rewrite (prio_lookup _ _ _ Hr), (prio_lookup _ _ _ Ha). by rewrite (proj2 (Z.leb_le _ _) Hge). }
  split.
  - rewrite <- Hins, <- Hl. by eapply core_insert.
  - intros b z (z1 & Hz & ->)%lookup_set_state. simpl in *.
    specialize (Hrun b z1 Hz). rewrite Hl in Hrun. simpl in Hrun. case_decide; simpl; naive_solver.
  - apply added_states.
  - by rewrite (proj2 (Z.ltb_ge _ _) Hge), andb_false_r.
  - intros k. rewrite (proj2 (Z.ltb_ge _ _) Hge), andb_false_r. simpl. case_decide; [|done]. subst. by rewrite Hl.
Qed.
End added.

Lemma addreadytorun_ok t a xa :
  core t → running_ok t → tasks t !! a = Some xa → task_state xa = TSTATE_TASK_INVALID →
  a ≠ idle →
  ∃ r l xr b t', lists t g_readytorun = r :: l ∧ tasks t !! r = Some xr ∧
    sched_addreadytorun a t = Some (b, t') ∧ added t a r xr xa b t'.
Proof.
  intros Hc Hrun Ha Hst Hi. destruct (ready_head t Hc) as (r & l & xr & Hl & Hr & _).
  assert (TLIST_BLOCKED (task_state xa) = None) as Hn by (by rewrite Hst).
  pose proof (sc_unlisted _ _ _ _ Hc Ha Hn) as Hno.
  assert (SCHED_PRIORITY_MIN ≤ sched_priority xa) as Hmin by apply (sc_prio _ _ Hc a xa Ha Hi).
  pose proof (sc_lock _ _ Hc r xr Hr) as Hlk.
  assert (a ≠ r) as Har by (intros ->; destruct (Hno g_readytorun); rewrite Hl; set_solver).
  exists r, l, xr. destruct (Z.ltb_spec (sched_priority xr) (sched_priority xa)) as [Hlt|Hge];
    [destruct (decide (lockcount xr = 0)) as [H0|H0]|]; do 2 eexists; (split; [done|]); (split; [done|]).
  - split; [by eapply addreadytorun_head|by apply added_head].
  - split; [eapply addreadytorun_pending; (done || lia)|eapply added_pending; (done || lia)].
  - split; [by eapply addreadytorun_mid|by apply added_mid].
Qed.

(** *** sched_mergepending *)

(** States that agree on the tasks and on every list. *)
Definition same_sched t t' : Prop := tasks t' = tasks t ∧ ∀ k, lists t' k = lists t k.

Lemma core_proper t t' : same_sched t t' → core t → core t'.
Proof.
  intros [HT HL] Hc. split.
  - intros a k. rewrite HL, HT. apply Hc.
  - intros k. rewrite HL. apply Hc.
  - intros k. rewrite HL, HT. apply Hc.
  - rewrite HL. apply Hc.
  - rewrite HT. apply Hc.
  - rewrite HT. apply Hc.
  - rewrite HT. apply Hc.
Qed.

Lemma running_proper t t' : same_sched t t' → running_ok t → running_ok t'.
Proof. intros [HT HL] Hr a x. rewrite HL, HT. apply Hr. Qed.

(** The state after one pending task [a] has been moved. *)
Definition merged_one t (ps : list addr) (T : taskmap) (l : list addr) : lsched :=
  set_list g_pendingtasks ps (set_list g_readytorun l (mk_ls T (lists t))).

Lemma alter_state_twice (T : taskmap) st st' a :
  alter (set_task_state st) a (alter (set_task_state st') a T) = alter (set_task_state st) a T.
Proof. rewrite alter_alter_eq. by apply alter_ext. Qed.

(** A task that leaves the pending list for the ready-to-run list. *)
Lemma core_pending t a ps st :
  core t → lists t g_pendingtasks = a :: ps → TLIST_BLOCKED st = Some g_readytorun →
  core (merged_one t ps (alter (set_task_state st) a (tasks t))
          (prio_insert (tasks t) a (lists t g_readytorun))).
Proof.
  intros Hc Hp Hst. assert (a ∈ lists t g_pendingtasks) as Ha by (rewrite Hp; set_solver).
  destruct (sc_lookup _ _ _ _ Hc Ha) as (x & Hx & _).
  pose proof (sc_idle_listed _ _ _ _ Hc Ha ltac:(done)) as Hi.
  pose proof (core_remove idle t g_pendingtasks [] a ps Hc Hp Hi) as Hc1.
  set (t1 := set_state _ _ _) in Hc1.
  assert (tasks t1 !! a = Some (set_task_state TSTATE_TASK_INVALID x)) as Hx1.
  { unfold t1. rewrite (lookup_state _ _ _ _ x); [by case_decide|done]. }
  pose proof (core_insert idle t1 g_readytorun a _ st Hc1 Hx1 eq_refl Hi Hst eq_refl) as Hc2.
  eapply core_proper; [|exact Hc2]. split.
  - unfold t1. simpl. by rewrite alter_state_twice.
  - intros k. unfold t1, merged_one. simpl. repeat case_decide; subst; try done.
    apply prio_insert_ext. intros b. by rewrite prio_alter.
Qed.

Lemma merge_step t a ps :
  core t → running_ok t → lists t g_pendingtasks = a :: ps →
  ∃ h T', ls_merge_one a (tasks t) (lists t g_readytorun) =
            Some (h, T', prio_insert (tasks t) a (lists t g_readytorun)) ∧
    core (merged_one t ps T' (prio_insert (tasks t) a (lists t g_readytorun))) ∧
    running_ok (merged_one t ps T' (prio_insert (tasks t) a (lists t g_readytorun))) ∧
    states_only t (mk_ls T' (lists t)).
Proof.
  intros Hc Hrun Hp. assert (a ∈ lists t g_pendingtasks) as Ha by (rewrite Hp; set_solver).
  destruct (sc_lookup _ _ _ _ Hc Ha) as (x & Hx & Hxk).
  pose proof (sc_idle_listed _ _ _ _ Hc Ha ltac:(done)) as Hi.
  pose proof (sc_prio _ _ Hc a x Hx Hi) as Hpx.
  assert (a ∉ lists t g_readytorun) as Har.
  { intros Har. by pose proof (sc_disjoint _ _ _ _ _ Hc Ha Har). }
  destruct (prio_split (tasks t) a (lists t g_readytorun))
    as [Hall|(l1 & r & l2 & Hl & Hall & Hlt)].
  { destruct (sc_idle _ _ Hc) as (l & Hl & _). rewrite Hl in Hall.
    apply Forall_app in Hall as [_ Hall]. apply Forall_cons in Hall as [Hall _].
    simpl in Hall. rewrite (sc_idle_prio _ _ Hc), (prio_lookup _ _ _ Hx) in Hall. lia. }
  destruct (sc_lookup idle t r g_readytorun Hc) as (y & Hy & Hyk); [rewrite Hl; set_solver|].
  assert (a ≠ r) as Hne by (rewrite Hl in Har; set_solver).
  assert (prio_insert (tasks t) a (lists t g_readytorun) = l1 ++ a :: r :: l2) as Hins
    by (by rewrite Hl, prio_insert_before).
  pose proof (ls_merge_one_before a (tasks t) l1 r l2 x y Hx Hy) as Hone.
  rewrite <- Hl, <- Hins in Hone.
  do 2 eexists. split; [apply Hone; [rewrite Hl in Har; set_solver|done|done]|]. clear Hone.
  destruct l1 as [|c l1]; case_bool_decide; try done.
  - rewrite (alter_insert_Some (set_task_state TSTATE_TASK_READYTORUN) _ _ _ Hy).
    rewrite (alter_insert_Some (set_task_state TSTATE_TASK_RUNNING)
      (alter _ r (tasks t)) a x) by (by rewrite lookup_alter_ne).
    rewrite alter_alter_ne by done.
    pose proof (core_pending t a ps TSTATE_TASK_RUNNING Hc Hp eq_refl) as Hc1.
    split; [|split].
    + eapply core_proper; [|apply (core_upd idle _ (set_task_state TSTATE_TASK_READYTORUN) r Hc1)].
      * by split.
      * intros z. simpl. rewrite lookup_alter_ne, Hy by done. intros [= <-].
        split; [done|]. split; [done|]. by apply (sc_lock _ _ Hc r y).
    + intros b z. rewrite Hins. simpl. rewrite lookup_alter_Some.
      intros [(-> & z1 & Hz & ->)|[Hb Hz]]; [naive_solver|].
      apply lookup_alter_Some in Hz as [(-> & z1 & Hz & ->)|[Hb' Hz]]; [naive_solver|].
      specialize (Hrun b z Hz). rewrite Hl in Hrun. simpl in Hrun. naive_solver.
    + eapply states_only_trans; [apply (states_only_upd t TSTATE_TASK_RUNNING a)|].
      apply (states_only_upd (set_state TSTATE_TASK_RUNNING a t)).
  - rewrite (alter_insert_Some (set_task_state TSTATE_TASK_READYTORUN) _ _ _ Hx).
    split; [by apply core_pending|]. split.
    + intros b z. rewrite Hins. simpl. rewrite lookup_alter_Some.
      intros [(-> & z1 & Hz & ->)|[Hb Hz]]; [simpl; rewrite Hl in Har; set_solver|].
      specialize (Hrun b z Hz). rewrite Hl in Hrun. simpl in Hrun. naive_solver.
    + apply (states_only_upd t TSTATE_TASK_READYTORUN a).
Qed.

(** The ready-to-run list after a merge: the pending tasks inserted in order. *)
Definition prio_merge (T : taskmap) (ps l : list addr) : list addr :=
  foldl (λ l a, prio_insert T a l) l ps.

Lemma prio_merge_ext T T' ps l :
  (∀ b, prio T b = prio T' b) → prio_merge T ps l = prio_merge T' ps l.
Proof.
  intros Hp. unfold prio_merge. revert l. induction ps as [|a ps IH]; intros l; simpl; [done|].
  by rewrite (prio_insert_ext T T') by done.
Qed.

Lemma merge_ok t ps ret :
  core t → running_ok t → lists t g_pendingtasks = ps →
  ∃ ret' T', ls_merge ps ret (tasks t) (lists t g_readytorun) =
      Some (ret', T', prio_merge (tasks t) ps (lists t g_readytorun)) ∧
    core (merged_one t [] T' (prio_merge (tasks t) ps (lists t g_readytorun))) ∧
    running_ok (merged_one t [] T' (prio_merge (tasks t) ps (lists t g_readytorun))) ∧
    states_only t (mk_ls T' (lists t)).
Proof.
  revert t ret. induction ps as [|a ps IH]; intros t ret Hc Hrun Hp; simpl.
  - exists ret, (tasks t). split; [done|]. 
    assert (same_sched t (merged_one t [] (tasks t) (lists t g_readytorun))) as Hs.
    { split; [done|]. intros k. unfold merged_one. simpl. by repeat case_decide; subst. }
    split; [by eapply core_proper|]. split; [by eapply running_proper|done].
  - destruct (merge_step t a ps Hc Hrun Hp) as (h & T1 & -> & Hc1 & Hr1 & Hs1). simpl.
    set (t1 := merged_one t ps T1 _) in Hc1, Hr1.
    destruct (IH t1 (h || ret) Hc1 Hr1 eq_refl) as (ret' & T2 & Hrun2 & Hc2 & Hr2 & Hs2).
    assert (∀ b, prio T1 b = prio (tasks t) b) as Hprio.
    { intros b. by apply (states_only_prio t (mk_ls T1 (lists t))). }
    simpl in Hrun2. exists ret', T2. rewrite Hrun2. unfold t1. simpl.
    rewrite (prio_merge_ext T1 (tasks t)) by done. split; [done|].
    assert (same_sched
      (merged_one t1 [] T2 (prio_merge (tasks t1) ps (lists t1 g_readytorun)))
      (merged_one t [] T2 (prio_merge (tasks t) ps (prio_insert (tasks t) a (lists t g_readytorun)))))
      as Hsame.
    { split; [done|]. intros k. unfold merged_one, t1. simpl.
      repeat case_decide; subst; try done. symmetry. by apply prio_merge_ext. }
    split; [by eapply core_proper|]. split; [by eapply running_proper|].
    by eapply states_only_trans.
Qed.

(** *** What scheduling leaves alone *)

(** All fields but the state, the time slice and the priority. *)
Definition td_keep (x : tcb_data) :=
  (pid x, policy x, lockcount x, waitdog x, waitsem x, msgwaitq x, pterrno x).
Definition td_keep_prio (x : tcb_data) := (td_keep x, sched_priority x).

(** The tasks are those of [T], but for states and time slices. *)
Definition frame (T : taskmap) t' : Prop := td_keep_prio <$> tasks t' = td_keep_prio <$> T.

Lemma states_only_frame t t' : states_only t t' → frame (tasks t) t'.
Proof.
  unfold states_only, frame. intros Hs. apply map_eq. intros a. apply (f_equal (.!! a)) in Hs.
  rewrite !lookup_fmap in *. destruct (tasks t' !! a) as [y|], (tasks t !! a) as [x|];
    simpl in *; try done. injection Hs as ? ? ? ? ? ? ? ? ?.
  unfold td_keep_prio, td_keep. do 2 f_equal; congruence.
Qed.

Lemma frame_trans T t1 t2 : frame T t1 → frame (tasks t1) t2 → frame T t2.
Proof. unfold frame. congruence. Qed.

Lemma frame_lookup T t' a x : frame T t' → T !! a = Some x →
  ∃ y, tasks t' !! a = Some y ∧ td_keep_prio y = td_keep_prio x.
Proof.
  intros Hf Hx. apply (f_equal (.!! a)) in Hf. rewrite !lookup_fmap, Hx in Hf. simpl in Hf.
  destruct (tasks t' !! a) as [y|]; [|done]. simpl in Hf. exists y. split; [done|congruence].
Qed.

Lemma frame_dom T t' : frame T t' → dom (tasks t') = dom T.
Proof. intros Hf. by rewrite <- (dom_fmap_L td_keep_prio (tasks t')), Hf, dom_fmap_L. Qed.

Lemma frame_upd T t f a :
  frame T t → (∀ x, td_keep_prio (f x) = td_keep_prio x) → frame T (upd f a t).
Proof.
  intros Hf Hk. unfold frame in *. rewrite <- Hf. apply map_eq. intros b. simpl.
  rewrite !lookup_fmap. destruct (decide (a = b)) as [->|]; [|by rewrite lookup_alter_ne].
  rewrite lookup_alter_eq. destruct (tasks t !! b); simpl; [by rewrite Hk|done].
Qed.

(** *** Switching *)

Lemma upd_fields_ok t f a :
  core t → running_ok t → is_Some (tasks t !! a) →
  (∀ x, task_state (f x) = task_state x ∧ td_keep_prio (f x) = td_keep_prio x) →
  core (upd f a t) ∧ running_ok (upd f a t) ∧ frame (tasks t) (upd f a t).
Proof.
  intros Hc Hr _ Hf. split; [|split].
  - apply core_upd; [done|]. intros x Hx. destruct (Hf x) as [Hst Hk].
    unfold td_keep_prio, td_keep in Hk. injection Hk as _ _ Hlk _ _ _ _ Hp.
    rewrite Hst, Hp, Hlk. split; [done|]. split; [done|]. by apply (sc_lock _ _ Hc a x).
  - intros b y. simpl. rewrite lookup_alter_Some. intros [(-> & x & Hx & ->)|[_ Hy]].
    + rewrite (proj1 (Hf x)). by apply Hr.
    + by apply Hr.
  - apply frame_upd; [done|]. intros x. apply Hf.
Qed.

Lemma resume_ok t a :
  core t → running_ok t → is_Some (tasks t !! a) →
  ∃ t', sched_resume_scheduler a t = Some (tt, t') ∧ core t' ∧ running_ok t' ∧
        frame (tasks t) t' ∧ ∀ k, lists t' k = lists t k.
Proof.
  intros Hc Hr Ha. unfold sched_resume_scheduler, kwhen. destruct (0 <? CONFIG_RR_INTERVAL).
  - rewrite ls_set by done. eexists. split; [done|].
    destruct (upd_fields_ok t (set_timeslice (s32 (MSEC2TICK CONFIG_RR_INTERVAL))) a Hc Hr Ha)
      as (? & ? & ?); done.
  - by eexists.
Qed.

Lemma up_switch_ok t b :
  core t → running_ok t →
  ∃ t', up_switch b t = Some (b, t') ∧ core t' ∧ running_ok t' ∧ frame (tasks t) t' ∧
        ∀ k, lists t' k = lists t k.
Proof.
  intros Hc Hr. unfold up_switch. destruct b.
  - destruct (ready_head t Hc) as (r & l & xr & Hl & Hxr & _).
    destruct (resume_ok t r Hc Hr) as (t' & Hrun & Hok); [by eexists|].
    exists t'. split; [|done]. erewrite K_bind_Some; [reflexivity|].
    by rewrite (K_bind_Some _ _ _ _ _ (ls_this_task _ _ _ Hl)).
  - by exists t.
Qed.

Lemma mergepending_ok t :
  core t → running_ok t →
  ∃ b t', list_mergepending t = Some (b, t') ∧ core t' ∧ running_ok t' ∧
    states_only t t' ∧
    ∀ k, lists t' k = if decide (k = g_pendingtasks) then []
           else if decide (k = g_readytorun)
                then prio_merge (tasks t) (lists t g_pendingtasks) (lists t g_readytorun)
                else lists t k.
Proof.
  intros Hc Hr.
  destruct (merge_ok t (lists t g_pendingtasks) false Hc Hr eq_refl)
    as (ret & T' & Hm & Hc' & Hr' & Hs).
  exists ret, (merged_one t [] T'
    (prio_merge (tasks t) (lists t g_pendingtasks) (lists t g_readytorun))).
  split; [|done]. unfold list_mergepending. simpl. unfold ls_mergepending.
  rewrite (sc_sorted _ _ Hc g_pendingtasks) by done. rewrite Hm. done.
Qed.

Lemma merge_if_pending_ok t :
  core t → running_ok t →
  ∃ b t', merge_if_pending t = Some (b, t') ∧ core t' ∧ running_ok t' ∧ states_only t t' ∧
    ∀ k, lists t' k = if decide (k = g_pendingtasks) then []
           else if decide (k = g_readytorun)
                then prio_merge (tasks t) (lists t g_pendingtasks) (lists t g_readytorun)
                else lists t k.
Proof.
  intros Hc Hr. unfold merge_if_pending. rewrite (K_bind_Some _ _ _ _ _ (ls_head _ _)).
  destruct (lists t g_pendingtasks) as [|p ps] eqn:Hp; simpl.
  - exists false, t. split; [done|].
    split; [done|]. split; [done|]. split; [done|]. intros k.
    repeat case_decide; by subst.
  - destruct (mergepending_ok t Hc Hr) as (b & t' & Hrun & Hok). rewrite Hp in Hok. eauto.
Qed.

(** With no pending task, there is nothing to say about the lock. *)
Lemma lock_ok_nil t : lists t g_pendingtasks = [] → lock_ok t.
Proof. intros Hp Hne. by destruct Hne. Qed.
End ops.
