(* ===== verification/SchedOps.v ===== *)
(** * SchedOps: the scheduler interface keeps the invariant

    Blocking, unblocking, locking, unlocking and reprioritizing tasks, on the
    lists of SchedSpec.v: each returns, from any state of the invariant of
    SchedInv.v to one. *)

From S2P Require Import Prelude Queue QueueRefine Sched SchedSpec SchedInv.
Local Open Scope Z_scope.

#[global] Arguments sched_removereadytorun : simpl never.
#[global] Arguments sched_addreadytorun : simpl never.
#[global] Arguments merge_if_pending : simpl never.
#[global] Arguments up_switch : simpl never.
#[global] Arguments prio_merge : simpl never.

Section block.
Context `{Config} (idle : addr).
Implicit Types (t : lsched) (a : addr).
Abbreviation core := (sched_core idle).
Abbreviation inv := (sched_inv idle).

(** Where [sched_addblocked] puts a task. *)
(** The blocked tasks are on the same lists. *)
Definition blocked_same (t t' : lsched) : Prop :=
  ∀ k, k ≠ g_readytorun → k ≠ g_pendingtasks → lists t' k ≡ₚ lists t k.

Definition blocked_insert (T : taskmap) (a : addr) (st : tstate_t) (l : list addr) : list addr :=
  if TLIST_ISPRIORITIZED st then prio_insert T a l else l ++ [a].

Lemma prioritized_state st k :
  TLIST_BLOCKED st = Some k → TLIST_ISPRIORITIZED st = prioritized k.
Proof. destruct st; simpl; intros [= <-]; done. Qed.

Lemma addblocked_ok t a x st k :
  core t → running_ok t → tasks t !! a = Some x → task_state x = TSTATE_TASK_INVALID →
  a ≠ idle → is_blocked_state st = true → TLIST_BLOCKED st = Some k →
  ∃ t', sched_addblocked a st t = Some (tt, t') ∧ core t' ∧ running_ok t' ∧
    states_only t t' ∧
    ∀ k', lists t' k' = if decide (k' = k) then blocked_insert (tasks t) a st (lists t k)
                        else lists t k'.
Proof.
  intros Hc Hr Hx Hst Hi Hb Hk.
  assert (TLIST_BLOCKED (task_state x) = None) as Hn by (by rewrite Hst).
  pose proof (sc_unlisted _ _ _ _ Hc Hx Hn) as Hno.
  assert (k ≠ g_readytorun) as Hkr by (intros ->; destruct st; done).
  assert (SCHED_PRIORITY_MIN ≤ sched_priority x) as Hmin by apply (sc_prio _ _ Hc a x Hx Hi).
  exists (set_state st a (set_list k (blocked_insert (tasks t) a st (lists t k)) t)).
  split; [|split; [|split; [|split]]].
  - unfold sched_addblocked. krun ls_assert. krun ls_lift. unfold blocked_insert.
    destruct (TLIST_ISPRIORITIZED st).
    + erewrite K_bind_Some; cbv beta.
      2: { krun ls_addprioritized. reflexivity. }
      by rewrite ls_set by (by eexists).
    + krun ls_addlast. by rewrite ls_set by (by eexists).
  - unfold blocked_insert. rewrite (prioritized_state _ _ Hk).
    destruct (prioritized k) eqn:Hp; [by eapply core_insert|by eapply core_addlast].
  - intros b y (z & Hz & ->)%lookup_set_state. simpl in Hz. specialize (Hr b z Hz).
    simpl. rewrite (decide_False (P := g_readytorun = k)) by congruence. case_decide; [|done]. subst. simpl.
    assert (z = x) as -> by congruence.
    split; [intros ->; done|]. intros Hh. apply Hr in Hh. congruence.
  - apply states_only_trans with (t2 := set_list k (blocked_insert (tasks t) a st (lists t k)) t);
      [done|apply states_only_upd].
  - intros k'. done.
Qed.

Lemma removeblocked_ok t a x k :
  core t → running_ok t → tasks t !! a = Some x → is_blocked_state (task_state x) = true →
  TLIST_BLOCKED (task_state x) = Some k →
  ∃ l1 l2 t', lists t k = l1 ++ a :: l2 ∧ sched_removeblocked a t = Some (tt, t') ∧
    core t' ∧ running_ok t' ∧ states_only t t' ∧
    tasks t' !! a = Some (set_task_state TSTATE_TASK_INVALID x) ∧
    ∀ k', lists t' k' = if decide (k' = k) then l1 ++ l2 else lists t k'.
Proof.
  intros Hc Hr Hx Hb Hk.
  assert (k ≠ g_readytorun) as Hkr by (intros ->; destruct (task_state x); done).
  assert (a ∈ lists t k) as Ha by (apply (sc_listed _ _ Hc); eauto).
  pose proof (sc_idle_listed _ _ _ _ Hc Ha Hkr) as Hi.
  pose proof (sc_nodup _ _ Hc k) as Hnd.
  destruct (list_elem_of_split_l _ _ Ha) as (l1 & l2 & Hl & Hn).
  exists l1, l2, (set_state TSTATE_TASK_INVALID a (set_list k (l1 ++ l2) t)).
  split; [done|]. split; [|split; [|split; [|split; [|split]]]].
  - unfold sched_removeblocked. krun ls_get. krun ls_assert. krun ls_lift. krun ls_rem.
    by rewrite ls_set by (by eexists).
  - by apply core_remove.
  - intros b y (z & Hz & ->)%lookup_set_state. simpl in Hz. specialize (Hr b z Hz).
    simpl. rewrite (decide_False (P := g_readytorun = k)) by congruence. case_decide; [|done]. subst. simpl.
    assert (z = x) as -> by congruence.
    split; [done|]. intros Hh. apply Hr in Hh. rewrite Hh in Hb. done.
  - apply states_only_trans with (t2 := set_list k (l1 ++ l2) t); [done|apply states_only_upd].
  - rewrite (lookup_state _ _ _ _ x); [by case_decide|done].
  - intros k'. done.
Qed.

(** *** up_block_task *)

(** The running task blocks: it goes to the list of its new state, the pending
    tasks become ready, and the next task runs. *)
Lemma up_block_task_ok t r l x st k :
  inv t → lists t g_readytorun = r :: l → tasks t !! r = Some x → r ≠ idle →
  is_blocked_state st = true → TLIST_BLOCKED st = Some k →
  ∃ t', up_block_task r st t = Some (true, t') ∧ inv t' ∧ frame (tasks t) t' ∧
    lists t' g_pendingtasks = [] ∧
    lists t' g_readytorun = prio_merge (tasks t) (lists t g_pendingtasks) l ∧
    lists t' k = blocked_insert (tasks t) r st (lists t k) ∧
    ∀ k', k' ≠ g_pendingtasks → k' ≠ g_readytorun → k' ≠ k → lists t' k' = lists t k'.
Proof.
  intros [Hc Hr _] Hl Hx Hi Hb Hk.
  assert (k ≠ g_readytorun ∧ k ≠ g_pendingtasks) as [Hkr Hkp].
  { destruct st; simpl in *; naive_solver. }
  assert (task_state x = TSTATE_TASK_RUNNING) as Hst by (apply (Hr r x Hx); by rewrite Hl).
  destruct (removereadytorun_ok idle t r Hc Hr) as (l1 & l2 & b & t1 & Hl1 & _ & Hrun1 & []);
    [rewrite Hl; set_solver|done|].
  assert (l1 = [] ∧ l2 = l) as [-> ->].
  { pose proof (sc_nodup _ _ Hc g_readytorun) as Hnd. rewrite Hl1 in Hl, Hnd.
    destruct l1 as [|c l1]; [by injection Hl|]. injection Hl as -> _. simpl in Hnd.
    nodup_facts. set_solver. }
  specialize (rm_task x Hx).
  assert (tasks t1 !! r = Some (set_task_state TSTATE_TASK_INVALID x)) as Hx1 by done.
  destruct (addblocked_ok t1 r _ st k rm_core rm_running Hx1 eq_refl Hi Hb Hk)
    as (t2 & Hrun2 & Hc2 & Hr2 & Hs2 & Hl2).
  destruct (merge_if_pending_ok idle t2 Hc2 Hr2) as (m & t3 & Hrun3 & Hc3 & Hr3 & Hs3 & Hl3).
  destruct (up_switch_ok idle t3 true Hc3 Hr3) as (t4 & Hrun4 & Hc4 & Hr4 & Hf4 & Hl4).
  exists t4. split.
  { unfold up_block_task. krun ls_get. rewrite Hst. krun ls_assert.
    rewrite (K_bind_Some _ _ _ _ _ Hrun1), (K_bind_Some _ _ _ _ _ Hrun2).
    rewrite (K_bind_Some _ _ _ _ _ Hrun3), rm_head. exact Hrun4. }
  assert (∀ b, prio (tasks t1) b = prio (tasks t) b) as Hp1.
  { intros c. by apply states_only_prio. }
  assert (∀ b, prio (tasks t2) b = prio (tasks t) b) as Hp2.
  { intros c. rewrite (states_only_prio t1); done. }
  assert (lists t4 g_pendingtasks = []) as Hpend by (by rewrite Hl4, Hl3).
  split; [split; [done|done|by apply lock_ok_nil]|]. split.
  { eapply frame_trans; [|exact Hf4]. apply states_only_frame.
    eapply states_only_trans; [exact rm_states|]. by eapply states_only_trans. }
  split; [done|]. split; [|split].
  - rewrite Hl4, Hl3, !decide_False, decide_True by done.
    rewrite Hl2, Hl2, !decide_False by done.
    rewrite !rm_lists. simpl. by apply prio_merge_ext.
  - rewrite Hl4, Hl3, !decide_False by done. rewrite Hl2, decide_True by done.
    rewrite rm_lists, decide_False by done. unfold blocked_insert.
    destruct (TLIST_ISPRIORITIZED st); [|done]. by apply prio_insert_ext.
  - intros k' H1 H2 H3. by rewrite Hl4, Hl3, !decide_False, Hl2, decide_False, rm_lists,
      decide_False by done.
Qed.

(** *** up_unblock_task *)

(** Whether a task of priority [p] has to wait for the running task [xr] to
    unlock the scheduler. *)
Definition must_wait (xr : tcb_data) (p : Z) : bool :=
  (0 <? lockcount xr) && (sched_priority xr <? p).

Lemma added_lock_ok t a r l xr xa b t' :
  core t → lock_ok t → lists t g_readytorun = r :: l → tasks t !! r = Some xr →
  added idle t a r xr xa b t' → tasks t !! a = Some xa → lock_ok t'.
Proof.
  intros Hc Hlk Hl Hr [Hc' _ Hs _ Hlists] Ha Hne.
  destruct (states_only_lookup _ _ _ _ Hs Hr) as (st & Hr').
  pose proof (sc_lock _ _ Hc r xr Hr) as Hge.
  assert (0 < lockcount xr) as Hlock.
  { rewrite Hlists in Hne.
    destruct ((0 <? lockcount xr) && (sched_priority xr <? sched_priority xa)) eqn:Hw.
    - apply andb_true_iff in Hw as [Hw%Z.ltb_lt _]. done.
    - rewrite decide_False in Hne by done.
      destruct (Hlk Hne) as (r' & l' & x' & Hl' & Hx' & Hpos). rewrite Hl in Hl'.
      injection Hl' as <- <-. congruence. }
  exists r. rewrite (proj2 (Z.ltb_lt _ _) Hlock) in Hlists. simpl in Hlists.
  destruct (Z.ltb_spec (sched_priority xr) (sched_priority xa)) as [Hlt|Hle].
  - exists l, (set_task_state st xr). rewrite Hlists, decide_False by done. done.
  - exists (prio_insert (tasks t) a l), (set_task_state st xr).
    rewrite Hlists, decide_True, Hl by done. simpl.
    rewrite (prio_lookup _ _ _ Hr), (prio_lookup _ _ _ Ha), (proj2 (Z.leb_le _ _) Hle). done.
Qed.

Lemma up_unblock_task_ok t a x k :
  inv t → tasks t !! a = Some x → is_blocked_state (task_state x) = true →
  TLIST_BLOCKED (task_state x) = Some k →
  ∃ r l xr l1 l2 t', lists t g_readytorun = r :: l ∧ tasks t !! r = Some xr ∧
    lists t k = l1 ++ a :: l2 ∧
    up_unblock_task a t =
      Some ((lockcount xr =? 0) && (sched_priority xr <? sched_priority x), t') ∧
    inv t' ∧ frame (tasks t) t' ∧
    ∀ k', lists t' k' =
      if decide (k' = k) then l1 ++ l2
      else if decide (k' = if must_wait xr (sched_priority x)
                           then g_pendingtasks else g_readytorun)
           then prio_insert (tasks t) a (lists t k') else lists t k'.
Proof.
  intros [Hc Hr Hlk] Hx Hb Hk.
  assert (k ≠ g_readytorun ∧ k ≠ g_pendingtasks) as [Hkr Hkp].
  { destruct (task_state x); simpl in *; naive_solver. }
  assert (a ≠ idle) as Hi.
  { eapply (sc_idle_listed _ _ _ k Hc); [|done]. apply (sc_listed _ _ Hc). eauto. }
  destruct (removeblocked_ok t a x k Hc Hr Hx Hb Hk)
    as (l1 & l2 & t1 & Hl & Hrun1 & Hc1 & Hr1 & Hs1 & Hx1 & Hl1).
  destruct (addreadytorun_ok idle t1 a _ Hc1 Hr1 Hx1 eq_refl Hi)
    as (r & l & xr1 & b & t2 & Hlr & Hxr1 & Hrun2 & Hadd).
  rewrite Hl1, decide_False in Hlr by done.
  destruct (sc_lookup idle t r g_readytorun Hc) as (xr & Hxr & _); [rewrite Hlr; set_solver|].
  destruct (states_only_lookup _ _ _ _ Hs1 Hxr) as (st & Hxr').
  assert (xr1 = set_task_state st xr) as -> by congruence.
  assert (lock_ok t1) as Hlk1.
  { intros Hne. rewrite Hl1, decide_False in Hne by done.
    destruct (Hlk Hne) as (r' & l' & x' & Hl' & Hx' & Hpos).
    destruct (states_only_lookup _ _ _ _ Hs1 Hx') as (st' & Hx1').
    exists r', l', (set_task_state st' x'). by rewrite Hl1, decide_False. }
  pose proof (added_lock_ok t1 a r l _ _ b t2 Hc1 Hlk1 ltac:(by rewrite Hl1, decide_False)
    Hxr1 Hadd Hx1) as Hlk2.
  destruct Hadd as [Hc2 Hr2 Hs2 Hb2 Hl2]. simpl in Hb2, Hl2.
  destruct (up_switch_ok idle t2 b Hc2 Hr2) as (t3 & Hrun3 & Hc3 & Hr3 & Hf3 & Hl3).
  exists r, l, xr, l1, l2, t3. split; [done|]. split; [done|]. split; [done|].
  rewrite <- Hb2. split.
  { unfold up_unblock_task. krun ls_get. krun ls_assert.
    rewrite (K_bind_Some _ _ _ _ _ Hrun1), (K_bind_Some _ _ _ _ _ Hrun2). exact Hrun3. }
  split; [split; [done|done|]|split].
  - intros Hne. rewrite Hl3 in Hne. destruct (Hlk2 Hne) as (r' & l' & x' & Hl' & Hx' & Hpos).
    destruct (frame_lookup _ _ _ _ Hf3 Hx') as (y & Hy & Hk').
    unfold td_keep_prio, td_keep in Hk'. exists r', l', y. rewrite Hl3.
    split; [done|]. split; [done|]. replace (lockcount y) with (lockcount x') by congruence. done.
  - eapply frame_trans; [|exact Hf3]. apply states_only_frame. by eapply states_only_trans.
  - intros k'. rewrite Hl3, Hl2, !Hl1. unfold must_wait.
    destruct (decide (k' = k)) as [->|].
    + rewrite decide_False; [done|]. by case_match.
    + case_decide; [|done]. apply prio_insert_ext. intros c. by apply states_only_prio.
Qed.

(** *** up_release_pending *)

Lemma up_release_pending_ok t :
  core t → running_ok t →
  ∃ b t', up_release_pending t = Some (b, t') ∧ inv t' ∧ frame (tasks t) t' ∧
    lists t' g_pendingtasks = [] ∧
    lists t' g_readytorun =
      prio_merge (tasks t) (lists t g_pendingtasks) (lists t g_readytorun) ∧
    ∀ k, k ≠ g_pendingtasks → k ≠ g_readytorun → lists t' k = lists t k.
Proof.
  intros Hc Hr. destruct (mergepending_ok idle t Hc Hr) as (b & t1 & Hrun1 & Hc1 & Hr1 & Hs1 & Hl1).
  destruct (up_switch_ok idle t1 b Hc1 Hr1) as (t2 & Hrun2 & Hc2 & Hr2 & Hf2 & Hl2).
  exists b, t2. split.
  { unfold up_release_pending. by rewrite (K_bind_Some _ _ _ _ _ Hrun1). }
  split; [split; [done|done|by apply lock_ok_nil; rewrite Hl2, Hl1]|].
  split; [eapply frame_trans; [by apply states_only_frame|done]|].
  rewrite !Hl2, !Hl1. split; [done|]. split; [done|].
  intros k H1 H2. by rewrite Hl2, Hl1, !decide_False.
Qed.

(** *** Priorities *)

Lemma frame_priority T t' p a :
  frame T t' → frame (alter (set_sched_priority p) a T) (upd (set_sched_priority p) a t').
Proof.
  unfold frame. intros Hf. apply map_eq. intros b. apply (f_equal (.!! b)) in Hf.
  rewrite !lookup_fmap in *. simpl.
  destruct (decide (a = b)) as [->|]; [|by rewrite !lookup_alter_ne].
  rewrite !lookup_alter_eq. destruct (tasks t' !! b) as [y|], (T !! b) as [x|];
    simpl in *; try done.
  unfold td_keep_prio, td_keep in *. simpl. do 2 f_equal. by injection Hf as -> -> -> -> -> -> -> _.
Qed.

Lemma running_upd t f a :
  running_ok t → (∀ x, task_state (f x) = task_state x) → running_ok (upd f a t).
Proof.
  intros Hr Hf b y. simpl. rewrite lookup_alter_Some. intros [(-> & x & Hx & ->)|[_ Hy]].
  - rewrite Hf. by apply Hr.
  - by apply Hr.
Qed.

(** Tasks that keep their lock counts keep [lock_ok]. *)
Lemma lock_ok_head t t' T r l :
  lock_ok t → frame T t' → lists t g_readytorun = r :: l →
  (∀ x, tasks t !! r = Some x → ∃ y, T !! r = Some y ∧ lockcount y = lockcount x) →
  (lists t' g_pendingtasks ≠ [] → lists t g_pendingtasks ≠ []) →
  (∃ l', lists t' g_readytorun = r :: l') → lock_ok t'.
Proof.
  intros Hlk Hf Hl HT Hp (l' & Hl') Hne.
  destruct (Hlk (Hp Hne)) as (r1 & l1 & x & Hl1 & Hx & Hpos). rewrite Hl in Hl1.
  injection Hl1 as <- <-. destruct (HT x Hx) as (y & Hy & Hlock).
  destruct (frame_lookup _ _ _ _ Hf Hy) as (z & Hz & Hk). unfold td_keep_prio, td_keep in Hk.
  exists r, l', z. split; [done|]. split; [done|].
  replace (lockcount z) with (lockcount y) by congruence. lia.
Qed.

Lemma lock_ok_frame t t' T :
  lock_ok t → frame T t' → (∀ a x, tasks t !! a = Some x →
    ∃ y, T !! a = Some y ∧ lockcount y = lockcount x) →
  (∀ k, lists t' k = lists t k) → lock_ok t'.
Proof.
  intros Hlk Hf HT Hl Hne. rewrite Hl in Hne.
  destruct (Hlk Hne) as (r & l & x & Hlr & Hx & Hpos).
  destruct (HT r x Hx) as (y & Hy & Hlock).
  destruct (frame_lookup _ _ _ _ Hf Hy) as (z & Hz & Hk). unfold td_keep_prio, td_keep in Hk.
  exists r, l, z. rewrite Hl. split; [done|]. split; [done|].
  replace (lockcount z) with (lockcount y) by congruence. lia.
Qed.

Lemma alter_priority_lock (T : taskmap) p a b x :
  T !! b = Some x → ∃ y, alter (set_sched_priority p) a T !! b = Some y ∧
                         lockcount y = lockcount x.
Proof.
  intros Hx. destruct (decide (a = b)) as [->|].
  - rewrite lookup_alter_eq, Hx. simpl. eauto.
  - rewrite lookup_alter_ne by done. eauto.
Qed.

Lemma frame_prio T t' b : frame T t' → prio (tasks t') b = prio T b.
Proof.
  intros Hf. apply (f_equal (.!! b)) in Hf. rewrite !lookup_fmap in Hf. unfold prio.
  destruct (tasks t' !! b), (T !! b); simpl in Hf; try done. by injection Hf.
Qed.

(** ** A task that changes its priority

    It is taken off the ready-to-run list ([t1]), gets its priority ([t2]) and is added
    again ([t3]). *)
Section move.
Context (t t1 t3 : lsched) (a r : addr) (x xr : tcb_data) (p : Z).
Context (l1 l2 l : list addr) (b1 b2 : bool).
Abbreviation t2 := (upd (set_sched_priority p) a t1).
Context (Hc : core t) (Hx : tasks t !! a = Some x).
Context (Hl : lists t g_readytorun = l1 ++ a :: l2) (Hrm : removed idle t a l1 l2 b1 t1).
Context (Hlr : lists t2 g_readytorun = r :: l) (Hxr : tasks t2 !! r = Some xr).
Context (Hadd : added idle t2 a r xr
           (set_sched_priority p (set_task_state TSTATE_TASK_INVALID x)) b2 t3).

Lemma move_frame : frame (alter (set_sched_priority p) a (tasks t)) t3.
Proof using Hrm Hadd.
  eapply frame_trans; [apply frame_priority, states_only_frame, (rm_states _ _ _ _ _ _ _ Hrm)|].
  apply states_only_frame, (ad_states _ _ _ _ _ _ _ _ Hadd).
Qed.

Lemma move_lists k : k ≠ g_readytorun → k ≠ g_pendingtasks → lists t3 k = lists t k.
Proof using Hrm Hadd.
  intros Hk1 Hk2. rewrite (ad_lists _ _ _ _ _ _ _ _ Hadd), decide_False by (by case_match).
  simpl. by rewrite (rm_lists _ _ _ _ _ _ _ Hrm), decide_False.
Qed.

(** The rest of the list is what the task is inserted into. *)
Lemma move_rest : l1 ++ l2 = r :: l.
Proof using Hrm Hlr. simpl in Hlr. by rewrite (rm_lists _ _ _ _ _ _ _ Hrm), decide_True in Hlr. Qed.

Lemma move_prio c : c ≠ a → prio (tasks t2) c = prio (tasks t) c.
Proof using Hrm. intros. simpl. rewrite prio_alter_ne by done. by apply states_only_prio, Hrm. Qed.

(** Another task is the head: it stays there if its priority is not lower. *)
Lemma move_behind c l' :
  lists t g_readytorun = c :: l' → c ≠ a → b1 = false ∧ (p ≤ prio (tasks t) c → b2 = false).
Proof using Hl Hrm Hlr Hxr Hadd.
  intros Hlc Hca. pose proof move_rest as Hr. pose proof move_prio as Hpr. rewrite Hl in Hlc.
  destruct l1 as [|c' l1']; simpl in *;
    [by injection Hlc|]. injection Hlc as -> _. injection Hr as -> _.
  rewrite (rm_head _ _ _ _ _ _ _ Hrm). split; [done|]. intros Hle.
  rewrite (ad_head _ _ _ _ _ _ _ _ Hadd). simpl.
  rewrite <- (prio_lookup _ _ _ Hxr), Hpr by done.
  by rewrite (proj2 (Z.ltb_ge _ _) Hle), andb_false_r.
Qed.

(** The head gets a priority that is not above that of the next task. *)
Lemma move_from_head n l' :
  lists t g_readytorun = a :: n :: l' → p ≤ prio (tasks t) n →
  b1 = true ∧ b2 = false ∧ lists t3 g_pendingtasks = lists t g_pendingtasks ∧
  lists t3 g_readytorun = prio_insert (alter (set_sched_priority p) a (tasks t)) a (n :: l').
Proof using Hc Hx Hl Hrm Hlr Hxr Hadd.
  intros Hln Hle. pose proof (sc_nodup _ _ Hc g_readytorun) as Hnd. pose proof move_rest as Hr.
  pose proof (rm_task _ _ _ _ _ _ _ Hrm x Hx) as Hx1. pose proof move_prio as Hpr.
  rewrite Hl in Hln, Hnd. destruct l1 as [|c l1']; simpl in Hln, Hr, Hnd; nodup_facts.
  2: { injection Hln as -> _. set_solver. }
  injection Hln as ->. injection Hr as <- <-. rewrite (rm_head _ _ _ _ _ _ _ Hrm). split; [done|].
  rewrite <- Hpr, (prio_lookup _ _ _ Hxr) in Hle by set_solver.
  pose proof (ad_head _ _ _ _ _ _ _ _ Hadd) as Hb2. pose proof (ad_lists _ _ _ _ _ _ _ _ Hadd) as Hl3.
  simpl in Hb2, Hl3. rewrite (proj2 (Z.ltb_ge _ _) Hle), andb_false_r in Hb2, Hl3.
  split; [done|]. rewrite !Hl3, decide_False, decide_True by done. simpl.
  rewrite !(rm_lists _ _ _ _ _ _ _ Hrm), decide_False, decide_True by done. split; [done|].
  apply (prio_insert_ext _ _ a (n :: l')). intros b. destruct (decide (b = a)) as [->|Hb].
  - unfold prio. by rewrite !lookup_alter_eq, Hx1, Hx.
  - rewrite (prio_alter_ne (tasks t)) by done. by apply Hpr.
Qed.

(** Without a switch the tasks that the lock keeps pending stay so. *)
Lemma move_lock : lock_ok t → core t2 → xorb b1 b2 = false → lock_ok t3.
Proof using Hx Hl Hrm Hlr Hxr Hadd.
  intros Hlk Hc2 Hx0. pose proof move_rest as Hr. pose proof move_frame as Hf3.
  pose proof (rm_task _ _ _ _ _ _ _ Hrm x Hx) as Hx1.
  assert (tasks t2 !! a = Some (set_sched_priority p (set_task_state TSTATE_TASK_INVALID x)))
    as Hx2 by (simpl; by rewrite lookup_alter_eq, Hx1).
  pose proof (rm_lists _ _ _ _ _ _ _ Hrm) as Hl1. pose proof (rm_head _ _ _ _ _ _ _ Hrm) as Hb1.
  destruct l1 as [|c l1'].
  - rewrite bool_decide_eq_true_2 in Hb1 by done. subst b1. destruct b2; [|done].
    pose proof (ad_head _ _ _ _ _ _ _ _ Hadd) as Hb2. pose proof (ad_lists _ _ _ _ _ _ _ _ Hadd) as Hl3.
    symmetry in Hb2. apply andb_true_iff in Hb2 as [H0%Z.eqb_eq Hlt%Z.ltb_lt].
    rewrite H0 in Hl3. simpl in Hl3, Hlt. eapply (lock_ok_head t t3 _ a l2 Hlk Hf3 Hl).
    + intros y Hy. by apply alter_priority_lock.
    + rewrite Hl3, decide_False by done. by rewrite Hl1, decide_False.
    + exists (r :: l). rewrite Hl3, decide_True by done. simpl in *. rewrite Hlr. simpl.
      rewrite (prio_lookup _ _ _ Hx2), (prio_lookup _ _ _ Hxr). simpl.
      by rewrite (proj2 (Z.leb_gt _ _) Hlt).
  - rewrite bool_decide_eq_false_2 in Hb1 by done. subst b1. simpl in Hx0. subst b2.
    assert (lock_ok t2) as Hlk2.
    { eapply (lock_ok_head t t2 _ c (l1' ++ a :: l2) Hlk).
      - apply frame_priority, states_only_frame, Hrm.
      - done.
      - intros y Hy. by apply alter_priority_lock.
      - simpl. by rewrite Hl1, decide_False.
      - simpl. rewrite Hl1, decide_True by done. by eexists. }
    exact (added_lock_ok t2 a r l xr _ _ t3 Hc2 Hlk2 Hlr Hxr Hadd Hx2).
Qed.
End move.

(** The part of [up_reprioritize_rtr] before the switch. *)
Lemma reprioritize_move t a x p :
  inv t → a ∈ lists t g_readytorun → a ≠ idle → tasks t !! a = Some x → 1 ≤ p ≤ 255 →
  ∃ b1 t1 b2 t3, sched_removereadytorun a t = Some (b1, t1) ∧
    is_Some (tasks t1 !! a) ∧
    sched_addreadytorun a (upd (set_sched_priority (u8 p)) a t1) = Some (b2, t3) ∧
    core t3 ∧ running_ok t3 ∧ frame (alter (set_sched_priority p) a (tasks t)) t3 ∧
    (∀ k, k ≠ g_readytorun → k ≠ g_pendingtasks → lists t3 k = lists t k) ∧
    (xorb b1 b2 = false → lock_ok t3) ∧
    (∀ r l, lists t g_readytorun = r :: l → r ≠ a →
            b1 = false ∧ (p ≤ prio (tasks t) r → b2 = false)) ∧
    (∀ n l, lists t g_readytorun = a :: n :: l → p ≤ prio (tasks t) n →
            b1 = true ∧ b2 = false ∧ lists t3 g_pendingtasks = lists t g_pendingtasks ∧
            lists t3 g_readytorun =
              prio_insert (alter (set_sched_priority p) a (tasks t)) a (n :: l)).
Proof.
  intros [Hc Hr Hlk] Ha Hi Hx Hp. rewrite wrap_u_small by (change (2 ^ 8) with 256; lia).
  destruct (removereadytorun_ok idle t a Hc Hr Ha Hi)
    as (l1 & l2 & b1 & t1 & Hl & Hne & Hrun1 & Hrm).
  pose proof (rm_task _ _ _ _ _ _ _ Hrm x Hx) as Hx1. set (t2 := upd (set_sched_priority p) a t1).
  assert (core t2) as Hc2 by (eapply core_priority; [apply Hrm|done..]).
  assert (running_ok t2) as Hr2 by (apply running_upd; [apply Hrm|done]).
  destruct (addreadytorun_ok idle t2 a (set_sched_priority p (set_task_state TSTATE_TASK_INVALID x))
              Hc2 Hr2) as (r & l & xr & b2 & t3 & Hlr & Hxr & Hrun2 & Hadd); [|done..|].
  { unfold t2. simpl. by rewrite lookup_alter_eq, Hx1. }
  exists b1, t1, b2, t3. split; [done|]. split; [by eexists|]. split; [done|].
  split; [apply Hadd|]. split; [apply Hadd|]. split; [by eapply move_frame|].
  split; [intros; by eapply move_lists|].
  split; [by eapply (move_lock t t1 t3 a r x xr p l1 l2 l b1 b2)|].
  split; intros; [by eapply (move_behind t t1 t3 a r x xr p l1 l2 l b1 b2)|].
  by eapply (move_from_head t t1 t3 a r x xr p l1 l2 l b1 b2).
Qed.

Lemma up_reprioritize_rtr_ok t a x p :
  inv t → a ∈ lists t g_readytorun → a ≠ idle → tasks t !! a = Some x → 1 ≤ p ≤ 255 →
  ∃ b t', up_reprioritize_rtr a p t = Some (b, t') ∧ inv t' ∧
    frame (alter (set_sched_priority p) a (tasks t)) t' ∧
    (∀ k, k ≠ g_readytorun → k ≠ g_pendingtasks → lists t' k = lists t k) ∧
    (∀ n l, lists t g_readytorun = a :: n :: l → p ≤ prio (tasks t) n →
       let T := alter (set_sched_priority p) a (tasks t) in
       b = true ∧ lists t' g_readytorun =
         prio_merge T (lists t g_pendingtasks) (prio_insert T a (n :: l))).
Proof.
  intros Hinv Ha Hi Hx Hp.
  destruct (reprioritize_move t a x p Hinv Ha Hi Hx Hp)
    as (b1 & t1 & b2 & t3 & Hrun1 & Hs & Hrun3 & Hc3 & Hr3 & Hf3 & Hl3 & Hlk3 & _ & Hhd).
  assert (is_readytorun_state (task_state x) = true) as Hst.
  { destruct (sc_lookup _ _ _ _ (sv_core _ _ Hinv) Ha) as (y & Hy & Hk).
    assert (y = x) as -> by congruence. by destruct (task_state x). }
  assert (∃ t4, (if xorb b1 b2 then _ ← merge_if_pending; mret tt else mret tt) t3 = Some (tt, t4) ∧
    core t4 ∧ running_ok t4 ∧ states_only t3 t4 ∧ lock_ok t4 ∧
    (∀ k, k ≠ g_readytorun → k ≠ g_pendingtasks → lists t4 k = lists t3 k) ∧
    (xorb b1 b2 = true → lists t4 g_readytorun =
       prio_merge (tasks t3) (lists t3 g_pendingtasks) (lists t3 g_readytorun)))
    as (t4 & Hrun4 & Hc4 & Hr4 & Hs4 & Hlk4 & Hl4 & Hl4r).
  { destruct (xorb b1 b2) eqn:Hxor.
    2: { exists t3. split; [done|]. split; [done|]. split; [done|]. split; [done|].
         split; [by apply Hlk3|done]. }
    destruct (merge_if_pending_ok idle t3 Hc3 Hr3) as (m & t4 & Hrun & Hc4 & Hr4 & Hs4 & Hl4).
    exists t4. rewrite (K_bind_Some _ _ _ _ _ Hrun). split; [done|]. split; [done|].
    split; [done|]. split; [done|]. split; [apply lock_ok_nil; by rewrite Hl4|].
    split; [intros k H1 H2; by rewrite Hl4, !decide_False|]. by rewrite Hl4. }
  destruct (up_switch_ok idle t4 (xorb b1 b2) Hc4 Hr4) as (t5 & Hrun5 & Hc5 & Hr5 & Hf5 & Hl5).
  exists (xorb b1 b2), t5. split.
  { unfold up_reprioritize_rtr. krun ls_get. rewrite Hst.
    rewrite (proj2 (Z.ltb_ge _ _)) by apply Hp. cbn [negb orb].
    rewrite (K_bind_Some _ _ _ _ _ Hrun1). krun ls_set.
    rewrite (K_bind_Some _ _ _ _ _ Hrun3), (K_bind_Some _ _ _ _ _ Hrun4). done. }
  assert (frame (alter (set_sched_priority p) a (tasks t)) t4) as Hf4.
  { eapply frame_trans; [done|by apply states_only_frame]. }
  split; [split; [done|done|]|split; [|split]].
  - eapply lock_ok_frame; [exact Hlk4|exact Hf5|eauto|done].
  - by eapply frame_trans.
  - intros k H1 H2. by rewrite Hl5, Hl4, Hl3.
  - intros n l Hln Hle. destruct (Hhd n l Hln Hle) as (-> & -> & Hpe & Hre).
    split; [done|]. rewrite Hl5, (Hl4r eq_refl), Hpe, Hre. apply prio_merge_ext.
    intros b. by apply frame_prio.
Qed.

(** What setting the priority of [a] to [p] leaves. *)
Definition reprioritized t a p t' : Prop :=
  inv t' ∧ frame (alter (set_sched_priority p) a (tasks t)) t' ∧ blocked_same t t'.

Lemma blocked_same_eq t t' :
  (∀ k, k ≠ g_readytorun → k ≠ g_pendingtasks → lists t' k = lists t k) → blocked_same t t'.
Proof. intros Hl k H1 H2. by rewrite Hl. Qed.

Lemma u8_priority p : 1 ≤ p ≤ 255 → u8 p = p.
Proof. intros. rewrite wrap_u_small; [done|]. change (2 ^ 8) with 256. lia. Qed.

Lemma frame_refl t : frame (tasks t) t.
Proof. done. Qed.

(** A new priority in place. *)
Lemma reprioritized_upd t a p :
  inv t → core (upd (set_sched_priority p) a t) →
  reprioritized t a p (upd (set_sched_priority p) a t).
Proof.
  intros [Hc Hr Hlk] Hc'. split; [split|split; [done|by intros k]].
  - done.
  - by apply running_upd.
  - eapply lock_ok_frame; [exact Hlk|apply frame_priority, frame_refl| |done].
    intros b x Hx. by apply alter_priority_lock.
Qed.

Lemma running_setpriority_ok t a l x p :
  inv t → lists t g_readytorun = a :: l → tasks t !! a = Some x → a ≠ idle → 1 ≤ p ≤ 255 →
  ∃ b t', sched_running_setpriority a p t = Some (b, t') ∧ reprioritized t a p t' ∧
    ∃ n l', l = n :: l' ∧ b = (p <=? prio (tasks t) n) ∧
      lists t' g_readytorun =
        if p <=? prio (tasks t) n
        then let T := alter (set_sched_priority p) a (tasks t) in
             prio_merge T (lists t g_pendingtasks) (prio_insert T a l)
        else a :: l.
Proof.
  intros Hinv Hl Hx Hi Hp. pose proof Hinv as [Hc Hr Hlk].
  destruct (ready_split idle t a Hc) as (l1 & n & l2 & Hl' & Hnd); [rewrite Hl; set_solver|done|].
  assert (l1 = [] ∧ l = n :: l2) as [-> ->].
  { rewrite Hl in Hl'. destruct l1 as [|c l1]; simpl in *; [by injection Hl'|].
    injection Hl' as -> _. nodup_facts. set_solver. }
  destruct (sc_lookup idle t n g_readytorun Hc) as (y & Hy & _); [rewrite Hl; set_solver|].
  unfold sched_running_setpriority. krun (ls_flink g_readytorun a t [] (n :: l2)).
  cbn [hd_or]. krun ls_assert. krun (ls_lift (Some n)). krun ls_get.
  rewrite u8_priority by done. destruct (Z.leb_spec p (sched_priority y)) as [Hle|Hgt].
  - destruct (up_reprioritize_rtr_ok t a x p) as (b & t' & -> & Hinv' & Hf & Hbs & Hhd);
      [done|rewrite Hl; set_solver|done..|]. exists b, t'. split; [done|].
    split; [split; [done|split; [done|by apply blocked_same_eq]]|].
    exists n, l2. split; [done|]. rewrite <- (prio_lookup _ _ _ Hy) in Hle.
    destruct (Hhd n l2 Hl Hle) as [-> Hready]. by rewrite (proj2 (Z.leb_le _ _) Hle).
  - krun ls_set. do 2 eexists. split; [done|]. split.
    + apply reprioritized_upd; [done|].
      eapply core_priority_head; [done..| |done|done]. by rewrite (prio_lookup _ _ _ Hy).
    + exists n, l2. split; [done|]. rewrite (prio_lookup _ _ _ Hy).
      by rewrite (proj2 (Z.leb_gt _ _) Hgt).
Qed.

Lemma assert_not_ok (f : K lsched bool) t t' :
  CONFIG_DEBUG_ASSERTIONS = true → f t = Some (false, t') → assert_not f t = Some (tt, t').
Proof.
  intros HD Hf. unfold assert_not. rewrite HD, (K_bind_Some _ _ _ _ _ Hf). by apply ls_assert.
Qed.

(** Without assertions only a priority above that of the running task [r] moves the
    task. *)
Lemma readytorun_setpriority_ok t a r l x p :
  CONFIG_DEBUG_ASSERTIONS = true ∨ prio (tasks t) r < p →
  inv t → lists t g_readytorun = r :: l → a ∈ l → tasks t !! a = Some x → a ≠ idle →
  1 ≤ p ≤ 255 →
  ∃ b t', sched_readytorun_setpriority a p t = Some (b, t') ∧ reprioritized t a p t'.
Proof.
  intros HD Hinv Hl Ha Hx Hi Hp. pose proof Hinv as [Hc Hr Hlk].
  pose proof (sc_nodup _ _ Hc g_readytorun) as Hnd. rewrite Hl in Hnd.
  destruct (sc_lookup idle t r g_readytorun Hc) as (y & Hy & _); [rewrite Hl; set_solver|].
  assert (a ∈ lists t g_readytorun) as Ha' by (rewrite Hl; set_solver).
  unfold sched_readytorun_setpriority. krun ls_this_task. krun ls_get.
  destruct (Z.ltb_spec (sched_priority y) p) as [Hlt|Hle].
  - rewrite u8_priority by done.
    destruct (up_reprioritize_rtr_ok t a x p) as (b & t' & -> & Hinv' & Hf & Hbs & _); [done..|].
    exists b, t'. split; [done|]. split; [done|]. split; [done|]. by apply blocked_same_eq.
  - destruct HD as [HD|HD]; [|rewrite (prio_lookup _ _ _ Hy) in HD; lia].
    destruct (reprioritize_move t a x p Hinv Ha' Hi Hx Hp)
      as (b1 & t1 & b2 & t3 & Hrun1 & Hs1 & Hrun3 & Hc3 & Hr3 & Hf3 & Hbs & Hlk3 & Hb & _).
    destruct (Hb r l Hl) as [-> Hb2]; [nodup_facts; set_solver|].
    rewrite Hb2 in * by (by rewrite (prio_lookup _ _ _ Hy)).
    rewrite (K_bind_Some _ _ _ _ _ (assert_not_ok _ _ _ HD Hrun1)). krun ls_set.
    rewrite (K_bind_Some _ _ _ _ _ (assert_not_ok _ _ _ HD Hrun3)).
    do 2 eexists. split; [done|]. split; [split; [done|done|by apply Hlk3]|].
    split; [done|]. by apply blocked_same_eq.
Qed.

Lemma alter_reinsert (T : taskmap) a x p :
  T !! a = Some x →
  alter (set_task_state (task_state x)) a
    (alter (set_sched_priority p) a (alter (set_task_state TSTATE_TASK_INVALID) a T)) =
  alter (set_sched_priority p) a T.
Proof.
  intros Hx. apply map_eq. intros b. destruct (decide (a = b)) as [->|].
  - by rewrite !lookup_alter_eq, Hx.
  - by rewrite !lookup_alter_ne.
Qed.

(** A task off a prioritized list and back on it with another priority. *)
Lemma core_reinsert t a x p k l1 l2 :
  core t → tasks t !! a = Some x → TLIST_BLOCKED (task_state x) = Some k →
  prioritized k = true → lists t k = l1 ++ a :: l2 → a ≠ idle → 1 ≤ p ≤ 255 →
  core (set_list k (prio_insert (alter (set_sched_priority p) a (tasks t)) a (l1 ++ l2))
          (upd (set_sched_priority p) a t)) ∧
  ∀ k', a ∉ lists (set_list k (l1 ++ l2) t) k'.
Proof.
  intros Hc Hx Hk Hpk Hl Hi Hp.
  pose proof (core_remove idle t k l1 a l2 Hc Hl Hi) as Hc1.
  set (t1 := set_state TSTATE_TASK_INVALID a _) in Hc1.
  assert (tasks t1 !! a = Some (set_task_state TSTATE_TASK_INVALID x)) as Hx1.
  { unfold t1. rewrite (lookup_state _ _ _ _ x); [by case_decide|done]. }
  pose proof (core_priority idle t1 a _ p Hc1 Hx1 eq_refl Hi Hp) as Hc2.
  set (t2 := upd (set_sched_priority p) a t1) in Hc2.
  assert (tasks t2 !! a = Some (set_sched_priority p (set_task_state TSTATE_TASK_INVALID x)))
    as Hx2 by (unfold t2; simpl in *; by rewrite lookup_alter_eq, Hx1).
  pose proof (core_insert idle t2 k a _ (task_state x) Hc2 Hx2 eq_refl Hi Hk Hpk) as Hc3.
  split.
  - eapply core_proper; [|exact Hc3]. split.
    + unfold t2, t1. simpl. by rewrite alter_reinsert.
    + intros k'. unfold t2, t1. simpl. case_decide; [|done].
      rewrite decide_True by done. apply prio_insert_ext. intros b.
      rewrite <- (alter_reinsert _ _ _ p Hx). by rewrite prio_alter.
  - intros k'. apply (sc_unlisted _ _ _ _ Hc1 Hx1 eq_refl k').
Qed.

Lemma blocked_setpriority_ok t a x p :
  inv t → tasks t !! a = Some x → is_readytorun_state (task_state x) = false →
  a ≠ idle → 1 ≤ p ≤ 255 →
  ∃ t', sched_blocked_setpriority a p t = Some (tt, t') ∧ reprioritized t a p t'.
Proof.
  intros Hinv Hx Hst Hi Hp. pose proof Hinv as [Hc Hr Hlk].
  unfold sched_blocked_setpriority. krun ls_get. rewrite u8_priority by done.
  destruct (TLIST_BLOCKED (task_state x)) as [k|] eqn:Hk; last first.
  { assert (TLIST_ISPRIORITIZED (task_state x) = false) as -> by (by destruct (task_state x)).
    rewrite ls_set by (by eexists). eexists. split; [done|]. apply reprioritized_upd; [done|].
    by eapply core_priority. }
  rewrite (prioritized_state _ _ Hk). destruct (prioritized k) eqn:Hpk; last first.
  { rewrite ls_set by (by eexists). eexists. split; [done|]. apply reprioritized_upd; [done|].
    by eapply core_priority_blocked. }
  assert (k ≠ g_readytorun) as Hkr by (intros ->; destruct (task_state x); done).
  assert (a ∈ lists t k) as Ha by (apply (sc_listed _ _ Hc); eauto).
  destruct (list_elem_of_split_l _ _ Ha) as (l1 & l2 & Hl & Hn).
  destruct (core_reinsert t a x p k l1 l2 Hc Hx Hk Hpk Hl Hi Hp) as [Hc' Hno].
  eexists. split.
  - krun ls_lift. krun ls_rem. krun ls_set. erewrite K_bind_Some; [reflexivity|].
    apply ls_addprioritized with (x := set_sched_priority p x); [|apply Hp|apply Hno].
    simpl. by rewrite lookup_alter_eq, Hx.
  - split; [split|split; [done|]].
    + eapply core_proper; [|exact Hc']. split; [done|]. intros k'. simpl. case_decide; [|done].
      by rewrite decide_True.
    + intros b y. simpl. rewrite !(decide_False (P := g_readytorun = k)) by congruence.
      apply (running_upd t (set_sched_priority p) a Hr ltac:(done) b y).
    + destruct (ready_head idle t Hc) as (r & l & xr & Hlr & Hxr & _).
      eapply (lock_ok_head t _ (alter (set_sched_priority p) a (tasks t)) r l Hlk); [done|done|..].
      * intros y Hy. by apply alter_priority_lock.
      * simpl. case_decide; [|done]. subst. intros _ Hnil. rewrite Hnil in Ha. by apply not_elem_of_nil in Ha.
      * simpl. rewrite !(decide_False (P := g_readytorun = k)) by congruence. eauto.
    + intros k' _ _. simpl. case_decide; [|done]. subst. rewrite decide_True by done.
      by rewrite prio_insert_perm, Hl, Permutation_middle.
Qed.

Lemma setpriority_ok t a r l x p :
  CONFIG_DEBUG_ASSERTIONS = true ∨ task_state x ≠ TSTATE_TASK_READYTORUN ∨ prio (tasks t) r < p →
  inv t → lists t g_readytorun = r :: l → tasks t !! a = Some x → a ≠ idle → 1 ≤ p ≤ 255 →
  ∃ b t', nxsched_setpriority a p t = Some ((OK, b), t') ∧ reprioritized t a p t'.
Proof.
  intros HD Hinv Hl Hx Hi Hp. pose proof Hinv as [Hc Hr Hlk]. unfold nxsched_setpriority.
  rewrite (proj2 (Z.ltb_ge p _)), (proj2 (Z.ltb_ge _ p)) by (unfold SCHED_PRIORITY_MIN, SCHED_PRIORITY_MAX; lia).
  cbn [orb]. krun ls_get.
  destruct (is_readytorun_state (task_state x)) eqn:Hst; last first.
  { destruct (blocked_setpriority_ok t a x p Hinv Hx Hst Hi Hp) as (t' & Hrun & Hok).
    exists false, t'. split; [|done].
    destruct (task_state x); simpl in *; try done; by rewrite (K_bind_Some _ _ _ _ _ Hrun). }
  assert (a ∈ lists t g_readytorun) as Ha.
  { apply (sc_listed _ _ Hc). exists x. split; [done|]. by destruct (task_state x). }
  destruct (task_state x) eqn:Hs; simpl in *; try done.
  - assert (a ∈ l) as Hal.
    { rewrite Hl in Ha. apply elem_of_cons in Ha as [->|Ha]; [|done].
      assert (task_state x = TSTATE_TASK_RUNNING) by (apply (Hr r x Hx); by rewrite Hl). congruence. }
    destruct (readytorun_setpriority_ok t a r l x p) as (b & t' & Hrun & Hok); [naive_solver|done..|].
    exists b, t'. split; [|done]. by rewrite (K_bind_Some _ _ _ _ _ Hrun).
  - assert (r = a) as ->.
    { assert (hd_or NULL (lists t g_readytorun) = Some a) as Hh by (by apply (Hr a x Hx)).
      rewrite Hl in Hh. by injection Hh. }
    destruct (running_setpriority_ok t a l x p) as (b & t' & Hrun & Hok & _); [done..|].
    exists b, t'. split; [|done]. by rewrite (K_bind_Some _ _ _ _ _ Hrun).
Qed.

(** *** Locking *)

Lemma inv_lockcount t r l x n :
  core t → running_ok t → lists t g_readytorun = r :: l → tasks t !! r = Some x →
  0 ≤ n ≤ MAX_LOCK_COUNT → (lists t g_pendingtasks ≠ [] → 0 < n) →
  ∀ f, f x = set_lockcount n x → (∀ y, task_state (f y) = task_state y) →
  inv (upd f r t).
Proof.
  intros Hc Hr Hl Hx Hn Hp f Hf Hst. split.
  - apply core_upd; [done|]. intros y Hy. assert (y = x) as -> by congruence. by rewrite Hf.
  - by apply running_upd.
  - intros Hne. exists r, l, (set_lockcount n x). simpl. rewrite lookup_alter_eq, Hx. simpl.
    rewrite Hf. split; [done|]. split; [done|]. by apply Hp.
Qed.

Lemma s16_lock z : 0 ≤ z ≤ MAX_LOCK_COUNT → s16 z = z.
Proof. unfold MAX_LOCK_COUNT. intros. apply s16_small. lia. Qed.

(** [sched_lock] counts, and a task holding the lock is not pre-empted: nothing
    else changes. *)
Lemma lock_sched_ok t r l x :
  inv t → lists t g_readytorun = r :: l → tasks t !! r = Some x →
  lockcount x < MAX_LOCK_COUNT →
  ∃ t', sched_lock false t = Some (OK, t') ∧ inv t' ∧
    tasks t' !! r = Some (set_lockcount (lockcount x + 1) x) ∧
    (∀ a, a ≠ r → tasks t' !! a = tasks t !! a) ∧ ∀ k, lists t' k = lists t k.
Proof.
  intros [Hc Hr Hlk] Hl Hx Hmax. pose proof (sc_lock _ _ Hc r x Hx) as Hge.
  unfold sched_lock. rewrite (K_bind_Some _ _ _ _ _ (ls_head _ _)), Hl. cbn [hd_or].
  krun ls_get. rewrite (K_bind_Some _ _ _ _ _ (ls_assert _ _ (proj2 (Z.ltb_lt _ _) Hmax))).
  krun ls_set. eexists. split; [done|]. split; [|split; [|split]].
  - eapply (inv_lockcount t r l x (lockcount x + 1)); [done..|lia|lia| |done].
    simpl. by rewrite s16_lock by lia.
  - simpl. rewrite lookup_alter_eq, Hx. simpl. by rewrite s16_lock by lia.
  - intros a Ha. simpl. by rewrite lookup_alter_ne.
  - done.
Qed.

Lemma unlock_zero t r l x :
  lists t g_readytorun = r :: l → tasks t !! r = Some x → 0 ≤ lockcount x ≤ 1 →
  sched_unlock false t =
    (if bool_decide (hd_or NULL (lists t g_pendingtasks) = NULL) then mret (OK, false)
     else b ← up_release_pending; mret (OK, b)) (upd (set_lockcount 0) r t).
Proof.
  intros Hl Hx Hle. unfold sched_unlock.
  rewrite (K_bind_Some _ _ _ _ _ (ls_head _ _)), Hl. cbn [hd_or]. krun ls_get.
  set (f := λ x, set_lockcount (s16 (lockcount x - 1)) x).
  assert (∃ t1 x1, kwhen (0 <? lockcount x) (tcb_set f r) t = Some (tt, t1) ∧
    tasks t1 !! r = Some x1 ∧ lockcount x1 = 0 ∧ lists t1 = lists t ∧
    upd (set_lockcount 0) r t1 = upd (set_lockcount 0) r t)
    as (t1 & x1 & Hrun1 & Hx1 & Hlk1 & Hl1 & Ht1).
  { unfold kwhen. destruct (Z.ltb_spec 0 (lockcount x)) as [Hpos|Hzero].
    - exists (upd f r t), (f x). rewrite ls_set by (by eexists). split; [done|].
      simpl. rewrite lookup_alter_eq, Hx. split; [done|].
      rewrite s16_lock by (unfold MAX_LOCK_COUNT; lia). split; [lia|]. split; [done|].
      unfold upd. simpl. rewrite alter_alter_eq. done.
    - exists t, x. split; [done|]. split; [done|]. split; [lia|done]. }
  rewrite (K_bind_Some _ _ _ _ _ Hrun1), (K_bind_Some _ _ _ _ _ (ls_get _ _ _ Hx1)), Hlk1.
  cbn [Z.leb Z.compare]. krun ls_set. rewrite Ht1.
  by rewrite (K_bind_Some _ _ _ _ _ (ls_head _ _)).
Qed.

(** [sched_unlock] counts down; the last one releases the pending tasks, and the
    one of highest priority runs. *)
Lemma unlock_sched_ok t r l x :
  inv t → lists t g_readytorun = r :: l → tasks t !! r = Some x →
  ∃ b t', sched_unlock false t = Some ((OK, b), t') ∧ inv t' ∧
    frame (alter (set_lockcount (Z.max 0 (lockcount x - 1))) r (tasks t)) t' ∧
    (1 < lockcount x → b = false ∧ ∀ k, lists t' k = lists t k) ∧
    (lockcount x ≤ 1 → lists t' g_pendingtasks = [] ∧
       lists t' g_readytorun =
         prio_merge (tasks t) (lists t g_pendingtasks) (lists t g_readytorun)) ∧
    (∀ k, k ≠ g_readytorun → k ≠ g_pendingtasks → lists t' k = lists t k).
Proof.
  intros [Hc Hr Hlk] Hl Hx. pose proof (sc_lock _ _ Hc r x Hx) as Hge.
  destruct (decide (1 < lockcount x)) as [Hgt|Hle].
  - (* still locked *)
    unfold sched_unlock. rewrite (K_bind_Some _ _ _ _ _ (ls_head _ _)), Hl. cbn [hd_or].
    krun ls_get. rewrite (proj2 (Z.ltb_lt 0 _)) by lia. cbn [kwhen]. krun ls_set.
    set (f := λ x, set_lockcount (s16 (lockcount x - 1)) x).
    assert (f x = set_lockcount (lockcount x - 1) x) as Hfx.
    { unfold f. by rewrite s16_lock by lia. }
    assert (tasks (upd f r t) !! r = Some (set_lockcount (lockcount x - 1) x)) as Hx1.
    { simpl. by rewrite lookup_alter_eq, Hx, <- Hfx. }
    rewrite (K_bind_Some _ _ _ _ _ (ls_get _ _ _ Hx1)). simpl.
    rewrite (proj2 (Z.leb_gt _ _)) by lia.
    exists false, (upd f r t). split; [done|]. split; [|split; [|split; [|split]]]; try done.
    + eapply (inv_lockcount t r l x (lockcount x - 1)); try done; lia.
    + rewrite Z.max_r by lia. unfold frame. simpl.
      by rewrite <- (alter_insert_Some f _ _ _ Hx), Hfx, <- (alter_insert_Some _ _ _ _ Hx).
    + lia.
  - (* pre-emption is enabled again *)
    rewrite Z.max_l by lia. set (tz := upd (set_lockcount 0) r t).
    assert (core tz) as Hcz.
    { apply core_upd; [done|]. intros y Hy. simpl. split; [done|]. split; [done|].
      unfold MAX_LOCK_COUNT. lia. }
    assert (running_ok tz) as Hrz by (by apply running_upd).
    assert (∀ b, prio (tasks tz) b = prio (tasks t) b) as Hpz.
    { intros b. unfold tz. simpl. by apply prio_alter. }
    rewrite (unlock_zero t r l x); [|done..|lia]. fold tz.
    destruct (lists t g_pendingtasks) as [|p ps] eqn:Hp; simpl.
    + exists false, tz. split; [done|]. split; [split; [done|done|by apply lock_ok_nil]|].
      split; [done|]. split; [lia|]. split; [|done]. intros _. split; [exact Hp|done].
    + destruct (up_release_pending_ok tz Hcz Hrz) as (b & t' & Hrun & Hinv' & Hf & Hp' & Hr' & Hl').
      exists b, t'. split; [by rewrite (K_bind_Some _ _ _ _ _ Hrun)|]. split; [done|].
      split; [done|]. split; [lia|]. split; [|intros k H1 H2; by rewrite Hl']. intros _. split; [done|].
      rewrite Hr', <- Hp. by apply prio_merge_ext.
Qed.

(** *** sched_yield *)

Lemma alter_same_priority (T : taskmap) a x :
  T !! a = Some x → alter (set_sched_priority (sched_priority x)) a T = T.
Proof.
  intros Hx. apply map_eq. intros b. destruct (decide (a = b)) as [->|].
  - rewrite lookup_alter_eq, Hx. by destruct x.
  - by rewrite lookup_alter_ne.
Qed.

Lemma yield_ok t r l x :
  inv t → lists t g_readytorun = r :: l → tasks t !! r = Some x → r ≠ idle →
  ∃ b t' n l', sched_yield t = Some ((OK, b), t') ∧ inv t' ∧ frame (tasks t) t' ∧
    blocked_same t t' ∧ l = n :: l' ∧ b = (prio (tasks t) r <=? prio (tasks t) n) ∧
    lists t' g_readytorun =
      if prio (tasks t) r <=? prio (tasks t) n
      then prio_merge (tasks t) (lists t g_pendingtasks) (prio_insert (tasks t) r l)
      else r :: l.
Proof.
  intros Hinv Hl Hx Hi. pose proof Hinv as [Hc Hr Hlk].
  pose proof (sc_prio _ _ Hc r x Hx Hi) as Hp.
  assert (task_state x = TSTATE_TASK_RUNNING) as Hst by (apply (Hr r x Hx); by rewrite Hl).
  destruct (running_setpriority_ok t r l x (sched_priority x))
    as (b & t' & Hrun & (Hinv' & Hf & Hbs) & n & l' & -> & Hb & Hready); [done..|].
  rewrite (alter_same_priority _ _ _ Hx) in Hf, Hready. rewrite (prio_lookup _ _ _ Hx).
  exists b, t', n, l'. split; [|done]. unfold sched_yield. krun ls_this_task. krun ls_get.
  unfold nxsched_setpriority. rewrite (proj2 (Z.ltb_ge (sched_priority x) _)),
    (proj2 (Z.ltb_ge _ (sched_priority x)))
    by (unfold SCHED_PRIORITY_MIN, SCHED_PRIORITY_MAX; lia).
  cbn [orb]. rewrite (K_bind_Some _ _ t (OK, b) t'); [done|]. krun ls_get. rewrite Hst.
  by rewrite (K_bind_Some _ _ _ _ _ Hrun).
Qed.

(** *** sched_roundrobin_process *)

Lemma inv_fields t f a :
  inv t → is_Some (tasks t !! a) →
  (∀ x, task_state (f x) = task_state x ∧ td_keep_prio (f x) = td_keep_prio x) →
  inv (upd f a t) ∧ frame (tasks t) (upd f a t).
Proof.
  intros [Hc Hr Hlk] Ha Hf. destruct (upd_fields_ok idle t f a Hc Hr Ha Hf) as (Hc' & Hr' & Hfr).
  split; [|done]. split; [done|done|]. eapply lock_ok_frame; [exact Hlk|exact Hfr|eauto|done].
Qed.

(** A running task that keeps its priority goes behind the ready tasks of its
    priority, when there are any. *)
Lemma rotate_ok t r n l x :
  inv t → lists t g_readytorun = r :: n :: l → tasks t !! r = Some x →
  lists t g_pendingtasks = [] →
  ∃ b t', (y ← tcb_get n; if sched_priority x <=? sched_priority y
           then up_reprioritize_rtr r (sched_priority x) else mret false) t = Some (b, t') ∧
    inv t' ∧ frame (tasks t) t' ∧ blocked_same t t' ∧
    b = (prio (tasks t) r <=? prio (tasks t) n) ∧
    lists t' g_readytorun = if prio (tasks t) r <=? prio (tasks t) n
      then prio_insert (tasks t) r (n :: l) else r :: n :: l.
Proof.
  intros Hinv Hl Hx Hpend. pose proof (sv_core _ _ Hinv) as Hc.
  destruct (sc_lookup idle t n g_readytorun Hc) as (y & Hy & _); [rewrite Hl; set_solver|].
  assert (r ≠ idle) as Hi.
  { pose proof (sc_nodup _ _ Hc g_readytorun) as Hnd. rewrite Hl in Hnd. nodup_facts.
    intros ->. destruct (sc_idle _ _ Hc) as (l' & Hl' & Hn'). rewrite Hl in Hl'.
    destruct l' as [|c l']; simpl in Hl'; [congruence|]. injection Hl' as <- _. set_solver. }
  rewrite (K_bind_Some _ _ _ _ _ (ls_get _ _ _ Hy)).
  rewrite <- (prio_lookup _ _ _ Hx), <- (prio_lookup _ _ _ Hy).
  destruct (Z.leb_spec (prio (tasks t) r) (prio (tasks t) n)) as [Hle|Hgt];
    [|exists false, t; do 3 (split; [done|]); split; [by intros k|done]].
  destruct (up_reprioritize_rtr_ok t r x (prio (tasks t) r) Hinv)
    as (b & t' & Hrun & Hinv' & Hf' & Hbs & Hhd); [rewrite Hl; set_solver|done|done| |].
  { rewrite (prio_lookup _ _ _ Hx). apply (sc_prio _ _ Hc r x Hx Hi). }
  destruct (Hhd n l Hl Hle) as [-> Hready].
  rewrite (prio_lookup _ _ _ Hx), (alter_same_priority _ _ _ Hx) in Hf', Hready.
  exists true, t'. split; [done|]. split; [done|]. split; [done|].
  split; [by apply blocked_same_eq|]. split; [done|]. by rewrite Hready, Hpend.
Qed.

Lemma no_lock_no_pending t r l x :
  inv t → lists t g_readytorun = r :: l → tasks t !! r = Some x → lockcount x ≤ 0 →
  lists t g_pendingtasks = [].
Proof.
  intros Hinv Hl Hx Hz. destruct (lists t g_pendingtasks) eqn:Hp; [done|].
  destruct (sv_lock _ _ Hinv) as (r' & l' & x' & Hl' & Hx' & Hp'); [by rewrite Hp|].
  rewrite Hl in Hl'. injection Hl' as <- <-. assert (x' = x) by congruence. subst. lia.
Qed.

(** The slice of the running task runs down; when it is used up and the
    scheduler is not locked, the task gets a new one and goes behind the ready
    tasks of its priority. *)
Lemma roundrobin_ok t r l x ticks :
  inv t → lists t g_readytorun = r :: l → tasks t !! r = Some x →
  0 ≤ timeslice x ≤ INT32_MAX → 0 ≤ ticks ≤ INT32_MAX →
  ∃ n b t', sched_roundrobin_process r ticks false t = Some ((n, b), t') ∧ inv t' ∧
    frame (tasks t) t' ∧ blocked_same t t' ∧
    (ticks < timeslice x ∨ 0 < lockcount x →
       b = false ∧ n = Z.max 0 (timeslice x - ticks) ∧ ∀ k, lists t' k = lists t k) ∧
    (timeslice x ≤ ticks → lockcount x = 0 → r ≠ idle → ∃ n' l', l = n' :: l' ∧
       b = (prio (tasks t) r <=? prio (tasks t) n') ∧
       lists t' g_readytorun =
         if prio (tasks t) r <=? prio (tasks t) n'
         then prio_insert (tasks t) r l else r :: l).
Proof.
  intros Hinv Hl Hx Hts Htk. pose proof (sc_lock _ _ (sv_core _ _ Hinv) r x Hx) as Hlk.
  assert (s32 (Z.min (u32 (timeslice x)) ticks) = Z.min (timeslice x) ticks) as Hdecr.
  { rewrite wrap_u_small by (change (2 ^ 32) with 4294967296; lia). by rewrite s32_small by lia. }
  set (f := λ y, set_timeslice (s32 (timeslice y - Z.min (timeslice x) ticks)) y).
  assert (f x = set_timeslice (Z.max 0 (timeslice x - ticks)) x) as Hfx.
  { unfold f. rewrite s32_small by lia. f_equal. lia. }
  destruct (inv_fields t f r Hinv) as [Hinv1 Hf1]; [by eexists|done|].
  assert (tasks (upd f r t) !! r = Some (f x)) as Hx1 by (simpl; by rewrite lookup_alter_eq, Hx).
  unfold sched_roundrobin_process. krun ls_get. rewrite Hdecr. krun ls_set.
  rewrite (K_bind_Some _ _ _ _ _ (ls_get _ _ _ Hx1)), Hfx. cbn [timeslice set_timeslice lockcount].
  destruct (Z.leb_spec (Z.max 0 (timeslice x - ticks)) 0) as [Hz|Hnz];
    [destruct (Z.ltb_spec 0 (lockcount x)) as [Hpos|Hzero]|]; cbn [negb andb].
  1,3: do 3 eexists; do 3 (split; [done|]); split; [by intros k|];
    (rewrite wrap_u_small by (change (2 ^ 32) with 4294967296; lia)); split; [done|lia].
  krun ls_set. set (rr := s32 (MSEC2TICK CONFIG_RR_INTERVAL)).
  destruct (inv_fields (upd f r t) (set_timeslice rr) r Hinv1) as [Hinv2 Hf2];
    [by eexists|done|]. set (t2 := upd (set_timeslice rr) r (upd f r t)) in *.
  assert (tasks t2 !! r = Some (set_timeslice rr (f x))) as Hx2.
  { unfold t2. simpl. simpl in Hx1. by rewrite lookup_alter_eq, Hx1. }
  assert (frame (tasks t) t2) as Hf by (by eapply frame_trans).
  assert (lists t2 g_readytorun = r :: l) as Hl2 by done.
  rewrite (K_bind_Some _ _ _ _ _ (ls_get _ _ _ Hx2)).
  rewrite (K_bind_Some _ _ _ _ _ (ls_flink g_readytorun r t2 [] l Hl2 ltac:(set_solver))).
  pose proof (no_lock_no_pending t r l x Hinv Hl Hx Hzero) as Hpend.
  destruct l as [|n' l']; cbn [hd_or].
  { rewrite (K_bind_Some _ _ t2 false t2) by done.
    do 3 eexists. do 3 (split; [done|]). split; [by intros k|]. split; [lia|].
    intros _ _ Hi. destruct (sc_idle _ _ (sv_core _ _ Hinv)) as (l'' & Hl'' & _).
    rewrite Hl in Hl''. destruct l'' as [|? [|]]; by injection Hl''. }
  destruct (rotate_ok t2 r n' l' _ Hinv2 Hl2 Hx2 Hpend)
    as (b & t' & Hrun & Hinv' & Hf' & Hbs & Hb & Hready).
  rewrite (K_bind_Some _ _ _ _ _ Hrun). rewrite !(frame_prio (tasks t) t2) in Hb, Hready by done.
  do 3 eexists. split; [done|]. split; [done|]. split; [by eapply frame_trans|].
  split; [done|]. split; [lia|]. intros _ _ _. exists n', l'. split; [done|]. split; [done|].
  rewrite Hready. case_match; [|done]. apply (prio_insert_ext _ _ r (n' :: l')).
  intros c. by apply frame_prio.
Qed.
End block.
