(* ===== verification/SchedProps.v ===== *)
(** * SchedProps: what the scheduler guarantees

    The properties of the scheduler, stated for the pointer code of Sched.v: each
    relates the state before and after by [sched_repr] to task lists, and follows
    from the simulation of SchedSpec.v and the list-level results of SchedOps.v. *)

From S2P Require Import Prelude Queue QueueRefine Sched SchedSpec SchedInv SchedOps.
Import Dq DqSpec.
Local Open Scope Z_scope.

(** ** Histories of the scheduler *)

(** What tasks and interrupt handlers do: the running task locks and unlocks the
    scheduler, blocks or yields; anyone unblocks a blocked task or changes a
    priority; the timer charges the running task's time slice. *)
Inductive sched_op :=
  | OpLock | OpUnlock | OpBlock (st : tstate_t) | OpUnblock (a : addr)
  | OpSetPriority (a : addr) (p : Z) | OpYield | OpSlice (ticks : Z).

Section history.
Context `{Config} {S : Type} `{!TaskLists S} (idle : addr).

(** In a build without assertions [nxsched_setpriority] does not move a task that is
    ready, but does not run, when its new priority is not above that of the running
    task ([setpriority_release_breaks_order]): [r] is the running task, [y] the one
    that gets the priority [p]. *)
Definition may_setpriority (r y : tcb_data) (p : Z) : bool :=
  CONFIG_DEBUG_ASSERTIONS || negb (bool_decide (task_state y = TSTATE_TASK_READYTORUN)) ||
  (sched_priority r <? p).

(** An operation its caller may not perform is skipped: nesting locks beyond
    [MAX_LOCK_COUNT], blocking the IDLE task, unblocking a task that is not
    blocked, giving the IDLE task another priority, and setting a priority where
    [may_setpriority] does not hold. *)
Definition sched_exec (o : sched_op) : K S unit :=
  r ← this_task;
  x ← tcb_get r;
  match o with
  | OpLock =>
      kwhen (lockcount x <? MAX_LOCK_COUNT) (_ ← sched_lock false; mret tt)
  | OpUnlock => _ ← sched_unlock false; mret tt
  | OpBlock st =>
      kwhen (is_blocked_state st && negb (bool_decide (r = idle)))
        (_ ← up_block_task r st; mret tt)
  | OpUnblock a =>
      y ← tcb_get a;
      kwhen (is_blocked_state (task_state y)) (_ ← up_unblock_task a; mret tt)
  | OpSetPriority a p =>
      y ← tcb_get a;
      kwhen (negb (bool_decide (a = idle)) && may_setpriority x y p)
        (_ ← nxsched_setpriority a p; mret tt)
  | OpYield => _ ← sched_yield; mret tt
  | OpSlice ticks =>
      kwhen ((0 <=? ticks) && (ticks <=? INT32_MAX) && (0 <=? timeslice x)
             && (timeslice x <=? INT32_MAX))
        (_ ← sched_roundrobin_process r ticks false; mret tt)
  end.

Fixpoint sched_run (os : list sched_op) : K S unit :=
  match os with [] => mret tt | o :: os => sched_exec o;; sched_run os end.

(** The tasks an operation names exist. *)
Definition sched_op_in (T : gset addr) (o : sched_op) : bool :=
  match o with
  | OpUnblock a | OpSetPriority a _ => bool_decide (a ∈ T)
  | _ => true
  end.
End history.

Section history_ok.
Context `{Config} (idle : addr).
Implicit Types (t : lsched).

Lemma sim_sched_exec o : sim sched_repr (sched_exec idle o) (sched_exec idle o).
Proof. unfold sched_exec. solve_sim. Qed.

Lemma sim_sched_run os : sim sched_repr (sched_run idle os) (sched_run idle os).
Proof.
  induction os as [|o os IH]; simpl; [apply sim_ret|].
  apply sim_bind; [apply sim_sched_exec|done].
Qed.

Lemma setpriority_invalid t a p :
  p < SCHED_PRIORITY_MIN ∨ SCHED_PRIORITY_MAX < p →
  nxsched_setpriority a p t = Some ((- EINVAL, false), t).
Proof.
  intros Hp. unfold nxsched_setpriority.
  destruct (Z.ltb_spec p SCHED_PRIORITY_MIN); [done|].
  destruct (Z.ltb_spec SCHED_PRIORITY_MAX p); [done|lia].
Qed.

Lemma yield_idle t l x :
  sched_core idle t → lists t g_readytorun = idle :: l → tasks t !! idle = Some x →
  sched_yield t = Some ((-1, false), t).
Proof.
  intros Hc Hl Hx. unfold sched_yield. krun ls_this_task. krun ls_get.
  rewrite (K_bind_Some _ _ t (- EINVAL, false) t); [done|].
  apply setpriority_invalid. left. rewrite <- (prio_lookup _ _ _ Hx), (sc_idle_prio _ _ Hc).
  done.
Qed.

Lemma may_setpriority_ok t r x y p :
  tasks t !! r = Some x → may_setpriority x y p = true →
  CONFIG_DEBUG_ASSERTIONS = true ∨ task_state y ≠ TSTATE_TASK_READYTORUN ∨ prio (tasks t) r < p.
Proof.
  intros Hx. unfold may_setpriority. rewrite (prio_lookup _ _ _ Hx), !orb_true_iff, negb_true_iff.
  rewrite bool_decide_eq_false, Z.ltb_lt. tauto.
Qed.

(** What an operation keeps: the fields of waiting tasks, and every list of blocked
    tasks but the one that it names. *)
Definition wait_fields (x : tcb_data) := (waitsem x, msgwaitq x, pterrno x).

Definition sched_touches (T : taskmap) (o : sched_op) (k : tasklist) : Prop :=
  match o with
  | OpBlock st => TLIST_BLOCKED st = Some k
  | OpUnblock a => ∃ x, T !! a = Some x ∧ TLIST_BLOCKED (task_state x) = Some k
  | _ => False
  end.

Definition sched_kept t o t' : Prop :=
  sched_inv idle t' ∧ same_data wait_fields (tasks t) (tasks t') ∧
  ∀ k, k ≠ g_readytorun → k ≠ g_pendingtasks → ¬ sched_touches (tasks t) o k → lists t' k ≡ₚ lists t k.

Lemma frame_wait_fields T t' : frame T t' → same_data wait_fields T (tasks t').
Proof.
  intros Hf. eapply same_data_weaken; [exact Hf|]. intros x y [= ? ? ? ? ? ? ? ?].
  unfold wait_fields. congruence.
Qed.

Lemma sched_kept_frame t o t' :
  sched_inv idle t' → frame (tasks t) t' →
  (∀ k, k ≠ g_readytorun → k ≠ g_pendingtasks → ¬ sched_touches (tasks t) o k → lists t' k ≡ₚ lists t k) →
  sched_kept t o t'.
Proof. intros Hi Hf%frame_wait_fields Hl. by split_and!. Qed.

Lemma sched_kept_alter t o t' f a :
  sched_inv idle t' → frame (alter f a (tasks t)) t' → (∀ x, wait_fields (f x) = wait_fields x) →
  blocked_same t t' → sched_kept t o t'.
Proof.
  intros Hi Hf%frame_wait_fields Hk Hl. split; [done|]. split; [|intros k ? ? _; by apply Hl].
  unfold same_data in *. rewrite Hf. apply map_eq. intros b. rewrite !lookup_fmap.
  destruct (decide (a = b)) as [->|]; [|by rewrite lookup_alter_ne].
  rewrite lookup_alter_eq. destruct (tasks t !! b); simpl; [by rewrite Hk|done].
Qed.

Lemma sched_kept_refl t o : sched_inv idle t → sched_kept t o t.
Proof. intros Hi. by split_and!. Qed.

Lemma sched_kept_lock t o t' r x c :
  sched_inv idle t' → tasks t !! r = Some x → tasks t' !! r = Some (set_lockcount c x) →
  (∀ a, a ≠ r → tasks t' !! a = tasks t !! a) → (∀ k, lists t' k = lists t k) → sched_kept t o t'.
Proof.
  intros Hi Hx Hr Ho Hl. apply (sched_kept_alter t o t' (set_lockcount c) r); [done| |done|intros k _ _;
    by rewrite Hl].
  unfold frame. f_equal. apply map_eq. intros b.
  destruct (decide (r = b)) as [<-|]; [by rewrite lookup_alter_eq, Hr, Hx|].
  rewrite lookup_alter_ne by done. by apply Ho.
Qed.

Lemma kept_block t r l x st :
  sched_inv idle t → lists t g_readytorun = r :: l → tasks t !! r = Some x → r ≠ idle →
  is_blocked_state st = true → ∃ b t', up_block_task r st t = Some (b, t') ∧ sched_kept t (OpBlock st) t'.
Proof.
  intros Hinv Hl Hx Hi Hb. destruct (TLIST_BLOCKED st) as [k|] eqn:Hk; [|by destruct st].
  destruct (up_block_task_ok idle t r l x st k) as (t' & Hrun & Hinv' & Hf & _ & _ & _ & Ho); [done..|].
  eexists _, t'. split; [done|]. apply sched_kept_frame; [done|done|]. intros k' H1 H2 H3.
  rewrite Ho; [done|done|done|]. intros ->. by apply H3.
Qed.

Lemma kept_unblock t a y :
  sched_inv idle t → tasks t !! a = Some y → is_blocked_state (task_state y) = true →
  ∃ b t', up_unblock_task a t = Some (b, t') ∧ sched_kept t (OpUnblock a) t'.
Proof.
  intros Hinv Hy Hb. destruct (TLIST_BLOCKED (task_state y)) as [k|] eqn:Hk; [|by destruct (task_state y)].
  destruct (up_unblock_task_ok idle t a y k)
    as (? & ? & ? & ? & ? & t' & _ & _ & _ & Hrun & Hinv' & Hf & Hls); [done..|].
  eexists _, t'. split; [done|]. apply sched_kept_frame; [done|done|]. intros k' H1 H2 H3.
  rewrite Hls, decide_False by (intros ->; apply H3; by exists y).
  rewrite decide_False; [done|]. by case_match.
Qed.

Lemma sched_exec_ok o t :
  sched_inv idle t → sched_op_in (dom (tasks t)) o = true →
  ∃ t', sched_exec idle o t = Some (tt, t') ∧ sched_kept t o t'.
Proof.
  intros Hinv Hin. pose proof (sv_core _ _ Hinv) as Hc.
  pose proof (sched_kept_refl t o Hinv) as Hrefl.
  destruct (ready_head idle t Hc) as (r & l & x & Hl & Hx & _).
  unfold sched_exec. krun ls_this_task. krun ls_get. destruct o; simpl in Hin.
  - unfold kwhen. destruct (Z.ltb_spec (lockcount x) MAX_LOCK_COUNT); [|eauto].
    destruct (lock_sched_ok idle t r l x) as (t' & Hrun & Hinv' & Hr' & Ho & Hls); [done..|].
    rewrite (K_bind_Some _ _ _ _ _ Hrun). exists t'. split; [done|]. by eapply sched_kept_lock.
  - destruct (unlock_sched_ok idle t r l x) as (b & t' & Hrun & Hinv' & Hf & _ & _ & Ho); [done..|].
    rewrite (K_bind_Some _ _ _ _ _ Hrun). exists t'. split; [done|].
    eapply sched_kept_alter; [done|exact Hf|done|by apply blocked_same_eq].
  - unfold kwhen. destruct (is_blocked_state st) eqn:Hb; [|eauto].
    case_bool_decide; simpl; [eauto|].
    destruct (kept_block t r l x st) as (b & t' & Hrun & Hk); [done..|].
    rewrite (K_bind_Some _ _ _ _ _ Hrun). eauto.
  - apply bool_decide_eq_true_1, elem_of_dom in Hin as [y Hy].
    rewrite (K_bind_Some _ _ _ _ _ (ls_get _ _ _ Hy)). unfold kwhen.
    destruct (is_blocked_state (task_state y)) eqn:Hb; [|eauto].
    destruct (kept_unblock t a y) as (b & t' & Hrun & Hk); [done..|].
    rewrite (K_bind_Some _ _ _ _ _ Hrun). eauto.
  - apply bool_decide_eq_true_1, elem_of_dom in Hin as [y Hy].
    rewrite (K_bind_Some _ _ _ _ _ (ls_get _ _ _ Hy)). unfold kwhen.
    case_bool_decide; simpl; [eauto|]. destruct (may_setpriority x y p) eqn:Hmay; [|eauto].
    destruct (decide (SCHED_PRIORITY_MIN ≤ p ≤ SCHED_PRIORITY_MAX)) as [Hp|Hp].
    + destruct (setpriority_ok idle t a r l y p) as (b & t' & Hrun & Hinv' & Hf & Hbs);
        [by eapply may_setpriority_ok|done..|]. rewrite (K_bind_Some _ _ _ _ _ Hrun). exists t'.
      split; [done|]. by eapply sched_kept_alter.
    + rewrite (K_bind_Some _ _ _ _ _ (setpriority_invalid t a p ltac:(lia))). eauto.
  - destruct (decide (r = idle)) as [->|Hi].
    + rewrite (K_bind_Some _ _ _ _ _ (yield_idle _ _ _ Hc Hl Hx)). eauto.
    + destruct (yield_ok idle t r l x) as (b & t' & n & l' & Hrun & Hinv' & Hf & Hbs & _); [done..|].
      rewrite (K_bind_Some _ _ _ _ _ Hrun). exists t'. split; [done|].
      apply sched_kept_frame; [done|done|]. intros k ? ? _. by apply Hbs.
  - unfold kwhen. destruct (_ && _) eqn:Hb; [|eauto].
    rewrite !andb_true_iff, !Z.leb_le in Hb.
    destruct (roundrobin_ok idle t r l x ticks) as (n & b & t' & Hrun & Hinv' & Hf & Hbs & _);
      [done|done|done|lia|lia|].
    rewrite (K_bind_Some _ _ _ _ _ Hrun). exists t'. split; [done|].
    apply sched_kept_frame; [done|done|]. intros k ? ? _. by apply Hbs.
Qed.

Lemma sched_run_ok os t :
  sched_inv idle t → Forall (λ o, sched_op_in (dom (tasks t)) o = true) os →
  ∃ t', sched_run idle os t = Some (tt, t') ∧ sched_inv idle t' ∧ dom (tasks t') = dom (tasks t).
Proof.
  revert t. induction os as [|o os IH]; intros t Hinv Hin; simpl; [by eauto|].
  apply Forall_cons in Hin as [Ho Hos].
  destruct (sched_exec_ok o t Hinv Ho) as (t1 & Hrun1 & Hinv1 & Hd1%same_data_dom & _).
  rewrite (K_bind_Some _ _ _ _ _ Hrun1).
  destruct (IH t1 Hinv1) as (t' & Hrun & Hinv' & Hd'); [by rewrite Hd1|].
  exists t'. split; [done|]. split; [done|congruence].
Qed.
End history_ok.

(** ** Concrete systems *)

Definition demo_td (n p : Z) (st : tstate_t) (lock : Z) : tcb_data :=
  mk_td n p st 0 lock 20 NULL NULL NULL 0.

(** Task 2 runs, task 3 of the same priority is ready, task 1 is the IDLE task;
    task 4 is pending (the scheduler is locked by task 2) or waits for a
    semaphore. *)
Definition demo_tasks (lock : Z) (st4 : tstate_t) : taskmap :=
  {[1%positive := demo_td 0 0 TSTATE_TASK_READYTORUN 0;
    2%positive := demo_td 2 100 TSTATE_TASK_RUNNING lock;
    3%positive := demo_td 3 100 TSTATE_TASK_READYTORUN 0;
    4%positive := demo_td 4 150 st4 0]}.

Definition demo_lists (k4 : tasklist) (k : tasklist) : list addr :=
  if decide (k = g_readytorun) then [2%positive; 3%positive; 1%positive]
  else if decide (k = k4) then [4%positive] else [].

Definition demo_ls (lock : Z) (st4 : tstate_t) (k4 : tasklist) : lsched :=
  mk_ls (demo_tasks lock st4) (demo_lists k4).

Definition demo_ptr (lock : Z) (st4 : tstate_t) (k4 : tasklist) : sched_s :=
  mk_sched
    {[1%positive := mk_tcb NULL (Some 3%positive) (demo_td 0 0 TSTATE_TASK_READYTORUN 0);
      2%positive := mk_tcb (Some 3%positive) NULL (demo_td 2 100 TSTATE_TASK_RUNNING lock);
      3%positive := mk_tcb (Some 1%positive) (Some 2%positive)
                      (demo_td 3 100 TSTATE_TASK_READYTORUN 0);
      4%positive := mk_tcb NULL NULL (demo_td 4 150 st4 0)]}
    (λ k, if decide (k = g_readytorun) then mk_dq (Some 2%positive) (Some 1%positive)
          else if decide (k = k4) then mk_dq (Some 4%positive) (Some 4%positive)
          else mk_dq NULL NULL).

Lemma demo_sched_repr lock st4 k4 :
  k4 ≠ g_readytorun → sched_repr (demo_ptr lock st4 k4) (demo_ls lock st4 k4).
Proof.
  intros Hk. split.
  - reflexivity.
  - intros k. unfold demo_ptr, demo_ls, demo_lists. simpl.
    repeat case_decide; subst.
    + split; [by_decide|]. split; [done|]. split; [done|].
      split; [by eexists|]. split; [by eexists|]. split; [by eexists|done].
    + split; [by_decide|]. split; [done|]. split; [done|]. split; [by eexists|done].
    + apply dq_repr_nil.
  - intros k k' a. simpl. unfold demo_lists. repeat case_decide; subst; set_solver.
Qed.

Lemma demo_lookup lock st4 a x :
  demo_tasks lock st4 !! a = Some x →
  (a = 1%positive ∧ x = demo_td 0 0 TSTATE_TASK_READYTORUN 0) ∨
  (a = 2%positive ∧ x = demo_td 2 100 TSTATE_TASK_RUNNING lock) ∨
  (a = 3%positive ∧ x = demo_td 3 100 TSTATE_TASK_READYTORUN 0) ∨
  (a = 4%positive ∧ x = demo_td 4 150 st4 0).
Proof.
  unfold demo_tasks. rewrite !lookup_insert_Some, lookup_singleton_Some. naive_solver.
Qed.

Lemma demo_inv lock st4 k4 :
  TLIST_BLOCKED st4 = Some k4 → k4 ≠ g_readytorun → 0 ≤ lock ≤ MAX_LOCK_COUNT →
  (k4 = g_pendingtasks → 0 < lock) →
  sched_inv 1 (demo_ls lock st4 k4).
Proof.
  intros Hst Hk Hlock Hp. split; [split|..]; simpl.
  - intros a k. unfold demo_lists. split.
    + repeat case_decide; subst; set_unfold; intros Ha; destruct_or? Ha; subst;
        eexists; (split; [reflexivity|done]).
    + intros (x & Hx & Hxk). destruct (demo_lookup _ _ _ _ Hx) as [[-> ->]|[[-> ->]|[[-> ->]|[-> ->]]]];
        [injection Hxk as <-; rewrite decide_True by done; set_solver..|].
      simpl in Hxk. assert (k = k4) as -> by congruence. rewrite decide_False, decide_True by done. set_solver.
  - intros k. unfold demo_lists. repeat case_decide; by_decide.
  - intros k _. unfold demo_lists. repeat case_decide; reflexivity.
  - exists [2%positive; 3%positive]. split; [done|]. by_decide.
  - reflexivity.
  - intros a x Hx Ha. destruct (demo_lookup _ _ _ _ Hx) as [[-> ->]|[[-> ->]|[[-> ->]|[-> ->]]]];
      simpl; done || lia.
  - intros a x Hx. destruct (demo_lookup _ _ _ _ Hx) as [[-> ->]|[[-> ->]|[[-> ->]|[-> ->]]]];
      simpl; unfold MAX_LOCK_COUNT in *; lia.
  - intros a x Hx. simpl. destruct (demo_lookup _ _ _ _ Hx) as [[-> ->]|[[-> ->]|[[-> ->]|[-> ->]]]];
      simpl; try (split; done). split; [intros ->; injection Hst as <-; done|]. by intros [= ].
  - intros Hne. exists 2%positive, [3%positive; 1%positive], (demo_td 2 100 TSTATE_TASK_RUNNING lock).
    split; [done|]. split; [done|]. apply Hp. simpl in Hne. unfold demo_lists in Hne.
    destruct (decide (g_pendingtasks = k4)); [done|]. by rewrite decide_False in Hne.
Qed.

(** ** Properties *)

Section props.
Context `{Config} (idle : addr).
Implicit Types (s : sched_s) (t : lsched).

(** C1: no history of scheduler operations (locking, unlocking, blocking,
    unblocking, setting priorities, yielding, charging time slices) faults or fails
    an assertion on the linked task lists, and the scheduler invariant holds after
    it.  This is so in builds with and without assertions; in a build without them
    the histories do not give a ready task that does not run a priority that is not
    above that of the running task ([may_setpriority]). *)
Theorem sched_history_safe os s t :
  sched_repr s t → sched_inv idle t →
  Forall (λ o, sched_op_in (dom (tasks t)) o = true) os →
  ∃ s' t', sched_run idle os s = Some (tt, s') ∧ sched_repr s' t' ∧ sched_inv idle t'.
Proof.
  intros Hs Hinv Hin. destruct (sched_run_ok idle os t Hinv Hin) as (t' & Hrun & Hinv' & _).
  destruct (sim_sched_run idle os s t tt t' Hs Hrun) as (s' & Hrun' & Hs'). eauto.
Qed.

Lemma running_task s t :
  sched_repr s t → sched_inv idle t →
  ∃ r x, this_task s = Some (r, s) ∧ tcbs s !! r = Some x ∧
         task_state (td x) = TSTATE_TASK_RUNNING ∧ hd_or NULL (lists t g_readytorun) = Some r.
Proof.
  intros Hs [Hc Hr _]. destruct (ready_head idle t Hc) as (r & l & d & Hl & Hd & _).
  destruct (sim_this_task s t r t Hs (ls_this_task _ _ _ Hl)) as (s' & Hrun & _).
  destruct (sr_lookup_r _ _ _ _ Hs Hd) as (x & Hx & <-).
  exists r, x. split; [|split; [done|split; [|by rewrite Hl]]].
  - rewrite Hrun. do 2 f_equal. unfold this_task in Hrun.
    apply K_bind_inv in Hrun as (p & s1 & H1 & H2). injection H1 as _ <-.
    unfold klift in H2. destruct p; simpl in H2; [|done]. by injection H2.
  - apply (Hr r (td x) Hd). by rewrite Hl.
Qed.

(** C2: after any such history (with the same condition on setting priorities in
    builds without assertions) the running task has the highest priority of all
    tasks that are ready to run, and, when it has not locked the scheduler, of
    all pending tasks as well. *)
Theorem highest_priority_runs os s t :
  sched_repr s t → sched_inv idle t →
  Forall (λ o, sched_op_in (dom (tasks t)) o = true) os →
  ∃ s' r xr, sched_run idle os s = Some (tt, s') ∧ this_task s' = Some (r, s') ∧
    tcbs s' !! r = Some xr ∧ task_state (td xr) = TSTATE_TASK_RUNNING ∧
    ∀ a x, tcbs s' !! a = Some x →
      is_readytorun_state (task_state (td x)) = true ∨
      (task_state (td x) = TSTATE_TASK_PENDING ∧ lockcount (td xr) = 0) →
      sched_priority (td x) ≤ sched_priority (td xr).
Proof.
  intros Hs Hinv Hin. destruct (sched_run_ok idle os t Hinv Hin) as (t' & Hrun & Hinv' & _).
  destruct (sim_sched_run idle os s t tt t' Hs Hrun) as (s' & Hrun' & Hs').
  destruct (running_task s' t' Hs' Hinv') as (r & xr & Hthis & Hxr & Hst & Hhd).
  exists s', r, xr. split; [done|]. split; [done|]. split; [done|]. split; [done|].
  intros a x Hx Hor. pose proof Hinv' as [Hc _ Hlk].
  destruct (lists t' g_readytorun) as [|r' l] eqn:Hl; [done|]. injection Hhd as ->.
  pose proof (sr_lookup _ _ _ _ Hs' Hx) as Hd. pose proof (sr_lookup _ _ _ _ Hs' Hxr) as Hdr.
  destruct Hor as [Hready|[Hpend Hzero]].
  - assert (a ∈ r :: l) as Ha.
    { rewrite <- Hl. apply (sc_listed _ _ Hc). exists (td x). split; [done|].
      by destruct (task_state (td x)). }
    pose proof (sc_sorted _ _ Hc g_readytorun eq_refl) as Hsort. rewrite Hl in Hsort.
    apply prio_sorted_cons in Hsort as [Hall _].
    rewrite <- (prio_lookup _ _ _ Hd), <- (prio_lookup _ _ _ Hdr).
    apply elem_of_cons in Ha as [->|Ha]; [done|]. rewrite Forall_forall in Hall. by apply Hall.
  - assert (a ∈ lists t' g_pendingtasks) as Ha.
    { apply (sc_listed _ _ Hc). exists (td x). by rewrite Hpend. }
    destruct Hlk as (r' & l' & y & Hl' & Hy & Hpos); [by intros Hnil; rewrite Hnil in Ha; inversion Ha|].
    rewrite Hl in Hl'. injection Hl' as <- <-. assert (y = td xr) by congruence. subst. lia.
Qed.

(** Where a task goes in a list ordered by priority: behind every task of the same or
    a higher priority and before the others. *)
Lemma prio_insert_where T a l :
  prio_sorted T l = true →
  ∃ l1 l2, l = l1 ++ l2 ∧ prio_insert T a l = l1 ++ a :: l2 ∧
    Forall (λ c, prio T a ≤ prio T c) l1 ∧ Forall (λ c, prio T c < prio T a) l2.
Proof.
  intros Hsort. destruct (prio_split T a l) as [Hall|(l1 & r & l2 & -> & Hall & Hlt)].
  - exists l, []. rewrite app_nil_r. split; [done|]. split; [by apply prio_insert_last|done].
  - exists l1, (r :: l2). split; [done|]. split; [by apply prio_insert_before|]. split; [done|].
    apply prio_sorted_app in Hsort as (_ & Hs2 & _). apply prio_sorted_cons in Hs2 as [Hr _].
    constructor; [done|]. eapply Forall_impl; [done|]. simpl. lia.
Qed.

(** [sched_addprioritized] on the linked list puts the task behind every task
    of the same or a higher priority and before the others, keeps the list
    ordered and says whether the task became the head. *)
Theorem sched_addprioritized_orders s t a x k :
  sched_repr s t → tcbs s !! a = Some x → (∀ k, a ∉ lists t k) →
  SCHED_PRIORITY_MIN ≤ sched_priority (td x) → prio_sorted (tasks t) (lists t k) = true →
  ∃ b q m l1 l2, sched_addprioritized a (queues s k) (tcbs s) = Some (b, q, m) ∧
    lists t k = l1 ++ l2 ∧
    sched_repr (set_queue k q m s) (set_list k (l1 ++ a :: l2) t) ∧
    prio_sorted (tasks t) (l1 ++ a :: l2) = true ∧
    Forall (λ c, prio (tasks t) a ≤ prio (tasks t) c) l1 ∧
    Forall (λ c, prio (tasks t) c < prio (tasks t) a) l2 ∧
    b = bool_decide (l1 = []).
Proof.
  intros Hs Hx Hno Hmin Hsort. pose proof (sr_lookup _ _ _ _ Hs Hx) as Hd.
  destruct (sim_list_addprioritized a k s t _ _ Hs (ls_addprioritized k a t _ Hd Hmin Hno))
    as (s' & Hrun & Hs').
  unfold list_addprioritized in Hrun. simpl in Hrun.
  destruct (sched_addprioritized a (queues s k) (tcbs s)) as [[[b q] m]|] eqn:Hadd; [|done].
  injection Hrun as Hb <-. exists b, q, m.
  pose proof (prio_sorted_insert (tasks t) a _ Hsort) as Hsort'.
  destruct (prio_insert_where (tasks t) a _ Hsort) as (l1 & l2 & Hl & Hins & Hge & Hlt).
  exists l1, l2. rewrite Hins in *. split_and!; try done. rewrite Hb. apply bool_decide_ext.
  rewrite hd_or_app. destruct l1 as [|c l1]; simpl; [done|]. split; [|done].
  intros [= ->]. destruct (Hno k). rewrite Hl. set_solver.
Qed.

(** C34: [sched_mergepending], which searches the ready-to-run list only once, is
    equivalent to inserting the pending tasks one by one; it empties the pending
    list and keeps the invariant. *)
Theorem sched_mergepending_inserts s t :
  sched_repr s t → sched_core idle t → running_ok t →
  ∃ b s' t', sched_mergepending s = Some (b, s') ∧ sched_repr s' t' ∧
    sched_core idle t' ∧ running_ok t' ∧ lists t' g_pendingtasks = [] ∧
    lists t' g_readytorun =
      foldl (λ l a, prio_insert (tasks t) a l) (lists t g_readytorun) (lists t g_pendingtasks).
Proof.
  intros Hs Hc Hr. destruct (mergepending_ok idle t Hc Hr) as (b & t' & Hrun & Hc' & Hr' & _ & Hl).
  destruct (sim_list_mergepending s t b t' Hs Hrun) as (s' & Hrun' & Hs').
  exists b, s', t'. split; [done|]. split; [done|]. split; [done|]. split; [done|].
  by rewrite !Hl.
Qed.

(** [up_block_task] moves the running task to the list of its new state
    (ordered by priority or at the end, as the table of task lists says), makes
    the pending tasks ready even if the task held the scheduler lock, and
    switches to the task of highest priority. *)
Theorem up_block_task_blocks s t r l x st k :
  sched_repr s t → sched_inv idle t → lists t g_readytorun = r :: l → tasks t !! r = Some x →
  r ≠ idle → is_blocked_state st = true → TLIST_BLOCKED st = Some k →
  ∃ s' t', up_block_task r st s = Some (true, s') ∧ sched_repr s' t' ∧ sched_inv idle t' ∧
    lists t' k = (if TLIST_ISPRIORITIZED st then prio_insert (tasks t) r (lists t k)
                  else lists t k ++ [r]) ∧
    lists t' g_pendingtasks = [] ∧
    lists t' g_readytorun = prio_merge (tasks t) (lists t g_pendingtasks) l.
Proof.
  intros Hs Hinv Hl Hx Hi Hb Hk.
  destruct (up_block_task_ok idle t r l x st k)
    as (t' & Hrun & Hinv' & _ & Hp & Hr & Hlk & _); [done..|].
  destruct (sim_up_block_task r st s t true t' Hs Hrun) as (s' & Hrun' & Hs').
  exists s', t'. by split_and!.
Qed.

(** [up_unblock_task] takes a blocked task off its list; while the running task
    holds the scheduler lock it is not pre-empted: a task of higher priority
    becomes pending and there is no switch.  Without the lock the task is made
    ready, and there is a switch exactly when its priority is higher. *)
Theorem up_unblock_task_respects_lock s t a x k r l xr :
  sched_repr s t → sched_inv idle t → tasks t !! a = Some x →
  is_blocked_state (task_state x) = true → TLIST_BLOCKED (task_state x) = Some k →
  lists t g_readytorun = r :: l → tasks t !! r = Some xr →
  ∃ b s' t', up_unblock_task a s = Some (b, s') ∧ sched_repr s' t' ∧ sched_inv idle t' ∧
    b = (lockcount xr =? 0) && (sched_priority xr <? sched_priority x) ∧
    (0 < lockcount xr → hd_or NULL (lists t' g_readytorun) = Some r) ∧
    lists t' (if must_wait xr (sched_priority x) then g_pendingtasks else g_readytorun) =
      prio_insert (tasks t) a
        (lists t (if must_wait xr (sched_priority x) then g_pendingtasks else g_readytorun)).
Proof.
  intros Hs Hinv Hx Hb Hk Hl Hxr.
  destruct (up_unblock_task_ok idle t a x k Hinv Hx Hb Hk)
    as (r' & l' & xr' & l1 & l2 & t' & Hl' & Hxr' & Hlk & Hrun & Hinv' & Hf & Hlists).
  rewrite Hl in Hl'. injection Hl' as <- <-. assert (xr' = xr) as -> by congruence.
  destruct (sim_up_unblock_task a s t _ t' Hs Hrun) as (s' & Hrun' & Hs').
  assert (k ≠ g_readytorun ∧ k ≠ g_pendingtasks) as [Hkr Hkp].
  { destruct (task_state x); simpl in *; naive_solver. }
  eexists _, s', t'. split; [done|]. split; [done|]. split; [done|]. split; [done|]. split.
  - intros Hpos. rewrite Hlists, decide_False by done. unfold must_wait.
    rewrite (proj2 (Z.ltb_lt _ _) Hpos). simpl.
    destruct (Z.ltb_spec (sched_priority xr) (sched_priority x)) as [Hlt|Hle].
    + rewrite decide_False by done. by rewrite Hl.
    + rewrite decide_True, Hl by done. simpl.
      rewrite (prio_lookup _ _ _ Hxr), (prio_lookup _ _ _ Hx).
      by rewrite (proj2 (Z.leb_le _ _) Hle).
  - rewrite Hlists, decide_False by (by case_match). by rewrite decide_True.
Qed.

(** [sched_unlock] undoes one [sched_lock]; the last one makes the pending
    tasks ready in priority order, and an inner one changes nothing but the
    count. *)
Theorem sched_unlock_releases s t r l x :
  sched_repr s t → sched_inv idle t → lists t g_readytorun = r :: l → tasks t !! r = Some x →
  ∃ b s' t' x', sched_unlock false s = Some ((OK, b), s') ∧ sched_repr s' t' ∧
    sched_inv idle t' ∧ tasks t' !! r = Some x' ∧ lockcount x' = Z.max 0 (lockcount x - 1) ∧
    (1 < lockcount x → b = false ∧ ∀ k, lists t' k = lists t k) ∧
    (lockcount x ≤ 1 → lists t' g_pendingtasks = [] ∧
       lists t' g_readytorun =
         prio_merge (tasks t) (lists t g_pendingtasks) (lists t g_readytorun)).
Proof.
  intros Hs Hinv Hl Hx.
  destruct (unlock_sched_ok idle t r l x) as (b & t' & Hrun & Hinv' & Hf & Hgt & Hle & _); [done..|].
  destruct (sim_unlock false s t _ t' Hs Hrun) as (s' & Hrun' & Hs').
  destruct (frame_lookup _ _ r (set_lockcount (Z.max 0 (lockcount x - 1)) x) Hf)
    as (y & Hy & Hk); [by rewrite lookup_alter_eq, Hx|].
  exists b, s', t', y. split; [done|]. split; [done|]. split; [done|]. split; [done|].
  split; [|done]. by injection Hk.
Qed.

(** [sched_yield] puts the running task behind the ready tasks of its priority,
    so that the next of them runs; it keeps the CPU when there is none. *)
Theorem sched_yield_rotates s t r l x :
  sched_repr s t → sched_inv idle t → lists t g_readytorun = r :: l → tasks t !! r = Some x →
  r ≠ idle → lists t g_pendingtasks = [] →
  ∃ b s' t' n l', sched_yield s = Some ((OK, b), s') ∧ sched_repr s' t' ∧ sched_inv idle t' ∧
    l = n :: l' ∧ b = (prio (tasks t) r <=? prio (tasks t) n) ∧
    lists t' g_readytorun =
      if prio (tasks t) r <=? prio (tasks t) n then prio_insert (tasks t) r l else r :: l.
Proof.
  intros Hs Hinv Hl Hx Hi Hp.
  destruct (yield_ok idle t r l x) as (b & t' & n & l' & Hrun & Hinv' & _ & _ & Hl' & Hb & Hr);
    [done..|].
  destruct (sim_yield s t _ t' Hs Hrun) as (s' & Hrun' & Hs'). rewrite Hp in Hr.
  exists b, s', t', n, l'. by split_and!.
Qed.

(** the timer takes [ticks] off the slice of the running task; while some is
    left, or the scheduler is locked, nothing is rescheduled; when it is used up
    the task goes behind the ready tasks of its priority. *)
Theorem sched_roundrobin_slices s t r l x ticks :
  sched_repr s t → sched_inv idle t → lists t g_readytorun = r :: l → tasks t !! r = Some x →
  0 ≤ timeslice x ≤ INT32_MAX → 0 ≤ ticks ≤ INT32_MAX →
  ∃ n b s' t', sched_roundrobin_process r ticks false s = Some ((n, b), s') ∧
    sched_repr s' t' ∧ sched_inv idle t' ∧
    (ticks < timeslice x ∨ 0 < lockcount x →
       b = false ∧ n = Z.max 0 (timeslice x - ticks) ∧ ∀ k, lists t' k = lists t k) ∧
    (timeslice x ≤ ticks → lockcount x = 0 → r ≠ idle → ∃ n' l', l = n' :: l' ∧
       b = (prio (tasks t) r <=? prio (tasks t) n') ∧
       lists t' g_readytorun =
         if prio (tasks t) r <=? prio (tasks t) n'
         then prio_insert (tasks t) r l else r :: l).
Proof.
  intros Hs Hinv Hl Hx Hts Htk.
  destruct (roundrobin_ok idle t r l x ticks) as (n & b & t' & Hrun & Hinv' & _ & _ & Hok); [done..|].
  destruct (sim_roundrobin r ticks false s t _ t' Hs Hrun) as (s' & Hrun' & Hs').
  exists n, b, s', t'. do 3 (split; [done|]). exact Hok.
Qed.

(** [nxsched_setpriority] rejects priorities out of range without any change;
    otherwise, with assertions enabled, the task gets the priority wherever it
    is and the invariant (so the order of every prioritized list) is kept. *)
Theorem nxsched_setpriority_reorders s t a x p :
  CONFIG_DEBUG_ASSERTIONS = true → sched_repr s t → sched_inv idle t →
  tasks t !! a = Some x → a ≠ idle →
  ∃ ret b s' t' x', nxsched_setpriority a p s = Some ((ret, b), s') ∧ sched_repr s' t' ∧
    sched_inv idle t' ∧ tasks t' !! a = Some x' ∧
    (if bool_decide (SCHED_PRIORITY_MIN ≤ p ≤ SCHED_PRIORITY_MAX)
     then ret = OK ∧ sched_priority x' = p
     else ret = - EINVAL ∧ b = false ∧ t' = t).
Proof.
  intros HD Hs Hinv Hx Hi. case_bool_decide as Hp.
  - destruct (ready_head idle t (sv_core _ _ Hinv)) as (r & l & xr & Hl & _).
    destruct (setpriority_ok idle t a r l x p) as (b & t' & Hrun & Hinv' & Hf & _); [by left|done..|].
    destruct (sim_setpriority a p s t _ t' Hs Hrun) as (s' & Hrun' & Hs').
    destruct (frame_lookup _ _ a (set_sched_priority p x) Hf) as (y & Hy & Hk);
      [by rewrite lookup_alter_eq, Hx|].
    exists OK, b, s', t', y. split; [done|]. split; [done|]. split; [done|]. split; [done|].
    split; [done|]. by injection Hk.
  - destruct (sim_setpriority a p s t _ t Hs (setpriority_invalid t a p ltac:(lia)))
      as (s' & Hrun' & Hs').
    exists (- EINVAL), false, s', t, x. by split_and!.
Qed.
End props.

(** ** Two flaws *)

#[local] Definition release_config : Config := {|
  CONFIG_DEBUG_ASSERTIONS := false; CONFIG_DEBUG_FEATURES := false;
  CONFIG_SCHED_TICKLESS_ALARM := false; CONFIG_MAX_WDOGPARMS := 4;
  CONFIG_PREALLOC_WDOGS := 32; CONFIG_WDOG_INTRESERVE := 4;
  CONFIG_RR_INTERVAL := 200; CONFIG_USEC_PER_TICK := 10000;
  CONFIG_MAX_TASKS := 16;
|}.

#[local] Definition debug_config : Config := {|
  CONFIG_DEBUG_ASSERTIONS := true; CONFIG_DEBUG_FEATURES := false;
  CONFIG_SCHED_TICKLESS_ALARM := false; CONFIG_MAX_WDOGPARMS := 4;
  CONFIG_PREALLOC_WDOGS := 32; CONFIG_WDOG_INTRESERVE := 4;
  CONFIG_RR_INTERVAL := 200; CONFIG_USEC_PER_TICK := 10000;
  CONFIG_MAX_TASKS := 16;
|}.

(** The priorities along a task list, read from the pointer state. *)
Definition prios (k : tasklist) (n : nat) (s : sched_s) : list Z :=
  (fix go n p := match n, p with
     | Datatypes.S n, Some a =>
         match tcbs s !! a with
         | Some x => sched_priority (td x) :: go n (flink x)
         | None => []
         end
     | _, _ => []
     end) n (dq_head (queues s k)).

(** Task 4 is made ready and pre-empts task 2, gives it priority 50 and blocks. *)
Definition demo_calls `{Config} : K sched_s unit :=
  _ ← up_unblock_task 4%positive; _ ← nxsched_setpriority 2%positive 50;
  _ ← up_block_task 4%positive TSTATE_WAIT_SEM; mret tt.

Definition demo_blocked : sched_s := demo_ptr 0 TSTATE_WAIT_SEM g_waitingforsemaphore.

(** The priorities of the ready tasks after some calls. *)
Definition run_prios (c : K sched_s unit) (s : sched_s) : option (list Z) :=
  prios g_readytorun 4 ∘ snd <$> c s.

(** without [CONFIG_DEBUG_ASSERTIONS], lowering the priority of a task that is
    ready but not running leaves it where it is in the ready-to-run list (the
    calls that move it are arguments of DEBUGASSERT): a task of priority 50 then
    runs while one of priority 100 is ready.  With assertions the list is
    ordered. *)
Theorem setpriority_release_breaks_order :
  run_prios (demo_calls (H := release_config)) demo_blocked = Some [50; 100; 0] ∧
  run_prios (demo_calls (H := debug_config)) demo_blocked = Some [100; 50; 0].
Proof. by vm_compute. Qed.

(** The result of [sched_yield], whether it switched, and the ready tasks after. *)
Definition yield_prios `{Config} (s : sched_s) : option (Z * bool * list Z) :=
  prod_map id (prios g_readytorun 4) <$> sched_yield s.

Definition demo_locked : sched_s := demo_ptr 1 TSTATE_TASK_PENDING g_pendingtasks.

(** [sched_yield] does not look at the scheduler lock: a task that holds it
    and yields is switched out, and the pending task it kept out runs. *)
Theorem sched_yield_ignores_lock :
  (lockcount ∘ td <$> tcbs demo_locked !! 2%positive) = Some 1 ∧
  prios g_readytorun 4 demo_locked = [100; 100; 0] ∧
  yield_prios (H := release_config) demo_locked = Some ((OK, true), [150; 100; 100; 0]).
Proof. by vm_compute. Qed.

(** ** Witnesses *)

#[local] Existing Instance debug_config.
#[local] Abbreviation L := (demo_ls 1 TSTATE_TASK_PENDING g_pendingtasks).
#[local] Abbreviation B := (demo_ls 0 TSTATE_WAIT_SEM g_waitingforsemaphore).
#[local] Abbreviation B1 := (demo_ls 1 TSTATE_WAIT_SEM g_waitingforsemaphore).
#[local] Abbreviation demo_blocked1 := (demo_ptr 1 TSTATE_WAIT_SEM g_waitingforsemaphore).

Lemma demo_locked_repr : sched_repr demo_locked L.
Proof. by apply demo_sched_repr. Qed.

Lemma demo_locked_inv : sched_inv 1 L.
Proof. by apply demo_inv. Qed.

Lemma demo_blocked_repr : sched_repr demo_blocked B.
Proof. by apply demo_sched_repr. Qed.

Lemma demo_blocked_inv : sched_inv 1 B.
Proof. by apply demo_inv. Qed.

Definition demo_ops : list sched_op :=
  [OpLock; OpUnlock; OpUnlock; OpSetPriority 3 200; OpBlock TSTATE_WAIT_SEM; OpYield;
   OpUnblock 3; OpSlice 20; OpSetPriority 4 0].

Lemma sched_history_safe_witness :
  ∃ s' t', sched_run 1 demo_ops demo_locked = Some (tt, s') ∧ sched_repr s' t' ∧ sched_inv 1 t'.
Proof.
  apply (sched_history_safe 1 demo_ops demo_locked L);
    [apply demo_locked_repr|apply demo_locked_inv|by_decide].
Defined.

Lemma highest_priority_runs_witness :
  ∃ s' r xr, sched_run 1 demo_ops demo_locked = Some (tt, s') ∧ this_task s' = Some (r, s') ∧
    tcbs s' !! r = Some xr ∧ task_state (td xr) = TSTATE_TASK_RUNNING ∧
    ∀ a x, tcbs s' !! a = Some x →
      is_readytorun_state (task_state (td x)) = true ∨
      (task_state (td x) = TSTATE_TASK_PENDING ∧ lockcount (td xr) = 0) →
      sched_priority (td x) ≤ sched_priority (td xr).
Proof.
  apply (highest_priority_runs 1 demo_ops demo_locked L);
    [apply demo_locked_repr|apply demo_locked_inv|by_decide].
Defined.

(** Task 4 of a system where it is on no list. *)
Definition demo_out : sched_s :=
  mk_sched (tcbs demo_blocked)
    (λ k, if decide (k = g_waitingforsemaphore) then mk_dq NULL NULL else queues demo_blocked k).

Definition demo_out_ls : lsched := set_list g_waitingforsemaphore [] B.

Lemma demo_out_repr : sched_repr demo_out demo_out_ls.
Proof.
  destruct demo_blocked_repr as [Ht Hq Hd]. split; [done|..].
  - intros k. unfold demo_out, demo_out_ls, set_list. cbn [queues lists tcbs].
    case_decide; [apply dq_repr_nil|apply Hq].
  - intros k k' a. unfold demo_out_ls, set_list. cbn [lists].
    repeat case_decide; [set_solver..|apply Hd].
Qed.

Lemma sched_addprioritized_orders_witness :
  ∃ b q m l1 l2, sched_addprioritized 4 (queues demo_out g_readytorun) (tcbs demo_out) = Some (b, q, m) ∧
    [2%positive; 3%positive; 1%positive] = l1 ++ l2 ∧
    sched_repr (set_queue g_readytorun q m demo_out)
      (set_list g_readytorun (l1 ++ 4%positive :: l2) demo_out_ls) ∧
    prio_sorted (tasks demo_out_ls) (l1 ++ 4%positive :: l2) = true ∧
    Forall (λ c, prio (tasks demo_out_ls) 4 ≤ prio (tasks demo_out_ls) c) l1 ∧
    Forall (λ c, prio (tasks demo_out_ls) c < prio (tasks demo_out_ls) 4) l2 ∧
    b = bool_decide (l1 = []).
Proof.
  apply (sched_addprioritized_orders demo_out demo_out_ls 4
           (mk_tcb NULL NULL (demo_td 4 150 TSTATE_WAIT_SEM 0)) g_readytorun).
  - apply demo_out_repr.
  - by vm_compute.
  - intros []; by_decide.
  - by vm_compute.
  - by vm_compute.
Defined.

Lemma sched_mergepending_inserts_witness :
  ∃ b s' t', sched_mergepending demo_locked = Some (b, s') ∧ sched_repr s' t' ∧
    sched_core 1 t' ∧ running_ok t' ∧ lists t' g_pendingtasks = [] ∧
    lists t' g_readytorun =
      foldl (λ l a, prio_insert (tasks L) a l) (lists L g_readytorun) (lists L g_pendingtasks).
Proof.
  apply (sched_mergepending_inserts 1 demo_locked L);
    [apply demo_locked_repr|apply (sv_core _ _ demo_locked_inv)|apply (sv_running _ _ demo_locked_inv)].
Defined.

Lemma up_block_task_blocks_witness :
  ∃ s' t', up_block_task 2 TSTATE_WAIT_SEM demo_locked = Some (true, s') ∧ sched_repr s' t' ∧
    sched_inv 1 t' ∧ lists t' g_waitingforsemaphore = [2%positive] ∧
    lists t' g_pendingtasks = [] ∧
    lists t' g_readytorun = [4%positive; 3%positive; 1%positive].
Proof.
  apply (up_block_task_blocks 1 demo_locked L 2 [3%positive; 1%positive]
           (demo_td 2 100 TSTATE_TASK_RUNNING 1) TSTATE_WAIT_SEM g_waitingforsemaphore);
    [apply demo_locked_repr|apply demo_locked_inv|done..].
Defined.

Lemma up_unblock_task_respects_lock_witness :
  ∃ b s' t', up_unblock_task 4 demo_blocked1 = Some (b, s') ∧ sched_repr s' t' ∧ sched_inv 1 t' ∧
    b = false ∧
    (0 < 1 → hd_or NULL (lists t' g_readytorun) = Some 2%positive) ∧
    lists t' g_pendingtasks = [4%positive].
Proof.
  apply (up_unblock_task_respects_lock 1 demo_blocked1 B1 4
           (demo_td 4 150 TSTATE_WAIT_SEM 0) g_waitingforsemaphore 2 [3%positive; 1%positive]
           (demo_td 2 100 TSTATE_TASK_RUNNING 1)); [by apply demo_sched_repr|by apply demo_inv|done..].
Defined.

Lemma sched_unlock_releases_witness :
  ∃ b s' t' x', sched_unlock false demo_locked = Some ((OK, b), s') ∧ sched_repr s' t' ∧
    sched_inv 1 t' ∧ tasks t' !! 2%positive = Some x' ∧ lockcount x' = 0 ∧
    (1 < 1 → b = false ∧ ∀ k, lists t' k = lists L k) ∧
    (1 ≤ 1 → lists t' g_pendingtasks = [] ∧
       lists t' g_readytorun = [4%positive; 2%positive; 3%positive; 1%positive]).
Proof.
  apply (sched_unlock_releases 1 demo_locked L 2 [3%positive; 1%positive]
           (demo_td 2 100 TSTATE_TASK_RUNNING 1));
    [apply demo_locked_repr|apply demo_locked_inv|done..].
Defined.

Lemma sched_yield_rotates_witness :
  ∃ b s' t' n l', sched_yield demo_blocked = Some ((OK, b), s') ∧ sched_repr s' t' ∧
    sched_inv 1 t' ∧ [3%positive; 1%positive] = n :: l' ∧
    b = (prio (tasks B) 2 <=? prio (tasks B) n) ∧
    lists t' g_readytorun =
      if prio (tasks B) 2 <=? prio (tasks B) n
      then prio_insert (tasks B) 2 [3%positive; 1%positive]
      else 2%positive :: [3%positive; 1%positive].
Proof.
  apply (sched_yield_rotates 1 demo_blocked B 2 [3%positive; 1%positive]
           (demo_td 2 100 TSTATE_TASK_RUNNING 0));
    [apply demo_blocked_repr|apply demo_blocked_inv|done..].
Defined.

Lemma sched_roundrobin_slices_witness :
  ∃ n b s' t', sched_roundrobin_process 2 20 false demo_blocked = Some ((n, b), s') ∧
    sched_repr s' t' ∧ sched_inv 1 t' ∧
    (20 < 20 ∨ 0 < 0 → b = false ∧ n = 0 ∧ ∀ k, lists t' k = lists B k) ∧
    (20 ≤ 20 → 0 = 0 → 2%positive ≠ 1%positive → ∃ n' l', [3%positive; 1%positive] = n' :: l' ∧
       b = (prio (tasks B) 2 <=? prio (tasks B) n') ∧
       lists t' g_readytorun =
         if prio (tasks B) 2 <=? prio (tasks B) n'
         then prio_insert (tasks B) 2 [3%positive; 1%positive]
         else 2%positive :: [3%positive; 1%positive]).
Proof.
  apply (sched_roundrobin_slices 1 demo_blocked B 2 [3%positive; 1%positive]
           (demo_td 2 100 TSTATE_TASK_RUNNING 0) 20);
    [apply demo_blocked_repr|apply demo_blocked_inv|done..].
Defined.

Lemma nxsched_setpriority_reorders_witness :
  ∃ ret b s' t' x', nxsched_setpriority 3 50 demo_blocked = Some ((ret, b), s') ∧ sched_repr s' t' ∧
    sched_inv 1 t' ∧ tasks t' !! 3%positive = Some x' ∧ ret = OK ∧ sched_priority x' = 50.
Proof.
  apply (nxsched_setpriority_reorders 1 demo_blocked B 3
           (demo_td 3 100 TSTATE_TASK_READYTORUN 0) 50);
    [done|apply demo_blocked_repr|apply demo_blocked_inv|done..].
Defined.
