(* ===== verification/Semaphore.v ===== *)
(** * Semaphore: counting semaphores (sched/semaphore)

    A semaphore is a count; while it is negative, its absolute value is the
    number of tasks that wait for it.  The waiting tasks of all semaphores are
    on one list of the scheduler, [g_waitingforsemaphore], and [waitsem] of the
    TCB says for which one a task waits.

    The functions of sched/semaphore are written over the task lists of Sched.v
    (the class [TaskLists]), so that they run on the linked lists and on the
    plain lists of SchedSpec.v.  A wait that blocks is two functions: the code
    up to the context switch, and what the task does when it runs again.
    Without [CONFIG_PRIORITY_INHERITANCE] the holder functions are empty. *)

From S2P Require Import Prelude Queue Sched.
Local Open Scope Z_scope.

(** ** Data *)

(** [struct sem_s] of include/semaphore.h; [semcount] is an int16_t. *)
Record sem_s := mk_sem { semcount : Z }.

(** [struct pidhash_s] of sched/sched/sched.h *)
Record pidhash_s := mk_ph { ph_tcb : ptr; ph_pid : Z }.

(** The scheduler, the semaphores and the table of process ids. *)
Record sys (S : Type) := mk_sys {
  ksched : S;
  sems : mem sem_s;
  g_pidhash : list pidhash_s;
}.
Arguments mk_sys {S}. Arguments ksched {S}. Arguments sems {S}. Arguments g_pidhash {S}.

Definition SEM_VALUE_MAX : Z := 32767.

(** The result of a wait: its return value, or the context switch, with the
    errno the caller had before. *)
Inductive wait_status := Waited (ret : Z) | Waiting (saved_errno : Z).

Section semaphores.
Context `{Config} {S : Type} `{!TaskLists S}.
Implicit Types (sem : ptr).

Definition on_sched {A} (c : K S A) : K (sys S) A := λ s,
  '(a, k) ← c (ksched s); Some (a, mk_sys k (sems s) (g_pidhash s)).

Definition sem_get (sem : ptr) : K (sys S) Z :=
  kget (λ s, semcount <$> deref sem (sems s)).
Definition sem_set (f : Z → Z) (sem : ptr) : K (sys S) unit :=
  kput (λ s, m ← store sem (λ x, mk_sem (s16 (f (semcount x)))) (sems s);
             Some (mk_sys (ksched s) m (g_pidhash s))).

(** sched/errno: [*get_errno_ptr() = errcode], outside interrupt handlers; when the
    head of the ready-to-run list is not running, a variable nobody reads is set. *)
Definition set_errno (errcode : Z) : K (sys S) unit :=
  on_sched (rtcb ← this_task; r ← tcb_get rtcb;
            kwhen (bool_decide (task_state r = TSTATE_TASK_RUNNING))
              (tcb_set (set_pterrno errcode) rtcb)).

(** libs/libc/semaphore/sem_init.c *)
Definition nxsem_init (sem : ptr) (value : Z) : K (sys S) Z :=
  if negb (bool_decide (sem = NULL)) && (value <=? SEM_VALUE_MAX)
  then sem_set (λ _, value) sem;; mret OK
  else mret (- EINVAL).

(** libs/libc/semaphore/sem_getvalue.c: [sval] says whether the place for the
    value is there; the value is returned. *)
Definition nxsem_getvalue (sem : ptr) (sval : bool) : K (sys S) (Z * option Z) :=
  if negb (bool_decide (sem = NULL)) && sval
  then c ← sem_get sem; mret (OK, Some c)
  else mret (- EINVAL, None).

(** ** Waiting *)

(** sem_wait.c *)
Definition nxsem_wait (up_interrupt_context : bool) (sem : ptr) : K (sys S) wait_status :=
  rtcb ← on_sched this_task;
  kassert (negb (bool_decide (sem = NULL)) && negb up_interrupt_context);;
  if bool_decide (sem = NULL) then mret (Waited (- EINVAL))
  else
    c ← sem_get sem;
    if 0 <? c then
      sem_set (λ c, c - 1) sem;;
      on_sched (tcb_set (set_waitsem NULL) rtcb);;
      mret (Waited OK)
    else
      r ← on_sched (tcb_get rtcb);
      kassert (bool_decide (waitsem r = NULL));;
      sem_set (λ c, c - 1) sem;;
      on_sched (tcb_set (set_waitsem sem) rtcb);;
      r ← on_sched (tcb_get rtcb);
      let saved_errno := pterrno r in
      on_sched (tcb_set (set_pterrno OK) rtcb);;
      _ ← on_sched (up_block_task rtcb TSTATE_WAIT_SEM);
      mret (Waiting saved_errno).

(** What follows [up_block_task] when the task runs again. *)
Definition nxsem_wait_resume (rtcb : addr) (saved_errno : Z) : K (sys S) Z :=
  r ← on_sched (tcb_get rtcb);
  let ret := if negb (pterrno r =? OK) then - pterrno r else OK in
  on_sched (tcb_set (set_pterrno saved_errno) rtcb);;
  mret ret.

(** sem_trywait.c *)
Definition nxsem_trywait (up_interrupt_context : bool) (sem : ptr) : K (sys S) Z :=
  rtcb ← on_sched this_task;
  kassert (negb (bool_decide (sem = NULL)) && negb up_interrupt_context);;
  if negb (bool_decide (sem = NULL)) then
    c ← sem_get sem;
    if 0 <? c then
      sem_set (λ c, c - 1) sem;;
      on_sched (tcb_set (set_waitsem NULL) rtcb);;
      mret OK
    else mret (- EAGAIN)
  else mret (- EINVAL).

(** ** Posting *)

(** [for (stcb = g_waitingforsemaphore.head;
          stcb && stcb->waitsem != sem; stcb = stcb->flink);] *)
Fixpoint nxsem_post_search (n : nat) (sem stcb : ptr) : K S ptr :=
  match stcb with
  | None => mret NULL
  | Some a =>
      x ← tcb_get a;
      if bool_decide (waitsem x = sem) then mret stcb
      else match n with
           | O => klift None
           | Datatypes.S n =>
               next ← tcb_flink g_waitingforsemaphore a;
               nxsem_post_search n sem next
           end
  end.

(** sem_post.c: returns the result and whether there was a context switch. *)
Definition nxsem_post (sem : ptr) : K (sys S) (Z * bool) :=
  if negb (bool_decide (sem = NULL)) then
    c ← sem_get sem;
    kassert (c <? SEM_VALUE_MAX);;
    sem_set (λ c, c + 1) sem;;
    c ← sem_get sem;
    if c <=? 0 then
      n ← on_sched tcb_count;
      head ← on_sched (list_head g_waitingforsemaphore);
      stcb ← on_sched (nxsem_post_search n sem head);
      match stcb with
      | Some stcb =>
          on_sched (tcb_set (set_waitsem NULL) stcb);;
          b ← on_sched (up_unblock_task stcb);
          mret (OK, b)
      | None =>
          (* DEBUGPANIC *)
          kassert false;; mret (OK, false)
      end
    else mret (OK, false)
  else mret (- EINVAL, false).

(** sem_waitirq.c: whether there was a context switch. *)
Definition nxsem_wait_irq (wtcb : addr) (errcode : Z) : K (sys S) bool :=
  w ← on_sched (tcb_get wtcb);
  if bool_decide (task_state w = TSTATE_WAIT_SEM) then
    let sem := waitsem w in
    c ← sem_get sem;
    kassert (negb (bool_decide (sem = NULL)) && (c <? 0));;
    sem_set (λ c, c + 1) sem;;
    on_sched (tcb_set (set_waitsem NULL) wtcb);;
    on_sched (tcb_set (set_pterrno errcode) wtcb);;
    on_sched (up_unblock_task wtcb)
  else mret false.

(** sched_gettcb.c *)
Definition PIDHASH (pid : Z) : Z := Z.land pid (CONFIG_MAX_TASKS - 1).

Definition sched_gettcb (pid : Z) : K (sys S) ptr :=
  if 0 <=? pid then
    e ← kget (λ s, g_pidhash s !! Z.to_nat (PIDHASH pid));
    mret (if pid =? ph_pid e then ph_tcb e else NULL)
  else mret NULL.

(** sem_timeout.c: the watchdog function of a timed wait. *)
Definition nxsem_timeout (argc : Z) (pid : Z) : K (sys S) bool :=
  wtcb ← sched_gettcb (s16 pid);
  match wtcb with
  | Some wtcb =>
      w ← on_sched (tcb_get wtcb);
      if bool_decide (task_state w = TSTATE_WAIT_SEM)
      then nxsem_wait_irq wtcb ETIMEDOUT else mret false
  | None => mret false
  end.

(** sem_recover.c: a task is deleted while it waits. *)
Definition nxsem_recover (tcb : addr) : K (sys S) unit :=
  t ← on_sched (tcb_get tcb);
  if bool_decide (task_state t = TSTATE_WAIT_SEM) then
    let sem := waitsem t in
    c ← sem_get sem;
    kassert (negb (bool_decide (sem = NULL)) && (c <? 0));;
    sem_set (λ c, c + 1) sem;;
    on_sched (tcb_set (set_waitsem NULL) tcb)
  else mret tt.

(** sem_reset.c: the loop, for the [count] that is left, and the function. *)
Fixpoint nxsem_reset_loop (count : nat) (sem : ptr) : K (sys S) nat :=
  match count with
  | O => mret O
  | Datatypes.S n =>
      c ← sem_get sem;
      if c <? 0 then
        '(ret, _) ← nxsem_post sem;
        kassert (0 <=? ret);;
        nxsem_reset_loop n sem
      else mret count
  end.

Definition nxsem_reset (up_interrupt_context : bool) (sem : ptr) (count : Z)
  : K (sys S) (Z * bool) :=
  kassert (negb (bool_decide (sem = NULL)) && (0 <=? count));;
  _ ← on_sched (sched_lock up_interrupt_context);
  count ← nxsem_reset_loop (Z.to_nat count) sem;
  c ← sem_get sem;
  kwhen (0 <=? c) (sem_set (λ _, Z.of_nat count) sem);;
  '(_, b) ← on_sched (sched_unlock up_interrupt_context);
  mret (OK, b).

(** sem_destroy.c *)
Definition nxsem_destroy (sem : ptr) : K (sys S) Z :=
  if negb (bool_decide (sem = NULL)) then
    c ← sem_get sem;
    kwhen (0 <=? c) (sem_set (λ _, 1) sem);;
    mret OK
  else mret (- EINVAL).

(** ** The application interface: [ERROR] (-1) with errno set *)

Definition errno_result (ret : Z) : K (sys S) Z :=
  if ret <? 0 then set_errno (- ret);; mret (-1) else mret ret.

Definition sem_wait (sem : ptr) : K (sys S) wait_status :=
  st ← nxsem_wait false sem;
  match st with
  | Waited ret => ret ← errno_result ret; mret (Waited ret)
  | Waiting saved => mret (Waiting saved)
  end.

Definition sem_wait_resume (rtcb : addr) (saved_errno : Z) : K (sys S) Z :=
  ret ← nxsem_wait_resume rtcb saved_errno; errno_result ret.

Definition sem_trywait (sem : ptr) : K (sys S) Z :=
  ret ← nxsem_trywait false sem; errno_result ret.

Definition sem_post (sem : ptr) : K (sys S) (Z * bool) :=
  '(ret, b) ← nxsem_post sem; ret ← errno_result ret; mret (ret, b).

Definition sem_init (sem : ptr) (value : Z) : K (sys S) Z :=
  ret ← nxsem_init sem value; errno_result ret.

Definition sem_destroy (sem : ptr) : K (sys S) Z :=
  ret ← nxsem_destroy sem; errno_result ret.

Definition sem_getvalue (sem : ptr) (sval : bool) : K (sys S) (Z * option Z) :=
  '(ret, v) ← nxsem_getvalue sem sval; ret ← errno_result ret; mret (ret, v).
End semaphores.
