(* ===== verification/SemSpec.v ===== *)
(** * SemSpec: the semaphores on plain lists

    The pointer code of the semaphores simulates the same code on plain lists;
    [sem_ok] is the counting invariant between [semcount], [waitsem] and the
    list of waiting tasks, and each operation of sched/semaphore is specified
    on that level. *)

From S2P Require Import Prelude Queue QueueRefine Sched SchedSpec SchedInv SchedOps Semaphore.
Local Open Scope Z_scope.

(** ** Simulation *)

Record sys_repr (s : sys sched_s) (t : sys lsched) : Prop := {
  yr_sched : sched_repr (ksched s) (ksched t);
  yr_sems : sems s = sems t;
  yr_pidhash : g_pidhash s = g_pidhash t;
}.

Section simulation.
Context `{Config}.
Abbreviation simulates c := (sim sys_repr c c).

Lemma sim_on_sched {A} (c : K sched_s A) (d : K lsched A) :
  sim sched_repr c d → sim sys_repr (on_sched c) (on_sched d).
Proof.
  intros Hc s t a t' [Hs Hm Hp]. unfold on_sched.
  destruct (d (ksched t)) as [[a1 k1]|] eqn:Hd; simpl; [|done]. intros [= -> <-].
  destruct (Hc _ _ _ _ Hs Hd) as (k' & -> & Hk'). simpl. eexists. split; [done|]. by split.
Qed.

Lemma sim_sem_get p : simulates (sem_get p).
Proof. apply sim_get. intros s t a [Hs Hm Hp]. by rewrite Hm. Qed.

Lemma sim_sem_set f p : simulates (sem_set f p).
Proof.
  intros s t a t' [Hs Hm Hp]. unfold sem_set, kput. rewrite Hm.
  destruct (store p _ (sems t)) as [m|]; simpl; [|done]. intros [= <- <-].
  eexists. split; [done|]. by split.
Qed.

Lemma sim_gettcb pid : simulates (sched_gettcb pid).
Proof.
  unfold sched_gettcb. case_match; [|apply sim_ret]. apply sim_bind; [|intros; apply sim_ret].
  apply sim_get. intros s t a [Hs Hm Hp]. by rewrite Hp.
Qed.
#[local] Hint Resolve sim_on_sched sim_sem_get sim_sem_set sim_gettcb : sched_sim.

Lemma sim_post_search n p q : sim sched_repr (nxsem_post_search n p q) (nxsem_post_search n p q).
Proof. revert q. induction n as [|n IH]; intros q; simpl; solve_sim. Qed.
#[local] Hint Resolve sim_post_search : sched_sim.

Lemma sim_nxsem_wait irq p : simulates (nxsem_wait irq p).
Proof. unfold nxsem_wait. solve_sim. Qed.

Lemma sim_nxsem_wait_resume a e : simulates (nxsem_wait_resume a e).
Proof. unfold nxsem_wait_resume. solve_sim. Qed.

Lemma sim_nxsem_trywait irq p : simulates (nxsem_trywait irq p).
Proof. unfold nxsem_trywait. solve_sim. Qed.

Lemma sim_nxsem_post p : simulates (nxsem_post p).
Proof. unfold nxsem_post. solve_sim. Qed.

Lemma sim_nxsem_wait_irq a e : simulates (nxsem_wait_irq a e).
Proof. unfold nxsem_wait_irq. solve_sim. Qed.
#[local] Hint Resolve sim_nxsem_post sim_nxsem_wait_irq : sched_sim.

Lemma sim_nxsem_timeout n pid : simulates (nxsem_timeout n pid).
Proof. unfold nxsem_timeout. solve_sim. Qed.

Lemma sim_nxsem_recover a : simulates (nxsem_recover a).
Proof. unfold nxsem_recover. solve_sim. Qed.

Lemma sim_nxsem_reset_loop n p : simulates (nxsem_reset_loop n p).
Proof. induction n as [|n IH]; simpl; solve_sim. Qed.
#[local] Hint Resolve sim_nxsem_reset_loop : sched_sim.

Lemma sim_nxsem_reset irq p n : simulates (nxsem_reset irq p n).
Proof. unfold nxsem_reset. solve_sim. Qed.

Lemma sim_nxsem_init p v : simulates (nxsem_init p v).
Proof. unfold nxsem_init. solve_sim. Qed.

Lemma sim_nxsem_destroy p : simulates (nxsem_destroy p).
Proof. unfold nxsem_destroy. solve_sim. Qed.
End simulation.

#[export] Hint Resolve sim_on_sched sim_sem_get sim_sem_set sim_gettcb sim_nxsem_wait
  sim_nxsem_wait_resume sim_nxsem_trywait sim_nxsem_post sim_nxsem_wait_irq sim_nxsem_timeout
  sim_nxsem_recover sim_nxsem_reset sim_nxsem_init sim_nxsem_destroy : sched_sim.

(** ** The counting invariant *)

(** The tasks of [W] that wait for [p], [w] being [waitsem] of each task. *)
Definition waiting_for (w : addr → ptr) (W : list addr) (p : addr) : list addr :=
  filter (λ a, w a = Some p) W.

(** [dead] are the tasks [nxsem_recover] has taken off their semaphore. *)
Record sem_ok (w : addr → ptr) (W : list addr) (m : mem sem_s) (dead : gset addr) : Prop := {
  so_waits a p : w a = Some p → a ∈ W ∧ p ∈ dom m;
  so_live a : a ∈ W → a ∉ dead → w a ≠ NULL;
  so_max p x : m !! p = Some x → semcount x ≤ SEM_VALUE_MAX;
  so_count p x : m !! p = Some x →
    Z.max 0 (- semcount x) = Z.of_nat (length (waiting_for w W p));
}.

Definition set_wait (a : addr) (p : ptr) (w : addr → ptr) (b : addr) : ptr :=
  if decide (b = a) then p else w b.

Section sem_ok.
Implicit Types (w : addr → ptr) (W : list addr) (m : mem sem_s) (c : Z) (p a : addr).

Lemma waiting_for_ext w w' W p :
  (∀ a, a ∈ W → w a = w' a) → waiting_for w W p = waiting_for w' W p.
Proof.
  unfold waiting_for. induction W as [|a W IH]; intros Hw; [done|].
  rewrite !filter_cons, IH by set_solver. by rewrite (Hw a) by set_solver.
Qed.

#[export] Instance waiting_for_proper w :
  Proper (Permutation ==> eq ==> Permutation) (waiting_for w).
Proof. intros W W' HW p _ <-. unfold waiting_for. by rewrite HW. Qed.

Lemma waiting_for_set w W a p q :
  a ∉ W → waiting_for (set_wait a q w) W p = waiting_for w W p.
Proof.
  intros Ha. apply waiting_for_ext. intros b Hb. unfold set_wait. case_decide; set_solver.
Qed.

Lemma waiting_for_cons w W a p :
  waiting_for w (a :: W) p =
    if decide (w a = Some p) then a :: waiting_for w W p else waiting_for w W p.
Proof. unfold waiting_for. by rewrite filter_cons. Qed.

Lemma set_wait_eq w a q : set_wait a q w a = q.
Proof. unfold set_wait. by rewrite decide_True. Qed.

Lemma set_wait_ne w a b q : b ≠ a → set_wait a q w b = w b.
Proof. intros. unfold set_wait. by rewrite decide_False. Qed.

Lemma sem_ok_ext w w' W W' m dead :
  sem_ok w W m dead → (∀ a, w' a = w a) → W' ≡ₚ W → sem_ok w' W' m dead.
Proof.
  intros [Hw Hl Hm Hc] Hext HW. split.
  - intros a p. rewrite Hext, HW. apply Hw.
  - intros a. rewrite Hext, HW. apply Hl.
  - done.
  - intros p x Hx. rewrite (Hc _ _ Hx). f_equal. rewrite HW.
    f_equal. by apply waiting_for_ext.
Qed.

(** A semaphore that no task waits for gets another count. *)
Lemma sem_ok_set w W m dead p x c :
  sem_ok w W m dead → m !! p = Some x → 0 ≤ semcount x → 0 ≤ c ≤ SEM_VALUE_MAX →
  sem_ok w W (<[p := mk_sem c]> m) dead.
Proof.
  intros [Hw Hl Hm Hc] Hx Hx0 Hc0. split; [|done|..].
  - intros a q Ha. rewrite dom_insert. destruct (Hw a q Ha). set_solver.
  - intros q y. rewrite lookup_insert_Some. intros [[<- <-]|[_ Hy]]; [simpl; lia|by apply (Hm q)].
  - intros q y. rewrite lookup_insert_Some. intros [[<- <-]|[_ Hy]]; [|by apply Hc].
    simpl. rewrite <- (Hc _ _ Hx). lia.
Qed.

(** The running task starts to wait. *)
Lemma sem_ok_block w W W' m dead a p x :
  sem_ok w W m dead → m !! p = Some x → semcount x ≤ 0 → a ∉ W → W' ≡ₚ a :: W →
  sem_ok (set_wait a (Some p) w) W' (<[p := mk_sem (semcount x - 1)]> m) dead.
Proof.
  intros [Hw Hl Hm Hc] Hx Hx0 Ha HW. split.
  - intros b q. rewrite HW, dom_insert. unfold set_wait. case_decide as Hb.
    + intros [= ->]. set_solver.
    + intros Hbq. destruct (Hw b q Hbq). set_solver.
  - intros b. rewrite HW. unfold set_wait. case_decide as Hb; [done|].
    intros Hin. apply Hl. set_solver.
  - intros q y. rewrite lookup_insert_Some. pose proof (Hm _ _ Hx).
    intros [[<- <-]|[_ Hy]]; [simpl; lia|by apply (Hm q)].
  - intros q y Hy. rewrite HW, waiting_for_cons, set_wait_eq.
    rewrite waiting_for_set by done. rewrite lookup_insert_Some in Hy.
    destruct Hy as [[<- <-]|[Hne Hy]].
    + rewrite decide_True by done. simpl. specialize (Hc _ _ Hx). lia.
    + rewrite decide_False by congruence. by apply Hc.
Qed.

(** A waiting task is taken off its semaphore, and off the list unless it is dead. *)
Lemma sem_ok_leave w W W' m dead dead' a p x :
  sem_ok w W m dead → w a = Some p → m !! p = Some x → NoDup W →
  (W ≡ₚ a :: W' ∧ dead' = dead ∨ W' ≡ₚ W ∧ dead' = {[a]} ∪ dead) →
  semcount x < 0 ∧
  sem_ok (set_wait a NULL w) W' (<[p := mk_sem (semcount x + 1)]> m) dead'.
Proof.
  intros [Hw Hl Hm Hc] Ha Hx Hnd HW. destruct (Hw _ _ Ha) as [HaW _].
  destruct (list_elem_of_split_l _ _ HaW) as (W1 & W2 & -> & HnW).
  set (V := W1 ++ W2). assert (W1 ++ a :: W2 ≡ₚ a :: V) as HV by (symmetry; apply Permutation_middle).
  rewrite HV in Hnd. apply NoDup_cons in Hnd as [HaV HndV].
  assert (∀ q, length (waiting_for w (W1 ++ a :: W2) q) =
               ((if decide (q = p) then 1 else 0) + length (waiting_for w V q))%nat) as Hlen.
  { intros q. rewrite HV, waiting_for_cons, Ha.
    do 2 case_decide; (done || congruence). }
  assert (∀ q, length (waiting_for (set_wait a NULL w) W' q) = length (waiting_for w V q)) as Hlen'.
  { intros q. destruct HW as [[HW _]|[HW _]].
    - rewrite HV in HW. apply Permutation_cons_inv in HW. rewrite <- HW, waiting_for_set by done.
      done.
    - rewrite HW, HV, waiting_for_cons.
      by rewrite set_wait_eq, decide_False, waiting_for_set by done. }
  pose proof (Hc _ _ Hx) as Hcx. rewrite Hlen, decide_True in Hcx by done.
  split; [lia|]. split.
  - intros b q. unfold set_wait. case_decide as Hb; [done|]. intros Hbq.
    destruct (Hw b q Hbq) as [HbW Hq]. split; [|rewrite dom_insert; set_solver].
    destruct HW as [[HW _]|[HW _]]; [|by rewrite HW]. rewrite HW in HbW. set_solver.
  - intros b Hb Hd. assert (b ≠ a) as Hne.
    { intros ->. destruct HW as [[HW _]|[_ ->]]; [|set_solver].
      rewrite HV in HW. apply Permutation_cons_inv in HW. by rewrite <- HW in Hb. }
    rewrite set_wait_ne by done. apply Hl.
    + destruct HW as [[HW _]|[HW _]]; [rewrite HW; set_solver|by rewrite <- HW].
    + destruct HW as [[_ ->]|[_ ->]]; set_solver.
  - intros q y. rewrite lookup_insert_Some. intros [[<- <-]|[_ Hy]]; [simpl|by apply (Hm q)].
    unfold SEM_VALUE_MAX. lia.
  - intros q y. rewrite lookup_insert_Some, Hlen'. intros [[<- <-]|[Hne Hy]]; [simpl; lia|].
    rewrite (Hc _ _ Hy), Hlen, decide_False by done. done.
Qed.
End sem_ok.
