(* ===== verification/SemOps.v ===== *)
(** * SemOps: the semaphore operations keep the counting invariant

    On the lists of SchedSpec.v: what each function of sched/semaphore does to
    the count, to the waiting tasks and to the scheduler, from any state of the
    invariant. *)

From S2P Require Import Prelude Queue QueueRefine Sched SchedSpec SchedInv SchedOps Semaphore SemSpec.
Local Open Scope Z_scope.

#[global] Arguments up_block_task : simpl never.
#[global] Arguments up_unblock_task : simpl never.
#[global] Arguments sched_lock : simpl never.
#[global] Arguments sched_unlock : simpl never.

Definition wsem (T : taskmap) (a : addr) : ptr :=
  match T !! a with Some x => waitsem x | None => NULL end.

(** The tasks waiting for [p], highest priority first. *)
Definition waiters (t : lsched) (p : addr) : list addr :=
  waiting_for (wsem (tasks t)) (lists t g_waitingforsemaphore) p.

Record sem_inv (idle : addr) (dead : gset addr) (u : sys lsched) : Prop := {
  sm_sched : sched_inv idle (ksched u);
  sm_size : Z.of_nat (size (tasks (ksched u))) ≤ SEM_VALUE_MAX;
  sm_ok : sem_ok (wsem (tasks (ksched u))) (lists (ksched u) g_waitingforsemaphore)
            (sems u) dead;
}.

(** ** Running the code *)

Section run.
Context `{Config}.
Implicit Types (u : sys lsched).

Lemma on_sched_Some {A} (c : K lsched A) u a t :
  c (ksched u) = Some (a, t) → on_sched c u = Some (a, mk_sys t (sems u) (g_pidhash u)).
Proof. intros Hc. unfold on_sched. by rewrite Hc. Qed.

Lemma sem_get_Some u p x : sems u !! p = Some x → sem_get (Some p) u = Some (semcount x, u).
Proof. intros Hx. unfold sem_get, kget. simpl. by rewrite Hx. Qed.

Lemma sem_set_Some u f p x :
  sems u !! p = Some x →
  sem_set f (Some p) u =
    Some (tt, mk_sys (ksched u) (<[p := mk_sem (s16 (f (semcount x)))]> (sems u)) (g_pidhash u)).
Proof. intros Hx. unfold sem_set, kput. by rewrite (store_Some _ _ _ _ Hx). Qed.

Lemma sys_assert b u : b = true → kassert b u = Some (tt, u).
Proof. intros ->. unfold kassert, klift. by rewrite DEBUGASSERT_true. Qed.
End run.

(** One step of scheduler code on the system. *)
Tactic Notation "ysched" uconstr(H) :=
  erewrite K_bind_Some by (eapply on_sched_Some; eapply H; ksolve);
  cbn [ksched sems g_pidhash]; cbv beta.

(** ** The scheduler fields do not matter to semaphores, nor these to it *)

Section fields.
Context (idle : addr).
Implicit Types (t : lsched) (T : taskmap).

Lemma wsem_frame T t' a : frame T t' → wsem (tasks t') a = wsem T a.
Proof.
  intros Hf. apply (f_equal (.!! a)) in Hf. rewrite !lookup_fmap in Hf. unfold wsem.
  destruct (tasks t' !! a), (T !! a); simpl in Hf; try done. by injection Hf.
Qed.

Lemma wsem_alter T f a p b :
  is_Some (T !! a) → (∀ x, waitsem (f x) = p) → wsem (alter f a T) b = set_wait a p (wsem T) b.
Proof.
  intros [x Hx] Hf. unfold wsem, set_wait. case_decide as Hb.
  - subst. rewrite lookup_alter_eq, Hx. simpl. apply Hf.
  - by rewrite lookup_alter_ne.
Qed.

Lemma wsem_alter_same T f a b :
  (∀ x, waitsem (f x) = waitsem x) → wsem (alter f a T) b = wsem T b.
Proof.
  intros Hf. unfold wsem. destruct (decide (a = b)) as [->|]; [|by rewrite lookup_alter_ne].
  rewrite lookup_alter_eq. destruct (T !! b); simpl; [apply Hf|done].
Qed.

Lemma inv_upd t f a :
  (∀ x, task_state (f x) = task_state x ∧ sched_priority (f x) = sched_priority x ∧
        lockcount (f x) = lockcount x) →
  sched_inv idle t → sched_inv idle (upd f a t).
Proof.
  intros Hf [Hc Hr Hlk]. split.
  - apply core_upd; [done|]. intros x Hx. destruct (Hf x) as (-> & -> & ->).
    split; [done|]. split; [done|]. by apply (sc_lock _ _ Hc a x).
  - apply running_upd; [done|]. intros x. apply Hf.
  - intros Hp. destruct (Hlk Hp) as (r & l & x & Hl & Hx & Hpos). exists r, l. simpl.
    destruct (decide (a = r)) as [->|]; [|by exists x; rewrite lookup_alter_ne].
    exists (f x). rewrite lookup_alter_eq, Hx. split; [done|]. split; [done|].
    by rewrite (proj2 (proj2 (Hf x))).
Qed.

Lemma frame_size T t' : frame T t' → size (tasks t') = size T.
Proof. intros Hf. by rewrite <- (map_size_fmap td_keep_prio (tasks t')), Hf, map_size_fmap. Qed.

Lemma size_alter (T : taskmap) f a : size (alter f a T) = size T.
Proof. by rewrite <- !size_dom, dom_alter_L. Qed.
End fields.

(** ** Bounds *)

Lemma sem_bounds idle dead u p x :
  sem_inv idle dead u → sems u !! p = Some x →
  - SEM_VALUE_MAX ≤ semcount x ≤ SEM_VALUE_MAX.
Proof.
  intros [[Hc _ _] Hsz Hok] Hx. split; [|by apply (so_max _ _ _ _ Hok p)].
  pose proof (so_count _ _ _ _ Hok p x Hx) as Hcnt.
  assert (length (waiters (ksched u) p) ≤ size (tasks (ksched u)))%nat; [|unfold waiters in *; lia].
  transitivity (length (lists (ksched u) g_waitingforsemaphore)); [apply length_filter|].
  apply NoDup_dom_size; [apply Hc|]. apply Forall_forall. intros a Ha.
  destruct (sc_lookup idle _ a g_waitingforsemaphore Hc Ha) as (y & Hy & _).
  apply elem_of_dom. eauto.
Qed.

Lemma s16_count z : - SEM_VALUE_MAX - 1 ≤ z ≤ SEM_VALUE_MAX → s16 z = z.
Proof. intros. apply s16_small. unfold SEM_VALUE_MAX in *. lia. Qed.

Lemma upd_upd f g a t : upd f a (upd g a t) = upd (f ∘ g) a t.
Proof. unfold upd. simpl. f_equal. by rewrite alter_alter_eq. Qed.

Lemma Forall_sublist_filter {A} (P Q : A → Prop) `{!∀ a, Decision (P a)} l :
  Forall Q l → Forall Q (filter P l).
Proof. rewrite !Forall_forall. intros Hl a [_ Ha]%list_elem_of_filter. auto. Qed.

Lemma filter_prio_insert (P : addr → Prop) `{!∀ a, Decision (P a)} T a l :
  prio_sorted T l = true →
  filter P (prio_insert T a l) =
    if decide (P a) then prio_insert T a (filter P l) else filter P l.
Proof.
  intros Hs. destruct (prio_split T a l) as [Hall|(l1 & r & l2 & -> & Hall & Hlt)].
  - rewrite !prio_insert_last by (done || by apply Forall_sublist_filter).
    rewrite filter_app, filter_cons, filter_nil. case_decide; [done|by rewrite app_nil_r].
  - rewrite prio_insert_before, !filter_app by done. rewrite (filter_cons P a).
    case_decide; [|done].
    rewrite prio_insert_app by (by apply Forall_sublist_filter). f_equal.
    apply prio_sorted_app in Hs as (_ & Hs & _). apply prio_sorted_cons in Hs as [Hr _].
    assert (Forall (λ b, prio T b < prio T a) (filter P (r :: l2))) as Hf.
    { apply Forall_sublist_filter. constructor; [done|].
      eapply Forall_impl; [done|]. simpl. lia. }
    destruct (filter P (r :: l2)) as [|b l]; simpl; [done|].
    apply Forall_cons in Hf as [Hb _]. by rewrite (proj2 (Z.leb_gt _ _) Hb).
Qed.

Lemma prio_sorted_filter (P : addr → Prop) `{!∀ a, Decision (P a)} T l :
  prio_sorted T l = true → prio_sorted T (filter P l) = true.
Proof.
  induction l as [|c l IH]; [done|]. intros [Hall Hs]%prio_sorted_cons. rewrite filter_cons.
  case_decide; [|by apply IH]. apply prio_sorted_cons.
  split; [by apply Forall_sublist_filter|by apply IH].
Qed.

(** ** The running task and the waiting ones *)

Section ops.
Context `{Config} (idle : addr).
Implicit Types (u : sys lsched) (t : lsched) (dead : gset addr) (a p : addr).
Abbreviation inv := (sem_inv idle).

Lemma running_wsem u dead r l :
  inv dead u → lists (ksched u) g_readytorun = r :: l →
  ∃ x, tasks (ksched u) !! r = Some x ∧ waitsem x = NULL ∧
       r ∉ lists (ksched u) g_waitingforsemaphore.
Proof.
  intros [[Hc _ _] _ Hok] Hl.
  destruct (sc_lookup idle _ r g_readytorun Hc) as (x & Hx & Hk); [rewrite Hl; set_solver|].
  assert (r ∉ lists (ksched u) g_waitingforsemaphore) as Hno.
  { intros Ha. destruct (sc_lookup idle _ r _ Hc Ha) as (y & Hy & Hk'). congruence. }
  exists x. split; [done|]. split; [|done]. destruct (waitsem x) as [q|] eqn:Hw; [|done].
  destruct (so_waits _ _ _ _ Hok r q); [|done]. unfold wsem. by rewrite Hx.
Qed.

(** The sems change, the scheduler keeps [waitsem] and the list of waiters. *)
Lemma inv_change u dead t' m' :
  inv dead u → sched_inv idle t' → size (tasks t') = size (tasks (ksched u)) →
  sem_ok (wsem (tasks t')) (lists t' g_waitingforsemaphore) m' dead →
  inv dead (mk_sys t' m' (g_pidhash u)).
Proof. intros [_ Hsz _] Hinv Hs Hok. split; [done|simpl; by rewrite Hs|done]. Qed.

Lemma inv_count u dead p x c :
  inv dead u → sems u !! p = Some x → 0 ≤ semcount x → 0 ≤ c ≤ SEM_VALUE_MAX →
  inv dead (mk_sys (ksched u) (<[p := mk_sem c]> (sems u)) (g_pidhash u)).
Proof.
  intros Hi Hx Hx0 Hc. apply inv_change; [done|apply Hi|done|].
  eapply sem_ok_set; [apply Hi|done..].
Qed.

(** Clearing [waitsem] of the running task changes nothing. *)
Lemma upd_running_wsem u dead r l :
  inv dead u → lists (ksched u) g_readytorun = r :: l →
  upd (set_waitsem NULL) r (ksched u) = ksched u.
Proof.
  intros Hi Hl. destruct (running_wsem u dead r l Hi Hl) as (x & Hx & Hw & _).
  unfold upd. destruct (ksched u) as [T L]. simpl in *. f_equal. apply map_eq. intros b.
  destruct (decide (r = b)) as [<-|]; [|by rewrite lookup_alter_ne].
  rewrite lookup_alter_eq, Hx. simpl. f_equal. destruct x. unfold set_waitsem. simpl in *.
  by rewrite Hw.
Qed.

(** *** Taking a semaphore that is available *)

Lemma take_ok u dead p x r l :
  inv dead u → sems u !! p = Some x → 0 < semcount x → lists (ksched u) g_readytorun = r :: l →
  let u' := mk_sys (ksched u) (<[p := mk_sem (semcount x - 1)]> (sems u)) (g_pidhash u) in
  nxsem_wait false (Some p) u = Some (Waited OK, u') ∧
  nxsem_trywait false (Some p) u = Some (OK, u') ∧ inv dead u'.
Proof.
  intros Hi Hx Hpos Hl u'. pose proof (sem_bounds _ _ _ _ _ Hi Hx) as Hb.
  destruct (running_wsem u dead r l Hi Hl) as (xr & Hxr & _ & _).
  assert (∀ A (ret : A), (sem_set (λ c, c - 1) (Some p);;
     on_sched (tcb_set (set_waitsem NULL) r);; mret ret) u = Some (ret, u')) as Htake.
  { intros A ret. krun sem_set_Some. rewrite s16_count by lia. ysched ls_set.
    by rewrite (upd_running_wsem _ _ _ _ Hi Hl). }
  unfold nxsem_wait, nxsem_trywait. split; [|split].
  - ysched ls_this_task. krun sys_assert. destruct u as [t m h]. cbn [ksched sems g_pidhash] in *.
    rewrite bool_decide_eq_false_2 by done. krun sem_get_Some.
    by rewrite (proj2 (Z.ltb_lt _ _) Hpos).
  - ysched ls_this_task. krun sys_assert. destruct u as [t m h]. cbn [ksched sems g_pidhash] in *.
    rewrite bool_decide_eq_false_2 by done. cbn [negb]. krun sem_get_Some.
    by rewrite (proj2 (Z.ltb_lt _ _) Hpos).
  - apply (inv_count u dead p x); [done..|lia|lia].
Qed.

Lemma trywait_fails u dead p x r l :
  inv dead u → sems u !! p = Some x → semcount x ≤ 0 → lists (ksched u) g_readytorun = r :: l →
  nxsem_trywait false (Some p) u = Some (- EAGAIN, u).
Proof.
  intros Hi Hx Hz Hl. unfold nxsem_trywait. ysched ls_this_task. krun sys_assert.
  destruct u as [t m h]. cbn [ksched sems g_pidhash] in *.
  rewrite bool_decide_eq_false_2 by done. cbn [negb]. krun sem_get_Some.
  by rewrite (proj2 (Z.ltb_ge _ _) Hz).
Qed.

(** *** Waiting *)

Lemma wait_blocks u dead p x r l xr :
  inv dead u → sems u !! p = Some x → semcount x ≤ 0 →
  lists (ksched u) g_readytorun = r :: l → tasks (ksched u) !! r = Some xr → r ≠ idle →
  ∃ u', nxsem_wait false (Some p) u = Some (Waiting (pterrno xr), u') ∧ inv dead u' ∧
    sems u' = <[p := mk_sem (semcount x - 1)]> (sems u) ∧ g_pidhash u' = g_pidhash u ∧
    frame (alter (set_pterrno OK ∘ set_waitsem (Some p)) r (tasks (ksched u))) (ksched u') ∧
    lists (ksched u') g_waitingforsemaphore =
      prio_insert (tasks (ksched u)) r (lists (ksched u) g_waitingforsemaphore) ∧
    lists (ksched u') g_pendingtasks = [] ∧
    lists (ksched u') g_readytorun =
      prio_merge (tasks (ksched u)) (lists (ksched u) g_pendingtasks) l.
Proof.
  intros Hi Hx Hz Hl Hxr Hne. pose proof (sem_bounds _ _ _ _ _ Hi Hx) as Hb.
  destruct (running_wsem u dead r l Hi Hl) as (xr' & Hxr' & Hw & Hno).
  assert (xr' = xr) as -> by congruence.
  set (f := set_pterrno OK ∘ set_waitsem (Some p)).
  pose proof (inv_upd idle (ksched u) f r ltac:(done) (sm_sched _ _ _ Hi)) as Hinv1.
  destruct (up_block_task_ok idle (upd f r (ksched u)) r l (f xr) TSTATE_WAIT_SEM
              g_waitingforsemaphore)
    as (t' & Hrun & Hinv' & Hf & Hpend & Hready & Hwl & _);
    [done|done|simpl; by rewrite lookup_alter_eq, Hxr|done..|].
  assert (∀ b, prio (alter f r (tasks (ksched u))) b = prio (tasks (ksched u)) b) as Hpr
    by (intros b; by apply prio_alter).
  cbn [upd tasks lists] in *. unfold blocked_insert in Hwl. cbn in Hwl.
  rewrite (prio_insert_ext _ (tasks (ksched u))) in Hwl by done.
  rewrite (prio_merge_ext _ (tasks (ksched u))) in Hready by done.
  exists (mk_sys t' (<[p := mk_sem (semcount x - 1)]> (sems u)) (g_pidhash u)). split; [|split].
  - unfold nxsem_wait. ysched ls_this_task. krun sys_assert.
    destruct u as [t m h]. cbn [ksched sems g_pidhash] in *.
    rewrite bool_decide_eq_false_2 by done. krun sem_get_Some.
    rewrite (proj2 (Z.ltb_ge _ _) Hz). ysched ls_get.
    rewrite Hw. krun sys_assert. krun sem_set_Some. cbn [ksched sems g_pidhash].
    rewrite s16_count by lia. ysched ls_set.
    erewrite K_bind_Some
      by (eapply on_sched_Some, ls_get; simpl; rewrite lookup_alter_eq, Hxr; reflexivity).
    cbn [ksched sems g_pidhash]. ysched ls_set. rewrite upd_upd.
    erewrite K_bind_Some by (eapply on_sched_Some, Hrun). done.
  - apply inv_change; [done|done|by rewrite (frame_size _ _ Hf), size_alter|].
    eapply sem_ok_ext; [eapply sem_ok_block; [apply Hi|done|done|apply Hno|]|..].
    + rewrite <- (prio_insert_perm (tasks (ksched u)) r). reflexivity.
    + intros b. rewrite (wsem_frame _ _ _ Hf). apply wsem_alter; [by eexists|done].
    + by rewrite Hwl.
  - done.
Qed.

(** *** Leaving the queue of a semaphore *)

Lemma wait_sem_state st : TLIST_BLOCKED st = Some g_waitingforsemaphore → st = TSTATE_WAIT_SEM.
Proof. by destruct st. Qed.

(** A waiting task, its [waitsem] cleared by [f], is made ready. *)
Lemma unblock_waiter u dead a x p y f :
  inv dead u → tasks (ksched u) !! a = Some x → waitsem x = Some p → sems u !! p = Some y →
  (∀ x, task_state (f x) = task_state x ∧ sched_priority (f x) = sched_priority x ∧
        lockcount (f x) = lockcount x) → (∀ x, waitsem (f x) = NULL) →
  ∃ b t' W1 W2 r l xr, up_unblock_task a (upd f a (ksched u)) = Some (b, t') ∧ semcount y < 0 ∧
    inv dead (mk_sys t' (<[p := mk_sem (semcount y + 1)]> (sems u)) (g_pidhash u)) ∧
    frame (alter f a (tasks (ksched u))) t' ∧
    lists (ksched u) g_waitingforsemaphore = W1 ++ a :: W2 ∧
    lists t' g_waitingforsemaphore = W1 ++ W2 ∧
    lists (ksched u) g_readytorun = r :: l ∧ tasks (ksched u) !! r = Some xr ∧
    b = (lockcount xr =? 0) && (sched_priority xr <? sched_priority x) ∧
    ∀ k, k ≠ g_waitingforsemaphore → lists t' k =
      if decide (k = if must_wait xr (sched_priority x) then g_pendingtasks else g_readytorun)
      then prio_insert (tasks (ksched u)) a (lists (ksched u) k) else lists (ksched u) k.
Proof.
  intros Hi Hx Hw Hy Hf Hfw. pose proof (sm_sched _ _ _ Hi) as Hinv.
  assert (wsem (tasks (ksched u)) a = Some p) as Hwa by (unfold wsem; by rewrite Hx).
  destruct (so_waits _ _ _ _ (sm_ok _ _ _ Hi) a p Hwa) as [Ha _].
  destruct (sc_lookup idle _ a _ (sv_core _ _ Hinv) Ha) as (x' & Hx' & Hst).
  assert (x' = x) as -> by congruence.
  assert (task_state x = TSTATE_WAIT_SEM) as Hs by (by apply wait_sem_state).
  destruct (up_unblock_task_ok idle (upd f a (ksched u)) a (f x) g_waitingforsemaphore)
    as (r & l & xr0 & W1 & W2 & t' & Hl & Hxr0 & HW & Hrun & Hinv' & Hfr & Hlists);
    [by apply inv_upd|simpl; by rewrite lookup_alter_eq, Hx
    |rewrite (proj1 (Hf x)), Hs; done..|].
  rewrite (proj1 (proj2 (Hf x))) in Hrun, Hlists. cbn [upd tasks lists] in *.
  assert (r ≠ a) as Hne.
  { intros ->. destruct (running_wsem u dead a l Hi Hl) as (? & ? & ? & ?). congruence. }
  rewrite lookup_alter_ne in Hxr0 by done.
  destruct (sem_ok_leave _ _ (W1 ++ W2) _ dead dead a p y (sm_ok _ _ _ Hi) Hwa Hy)
    as [Hneg Hok]; [apply (sc_nodup _ _ (sv_core _ _ Hinv))| |].
  { left. split; [|done]. rewrite HW. symmetry. apply Permutation_middle. }
  assert (lists t' g_waitingforsemaphore = W1 ++ W2) as HW' by (by rewrite Hlists, decide_True).
  eexists _, t', W1, W2, r, l, xr0. split; [done|]. split; [done|]. split.
  - apply inv_change; [done|done|by rewrite (frame_size _ _ Hfr), size_alter|].
    eapply sem_ok_ext; [exact Hok| |by rewrite HW'].
    intros b. rewrite (wsem_frame _ _ _ Hfr). by apply wsem_alter.
  - do 6 (split; [done|]). intros k Hk. rewrite Hlists, decide_False by done.
    case_decide; [|done]. apply prio_insert_ext. intros b. apply prio_alter. intros z. apply Hf.
Qed.

Lemma post_search_ok t n p l1 l2 :
  sched_core idle t → lists t g_waitingforsemaphore = l1 ++ l2 → (length l2 ≤ n)%nat →
  nxsem_post_search n (Some p) (hd_or NULL l2) t =
    Some (hd_or NULL (waiting_for (wsem (tasks t)) l2 p), t).
Proof.
  intros Hc. revert n l1. induction l2 as [|a l2 IH]; intros n l1 Hl Hn; [by destruct n|].
  destruct n as [|n]; [simpl in Hn; lia|].
  assert (a ∈ lists t g_waitingforsemaphore) as Ha by (rewrite Hl; set_solver).
  destruct (sc_lookup idle t a _ Hc Ha) as (x & Hx & _). cbn [nxsem_post_search hd_or].
  krun ls_get. rewrite waiting_for_cons.
  assert (wsem (tasks t) a = waitsem x) as -> by (unfold wsem; by rewrite Hx).
  case_bool_decide as Hw; [by rewrite decide_True|]. rewrite decide_False by done.
  pose proof (sc_nodup _ _ Hc g_waitingforsemaphore) as Hnd. rewrite Hl in Hnd. nodup_facts.
  krun (ls_flink g_waitingforsemaphore a t l1 l2).
  apply (IH n (l1 ++ [a])); [by rewrite Hl, <- app_assoc|simpl in Hn; lia].
Qed.

Lemma waiting_length t :
  sched_core idle t → (length (lists t g_waitingforsemaphore) ≤ size (tasks t))%nat.
Proof.
  intros Hc. apply NoDup_dom_size; [apply Hc|]. apply Forall_forall. intros a Ha.
  destruct (sc_lookup idle _ a g_waitingforsemaphore Hc Ha) as (y & Hy & _).
  apply elem_of_dom. eauto.
Qed.

Lemma ls_count t : tcb_count t = Some (size (tasks t), t).
Proof. done. Qed.

(** *** The waiters of one semaphore *)

Lemma waiters_frame T t' W p :
  frame T t' → lists t' g_waitingforsemaphore = W →
  waiters t' p = waiting_for (wsem T) W p.
Proof.
  intros Hf <-. apply waiting_for_ext. intros a _. by apply wsem_frame.
Qed.

(** One task leaves the list of waiters. *)
Lemma waiters_leave u dead a W1 W2 t' f p :
  inv dead u → is_Some (tasks (ksched u) !! a) → (∀ x, waitsem (f x) = NULL) →
  wsem (tasks (ksched u)) a = Some p →
  frame (alter f a (tasks (ksched u))) t' →
  lists (ksched u) g_waitingforsemaphore = W1 ++ a :: W2 →
  lists t' g_waitingforsemaphore = W1 ++ W2 →
  ∃ A B, waiters (ksched u) p = A ++ a :: B ∧ (a ∉ A) ∧ waiters t' p = A ++ B ∧
    ∀ q, q ≠ p → waiters t' q = waiters (ksched u) q.
Proof.
  intros Hi Hx Hfw Hwa Hf HW HW'.
  pose proof (sc_nodup _ _ (sv_core _ _ (sm_sched _ _ _ Hi)) g_waitingforsemaphore) as Hnd.
  rewrite HW in Hnd. nodup_facts.
  assert (∀ q, waiters t' q = waiting_for (wsem (tasks (ksched u))) (W1 ++ W2) q) as Hw'.
  { intros q. rewrite (waiters_frame _ _ _ _ Hf HW'). apply waiting_for_ext.
    intros b Hb. rewrite (wsem_alter _ f a NULL) by done. apply set_wait_ne. set_solver. }
  exists (waiting_for (wsem (tasks (ksched u))) W1 p), (waiting_for (wsem (tasks (ksched u))) W2 p).
  unfold waiters at 1. rewrite HW. unfold waiting_for at 1. rewrite filter_app, filter_cons.
  rewrite decide_True by done. split; [done|]. split; [|split].
  - intros [_ Ha]%list_elem_of_filter. set_solver.
  - rewrite Hw'. unfold waiting_for. by rewrite filter_app.
  - intros q Hq. rewrite Hw'. unfold waiters. rewrite HW. unfold waiting_for.
    rewrite !filter_app, filter_cons, decide_False by congruence. done.
Qed.

(** *** Posting *)

Lemma post_free u dead p x :
  inv dead u → sems u !! p = Some x → 0 ≤ semcount x < SEM_VALUE_MAX →
  let u' := mk_sys (ksched u) (<[p := mk_sem (semcount x + 1)]> (sems u)) (g_pidhash u) in
  nxsem_post (Some p) u = Some ((OK, false), u') ∧ inv dead u'.
Proof.
  intros Hi Hx Hc u'. unfold nxsem_post. rewrite bool_decide_eq_false_2 by done. cbn [negb].
  split; [|apply (inv_count u dead p x); [done..|lia|lia]].
  krun sem_get_Some. rewrite (proj2 (Z.ltb_lt _ _) (proj2 Hc)). krun sys_assert.
  krun sem_set_Some. rewrite s16_count by lia. fold u'.
  erewrite K_bind_Some by (apply sem_get_Some, lookup_insert_eq). cbn [semcount].
  by rewrite (proj2 (Z.leb_gt _ _)) by lia.
Qed.

(** The first waiter of [p] is also the one of highest priority. *)
Lemma post_wakes u dead p y :
  inv dead u → sems u !! p = Some y → semcount y < 0 →
  ∃ a ws x b t' r l xr, waiters (ksched u) p = a :: ws ∧
    tasks (ksched u) !! a = Some x ∧ waitsem x = Some p ∧
    let u' := mk_sys t' (<[p := mk_sem (semcount y + 1)]> (sems u)) (g_pidhash u) in
    nxsem_post (Some p) u = Some ((OK, b), u') ∧ inv dead u' ∧
    frame (alter (set_waitsem NULL) a (tasks (ksched u))) t' ∧
    waiters t' p = ws ∧ (∀ q, q ≠ p → waiters t' q = waiters (ksched u) q) ∧
    lists (ksched u) g_readytorun = r :: l ∧ tasks (ksched u) !! r = Some xr ∧
    b = (lockcount xr =? 0) && (sched_priority xr <? sched_priority x) ∧
    ∀ k, k ≠ g_waitingforsemaphore → lists t' k =
      if decide (k = if must_wait xr (sched_priority x) then g_pendingtasks else g_readytorun)
      then prio_insert (tasks (ksched u)) a (lists (ksched u) k) else lists (ksched u) k.
Proof.
  intros Hi Hy Hneg. pose proof (sv_core _ _ (sm_sched _ _ _ Hi)) as Hc.
  pose proof (sem_bounds _ _ _ _ _ Hi Hy) as Hb.
  destruct (waiters (ksched u) p) as [|a ws] eqn:Hws.
  { pose proof (so_count _ _ _ _ (sm_ok _ _ _ Hi) p y Hy) as Hcnt. unfold waiters in Hws.
    rewrite Hws in Hcnt. simpl in Hcnt. lia. }
  assert (a ∈ waiters (ksched u) p) as Ha by (rewrite Hws; set_solver).
  apply list_elem_of_filter in Ha as [Hwa Ha].
  destruct (sc_lookup idle _ a _ Hc Ha) as (x & Hx & _).
  assert (waitsem x = Some p) as Hw by (unfold wsem in Hwa; by rewrite Hx in Hwa).
  destruct (unblock_waiter u dead a x p y (set_waitsem NULL) Hi Hx Hw Hy)
    as (b & t' & W1 & W2 & r & l & xr & Hrun & _ & Hi' & Hf & HW & HW' & Hrest); [done..|].
  destruct (waiters_leave u dead a W1 W2 t' (set_waitsem NULL) p Hi)
    as (A & B & HA & HnA & HB & Ho); [by eexists|done..|].
  assert (A = []) as ->.
  { destruct A as [|c A]; [done|]. rewrite Hws in HA. injection HA as -> _. set_solver. }
  rewrite Hws in HA. injection HA as <-.
  exists a, ws, x, b, t', r, l, xr. do 3 (split; [done|]).
  intros u'. split; [|by do 3 (split; [done|])]. unfold nxsem_post. rewrite bool_decide_eq_false_2 by done.
  cbn [negb].
  krun sem_get_Some. rewrite (proj2 (Z.ltb_lt _ _)) by (unfold SEM_VALUE_MAX; lia). krun sys_assert.
  krun sem_set_Some. rewrite s16_count by lia.
  erewrite K_bind_Some by (apply sem_get_Some, lookup_insert_eq). cbn [semcount].
  rewrite (proj2 (Z.leb_le _ _)) by lia. ysched ls_count. ysched ls_head.
  erewrite K_bind_Some
    by (eapply on_sched_Some, (post_search_ok (ksched u) _ p []); [done|done|by apply waiting_length]).
  cbn [ksched sems g_pidhash]. change (waiting_for _ _ p) with (waiters (ksched u) p).
  rewrite Hws. cbn [hd_or]. ysched ls_set. erewrite K_bind_Some by (eapply on_sched_Some, Hrun). done.
Qed.

(** *** Interrupted waits *)

Lemma wait_irq_wakes u dead a x e :
  inv dead u → tasks (ksched u) !! a = Some x → task_state x = TSTATE_WAIT_SEM → a ∉ dead →
  ∃ p y b t' W1 W2, waitsem x = Some p ∧ sems u !! p = Some y ∧ semcount y < 0 ∧
    let u' := mk_sys t' (<[p := mk_sem (semcount y + 1)]> (sems u)) (g_pidhash u) in
    nxsem_wait_irq a e u = Some (b, u') ∧ inv dead u' ∧
    frame (alter (set_pterrno e ∘ set_waitsem NULL) a (tasks (ksched u))) t' ∧
    lists (ksched u) g_waitingforsemaphore = W1 ++ a :: W2 ∧
    lists t' g_waitingforsemaphore = W1 ++ W2 ∧
    a ∈ lists t' g_readytorun ++ lists t' g_pendingtasks.
Proof.
  intros Hi Hx Hst Hd. pose proof (sv_core _ _ (sm_sched _ _ _ Hi)) as Hc.
  assert (a ∈ lists (ksched u) g_waitingforsemaphore) as Ha.
  { apply (sc_listed _ _ Hc). exists x. by rewrite Hst. }
  pose proof (so_live _ _ _ _ (sm_ok _ _ _ Hi) a Ha Hd) as Hw.
  unfold wsem in Hw. rewrite Hx in Hw. destruct (waitsem x) as [p|] eqn:Hwx; [|done].
  destruct (so_waits _ _ _ _ (sm_ok _ _ _ Hi) a p) as [_ Hp]; [unfold wsem; by rewrite Hx|].
  apply elem_of_dom in Hp as [y Hy]. pose proof (sem_bounds _ _ _ _ _ Hi Hy) as Hb.
  destruct (unblock_waiter u dead a x p y (set_pterrno e ∘ set_waitsem NULL) Hi Hx Hwx Hy)
    as (b & t' & W1 & W2 & r & l & xr & Hrun & Hneg & Hi' & Hf & HW & HW' & _ & _ & _ & Hl); [done..|].
  exists p, y, b, t', W1, W2. do 3 (split; [done|]). intros u'.
  split; [|do 4 (split; [done|])].
  - unfold nxsem_wait_irq. ysched ls_get. rewrite bool_decide_eq_true_2 by done. rewrite Hwx.
    destruct u as [t m h]. cbn [ksched sems g_pidhash] in *. krun sem_get_Some.
    rewrite (proj2 (Z.ltb_lt _ _) Hneg). krun sys_assert. krun sem_set_Some.
    rewrite s16_count by lia. ysched ls_set. ysched ls_set. rewrite upd_upd.
    by apply on_sched_Some.
  - rewrite !Hl by done. apply elem_of_app. destruct (must_wait xr (sched_priority x)).
    + right. by rewrite decide_True, elem_of_prio_insert by done; left.
    + left. by rewrite decide_True, elem_of_prio_insert by done; left.
Qed.

(** A task that is deleted leaves its semaphore but stays on the list. *)
Lemma recover_ok u dead a x :
  inv dead u → tasks (ksched u) !! a = Some x → task_state x = TSTATE_WAIT_SEM → a ∉ dead →
  ∃ p y, waitsem x = Some p ∧ sems u !! p = Some y ∧
    let u' := mk_sys (upd (set_waitsem NULL) a (ksched u))
                (<[p := mk_sem (semcount y + 1)]> (sems u)) (g_pidhash u) in
    nxsem_recover a u = Some (tt, u') ∧ inv ({[a]} ∪ dead) u'.
Proof.
  intros Hi Hx Hst Hd. pose proof (sv_core _ _ (sm_sched _ _ _ Hi)) as Hc.
  assert (a ∈ lists (ksched u) g_waitingforsemaphore) as Ha.
  { apply (sc_listed _ _ Hc). exists x. by rewrite Hst. }
  pose proof (so_live _ _ _ _ (sm_ok _ _ _ Hi) a Ha Hd) as Hw.
  assert (wsem (tasks (ksched u)) a = waitsem x) as Hwx by (unfold wsem; by rewrite Hx).
  rewrite Hwx in Hw. destruct (waitsem x) as [p|] eqn:Hwp; [|done].
  destruct (so_waits _ _ _ _ (sm_ok _ _ _ Hi) a p Hwx) as [_ Hp].
  apply elem_of_dom in Hp as [y Hy]. pose proof (sem_bounds _ _ _ _ _ Hi Hy) as Hb.
  destruct (sem_ok_leave _ _ (lists (ksched u) g_waitingforsemaphore) _ dead ({[a]} ∪ dead) a p y
    (sm_ok _ _ _ Hi) Hwx Hy) as [Hneg Hok]; [apply (sc_nodup _ _ Hc)|by right|].
  exists p, y. split; [done|]. split; [done|]. intros u'. split.
  - unfold nxsem_recover. ysched ls_get. rewrite bool_decide_eq_true_2 by done. rewrite Hwp.
    destruct u as [t m h]. cbn [ksched sems g_pidhash] in *. krun sem_get_Some.
    rewrite (proj2 (Z.ltb_lt _ _) Hneg). krun sys_assert. krun sem_set_Some.
    rewrite s16_count by lia. apply on_sched_Some, ls_set. by eexists.
  - split; [by apply inv_upd, Hi|simpl; rewrite size_alter; apply Hi|].
    eapply sem_ok_ext; [exact Hok| |done]. intros b. by apply wsem_alter.
Qed.

(** A change of a field of a TCB that neither component looks at. *)
Lemma inv_upd_sem u dead f a :
  (∀ x, task_state (f x) = task_state x ∧ sched_priority (f x) = sched_priority x ∧
        lockcount (f x) = lockcount x) → (∀ x, waitsem (f x) = waitsem x) →
  inv dead u → inv dead (mk_sys (upd f a (ksched u)) (sems u) (g_pidhash u)).
Proof.
  intros Hf Hw Hi. apply inv_change; [done|by apply inv_upd, Hi|simpl; apply size_alter|].
  eapply sem_ok_ext; [apply Hi| |done]. intros b. by apply wsem_alter_same.
Qed.

Lemma waiters_upd t f a q :
  (∀ x, waitsem (f x) = waitsem x) → waiters (upd f a t) q = waiters t q.
Proof. intros Hf. apply waiting_for_ext. intros b _. by apply wsem_alter_same. Qed.

(** The end of a wait: the result is the errno the task was woken with. *)
Lemma wait_resume_ok u dead r x e :
  inv dead u → tasks (ksched u) !! r = Some x →
  let u' := mk_sys (upd (set_pterrno e) r (ksched u)) (sems u) (g_pidhash u) in
  nxsem_wait_resume r e u = Some (if pterrno x =? OK then OK else - pterrno x, u') ∧ inv dead u'.
Proof.
  intros Hi Hx u'. split.
  - unfold nxsem_wait_resume. ysched ls_get. destruct u as [t m h]. cbn [ksched] in *.
    ysched ls_set. by destruct (_ =? _).
  - by apply inv_upd_sem.
Qed.

(** Scheduler operations that leave the waiting tasks alone. *)
Lemma inv_frame u dead T t' :
  inv dead u → sched_inv idle t' → frame T t' → size T = size (tasks (ksched u)) →
  (∀ a, wsem T a = wsem (tasks (ksched u)) a) →
  lists t' g_waitingforsemaphore ≡ₚ lists (ksched u) g_waitingforsemaphore →
  inv dead (mk_sys t' (sems u) (g_pidhash u)).
Proof.
  intros Hi Hinv Hf Hsz Hw HW. apply inv_change; [done|done|by rewrite (frame_size _ _ Hf)|].
  eapply sem_ok_ext; [apply Hi| |done]. intros a. by rewrite (wsem_frame _ _ _ Hf), Hw.
Qed.
End ops.

(** ** nxsem_reset *)

Section reset.
Context `{Config} (idle : addr).
Implicit Types (u : sys lsched) (dead : gset addr) (p : addr).
Abbreviation inv := (sem_inv idle).

(** Posting while the scheduler is locked: the first waiter is released and the
    running task goes on. *)
Lemma post_locked u dead p y r l xr :
  inv dead u → sems u !! p = Some y → semcount y < 0 →
  lists (ksched u) g_readytorun = r :: l → tasks (ksched u) !! r = Some xr → 0 < lockcount xr →
  ∃ a ws u' l' xr', waiters (ksched u) p = a :: ws ∧
    nxsem_post (Some p) u = Some ((OK, false), u') ∧ inv dead u' ∧
    sems u' = <[p := mk_sem (semcount y + 1)]> (sems u) ∧ g_pidhash u' = g_pidhash u ∧
    dom (tasks (ksched u')) = dom (tasks (ksched u)) ∧
    waiters (ksched u') p = ws ∧
    (∀ q, q ≠ p → waiters (ksched u') q = waiters (ksched u) q) ∧
    lists (ksched u') g_readytorun = r :: l' ∧ tasks (ksched u') !! r = Some xr' ∧
    lockcount xr' = lockcount xr.
Proof.
  intros Hi Hy Hneg Hl Hxr Hpos.
  destruct (post_wakes idle u dead p y Hi Hy Hneg)
    as (a & ws & x & b & t' & r' & l0 & xr0 & Hws & Hx & Hwx & Hrun & Hi' & Hf & HB & Ho &
        Hl0 & Hxr0 & Hb & Hlists).
  rewrite Hl in Hl0. injection Hl0 as <- <-. assert (xr0 = xr) as -> by congruence.
  rewrite (proj2 (Z.eqb_neq _ _)) in Hb by lia. cbn [andb] in Hb. subst b.
  assert (r ≠ a) as Hne.
  { intros ->. destruct (running_wsem idle u dead a l Hi Hl) as (? & ? & ? & ?). congruence. }
  destruct (frame_lookup _ _ r xr Hf) as (xr' & Hxr' & Hk); [by rewrite lookup_alter_ne|].
  assert (∃ l', lists t' g_readytorun = r :: l') as [l' Hl'].
  { rewrite Hlists, Hl by done. unfold must_wait. rewrite (proj2 (Z.ltb_lt _ _) Hpos). cbn [andb].
    destruct (Z.ltb_spec (sched_priority xr) (sched_priority x)) as [Hlt|Hle];
      [rewrite decide_False by done; eauto|]. rewrite decide_True by done. simpl.
    rewrite (prio_lookup _ _ _ Hxr), (prio_lookup _ _ _ Hx), (proj2 (Z.leb_le _ _) Hle). eauto. }
  eexists a, ws, _, l', xr'. do 5 (split; [done|]). split; [cbn [ksched]; by rewrite (frame_dom _ _ Hf),
    dom_alter_L|].
  do 4 (split; [done|]). by injection Hk.
Qed.

Lemma reset_loop_ok n u dead p y r l xr :
  inv dead u → sems u !! p = Some y →
  lists (ksched u) g_readytorun = r :: l → tasks (ksched u) !! r = Some xr → 0 < lockcount xr →
  ∃ u' l' xr', nxsem_reset_loop n (Some p) u =
      Some ((n - length (waiters (ksched u) p))%nat, u') ∧ inv dead u' ∧
    sems u' = <[p := mk_sem (semcount y +
      Z.of_nat (Nat.min n (length (waiters (ksched u) p))))]> (sems u) ∧
    g_pidhash u' = g_pidhash u ∧ dom (tasks (ksched u')) = dom (tasks (ksched u)) ∧
    waiters (ksched u') p = drop n (waiters (ksched u) p) ∧
    (∀ q, q ≠ p → waiters (ksched u') q = waiters (ksched u) q) ∧
    lists (ksched u') g_readytorun = r :: l' ∧ tasks (ksched u') !! r = Some xr' ∧
    lockcount xr' = lockcount xr.
Proof.
  revert u y l xr. induction n as [|n IH]; intros u y l xr Hi Hy Hl Hxr Hpos.
  { exists u, l, xr. split; [done|]. split; [done|]. split; [|done].
    rewrite Nat.min_0_l, Z.add_0_r. destruct y. by rewrite insert_id. }
  pose proof (so_count _ _ _ _ (sm_ok _ _ _ Hi) p y Hy) as Hcnt.
  cbn [nxsem_reset_loop]. krun sem_get_Some. destruct (Z.ltb_spec (semcount y) 0) as [Hneg|Hge].
  - destruct (post_locked u dead p y r l xr Hi Hy Hneg Hl Hxr Hpos)
      as (a & ws & u1 & l1 & xr1 & Hws & Hrun & Hi1 & Hs1 & Hh1 & Hd1 & Hw1 & Ho1 & Hl1 & Hxr1 & Hlk1).
    rewrite (K_bind_Some _ _ _ _ _ Hrun). krun sys_assert.
    destruct (IH u1 (mk_sem (semcount y + 1)) l1 xr1)
      as (u' & l' & xr' & Hrun' & Hi' & Hs' & Hh' & Hd' & Hw' & Ho' & Hl' & Hxr' & Hlk');
      [done|by rewrite Hs1, lookup_insert_eq|done|done|lia|].
    exists u', l', xr'. rewrite Hrun', Hw1, Hws. split; [done|]. split; [done|].
    split; [|split; [congruence|split; [congruence|]]].
    + rewrite Hs', Hs1, insert_insert_eq, Hw1. f_equal. f_equal. simpl. lia.
    + split; [by rewrite Hw', Hw1|]. split; [intros q Hq; by rewrite Ho', Ho1|].
      split; [done|]. split; [done|congruence].
  - assert (length (waiters (ksched u) p) = 0%nat) as H0 by (unfold waiters; lia).
    exists u, l, xr. rewrite H0, Nat.min_0_r, Z.add_0_r.
    apply nil_length_inv in H0. rewrite H0. split; [done|]. split; [done|].
    split; [destruct y; by rewrite insert_id|]. split; [done|]. split; [done|]. by rewrite drop_nil.
Qed.

(** Locking and unlocking the scheduler leave the semaphores alone. *)
Lemma lock_sem_ok u dead r l xr :
  inv dead u → lists (ksched u) g_readytorun = r :: l → tasks (ksched u) !! r = Some xr →
  lockcount xr < MAX_LOCK_COUNT →
  ∃ t', sched_lock false (ksched u) = Some (OK, t') ∧
    inv dead (mk_sys t' (sems u) (g_pidhash u)) ∧
    dom (tasks t') = dom (tasks (ksched u)) ∧
    (∀ q, waiters t' q = waiters (ksched u) q) ∧ lists t' g_readytorun = r :: l ∧
    tasks t' !! r = Some (set_lockcount (lockcount xr + 1) xr).
Proof.
  intros Hi Hl Hxr Hlk. pose proof (sm_sched _ _ _ Hi) as Hinv.
  destruct (lock_sched_ok idle (ksched u) r l xr Hinv Hl Hxr Hlk)
    as (t1 & Hlock & Hinv1 & Hr1 & Ho1 & Hl1).
  assert (∀ a, wsem (tasks t1) a = wsem (tasks (ksched u)) a) as Hw1.
  { intros a. unfold wsem. destruct (decide (a = r)) as [->|]; [by rewrite Hr1, Hxr|by rewrite Ho1]. }
  assert (dom (tasks t1) = dom (tasks (ksched u))) as Hd1.
  { apply set_eq. intros a. rewrite !elem_of_dom.
    destruct (decide (a = r)) as [->|]; [rewrite Hr1, Hxr; by split; eexists|by rewrite Ho1]. }
  exists t1. split; [done|]. split; [|split; [done|split]].
  - apply inv_change; [done|done|by rewrite <- !size_dom, Hd1|].
    eapply sem_ok_ext; [apply Hi|done|by rewrite Hl1].
  - intros q. unfold waiters. rewrite Hl1. apply waiting_for_ext. intros a _. apply Hw1.
  - by rewrite Hl1.
Qed.

Lemma unlock_sem_ok u dead r l xr :
  inv dead u → lists (ksched u) g_readytorun = r :: l → tasks (ksched u) !! r = Some xr →
  ∃ b t', sched_unlock false (ksched u) = Some ((OK, b), t') ∧
    inv dead (mk_sys t' (sems u) (g_pidhash u)) ∧ dom (tasks t') = dom (tasks (ksched u)) ∧
    (∀ q, waiters t' q = waiters (ksched u) q).
Proof.
  intros Hi Hl Hxr.
  destruct (unlock_sched_ok idle (ksched u) r l xr (sm_sched _ _ _ Hi) Hl Hxr)
    as (b & t' & Hrun & Hinv' & Hf & _ & _ & Ho).
  assert (∀ a, wsem (alter (set_lockcount (0 `max` (lockcount xr - 1))) r (tasks (ksched u))) a =
               wsem (tasks (ksched u)) a) as Hw by (intros a; by apply wsem_alter_same).
  exists b, t'. split; [done|]. split; [|split].
  - eapply inv_frame; [done|done|exact Hf|apply size_alter|done|by rewrite Ho].
  - by rewrite (frame_dom _ _ Hf), dom_alter_L.
  - intros q. rewrite (waiters_frame _ _ _ _ Hf (Ho g_waitingforsemaphore ltac:(done) ltac:(done))).
    apply waiting_for_ext. intros a _. apply Hw.
Qed.

(** The semaphore ends up with [count] less the tasks that waited; the first
    [count] of these are released. *)
Lemma reset_ok u dead p y r l xr count :
  inv dead u → sems u !! p = Some y → 0 ≤ count ≤ SEM_VALUE_MAX →
  lists (ksched u) g_readytorun = r :: l → tasks (ksched u) !! r = Some xr →
  lockcount xr < MAX_LOCK_COUNT →
  ∃ b u', nxsem_reset false (Some p) count u = Some ((OK, b), u') ∧ inv dead u' ∧
    sems u' = <[p := mk_sem (count - Z.of_nat (length (waiters (ksched u) p)))]> (sems u) ∧
    g_pidhash u' = g_pidhash u ∧ dom (tasks (ksched u')) = dom (tasks (ksched u)) ∧
    waiters (ksched u') p = drop (Z.to_nat count) (waiters (ksched u) p) ∧
    (∀ q, q ≠ p → waiters (ksched u') q = waiters (ksched u) q).
Proof.
  intros Hi Hy Hcount Hl Hxr Hlk.
  pose proof (sc_lock _ _ (sv_core _ _ (sm_sched _ _ _ Hi)) r xr Hxr) as Hlk0.
  pose proof (so_count _ _ _ _ (sm_ok _ _ _ Hi) p y Hy) as Hcnt.
  pose proof (sem_bounds _ _ _ _ _ Hi Hy) as Hb.
  destruct (lock_sem_ok u dead r l xr Hi Hl Hxr Hlk) as (t1 & Hlock & Hi1 & Hd1 & Hws1 & Hl1 & Hr1).
  destruct (reset_loop_ok (Z.to_nat count) _ dead p y r l _ Hi1 Hy Hl1 Hr1)
    as (u2 & l2 & xr2 & Hloop & Hi2 & Hs2 & Hh2 & Hd2 & Hw2 & Ho2 & Hl2 & Hxr2 & Hlk2); [simpl; lia|].
  cbn [ksched sems g_pidhash] in *. rewrite Hws1 in Hloop, Hs2, Hw2.
  fold (waiters (ksched u) p) in Hcnt. set (ws := waiters (ksched u) p) in *.
  set (c2 := semcount y + Z.of_nat (Z.to_nat count `min` length ws)) in *.
  assert (sems u2 !! p = Some (mk_sem c2)) as Hy2 by (by rewrite Hs2, lookup_insert_eq).
  set (u3 := mk_sys (ksched u2) (<[p := mk_sem (count - Z.of_nat (length ws))]> (sems u))
               (g_pidhash u2)).
  assert (inv dead u3 ∧ kwhen (0 <=? c2)
    (sem_set (λ _, Z.of_nat (Z.to_nat count - length ws)) (Some p)) u2 = Some (tt, u3)) as [Hi3 Hset].
  { destruct (Z.leb_spec 0 c2) as [Hpos|Hneg].
    - pose proof (inv_count idle u2 dead p _ (Z.of_nat (Z.to_nat count - length ws)) Hi2 Hy2 Hpos
        ltac:(lia)) as Hi3. rewrite Hs2, insert_insert_eq in Hi3.
      assert (count - Z.of_nat (length ws) = Z.of_nat (Z.to_nat count - length ws)) as Hc by lia.
      unfold u3. rewrite Hc. split; [done|]. unfold kwhen. erewrite sem_set_Some by done.
      rewrite s16_count by lia. by rewrite Hs2, insert_insert_eq.
    - assert (count - Z.of_nat (length ws) = c2) as Hc by lia.
      unfold u3. rewrite Hc, <- Hs2. by destruct u2. }
  destruct (unlock_sem_ok u3 dead r l2 xr2 Hi3 Hl2 Hxr2) as (b & t' & Hunlock & Hi' & Hd' & Hw').
  exists b, (mk_sys t' (sems u3) (g_pidhash u3)). split; [|split; [done|]].
  - unfold nxsem_reset. rewrite (proj2 (Z.leb_le 0 count)) by lia. krun sys_assert.
    erewrite K_bind_Some by (eapply on_sched_Some, Hlock).
    rewrite (K_bind_Some _ _ _ _ _ Hloop). krun sem_get_Some. rewrite (K_bind_Some _ _ _ _ _ Hset).
    erewrite K_bind_Some by (eapply on_sched_Some, Hunlock). done.
  - cbn [ksched sems g_pidhash]. split; [done|]. split; [done|].
    split; [rewrite Hd'; unfold u3; cbn [ksched]; congruence|]. split; [rewrite Hw'; exact Hw2|].
    intros q Hq. rewrite Hw'. unfold u3. cbn [ksched]. by rewrite Ho2, Hws1.
Qed.
End reset.
