(* ===== verification/SemProps.v ===== *)
(** * SemProps: what the semaphores guarantee

    The properties of sched/semaphore, stated for the code on the linked task
    lists; each follows from the simulation of SemSpec.v and the results on
    plain lists of SemOps.v. *)

From S2P Require Import Prelude Queue QueueRefine Sched SchedSpec SchedInv SchedOps SchedProps Semaphore SemSpec SemOps.
Local Open Scope Z_scope.

(** ** Histories *)

(** What tasks and interrupt handlers do with semaphores, and the operations of
    the scheduler in between. *)
Inductive sem_op :=
  | SemWait (p : addr) | SemResume | SemTryWait (p : addr) | SemPost (p : addr)
  | SemInterrupt (a : addr) (errcode : Z) | SemTimeout (pid : Z)
  | SemReset (p : addr) (count : Z) | SemDestroy (p : addr) | SemSched (o : sched_op).

Section history.
Context `{Config} {S : Type} `{!TaskLists S} (idle : addr).

(** A task blocked in or released from a semaphore wait is left to the
    semaphores. *)
Definition sem_compat (o : sched_op) : K S bool :=
  match o with
  | OpBlock st => mret (negb (bool_decide (st = TSTATE_WAIT_SEM)))
  | OpUnblock a => x ← tcb_get a; mret (negb (bool_decide (task_state x = TSTATE_WAIT_SEM)))
  | _ => mret true
  end.

(** [conts] holds the saved errno of each task that is inside [nxsem_wait]; when
    such a task runs, it first finishes the wait.  Skipped are operations their
    callers may not perform: the IDLE task waiting, posting beyond
    [SEM_VALUE_MAX], locking beyond [MAX_LOCK_COUNT]. *)
Definition sem_exec (conts : gmap addr Z) (o : sem_op) : K (sys S) (gmap addr Z) :=
  r ← on_sched this_task;
  xr ← on_sched (tcb_get r);
  let free := bool_decide (conts !! r = None) in
  match o with
  | SemWait p =>
      if free && negb (bool_decide (r = idle)) then
        st ← nxsem_wait false (Some p);
        mret (match st with Waiting e => <[r := e]> conts | Waited _ => conts end)
      else mret conts
  | SemResume =>
      match conts !! r with
      | Some e => _ ← nxsem_wait_resume r e; mret (delete r conts)
      | None => mret conts
      end
  | SemTryWait p => kwhen free (_ ← nxsem_trywait false (Some p); mret tt);; mret conts
  | SemPost p =>
      c ← sem_get (Some p);
      kwhen (c <? SEM_VALUE_MAX) (_ ← nxsem_post (Some p); mret tt);; mret conts
  | SemInterrupt a e => _ ← nxsem_wait_irq a e; mret conts
  | SemTimeout pid => _ ← nxsem_timeout 1 pid; mret conts
  | SemReset p n =>
      kwhen (free && (lockcount xr <? MAX_LOCK_COUNT) && (0 <=? n) && (n <=? SEM_VALUE_MAX))
        (_ ← nxsem_reset false (Some p) n; mret tt);; mret conts
  | SemDestroy p => kwhen free (_ ← nxsem_destroy (Some p); mret tt);; mret conts
  | SemSched o =>
      ok ← on_sched (sem_compat o);
      kwhen (ok : bool) (on_sched (sched_exec idle o));; mret conts
  end.

Fixpoint sem_run (conts : gmap addr Z) (os : list sem_op) : K (sys S) (gmap addr Z) :=
  match os with
  | [] => mret conts
  | o :: os => conts ← sem_exec conts o; sem_run conts os
  end.
End history.

(** The semaphores and tasks an operation names exist. *)
Definition sem_op_in (T P : gset addr) (o : sem_op) : bool :=
  match o with
  | SemWait p | SemTryWait p | SemPost p | SemReset p _ | SemDestroy p => bool_decide (p ∈ P)
  | SemInterrupt a _ => bool_decide (a ∈ T)
  | SemSched o => sched_op_in T o
  | SemResume | SemTimeout _ => true
  end.

(** The table of process ids refers to existing tasks. *)
Definition hash_ok `{Config} (u : sys lsched) : Prop :=
  0 < CONFIG_MAX_TASKS ∧ Z.of_nat (length (g_pidhash u)) = CONFIG_MAX_TASKS ∧
  Forall (λ e, ∀ a, ph_tcb e = Some a → a ∈ dom (tasks (ksched u))) (g_pidhash u).

Section history_ok.
Context `{Config} (idle : addr).
Implicit Types (u : sys lsched).
Abbreviation inv := (sem_inv idle ∅).

Lemma sim_sem_compat o : sim sched_repr (sem_compat o) (sem_compat o).
Proof. destruct o; unfold sem_compat; solve_sim. Qed.

Lemma sim_sem_exec conts o : sim sys_repr (sem_exec idle conts o) (sem_exec idle conts o).
Proof.
  pose proof (sim_sched_exec idle). pose proof sim_sem_compat. unfold sem_exec. solve_sim.
Qed.

Lemma sim_sem_run conts os : sim sys_repr (sem_run idle conts os) (sem_run idle conts os).
Proof.
  revert conts. induction os as [|o os IH]; intros conts; simpl; [apply sim_ret|].
  apply sim_bind; [apply sim_sem_exec|done].
Qed.

(** *** The scheduler operations in between *)

(** What an operation leaves: the invariant, the tasks, semaphores and ids. *)
Definition kept u u' : Prop :=
  inv u' ∧ dom (tasks (ksched u')) = dom (tasks (ksched u)) ∧
  dom (sems u') = dom (sems u) ∧ g_pidhash u' = g_pidhash u.

Lemma kept_frame u T t' :
  inv u → sched_inv idle t' → frame T t' → dom T = dom (tasks (ksched u)) →
  (∀ a, wsem T a = wsem (tasks (ksched u)) a) →
  lists t' g_waitingforsemaphore ≡ₚ lists (ksched u) g_waitingforsemaphore →
  kept u (mk_sys t' (sems u) (g_pidhash u)).
Proof.
  intros Hi Hinv Hf Hd Hw HW. split; [|split; [|done]].
  - eapply inv_frame; [done..|by rewrite <- !size_dom, Hd|done|done].
  - simpl. by rewrite (frame_dom _ _ Hf).
Qed.

Lemma kept_refl u : inv u → kept u u.
Proof. by intros Hi. Qed.

Lemma sem_sched_ok u o :
  inv u → sched_op_in (dom (tasks (ksched u))) o = true →
  ∃ ok, sem_compat o (ksched u) = Some (ok, ksched u) ∧ (ok = true →
    ∃ t', sched_exec idle o (ksched u) = Some (tt, t') ∧
          kept u (mk_sys t' (sems u) (g_pidhash u))).
Proof.
  intros Hi Hin. destruct (sched_exec_ok idle o (ksched u) (sm_sched _ _ _ Hi) Hin)
    as (t' & Hrun & Hinv & Hw & Hl).
  assert (∃ ok, sem_compat o (ksched u) = Some (ok, ksched u) ∧
    (ok = true → ¬ sched_touches (tasks (ksched u)) o g_waitingforsemaphore)) as (ok & Hok & Hno).
  { destruct o; try (by exists true; split; [|intros _ ?]); simpl in *.
    - eexists. split; [done|]. intros Hst%negb_true_iff%bool_decide_eq_false_1 ->%wait_sem_state. done.
    - apply bool_decide_eq_true_1, elem_of_dom in Hin as [y Hy]. eexists. unfold sem_compat.
      rewrite (K_bind_Some _ _ _ _ _ (ls_get _ _ _ Hy)). split; [done|].
      intros Hst%negb_true_iff%bool_decide_eq_false_1 (x & Hx & Hk%wait_sem_state). congruence. }
  exists ok. split; [done|]. intros Htrue. exists t'. split; [done|].
  eapply (kept_frame u (tasks t')); [done|done|done|by apply (same_data_dom wait_fields)| |by apply Hl;
    [..|apply Hno]].
  intros a. apply (f_equal (.!! a)) in Hw. rewrite !lookup_fmap in Hw. unfold wsem.
  destruct (tasks t' !! a), (tasks (ksched u) !! a); simpl in Hw; try done. by injection Hw.
Qed.

(** *** The semaphore operations *)

Lemma kept_sem u t' p y c :
  inv (mk_sys t' (<[p := mk_sem c]> (sems u)) (g_pidhash u)) → sems u !! p = Some y →
  dom (tasks t') = dom (tasks (ksched u)) →
  kept u (mk_sys t' (<[p := mk_sem c]> (sems u)) (g_pidhash u)).
Proof.
  intros Hi Hy Hd. split; [done|]. split; [done|]. split; [|done]. simpl.
  rewrite dom_insert_L. apply elem_of_dom_2 in Hy. set_solver.
Qed.

Lemma frame_alter_dom (T : taskmap) f a t' : frame (alter f a T) t' → dom (tasks t') = dom T.
Proof. intros Hf. by rewrite (frame_dom _ _ Hf), dom_alter_L. Qed.

Lemma kept_wait u p r l x :
  inv u → p ∈ dom (sems u) → lists (ksched u) g_readytorun = r :: l →
  tasks (ksched u) !! r = Some x → r ≠ idle →
  ∃ st u', nxsem_wait false (Some p) u = Some (st, u') ∧ kept u u'.
Proof.
  intros Hi [y Hy]%elem_of_dom Hl Hx Hr. destruct (decide (0 < semcount y)) as [Hpos|Hz].
  - destruct (take_ok idle u ∅ p y r l Hi Hy Hpos Hl) as (Hrun & _ & Hi').
    do 2 eexists. split; [exact Hrun|]. by eapply kept_sem.
  - destruct (wait_blocks idle u ∅ p y r l x) as (u' & Hrun & Hi' & Hs & Hh & Hf & _);
      [done|done|lia|done..|].
    do 2 eexists. split; [exact Hrun|]. split; [done|]. split; [by eapply frame_alter_dom|].
    split; [|done]. rewrite Hs, dom_insert_L. apply elem_of_dom_2 in Hy. set_solver.
Qed.

Lemma kept_trywait u p r l :
  inv u → p ∈ dom (sems u) → lists (ksched u) g_readytorun = r :: l →
  ∃ ret u', nxsem_trywait false (Some p) u = Some (ret, u') ∧ kept u u'.
Proof.
  intros Hi [y Hy]%elem_of_dom Hl. destruct (decide (0 < semcount y)) as [Hpos|Hz].
  - destruct (take_ok idle u ∅ p y r l Hi Hy Hpos Hl) as (_ & Hrun & Hi').
    do 2 eexists. split; [exact Hrun|]. by eapply kept_sem.
  - do 2 eexists. split; [eapply trywait_fails; [done|done|lia|done]|by apply kept_refl].
Qed.

Lemma kept_post u p y :
  inv u → sems u !! p = Some y → semcount y < SEM_VALUE_MAX →
  ∃ ret u', nxsem_post (Some p) u = Some (ret, u') ∧ kept u u'.
Proof.
  intros Hi Hy Hmax. destruct (decide (0 ≤ semcount y)) as [Hge|Hlt].
  - destruct (post_free idle u ∅ p y Hi Hy) as [Hrun Hi']; [lia|].
    do 2 eexists. split; [exact Hrun|]. by eapply kept_sem.
  - destruct (post_wakes idle u ∅ p y Hi Hy)
      as (a & ws & x & b & t' & r & l & xr & _ & _ & _ & Hrun & Hi' & Hf & _); [lia|].
    do 2 eexists. split; [exact Hrun|]. eapply kept_sem; [done|done|by eapply frame_alter_dom].
Qed.

Lemma kept_irq u a x e :
  inv u → tasks (ksched u) !! a = Some x →
  ∃ b u', nxsem_wait_irq a e u = Some (b, u') ∧ kept u u'.
Proof.
  intros Hi Hx. destruct (decide (task_state x = TSTATE_WAIT_SEM)) as [Hst|Hst].
  - destruct (wait_irq_wakes idle u ∅ a x e Hi Hx Hst)
      as (p & y & b & t' & W1 & W2 & _ & Hy & _ & Hrun & Hi' & Hf & _); [set_solver|].
    do 2 eexists. split; [exact Hrun|]. eapply kept_sem; [done|done|by eapply frame_alter_dom].
  - exists false, u. split; [|by apply kept_refl]. unfold nxsem_wait_irq.
    destruct u as [t m h]. ysched ls_get. by rewrite bool_decide_eq_false_2.
Qed.

Lemma gettcb_ok u pid :
  hash_ok u → ∃ q, sched_gettcb pid u = Some (q, u) ∧
    ∀ a, q = Some a → a ∈ dom (tasks (ksched u)).
Proof.
  intros (Hpos & Hlen & Hall). unfold sched_gettcb. destruct (Z.leb_spec 0 pid) as [Hp|Hp].
  2: { exists NULL. by split. }
  assert (0 ≤ PIDHASH pid < CONFIG_MAX_TASKS) as Hh.
  { unfold PIDHASH. split; [apply Z.land_nonneg; lia|].
    destruct (decide (CONFIG_MAX_TASKS - 1 = 0)) as [->|]; [rewrite Z.land_0_r; lia|].
    assert (Z.land pid (CONFIG_MAX_TASKS - 1) ≤ CONFIG_MAX_TASKS - 1); [|lia].
    rewrite <- (Z2N.id pid), <- (Z2N.id (CONFIG_MAX_TASKS - 1)), <- N2Z.inj_land by lia.
    apply N2Z.inj_le, N.land_le_r. }
  destruct (lookup_lt_is_Some_2 (g_pidhash u) (Z.to_nat (PIDHASH pid))) as [e He]; [lia|].
  erewrite K_bind_Some by (unfold kget; rewrite He; reflexivity).
  eexists. split; [done|]. intros a. case_match; [|done].
  rewrite Forall_lookup in Hall. by eapply Hall.
Qed.

Lemma kept_timeout u pid :
  inv u → hash_ok u → ∃ b u', nxsem_timeout 1 pid u = Some (b, u') ∧ kept u u'.
Proof.
  intros Hi Hh. unfold nxsem_timeout. destruct (gettcb_ok u (s16 pid) Hh) as (q & Hrun & Hq).
  rewrite (K_bind_Some _ _ _ _ _ Hrun). destruct q as [a|]; [|exists false, u; by split].
  destruct (proj1 (elem_of_dom _ _) (Hq a eq_refl)) as [x Hx].
  destruct u as [t m h]. ysched ls_get. case_bool_decide; [by eapply kept_irq|].
  eexists _, _. split; [done|by apply kept_refl].
Qed.

Lemma kept_destroy u p :
  inv u → p ∈ dom (sems u) → ∃ u', nxsem_destroy (Some p) u = Some (OK, u') ∧ kept u u'.
Proof.
  intros Hi [y Hy]%elem_of_dom. unfold nxsem_destroy. rewrite bool_decide_eq_false_2 by done.
  cbn [negb]. krun sem_get_Some. destruct (Z.leb_spec 0 (semcount y)) as [Hge|Hlt].
  - unfold kwhen. krun sem_set_Some. rewrite s16_count by (unfold SEM_VALUE_MAX; lia).
    eexists. split; [done|]. eapply kept_sem; [|done..].
    by apply (inv_count idle u ∅ p y 1).
  - exists u. split; [done|by apply kept_refl].
Qed.

Lemma kept_resume u r x e :
  inv u → tasks (ksched u) !! r = Some x →
  ∃ ret u', nxsem_wait_resume r e u = Some (ret, u') ∧ kept u u'.
Proof.
  intros Hi Hx. destruct (wait_resume_ok idle u ∅ r x e Hi Hx) as [Hrun Hi'].
  do 2 eexists. split; [exact Hrun|]. split; [done|]. split; [simpl; by rewrite dom_alter_L|done].
Qed.

Lemma sem_exec_ok conts o u :
  inv u → hash_ok u → sem_op_in (dom (tasks (ksched u))) (dom (sems u)) o = true →
  ∃ conts' u', sem_exec idle conts o u = Some (conts', u') ∧ kept u u'.
Proof.
  intros Hi Hh Hin. destruct (ready_head idle _ (sv_core _ _ (sm_sched _ _ _ Hi)))
    as (r & l & x & Hl & Hx & _).
  assert (∀ {A} (k : addr → tcb_data → K (sys lsched) A),
    (r ← on_sched this_task; x ← on_sched (tcb_get r); k r x) u = k r x u) as Hrun0.
  { intros A k. ysched ls_this_task. destruct u as [t m h]. by ysched ls_get. }
  unfold sem_exec. rewrite (Hrun0 _ (λ r xr, _)). clear Hrun0.
  pose proof (kept_refl u Hi) as Hrefl. unfold kwhen. destruct o; cbn in Hin;
    try apply bool_decide_eq_true_1 in Hin.
  - destruct (_ && _) eqn:Hb; [|eauto]. apply andb_true_iff in Hb as [_ Hr].
    apply negb_true_iff, bool_decide_eq_false_1 in Hr.
    destruct (kept_wait u p r l x) as (st & u' & Hrun & Hk); [done..|].
    rewrite (K_bind_Some _ _ _ _ _ Hrun). eauto.
  - destruct (conts !! r) as [e|]; [|eauto].
    destruct (kept_resume u r x e) as (ret & u' & Hrun & Hk); [done..|].
    rewrite (K_bind_Some _ _ _ _ _ Hrun). eauto.
  - case_bool_decide; [|eauto].
    destruct (kept_trywait u p r l) as (ret & u' & Hrun & Hk); [done..|].
    rewrite (K_bind_Some _ _ u tt u') by (by rewrite (K_bind_Some _ _ _ _ _ Hrun)). eauto.
  - apply elem_of_dom in Hin as [y Hy]. krun sem_get_Some.
    destruct (Z.ltb_spec (semcount y) SEM_VALUE_MAX); [|eauto].
    destruct (kept_post u p y) as (ret & u' & Hrun & Hk); [done..|].
    rewrite (K_bind_Some _ _ u tt u') by (by rewrite (K_bind_Some _ _ _ _ _ Hrun)). eauto.
  - apply elem_of_dom in Hin as [y Hy].
    destruct (kept_irq u a y errcode) as (ret & u' & Hrun & Hk); [done..|].
    rewrite (K_bind_Some _ _ _ _ _ Hrun). eauto.
  - destruct (kept_timeout u pid) as (ret & u' & Hrun & Hk); [done..|].
    rewrite (K_bind_Some _ _ _ _ _ Hrun). eauto.
  - apply elem_of_dom in Hin as [y Hy]. destruct (_ && _) eqn:Hb; [|eauto].
    rewrite !andb_true_iff, !Z.leb_le, Z.ltb_lt in Hb.
    destruct (reset_ok idle u ∅ p y r l x count) as (b & u' & Hrun & Hi' & Hs & Hp & Hd & _);
      [done|done|lia|done|done|lia|].
    rewrite (K_bind_Some _ _ u tt u') by (by rewrite (K_bind_Some _ _ _ _ _ Hrun)).
    eexists _, _. split; [done|]. split; [done|]. split; [done|]. split; [|done].
    rewrite Hs, dom_insert_L. apply elem_of_dom_2 in Hy. set_solver.
  - case_bool_decide; [|eauto].
    destruct (kept_destroy u p) as (u' & Hrun & Hk); [done..|].
    rewrite (K_bind_Some _ _ u tt u') by (by rewrite (K_bind_Some _ _ _ _ _ Hrun)). eauto.
  - destruct (sem_sched_ok u o Hi Hin) as (ok & Hok & Hex).
    rewrite (K_bind_Some _ _ _ _ _ (on_sched_Some _ _ _ _ Hok)). destruct u as [t m h].
    cbn [ksched sems g_pidhash] in *. destruct ok; [|eauto]. destruct (Hex eq_refl) as (t' & Hrun & Hk).
    erewrite K_bind_Some by (eapply on_sched_Some, Hrun). eauto.
Qed.

Lemma kept_hash u u' : kept u u' → hash_ok u → hash_ok u'.
Proof. intros (_ & Hd & _ & Hp) Hh. unfold hash_ok. by rewrite Hd, Hp. Qed.

Lemma sem_run_ok conts os u :
  inv u → hash_ok u →
  Forall (λ o, sem_op_in (dom (tasks (ksched u))) (dom (sems u)) o = true) os →
  ∃ conts' u', sem_run idle conts os u = Some (conts', u') ∧ kept u u'.
Proof.
  revert conts u. induction os as [|o os IH]; intros conts u Hi Hh Hin; cbn [sem_run].
  { exists conts, u. split; [done|by apply kept_refl]. }
  apply Forall_cons in Hin as [Ho Hos].
  destruct (sem_exec_ok conts o u Hi Hh Ho) as (c1 & u1 & Hrun1 & Hk1).
  rewrite (K_bind_Some _ _ _ _ _ Hrun1). pose proof Hk1 as (Hi1 & Hd1 & Hs1 & Hp1).
  destruct (IH c1 u1 Hi1) as (c' & u' & Hrun & Hi' & Hd & Hs & Hp);
    [by eapply kept_hash|by rewrite Hd1, Hs1|].
  exists c', u'. split; [done|]. split; [done|]. split_and!; congruence.
Qed.
End history_ok.

(** ** Properties *)

Section props.
Context `{Config} (idle : addr).
Implicit Types (s : sys sched_s) (u : sys lsched).

(** C3: no history of semaphore calls by tasks and interrupt handlers, mixed with
    scheduler operations, faults or fails an assertion on the linked task lists, and
    after it the counting invariant holds: tasks wait exactly for the semaphores
    whose count is negative.  Without assertions the scheduler operations are those
    of [sched_exec]: [may_setpriority] restricts setting the priority of a ready
    task. *)
Theorem sem_history_safe os conts s u :
  sys_repr s u → sem_inv idle ∅ u → hash_ok u →
  Forall (λ o, sem_op_in (dom (tasks (ksched u))) (dom (sems u)) o = true) os →
  ∃ conts' s' u', sem_run idle conts os s = Some (conts', s') ∧ sys_repr s' u' ∧
    sem_inv idle ∅ u'.
Proof.
  intros Hs Hi Hh Hin.
  destruct (sem_run_ok idle conts os u Hi Hh Hin) as (c' & u' & Hrun & Hi' & _).
  destruct (sim_sem_run idle conts os s u c' u' Hs Hrun) as (s' & Hrun' & Hs').
  exists c', s', u'. done.
Qed.

(** The TCBs that wait for [p], in the memory of TCBs. *)
Definition tcbs_waiting (p : addr) (m : mem tcb_s) : mem tcb_s :=
  filter (λ ax, task_state (td ax.2) = TSTATE_WAIT_SEM ∧ waitsem (td ax.2) = Some p) m.

Lemma size_waiting s u p :
  sys_repr s u → sem_inv idle ∅ u →
  size (tcbs_waiting p (tcbs (ksched s))) = length (waiters (ksched u) p).
Proof.
  intros [Hs _ _] Hi. pose proof (sv_core _ _ (sm_sched _ _ _ Hi)) as Hc.
  assert (NoDup (waiters (ksched u) p)) as Hnd by (apply NoDup_filter, Hc).
  rewrite <- size_dom, <- (size_list_to_set (C := gset addr) (waiters (ksched u) p)) by done.
  f_equal. apply set_eq. intros a. rewrite elem_of_list_to_set, elem_of_dom.
  unfold tcbs_waiting, waiters, waiting_for. rewrite list_elem_of_filter. split.
  - intros [x [Hx [Hst Hw]]%map_lookup_filter_Some]. simpl in *.
    pose proof (sr_lookup _ _ _ _ Hs Hx) as Hd. split; [unfold wsem; by rewrite Hd|].
    apply (sc_listed _ _ Hc). exists (td x). by rewrite Hst.
  - intros [Hw Ha]. destruct (sc_lookup idle _ a _ Hc Ha) as (d & Hd & Hk).
    destruct (sr_lookup_r _ _ _ _ Hs Hd) as (x & Hx & <-). exists x.
    apply map_lookup_filter_Some. split; [done|]. simpl. split; [by apply wait_sem_state|].
    unfold wsem in Hw. by rewrite Hd in Hw.
Qed.

(** C4: after any such history the count of a semaphore that is not available is
    minus the number of tasks blocked on it, and no task is blocked on one whose
    count is not negative. *)
Theorem sem_counts_waiters os conts s u :
  sys_repr s u → sem_inv idle ∅ u → hash_ok u →
  Forall (λ o, sem_op_in (dom (tasks (ksched u))) (dom (sems u)) o = true) os →
  ∃ conts' s', sem_run idle conts os s = Some (conts', s') ∧
    ∀ p x, sems s' !! p = Some x →
      Z.of_nat (size (tcbs_waiting p (tcbs (ksched s')))) = Z.max 0 (- semcount x).
Proof.
  intros Hs Hi Hh Hin.
  destruct (sem_run_ok idle conts os u Hi Hh Hin) as (c' & u' & Hrun & Hi' & _).
  destruct (sim_sem_run idle conts os s u c' u' Hs Hrun) as (s' & Hrun' & Hs').
  exists c', s'. split; [done|]. intros p x Hx. rewrite (size_waiting s' u' p Hs' Hi').
  rewrite (yr_sems _ _ Hs') in Hx. symmetry. apply (so_count _ _ _ _ (sm_ok _ _ _ Hi') p x Hx).
Qed.

(** [nxsem_wait] takes the semaphore when its count is positive; otherwise the
    count goes down and the running task is queued behind the waiters of the same
    or a higher priority, while the waiters of other semaphores stay as they are. *)
Theorem nxsem_wait_queues s u p x r l xr :
  sys_repr s u → sem_inv idle ∅ u → sems u !! p = Some x →
  lists (ksched u) g_readytorun = r :: l → tasks (ksched u) !! r = Some xr → r ≠ idle →
  ∃ s' u', nxsem_wait false (Some p) s =
      Some (if 0 <? semcount x then Waited OK else Waiting (pterrno xr), s') ∧
    sys_repr s' u' ∧ sem_inv idle ∅ u' ∧
    sems u' = <[p := mk_sem (semcount x - 1)]> (sems u) ∧
    ∀ q, waiters (ksched u') q =
      if bool_decide (q = p) && (semcount x <=? 0)
      then prio_insert (tasks (ksched u)) r (waiters (ksched u) q) else waiters (ksched u) q.
Proof.
  intros Hs Hi Hx Hl Hxr Hr. destruct (Z.ltb_spec 0 (semcount x)) as [Hpos|Hz].
  - destruct (take_ok idle u ∅ p x r l Hi Hx Hpos Hl) as (Hrun & _ & Hi').
    destruct (sim_nxsem_wait false (Some p) s u _ _ Hs Hrun) as (s' & Hrun' & Hs').
    eexists s', _. do 4 (split; [done|]). intros q.
    by rewrite (proj2 (Z.leb_gt _ _) Hpos), andb_false_r.
  - destruct (wait_blocks idle u ∅ p x r l xr Hi Hx Hz Hl Hxr Hr)
      as (u' & Hrun & Hi' & Hsem & _ & Hf & HW & _).
    destruct (sim_nxsem_wait false (Some p) s u _ _ Hs Hrun) as (s' & Hrun' & Hs').
    exists s', u'. do 4 (split; [done|]). intros q. rewrite (proj2 (Z.leb_le _ _) Hz), andb_true_r.
    pose proof (sv_core _ _ (sm_sched _ _ _ Hi)) as Hc.
    destruct (running_wsem idle u ∅ r l Hi Hl) as (_ & _ & _ & Hno).
    rewrite (waiters_frame _ _ _ _ Hf HW). unfold waiting_for.
    rewrite filter_prio_insert by (by apply (sc_sorted _ _ Hc)).
    assert (filter (λ a, wsem (alter (set_pterrno OK ∘ set_waitsem (Some p)) r (tasks (ksched u))) a
      = Some q) (lists (ksched u) g_waitingforsemaphore) = waiters (ksched u) q) as ->.
    { apply (waiting_for_ext _ (wsem (tasks (ksched u)))). intros a Ha.
      rewrite (wsem_alter _ _ r (Some p)) by done. apply set_wait_ne. set_solver. }
    rewrite (wsem_alter _ _ r (Some p)) by done. rewrite set_wait_eq.
    case_bool_decide; case_decide; congruence.
Qed.

(** The waiters of a semaphore are ordered by priority. *)
Lemma waiters_sorted u p :
  sem_inv idle ∅ u → prio_sorted (tasks (ksched u)) (waiters (ksched u) p) = true.
Proof.
  intros Hi. pose proof (sv_core _ _ (sm_sched _ _ _ Hi)) as Hc.
  apply (prio_sorted_filter (λ a, wsem (tasks (ksched u)) a = Some p)).
  by apply (sc_sorted _ _ Hc).
Qed.

(** C5: a semaphore is handed on by priority, and in order of arrival among equals.  A
    task that has to wait is queued behind all waiters of the same or a higher
    priority and before those of a lower one.  When tasks wait, [nxsem_post] releases
    the first of the queue, so one of the highest priority; it becomes ready (or
    pending, under the scheduler lock), the others keep their order, and there is a
    switch exactly when it has a higher priority than the running task and the
    scheduler is not locked. *)
Theorem nxsem_post_wakes_highest s u p y :
  sys_repr s u → sem_inv idle ∅ u → sems u !! p = Some y →
  (∀ r l xr, semcount y ≤ 0 → lists (ksched u) g_readytorun = r :: l →
     tasks (ksched u) !! r = Some xr → r ≠ idle →
     ∃ s' u' l1 l2, nxsem_wait false (Some p) s = Some (Waiting (pterrno xr), s') ∧
       sys_repr s' u' ∧ sem_inv idle ∅ u' ∧
       waiters (ksched u) p = l1 ++ l2 ∧ waiters (ksched u') p = l1 ++ r :: l2 ∧
       Forall (λ c, prio (tasks (ksched u)) r ≤ prio (tasks (ksched u)) c) l1 ∧
       Forall (λ c, prio (tasks (ksched u)) c < prio (tasks (ksched u)) r) l2) ∧
  (semcount y < 0 →
   ∃ a ws b s' u' r l xr, waiters (ksched u) p = a :: ws ∧
     Forall (λ c, prio (tasks (ksched u)) c ≤ prio (tasks (ksched u)) a) ws ∧
     nxsem_post (Some p) s = Some ((OK, b), s') ∧ sys_repr s' u' ∧ sem_inv idle ∅ u' ∧
     sems u' = <[p := mk_sem (semcount y + 1)]> (sems u) ∧ waiters (ksched u') p = ws ∧
     (∀ q, q ≠ p → waiters (ksched u') q = waiters (ksched u) q) ∧
     a ∈ lists (ksched u') g_readytorun ++ lists (ksched u') g_pendingtasks ∧
     lists (ksched u) g_readytorun = r :: l ∧ tasks (ksched u) !! r = Some xr ∧
     b = (lockcount xr =? 0) && (sched_priority xr <? prio (tasks (ksched u)) a)).
Proof.
  intros Hs Hi Hy. pose proof (waiters_sorted u p Hi) as Hsort. split.
  - intros r l xr Hz Hl Hxr Hr.
    destruct (nxsem_wait_queues s u p y r l xr) as (s' & u' & Hrun & Hs' & Hi' & _ & Hw); [done..|].
    rewrite (proj2 (Z.ltb_ge _ _) Hz) in Hrun. specialize (Hw p).
    rewrite bool_decide_eq_true_2, (proj2 (Z.leb_le _ _) Hz) in Hw by done.
    destruct (prio_insert_where _ r _ Hsort) as (l1 & l2 & Hl12 & Hins & Hge & Hlt).
    exists s', u', l1, l2. rewrite Hw. by split_and!.
  - intros Hneg. destruct (post_wakes idle u ∅ p y Hi Hy Hneg)
      as (a & ws & x & b & t' & r & l & xr & Hws & Hx & Hwx & Hrun & Hi' & Hf & HB & Ho &
          Hl & Hxr & Hb & Hlists).
    destruct (sim_nxsem_post (Some p) s u _ _ Hs Hrun) as (s' & Hrun' & Hs').
    exists a, ws, b, s'. eexists _, r, l, xr. split; [done|]. split.
    { rewrite Hws in Hsort. by apply prio_sorted_cons in Hsort as [Hall _]. }
    do 6 (split; [done|]). split; [|by rewrite (prio_lookup _ _ _ Hx)].
    cbn [ksched]. rewrite !Hlists by done. apply elem_of_app.
    destruct (must_wait xr (sched_priority x)); [right|left];
      rewrite decide_True, elem_of_prio_insert by done; by left.
Qed.

Lemma prio_insert_split T a l l1 l2 :
  prio_insert T a l = l1 ++ a :: l2 → a ∉ l → l1 ++ l2 = l.
Proof.
  intros Heq Ha. assert (∃ k1 k2, l = k1 ++ k2 ∧ prio_insert T a l = k1 ++ a :: k2)
    as (k1 & k2 & -> & Hk).
  { destruct (prio_split T a l) as [Hall|(k1 & r & k2 & -> & Hall & Hlt)].
    - exists l, []. rewrite app_nil_r. split; [done|]. by apply prio_insert_last.
    - exists k1, (r :: k2). split; [done|]. by apply prio_insert_before. }
  rewrite Hk in Heq. clear Hk. revert l1 Heq. induction k1 as [|c k1 IH]; intros [|d l1]; simpl.
  - by intros [= ->].
  - intros [= <- ->]. set_solver.
  - intros [= -> _]. set_solver.
  - intros [= <- Heq]. f_equal. apply IH; [set_solver|done].
Qed.

(** The same on plain lists, with the fields a timed wait needs. *)
Lemma interrupted_ok u p x r l xr e :
  sem_inv idle ∅ u → sems u !! p = Some x → semcount x ≤ 0 →
  lists (ksched u) g_readytorun = r :: l → tasks (ksched u) !! r = Some xr → r ≠ idle → 0 < e →
  ∃ b u1 x1 u2 u3 x3, nxsem_wait false (Some p) u = Some (Waiting (pterrno xr), u1) ∧
    (tasks (ksched u1) !! r = Some x1 ∧ task_state x1 = TSTATE_WAIT_SEM ∧
     g_pidhash u1 = g_pidhash u) ∧
    nxsem_wait_irq r e u1 = Some (b, u2) ∧ nxsem_wait_resume r (pterrno xr) u2 = Some (- e, u3) ∧
    sem_inv idle ∅ u3 ∧ sems u3 = sems u ∧
    (∀ q, waiters (ksched u3) q = waiters (ksched u) q) ∧
    tasks (ksched u3) !! r = Some x3 ∧ pterrno x3 = pterrno xr ∧ waitdog x3 = waitdog xr.
Proof.
  intros Hi Hx Hz Hl Hxr Hr He.
  destruct (running_wsem idle u ∅ r l Hi Hl) as (xr' & Hxr' & Hw0 & Hno).
  assert (xr' = xr) as -> by congruence.
  destruct (wait_blocks idle u ∅ p x r l xr Hi Hx Hz Hl Hxr Hr)
    as (u1 & Hrun1 & Hi1 & Hsem1 & Hh1 & Hf1 & HW1 & _).
  destruct (frame_lookup _ _ r (set_pterrno OK (set_waitsem (Some p) xr)) Hf1)
    as (x1 & Hx1 & Hk1); [by rewrite lookup_alter_eq, Hxr|].
  assert (waitsem x1 = Some p ∧ waitdog x1 = waitdog xr) as [Hw1 Hd1] by (by injection Hk1).
  assert (task_state x1 = TSTATE_WAIT_SEM) as Hst1.
  { destruct (so_waits _ _ _ _ (sm_ok _ _ _ Hi1) r p) as [Ha _]; [unfold wsem; by rewrite Hx1|].
    destruct (sc_lookup idle _ r _ (sv_core _ _ (sm_sched _ _ _ Hi1)) Ha) as (y & Hy & Hk).
    assert (y = x1) as -> by congruence. by apply wait_sem_state. }
  destruct (wait_irq_wakes idle u1 ∅ r x1 e Hi1 Hx1 Hst1)
    as (p' & y & b & t2 & W1 & W2 & Hp' & Hy & _ & Hrun2 & Hi2 & Hf2 & HW & HW2 & _); [set_solver|].
  assert (p' = p) as -> by congruence.
  rewrite Hsem1, lookup_insert_eq in Hy. injection Hy as <-. cbn [semcount] in *.
  destruct (frame_lookup _ _ r (set_pterrno e (set_waitsem NULL x1)) Hf2)
    as (x2 & Hx2 & Hk2); [by rewrite lookup_alter_eq, Hx1|].
  assert (pterrno x2 = e ∧ waitdog x2 = waitdog x1) as [He2 Hd2] by (by injection Hk2).
  destruct (wait_resume_ok idle _ ∅ r x2 (pterrno xr) Hi2 Hx2) as [Hrun3 Hi3].
  rewrite He2, (proj2 (Z.eqb_neq e OK)) in Hrun3 by (unfold OK; lia).
  eexists b, u1, x1, _, _, (set_pterrno (pterrno xr) x2). do 5 (split; [done|]).
  split; [|split; [|split; [|split; [done|by simpl; congruence]]]].
  - cbn [sems]. rewrite Hsem1, insert_insert_eq. apply insert_id. rewrite Hx. f_equal.
    destruct x. simpl. f_equal. lia.
  - intros q. unfold waiters. cbn [ksched upd tasks lists]. rewrite HW2.
    rewrite (prio_insert_split (tasks (ksched u)) r (lists (ksched u) g_waitingforsemaphore) W1 W2)
      by (congruence || done).
    apply waiting_for_ext. intros a Ha. assert (a ≠ r) as Hne by (intros ->; done).
    rewrite wsem_alter_same by done. rewrite (wsem_frame _ _ _ Hf2).
    rewrite (wsem_alter _ _ r NULL), set_wait_ne by done.
    rewrite (wsem_frame _ _ _ Hf1). by rewrite (wsem_alter _ _ r (Some p)), set_wait_ne.
  - cbn [ksched upd tasks]. cbn [ksched] in Hx2. by rewrite lookup_alter_eq, Hx2.
Qed.

(** C35: a wait that is interrupted (by a signal, a cancellation or a timeout) gives
    back what it took: the wait returns the negated error code, and the count, the
    waiters of every semaphore and the errno of the task are as before. *)
Theorem nxsem_wait_interrupted s u p x r l xr e :
  sys_repr s u → sem_inv idle ∅ u → sems u !! p = Some x → semcount x ≤ 0 →
  lists (ksched u) g_readytorun = r :: l → tasks (ksched u) !! r = Some xr → r ≠ idle → 0 < e →
  ∃ saved b s1 s2 s3 u3 xr3, nxsem_wait false (Some p) s = Some (Waiting saved, s1) ∧
    nxsem_wait_irq r e s1 = Some (b, s2) ∧ nxsem_wait_resume r saved s2 = Some (- e, s3) ∧
    sys_repr s3 u3 ∧ sem_inv idle ∅ u3 ∧ sems u3 = sems u ∧
    (∀ q, waiters (ksched u3) q = waiters (ksched u) q) ∧
    tasks (ksched u3) !! r = Some xr3 ∧ pterrno xr3 = pterrno xr.
Proof.
  intros Hs Hi Hx Hz Hl Hxr Hr He.
  destruct (interrupted_ok u p x r l xr e) as (b & u1 & x1 & u2 & u3 & x3 & Hrun1 & _ & Hrun2 &
    Hrun3 & Hi3 & Hsem & Hw & Hx3 & He3 & _); [done..|].
  destruct (sim_nxsem_wait false (Some p) s u _ _ Hs Hrun1) as (s1 & Hc1 & Hs1).
  destruct (sim_nxsem_wait_irq r e s1 u1 _ _ Hs1 Hrun2) as (s2 & Hc2 & Hs2).
  destruct (sim_nxsem_wait_resume r (pterrno xr) s2 _ _ _ Hs2 Hrun3) as (s3 & Hc3 & Hs3).
  exists (pterrno xr), b, s1, s2, s3, u3, x3. by do 8 (split; [done|]).
Qed.

(** [nxsem_reset] leaves the count at [count] less the number of tasks that
    waited: the first [count] of them are released in order, the others still
    wait. *)
Theorem nxsem_reset_releases s u p y r l xr count :
  sys_repr s u → sem_inv idle ∅ u → sems u !! p = Some y → 0 ≤ count ≤ SEM_VALUE_MAX →
  lists (ksched u) g_readytorun = r :: l → tasks (ksched u) !! r = Some xr →
  lockcount xr < MAX_LOCK_COUNT →
  ∃ b s' u', nxsem_reset false (Some p) count s = Some ((OK, b), s') ∧ sys_repr s' u' ∧
    sem_inv idle ∅ u' ∧
    sems u' = <[p := mk_sem (count - Z.of_nat (length (waiters (ksched u) p)))]> (sems u) ∧
    waiters (ksched u') p = drop (Z.to_nat count) (waiters (ksched u) p) ∧
    (∀ q, q ≠ p → waiters (ksched u') q = waiters (ksched u) q).
Proof.
  intros Hs Hi Hy Hc Hl Hxr Hlk.
  destruct (reset_ok idle u ∅ p y r l xr count)
    as (b & u' & Hrun & Hi' & Hs' & _ & _ & Hw & Ho); [done..|].
  destruct (sim_nxsem_reset false (Some p) count s u _ _ Hs Hrun) as (s' & Hrun' & Hr').
  exists b, s', u'. by do 5 (split; [done|]).
Qed.

(** When a waiting task is deleted, [nxsem_recover] takes it off its semaphore:
    the count goes up by one and matches the tasks that still wait. *)
Theorem nxsem_recover_counts s u dead a x :
  sys_repr s u → sem_inv idle dead u → tasks (ksched u) !! a = Some x →
  task_state x = TSTATE_WAIT_SEM → a ∉ dead →
  ∃ p y s' u', waitsem x = Some p ∧ sems u !! p = Some y ∧
    nxsem_recover a s = Some (tt, s') ∧ sys_repr s' u' ∧ sem_inv idle ({[a]} ∪ dead) u' ∧
    sems u' = <[p := mk_sem (semcount y + 1)]> (sems u).
Proof.
  intros Hs Hi Hx Hst Hd.
  destruct (recover_ok idle u dead a x Hi Hx Hst Hd) as (p & y & Hp & Hy & Hrun & Hi').
  destruct (sim_nxsem_recover a s u _ _ Hs Hrun) as (s' & Hrun' & Hs').
  exists p, y, s'. eexists. by do 5 (split; [done|]).
Qed.
End props.

(** ** Witnesses *)

#[local] Definition debug_config : Config := {|
  CONFIG_DEBUG_ASSERTIONS := true; CONFIG_DEBUG_FEATURES := false;
  CONFIG_SCHED_TICKLESS_ALARM := false; CONFIG_MAX_WDOGPARMS := 4;
  CONFIG_PREALLOC_WDOGS := 32; CONFIG_WDOG_INTRESERVE := 4;
  CONFIG_RR_INTERVAL := 200; CONFIG_USEC_PER_TICK := 10000;
  CONFIG_MAX_TASKS := 16;
|}.
#[local] Existing Instance debug_config.

(** Task 4 waits for semaphore 9; semaphore 8 is free. *)
Definition demo_waiting : lsched :=
  upd (set_waitsem (Some 9%positive)) 4%positive
    (demo_ls 0 TSTATE_WAIT_SEM g_waitingforsemaphore).

Definition demo_waiting_ptr : sched_s :=
  mk_sched
    (<[4%positive := mk_tcb NULL NULL
         (set_waitsem (Some 9%positive) (demo_td 4 150 TSTATE_WAIT_SEM 0))]> (tcbs demo_blocked))
    (queues demo_blocked).

Definition demo_sems : mem sem_s := {[9%positive := mk_sem (-1); 8%positive := mk_sem 0]}.

Definition demo_hash : list pidhash_s :=
  [mk_ph (Some 1%positive) 0; mk_ph NULL (-1); mk_ph (Some 2%positive) 2;
   mk_ph (Some 3%positive) 3; mk_ph (Some 4%positive) 4] ++ replicate 11 (mk_ph NULL (-1)).

Definition demo_sys : sys sched_s := mk_sys demo_waiting_ptr demo_sems demo_hash.
Definition demo_lsys : sys lsched := mk_sys demo_waiting demo_sems demo_hash.

Lemma demo_sys_repr : sys_repr demo_sys demo_lsys.
Proof.
  split; [|done|done].
  destruct (sim_tcb_set (set_waitsem (Some 9%positive)) 4 demo_blocked
    (demo_ls 0 TSTATE_WAIT_SEM g_waitingforsemaphore) tt demo_waiting demo_blocked_repr)
    as (s' & Hrun & Hs'); [apply ls_set; by eexists|].
  assert (s' = demo_waiting_ptr) as ->; [|exact Hs'].
  unfold tcb_set in Hrun. simpl in Hrun. unfold kput in Hrun.
  erewrite store_Some in Hrun by reflexivity. by injection Hrun.
Qed.

Lemma demo_sem_inv : sem_inv 1 ∅ demo_lsys.
Proof.
  split.
  - by apply inv_upd, demo_blocked_inv.
  - by vm_compute.
  - split.
    + intros a p. unfold wsem. simpl. destruct (decide (a = 4%positive)) as [->|Ha].
      * simpl. intros [= <-]. split; [apply list_elem_of_singleton; done|by_decide].
      * rewrite lookup_alter_ne by done.
        destruct (demo_tasks _ _ !! a) as [x|] eqn:Hx; [|done].
        by destruct (demo_lookup _ _ _ _ Hx) as [[-> ->]|[[-> ->]|[[-> ->]|[-> ->]]]].
    + intros a Ha _. apply list_elem_of_singleton in Ha as ->. done.
    + intros p x. unfold demo_lsys, demo_sems. simpl.
      rewrite lookup_insert_Some, lookup_singleton_Some. by intros [[<- <-]|[_ [<- <-]]].
    + intros p x. unfold demo_lsys, demo_sems. simpl.
      rewrite lookup_insert_Some, lookup_singleton_Some. by intros [[<- <-]|[_ [<- <-]]].
Qed.

Lemma demo_hash_ok : hash_ok demo_lsys.
Proof.
  split; [done|]. split; [done|]. unfold demo_lsys, demo_hash. simpl.
  repeat constructor; intros a; simpl; intros [= <-] || done; by_decide.
Qed.

Definition demo_sem_ops : list sem_op :=
  [SemWait 8; SemPost 9; SemSched OpYield; SemPost 8; SemResume; SemTryWait 8; SemTimeout 4;
   SemReset 9 2; SemDestroy 8; SemInterrupt 3 4; SemSched (OpSetPriority 2 120)].

Lemma sem_history_safe_witness :
  ∃ conts' s' u', sem_run 1 ∅ demo_sem_ops demo_sys = Some (conts', s') ∧ sys_repr s' u' ∧
    sem_inv 1 ∅ u'.
Proof.
  apply (sem_history_safe 1 demo_sem_ops ∅ demo_sys demo_lsys);
    [apply demo_sys_repr|apply demo_sem_inv|apply demo_hash_ok|by_decide].
Defined.

Lemma sem_counts_waiters_witness :
  ∃ conts' s', sem_run 1 ∅ demo_sem_ops demo_sys = Some (conts', s') ∧
    ∀ p x, sems s' !! p = Some x →
      Z.of_nat (size (tcbs_waiting p (tcbs (ksched s')))) = Z.max 0 (- semcount x).
Proof.
  apply (sem_counts_waiters 1 demo_sem_ops ∅ demo_sys demo_lsys);
    [apply demo_sys_repr|apply demo_sem_inv|apply demo_hash_ok|by_decide].
Defined.

Lemma nxsem_wait_queues_witness :
  ∃ s' u', nxsem_wait false (Some 9%positive) demo_sys = Some (Waiting 0, s') ∧
    sys_repr s' u' ∧ sem_inv 1 ∅ u' ∧
    sems u' = <[9%positive := mk_sem (-2)]> demo_sems ∧
    ∀ q, waiters (ksched u') q =
      if bool_decide (q = 9%positive) && (-1 <=? 0)
      then prio_insert (tasks demo_waiting) 2 (waiters demo_waiting q) else waiters demo_waiting q.
Proof.
  apply (nxsem_wait_queues 1 demo_sys demo_lsys 9 (mk_sem (-1)) 2 [3%positive; 1%positive]
           (demo_td 2 100 TSTATE_TASK_RUNNING 0));
    [apply demo_sys_repr|apply demo_sem_inv|done..].
Defined.

Lemma nxsem_post_wakes_highest_witness :
  (∃ s' u' l1 l2, nxsem_wait false (Some 9%positive) demo_sys = Some (Waiting 0, s') ∧
    sys_repr s' u' ∧ sem_inv 1 ∅ u' ∧
    waiters demo_waiting 9 = l1 ++ l2 ∧ waiters (ksched u') 9 = l1 ++ 2%positive :: l2 ∧
    Forall (λ c, prio (tasks demo_waiting) 2 ≤ prio (tasks demo_waiting) c) l1 ∧
    Forall (λ c, prio (tasks demo_waiting) c < prio (tasks demo_waiting) 2) l2) ∧
  ∃ a ws b s' u' r l xr, waiters demo_waiting 9 = a :: ws ∧
    Forall (λ c, prio (tasks demo_waiting) c ≤ prio (tasks demo_waiting) a) ws ∧
    nxsem_post (Some 9%positive) demo_sys = Some ((OK, b), s') ∧ sys_repr s' u' ∧ sem_inv 1 ∅ u' ∧
    sems u' = <[9%positive := mk_sem 0]> demo_sems ∧ waiters (ksched u') 9 = ws ∧
    (∀ q, q ≠ 9%positive → waiters (ksched u') q = waiters demo_waiting q) ∧
    a ∈ lists (ksched u') g_readytorun ++ lists (ksched u') g_pendingtasks ∧
    lists demo_waiting g_readytorun = r :: l ∧ tasks demo_waiting !! r = Some xr ∧
    b = (lockcount xr =? 0) && (sched_priority xr <? prio (tasks demo_waiting) a).
Proof.
  destruct (nxsem_post_wakes_highest 1 demo_sys demo_lsys 9 (mk_sem (-1))) as [Hwait Hpost];
    [apply demo_sys_repr|apply demo_sem_inv|done|]. split; [|by apply Hpost].
  by apply (Hwait 2%positive [3%positive; 1%positive] (demo_td 2 100 TSTATE_TASK_RUNNING 0)).
Defined.

Lemma nxsem_wait_interrupted_witness :
  ∃ saved b s1 s2 s3 u3 xr3, nxsem_wait false (Some 8%positive) demo_sys = Some (Waiting saved, s1) ∧
    nxsem_wait_irq 2 ETIMEDOUT s1 = Some (b, s2) ∧
    nxsem_wait_resume 2 saved s2 = Some (- ETIMEDOUT, s3) ∧
    sys_repr s3 u3 ∧ sem_inv 1 ∅ u3 ∧ sems u3 = demo_sems ∧
    (∀ q, waiters (ksched u3) q = waiters demo_waiting q) ∧
    tasks (ksched u3) !! 2%positive = Some xr3 ∧ pterrno xr3 = 0.
Proof.
  apply (nxsem_wait_interrupted 1 demo_sys demo_lsys 8 (mk_sem 0) 2 [3%positive; 1%positive]
           (demo_td 2 100 TSTATE_TASK_RUNNING 0) ETIMEDOUT);
    [apply demo_sys_repr|apply demo_sem_inv|done..].
Defined.

Lemma nxsem_reset_releases_witness :
  ∃ b s' u', nxsem_reset false (Some 9%positive) 3 demo_sys = Some ((OK, b), s') ∧ sys_repr s' u' ∧
    sem_inv 1 ∅ u' ∧ sems u' = <[9%positive := mk_sem 2]> demo_sems ∧
    waiters (ksched u') 9 = [] ∧
    (∀ q, q ≠ 9%positive → waiters (ksched u') q = waiters demo_waiting q).
Proof.
  apply (nxsem_reset_releases 1 demo_sys demo_lsys 9 (mk_sem (-1)) 2 [3%positive; 1%positive]
           (demo_td 2 100 TSTATE_TASK_RUNNING 0) 3);
    [apply demo_sys_repr|apply demo_sem_inv|done..].
Defined.

Lemma nxsem_recover_counts_witness :
  ∃ p y s' u', Some 9%positive = Some p ∧ demo_sems !! p = Some y ∧
    nxsem_recover 4 demo_sys = Some (tt, s') ∧ sys_repr s' u' ∧ sem_inv 1 ({[4%positive]} ∪ ∅) u' ∧
    sems u' = <[p := mk_sem (semcount y + 1)]> demo_sems.
Proof.
  apply (nxsem_recover_counts 1 demo_sys demo_lsys ∅ 4
           (set_waitsem (Some 9%positive) (demo_td 4 150 TSTATE_WAIT_SEM 0)));
    [apply demo_sys_repr|apply demo_sem_inv|done|done|set_solver].
Defined.
