(* ===== verification/Calendar.v ===== *)
(** * Calendar: broken-down time (libs/libc/time)

    [gmtime_r] and [mktime] with the functions they use, for the three
    configurations of the library: the simple one that counts days since 1970,
    and the Gregorian one with or without Julian dates.  [time_t] is a uint32_t;
    a table access out of range is [None].  The first two configurations are
    compared with a reference calendar that adds up the lengths of years and
    months. *)

From S2P Require Import Prelude.
Local Open Scope Z_scope.

(** The options of libs/libc/time/Kconfig; Julian time needs Gregorian time. *)
Class TimeConfig := {
  CONFIG_GREGORIAN_TIME : bool;
  CONFIG_JULIAN_TIME : bool;
  CONFIG_TIME_EXTENDED : bool;
}.

(** [struct tm] of include/time.h; the last three are there with
    [CONFIG_TIME_EXTENDED] only. *)
Record tm := mk_tm {
  tm_sec : Z; tm_min : Z; tm_hour : Z; tm_mday : Z; tm_mon : Z; tm_year : Z;
  tm_wday : option Z; tm_yday : option Z; tm_isdst : option Z;
}.

(** ** The code *)

(** lib_isleapyear.c *)
Definition clock_isleapyear (year : Z) : bool :=
  if negb (Z.rem year 400 =? 0) then
    if negb (Z.rem year 100 =? 0) then
      if negb (Z.rem year 4 =? 0) then false else true
    else false
  else true.

(** lib_daysbeforemonth.c *)
Definition g_daysbeforemonth : list Z :=
  [0; 31; 59; 90; 120; 151; 181; 212; 243; 273; 304; 334; 365].

Definition clock_daysbeforemonth (month : Z) (leapyear : bool) : option Z :=
  if month <? 0 then None
  else
    retval ← g_daysbeforemonth !! Z.to_nat month;
    Some (if (2 <=? month) && leapyear then retval + 1 else retval).

(** lib_dayofweek.c *)
Definition clock_dayoftheweek (mday month year : Z) : Z :=
  let '(year, month) := if month <=? 2 then (year - 1, month + 12) else (year, month) in
  let month := month - 2 in
  Z.rem (mday + year + Z.quot year 4 - Z.quot year 100 + Z.quot year 400 +
         Z.quot (31 * month) 12) 7.

(** lib_calendar2utc.c, without [CONFIG_GREGORIAN_TIME] *)
Definition calendar2utc_simple (year month day : Z) : option Z :=
  let days := u32 ((year - 1970) * 365) in
  let days := u32 (days + Z.shiftr (year - 1969) 2) in
  before ← clock_daysbeforemonth month (clock_isleapyear year);
  let days := u32 (days + u32 before) in
  Some (u32 (days + u32 (day - 1))).

(** and with it *)
Definition JD_OF_EPOCH : Z := 2440588.
Definition GREG_DUTC : Z := -141427.
Definition GREG_YEAR : Z := 1582.
Definition GREG_MONTH : Z := 10.
Definition GREG_DAY : Z := 15.

Definition clock_gregorian2utc (year month day : Z) : Z :=
  let temp := if month <=? 2 then -1 else 0 in
  u32 (Z.quot (1461 * (year + 4800 + temp)) 4
       + Z.quot (367 * (month - 2 - 12 * temp)) 12
       - Z.quot (3 * Z.quot (year + 4900 + temp) 100) 4 + day - 32075).

Definition clock_julian2utc (year month day : Z) : Z :=
  u32 (367 * year
       - Z.quot (7 * (year + 5001 + Z.quot (month - 9) 7)) 4
       + Z.quot (275 * month) 9
       + day + 1729777).

Section time.
Context `{TimeConfig}.

Definition calendar2utc_gregorian (year month day : Z) : Z :=
  let dyear := Z.quot (month - 1) 12 in
  let month := month - 12 * dyear in
  let year := year + dyear in
  let '(year, month) := if month <? 1 then (year - 1, month + 12) else (year, month) in
  if CONFIG_JULIAN_TIME then
    let isgreg :=
      if GREG_YEAR <? year then true
      else if year <? GREG_YEAR then false
      else if GREG_MONTH <? month then true
      else if month <? GREG_MONTH then false
      else GREG_DAY <=? day in
    if isgreg then u32 (clock_gregorian2utc year month day - JD_OF_EPOCH)
    else u32 (clock_julian2utc year month day - JD_OF_EPOCH)
  else u32 (clock_gregorian2utc year month day - JD_OF_EPOCH).

Definition clock_calendar2utc (year month day : Z) : option Z :=
  if CONFIG_GREGORIAN_TIME then Some (calendar2utc_gregorian year month day)
  else calendar2utc_simple year month day.

(** lib_gmtimer.c *)
Definition SEC_PER_MIN : Z := 60.
Definition SEC_PER_HOUR : Z := 60 * SEC_PER_MIN.
Definition SEC_PER_DAY : Z := 24 * SEC_PER_HOUR.

Definition clock_utc2gregorian (jd : Z) : Z * Z * Z :=
  let l := u32 (jd + 68569) in
  let n := Z.quot (4 * l) 146097 in
  let l := l - Z.quot (146097 * n + 3) 4 in
  let i := Z.quot (4000 * (l + 1)) 1461001 in
  let l := l - Z.quot (1461 * i) 4 + 31 in
  let j := Z.quot (80 * l) 2447 in
  let d := l - Z.quot (2447 * j) 80 in
  let l := Z.quot j 11 in
  let m := j + 2 - 12 * l in
  let y := 100 * (n - 49) + i + l in
  (y, m, d).

Definition clock_utc2julian (jd : Z) : Z * Z * Z :=
  let j := u32 (jd + 1402) in
  let k := Z.quot (j - 1) 1461 in
  let l := j - 1461 * k in
  let n := Z.quot (l - 1) 365 - Z.quot l 1461 in
  let i := l - 365 * n + 30 in
  let j := Z.quot (80 * i) 2447 in
  let d := i - Z.quot (2447 * j) 80 in
  let i := Z.quot j 11 in
  let m := j + 2 - 12 * i in
  let y := 4 * k + n + i - 4716 in
  (y, m, d).

(** Lines 186-211: the years of a four-year period. *)
Fixpoint utc2calendar_years (fuel : nat) (value days : Z) : option (Z * Z * bool) :=
  let leapyear := clock_isleapyear (value + 1970) in
  let tmp := if leapyear then 366 else 365 in
  if tmp <=? days then
    match fuel with
    | O => None
    | S fuel => utc2calendar_years fuel (value + 1) (days - tmp)
    end
  else Some (value, days, leapyear).

(** Lines 222-271: binary search for the month. *)
Fixpoint utc2calendar_month (fuel : nat) (min max days : Z) (leapyear : bool) : option Z :=
  let value := Z.shiftr (min + max) 1 in
  tmp ← clock_daysbeforemonth (value + 1) leapyear;
  match (if days <? tmp then
           tmp ← clock_daysbeforemonth value leapyear;
           Some (if days <? tmp then Some (min, value - 1) else None)
         else Some (Some (value + 1, max)))
  with
  | None => None
  | Some None => Some value
  | Some (Some (min, max)) =>
      if min <? max then
        match fuel with O => None | S fuel => utc2calendar_month fuel min max days leapyear end
      else Some min
  end.

(** Lines 167-285; the fuel covers the years of a period and the months. *)
Definition utc2calendar_simple (days : Z) : option (Z * Z * Z) :=
  let value := days / (4 * 365 + 1) in
  let days := u32 (days - value * (4 * 365 + 1)) in
  let value := Z.shiftl value 2 in
  '(value, days, leapyear) ← utc2calendar_years 4 value days;
  let year := 1970 + value in
  value ← utc2calendar_month 12 0 11 days leapyear;
  before ← clock_daysbeforemonth value leapyear;
  let days := days - before in
  Some (year, value + 1, days + 1).

(** [utc >= GREG_DUTC] compares as unsigned. *)
Definition clock_utc2calendar (utc : Z) : option (Z * Z * Z) :=
  if CONFIG_GREGORIAN_TIME then
    if CONFIG_JULIAN_TIME then
      Some (if u32 GREG_DUTC <=? utc then clock_utc2gregorian (u32 (utc + JD_OF_EPOCH))
            else clock_utc2julian (u32 (utc + JD_OF_EPOCH)))
    else Some (clock_utc2gregorian (u32 (utc + JD_OF_EPOCH)))
  else utc2calendar_simple utc.

Definition gmtime_r (timer : Z) : option tm :=
  let epoch := timer in
  let jdn := epoch / SEC_PER_DAY in
  let epoch := u32 (epoch - SEC_PER_DAY * jdn) in
  let hour := epoch / SEC_PER_HOUR in
  let epoch := u32 (epoch - SEC_PER_HOUR * hour) in
  let min := epoch / SEC_PER_MIN in
  let epoch := u32 (epoch - SEC_PER_MIN * min) in
  let sec := epoch in
  '(year, month, day) ← clock_utc2calendar jdn;
  let tm_mon := month - 1 in
  if CONFIG_TIME_EXTENDED then
    before ← clock_daysbeforemonth tm_mon (clock_isleapyear year);
    Some (mk_tm sec min hour day tm_mon (year - 1900)
            (Some (clock_dayoftheweek day month year)) (Some (day + before)) (Some 0))
  else Some (mk_tm sec min hour day tm_mon (year - 1900) None None None).

(** lib_mktime.c *)
Definition mktime (tp : tm) : option Z :=
  jdn ← clock_calendar2utc (tm_year tp + 1900) (tm_mon tp) (tm_mday tp);
  Some (u32 (((jdn * 24 + tm_hour tp) * 60 + tm_min tp) * 60 + tm_sec tp)).
End time.

(** ** The reference calendar *)

Definition leap (y : Z) : bool :=
  (y mod 4 =? 0) && (negb (y mod 100 =? 0) || (y mod 400 =? 0)).
Definition year_length (y : Z) : Z := if leap y then 366 else 365.
Definition month_length (leapyear : bool) (m : Z) : Z :=
  match m with
  | 1 => if leapyear then 29 else 28
  | 3 | 5 | 8 | 10 => 30
  | _ => 31
  end.

(** The days of the first [n] years since 1970, and months of a year. *)
Fixpoint days_of_years (n : nat) : Z :=
  match n with O => 0 | S n => days_of_years n + year_length (1970 + Z.of_nat n) end.
Fixpoint days_of_months (leapyear : bool) (n : nat) : Z :=
  match n with O => 0 | S n => days_of_months leapyear n + month_length leapyear (Z.of_nat n) end.

Definition ref_days (year mon mday : Z) : Z :=
  days_of_years (Z.to_nat (year - 1970)) + days_of_months (leap year) (Z.to_nat mon) + mday - 1.

Definition ref_seconds (t : tm) : Z :=
  ((ref_days (tm_year t + 1900) (tm_mon t) (tm_mday t) * 24 + tm_hour t) * 60 + tm_min t) * 60
  + tm_sec t.

(** A date and time of the years 1970 to 2100. *)
Record valid_tm (t : tm) : Prop := {
  vt_sec : 0 ≤ tm_sec t < 60;
  vt_min : 0 ≤ tm_min t < 60;
  vt_hour : 0 ≤ tm_hour t < 24;
  vt_mday : 1 ≤ tm_mday t ≤ month_length (leap (tm_year t + 1900)) (tm_mon t);
  vt_mon : 0 ≤ tm_mon t < 12;
  vt_year : 70 ≤ tm_year t ≤ 200;
}.

(** The first day of 2101. *)
Definition LAST_DAY : Z := 47847.

(** ** The tables *)

Lemma isleapyear_ref y : 0 ≤ y → clock_isleapyear y = leap y.
Proof.
  intros Hy. unfold clock_isleapyear, leap. rewrite !Z.rem_mod_nonneg by lia.
  destruct (Z.eqb_spec (y mod 400) 0), (Z.eqb_spec (y mod 100) 0), (Z.eqb_spec (y mod 4) 0);
    simpl; try done; exfalso; Z.div_mod_to_equations; lia.
Qed.

Lemma daysbeforemonth_ref m l :
  0 ≤ m ≤ 12 → clock_daysbeforemonth m l = Some (days_of_months l (Z.to_nat m)).
Proof.
  intros Hm. assert (Forall (λ m, ∀ l, clock_daysbeforemonth m l =
    Some (days_of_months l (Z.to_nat m))) (seqZ 0 13)) as Hall.
  { repeat constructor; by intros []. }
  rewrite Forall_forall in Hall. apply Hall, elem_of_seqZ. lia.
Qed.

(** The four-yearly leap days are right until 2100. *)
Lemma days_of_years_simple (n : nat) :
  (n ≤ 130)%nat → days_of_years n = 365 * Z.of_nat n + (Z.of_nat n + 1) / 4.
Proof.
  intros Hn. assert (Forall (λ n, days_of_years n = 365 * Z.of_nat n + (Z.of_nat n + 1) / 4)
    (seq 0 131)) as Hall by by_decide.
  rewrite Forall_forall in Hall. apply Hall, elem_of_seq. lia.
Qed.

Lemma days_of_years_mono (n k : nat) : (n ≤ k)%nat → days_of_years n ≤ days_of_years k.
Proof.
  induction 1 as [|k _ IH]; simpl; [done|]. unfold year_length. destruct (leap _); lia.
Qed.

Lemma days_of_years_131 : days_of_years 131 = LAST_DAY.
Proof. by vm_compute. Qed.

(** ** From days to dates *)

Lemma utc2calendar_years_ok fuel (v : nat) days :
  0 ≤ days → days_of_years v + days < days_of_years (v + S fuel) →
  ∃ v' : nat, utc2calendar_years fuel (Z.of_nat v) days =
      Some (Z.of_nat v', days_of_years v + days - days_of_years v', leap (1970 + Z.of_nat v')) ∧
    days_of_years v' ≤ days_of_years v + days < days_of_years (S v').
Proof.
  revert v days. induction fuel as [|fuel IH]; intros v days Hpos Hlt;
    cbn [utc2calendar_years]; rewrite isleapyear_ref, (Z.add_comm _ 1970) by lia;
    fold (year_length (1970 + Z.of_nat v)).
  - rewrite Nat.add_1_r in Hlt. cbn [days_of_years] in Hlt.
    rewrite (proj2 (Z.leb_gt _ _)) by lia. exists v. cbn [days_of_years].
    split; [do 3 f_equal; lia|lia].
  - destruct (Z.leb_spec (year_length (1970 + Z.of_nat v)) days) as [Hle|Hgt].
    + replace (Z.of_nat v + 1) with (Z.of_nat (S v)) by lia.
      destruct (IH (S v) (days - year_length (1970 + Z.of_nat v))) as (v' & -> & Hv');
        [lia|cbn [days_of_years]; rewrite Nat.add_succ_comm; lia|].
      exists v'. cbn [days_of_years] in *. split; [do 3 f_equal; lia|lia].
    + exists v. cbn [days_of_years]. split; [do 3 f_equal; lia|lia].
Qed.

Definition month_ok (l : bool) (days : Z) : bool :=
  match utc2calendar_month 12 0 11 days l with
  | Some m => (0 <=? m) && (m <? 12) && (days_of_months l (Z.to_nat m) <=? days)
      && (days <? days_of_months l (Z.to_nat m) + month_length l m)
  | None => false
  end.

(** The binary search finds the month of every day of the year. *)
Lemma utc2calendar_month_ok (l : bool) days :
  0 ≤ days < (if l then 366 else 365) →
  ∃ m, utc2calendar_month 12 0 11 days l = Some m ∧ 0 ≤ m < 12 ∧
    days_of_months l (Z.to_nat m) ≤ days < days_of_months l (Z.to_nat m) + month_length l m.
Proof.
  intros Hd. assert (Forall (λ d, month_ok l d = true) (seqZ 0 (if l then 366 else 365))) as Hall.
  { destruct l; by_decide. }
  rewrite Forall_forall in Hall. specialize (Hall days).
  rewrite elem_of_seqZ in Hall. specialize (Hall ltac:(lia)). unfold month_ok in Hall.
  destruct (utc2calendar_month 12 0 11 days l) as [m|]; [|done]. exists m.
  rewrite !andb_true_iff, !Z.leb_le, !Z.ltb_lt in Hall. split; [done|lia].
Qed.

Lemma utc2calendar_simple_ok days :
  0 ≤ days < LAST_DAY →
  ∃ y m d, utc2calendar_simple days = Some (y, m + 1, d) ∧ ref_days y m d = days ∧
    1970 ≤ y ≤ 2100 ∧ 0 ≤ m < 12 ∧ 1 ≤ d ≤ month_length (leap y) m.
Proof.
  intros Hd. unfold utc2calendar_simple. change (4 * 365 + 1) with 1461.
  set (q := days / 1461). assert (0 ≤ q ≤ 32 ∧ 0 ≤ days - 1461 * q < 1461) as [Hq Hr].
  { unfold q, LAST_DAY in *. Z.div_mod_to_equations. lia. }
  rewrite wrap_u_small by (change (2 ^ 32) with 4294967296; lia).
  rewrite Z.shiftl_mul_pow2 by done. change (2 ^ 2) with 4.
  assert (days_of_years (Z.to_nat (4 * q)) = 1461 * q) as Hy.
  { rewrite days_of_years_simple by lia. rewrite Z2Nat.id by lia. Z.div_mod_to_equations. lia. }
  assert (days < days_of_years (Z.to_nat (4 * q) + 5)) as Hlt.
  { destruct (decide (q = 32)) as [->|].
    - rewrite <- days_of_years_131 in Hd. pose proof (days_of_years_mono 131 133 ltac:(lia)).
      change (Z.to_nat (4 * 32) + 5)%nat with 133%nat. lia.
    - pose proof (days_of_years_mono (Z.to_nat (4 * (q + 1))) (Z.to_nat (4 * q) + 5) ltac:(lia)).
      rewrite days_of_years_simple in H by lia. rewrite Z2Nat.id in H by lia.
      Z.div_mod_to_equations. lia. }
  replace (q * 4) with (Z.of_nat (Z.to_nat (4 * q))) by lia.
  replace (days - q * 1461) with (days - 1461 * q) by lia.
  destruct (utc2calendar_years_ok 4 (Z.to_nat (4 * q)) (days - 1461 * q)) as (v & Hrun & Hv);
    [lia|rewrite Hy; lia|]. rewrite Hrun. cbn [mbind option_bind].
  replace (days_of_years (Z.to_nat (4 * q)) + (days - 1461 * q)) with days in * by lia.
  assert (v ≤ 130)%nat as Hv130.
  { destruct (decide (v ≤ 130)%nat); [done|]. rewrite <- days_of_years_131 in Hd.
    pose proof (days_of_years_mono 131 v ltac:(lia)). lia. }
  destruct (utc2calendar_month_ok (leap (1970 + Z.of_nat v)) (days - days_of_years v))
    as (m & Hm & Hm12 & Hdm).
  { cbn [days_of_years] in Hv. unfold year_length in Hv. destruct (leap _); lia. }
  rewrite Hm. cbn [mbind option_bind]. rewrite daysbeforemonth_ref by lia. cbn [mbind option_bind].
  do 3 eexists. split; [done|]. unfold ref_days.
  replace (1970 + Z.of_nat v - 1970) with (Z.of_nat v) by lia. rewrite Nat2Z.id. lia.
Qed.

(** ** From dates to days *)

Lemma ref_days_bounds y m d :
  1970 ≤ y ≤ 2100 → 0 ≤ m < 12 → 1 ≤ d ≤ month_length (leap y) m →
  days_of_years (Z.to_nat (y - 1970)) + days_of_months (leap y) (Z.to_nat m) ≤ ref_days y m d <
  days_of_years (Z.to_nat (y - 1970)) + days_of_months (leap y) (S (Z.to_nat m)).
Proof.
  intros Hy Hm Hd. unfold ref_days. cbn [days_of_months]. rewrite Z2Nat.id by lia. lia.
Qed.

Lemma days_of_months_mono l (n k : nat) :
  (n ≤ k)%nat → days_of_months l n ≤ days_of_months l k.
Proof.
  induction 1 as [|k _ IH]; simpl; [done|].
  assert (0 ≤ month_length l (Z.of_nat k)); [|lia].
  unfold month_length. by repeat case_match.
Qed.

Lemma days_of_months_12 l : days_of_months l 12 = if l then 366 else 365.
Proof. by destruct l. Qed.

(** A date lies in its year. *)
Lemma ref_days_year y m d :
  1970 ≤ y ≤ 2100 → 0 ≤ m < 12 → 1 ≤ d ≤ month_length (leap y) m →
  days_of_years (Z.to_nat (y - 1970)) ≤ ref_days y m d < days_of_years (S (Z.to_nat (y - 1970))).
Proof.
  intros Hy Hm Hd. pose proof (ref_days_bounds y m d Hy Hm Hd) as Hb.
  pose proof (days_of_months_mono (leap y) 0 (Z.to_nat m) ltac:(lia)) as H0.
  pose proof (days_of_months_mono (leap y) (S (Z.to_nat m)) 12 ltac:(lia)) as H12.
  rewrite days_of_months_12 in H12. cbn [days_of_years days_of_months] in *.
  replace (1970 + Z.of_nat (Z.to_nat (y - 1970))) with y by lia. unfold year_length.
  destruct (leap y); lia.
Qed.

Lemma ref_days_inj y m d y' m' d' :
  1970 ≤ y ≤ 2100 → 0 ≤ m < 12 → 1 ≤ d ≤ month_length (leap y) m →
  1970 ≤ y' ≤ 2100 → 0 ≤ m' < 12 → 1 ≤ d' ≤ month_length (leap y') m' →
  ref_days y m d = ref_days y' m' d' → y = y' ∧ m = m' ∧ d = d'.
Proof.
  intros Hy Hm Hd Hy' Hm' Hd' Heq.
  pose proof (ref_days_year y m d Hy Hm Hd) as H1.
  pose proof (ref_days_year y' m' d' Hy' Hm' Hd') as H2.
  assert (y = y') as <-.
  { destruct (Z.lt_trichotomy y y') as [Hlt|[He|Hlt]]; [|done|];
      pose proof (days_of_years_mono (S (Z.to_nat (y - 1970))) (Z.to_nat (y' - 1970)));
      pose proof (days_of_years_mono (S (Z.to_nat (y' - 1970))) (Z.to_nat (y - 1970))); lia. }
  pose proof (ref_days_bounds y m d Hy Hm Hd) as B1.
  pose proof (ref_days_bounds y m' d' Hy Hm' Hd') as B2.
  assert (m = m') as <-.
  { destruct (Z.lt_trichotomy m m') as [Hlt|[He|Hlt]]; [|done|];
      pose proof (days_of_months_mono (leap y) (S (Z.to_nat m)) (Z.to_nat m'));
      pose proof (days_of_months_mono (leap y) (S (Z.to_nat m')) (Z.to_nat m)); lia. }
  unfold ref_days in Heq. lia.
Qed.

Lemma ref_days_range y m d :
  1970 ≤ y ≤ 2100 → 0 ≤ m < 12 → 1 ≤ d ≤ month_length (leap y) m →
  0 ≤ ref_days y m d < LAST_DAY.
Proof.
  intros Hy Hm Hd. pose proof (ref_days_year y m d Hy Hm Hd) as Hb.
  pose proof (days_of_years_mono 0 (Z.to_nat (y - 1970)) ltac:(lia)) as H0.
  pose proof (days_of_years_mono (S (Z.to_nat (y - 1970))) 131 ltac:(lia)) as H1.
  rewrite days_of_years_131 in H1. simpl in H0. lia.
Qed.

Lemma calendar2utc_simple_ok y m d :
  1970 ≤ y ≤ 2100 → 0 ≤ m < 12 → 1 ≤ d ≤ month_length (leap y) m →
  calendar2utc_simple y m d = Some (ref_days y m d).
Proof.
  intros Hy Hm Hd. pose proof (ref_days_range y m d Hy Hm Hd) as Hr.
  pose proof (days_of_months_mono (leap y) 0 (Z.to_nat m) ltac:(lia)) as H0.
  unfold calendar2utc_simple. rewrite isleapyear_ref, daysbeforemonth_ref by lia. simpl.
  rewrite Z.shiftr_div_pow2 by done. change (2 ^ 2) with 4. f_equal.
  assert (ref_days y m d = 365 * (y - 1970) + (y - 1969) / 4
    + days_of_months (leap y) (Z.to_nat m) + (d - 1)) as Hrd.
  { unfold ref_days. rewrite days_of_years_simple by lia. rewrite Z2Nat.id by lia.
    replace (y - 1970 + 1) with (y - 1969) by lia. lia. }
  simpl in H0. assert (0 ≤ (y - 1969) / 4) by (apply Z.div_pos; lia).
  unfold LAST_DAY in Hr.
  assert (∀ z, 0 ≤ z < 4294967296 → u32 z = z) as Hu by (intros z Hz; by apply wrap_u_small).
  rewrite (Hu ((y - 1970) * 365)), (Hu (days_of_months _ _)), (Hu (d - 1)) by lia.
  rewrite (Hu ((y - 1970) * 365 + _)) by lia. rewrite (Hu (_ + days_of_months _ _)) by lia.
  rewrite Hu by lia. lia.
Qed.

(** ** The day of the week *)

Lemma leap_cases y :
  1970 ≤ y ≤ 2100 → leap y = bool_decide (y mod 4 = 0) && negb (bool_decide (y = 2100)).
Proof.
  intros Hy. unfold leap.
  destruct (Z.eqb_spec (y mod 4) 0), (Z.eqb_spec (y mod 100) 0), (Z.eqb_spec (y mod 400) 0);
    repeat case_bool_decide; simpl; try done; exfalso; Z.div_mod_to_equations; lia.
Qed.

(** Evaluate the closed parts of a day-of-the-week goal. *)
Ltac eval_closed :=
  match goal with
  | |- context [if ?b then _ else _] => let v := eval vm_compute in b in change b with v
  end; cbv iota beta;
  match goal with
  | |- context [Z.quot (31 * ?e) 12] =>
      let v := eval vm_compute in (Z.quot (31 * e) 12) in change (Z.quot (31 * e) 12) with v
  end;
  match goal with
  | |- context [days_of_months ?l ?n] =>
      let v := eval vm_compute in (days_of_months l n) in change (days_of_months l n) with v
  end.

(** 1970-01-01 was a Thursday. *)
Lemma dayoftheweek_ok y m d :
  1970 ≤ y ≤ 2100 → 0 ≤ m < 12 → 1 ≤ d ≤ month_length (leap y) m →
  clock_dayoftheweek d (m + 1) y = (ref_days y m d + 4) mod 7.
Proof.
  intros Hy Hm Hd. unfold ref_days. rewrite days_of_years_simple by lia.
  rewrite Z2Nat.id by lia. replace (y - 1970 + 1) with (y - 1969) by lia.
  pose proof (leap_cases y Hy) as Hl. unfold clock_dayoftheweek.
  assert (m = 0 ∨ m = 1 ∨ m = 2 ∨ m = 3 ∨ m = 4 ∨ m = 5 ∨ m = 6 ∨ m = 7 ∨ m = 8 ∨ m = 9 ∨
          m = 10 ∨ m = 11) as Hin by lia.
  assert (∀ z, 0 ≤ z → Z.quot z 4 = z / 4 ∧ Z.quot z 100 = z / 100 ∧ Z.quot z 400 = z / 400) as Hq.
  { intros z Hz. by rewrite !Z.quot_div_nonneg by lia. }
  destruct (leap y) eqn:El; destruct_or! Hin; subst m; eval_closed;
    (destruct (Hq y ltac:(lia)) as (-> & -> & ->) || destruct (Hq (y - 1) ltac:(lia)) as (-> & -> & ->));
    rewrite Z.rem_mod_nonneg by (Z.div_mod_to_equations; lia);
    repeat case_bool_decide; try done; clear -Hy Hd H H0; Z.div_mod_to_equations; lia.
Qed.

(** ** Properties *)

Section props.
Context `{TimeConfig}.

(** Splitting seconds into days, hours, minutes and seconds. *)
Lemma gmtime_split t :
  0 ≤ t < 4294967296 →
  let jdn := t / SEC_PER_DAY in
  let hour := u32 (t - SEC_PER_DAY * jdn) / SEC_PER_HOUR in
  let min := u32 (u32 (t - SEC_PER_DAY * jdn) - SEC_PER_HOUR * hour) / SEC_PER_MIN in
  let sec := u32 (u32 (u32 (t - SEC_PER_DAY * jdn) - SEC_PER_HOUR * hour) - SEC_PER_MIN * min) in
  0 ≤ sec < 60 ∧ 0 ≤ min < 60 ∧ 0 ≤ hour < 24 ∧
  ((jdn * 24 + hour) * 60 + min) * 60 + sec = t.
Proof.
  unfold SEC_PER_DAY, SEC_PER_HOUR, SEC_PER_MIN. simpl. intros Ht.
  rewrite (u32_small (t - 86400 * _)) by (Z.div_mod_to_equations; lia).
  rewrite (u32_small (t - _ - 3600 * _)) by (Z.div_mod_to_equations; lia).
  rewrite u32_small by (Z.div_mod_to_equations; lia). Z.div_mod_to_equations. lia.
Qed.

Lemma gmtime_r_ok t :
  CONFIG_GREGORIAN_TIME = false → 0 ≤ t < LAST_DAY * SEC_PER_DAY →
  ∃ tp, gmtime_r t = Some tp ∧ valid_tm tp ∧ ref_seconds tp = t ∧
    (CONFIG_TIME_EXTENDED = true → tm_wday tp = Some ((t / SEC_PER_DAY + 4) mod 7)).
Proof.
  intros HG Ht.
  assert (0 ≤ t < 4294967296 ∧ 0 ≤ t / SEC_PER_DAY < LAST_DAY) as [Ht' Hjdn].
  { unfold LAST_DAY, SEC_PER_DAY, SEC_PER_HOUR, SEC_PER_MIN in *. Z.div_mod_to_equations. lia. }
  pose proof (gmtime_split t Ht') as Hs. unfold gmtime_r, clock_utc2calendar. rewrite HG.
  cbv zeta in Hs |- *.
  set (hour := u32 (t - SEC_PER_DAY * (t / SEC_PER_DAY)) / SEC_PER_HOUR) in *.
  set (min := u32 (u32 (t - SEC_PER_DAY * (t / SEC_PER_DAY)) - SEC_PER_HOUR * hour) / SEC_PER_MIN) in *.
  set (sec := u32 (u32 (u32 (t - SEC_PER_DAY * (t / SEC_PER_DAY)) - SEC_PER_HOUR * hour)
    - SEC_PER_MIN * min)) in *.
  destruct (utc2calendar_simple_ok _ Hjdn) as (y & m & d & -> & Hr & Hy & Hm & Hd).
  cbn [mbind option_bind]. replace (m + 1 - 1) with m by lia.
  assert (∀ wd yd dst, let tp := mk_tm sec min hour d m (y - 1900) wd yd dst in
    valid_tm tp ∧ ref_seconds tp = t) as Hok.
  { intros wd yd dst tp. assert (tm_year tp + 1900 = y) as Hyear by (simpl; lia). split.
    - split; rewrite ?Hyear; simpl; lia.
    - unfold ref_seconds. rewrite Hyear. simpl. rewrite Hr. lia. }
  destruct CONFIG_TIME_EXTENDED.
  - rewrite isleapyear_ref, daysbeforemonth_ref by lia. cbn [mbind option_bind].
    eexists. split; [done|]. destruct (Hok (Some (clock_dayoftheweek d (m + 1) y))
      (Some (d + days_of_months (leap y) (Z.to_nat m))) (Some 0)) as [Hv Hrs].
    split; [done|]. split; [done|]. intros _. simpl. by rewrite dayoftheweek_ok, Hr.
  - eexists. split; [done|]. destruct (Hok None None None). by split_and!.
Qed.

Lemma mktime_ok tp :
  CONFIG_GREGORIAN_TIME = false → valid_tm tp → mktime tp = Some (ref_seconds tp) ∧
    0 ≤ ref_seconds tp < LAST_DAY * SEC_PER_DAY.
Proof.
  intros HG [Hs Hmi Hh Hd Hm Hy]. unfold mktime, clock_calendar2utc. rewrite HG.
  rewrite calendar2utc_simple_ok by (lia || done). cbn [mbind option_bind].
  pose proof (ref_days_range (tm_year tp + 1900) (tm_mon tp) (tm_mday tp) ltac:(lia) Hm Hd) as Hr.
  unfold ref_seconds, LAST_DAY, SEC_PER_DAY, SEC_PER_HOUR, SEC_PER_MIN in *.
  rewrite u32_small by lia. split; [done|lia].
Qed.

(** C39: without [CONFIG_GREGORIAN_TIME] (which no configuration of the repository
    sets; with it the dates differ, [gmtime_julian]), [gmtime_r] gives for every second of the
    years 1970 to 2100 the date and time of the reference calendar: a valid one
    that lies that many seconds after 1970-01-01 00:00:00, with the right day of
    the week. *)
Theorem gmtime_r_reference t :
  CONFIG_GREGORIAN_TIME = false → 0 ≤ t < LAST_DAY * SEC_PER_DAY →
  ∃ tp, gmtime_r t = Some tp ∧ valid_tm tp ∧ ref_seconds tp = t ∧
    (CONFIG_TIME_EXTENDED = true → tm_wday tp = Some ((t / SEC_PER_DAY + 4) mod 7)).
Proof. apply gmtime_r_ok. Qed.

(** C40: without [CONFIG_GREGORIAN_TIME] (which no configuration of the repository
    sets), [gmtime_r] and [mktime] are inverse to each other on the years 1970 to 2100
    (but for the fields [mktime] does not read).  With that option they are not:
    [mktime_gregorian_month]. *)
Theorem gmtime_mktime_inverse t tp :
  CONFIG_GREGORIAN_TIME = false → 0 ≤ t < LAST_DAY * SEC_PER_DAY → valid_tm tp →
  (gmtime_r t ≫= mktime) = Some t ∧
  ∃ tp', (mktime tp ≫= gmtime_r) = Some tp' ∧
    tp' = mk_tm (tm_sec tp) (tm_min tp) (tm_hour tp) (tm_mday tp) (tm_mon tp) (tm_year tp)
            (tm_wday tp') (tm_yday tp') (tm_isdst tp').
Proof.
  intros HG Ht Hv. split.
  - destruct (gmtime_r_ok t HG Ht) as (tp' & -> & Hv' & <- & _). cbn [mbind option_bind].
    apply (mktime_ok tp' HG Hv').
  - destruct (mktime_ok tp HG Hv) as [-> Hr]. cbn [mbind option_bind].
    destruct (gmtime_r_ok _ HG Hr) as (tp' & -> & Hv' & Heq & _). exists tp'. split; [done|].
    destruct Hv as [Hs Hmi Hh Hd Hm Hy], Hv' as [Hs' Hmi' Hh' Hd' Hm' Hy'].
    unfold ref_seconds in Heq.
    destruct (ref_days_inj (tm_year tp' + 1900) (tm_mon tp') (tm_mday tp')
      (tm_year tp + 1900) (tm_mon tp) (tm_mday tp)) as (Ey & Em & Ed); [lia..|].
    destruct tp'; simpl in *. f_equal; lia.
Qed.
End props.

(** ** Where the code and the calendar part *)

#[local] Definition simple_time : TimeConfig :=
  {| CONFIG_GREGORIAN_TIME := false; CONFIG_JULIAN_TIME := false; CONFIG_TIME_EXTENDED := true |}.
#[local] Definition gregorian_time : TimeConfig :=
  {| CONFIG_GREGORIAN_TIME := true; CONFIG_JULIAN_TIME := false; CONFIG_TIME_EXTENDED := true |}.
#[local] Definition julian_time : TimeConfig :=
  {| CONFIG_GREGORIAN_TIME := true; CONFIG_JULIAN_TIME := true; CONFIG_TIME_EXTENDED := true |}.

(** The year 2100 is no leap year, which the two conversions of the simple
    configuration take into account differently: from 2101 on, [mktime] does not
    undo [gmtime_r] but is a day late, and 2102-01-01 is the date of two days. *)
Lemma time_after_2100 :
  (gmtime_r (H := simple_time) (LAST_DAY * SEC_PER_DAY) ≫= mktime (H := simple_time)) =
    Some ((LAST_DAY + 1) * SEC_PER_DAY) ∧
  clock_utc2calendar (H := simple_time) (LAST_DAY + 365) = Some (2102, 1, 1) ∧
  clock_utc2calendar (H := simple_time) (LAST_DAY + 366) = Some (2102, 1, 1).
Proof. by vm_compute. Qed.

(** With [CONFIG_GREGORIAN_TIME], [mktime] takes the month of [struct tm], which
    counts from 0, for one that counts from 1: it is a month early. *)
Lemma mktime_gregorian_month :
  gmtime_r (H := gregorian_time) (59 * SEC_PER_DAY) =
    Some (mk_tm 0 0 0 1 2 70 (Some 0) (Some 60) (Some 0)) ∧
  (gmtime_r (H := gregorian_time) (59 * SEC_PER_DAY) ≫= mktime (H := gregorian_time)) =
    Some (31 * SEC_PER_DAY).
Proof. by vm_compute. Qed.

(** With [CONFIG_JULIAN_TIME] every date is a Julian one: the comparison with
    [GREG_DUTC], which is negative, is one of unsigned numbers. *)
Lemma gmtime_julian : clock_utc2calendar (H := julian_time) 0 = Some (1969, 12, 19).
Proof. by vm_compute. Qed.

(** [tm_yday] counts from 1. *)
Lemma gmtime_yday : (gmtime_r (H := simple_time) 0 ≫= tm_yday) = Some 1.
Proof. by vm_compute. Qed.

(** ** Witnesses *)

Lemma gmtime_r_reference_witness :
  ∃ tp, gmtime_r (H := simple_time) 951868799 = Some tp ∧ valid_tm tp ∧
    ref_seconds tp = 951868799 ∧ (true = true → tm_wday tp = Some 2).
Proof.
  apply (gmtime_r_reference (H := simple_time) 951868799); [done|by vm_compute].
Defined.

Lemma gmtime_mktime_inverse_witness :
  (gmtime_r (H := simple_time) 951868799 ≫= mktime (H := simple_time)) = Some 951868799 ∧
  ∃ tp', (mktime (H := simple_time) (mk_tm 1 2 3 29 1 100 None None None)
            ≫= gmtime_r (H := simple_time)) = Some tp' ∧
    tp' = mk_tm 1 2 3 29 1 100 (tm_wday tp') (tm_yday tp') (tm_isdst tp').
Proof.
  apply (gmtime_mktime_inverse (H := simple_time) 951868799 (mk_tm 1 2 3 29 1 100 None None None));
    [done|by vm_compute|].
  split; by vm_compute.
Defined.
