(* ===== verification/Clock.v ===== *)
(** * Clock: times and ticks (sched/clock)

    The conversions between [struct timespec] and ticks of the system timer, and
    the arithmetic on times.  [time_t] is a uint32_t, [sclock_t] an int32_t
    ([CONFIG_SYSTEM_TIME64] undefined); the nanoseconds are a [long], and the
    conversions use 64 bits ([CONFIG_HAVE_LONG_LONG]). *)

From S2P Require Import Prelude.
Local Open Scope Z_scope.

Record timespec := mk_ts { tv_sec : Z; tv_nsec : Z }.

Definition NSEC_PER_SEC : Z := 1000000000.

Section clock.
Context `{Config}.

(** include/nuttx/clock.h *)
Definition NSEC_PER_TICK : Z := CONFIG_USEC_PER_TICK * 1000.
Definition TICK_PER_SEC : Z := Z.quot 1000000 CONFIG_USEC_PER_TICK.

(** clock_timespec_add.c *)
Definition clock_timespec_add (ts1 ts2 : timespec) : timespec :=
  let sec := u32 (tv_sec ts1 + tv_sec ts2) in
  let nsec := tv_nsec ts1 + tv_nsec ts2 in
  if NSEC_PER_SEC <=? nsec then mk_ts (u32 (sec + 1)) (nsec - NSEC_PER_SEC) else mk_ts sec nsec.

(** clock_timespec_subtract.c *)
Definition clock_timespec_subtract (ts1 ts2 : timespec) : timespec :=
  if tv_sec ts1 <? tv_sec ts2 then mk_ts 0 0
  else if (tv_sec ts1 =? tv_sec ts2) && (tv_nsec ts1 <=? tv_nsec ts2) then mk_ts 0 0
  else
    let sec := u32 (tv_sec ts1 - tv_sec ts2) in
    if tv_nsec ts1 <? tv_nsec ts2
    then mk_ts (u32 (sec - 1)) (tv_nsec ts1 + NSEC_PER_SEC - tv_nsec ts2)
    else mk_ts sec (tv_nsec ts1 - tv_nsec ts2).

(** clock_time2ticks.c *)
Definition clock_time2ticks (reltime : timespec) : Z :=
  let relnsec := tv_sec reltime * NSEC_PER_SEC + tv_nsec reltime in
  s32 (Z.quot (relnsec + NSEC_PER_TICK - 1) NSEC_PER_TICK).

(** clock_ticks2time.c *)
Definition clock_ticks2time (ticks : Z) : timespec :=
  let sec := u32 (Z.quot ticks TICK_PER_SEC) in
  let remainder := s32 (ticks - TICK_PER_SEC * sec) in
  mk_ts sec (remainder * NSEC_PER_TICK).

(** clock_abstime2ticks.c *)
Definition compare_timespec (a b : timespec) : Z :=
  if tv_sec a <? tv_sec b then -1
  else if tv_sec b <? tv_sec a then 1
  else tv_nsec a - tv_nsec b.

(** [currtime] is what [clock_gettime] returns, if it succeeds.  The result is the
    status (positive on failure) and the ticks. *)
Definition clock_abstime2ticks (currtime : option timespec) (abstime : timespec) : Z * option Z :=
  match currtime with
  | None => (EINVAL, None)
  | Some currtime =>
      if compare_timespec abstime currtime <? 0 then (OK, Some (-1))
      else
        let nsec := tv_nsec abstime - tv_nsec currtime in
        let sec := u32 (tv_sec abstime - tv_sec currtime) in
        let reltime := if nsec <? 0 then mk_ts (u32 (sec - 1)) (nsec + NSEC_PER_SEC)
                       else mk_ts sec nsec in
        (OK, Some (clock_time2ticks reltime))
  end.
End clock.

(** ** Nanoseconds *)

Definition nsecs (t : timespec) : Z := tv_sec t * NSEC_PER_SEC + tv_nsec t.

Record valid_ts (t : timespec) : Prop := {
  ts_sec : 0 ≤ tv_sec t < 4294967296;
  ts_nsec : 0 ≤ tv_nsec t < NSEC_PER_SEC;
}.

Section props.
Context `{Config}.
Hypothesis tick_pos : 0 < CONFIG_USEC_PER_TICK.

Lemma compare_timespec_neg a b :
  valid_ts a → valid_ts b → compare_timespec a b < 0 ↔ nsecs a < nsecs b.
Proof.
  intros [Ha Han] [Hb Hbn]. unfold compare_timespec, nsecs, NSEC_PER_SEC in *.
  destruct (Z.ltb_spec (tv_sec a) (tv_sec b)), (Z.ltb_spec (tv_sec b) (tv_sec a)); lia.
Qed.

(** The ticks are the time, rounded up. *)
Lemma time2ticks_ok t :
  0 ≤ nsecs t ≤ INT32_MAX * NSEC_PER_TICK →
  let n := clock_time2ticks t in
  0 ≤ n ≤ INT32_MAX ∧ NSEC_PER_TICK * (n - 1) < nsecs t ≤ NSEC_PER_TICK * n.
Proof.
  intros Ht n. assert (0 < NSEC_PER_TICK) as Hp by (unfold NSEC_PER_TICK; lia).
  unfold n, clock_time2ticks. fold (nsecs t). rewrite Z.quot_div_nonneg by lia.
  set (q := (nsecs t + NSEC_PER_TICK - 1) / NSEC_PER_TICK).
  assert (NSEC_PER_TICK * q ≤ nsecs t + NSEC_PER_TICK - 1 < NSEC_PER_TICK * (q + 1)) as Hq.
  { pose proof (Z.mul_div_le (nsecs t + NSEC_PER_TICK - 1) _ Hp) as Hle.
    pose proof (Z.mul_succ_div_gt (nsecs t + NSEC_PER_TICK - 1) _ Hp) as Hgt.
    unfold Z.succ in Hgt. fold q in Hle, Hgt. done. }
  clearbody q. clear n.
  assert (0 ≤ q ≤ INT32_MAX) as Hb by nia. rewrite s32_small by lia. lia.
Qed.

Lemma abstime_diff a c :
  valid_ts a → valid_ts c → nsecs c ≤ nsecs a →
  let nsec := tv_nsec a - tv_nsec c in
  let sec := u32 (tv_sec a - tv_sec c) in
  nsecs (if nsec <? 0 then mk_ts (u32 (sec - 1)) (nsec + NSEC_PER_SEC) else mk_ts sec nsec) =
  nsecs a - nsecs c.
Proof.
  intros [Ha Han] [Hc Hcn] Hle nsec sec. unfold nsecs, NSEC_PER_SEC in *.
  assert (sec = tv_sec a - tv_sec c) as Hs.
  { apply wrap_u_small. change (2 ^ 32) with 4294967296. lia. }
  destruct (Z.ltb_spec nsec 0); simpl; [|lia].
  rewrite wrap_u_small by (change (2 ^ 32) with 4294967296; lia). lia.
Qed.

(** waiting for the number of ticks [clock_abstime2ticks] returns is waiting
    until the absolute time and less than a tick longer; a time that has passed
    gives no ticks.  The distance must fit in an int32_t of ticks. *)
Theorem clock_abstime2ticks_bounds now abstime :
  valid_ts now → valid_ts abstime → nsecs abstime - nsecs now ≤ INT32_MAX * NSEC_PER_TICK →
  ∃ n, clock_abstime2ticks (Some now) abstime = (OK, Some n) ∧ n ≤ INT32_MAX ∧
    (nsecs abstime ≤ nsecs now → n ≤ 0) ∧
    (nsecs now < nsecs abstime →
       nsecs abstime ≤ nsecs now + NSEC_PER_TICK * n < nsecs abstime + NSEC_PER_TICK).
Proof.
  intros Hn Ha Hd. assert (0 < NSEC_PER_TICK) as Hp by (unfold NSEC_PER_TICK; lia).
  unfold clock_abstime2ticks.
  pose proof (compare_timespec_neg abstime now Ha Hn) as Hcmp.
  destruct (Z.ltb_spec (compare_timespec abstime now) 0) as [Hlt|Hge].
  - exists (-1). split; [done|]. assert (nsecs abstime < nsecs now) by (by apply Hcmp). lia.
  - assert (nsecs now ≤ nsecs abstime) as Hle by lia.
    pose proof (abstime_diff abstime now Ha Hn Hle) as Hdiff. cbv zeta in Hdiff |- *.
    set (t := if _ <? 0 then _ else _) in *.
    pose proof (time2ticks_ok t ltac:(lia)) as Hticks. cbv zeta in Hticks.
    eexists. split; [done|]. rewrite Hdiff in Hticks. split; [lia|]. split; [|lia]. intros. nia.
Qed.

(** [clock_timespec_add] and [clock_timespec_subtract] are addition and
    truncated subtraction of nanoseconds, and give normalized times. *)
Lemma clock_timespec_arith a b :
  valid_ts a → valid_ts b → tv_sec a + tv_sec b < 4294967295 →
  valid_ts (clock_timespec_add a b) ∧ nsecs (clock_timespec_add a b) = nsecs a + nsecs b ∧
  valid_ts (clock_timespec_subtract a b) ∧
  nsecs (clock_timespec_subtract a b) = Z.max 0 (nsecs a - nsecs b).
Proof.
  intros [Ha Han] [Hb Hbn] Hs. unfold clock_timespec_add, clock_timespec_subtract, nsecs in *.
  assert (∀ z, 0 ≤ z < 4294967296 → u32 z = z) as Hu by (intros z Hz; by apply wrap_u_small).
  unfold NSEC_PER_SEC in *. rewrite (Hu (tv_sec a + tv_sec b)) by lia. split_and!.
  - destruct (Z.leb_spec 1000000000 (tv_nsec a + tv_nsec b)); split; simpl; rewrite ?Hu; unfold NSEC_PER_SEC; lia.
  - destruct (Z.leb_spec 1000000000 (tv_nsec a + tv_nsec b)); simpl; rewrite ?Hu; lia.
  - destruct (Z.ltb_spec (tv_sec a) (tv_sec b)); [by split|].
    destruct (Z.eqb_spec (tv_sec a) (tv_sec b)), (Z.leb_spec (tv_nsec a) (tv_nsec b)),
      (Z.ltb_spec (tv_nsec a) (tv_nsec b)); simpl; try lia;
      (by split) || (rewrite (Hu (tv_sec a - tv_sec b)) by lia;
                     split; simpl; rewrite ?Hu; unfold NSEC_PER_SEC; lia).
  - destruct (Z.ltb_spec (tv_sec a) (tv_sec b)); [simpl; lia|].
    destruct (Z.eqb_spec (tv_sec a) (tv_sec b)), (Z.leb_spec (tv_nsec a) (tv_nsec b)),
      (Z.ltb_spec (tv_nsec a) (tv_nsec b)); simpl; try lia;
      rewrite (Hu (tv_sec a - tv_sec b)) by lia; rewrite ?Hu; lia.
Qed.

(** A number of ticks is recovered from its time when ticks divide a second. *)
Lemma ticks_roundtrip n :
  CONFIG_USEC_PER_TICK * TICK_PER_SEC = 1000000 → 0 ≤ n ≤ INT32_MAX →
  clock_time2ticks (clock_ticks2time n) = n.
Proof.
  intros Hdiv Hn. assert (0 < TICK_PER_SEC) as Hp by nia.
  set (q := n / TICK_PER_SEC).
  assert (n = TICK_PER_SEC * q + n mod TICK_PER_SEC ∧ 0 ≤ n mod TICK_PER_SEC < TICK_PER_SEC)
    as [Hq Hr] by (split; [apply Z.div_mod; lia|apply Z.mod_pos_bound; lia]).
  assert (0 ≤ q ≤ n) as Hqn by nia.
  assert (nsecs (clock_ticks2time n) = NSEC_PER_TICK * n) as Hns.
  { unfold clock_ticks2time, nsecs. rewrite Z.quot_div_nonneg by lia. fold q.
    rewrite (wrap_u_small 32 q) by (change (2 ^ 32) with 4294967296; lia).
    rewrite s32_small by lia. simpl. unfold NSEC_PER_TICK, NSEC_PER_SEC.
    replace 1000000000 with (CONFIG_USEC_PER_TICK * TICK_PER_SEC * 1000) by lia.
    ring_simplify. lia. }
  assert (0 < NSEC_PER_TICK) as Hp' by (unfold NSEC_PER_TICK; lia).
  pose proof (time2ticks_ok (clock_ticks2time n)) as Hok. cbv zeta in Hok. rewrite Hns in Hok.
  nia.
Qed.
End props.

(** ** A time too far away *)

#[local] Definition tick_config : Config := {|
  CONFIG_DEBUG_ASSERTIONS := true; CONFIG_DEBUG_FEATURES := false;
  CONFIG_SCHED_TICKLESS_ALARM := false; CONFIG_MAX_WDOGPARMS := 4;
  CONFIG_PREALLOC_WDOGS := 32; CONFIG_WDOG_INTRESERVE := 4;
  CONFIG_RR_INTERVAL := 200; CONFIG_USEC_PER_TICK := 10000;
  CONFIG_MAX_TASKS := 16;
|}.

(** The 64-bit number of ticks is cut down to the 32 bits of [sclock_t]: 249 days
    ahead is a negative number of ticks, a time that has passed. *)
Lemma abstime2ticks_far :
  ∃ n, clock_abstime2ticks (H := tick_config) (Some (mk_ts 0 0)) (mk_ts (249 * 86400) 0) =
         (OK, Some n) ∧ n < 0.
Proof. eexists. by vm_compute. Qed.

(** ** Witnesses *)

Lemma clock_abstime2ticks_bounds_witness :
  ∃ n, clock_abstime2ticks (H := tick_config) (Some (mk_ts 10 999999999)) (mk_ts 12 5) =
         (OK, Some n) ∧ n ≤ INT32_MAX ∧
    (12000000005 ≤ 10999999999 → n ≤ 0) ∧
    (10999999999 < 12000000005 →
       12000000005 ≤ 10999999999 + 10000000 * n < 12000000005 + 10000000).
Proof.
  apply (clock_abstime2ticks_bounds (H := tick_config) ltac:(done) (mk_ts 10 999999999) (mk_ts 12 5)); by vm_compute.
Defined.

Lemma clock_timespec_arith_witness :
  valid_ts (clock_timespec_add (mk_ts 10 999999999) (mk_ts 12 5)) ∧
  nsecs (clock_timespec_add (mk_ts 10 999999999) (mk_ts 12 5)) = 23000000004 ∧
  valid_ts (clock_timespec_subtract (mk_ts 10 999999999) (mk_ts 12 5)) ∧
  nsecs (clock_timespec_subtract (mk_ts 10 999999999) (mk_ts 12 5)) = 0.
Proof. apply (clock_timespec_arith (mk_ts 10 999999999) (mk_ts 12 5)); by vm_compute. Defined.
