(* ===== verification/TimedWait.v ===== *)
(** * TimedWait: a task that waits with a timeout

    What waits for semaphores and for message queues have in common: the task has
    a watchdog of Wdog.v in [waitdog] of its TCB, which is started with the
    function that ends the wait and the process id of the task, and given back at
    the end.  The state is the one of the watchdogs; their world is a state that
    contains the scheduler ([World]). *)

From S2P Require Import Prelude Queue QueueRefine Wdog WdogSpec WdogTimer Sched SchedSpec SchedInv SchedOps.
Import Sq SqSpec.
Local Open Scope Z_scope.

(** ** Worlds with a scheduler *)

Class World (W : Type → Type) := {
  wsched {S} : W S → S;
  wset {S} : S → W S → W S;
}.

Section model.
Context `{Config} {W : Type → Type} `{!World W} {S : Type} `{!TaskLists S}.

Definition on_world {W A} (c : K W A) : K (wd_state W) A := λ s,
  '(a, w) ← c (world s);
  Some (a, mk_wd (wdogs s) (g_wdfreelist s) (g_wdactivelist s) (g_wdnfree s) w).

Definition on_wsched {A} (c : K S A) : K (W S) A := λ w, '(a, t) ← c (wsched w); Some (a, wset t w).
Definition on_task {A} (c : K S A) : K (wd_state (W S)) A := on_world (on_wsched c).

(** [rtcb->waitdog = wd_create(); if (!rtcb->waitdog)]: is there one? *)
Definition create_waitdog (irq : bool) (kmm_malloc : option (addr * wdog_s)) (rtcb : addr)
  : K (wd_state (W S)) bool :=
  wdog ← wd_create irq kmm_malloc;
  on_task (tcb_set (set_waitdog wdog) rtcb);;
  r ← on_task (tcb_get rtcb);
  mret (negb (bool_decide (waitdog r = NULL))).

(** [wd_start(rtcb->waitdog, delay, wdentry, 1, getpid())] *)
Definition start_waitdog (wdentry : Z) (rtcb : addr) (delay : Z) : K (wd_state (W S)) unit :=
  r ← on_task (tcb_get rtcb);
  _ ← wd_start (waitdog r) delay wdentry 1 [pid r];
  mret tt.

(** [wd_cancel(rtcb->waitdog)] *)
Definition cancel_waitdog (rtcb : addr) : K (wd_state (W S)) unit :=
  r ← on_task (tcb_get rtcb);
  _ ← wd_cancel (waitdog r);
  mret tt.

(** [wd_delete(rtcb->waitdog); rtcb->waitdog = NULL;] *)
Definition delete_waitdog (rtcb : addr) : K (wd_state (W S)) unit :=
  r ← on_task (tcb_get rtcb);
  _ ← wd_delete (waitdog r);
  on_task (tcb_set (set_waitdog NULL) rtcb).
End model.

(** ** Interrupts at which at most one timer is due *)

Section ticks.
Context `{Config} {W : Type} (pool : list addr).
Implicit Types (s : wd_state W) (ts : timers) (lf : list addr).
Abbreviation repr := (wd_repr (W := W) pool).

(** No timer is due: the functions do not matter. *)
Lemma expiration_late wdentry n s ts lf :
  repr s ts lf → Forall (λ p, 0 < p.2) ts →
  wd_expiration_loop wdentry n s = Some s ∧ (ts ≠ [] → wd_expiration wdentry s = Some s).
Proof.
  intros Hr Hlate. pose proof (wr_active _ _ _ _ Hr) as (_ & Hhd & _ & _).
  unfold wd_expiration. destruct ts as [|[a d] ts]; csimpl in Hhd.
  { destruct n; simpl; by rewrite Hhd. }
  apply Forall_cons in Hlate as [Hd _]. simpl in Hd.
  pose proof (wr_lags _ _ _ _ Hr) as ((x & Hx & Hlx) & _ & _).
  split; [destruct n|intros _]; simpl; rewrite Hhd; simpl; rewrite Hx; simpl;
    by destruct (Z.leb_spec (lag x) 0); [lia|].
Qed.

Lemma shift_late n k ts :
  Forall (λ p, n + k < p.2) ts → Forall (λ p, n < p.2) (tq_shift k ts).
Proof. intros Hlate. unfold tq_shift. apply Forall_fmap. eapply Forall_impl; [done|]. simpl. lia. Qed.

Lemma timer_idle wdentry s ts lf :
  repr s ts lf → Forall (λ p, 1 < p.2) ts →
  ∃ s', wd_timer wdentry s = Some s' ∧ repr s' (tq_shift 1 ts) lf ∧
        same_data wd_info (wdogs s) (wdogs s') ∧ world s' = world s.
Proof.
  intros Hr Hlate. unfold wd_timer.
  pose proof (wr_active _ _ _ _ Hr) as (_ & Hhd & _ & _). rewrite Hhd.
  destruct ts as [|[a d] ts]; [by exists s|].
  pose proof (Forall_inv Hlate) as Hd. simpl in Hd.
  destruct (wd_tick_head pool s ts lf a d 1 Hr) as (m & Hm & Hr1 & Hi); [lia|].
  csimpl. rewrite Hm. simpl. exists (set_wdogs m s). split; [|done].
  eapply expiration_late; [exact O|exact Hr1|by apply shift_late|done].
Qed.

Lemma timer_idle_iter wdentry n s ts lf :
  repr s ts lf → Forall (λ p, Z.of_nat n < p.2) ts →
  ∃ s', Nat.iter n (λ o, o ≫= wd_timer wdentry) (Some s) = Some s' ∧
        repr s' (tq_shift (Z.of_nat n) ts) lf ∧
        same_data wd_info (wdogs s) (wdogs s') ∧ world s' = world s.
Proof.
  intros Hr Hlate. induction n as [|n IH].
  { exists s. rewrite tq_shift_0. done. }
  destruct IH as (s1 & Hrun1 & Hr1 & Hi1 & Hw1); [eapply Forall_impl; [done|simpl; lia]|].
  destruct (timer_idle wdentry s1 _ lf Hr1) as (s2 & Hrun2 & Hr2 & Hi2 & Hw2).
  { apply shift_late. eapply Forall_impl; [done|]. simpl. lia. }
  exists s2. simpl. rewrite Hrun1. simpl. rewrite tq_shift_add in Hr2.
  replace (Z.of_nat (S n)) with (Z.of_nat n + 1) by lia. split; [done|]. split; [done|].
  split; [by etrans|congruence].
Qed.

(** Only the head [w] is due: its function runs, from a state [s1] in which the
    timer is inactive again. *)
Lemma timer_fires wdentry s w ts lf x :
  repr s ((w, 1) :: ts) lf → Forall (λ p, 1 < p.2) ts → wdogs s !! w = Some x →
  ∃ s1, repr s1 (tq_shift 1 ts) lf ∧ same_data wd_info (wdogs s) (wdogs s1) ∧
    world s1 = world s ∧
    ∀ s2, wdentry (func x) (take (Z.to_nat (argc x)) (parm x)) s1 = Some s2 →
      repr s2 (tq_shift 1 ts) lf → wd_timer wdentry s = Some s2.
Proof.
  intros Hr Hlate Hx. pose proof (wr_active _ _ _ _ Hr) as (_ & Hhd & _ & _). csimpl in Hhd.
  destruct (wd_tick_head pool s ts lf w 1 1 Hr) as (m & Hm & Hr1 & Hi1); [lia|].
  destruct (same_data_lookup _ _ _ _ _ Hi1 Hx) as (x1 & Hx1 & Hxi).
  csimpl in Hr1. destruct (wd_expire_head_spec pool wdentry _ w _ _ lf x1 Hr1 Hx1)
    as (s1 & Hr2 & Hi2 & Hw2 & Hrun).
  exists s1. split; [done|]. split; [by etrans|]. split; [done|]. intros s2 Hentry Hr3.
  assert (wd_call x1 = wd_call x) as [= Ef Ea Ep] by (unfold wd_info in Hxi; congruence).
  rewrite Ef, Ea, Ep in Hrun.
  unfold wd_timer. rewrite Hhd, Hm. cbn [mbind option_bind].
  pose proof (wr_active _ _ _ _ Hr1) as (_ & Hhd1 & _ & _). csimpl in Hhd1.
  pose proof (wr_lags _ _ _ _ Hr1) as ((y & Hy & Hly) & _ & _). simpl in Hx1, Hy.
  assert (y = x1) as -> by congruence.
  unfold wd_expiration. simpl. rewrite Hhd1. simpl. rewrite Hx1. simpl.
  rewrite (proj2 (Z.leb_le (lag x1) 0)) by lia. rewrite Hrun, Hentry. simpl.
  eapply expiration_late; [exact Hr3|by apply shift_late].
Qed.
Lemma tq_insert_first w d ts : Forall (λ p, d < p.2) ts → tq_insert w d ts = (w, d) :: ts.
Proof.
  destruct ts as [|[c e] ts]; [done|]. intros Hlate. pose proof (Forall_inv Hlate) as Hd. simpl in Hd.
  by apply (tq_insert_before w d [] c e ts).
Qed.

Lemma free_head s ts w lf :
  repr s ts (w :: lf) → w ∈ dom (wdogs s) ∧ w ∈ pool ∧ (w ∉ lf) ∧ w ∉ ts.*1.
Proof.
  intros [_ _ Hf Hdisj _ _ Hp]. pose proof (Forall_inv (sq_repr_dom _ _ _ Hf)) as Hd.
  pose proof (proj1 Hf). nodup_facts. set_solver.
Qed.

End ticks.

(** ** The worlds of both levels *)

(** [R] relates a world on linked lists to one on plain lists. *)
Class WorldOk `{Config} (W : Type → Type) `{!World W} (R : W sched_s → W lsched → Prop) : Prop := {
  world_get (t : lsched) (u : W lsched) : wsched (wset t u) = t;
  world_same (u : W lsched) : wset (wsched u) u = u;
  world_sim {A} (c : K sched_s A) (d : K lsched A) :
    sim sched_repr c d → sim R (on_wsched c) (on_wsched d);
}.

Lemma on_world_Some {W A} (c : K W A) (s : wd_state W) a w :
  c (world s) = Some (a, w) → on_world c s = Some (a, set_world w s).
Proof. intros Hc. unfold on_world. by rewrite Hc. Qed.

Section world.
Context `{Config} {W : Type → Type} `{!World W} (R : W sched_s → W lsched → Prop) `{!WorldOk W R}.
Context (pool : list addr).
Implicit Types (s : wd_state (W sched_s)) (u : W lsched) (ts : timers) (lf : list addr).
Abbreviation repr := (wd_repr (W := W sched_s) pool).

(** The watchdogs, and the lists their world represents. *)
Record timed s ts lf u : Prop := {
  tm_wd : repr s ts lf;
  tm_sys : R (world s) u;
}.

Lemma world_step {A} (c : K (W sched_s) A) (d : K (W lsched) A) s ts lf u a u' :
  sim R c d → timed s ts lf u → d u = Some (a, u') →
  ∃ s', on_world c s = Some (a, s') ∧ timed s' ts lf u' ∧ wdogs s' = wdogs s.
Proof.
  intros Hsim [Hr Hs] Hd. destruct (Hsim _ _ _ _ Hs Hd) as (w' & Hrun & Hs').
  eexists. split; [by apply on_world_Some|]. split; [|done]. split; [by apply wd_repr_world|done].
Qed.

Lemma timed_same s s' ts ts' lf lf' u :
  timed s ts lf u → repr s' ts' lf' → world s' = world s → timed s' ts' lf' u.
Proof. intros [_ Hs] Hr Hw. split; [done|by rewrite Hw]. Qed.

Lemma on_wsched_Some {A} (c : K lsched A) u a t :
  c (wsched u) = Some (a, t) → on_wsched c u = Some (a, wset t u).
Proof. intros Hc. unfold on_wsched. by rewrite Hc. Qed.

Lemma on_wsched_read {A} (c : K lsched A) u a :
  c (wsched u) = Some (a, wsched u) → on_wsched c u = Some (a, u).
Proof. intros Hc. by rewrite (on_wsched_Some _ _ _ _ Hc), world_same. Qed.

(** The task [r] gets its timer. *)
Definition with_waitdog (d : ptr) (r : addr) u : W lsched := wset (upd (set_waitdog d) r (wsched u)) u.

Lemma with_waitdog_lookup d r u x :
  tasks (wsched u) !! r = Some x → tasks (wsched (with_waitdog d r u)) !! r = Some (set_waitdog d x).
Proof. intros Hx. unfold with_waitdog. rewrite world_get. simpl. by rewrite lookup_alter_eq, Hx. Qed.

Lemma this_step s ts lf u r l :
  timed s ts lf u → lists (wsched u) g_readytorun = r :: l →
  ∃ s', on_task this_task s = Some (r, s') ∧ timed s' ts lf u ∧ wdogs s' = wdogs s.
Proof.
  intros Ht Hl. unfold on_task. eapply world_step; [apply world_sim, sim_this_task|done|].
  by eapply on_wsched_read, ls_this_task.
Qed.

Lemma get_step s ts lf u r x :
  timed s ts lf u → tasks (wsched u) !! r = Some x →
  ∃ s', on_task (tcb_get r) s = Some (x, s') ∧ timed s' ts lf u ∧ wdogs s' = wdogs s.
Proof.
  intros Ht Hx. unfold on_task. eapply world_step; [apply world_sim, sim_tcb_get|done|].
  by apply on_wsched_read, ls_get.
Qed.

Lemma waitdog_step s ts lf u r d :
  timed s ts lf u → is_Some (tasks (wsched u) !! r) →
  ∃ s', on_task (tcb_set (set_waitdog d) r) s = Some (tt, s') ∧
        timed s' ts lf (with_waitdog d r u) ∧ wdogs s' = wdogs s.
Proof.
  intros Ht Hx. unfold on_task. eapply world_step; [apply world_sim, sim_tcb_set|done|].
  by apply on_wsched_Some, ls_set.
Qed.

(** ** The timer of a wait *)

(** The timer is started with the process id of the task as its parameter. *)
Lemma start_waitdog_ok fn s ts lf u r x w delay :
  timed s ts lf u → tasks (wsched u) !! r = Some x → waitdog x = Some w →
  w ∈ dom (wdogs s) → w ∉ lf → 0 ≤ delay ≤ INT32_MAX → (1 ≤ CONFIG_MAX_WDOGPARMS)%nat →
  ∃ s' y, start_waitdog fn r delay s = Some (tt, s') ∧
    timed s' (tq_insert w (Z.min (delay + 1) INT32_MAX) (tq_remove w ts)) lf u ∧
    wdogs s' !! w = Some y ∧ func y = fn ∧ take (Z.to_nat (argc y)) (parm y) = [pid x] ∧
    dom (wdogs s') = dom (wdogs s).
Proof.
  intros Ht Hx Hw Hd Hlf Hdel Hmax. unfold start_waitdog.
  destruct (get_step s ts lf u r x Ht Hx) as (s1 & Hrun1 & Ht1 & Hd1).
  rewrite (K_bind_Some _ _ _ _ _ Hrun1), Hw. rewrite <- Hd1 in Hd.
  apply elem_of_dom in Hd as [y Hy].
  destruct (wd_start_spec pool s1 ts lf w y delay fn 1 [pid x]
    (tm_wd _ _ _ _ Ht1) Hy Hlf Hdel) as (s2 & Hrun2 & Hr2 & Hi2 & Hw2); [lia|].
  rewrite (K_bind_Some _ _ _ _ _ Hrun2).
  destruct (same_data_lookup _ _ _ w _ Hi2 (lookup_insert_eq _ _ _)) as (y2 & Hy2 & Hyi).
  exists s2, y2. split; [done|]. split; [by eapply timed_same|]. split; [done|].
  injection Hyi as -> -> -> _ _. split; [done|]. split; [done|].
  rewrite (same_data_dom _ _ _ Hi2), dom_insert_L, <- Hd1. apply elem_of_dom_2 in Hy. set_solver.
Qed.

Lemma cancel_waitdog_ok s ts lf u r x w :
  timed s ts lf u → tasks (wsched u) !! r = Some x → waitdog x = Some w → w ∈ dom (wdogs s) →
  ∃ s', cancel_waitdog r s = Some (tt, s') ∧ timed s' (tq_remove w ts) lf u ∧
        dom (wdogs s') = dom (wdogs s).
Proof.
  intros Ht Hx Hw Hd. unfold cancel_waitdog.
  destruct (get_step s ts lf u r x Ht Hx) as (s1 & Hrun1 & Ht1 & Hd1).
  rewrite (K_bind_Some _ _ _ _ _ Hrun1), Hw. rewrite <- Hd1 in Hd |- *.
  destruct (wd_cancel_spec pool s1 ts lf w (tm_wd _ _ _ _ Ht1) Hd) as (s2 & Hrun2 & Hr2 & Hi2 & Hw2).
  rewrite (K_bind_Some _ _ _ _ _ Hrun2). exists s2. split; [done|].
  split; [by eapply timed_same|by eapply same_data_dom].
Qed.

(** The timer of the wait is the first to expire: its function [c] runs. *)
Lemma timer_times_out {A} wdentry s ts lf u w D y p (c : K (W sched_s) A) (d : K (W lsched) A) b u' :
  timed s ((w, D) :: ts) lf u → 1 ≤ D → Forall (λ p, D < p.2) ts →
  wdogs s !! w = Some y → take (Z.to_nat (argc y)) (parm y) = [p] →
  (∀ s, wdentry (func y) [p] s = ('(_, s) ← on_world c s; Some s)) → sim R c d → d u = Some (b, u') →
  ∃ s', Nat.iter (Z.to_nat D) (λ o, o ≫= wd_timer wdentry) (Some s) = Some s' ∧
    timed s' (tq_shift D ts) lf u' ∧ dom (wdogs s') = dom (wdogs s).
Proof.
  intros Ht HD Hlate Hy Ha Hentry Hsim Hrun.
  destruct (timer_idle_iter pool wdentry (Z.to_nat (D - 1)) s _ lf (tm_wd _ _ _ _ Ht))
    as (s1 & Hit & Hr1 & Hi1 & Hw1).
  { constructor; [simpl; lia|]. eapply Forall_impl; [done|]. simpl. lia. }
  rewrite Z2Nat.id in Hr1 by lia. csimpl in Hr1. replace (D - (D - 1)) with 1 in Hr1 by lia.
  destruct (same_data_lookup _ _ _ _ _ Hi1 Hy) as (y1 & Hy1 & Hyi).
  assert (wd_call y1 = wd_call y) as [= Ef Ea Ep] by (unfold wd_info in Hyi; congruence).
  destruct (timer_fires pool wdentry s1 w _ lf y1 Hr1) as (s2 & Hr2 & Hi2 & Hw2 & Hfire);
    [apply shift_late; eapply Forall_impl; [done|simpl; lia]|done|].
  rewrite tq_shift_add in Hr2, Hfire. replace (D - 1 + 1) with D in Hr2, Hfire by lia.
  destruct (world_step c d s2 (tq_shift D ts) lf u b u' Hsim)
    as (s3 & Hrun3 & Ht3 & Hd3); [|done|].
  { eapply timed_same; [exact Ht|done|congruence]. }
  exists s3. split; [|split; [done|]].
  - replace (Z.to_nat D) with (Datatypes.S (Z.to_nat (D - 1))) by lia. simpl. rewrite Hit. simpl.
    apply Hfire; [|apply Ht3]. rewrite Ef, Ea, Ep, Ha, Hentry. by rewrite Hrun3.
  - by rewrite Hd3, (same_data_dom _ _ _ Hi2), (same_data_dom _ _ _ Hi1).
Qed.
Hypothesis pool_ok : NoDup pool ∧ length pool = CONFIG_PREALLOC_WDOGS ∧
                     Z.of_nat CONFIG_PREALLOC_WDOGS < 65536.

Lemma create_waitdog_ok s ts w lf u r kmm :
  timed s ts (w :: lf) u → CONFIG_WDOG_INTRESERVE < Z.of_nat (S (length lf)) →
  is_Some (tasks (wsched u) !! r) →
  ∃ s', create_waitdog false kmm r s = Some (true, s') ∧
        timed s' ts lf (with_waitdog (Some w) r u) ∧ dom (wdogs s') = dom (wdogs s).
Proof.
  intros Ht Hres [x Hx]. unfold create_waitdog.
  destruct (wd_create_pool pool pool_ok s ts w lf false kmm (tm_wd _ _ _ _ Ht))
    as (s1 & Hrun1 & Hr1 & Hw1 & Hd1); [by left|].
  rewrite (K_bind_Some _ _ _ _ _ Hrun1).
  destruct (waitdog_step s1 _ _ u r (Some w) (timed_same _ _ _ _ _ _ _ Ht Hr1 Hw1))
    as (s2 & Hrun2 & Ht2 & Hd2); [by eexists|].
  rewrite (K_bind_Some _ _ _ _ _ Hrun2).
  destruct (get_step s2 _ _ _ r _ Ht2 (with_waitdog_lookup _ _ _ _ Hx)) as (s3 & Hrun3 & Ht3 & Hd3).
  rewrite (K_bind_Some _ _ _ _ _ Hrun3). exists s3. split; [done|]. split; [done|congruence].
Qed.

(** The end of a timed wait gives the timer back. *)
Lemma delete_waitdog_ok s ts lf u r x w :
  timed s ts lf u → tasks (wsched u) !! r = Some x → waitdog x = Some w →
  w ∈ dom (wdogs s) → w ∉ lf → w ∈ pool →
  ∃ s', delete_waitdog r s = Some (tt, s') ∧
        timed s' (tq_remove w ts) (lf ++ [w]) (with_waitdog NULL r u).
Proof.
  intros Ht Hx Hw Hd Hlf Hp. unfold delete_waitdog.
  destruct (get_step s ts lf u r x Ht Hx) as (s1 & Hrun1 & Ht1 & Hd1).
  rewrite (K_bind_Some _ _ _ _ _ Hrun1), Hw. rewrite <- Hd1 in Hd.
  apply elem_of_dom in Hd as [y Hy].
  destruct (wd_delete_spec pool pool_ok s1 ts lf w y (tm_wd _ _ _ _ Ht1) Hy Hlf)
    as (s2 & Hrun2 & Hw2 & Hr2 & _). rewrite bool_decide_eq_true_2 in Hr2 by done.
  rewrite (K_bind_Some _ _ _ _ _ Hrun2).
  destruct (waitdog_step s2 _ _ u r NULL (timed_same _ _ _ _ _ _ _ Ht1 Hr2 Hw2))
    as (s3 & Hrun3 & Ht3 & _); [by eexists|].
  by exists s3.
Qed.
End world.
