(* ===== verification/SemTimed.v ===== *)
(** * SemTimed: waits with a timeout (sem_tickwait.c, sem_timedwait.c)

    A timed wait combines the three components: a watchdog of Wdog.v is started
    with [nxsem_timeout] of Semaphore.v as its function, and the task waits for
    the semaphore on the lists of the scheduler.  The state is the one of the
    watchdogs with the semaphores and the scheduler as their world.

    As in Semaphore.v, a wait that blocks is two functions: the code up to the
    context switch and what follows when the task runs again. *)

From S2P Require Import Prelude Queue QueueRefine Wdog WdogSpec WdogTimer Sched SchedSpec SchedInv SchedOps SchedProps Semaphore SemSpec SemOps SemProps Clock TimedWait.
Local Open Scope Z_scope.

#[export] Instance sys_World : World sys := {|
  wsched S := ksched;
  wset S t u := mk_sys t (sems u) (g_pidhash u);
|}.

Section timed.
Context `{Config} {S : Type} `{!TaskLists S}.
(** The function pointer of [nxsem_timeout]. *)
Context (nxsem_timeout_fn : Z).
Implicit Types (sem : ptr).

(** The common end of both functions. *)
Definition timed_cleanup (rtcb : addr) (ret : Z) : K (wd_state (sys S)) Z :=
  delete_waitdog rtcb;;
  mret ret.

(** The common beginning: the watchdog is created and the semaphore tried.  The
    result is that of the wait if it is over, or of [nxsem_trywait] otherwise. *)
Definition timed_begin (irq : bool) (kmm_malloc : option (addr * wdog_s)) (sem : ptr)
    (rtcb : addr) : K (wd_state (sys S)) (Z + Z) :=
  ok ← create_waitdog irq kmm_malloc rtcb;
  if negb ok then mret (inl (- ENOMEM))
  else
    ret ← on_world (nxsem_trywait irq sem);
    if ret =? OK then ret ← timed_cleanup rtcb ret; mret (inl ret) else mret (inr ret).

(** sem_tickwait.c: [start] is a clock_t, [delay] a uint32_t and [systimer] the
    result of [clock_systimer()]; [delay] is converted to the int32_t of
    [wd_start]. *)
Definition tickwait_end (rtcb : addr) (ret : Z) : K (wd_state (sys S)) Z :=
  (if ret <? 0 then mret tt
   else cancel_waitdog rtcb);;
  timed_cleanup rtcb ret.

Definition nxsem_tickwait (irq : bool) (kmm_malloc : option (addr * wdog_s)) (systimer : Z)
    (sem : ptr) (start delay : Z) : K (wd_state (sys S)) wait_status :=
  rtcb ← on_task this_task;
  r ← on_task (tcb_get rtcb);
  kassert (negb (bool_decide (sem = NULL)) && negb irq && bool_decide (waitdog r = NULL));;
  st ← timed_begin irq kmm_malloc sem rtcb;
  match st with
  | inl ret => mret (Waited ret)
  | inr ret =>
      if delay =? 0 then ret ← timed_cleanup rtcb ret; mret (Waited ret)
      else
        let elapsed := u32 (systimer - start) in
        if delay <=? elapsed then ret ← timed_cleanup rtcb (- ETIMEDOUT); mret (Waited ret)
        else
          start_waitdog nxsem_timeout_fn rtcb (s32 (u32 (delay - elapsed)));;
          st ← on_world (nxsem_wait irq sem);
          match st with
          | Waited ret => ret ← tickwait_end rtcb ret; mret (Waited ret)
          | Waiting saved_errno => mret (Waiting saved_errno)
          end
  end.

Definition nxsem_tickwait_resume (rtcb : addr) (saved_errno : Z) : K (wd_state (sys S)) Z :=
  ret ← on_world (nxsem_wait_resume rtcb saved_errno); tickwait_end rtcb ret.

(** sem_timedwait.c: [currtime] is the result of [clock_gettime]; the pointer
    [abstime] may be NULL. *)
Definition timedwait_end (rtcb : addr) (ret : Z) : K (wd_state (sys S)) Z :=
  cancel_waitdog rtcb;;
  timed_cleanup rtcb ret.

Definition nxsem_timedwait (irq : bool) (kmm_malloc : option (addr * wdog_s))
    (currtime : option timespec) (sem : ptr) (abstime : option timespec)
  : K (wd_state (sys S)) wait_status :=
  rtcb ← on_task this_task;
  r ← on_task (tcb_get rtcb);
  kassert (negb irq && bool_decide (waitdog r = NULL));;
  if CONFIG_DEBUG_FEATURES && (bool_decide (abstime = None) || bool_decide (sem = NULL))
  then mret (Waited (- EINVAL))
  else
    st ← timed_begin irq kmm_malloc sem rtcb;
    match st with
    | inl ret => mret (Waited ret)
    | inr ret =>
        abstime ← klift abstime;
        if (tv_nsec abstime <? 0) || (1000000000 <=? tv_nsec abstime)
        then ret ← timed_cleanup rtcb (- EINVAL); mret (Waited ret)
        else
          let '(status, ticks) := clock_abstime2ticks currtime abstime in
          match ticks with
          | Some ticks =>
              if ticks <=? 0 then ret ← timed_cleanup rtcb (- ETIMEDOUT); mret (Waited ret)
              else
                start_waitdog nxsem_timeout_fn rtcb ticks;;
                st ← on_world (nxsem_wait irq sem);
                match st with
                | Waited ret => ret ← timedwait_end rtcb ret; mret (Waited ret)
                | Waiting saved_errno => mret (Waiting saved_errno)
                end
          | None => ret ← timed_cleanup rtcb (- status); mret (Waited ret)
          end
    end.

Definition nxsem_timedwait_resume (rtcb : addr) (saved_errno : Z) : K (wd_state (sys S)) Z :=
  ret ← on_world (nxsem_wait_resume rtcb saved_errno); timedwait_end rtcb ret.

(** sem_timedwait.c, the application interface *)
Definition sem_timedwait (irq : bool) (kmm_malloc : option (addr * wdog_s))
    (currtime : option timespec) (sem : ptr) (abstime : option timespec)
  : K (wd_state (sys S)) wait_status :=
  st ← nxsem_timedwait irq kmm_malloc currtime sem abstime;
  match st with
  | Waited ret => ret ← on_world (errno_result ret); mret (Waited ret)
  | Waiting saved_errno => mret (Waiting saved_errno)
  end.

Definition sem_timedwait_resume (rtcb : addr) (saved_errno : Z) : K (wd_state (sys S)) Z :=
  ret ← nxsem_timedwait_resume rtcb saved_errno; on_world (errno_result ret).

(** What the timer interrupt calls: [nxsem_timeout] with its parameter, or another
    function. *)
Definition wdentry_sem (other : Z → list Z → wd_state (sys S) → option (wd_state (sys S)))
    (f : Z) (ps : list Z) (s : wd_state (sys S)) : option (wd_state (sys S)) :=
  match ps with
  | p :: _ => if f =? nxsem_timeout_fn then '(_, s) ← on_world (nxsem_timeout 1 p) s; Some s
              else other f ps s
  | [] => other f ps s
  end.
End timed.
