(* ===== verification/SemTimedProps.v ===== *)
(** * SemTimedProps: what waits with a timeout guarantee

    The three components together: the watchdogs of Wdog.v with the semaphores
    and the scheduler as their world.  The watchdog function [nxsem_timeout]
    meets the contract [WdogHandler] of the timer interrupt, so an interrupt
    keeps the invariants of all three; and a wait that nobody ends is ended by
    its timer, with everything given back. *)

From S2P Require Import Prelude Queue QueueRefine Wdog WdogSpec WdogTimer Sched SchedSpec SchedInv SchedOps SchedProps Semaphore SemSpec SemOps SemProps Clock TimedWait SemTimed.
Import Sq SqSpec.
Local Open Scope Z_scope.

#[export] Instance sys_WorldOk `{Config} : WorldOk sys sys_repr.
Proof. split; [done|by intros []|]. intros A c d. apply sim_on_sched. Qed.

Section composed.
Context `{Config} (idle : addr) (pool : list addr) (nxsem_timeout_fn : Z).
Implicit Types (s : wd_state (sys sched_s)) (u : sys lsched) (ts : timers) (lf : list addr).
Abbreviation repr := (wd_repr (W := sys sched_s) pool).
Abbreviation timed := (timed sys_repr pool).

(** What holds of the semaphores and the scheduler between interrupts. *)
Definition sem_world (_ : gset addr) (_ : list addr) (w : sys sched_s) : Prop :=
  ∃ u, sys_repr w u ∧ sem_inv idle ∅ u ∧ hash_ok u.

#[local] Instance timeout_handler other :
  WdogHandler pool sem_world other →
  WdogHandler pool sem_world (wdentry_sem nxsem_timeout_fn other).
Proof.
  intros Hother. split. intros f ps s ts lf Hr HI. unfold wdentry_sem.
  destruct ps as [|p ps]; [by eapply handler_ok|].
  destruct (f =? nxsem_timeout_fn); [|by eapply handler_ok].
  destruct HI as (u & Hs & Hi & Hh).
  destruct (kept_timeout idle u p Hi Hh) as (b & u' & Hrun & Hk).
  destruct (sim_nxsem_timeout 1 p _ _ _ _ Hs Hrun) as (w' & Hrun' & Hs').
  rewrite (on_world_Some _ _ _ _ Hrun'). cbn [mbind option_bind].
  exists (set_world w' s), ts, lf. split; [done|]. split; [by apply wd_repr_world|].
  split; [|done]. exists u'. split; [done|]. split; [apply Hk|by eapply kept_hash].
Qed.

(** C7: the components together: when the functions of all other watchdogs keep the
    invariants (the contract [WdogHandler]), a timer interrupt, which may end any
    number of timed waits, returns, and keeps the timer queue, the task lists and
    the counts of the semaphores right. *)
Theorem wd_timer_keeps_semaphores other s ts lf :
  WdogHandler pool sem_world other →
  repr s ts lf → Forall (λ p, 1 ≤ p.2) ts → sem_world (dom (wdogs s)) lf (world s) →
  ∃ s' ts' lf', wd_timer (wdentry_sem nxsem_timeout_fn other) s = Some s' ∧ repr s' ts' lf' ∧
    sem_world (dom (wdogs s')) lf' (world s') ∧ Forall (λ p, 1 ≤ p.2) ts'.
Proof. intros Hother. apply wd_timer_ok. by apply timeout_handler. Qed.

(** ** A wait that times out *)

Hypothesis pool_ok : NoDup pool ∧ length pool = CONFIG_PREALLOC_WDOGS ∧
                     Z.of_nat CONFIG_PREALLOC_WDOGS < 65536.

Lemma with_waitdog_inv d r u dead : sem_inv idle dead u → sem_inv idle dead (with_waitdog d r u).
Proof. by apply inv_upd_sem. Qed.

(** The semaphore is not available: the task has a timer of the pool. *)
Lemma timed_begin_blocks s ts w lf u p x r l xr kmm :
  timed s ts (w :: lf) u → sem_inv idle ∅ u →
  CONFIG_WDOG_INTRESERVE < Z.of_nat (S (length lf)) →
  sems u !! p = Some x → semcount x ≤ 0 →
  lists (ksched u) g_readytorun = r :: l → tasks (ksched u) !! r = Some xr →
  ∃ s', timed_begin false kmm (Some p) r s = Some (inr (- EAGAIN), s') ∧
        timed s' ts lf (with_waitdog (Some w) r u) ∧ dom (wdogs s') = dom (wdogs s).
Proof.
  intros Ht Hi Hres Hx Hz Hl Hxr. unfold timed_begin.
  destruct (create_waitdog_ok sys_repr pool pool_ok s ts w lf u r kmm Ht Hres)
    as (s3 & Hrun3 & Ht3 & Hd3); [by eexists|].
  rewrite (K_bind_Some _ _ _ _ _ Hrun3). cbn [negb].
  destruct (world_step sys_repr pool _ _ s3 _ _ _ (- EAGAIN) (with_waitdog (Some w) r u)
              (sim_nxsem_trywait false (Some p)) Ht3)
    as (s4 & Hrun4 & Ht4 & Hd4).
  { eapply trywait_fails; [by apply with_waitdog_inv|done|done|done]. }
  rewrite (K_bind_Some _ _ _ _ _ Hrun4). exists s4. split; [done|]. split; [done|congruence].
Qed.

(** [nxsem_timeout] finds the task by its process id. *)
Lemma timeout_finds u r x p :
  g_pidhash u !! Z.to_nat (PIDHASH p) = Some (mk_ph (Some r) p) → 0 ≤ p < 32768 →
  tasks (ksched u) !! r = Some x → task_state x = TSTATE_WAIT_SEM →
  nxsem_timeout 1 p u = nxsem_wait_irq r ETIMEDOUT u.
Proof.
  intros Hh Hp Hx Hst. unfold nxsem_timeout, sched_gettcb. rewrite s16_small by lia.
  destruct (Z.leb_spec 0 p); [|lia].
  erewrite K_bind_Some; last first.
  { erewrite K_bind_Some by (unfold kget; rewrite Hh; reflexivity). simpl.
    by rewrite Z.eqb_refl. }
  destruct u as [t m h]. ysched ls_get. by rewrite bool_decide_eq_true_2.
Qed.

Lemma tickwait_blocks s u ts w lf p x r l xr kmm systimer start delay e u1 :
  let elapsed := u32 (systimer - start) in
  timed s ts (w :: lf) u → sem_inv idle ∅ u → sems u !! p = Some x → semcount x ≤ 0 →
  CONFIG_WDOG_INTRESERVE < Z.of_nat (S (length lf)) → (1 ≤ CONFIG_MAX_WDOGPARMS)%nat →
  lists (ksched u) g_readytorun = r :: l → tasks (ksched u) !! r = Some xr → waitdog xr = NULL →
  0 < delay < 4294967296 → 0 < delay - elapsed ≤ INT32_MAX →
  nxsem_wait false (Some p) (with_waitdog (Some w) r u) = Some (Waiting e, u1) →
  ∃ s1 y, nxsem_tickwait nxsem_timeout_fn false kmm systimer (Some p) start delay s =
      Some (Waiting e, s1) ∧
    timed s1 (tq_insert w (Z.min (delay - elapsed + 1) INT32_MAX) ts) lf u1 ∧
    wdogs s1 !! w = Some y ∧ func y = nxsem_timeout_fn ∧
    take (Z.to_nat (argc y)) (parm y) = [pid xr].
Proof.
  intros elapsed Ht Hi Hx Hz Hres Hparm Hl Hxr Hw Hdelay Hdel Hwait.
  destruct (free_head pool _ _ _ _ (tm_wd _ _ _ _ _ _ Ht)) as (Hwd & Hwp & Hwl & Hwt).
  unfold nxsem_tickwait.
  destruct (this_step sys_repr pool s ts (w :: lf) u r l) as (s1 & Hrun1 & Ht1 & Hd1); [done..|].
  rewrite (K_bind_Some _ _ _ _ _ Hrun1).
  destruct (get_step sys_repr pool s1 ts (w :: lf) u r xr) as (s2 & Hrun2 & Ht2 & Hd2); [done..|].
  rewrite (K_bind_Some _ _ _ _ _ Hrun2), Hw.
  rewrite bool_decide_eq_false_2, bool_decide_eq_true_2 by done.
  erewrite K_bind_Some by (unfold kassert, klift; rewrite DEBUGASSERT_true by done; reflexivity).
  destruct (timed_begin_blocks s2 ts w lf u p x r l xr kmm) as (s3 & Hrun3 & Ht3 & Hd3); [done..|].
  rewrite (K_bind_Some _ _ _ _ _ Hrun3).
  rewrite (proj2 (Z.eqb_neq delay 0)) by lia. fold elapsed.
  rewrite (proj2 (Z.leb_gt delay elapsed)) by lia.
  assert (0 ≤ elapsed) by (apply Z.mod_pos_bound; done).
  assert (s32 (u32 (delay - elapsed)) = delay - elapsed) as ->.
  { rewrite (wrap_u_small 32) by (change (2 ^ 32) with 4294967296; lia). rewrite s32_small; lia. }
  destruct (start_waitdog_ok sys_repr pool nxsem_timeout_fn s3 ts lf _ r (set_waitdog (Some w) xr) w
    (delay - elapsed) Ht3)
    as (s4 & y & Hrun4 & Ht4 & Hy & Hf & Ha & _);
    [by apply (with_waitdog_lookup sys_repr)|done|by rewrite Hd3, Hd2, Hd1|done|lia|done|].
  rewrite (K_bind_Some _ _ _ _ _ Hrun4). rewrite tq_remove_notin in Ht4 by done.
  destruct (world_step sys_repr pool _ _ s4 _ _ _ _ _ (sim_nxsem_wait false (Some p)) Ht4 Hwait)
    as (s5 & Hrun5 & Ht5 & Hd5).
  rewrite (K_bind_Some _ _ _ _ _ Hrun5). exists s5, y. rewrite Hd5. split; [done|].
  by split.
Qed.

(** C6: a wait with [nxsem_tickwait] for a semaphore that nobody posts ends after
    its delay, when the time left is at most [INT32_MAX] ticks (longer ones start no
    timer: [nxsem_tickwait_long_delay]), the pool has a timer above the reserve, and
    all other timers expire later: the call blocks; after as many timer interrupts
    as the delay, less the time elapsed since [start], has ticks, and one more, the
    task is released and the call returns [-ETIMEDOUT].  Then the counts, the waiters of every
    semaphore, the errno of the task and the other timers are as they were (but
    for the time that has passed), and the timer is back in the pool. *)
Theorem nxsem_tickwait_times_out other s u ts w lf p x r l xr kmm systimer start delay :
  let D := Z.min (delay - u32 (systimer - start) + 1) INT32_MAX in
  timed s ts (w :: lf) u → sem_inv idle ∅ u → sems u !! p = Some x → semcount x ≤ 0 →
  CONFIG_WDOG_INTRESERVE < Z.of_nat (S (length lf)) → (1 ≤ CONFIG_MAX_WDOGPARMS)%nat →
  lists (ksched u) g_readytorun = r :: l → tasks (ksched u) !! r = Some xr → r ≠ idle →
  waitdog xr = NULL → 0 ≤ pid xr < 32768 →
  g_pidhash u !! Z.to_nat (PIDHASH (pid xr)) = Some (mk_ph (Some r) (pid xr)) →
  0 < delay < 4294967296 → 0 < delay - u32 (systimer - start) ≤ INT32_MAX →
  Forall (λ p, D < p.2) ts →
  ∃ e s1 s2 s3 u3 x3,
    nxsem_tickwait nxsem_timeout_fn false kmm systimer (Some p) start delay s =
      Some (Waiting e, s1) ∧
    Nat.iter (Z.to_nat D) (λ o, o ≫= wd_timer (wdentry_sem nxsem_timeout_fn other)) (Some s1) =
      Some s2 ∧
    nxsem_tickwait_resume r e s2 = Some (- ETIMEDOUT, s3) ∧
    timed s3 (tq_shift D ts) (lf ++ [w]) u3 ∧ sem_inv idle ∅ u3 ∧ sems u3 = sems u ∧
    (∀ q, waiters (ksched u3) q = waiters (ksched u) q) ∧
    tasks (ksched u3) !! r = Some x3 ∧ pterrno x3 = pterrno xr ∧ waitdog x3 = NULL.
Proof.
  intros D Ht Hi Hx Hz Hres Hparm Hl Hxr Hr Hw Hpid Hhash Hdelay Hdel Hlate.
  destruct (free_head pool _ _ _ _ (tm_wd _ _ _ _ _ _ Ht)) as (Hwd & Hwp & Hwl & Hwt).
  set (ua := with_waitdog (Some w) r u). assert (sem_inv idle ∅ ua) as Hia by (by apply with_waitdog_inv).
  destruct (interrupted_ok idle ua p x r l (set_waitdog (Some w) xr) ETIMEDOUT)
    as (b & u1 & x1 & u2 & u3 & x3 & Hwait & (Hx1 & Hst1 & Hh1) & Hirq & Hres3 & Hi3 & Hs3 & Hw3 &
        Hx3 & He3 & Hd3); [done|done|done|done|exact (with_waitdog_lookup sys_repr _ _ u _ Hxr)|done|done|].
  destruct (tickwait_blocks s u ts w lf p x r l xr kmm systimer start delay (pterrno xr) u1)
    as (s1 & y & Hrun1 & Ht1 & Hy & Hf & Ha); [done..|].
  rewrite tq_insert_first in Ht1 by done.
  destruct (timer_times_out sys_repr pool (wdentry_sem nxsem_timeout_fn other) s1 ts lf u1 w D y (pid xr)
    (nxsem_timeout 1 (pid xr)) (nxsem_timeout 1 (pid xr)) b u2 Ht1)
    as (s2 & Hrun2 & Ht2 & Hd2); [lia|done|done|done| |apply sim_nxsem_timeout| |].
  { intros s0. rewrite Hf. unfold wdentry_sem. by rewrite Z.eqb_refl. }
  { rewrite (timeout_finds u1 r x1); [done|by rewrite Hh1|done..]. }
  destruct (world_step sys_repr pool _ _ s2 _ _ _ _ _ (sim_nxsem_wait_resume r (pterrno xr)) Ht2 Hres3)
    as (s3 & Hrun3 & Ht3 & Hwd3).
  destruct (delete_waitdog_ok sys_repr pool pool_ok s3 _ lf u3 r x3 w Ht3)
    as (s4 & Hrun4 & Ht4); [done|done|rewrite Hwd3, Hd2; by eapply elem_of_dom_2|done|done|].
  rewrite tq_remove_notin in Ht4 by (by rewrite tq_shift_addrs).
  eexists _, s1, s2, s4, _, _. split; [done|]. split; [done|]. split.
  { unfold nxsem_tickwait_resume. rewrite (K_bind_Some _ _ _ _ _ Hrun3).
    change (timed_cleanup r (- ETIMEDOUT) s3 = Some (- ETIMEDOUT, s4)). unfold timed_cleanup.
    by rewrite (K_bind_Some _ _ _ _ _ Hrun4). }
  split; [done|]. split; [by apply with_waitdog_inv|]. split; [done|].
  split; [intros q; simpl; rewrite waiters_upd by done; rewrite Hw3; by apply waiters_upd|].
  split; [exact (with_waitdog_lookup sys_repr _ _ u3 _ Hx3)|]. by split.
Qed.
End composed.

(** ** Witnesses *)

#[local] Existing Instance SemProps.debug_config.

(** The pool at start-up, and the state after [wd_initialize], with the tasks and
    semaphores of SemProps.v as its world. *)
Definition timed_pool : list addr := Pos.of_nat <$> seq 1 32.
Definition timed_boot : wd_state (sys sched_s) :=
  mk_wd (list_to_map ((λ a, (a, mk_wdog NULL 0 0 0 0 [0; 0; 0; 0])) <$> timed_pool))
    (mk_sq NULL NULL) (mk_sq NULL NULL) 0 demo_sys.
Definition timed_demo : wd_state (sys sched_s) :=
  default timed_boot (wd_initialize timed_pool timed_boot).

Lemma timed_pool_ok : NoDup timed_pool ∧ length timed_pool = CONFIG_PREALLOC_WDOGS ∧
  Z.of_nat CONFIG_PREALLOC_WDOGS < 65536.
Proof. split; [by_decide|done]. Qed.

Lemma timed_demo_ok : timed sys_repr timed_pool timed_demo [] timed_pool demo_lsys.
Proof.
  destruct (wd_initialize_spec timed_pool timed_pool_ok timed_boot) as (s & Hrun & Hr & Hw).
  - by_decide.
  - intros a x Hx. apply elem_of_list_to_map_2, list_elem_of_fmap in Hx as (b & [= -> ->] & Hb).
    split; [done|]. split; [intros Hin; inversion Hin|done].
  - unfold timed_demo. rewrite Hrun. simpl. split; [done|]. rewrite Hw. apply demo_sys_repr.
Qed.

(** Task 2 waits for semaphore 8 with a limit of one tick, and all but the last tick
    of its timer have passed. *)
Definition timed_due : wd_state (sys sched_s) :=
  match nxsem_tickwait 77 false None 0 (Some 8%positive) 0 1 timed_demo with
  | Some (_, s) => default s (wd_timer (wdentry_sem 77 (quiet (λ _ _ w, w))) s)
  | None => timed_demo
  end.

Lemma timed_due_ok :
  ∃ u, timed sys_repr timed_pool timed_due [(1%positive, 1)] (tail timed_pool) u ∧
    sem_inv 1 ∅ u ∧ hash_ok u.
Proof.
  set (xr := demo_td 2 100 TSTATE_TASK_RUNNING 0). set (ua := with_waitdog (Some 1%positive) 2 demo_lsys).
  assert (sem_inv 1 ∅ ua) as Hi by (apply with_waitdog_inv, demo_sem_inv).
  assert (hash_ok ua) as Hh by (apply (kept_hash 1 demo_lsys); [by split|apply demo_hash_ok]).
  destruct (wait_blocks 1 ua ∅ 8 (mk_sem 0) 2 [3%positive; 1%positive] (set_waitdog (Some 1%positive) xr))
    as (u1 & Hwait & Hi1 & _); [done..|].
  destruct (tickwait_blocks 1 timed_pool 77 timed_pool_ok timed_demo demo_lsys [] 1 (tail timed_pool) 8 (mk_sem 0)
    2 [3%positive; 1%positive] xr None 0 0 1 0 u1) as (s1 & y & Hrun1 & Ht1 & _);
    [apply timed_demo_ok|apply demo_sem_inv|done|done|done|simpl; lia|done|done|done|done| |exact Hwait|].
  { by vm_compute. }
  destruct (timer_idle timed_pool (wdentry_sem 77 (quiet (λ _ _ w, w))) s1 _ _ (tm_wd _ _ _ _ _ _ Ht1))
    as (s2 & Hrun2 & Hr2 & _ & Hw2); [by repeat constructor|].
  assert (timed_due = s2) as ->.
  { unfold timed_due. rewrite Hrun1. simpl. by rewrite Hrun2. }
  exists u1. split; [split; [exact Hr2|rewrite Hw2; apply Ht1]|]. split; [done|].
  destruct (kept_wait 1 ua 8 2 [3%positive; 1%positive] (set_waitdog (Some 1%positive) xr))
    as (st & u2 & Hrun & Hk); [done|by_decide|done..|].
  rewrite Hwait in Hrun. injection Hrun as _ <-. by eapply kept_hash.
Qed.

Definition state_of (a : addr) (s : wd_state (sys sched_s)) : option tstate_t :=
  task_state ∘ td <$> tcbs (ksched (world s)) !! a.

(** The next interrupt ends the wait of task 2. *)
Lemma wd_timer_keeps_semaphores_witness :
  state_of 2 timed_due = Some TSTATE_WAIT_SEM ∧
  ∃ s' ts' lf', wd_timer (wdentry_sem 77 (quiet (λ _ _ w, w))) timed_due = Some s' ∧
    wd_repr timed_pool s' ts' lf' ∧ sem_world 1 (dom (wdogs s')) lf' (world s') ∧
    Forall (λ p, 1 ≤ p.2) ts' ∧ state_of 2 s' = Some TSTATE_TASK_READYTORUN.
Proof.
  split; [by vm_compute|]. destruct timed_due_ok as (u & Ht & Hi & Hh).
  destruct (wd_timer_keeps_semaphores 1 timed_pool 77 (quiet (λ _ _ w, w)) timed_due
    [(1%positive, 1)] (tail timed_pool)) as (s' & ts' & lf' & Hrun & Hr & Hw & Hf).
  - split. intros f ps s ts lf Hr HI. eexists _, ts, lf. split; [done|].
    split; [by apply wd_repr_world|]. done.
  - apply Ht.
  - by repeat constructor.
  - exists u. split; [apply Ht|]. by split.
  - exists s', ts', lf'. split_and!; [done..|].
    assert (state_of 2 <$> wd_timer (wdentry_sem 77 (quiet (λ _ _ w, w))) timed_due =
      Some (Some TSTATE_TASK_READYTORUN)) as Hst by (vm_compute; reflexivity).
    rewrite Hrun in Hst. by injection Hst.
Defined.

(** Task 2 waits 5 ticks for semaphore 8, 3 of which have passed before the call. *)
Lemma nxsem_tickwait_times_out_witness :
  ∃ e s1 s2 s3 u3 x3,
    nxsem_tickwait 77 false None 103 (Some 8%positive) 100 5 timed_demo = Some (Waiting e, s1) ∧
    Nat.iter 3 (λ o, o ≫= wd_timer (wdentry_sem 77 (λ _ _ _, None))) (Some s1) = Some s2 ∧
    nxsem_tickwait_resume 2 e s2 = Some (- ETIMEDOUT, s3) ∧
    timed sys_repr timed_pool s3 [] (tail timed_pool ++ [1%positive]) u3 ∧ sem_inv 1 ∅ u3 ∧
    sems u3 = demo_sems ∧ (∀ q, waiters (ksched u3) q = waiters demo_waiting q) ∧
    tasks (ksched u3) !! 2%positive = Some x3 ∧ pterrno x3 = 0 ∧ waitdog x3 = NULL.
Proof.
  apply (nxsem_tickwait_times_out 1 timed_pool 77 timed_pool_ok (λ _ _ _, None) timed_demo demo_lsys
    [] 1 (tail timed_pool) 8 (mk_sem 0) 2 [3%positive; 1%positive]
    (demo_td 2 100 TSTATE_TASK_RUNNING 0) None 103 100 5);
    first [apply timed_demo_ok|apply demo_sem_inv|done|simpl; lia|by vm_compute].
Defined.

(** A delay of 2^31 ticks or more is negative for [wd_start], whose error is not
    looked at: the task waits, and no timer will end the wait. *)
Lemma nxsem_tickwait_long_delay :
  ∃ e s1, nxsem_tickwait 77 false None 0 (Some 8%positive) 0 2147483648 timed_demo =
      Some (Waiting e, s1) ∧ sq_head (g_wdactivelist s1) = NULL.
Proof. eexists _, _. split; [vm_compute; reflexivity|reflexivity]. Qed.
