(* ===== verification/MQueue.v ===== *)
(** * MQueue: POSIX message queues (sched/mqueue)

    A message queue is a list of messages ordered by priority, in order of arrival
    among equals.  Message structures come from two pools that are filled at
    start-up, one of them for interrupt handlers, or from the heap.  A task that
    finds a queue empty (or full) blocks on the list [g_waitingformqnotempty] (or
    [g_waitingformqnotfull]) of the scheduler, and [msgwaitq] of its TCB says which
    queue it waits for; the queue counts its waiters.

    The functions are written over the task lists of Sched.v, as those of
    Semaphore.v.  A call that blocks ends with [Blocks]; what the task does when it
    runs again is the function with the suffix [_resume].  The loops of
    [nxmq_wait_send] and [nxmq_wait_receive] go round once per resumption.

    Cancellation points and [CONFIG_SIG_EVTHREAD] are disabled.  The function of
    sched/signal that delivers a notification, [nxsig_mqnotempty], is a parameter,
    as is what the heap returns. *)

From S2P Require Import Prelude Queue Sched Semaphore.
Import Sq.
Local Open Scope Z_scope.

(** ** Data *)

Class MqConfig := {
  CONFIG_MQ_MAXMSGSIZE : Z;
  CONFIG_PREALLOC_MQ_MSGS : nat;
}.

Definition MQ_MAX_BYTES `{MqConfig} : Z := CONFIG_MQ_MAXMSGSIZE.
Definition MQ_MAX_MSGS : Z := 16.
Definition MQ_PRIO_MAX : Z := 255.
Definition NUM_MSG_DESCRIPTORS : nat := 24.
Definition NUM_INTERRUPT_MSGS : nat := 8.

(** [enum mqalloc_e] *)
Inductive mqalloc_e := MQ_ALLOC_FIXED | MQ_ALLOC_DYN | MQ_ALLOC_IRQ.

(** [struct mqueue_msg_s]; [mail] has [MQ_MAX_BYTES] bytes. *)
Record mqueue_msg_s := mk_msg {
  msg_next : ptr;
  msg_type : mqalloc_e;
  msg_priority : Z;           (* uint8_t *)
  msg_len : Z;                (* uint8_t or uint16_t *)
  mail : list Z;
}.

#[export] Program Instance msg_SqEntry :
  SqEntry mqueue_msg_s (mqalloc_e * Z * Z * list Z) := {|
  sq_flink := msg_next;
  sq_set_flink p x := mk_msg p (msg_type x) (msg_priority x) (msg_len x) (mail x);
  sq_data x := (msg_type x, msg_priority x, msg_len x, mail x);
|}.
Solve All Obligations with done.

Definition set_msg_type (z : mqalloc_e) (x : mqueue_msg_s) : mqueue_msg_s :=
  mk_msg (msg_next x) z (msg_priority x) (msg_len x) (mail x).

(** The type of message lengths. *)
Definition msgsize_t `{MqConfig} (z : Z) : Z := if MQ_MAX_BYTES <? 256 then u8 z else u16 z.

(** [struct sigevent], the fields that notifications use. *)
Record sigevent := mk_ev { sigev_notify : Z; sigev_signo : Z; sigev_value : Z }.
Definition no_event : sigevent := mk_ev 0 0 0.
Definition SIGEV_SIGNAL : Z := 1.
Definition MAX_SIGNO : Z := 31.
Definition GOOD_SIGNO (s : Z) : bool := u32 s <=? MAX_SIGNO.
Definition INVALID_PROCESS_ID : Z := -1.

(** [struct mqueue_inode_s], without the link to its inode. *)
Record mqueue_inode_s := mk_mqi {
  msglist : sq_queue_t;
  maxmsgs : Z;                (* int16_t *)
  nmsgs : Z;                  (* int16_t *)
  nwaitnotfull : Z;           (* int16_t *)
  nwaitnotempty : Z;          (* int16_t *)
  maxmsgsize : Z;             (* uint8_t or uint16_t *)
  ntmqdes : ptr;
  ntpid : Z;
  ntevent : sigevent;
}.

Definition set_msglist (q : sq_queue_t) (y : mqueue_inode_s) : mqueue_inode_s :=
  mk_mqi q (maxmsgs y) (nmsgs y) (nwaitnotfull y) (nwaitnotempty y) (maxmsgsize y)
    (ntmqdes y) (ntpid y) (ntevent y).
Definition set_nmsgs (n : Z) (y : mqueue_inode_s) : mqueue_inode_s :=
  mk_mqi (msglist y) (maxmsgs y) (s16 n) (nwaitnotfull y) (nwaitnotempty y) (maxmsgsize y)
    (ntmqdes y) (ntpid y) (ntevent y).
Definition set_notification (d : ptr) (p : Z) (e : sigevent) (y : mqueue_inode_s)
  : mqueue_inode_s :=
  mk_mqi (msglist y) (maxmsgs y) (nmsgs y) (nwaitnotfull y) (nwaitnotempty y) (maxmsgsize y)
    d p e.

(** The two conditions tasks wait for. *)
Inductive side := NotEmpty | NotFull.

#[export] Instance side_eq_dec : EqDecision side.
Proof. solve_decision. Defined.

Definition wait_state (d : side) : tstate_t :=
  match d with NotEmpty => TSTATE_WAIT_MQNOTEMPTY | NotFull => TSTATE_WAIT_MQNOTFULL end.
Definition wait_list (d : side) : tasklist :=
  match d with NotEmpty => g_waitingformqnotempty | NotFull => g_waitingformqnotfull end.
Definition nwait (d : side) (y : mqueue_inode_s) : Z :=
  match d with NotEmpty => nwaitnotempty y | NotFull => nwaitnotfull y end.
Definition set_nwait (d : side) (n : Z) (y : mqueue_inode_s) : mqueue_inode_s :=
  mk_mqi (msglist y) (maxmsgs y) (nmsgs y)
    (match d with NotFull => s16 n | NotEmpty => nwaitnotfull y end)
    (match d with NotEmpty => s16 n | NotFull => nwaitnotempty y end)
    (maxmsgsize y) (ntmqdes y) (ntpid y) (ntevent y).

(** [struct mq_des] *)
Record mq_des := mk_des { des_flink : ptr; des_msgq : ptr; oflags : Z }.

#[export] Program Instance des_SqEntry : SqEntry mq_des (ptr * Z) := {|
  sq_flink := des_flink;
  sq_set_flink p x := mk_des p (des_msgq x) (oflags x);
  sq_data x := (des_msgq x, oflags x);
|}.
Solve All Obligations with done.

Definition O_RDOK : Z := 1.
Definition O_WROK : Z := 2.
Definition O_NONBLOCK : Z := 64.

(** [struct mq_attr] *)
Record mq_attr := mk_attr { mq_maxmsg : Z; mq_msgsize : Z; mq_flags : Z; mq_curmsgs : Z }.

Definition EPERM : Z := 1.
Definition EBADF : Z := 9.
Definition EBUSY : Z := 16.
Definition EMSGSIZE : Z := 122.

(** The data of the message queues: the messages and their pools, the queues, the
    descriptors with their pool and the blocks they were allocated in, and the
    list of open descriptors ([tg_msgdesq]) of each task group. *)
Record mq_data := mk_md {
  msgs : mem mqueue_msg_s;
  g_msgfree : sq_queue_t;
  g_msgfreeirq : sq_queue_t;
  msgqs : mem mqueue_inode_s;
  mqdess : mem mq_des;
  g_desfree : sq_queue_t;
  desblocks : mem sq_entry_t;
  g_desalloc : sq_queue_t;
  tg_msgdesq : mem sq_queue_t;
}.

Record mqsys (S : Type) := mk_mq { msys : sys S; mdata : mq_data }.
Arguments mk_mq {S}. Arguments msys {S}. Arguments mdata {S}.

Definition set_msgs (m : mem mqueue_msg_s) (d : mq_data) : mq_data :=
  mk_md m (g_msgfree d) (g_msgfreeirq d) (msgqs d) (mqdess d) (g_desfree d) (desblocks d)
    (g_desalloc d) (tg_msgdesq d).
Definition set_msgqs (m : mem mqueue_inode_s) (d : mq_data) : mq_data :=
  mk_md (msgs d) (g_msgfree d) (g_msgfreeirq d) m (mqdess d) (g_desfree d) (desblocks d)
    (g_desalloc d) (tg_msgdesq d).
Definition set_des (m : mem mq_des) (f : sq_queue_t) (g : mem sq_queue_t) (d : mq_data) : mq_data :=
  mk_md (msgs d) (g_msgfree d) (g_msgfreeirq d) (msgqs d) m f (desblocks d) (g_desalloc d) g.

(** The result of a call, or the context switch in it, with the errno the caller
    had before. *)
Inductive outcome (A : Type) := Returns (a : A) | Blocks (saved_errno : Z).
Arguments Returns {A}. Arguments Blocks {A}.

(** ** The lists of messages *)

Inductive mlist := MFree | MFreeIrq | MQueue (q : addr).

#[export] Instance mlist_eq_dec : EqDecision mlist.
Proof. solve_decision. Defined.

Definition mq_list (k : mlist) (d : mq_data) : option sq_queue_t :=
  match k with
  | MFree => Some (g_msgfree d)
  | MFreeIrq => Some (g_msgfreeirq d)
  | MQueue q => msglist <$> msgqs d !! q
  end.

(** Store the header of a list with the messages it links. *)
Definition set_mlist (k : mlist) (q : sq_queue_t) (m : mem mqueue_msg_s) (d : mq_data) : mq_data :=
  match k with
  | MFree => mk_md m q (g_msgfreeirq d) (msgqs d) (mqdess d) (g_desfree d) (desblocks d)
               (g_desalloc d) (tg_msgdesq d)
  | MFreeIrq => mk_md m (g_msgfree d) q (msgqs d) (mqdess d) (g_desfree d) (desblocks d)
                  (g_desalloc d) (tg_msgdesq d)
  | MQueue a => set_msgqs (alter (set_msglist q) a (msgqs d)) (set_msgs m d)
  end.

Definition mlist_remfirst (k : mlist) : K mq_data ptr := λ d,
  q ← mq_list k d;
  '(p, q, m) ← sq_remfirst q (msgs d);
  Some (p, set_mlist k q m d).

Definition mlist_addlast (a : addr) (k : mlist) : K mq_data unit := λ d,
  q ← mq_list k d;
  '(q, m) ← sq_addlast (Some a) q (msgs d);
  Some (tt, set_mlist k q m d).

Definition msg_get (a : addr) : K mq_data mqueue_msg_s := kget (λ d, msgs d !! a).
Definition msg_set (f : mqueue_msg_s → mqueue_msg_s) (a : addr) : K mq_data unit :=
  kput (λ d, m ← store (Some a) f (msgs d); Some (set_msgs m d)).

Definition msgq_get (q : ptr) : K mq_data mqueue_inode_s := kget (λ d, deref q (msgqs d)).
Definition msgq_set (f : mqueue_inode_s → mqueue_inode_s) (q : ptr) : K mq_data unit :=
  kput (λ d, m ← store q f (msgqs d); Some (set_msgqs m d)).

Definition des_get (mqdes : ptr) : K mq_data mq_des := kget (λ d, deref mqdes (mqdess d)).

(** mq_sndinternal.c, lines 371-373: the search of [nxmq_do_send] for the message
    behind which the new one goes. *)
Fixpoint send_search (n : nat) (m : mem mqueue_msg_s) (prio : Z) (prev next : ptr) : option ptr :=
  match next with
  | None => Some prev
  | Some a =>
      x ← m !! a;
      if prio <=? msg_priority x then
        match n with O => None | Datatypes.S n => send_search n m prio next (msg_next x) end
      else Some prev
  end.

(** Lines 371-387 *)
Definition mlist_insert (a : addr) (prio : Z) (q : addr) : K mq_data unit := λ d,
  y ← msgqs d !! q;
  prev ← send_search (Datatypes.S (size (msgs d))) (msgs d) prio NULL (sq_head (msglist y));
  '(l, m) ← (match prev with
             | Some _ => sq_addafter prev (Some a) (msglist y) (msgs d)
             | None => sq_addfirst (Some a) (msglist y) (msgs d)
             end);
  Some (tt, set_mlist (MQueue q) l m d).

(** [memcpy(mqmsg->mail, msg, msglen)] *)
Definition fill_mail `{MqConfig} (msg : list Z) (msglen : Z) (x : mqueue_msg_s) : option mqueue_msg_s :=
  if (0 <=? msglen) && (msglen <=? Z.of_nat (length msg)) && (msglen <=? MQ_MAX_BYTES)
  then Some (mk_msg (msg_next x) (msg_type x) (msg_priority x) (msg_len x)
               (take (Z.to_nat msglen) msg ++ drop (Z.to_nat msglen) (mail x)))
  else None.

(** mq_sndinternal.c, lines 350-391: the message is filled in and queued. *)
Definition put_message `{MqConfig} (mqmsg : addr) (msg : list Z) (msglen prio : Z) (msgq : addr)
  : K mq_data unit :=
  msg_set (λ x, mk_msg (msg_next x) (msg_type x) (u8 prio) (msg_len x) (mail x)) mqmsg;;
  msg_set (λ x, mk_msg (msg_next x) (msg_type x) (msg_priority x) (msgsize_t msglen) (mail x)) mqmsg;;
  x ← msg_get mqmsg;
  x ← klift (fill_mail msg msglen x);
  msg_set (λ _, x) mqmsg;;
  mlist_insert mqmsg prio msgq;;
  msgq_set (λ y, set_nmsgs (nmsgs y + 1) y) (Some msgq).

(** ** Pools of messages *)

Section pools.
Context `{Config} `{MqConfig}.

(** mq_initialize.c: the loop of [mq_msgblockalloc] over the [nmsgs] structures at
    the addresses [block]. *)
Fixpoint msgblock_loop (block : list addr) (k : mlist) (alloc_type : mqalloc_e) : K mq_data unit :=
  match block with
  | [] => mret tt
  | a :: block =>
      msg_set (set_msg_type alloc_type) a;;
      mlist_addlast a k;;
      msgblock_loop block k alloc_type
  end.

(** [kmm_malloc]: the structures of the block with their contents. *)
Definition mq_msgblockalloc (kmm_malloc : option (list (addr * mqueue_msg_s))) (k : mlist)
    (alloc_type : mqalloc_e) : K mq_data unit :=
  match kmm_malloc with
  | Some block =>
      kput (λ d, Some (set_msgs (list_to_map block ∪ msgs d) d));;
      msgblock_loop block.*1 k alloc_type
  | None => mret tt
  end.

(** The loop of [nxmq_alloc_desblock]. *)
Fixpoint desblock_loop (block : list addr) : K mq_data unit :=
  match block with
  | [] => mret tt
  | a :: block =>
      kput (λ d, '(q, m) ← sq_addlast (Some a) (g_desfree d) (mqdess d);
                 Some (set_des m q (tg_msgdesq d) d));;
      desblock_loop block
  end.

(** [kmm_malloc]: the entry at the head of the block and the descriptors in it. *)
Definition nxmq_alloc_desblock (kmm_malloc : option (addr * list (addr * mq_des))) : K mq_data unit :=
  match kmm_malloc with
  | Some (b, block) =>
      kput (λ d,
        '(q, m) ← sq_addlast (Some b) (g_desalloc d) (<[b := mk_sq_entry NULL]> (desblocks d));
        Some (mk_md (msgs d) (g_msgfree d) (g_msgfreeirq d) (msgqs d)
                (list_to_map block ∪ mqdess d) (g_desfree d) m q (tg_msgdesq d)));;
      desblock_loop block.*1
  | None => mret tt
  end.

Definition nxmq_initialize (m1 m2 : option (list (addr * mqueue_msg_s)))
    (m3 : option (addr * list (addr * mq_des))) : K mq_data unit :=
  kput (λ d, Some (mk_md (msgs d) sq_init sq_init (msgqs d) (mqdess d) (g_desfree d)
                     (desblocks d) sq_init (tg_msgdesq d)));;
  mq_msgblockalloc m1 MFree MQ_ALLOC_FIXED;;
  mq_msgblockalloc m2 MFreeIrq MQ_ALLOC_IRQ;;
  nxmq_alloc_desblock m3.

(** mq_sndinternal.c: [kmm_malloc] is the structure the heap provides. *)
Definition nxmq_alloc_msg (irq : bool) (kmm_malloc : option (addr * mqueue_msg_s)) : K mq_data ptr :=
  if irq then
    mqmsg ← mlist_remfirst MFree;
    if bool_decide (mqmsg = NULL) then mlist_remfirst MFreeIrq else mret mqmsg
  else
    mqmsg ← mlist_remfirst MFree;
    if bool_decide (mqmsg = NULL) then
      match kmm_malloc with
      | Some (a, x) =>
          kput (λ d, Some (set_msgs (<[a := x]> (msgs d)) d));;
          msg_set (set_msg_type MQ_ALLOC_DYN) a;;
          mret (Some a)
      | None => mret NULL
      end
    else mret mqmsg.

(** mq_msgfree.c *)
Definition nxmq_free_msg (mqmsg : addr) : K mq_data unit :=
  x ← msg_get mqmsg;
  match msg_type x with
  | MQ_ALLOC_FIXED => mlist_addlast mqmsg MFree
  | MQ_ALLOC_IRQ => mlist_addlast mqmsg MFreeIrq
  | MQ_ALLOC_DYN => kput (λ d, Some (set_msgs (delete mqmsg (msgs d)) d))
  end.

(** mq_msgqfree.c *)
Fixpoint free_msgq_loop (n : nat) (curr : ptr) : K mq_data unit :=
  match curr with
  | None => mret tt
  | Some a =>
      x ← msg_get a;
      let next := msg_next x in
      nxmq_free_msg a;;
      match n with O => klift None | Datatypes.S n => free_msgq_loop n next end
  end.

Definition nxmq_free_msgq (msgq : addr) : K mq_data unit :=
  y ← msgq_get (Some msgq);
  n ← kget (λ d, Some (size (msgs d)));
  free_msgq_loop n (sq_head (msglist y));;
  kput (λ d, Some (set_msgqs (delete msgq (msgqs d)) d)).

(** mq_msgqalloc.c: [kmm_zalloc] is the address of the zeroed structure. *)
Definition nxmq_alloc_msgq (kmm_zalloc : ptr) (attr : option mq_attr) : K mq_data ptr :=
  let toolarge := match attr with Some a => MQ_MAX_BYTES <? mq_msgsize a | None => false end in
  kassert (negb toolarge);;
  if toolarge then mret NULL
  else
    match kmm_zalloc with
    | Some a =>
        let '(m, s) := match attr with
                       | Some a => (s16 (mq_maxmsg a), msgsize_t (s16 (mq_msgsize a)))
                       | None => (MQ_MAX_MSGS, msgsize_t MQ_MAX_BYTES)
                       end in
        kput (λ d, Some (set_msgqs (<[a := mk_mqi sq_init m 0 0 0 s NULL INVALID_PROCESS_ID
                                             no_event]> (msgqs d)) d));;
        mret (Some a)
    | None => mret NULL
    end.

(** ** Descriptors *)

Definition des_remfirst : K mq_data ptr := λ d,
  '(p, q, m) ← sq_remfirst (g_desfree d) (mqdess d);
  Some (p, set_des m q (tg_msgdesq d) d).

(** mq_descreate.c *)
Definition nxmq_alloc_des (kmm_malloc : option (addr * list (addr * mq_des))) : K mq_data ptr :=
  mqdes ← des_remfirst;
  if bool_decide (mqdes = NULL) then nxmq_alloc_desblock kmm_malloc;; des_remfirst
  else mret mqdes.

(** [group] is the group of the task that the descriptor is for. *)
Definition nxmq_create_des (kmm_malloc : option (addr * list (addr * mq_des))) (group : addr)
    (msgq : ptr) (flags : Z) : K mq_data ptr :=
  mqdes ← nxmq_alloc_des kmm_malloc;
  match mqdes with
  | Some a =>
      kput (λ d, m ← store mqdes (λ _, mk_des NULL msgq flags) (mqdess d);
                 l ← tg_msgdesq d !! group;
                 '(l, m) ← sq_addlast mqdes l m;
                 Some (set_des m (g_desfree d) (<[group := l]> (tg_msgdesq d)) d));;
      mret mqdes
  | None => mret NULL
  end.

(** mq_desclose.c *)
Definition nxmq_desclose_group (mqdes : ptr) (group : addr) : K mq_data unit :=
  kassert (negb (bool_decide (mqdes = NULL)));;
  kput (λ d, l ← tg_msgdesq d !! group;
             '(l, m) ← sq_rem mqdes l (mqdess d);
             Some (set_des m (g_desfree d) (<[group := l]> (tg_msgdesq d)) d));;
  x ← des_get mqdes;
  y ← msgq_get (des_msgq x);
  kwhen (bool_decide (ntmqdes y = mqdes))
    (msgq_set (set_notification NULL INVALID_PROCESS_ID no_event) (des_msgq x));;
  kput (λ d, '(q, m) ← sq_addlast mqdes (g_desfree d) (mqdess d);
             Some (set_des m q (tg_msgdesq d) d)).

(** mq_getattr.c: [stat] says whether there is a place for the result. *)
Definition mq_getattr (mqdes : ptr) (stat : bool) : K mq_data (Z * option mq_attr) :=
  if negb (bool_decide (mqdes = NULL)) && stat then
    x ← des_get mqdes;
    y ← msgq_get (des_msgq x);
    mret (OK, Some (mk_attr (u32 (maxmsgs y)) (maxmsgsize y) (u32 (oflags x)) (u32 (nmsgs y))))
  else mret (-1, None).

(** mq_setattr.c *)
Definition mq_setattr (mqdes : ptr) (stat : option mq_attr) (oldstat : bool)
  : K mq_data (Z * option mq_attr) :=
  match stat with
  | Some a =>
      if negb (bool_decide (mqdes = NULL)) then
        '(_, old) ← (if oldstat then mq_getattr mqdes true else mret (OK, None));
        kput (λ d, m ← store mqdes (λ x, mk_des (des_flink x) (des_msgq x)
                    (Z.lor (Z.land (mq_flags a) O_NONBLOCK) (Z.land (oflags x) (Z.lnot O_NONBLOCK))))
                    (mqdess d);
                   Some (set_des m (g_desfree d) (tg_msgdesq d) d));;
        mret (OK, old)
      else mret (-1, None)
  | None => mret (-1, None)
  end.

(** ** Parameters of the calls *)

Definition has_flag (flags bit : Z) : bool := negb (Z.land flags bit =? 0).

(** mq_sndinternal.c: [msg] is the sender's buffer. *)
Definition nxmq_verify_send (mqdes : ptr) (msg : option (list Z)) (msglen prio : Z) : K mq_data Z :=
  if bool_decide (msg = None) || bool_decide (mqdes = NULL) || (prio <? 0) || (MQ_PRIO_MAX <? prio)
  then mret (- EINVAL)
  else
    x ← des_get mqdes;
    if negb (has_flag (oflags x) O_WROK) then mret (- EPERM)
    else
      y ← msgq_get (des_msgq x);
      if maxmsgsize y <? msglen then mret (- EMSGSIZE) else mret OK.

(** mq_rcvinternal.c: [msg] says whether there is a buffer. *)
Definition nxmq_verify_receive (mqdes : ptr) (msg : bool) (msglen : Z) : K mq_data Z :=
  if negb msg || bool_decide (mqdes = NULL) then mret (- EINVAL)
  else
    x ← des_get mqdes;
    if negb (has_flag (oflags x) O_RDOK) then mret (- EPERM)
    else
      y ← msgq_get (des_msgq x);
      if msglen <? maxmsgsize y then mret (- EMSGSIZE) else mret OK.
End pools.

(** ** Waiting, sending and receiving *)

Section mqueue.
Context `{Config} `{MqConfig} {S : Type} `{!TaskLists S}.
(** [nxsig_mqnotempty(pid, signo, value)] *)
Context (nxsig_mqnotempty : Z → Z → Z → K (mqsys S) Z).

Definition on_sys {A} (c : K (sys S) A) : K (mqsys S) A := λ s,
  '(a, y) ← c (msys s); Some (a, mk_mq y (mdata s)).
Definition on_data {A} (c : K mq_data A) : K (mqsys S) A := λ s,
  '(a, d) ← c (mdata s); Some (a, mk_mq (msys s) d).
Definition on_tcb {A} (c : K S A) : K (mqsys S) A := on_sys (on_sched c).

(** The common lines of [nxmq_wait_send] (286-299) and [nxmq_wait_receive]
    (179-192): the running task blocks until [msgq] is not full or not empty. *)
Definition mq_block (d : side) (msgq : ptr) : K (mqsys S) Z :=
  rtcb ← on_tcb this_task;
  on_tcb (tcb_set (set_msgwaitq msgq) rtcb);;
  on_data (msgq_set (λ y, set_nwait d (nwait d y + 1) y) msgq);;
  r ← on_tcb (tcb_get rtcb);
  let saved_errno := pterrno r in
  on_tcb (tcb_set (set_pterrno OK) rtcb);;
  _ ← on_tcb (up_block_task rtcb (wait_state d));
  mret saved_errno.

(** What follows: the code the task was woken with. *)
Definition mq_wakeup (rtcb : addr) (saved_errno : Z) : K (mqsys S) Z :=
  r ← on_tcb (tcb_get rtcb);
  let ret := pterrno r in
  on_tcb (tcb_set (set_pterrno saved_errno) rtcb);;
  mret ret.

(** [while (msgq->nmsgs >= msgq->maxmsgs)] *)
Definition wait_send_loop (msgq : ptr) : K (mqsys S) (outcome Z) :=
  y ← on_data (msgq_get msgq);
  if maxmsgs y <=? nmsgs y
  then e ← mq_block NotFull msgq; mret (Blocks e)
  else mret (Returns OK).

Definition nxmq_wait_send (mqdes : ptr) : K (mqsys S) (outcome Z) :=
  x ← on_data (des_get mqdes);
  let msgq := des_msgq x in
  y ← on_data (msgq_get msgq);
  if maxmsgs y <=? nmsgs y then
    if has_flag (oflags x) O_NONBLOCK then mret (Returns (- EAGAIN)) else wait_send_loop msgq
  else mret (Returns OK).

Definition nxmq_wait_send_resume (rtcb : addr) (saved_errno : Z) (msgq : ptr)
  : K (mqsys S) (outcome Z) :=
  ret ← mq_wakeup rtcb saved_errno;
  if negb (ret =? OK) then mret (Returns (- ret)) else wait_send_loop msgq.

(** The loop of [nxmq_wait_receive] and what follows it; [*rcvmsg] is part of the
    result. *)
Definition wait_receive_loop (mqdes : ptr) (msgq : addr) : K (mqsys S) (outcome (Z * ptr)) :=
  newmsg ← on_data (mlist_remfirst (MQueue msgq));
  match newmsg with
  | Some _ =>
      on_data (msgq_set (λ y, set_nmsgs (nmsgs y - 1) y) (Some msgq));;
      mret (Returns (OK, newmsg))
  | None =>
      x ← on_data (des_get mqdes);
      if negb (has_flag (oflags x) O_NONBLOCK)
      then e ← mq_block NotEmpty (Some msgq); mret (Blocks e)
      else mret (Returns (- EAGAIN, NULL))
  end.

Definition nxmq_wait_receive (mqdes : ptr) : K (mqsys S) (outcome (Z * ptr)) :=
  x ← on_data (des_get mqdes);
  msgq ← klift (des_msgq x);
  wait_receive_loop mqdes msgq.

Definition nxmq_wait_receive_resume (rtcb : addr) (saved_errno : Z) (mqdes : ptr) (msgq : addr)
  : K (mqsys S) (outcome (Z * ptr)) :=
  ret ← mq_wakeup rtcb saved_errno;
  if negb (ret =? OK) then mret (Returns (- ret, NULL)) else wait_receive_loop mqdes msgq.

(** [for (btcb = g_waitingformqnotempty.head;
          btcb && btcb->msgwaitq != msgq; btcb = btcb->flink);] *)
Fixpoint mq_wait_search (n : nat) (d : side) (msgq btcb : ptr) : K S ptr :=
  match btcb with
  | None => mret NULL
  | Some a =>
      x ← tcb_get a;
      if bool_decide (msgwaitq x = msgq) then mret btcb
      else match n with
           | O => klift None
           | Datatypes.S n =>
               next ← tcb_flink (wait_list d) a;
               mq_wait_search n d msgq next
           end
  end.

(** The common end of [nxmq_do_send] (443-462) and [nxmq_do_receive] (287-313): a
    task that waits for [msgq] is unblocked. *)
Definition mq_unblock (d : side) (msgq : ptr) : K (mqsys S) unit :=
  y ← on_data (msgq_get msgq);
  if 0 <? nwait d y then
    n ← on_tcb tcb_count;
    head ← on_tcb (list_head (wait_list d));
    btcb ← on_tcb (mq_wait_search n d msgq head);
    kassert (negb (bool_decide (btcb = NULL)));;
    btcb ← klift btcb;
    on_tcb (tcb_set (set_msgwaitq NULL) btcb);;
    on_data (msgq_set (λ y, set_nwait d (nwait d y - 1) y) msgq);;
    _ ← on_tcb (up_unblock_task btcb);
    mret tt
  else mret tt.

(** mq_sndinternal.c, lines 397-437 *)
Definition mq_notification (msgq : ptr) : K (mqsys S) unit :=
  y ← on_data (msgq_get msgq);
  if negb (bool_decide (ntmqdes y = NULL)) then
    let event := ntevent y in
    let pid := ntpid y in
    on_data (msgq_set (set_notification NULL INVALID_PROCESS_ID no_event) msgq);;
    (if sigev_notify event =? SIGEV_SIGNAL
     then ret ← nxsig_mqnotempty pid (sigev_signo event) (sigev_value event);
          kassert (0 <=? ret)
     else mret tt)
  else mret tt.

Definition nxmq_do_send (irq : bool) (mqdes : ptr) (mqmsg : addr) (msg : list Z) (msglen prio : Z)
  : K (mqsys S) Z :=
  _ ← on_tcb (sched_lock irq);
  x ← on_data (des_get mqdes);
  msgq ← klift (des_msgq x);
  on_data (put_message mqmsg msg msglen prio msgq);;
  mq_notification (Some msgq);;
  mq_unblock NotEmpty (Some msgq);;
  _ ← on_tcb (sched_unlock irq);
  mret OK.

(** mq_rcvinternal.c: [size] is the size of the user's buffer and [prio] says
    whether there is a place for the priority; what is stored in both is returned. *)
Definition nxmq_do_receive (mqdes : ptr) (mqmsg : addr) (size : Z) (prio : bool)
  : K (mqsys S) (Z * list Z * option Z) :=
  x ← on_data (msg_get mqmsg);
  let rcvmsglen := msg_len x in
  bytes ← klift (if (rcvmsglen <=? size) && (rcvmsglen <=? Z.of_nat (length (mail x)))
                 then Some (take (Z.to_nat rcvmsglen) (mail x)) else None);
  on_data (nxmq_free_msg mqmsg);;
  z ← on_data (des_get mqdes);
  mq_unblock NotFull (des_msgq z);;
  mret (rcvmsglen, bytes, if prio then Some (msg_priority x) else None).

(** mq_send.c: the rest of the function once there is room in the queue, or an
    error. *)
Definition send_finish (irq : bool) (kmm_malloc : option (addr * mqueue_msg_s)) (mqdes : ptr)
    (msg : list Z) (msglen prio ret : Z) : K (mqsys S) Z :=
  ret ← (if 0 <=? ret then
           mqmsg ← on_data (nxmq_alloc_msg irq kmm_malloc);
           match mqmsg with
           | Some a => nxmq_do_send irq mqdes a msg msglen prio
           | None => mret (- ENOMEM)
           end
         else mret ret);
  _ ← on_tcb (sched_unlock irq);
  mret ret.

Definition nxmq_send (irq : bool) (kmm_malloc : option (addr * mqueue_msg_s)) (mqdes : ptr)
    (msg : option (list Z)) (msglen prio : Z) : K (mqsys S) (outcome Z) :=
  ret ← on_data (nxmq_verify_send mqdes msg msglen prio);
  if ret <? 0 then mret (Returns ret)
  else
    msg ← klift msg;
    _ ← on_tcb (sched_lock irq);
    x ← on_data (des_get mqdes);
    y ← on_data (msgq_get (des_msgq x));
    st ← (if negb irq && (maxmsgs y <=? nmsgs y) then nxmq_wait_send mqdes else mret (Returns OK));
    match st with
    | Returns ret => ret ← send_finish irq kmm_malloc mqdes msg msglen prio ret; mret (Returns ret)
    | Blocks e => mret (Blocks e)
    end.

Definition nxmq_send_resume (rtcb : addr) (saved_errno : Z)
    (kmm_malloc : option (addr * mqueue_msg_s)) (mqdes : ptr) (msgq : addr) (msg : list Z)
    (msglen prio : Z) : K (mqsys S) (outcome Z) :=
  st ← nxmq_wait_send_resume rtcb saved_errno (Some msgq);
  match st with
  | Returns ret => ret ← send_finish false kmm_malloc mqdes msg msglen prio ret; mret (Returns ret)
  | Blocks e => mret (Blocks e)
  end.

(** mq_receive.c: the length (or error), and the bytes and priority stored. *)
Definition receive_finish (mqdes : ptr) (size : Z) (prio : bool) (ret : Z) (mqmsg : ptr)
  : K (mqsys S) (Z * option (list Z * option Z)) :=
  res ← (if 0 <=? ret then
           kassert (negb (bool_decide (mqmsg = NULL)));;
           a ← klift mqmsg;
           '(len, bytes, p) ← nxmq_do_receive mqdes a size prio;
           mret (len, Some (bytes, p))
         else mret (ret, None));
  _ ← on_tcb (sched_unlock false);
  mret res.

Definition nxmq_receive (mqdes : ptr) (msg : bool) (msglen : Z) (prio : bool)
  : K (mqsys S) (outcome (Z * option (list Z * option Z))) :=
  ret ← on_data (nxmq_verify_receive mqdes msg msglen);
  if ret <? 0 then mret (Returns (ret, None))
  else
    _ ← on_tcb (sched_lock false);
    st ← nxmq_wait_receive mqdes;
    match st with
    | Returns (ret, mqmsg) => res ← receive_finish mqdes msglen prio ret mqmsg; mret (Returns res)
    | Blocks e => mret (Blocks e)
    end.

Definition nxmq_receive_resume (rtcb : addr) (saved_errno : Z) (mqdes : ptr) (msgq : addr)
    (msglen : Z) (prio : bool) : K (mqsys S) (outcome (Z * option (list Z * option Z))) :=
  st ← nxmq_wait_receive_resume rtcb saved_errno mqdes msgq;
  match st with
  | Returns (ret, mqmsg) => res ← receive_finish mqdes msglen prio ret mqmsg; mret (Returns res)
  | Blocks e => mret (Blocks e)
  end.

(** ** Interrupted waits *)

Definition waiting_side (st : tstate_t) : option side :=
  match st with
  | TSTATE_WAIT_MQNOTEMPTY => Some NotEmpty
  | TSTATE_WAIT_MQNOTFULL => Some NotFull
  | _ => None
  end.

(** mq_waitirq.c *)
Definition nxmq_wait_irq (wtcb : addr) (errcode : Z) : K (mqsys S) unit :=
  w ← on_tcb (tcb_get wtcb);
  match waiting_side (task_state w) with
  | Some d =>
      let msgq := msgwaitq w in
      kassert (negb (bool_decide (msgq = NULL)));;
      on_tcb (tcb_set (set_msgwaitq NULL) wtcb);;
      y ← on_data (msgq_get msgq);
      kassert (0 <? nwait d y);;
      on_data (msgq_set (λ y, set_nwait d (nwait d y - 1) y) msgq);;
      on_tcb (tcb_set (set_pterrno errcode) wtcb);;
      _ ← on_tcb (up_unblock_task wtcb);
      mret tt
  | None => mret tt
  end.

(** mq_recover.c: a task is deleted while it waits. *)
Definition nxmq_recover (tcb : addr) : K (mqsys S) unit :=
  t ← on_tcb (tcb_get tcb);
  match waiting_side (task_state t) with
  | Some d =>
      y ← on_data (msgq_get (msgwaitq t));
      kassert (negb (bool_decide (msgwaitq t = NULL)) && (0 <? nwait d y));;
      on_data (msgq_set (λ y, set_nwait d (nwait d y - 1) y) (msgwaitq t))
  | None => mret tt
  end.

(** mq_timedsend.c and mq_timedreceive.c: the watchdog functions. *)
Definition mq_timeout (d : side) (pid : Z) : K (mqsys S) unit :=
  wtcb ← on_sys (sched_gettcb (s16 pid));
  match wtcb with
  | Some wtcb =>
      w ← on_tcb (tcb_get wtcb);
      if bool_decide (task_state w = wait_state d) then nxmq_wait_irq wtcb ETIMEDOUT else mret tt
  | None => mret tt
  end.
Definition nxmq_sndtimeout (argc pid : Z) : K (mqsys S) unit := mq_timeout NotFull pid.
Definition nxmq_rcvtimeout (argc pid : Z) : K (mqsys S) unit := mq_timeout NotEmpty pid.

(** ** Notifications and the application interface *)

(** mq_notify.c: [OK], or the errno value.  The label [errout] unlocks the
    scheduler on every path. *)
Definition mq_notify (mqdes : ptr) (notification : option sigevent) : K (mqsys S) Z :=
  errval ←
    (if bool_decide (mqdes = NULL) then mret EBADF
     else
       _ ← on_tcb (sched_lock false);
       x ← on_data (des_get mqdes);
       rtcb ← on_tcb this_task;
       r ← on_tcb (tcb_get rtcb);
       y ← on_data (msgq_get (des_msgq x));
       if bool_decide (ntmqdes y = NULL) then
         match notification with
         | Some ev =>
             if negb (GOOD_SIGNO (sigev_signo ev)) then mret EINVAL
             else on_data (msgq_set (set_notification mqdes (pid r) ev) (des_msgq x));; mret OK
         | None => mret OK
         end
       else if negb (ntpid y =? pid r) || negb (bool_decide (notification = None)) then mret EBUSY
       else
         on_data (msgq_set (set_notification NULL INVALID_PROCESS_ID no_event) (des_msgq x));;
         mret OK);
  if errval =? OK then _ ← on_tcb (sched_unlock false); mret OK
  else
    on_sys (set_errno errval);;
    _ ← on_tcb (sched_unlock false);
    mret (-1).

Definition mq_errno {A} (ret : Z) (a : A) : K (mqsys S) (Z * A) :=
  ret ← on_sys (errno_result ret); mret (ret, a).

Definition mq_send (kmm_malloc : option (addr * mqueue_msg_s)) (mqdes : ptr)
    (msg : option (list Z)) (msglen prio : Z) : K (mqsys S) (outcome Z) :=
  st ← nxmq_send false kmm_malloc mqdes msg msglen prio;
  match st with
  | Returns ret => '(ret, _) ← mq_errno ret tt; mret (Returns ret)
  | Blocks e => mret (Blocks e)
  end.

Definition mq_receive (mqdes : ptr) (msg : bool) (msglen : Z) (prio : bool)
  : K (mqsys S) (outcome (Z * option (list Z * option Z))) :=
  st ← nxmq_receive mqdes msg msglen prio;
  match st with
  | Returns (ret, res) => r ← mq_errno ret res; mret (Returns r)
  | Blocks e => mret (Blocks e)
  end.
End mqueue.
