(* ===== verification/MqSpec.v ===== *)
(** * MqSpec: the lists of messages, and the simulation

    The code of the message queues on linked task lists simulates the same code on
    plain lists; the lists of messages, which are linked on both sides, are related
    to lists of addresses by [mlists_ok]. *)

From stdpp Require Import sorting.
From S2P Require Import Prelude Queue QueueRefine Sched SchedSpec SchedInv SchedOps Semaphore SemSpec SemOps MQueue.
Import Sq SqSpec.
Local Open Scope Z_scope.

(** ** Simulation *)

Record mq_repr (s : mqsys sched_s) (t : mqsys lsched) : Prop := {
  mr_sys : sys_repr (msys s) (msys t);
  mr_data : mdata s = mdata t;
}.

Section simulation.
Context `{Config} `{MqConfig}.
Context (sigp : Z → Z → Z → K (mqsys sched_s) Z) (sigl : Z → Z → Z → K (mqsys lsched) Z).
Context (Hsig : ∀ p n v, sim mq_repr (sigp p n v) (sigl p n v)).
Abbreviation simulates c := (sim mq_repr c c).

Lemma sim_on_sys {A} (c : K (sys sched_s) A) (d : K (sys lsched) A) :
  sim sys_repr c d → sim mq_repr (on_sys c) (on_sys d).
Proof.
  intros Hc s t a t' [Hs Hd]. unfold on_sys.
  destruct (d (msys t)) as [[a1 y1]|] eqn:Hrun; simpl; [|done]. intros [= -> <-].
  destruct (Hc _ _ _ _ Hs Hrun) as (y' & -> & Hy'). simpl. eexists. split; [done|]. by split.
Qed.

Lemma sim_on_data {A} (c : K mq_data A) : simulates (on_data c).
Proof.
  intros s t a t' [Hs Hd]. unfold on_data. rewrite Hd.
  destruct (c (mdata t)) as [[a1 d1]|]; simpl; [|done]. intros [= -> <-].
  eexists. split; [done|]. by split.
Qed.

Lemma sim_on_tcb {A} (c : K sched_s A) (d : K lsched A) :
  sim sched_repr c d → sim mq_repr (on_tcb c) (on_tcb d).
Proof. intros Hc. by apply sim_on_sys, sim_on_sched. Qed.
#[local] Hint Resolve sim_on_sys sim_on_data sim_on_tcb : sched_sim.

Lemma sim_mq_block d q : simulates (mq_block d q).
Proof. unfold mq_block. solve_sim. Qed.

Lemma sim_mq_wakeup a e : simulates (mq_wakeup a e).
Proof. unfold mq_wakeup. solve_sim. Qed.

Lemma sim_wait_search n d q b : sim sched_repr (mq_wait_search n d q b) (mq_wait_search n d q b).
Proof. revert b. induction n as [|n IH]; intros b; simpl; solve_sim. Qed.
#[local] Hint Resolve sim_mq_block sim_mq_wakeup sim_wait_search : sched_sim.

Lemma sim_wait_send_loop q : simulates (wait_send_loop q).
Proof. unfold wait_send_loop. solve_sim. Qed.

Lemma sim_wait_receive_loop p q : simulates (wait_receive_loop p q).
Proof. unfold wait_receive_loop. solve_sim. Qed.

Lemma sim_wait_send p : simulates (nxmq_wait_send p).
Proof. unfold nxmq_wait_send. pose proof sim_wait_send_loop. solve_sim. Qed.

Lemma sim_wait_receive p : simulates (nxmq_wait_receive p).
Proof. unfold nxmq_wait_receive. pose proof sim_wait_receive_loop. solve_sim. Qed.

Lemma sim_wait_send_resume a e q : simulates (nxmq_wait_send_resume a e q).
Proof. unfold nxmq_wait_send_resume. pose proof sim_wait_send_loop. solve_sim. Qed.

Lemma sim_wait_receive_resume a e p q : simulates (nxmq_wait_receive_resume a e p q).
Proof. unfold nxmq_wait_receive_resume. pose proof sim_wait_receive_loop. solve_sim. Qed.

Lemma sim_mq_unblock d q : simulates (mq_unblock d q).
Proof. unfold mq_unblock. solve_sim. Qed.

Lemma sim_mq_notification q : sim mq_repr (mq_notification sigp q) (mq_notification sigl q).
Proof. unfold mq_notification. pose proof Hsig. solve_sim. Qed.
#[local] Hint Resolve sim_wait_send sim_wait_receive sim_wait_send_resume sim_wait_receive_resume
  sim_mq_unblock sim_mq_notification : sched_sim.

Lemma sim_do_send irq p a msg len prio :
  sim mq_repr (nxmq_do_send sigp irq p a msg len prio) (nxmq_do_send sigl irq p a msg len prio).
Proof. unfold nxmq_do_send. solve_sim. Qed.

Lemma sim_do_receive p a size prio : simulates (nxmq_do_receive p a size prio).
Proof. unfold nxmq_do_receive. solve_sim. Qed.
#[local] Hint Resolve sim_do_send sim_do_receive : sched_sim.

Lemma sim_send_finish irq kmm p msg len prio ret :
  sim mq_repr (send_finish sigp irq kmm p msg len prio ret) (send_finish sigl irq kmm p msg len prio ret).
Proof. unfold send_finish. solve_sim. Qed.

Lemma sim_receive_finish p size prio ret a : simulates (receive_finish p size prio ret a).
Proof. unfold receive_finish. solve_sim. Qed.
#[local] Hint Resolve sim_send_finish sim_receive_finish : sched_sim.

Lemma sim_send irq kmm p msg len prio :
  sim mq_repr (nxmq_send sigp irq kmm p msg len prio) (nxmq_send sigl irq kmm p msg len prio).
Proof. unfold nxmq_send. solve_sim. Qed.

Lemma sim_send_resume a e kmm p q msg len prio :
  sim mq_repr (nxmq_send_resume sigp a e kmm p q msg len prio)
              (nxmq_send_resume sigl a e kmm p q msg len prio).
Proof. unfold nxmq_send_resume. solve_sim. Qed.

Lemma sim_receive p b len prio : simulates (nxmq_receive p b len prio).
Proof. unfold nxmq_receive. solve_sim. Qed.

Lemma sim_receive_resume a e p q len prio : simulates (nxmq_receive_resume a e p q len prio).
Proof. unfold nxmq_receive_resume. solve_sim. Qed.

Lemma sim_wait_irq a e : simulates (nxmq_wait_irq a e).
Proof. unfold nxmq_wait_irq. solve_sim. Qed.
#[local] Hint Resolve sim_wait_irq : sched_sim.

Lemma sim_mq_timeout d pid : simulates (mq_timeout d pid).
Proof. unfold mq_timeout. solve_sim. Qed.

Lemma sim_set_errno e : sim sys_repr (set_errno e) (set_errno e).
Proof. apply sim_on_sched. solve_sim. Qed.
#[local] Hint Resolve sim_set_errno : sched_sim.

Lemma sim_mq_notify p ev : simulates (mq_notify p ev).
Proof. unfold mq_notify. solve_sim. Qed.
End simulation.

#[export] Hint Resolve sim_on_sys sim_on_data sim_on_tcb sim_send sim_send_resume sim_receive
  sim_receive_resume sim_wait_irq sim_mq_timeout sim_mq_notify : sched_sim.

(** ** The lists of messages

    [L] gives the messages of each list, [held] are the ones on none of them. *)

Record mlists_ok (d : mq_data) (L : mlist → list addr) (held : gset addr) : Prop := {
  ml_repr k q : mq_list k d = Some q → sq_repr (msgs d) q (L k);
  ml_none k : mq_list k d = None → L k = [];
  ml_disj k k' a : a ∈ L k → a ∈ L k' → k = k';
  ml_held k a : a ∈ L k → a ∉ held;
  ml_dom a : a ∈ dom (msgs d) ↔ a ∈ held ∨ ∃ k, a ∈ L k;
}.

Definition upd_list (k : mlist) (l : list addr) (L : mlist → list addr) (k' : mlist) : list addr :=
  if decide (k' = k) then l else L k'.

Section mlists.
Implicit Types (d : mq_data) (L : mlist → list addr) (held : gset addr) (k : mlist) (a : addr).

Lemma upd_list_eq k l L : upd_list k l L k = l.
Proof. unfold upd_list. by rewrite decide_True. Qed.

Lemma upd_list_ne k l L k' : k' ≠ k → upd_list k l L k' = L k'.
Proof. intros. unfold upd_list. by rewrite decide_False. Qed.

Lemma mq_list_set k q m d k' q0 :
  mq_list k d = Some q0 → mq_list k' (set_mlist k q m d) = if decide (k' = k) then Some q else mq_list k' d.
Proof.
  intros Hq. destruct k as [| |b], k' as [| |b']; simpl; try done.
  destruct (decide (b = b')) as [->|Hne].
  - rewrite decide_True by done. simpl in Hq. rewrite lookup_alter_eq.
    by destruct (msgqs d !! b').
  - rewrite decide_False by congruence. by rewrite lookup_alter_ne.
Qed.

Lemma set_mlist_msgs k q m d : msgs (set_mlist k q m d) = m.
Proof. by destruct k. Qed.

Lemma set_mlist_same k q d : mq_list k d = Some q → set_mlist k q (msgs d) d = d.
Proof.
  destruct d as [m f fi mq ds df db da tg], k as [| |b]; simpl; try by intros [= <-].
  intros Hb. unfold set_msgqs, set_msgs. simpl. f_equal. apply map_eq. intros c.
  destruct (decide (b = c)) as [->|]; [|by rewrite lookup_alter_ne].
  rewrite lookup_alter_eq. destruct (mq !! c) as [y|]; simpl in *; [|done].
  injection Hb as <-. by destruct y.
Qed.

(** One list [k] gets new contents, from its own messages and the ones held. *)
Lemma mlists_set d L held k q q' l' m' xs held' :
  mlists_ok d L held → mq_list k d = Some q → sq_repr m' q' l' →
  unchanged_but xs (msgs d) m' → (∀ a, a ∈ xs → a ∈ L k ∨ a ∈ held) → dom m' = dom (msgs d) →
  (∀ a, a ∈ l' ∨ a ∈ held' ↔ a ∈ L k ∨ a ∈ held) → (∀ a, a ∈ l' → a ∉ held') →
  mlists_ok (set_mlist k q' m' d) (upd_list k l' L) held'.
Proof.
  intros [Hr Hn Hd Hh Hdom] Hq Hr' Hun Hxs Hm Hiff Hdis.
  assert (∀ k' a, k' ≠ k → a ∈ L k' → (a ∉ L k) ∧ a ∉ held) as Hout.
  { intros k' a Hk' Ha. split; [|by eapply Hh]. intros Hak. by apply Hk', (Hd k' k a). }
  assert (∀ k' a, k' ≠ k → a ∈ L k' → (a ∉ l') ∧ a ∉ held') as Hout'.
  { intros k' a Hk' Ha. destruct (Hout k' a Hk' Ha). specialize (Hiff a). tauto. }
  split.
  - intros k' q1. rewrite set_mlist_msgs, (mq_list_set _ _ _ _ _ _ Hq). unfold upd_list.
    case_decide as Hk; [by intros [= <-]|]. intros Hq1. eapply sq_repr_frame; [by apply Hr|done|].
    intros a Ha Hx. destruct (Hout k' a Hk Ha). destruct (Hxs a Hx); done.
  - intros k'. rewrite (mq_list_set _ _ _ _ _ _ Hq). unfold upd_list. case_decide; [done|]. apply Hn.
  - intros k1 k2 a. unfold upd_list. do 2 case_decide; subst; try done; [| |apply Hd].
    + intros Ha Ha2. by destruct (Hout' k2 a).
    + intros Ha Ha2. by destruct (Hout' k1 a).
  - intros k' a. unfold upd_list. case_decide; [apply Hdis|]. intros Ha. by destruct (Hout' k' a).
  - intros a. rewrite set_mlist_msgs, Hm, Hdom. specialize (Hiff a). split.
    + intros [Ha|[k' Ha]].
      * destruct (proj2 Hiff (or_intror Ha)); [right; exists k; by rewrite upd_list_eq|by left].
      * destruct (decide (k' = k)) as [->|Hk]; [|right; exists k'; by rewrite upd_list_ne].
        destruct (proj2 Hiff (or_introl Ha)); [right; exists k; by rewrite upd_list_eq|by left].
    + intros [Ha|[k' Ha]].
      * destruct (proj1 Hiff (or_intror Ha)); [right; by exists k|by left].
      * unfold upd_list in Ha. case_decide; [subst|right; by exists k'].
        destruct (proj1 Hiff (or_introl Ha)); [right; by exists k|by left].
Qed.

Lemma mlist_take d L held k q a l :
  mlists_ok d L held → mq_list k d = Some q → L k = a :: l →
  ∃ q' m', mlist_remfirst k d = Some (Some a, set_mlist k q' m' d) ∧
    mlists_ok (set_mlist k q' m' d) (upd_list k l L) ({[a]} ∪ held) ∧
    same_data sq_data (msgs d) m'.
Proof.
  intros Hok Hq Hl. pose proof (ml_repr _ _ _ Hok k q Hq) as Hr. rewrite Hl in Hr.
  pose proof Hr as (Hnd & _). nodup_facts.
  destruct (sq_remfirst_spec _ _ _ _ Hr) as (q' & m' & Hrun & Hr' & [Hsd Hun] & _).
  exists q', m'. split; [unfold mlist_remfirst; rewrite Hq; simpl; by rewrite Hrun|]. split; [|done].
  pose proof (ml_held _ _ _ Hok k) as Hh. rewrite Hl in Hh.
  eapply mlists_set; [done|done|exact Hr'|exact Hun|rewrite Hl; set_solver
    |by eapply same_data_dom|rewrite Hl; set_solver|set_solver].
Qed.

Lemma mlist_take_empty d L held k q :
  mlists_ok d L held → mq_list k d = Some q → L k = [] → mlist_remfirst k d = Some (NULL, d).
Proof.
  intros Hok Hq Hl. pose proof (ml_repr _ _ _ Hok k q Hq) as Hr. rewrite Hl in Hr.
  unfold mlist_remfirst. rewrite Hq. simpl. rewrite (sq_remfirst_empty _ _ Hr). simpl.
  by rewrite set_mlist_same.
Qed.

Lemma mlist_put d L held k q a :
  mlists_ok d L held → mq_list k d = Some q → a ∈ held →
  ∃ q' m', mlist_addlast a k d = Some (tt, set_mlist k q' m' d) ∧
    mlists_ok (set_mlist k q' m' d) (upd_list k (L k ++ [a]) L) (held ∖ {[a]}) ∧
    same_data sq_data (msgs d) m' ∧ unchanged_but (L k ++ [a]) (msgs d) m'.
Proof.
  intros Hok Hq Ha. pose proof (ml_repr _ _ _ Hok k q Hq) as Hr.
  assert (a ∉ L k) as Hn by (intros Hk; by eapply (ml_held _ _ _ Hok)).
  destruct (sq_addlast_spec _ _ _ a Hr) as (q' & m' & Hrun & Hr' & [Hsd Hun]);
    [apply (ml_dom _ _ _ Hok); by left|done|].
  exists q', m'. split; [unfold mlist_addlast; rewrite Hq; simpl; by rewrite Hrun|]. split; [|by split].
  pose proof (ml_held _ _ _ Hok k) as Hh.
  eapply mlists_set; [done|done|exact Hr'|exact Hun|set_solver|by eapply same_data_dom| |set_solver].
  intros b. destruct (decide (b = a)); set_solver.
Qed.

(** Changes that keep the links. *)
Lemma mlists_data d d' L held :
  mlists_ok d L held → (∀ k, mq_list k d' = mq_list k d) →
  same_data sq_flink (msgs d) (msgs d') → mlists_ok d' L held.
Proof.
  intros [Hr Hn Hd Hh Hdom] Hq Hsd. split; [|by setoid_rewrite Hq|done|done|].
  - intros k q. rewrite Hq. intros Hk. by eapply sq_repr_same, Hr.
  - intros a. by rewrite (same_data_dom _ _ _ Hsd).
Qed.

Lemma mlists_msgq d L held q y y' :
  mlists_ok d L held → msgqs d !! q = Some y → msglist y' = msglist y →
  mlists_ok (set_msgqs (<[q := y']> (msgqs d)) d) L held.
Proof.
  intros Hok Hy Hl. eapply mlists_data; [done| |done]. intros [| |b]; [done..|]. simpl.
  destruct (decide (q = b)) as [->|]; [|by rewrite lookup_insert_ne].
  rewrite lookup_insert_eq, Hy. simpl. by rewrite Hl.
Qed.

Lemma mlists_msg d L held a x x' :
  mlists_ok d L held → msgs d !! a = Some x → msg_next x' = msg_next x →
  mlists_ok (set_msgs (<[a := x']> (msgs d)) d) L held.
Proof.
  intros Hok Hx Hn. eapply mlists_data; [done|by intros []|]. simpl.
  by eapply same_data_insert; [reflexivity|..].
Qed.

Lemma mq_list_msgs k m d : mq_list k (set_msgs m d) = mq_list k d.
Proof. by destruct k. Qed.

(** A structure that the heap provides, and one that is given back to it. *)
Lemma mlists_new d L held a x :
  mlists_ok d L held → a ∉ dom (msgs d) →
  mlists_ok (set_msgs (<[a := x]> (msgs d)) d) L ({[a]} ∪ held).
Proof.
  intros [Hr Hn Hd Hh Hdom] Ha. assert (∀ k, a ∉ L k) as Hno.
  { intros k Hk. apply Ha, Hdom. right. by exists k. }
  split; [|intros k; rewrite mq_list_msgs; apply Hn|done| |].
  - intros k q. rewrite mq_list_msgs. intros Hk.
    destruct (Hr k q) as (? & ? & ? & Hs); [done|]. repeat split; try done.
    by apply sseg_insert.
  - intros k b Hb. assert (b ≠ a) by (intros ->; by apply (Hno k)). specialize (Hh k b Hb). set_solver.
  - intros b. simpl. rewrite dom_insert, elem_of_union, Hdom. set_solver.
Qed.

Lemma mlists_delete d L held a :
  mlists_ok d L held → a ∈ held →
  mlists_ok (set_msgs (delete a (msgs d)) d) L (held ∖ {[a]}).
Proof.
  intros [Hr Hn Hd Hh Hdom] Ha. assert (∀ k, a ∉ L k) as Hno.
  { intros k Hk. by apply (Hh k a). }
  split; [|intros k; rewrite mq_list_msgs; apply Hn|done| |].
  - intros k q. rewrite mq_list_msgs. intros Hk. destruct (Hr k q) as (? & ? & ? & Hs); [done|].
    repeat split; try done.
    eapply sseg_frame; [|done]. intros b Hb. apply lookup_delete_ne. intros ->. by apply (Hno k).
  - intros k b Hb. specialize (Hh k b Hb). set_solver.
  - intros b. simpl. rewrite dom_delete, elem_of_difference, Hdom, not_elem_of_singleton.
    destruct (decide (b = a)) as [->|]; [|set_solver]. split; [naive_solver|].
    intros [?|[k ?]]; [set_solver|by destruct (Hno k)].
Qed.

(** *** The place of a new message *)

Lemma send_search_ok m prio l n prev :
  sseg msg_next m l NULL → (length l ≤ n)%nat →
  ∃ l1 l2, l = l1 ++ l2 ∧
    Forall (λ a, ∃ x, m !! a = Some x ∧ prio ≤ msg_priority x) l1 ∧
    (l2 = [] ∨ ∃ b l3 x, l2 = b :: l3 ∧ m !! b = Some x ∧ msg_priority x < prio) ∧
    send_search n m prio prev (hd_or NULL l) = Some (last_or prev l1).
Proof.
  revert n prev. induction l as [|a l IH]; intros n prev Hs Hn.
  { exists [], []. split_and!; [done|done|by left|by destruct n]. }
  destruct Hs as [(x & Hx & Hnext) Hs]. destruct n as [|n]; [simpl in Hn; lia|].
  cbn [send_search hd_or]. rewrite Hx. cbn [mbind option_bind].
  destruct (Z.leb_spec prio (msg_priority x)) as [Hle|Hlt].
  - rewrite Hnext. destruct (IH n (Some a)) as (l1 & l2 & -> & Hall & Hnx & ->); [done|simpl in Hn; lia|].
    exists (a :: l1), l2. split_and!; [done|constructor; eauto|done|done].
  - exists [], (a :: l). split_and!; [done|done|right; eauto 6|done].
Qed.

Lemma mlist_insert_ok d L held q y a prio :
  mlists_ok d L held → msgqs d !! q = Some y → a ∈ held →
  ∃ l1 l2 q' m', L (MQueue q) = l1 ++ l2 ∧
    Forall (λ a, ∃ x, msgs d !! a = Some x ∧ prio ≤ msg_priority x) l1 ∧
    (l2 = [] ∨ ∃ b l3 x, l2 = b :: l3 ∧ msgs d !! b = Some x ∧ msg_priority x < prio) ∧
    mlist_insert a prio q d = Some (tt, set_mlist (MQueue q) q' m' d) ∧
    mlists_ok (set_mlist (MQueue q) q' m' d) (upd_list (MQueue q) (l1 ++ a :: l2) L) (held ∖ {[a]}) ∧
    same_data sq_data (msgs d) m'.
Proof.
  intros Hok Hy Ha. assert (mq_list (MQueue q) d = Some (msglist y)) as Hq by (simpl; by rewrite Hy).
  pose proof (ml_repr _ _ _ Hok _ _ Hq) as Hr. pose proof Hr as (Hnd & Hhd & _ & Hs).
  assert (a ∉ L (MQueue q)) as Hn by (intros Hk; by eapply (ml_held _ _ _ Hok)).
  assert (a ∈ dom (msgs d)) as Hdom by (apply (ml_dom _ _ _ Hok); by left).
  destruct (send_search_ok (msgs d) prio (L (MQueue q)) (Datatypes.S (size (msgs d))) NULL Hs)
    as (l1 & l2 & Hl & Hall & Hnx & Hrun); [pose proof (sq_repr_size _ _ _ Hr); lia|].
  rewrite Hl in Hr, Hn, Hhd.
  assert (∃ q' m', (match last_or NULL l1 with
             | Some _ => sq_addafter (last_or NULL l1) (Some a) (msglist y) (msgs d)
             | None => sq_addfirst (Some a) (msglist y) (msgs d) end) = Some (q', m') ∧
           sq_repr m' q' (l1 ++ a :: l2) ∧ sq_frame (l1 ++ a :: l2) (msgs d) m')
    as (q' & m' & Hadd & Hr' & [Hsd Hun]).
  { destruct l1 as [|b l1 _] using rev_ind; [by apply sq_addfirst_spec|].
    rewrite last_or_app. simpl. rewrite <- app_assoc in *. simpl in *. by apply sq_addafter_spec. }
  exists l1, l2, q', m'. do 3 (split; [done|]). pose proof (ml_held _ _ _ Hok (MQueue q)) as Hh.
  split; [|split; [|done]].
  - unfold mlist_insert. rewrite Hy. cbn [mbind option_bind]. rewrite Hhd, <- Hl, Hrun.
    cbn [mbind option_bind]. by rewrite Hadd.
  - rewrite Hl in Hh.
    eapply mlists_set; [done|done|exact Hr'|exact Hun|rewrite Hl; set_solver
      |by eapply same_data_dom| |set_solver].
    rewrite Hl. intros b. destruct (decide (b = a)); set_solver.
Qed.
End mlists.

(** ** Letters: what a message carries *)

Abbreviation letter := (Z * list Z)%type.

Definition letter_of (x : mqueue_msg_s) : letter :=
  (msg_priority x, take (Z.to_nat (msg_len x)) (mail x)).

Definition letters (m : mem mqueue_msg_s) (l : list addr) : list letter :=
  omap (λ a, letter_of <$> m !! a) l.

(** The reference: a letter goes behind those of the same or a higher priority. *)
Fixpoint pq_insert (e : letter) (l : list letter) : list letter :=
  match l with
  | [] => [e]
  | x :: l => if e.1 <=? x.1 then x :: pq_insert e l else e :: x :: l
  end.

Definition pq_sorted (l : list letter) : Prop := StronglySorted (λ x y, y.1 ≤ x.1) l.

Section letters.
Implicit Types (m : mem mqueue_msg_s) (e : letter).

Lemma letters_app m l1 l2 : letters m (l1 ++ l2) = letters m l1 ++ letters m l2.
Proof. apply omap_app. Qed.

Lemma letters_cons m a l x : m !! a = Some x → letters m (a :: l) = letter_of x :: letters m l.
Proof. intros Hx. unfold letters. simpl. by rewrite Hx. Qed.

Lemma letters_ext m m' l :
  (∀ a, a ∈ l → letter_of <$> m' !! a = letter_of <$> m !! a) → letters m' l = letters m l.
Proof.
  induction l as [|a l IH]; intros Hm; [done|]. change (a :: l) with ([a] ++ l).
  rewrite !letters_app, IH by set_solver. f_equal. unfold letters. simpl.
  by rewrite (Hm a) by set_solver.
Qed.

Lemma letters_same m m' l : same_data sq_data m m' → letters m' l = letters m l.
Proof.
  intros Hd. apply letters_ext. intros a _. apply (f_equal (.!! a)) in Hd.
  rewrite !lookup_fmap in Hd. destruct (m' !! a) as [x|], (m !! a) as [x'|]; try done.
  simpl in *. injection Hd as ? ? ? ?. unfold letter_of. congruence.
Qed.

Lemma letters_length m l : Forall (.∈ dom m) l → length (letters m l) = length l.
Proof.
  induction 1 as [|a l [x Hx]%elem_of_dom _ IH]; [done|].
  rewrite (letters_cons _ _ _ _ Hx). simpl. by rewrite IH.
Qed.

Lemma letters_insert m a x l : a ∉ l → letters (<[a := x]> m) l = letters m l.
Proof.
  intros Ha. apply letters_ext. intros b Hb. rewrite lookup_insert_ne; [done|]. by intros ->.
Qed.

Lemma pq_insert_app e (l1 l2 : list letter) :
  Forall (λ x : letter, e.1 ≤ x.1) l1 → pq_insert e (l1 ++ l2) = l1 ++ pq_insert e l2.
Proof. induction 1 as [|x l1 Hx _ IH]; [done|]. simpl. by rewrite (proj2 (Z.leb_le _ _) Hx), IH. Qed.

Lemma pq_insert_here e (l : list letter) :
  (∀ x l', l = x :: l' → x.1 < e.1) → pq_insert e l = e :: l.
Proof.
  destruct l as [|x l]; intros Hx; [done|]. simpl.
  by rewrite (proj2 (Z.leb_gt _ _) (Hx x l eq_refl)).
Qed.

Lemma pq_insert_perm e (l : list letter) : pq_insert e l ≡ₚ e :: l.
Proof.
  induction l as [|x l IH]; [done|]. simpl. case_match; [|done]. rewrite IH. apply Permutation_swap.
Qed.

Lemma pq_insert_sorted e (l : list letter) : pq_sorted l → pq_sorted (pq_insert e l).
Proof.
  unfold pq_sorted. induction 1 as [|x l Hs IH Hx]; simpl; [by repeat constructor|].
  destruct (Z.leb_spec e.1 x.1) as [Hle|Hlt].
  - constructor; [done|]. rewrite pq_insert_perm. by constructor.
  - constructor; [by constructor|]. constructor; [lia|].
    eapply Forall_impl; [done|]. simpl. lia.
Qed.

(** What [mlist_insert_ok] does to the letters. *)
Lemma letters_put m a x l1 l2 :
  m !! a = Some x →
  Forall (λ b, ∃ y, m !! b = Some y ∧ msg_priority x ≤ msg_priority y) l1 →
  (l2 = [] ∨ ∃ b l3 y, l2 = b :: l3 ∧ m !! b = Some y ∧ msg_priority y < msg_priority x) →
  letters m (l1 ++ a :: l2) = pq_insert (letter_of x) (letters m (l1 ++ l2)).
Proof.
  intros Hx Hall Hnx. rewrite !letters_app, (letters_cons _ _ _ _ Hx), pq_insert_app.
  - f_equal. symmetry. apply pq_insert_here. intros e l He.
    destruct Hnx as [->|(b & l3 & y & -> & Hy & Hlt)]; [done|].
    rewrite (letters_cons _ _ _ _ Hy) in He. by injection He as <- _.
  - clear Hnx. induction Hall as [|b l1 (y & Hy & Hle) _ IH]; [constructor|].
    rewrite (letters_cons _ _ _ _ Hy). by constructor.
Qed.
End letters.
