(* ===== verification/MqInv.v ===== *)
(** * MqInv: the invariant of the message queues

    On plain task lists: every queue counts its messages and its waiters, its
    messages are ordered by priority and fit in the buffers of receivers, and every
    message structure is on exactly one list. *)

From stdpp Require Import sorting.
From S2P Require Import Prelude Queue QueueRefine Sched SchedSpec SchedInv SchedOps Semaphore SemSpec SemOps MQueue MqSpec.
Import Sq SqSpec.
Local Open Scope Z_scope.

(** ** The parts of the state *)

Abbreviation tsk u := (ksched (msys u)).

Definition with_t (t : lsched) (u : mqsys lsched) : mqsys lsched :=
  mk_mq (mk_sys t (sems (msys u)) (g_pidhash (msys u))) (mdata u).
Definition with_d (d : mq_data) (u : mqsys lsched) : mqsys lsched := mk_mq (msys u) d.

(** Update one queue. *)
Definition upd_msgq (f : mqueue_inode_s → mqueue_inode_s) (q : addr) (d : mq_data) : mq_data :=
  set_msgqs (alter f q (msgqs d)) d.

Definition wmq (T : taskmap) (a : addr) : ptr :=
  match T !! a with Some x => msgwaitq x | None => NULL end.
Definition werr (T : taskmap) (a : addr) : Z :=
  match T !! a with Some x => pterrno x | None => 0 end.

(** The tasks that wait for a queue, highest priority first. *)
Definition mwaiters (t : lsched) (d : side) (q : addr) : list addr :=
  waiting_for (wmq (tasks t)) (lists t (wait_list d)) q.

(** ** The invariant *)

Record mwait_ok (t : lsched) (Q : mem mqueue_inode_s) : Prop := {
  mw_live d a : a ∈ lists t (wait_list d) → ∃ q, wmq (tasks t) a = Some q ∧ q ∈ dom Q;
  mw_count d q y : Q !! q = Some y → nwait d y = Z.of_nat (length (mwaiters t d q));
}.

Record queue_ok `{MqConfig} (m : mem mqueue_msg_s) (l : list addr) (y : mqueue_inode_s) : Prop := {
  qo_count : nmsgs y = Z.of_nat (length l);
  qo_sorted : pq_sorted (letters m l);
  qo_size : 0 ≤ maxmsgsize y ≤ MQ_MAX_BYTES ∧ msgsize_t (maxmsgsize y) = maxmsgsize y;
  qo_len a x : a ∈ l → m !! a = Some x → 0 ≤ msg_len x ≤ maxmsgsize y;
}.

Record mdata_ok `{MqConfig} (L : mlist → list addr) (held : gset addr) (d : mq_data) : Prop := {
  md_lists : mlists_ok d L held;
  md_size : Z.of_nat (size (msgs d)) ≤ 32767;
  md_mail a x : msgs d !! a = Some x → Z.of_nat (length (mail x)) = MQ_MAX_BYTES;
  md_free a x : a ∈ L MFree → msgs d !! a = Some x → msg_type x = MQ_ALLOC_FIXED;
  md_irq a x : a ∈ L MFreeIrq → msgs d !! a = Some x → msg_type x = MQ_ALLOC_IRQ;
  md_queue q y : msgqs d !! q = Some y → queue_ok (msgs d) (L (MQueue q)) y;
}.

Record mq_inv `{MqConfig} (idle : addr) (L : mlist → list addr) (held : gset addr) (u : mqsys lsched)
  : Prop := {
  mv_sched : sched_inv idle (tsk u);
  mv_tasks : Z.of_nat (size (tasks (tsk u))) ≤ 32767;
  mv_data : mdata_ok L held (mdata u);
  mv_wait : mwait_ok (tsk u) (msgqs (mdata u));
}.

(** ** Running the code *)

Section run.
Context `{Config}.
Implicit Types (u : mqsys lsched).

Lemma on_tcb_Some {A} (c : K lsched A) u a t :
  c (tsk u) = Some (a, t) → on_tcb c u = Some (a, with_t t u).
Proof. intros Hc. unfold on_tcb, on_sys, on_sched. by rewrite Hc. Qed.

Lemma on_data_Some {A} (c : K mq_data A) u a d :
  c (mdata u) = Some (a, d) → on_data c u = Some (a, with_d d u).
Proof. intros Hc. unfold on_data. by rewrite Hc. Qed.

Lemma with_t_same u : with_t (tsk u) u = u.
Proof. by destruct u as [[]]. Qed.

Lemma with_d_same u : with_d (mdata u) u = u.
Proof. by destruct u. Qed.

Lemma tcb_read {A} (c : K lsched A) u a : c (tsk u) = Some (a, tsk u) → on_tcb c u = Some (a, u).
Proof. intros Hc. by rewrite (on_tcb_Some _ _ _ _ Hc), with_t_same. Qed.

Lemma data_read {A} (c : K mq_data A) u a : c (mdata u) = Some (a, mdata u) → on_data c u = Some (a, u).
Proof. intros Hc. by rewrite (on_data_Some _ _ _ _ Hc), with_d_same. Qed.

Lemma msgq_get_Some d q y : msgqs d !! q = Some y → msgq_get (Some q) d = Some (y, d).
Proof. intros Hy. unfold msgq_get, kget. simpl. by rewrite Hy. Qed.

Lemma msgq_set_Some f d q : is_Some (msgqs d !! q) → msgq_set f (Some q) d = Some (tt, upd_msgq f q d).
Proof.
  intros [y Hy]. unfold msgq_set, kput, upd_msgq. rewrite (store_Some _ _ _ _ Hy). simpl.
  by rewrite (alter_insert_Some _ _ _ _ Hy).
Qed.

Lemma msg_get_Some d a x : msgs d !! a = Some x → msg_get a d = Some (x, d).
Proof. intros Hx. unfold msg_get, kget. by rewrite Hx. Qed.

Lemma msg_set_Some f d a x :
  msgs d !! a = Some x → msg_set f a d = Some (tt, set_msgs (<[a := f x]> (msgs d)) d).
Proof. intros Hx. unfold msg_set, kput. by rewrite (store_Some _ _ _ _ Hx). Qed.

Lemma des_get_Some d p x : mqdess d !! p = Some x → des_get (Some p) d = Some (x, d).
Proof. intros Hx. unfold des_get, kget. simpl. by rewrite Hx. Qed.

Lemma klift_Some {S A} (a : A) (s : S) : klift (Some a) s = Some (a, s).
Proof. done. Qed.

Lemma kassert_Some {S} b (s : S) : b = true → kassert b s = Some (tt, s).
Proof. intros ->. unfold kassert, klift. by rewrite DEBUGASSERT_true. Qed.

(** The condition matters only in a build with assertions. *)
Lemma kassert_if {S} b (s : S) :
  (CONFIG_DEBUG_ASSERTIONS = true → b = true) → kassert b s = Some (tt, s).
Proof.
  intros Hb. unfold kassert, klift, DEBUGASSERT. destruct CONFIG_DEBUG_ASSERTIONS; simpl; [|done].
  by rewrite Hb.
Qed.
End run.

(** One step of the code: a read of, or a change to, the tasks or the data. *)
Tactic Notation "tread" uconstr(H) := erewrite K_bind_Some by (eapply tcb_read, H; ksolve); cbv beta.
Tactic Notation "twrite" uconstr(H) := erewrite K_bind_Some by (eapply on_tcb_Some, H; ksolve); cbv beta.
Tactic Notation "dread" uconstr(H) := erewrite K_bind_Some by (eapply data_read, H; ksolve); cbv beta.
Tactic Notation "dwrite" uconstr(H) := erewrite K_bind_Some by (eapply on_data_Some, H; ksolve); cbv beta.

Ltac mnorm := cbn [with_t with_d ksched msys mdata sems g_pidhash].

(** ** Fields that matter only here *)

Section fields.
Implicit Types (t : lsched) (T : taskmap) (Q : mem mqueue_inode_s).

Lemma wmq_frame T t' a : frame T t' → wmq (tasks t') a = wmq T a.
Proof.
  intros Hf. apply (f_equal (.!! a)) in Hf. rewrite !lookup_fmap in Hf. unfold wmq.
  destruct (tasks t' !! a), (T !! a); simpl in Hf; try done. by injection Hf.
Qed.

Lemma werr_frame T t' a : frame T t' → werr (tasks t') a = werr T a.
Proof.
  intros Hf. apply (f_equal (.!! a)) in Hf. rewrite !lookup_fmap in Hf. unfold werr.
  destruct (tasks t' !! a), (T !! a); simpl in Hf; try done. by injection Hf.
Qed.

Lemma wmq_alter T f a p b :
  is_Some (T !! a) → (∀ x, msgwaitq (f x) = p) → wmq (alter f a T) b = set_wait a p (wmq T) b.
Proof.
  intros [x Hx] Hf. unfold wmq, set_wait. case_decide as Hb.
  - subst. rewrite lookup_alter_eq, Hx. simpl. apply Hf.
  - by rewrite lookup_alter_ne.
Qed.

Lemma wmq_alter_same T f a b :
  (∀ x, msgwaitq (f x) = msgwaitq x) → wmq (alter f a T) b = wmq T b.
Proof.
  intros Hf. unfold wmq. destruct (decide (a = b)) as [->|]; [|by rewrite lookup_alter_ne].
  rewrite lookup_alter_eq. destruct (T !! b); simpl; [apply Hf|done].
Qed.

Lemma werr_alter_same T f a b :
  (∀ x, pterrno (f x) = pterrno x) → werr (alter f a T) b = werr T b.
Proof.
  intros Hf. unfold werr. destruct (decide (a = b)) as [->|]; [|by rewrite lookup_alter_ne].
  rewrite lookup_alter_eq. destruct (T !! b); simpl; [apply Hf|done].
Qed.

Lemma werr_alter_ne T f a b : a ≠ b → werr (alter f a T) b = werr T b.
Proof. intros. unfold werr. by rewrite lookup_alter_ne. Qed.

Lemma mwaiters_ext t t' d q :
  (∀ a, wmq (tasks t') a = wmq (tasks t) a) →
  lists t' (wait_list d) = lists t (wait_list d) → mwaiters t' d q = mwaiters t d q.
Proof. intros Hw Hl. unfold mwaiters. rewrite Hl. by apply waiting_for_ext. Qed.

Lemma mlists_upd f q md L held :
  (∀ y, msglist (f y) = msglist y) → mlists_ok md L held → mlists_ok (upd_msgq f q md) L held.
Proof.
  intros Hf Hok. eapply mlists_data; [done| |done]. intros [| |b]; [done..|]. simpl.
  destruct (decide (q = b)) as [->|]; [|by rewrite lookup_alter_ne].
  rewrite lookup_alter_eq. destruct (msgqs md !! b) as [y|]; simpl; [by rewrite Hf|done].
Qed.

(** Scheduling that leaves the waiting tasks alone. *)
Lemma mwait_frame t t' Q :
  mwait_ok t Q → (∀ a, wmq (tasks t') a = wmq (tasks t) a) →
  (∀ d, lists t' (wait_list d) ≡ₚ lists t (wait_list d)) → mwait_ok t' Q.
Proof.
  intros [Hl Hc] Hw HW. split.
  - intros d a. rewrite HW, Hw. apply Hl.
  - intros d q y Hy. rewrite (Hc d q y Hy). unfold mwaiters. rewrite HW.
    f_equal. f_equal. apply waiting_for_ext. done.
Qed.

(** A queue changes, but not its waiters. *)
Lemma mwait_msgq t Q q f :
  mwait_ok t Q → (∀ d y, nwait d (f y) = nwait d y) → mwait_ok t (alter f q Q).
Proof.
  intros [Hl Hc] Hf. split.
  - intros d a Ha. destruct (Hl d a Ha) as (q' & Hq & Hd). exists q'. by rewrite dom_alter_L.
  - intros d q' y. rewrite lookup_alter_Some. intros [(<- & z & Hz & ->)|[_ Hy]]; [|by apply Hc].
    rewrite Hf. by apply Hc.
Qed.

Lemma nwait_set d d' n y : nwait d' (set_nwait d n y) = if decide (d' = d) then s16 n else nwait d' y.
Proof. by destruct d, d'. Qed.

(** The running task starts to wait. *)
Lemma mwait_block t t' Q d q y a :
  mwait_ok t Q → Q !! q = Some y → a ∉ lists t (wait_list d) →
  (∀ d', d' ≠ d → a ∉ lists t (wait_list d')) →
  (∀ b, wmq (tasks t') b = set_wait a (Some q) (wmq (tasks t)) b) →
  lists t' (wait_list d) ≡ₚ a :: lists t (wait_list d) →
  (∀ d', d' ≠ d → lists t' (wait_list d') = lists t (wait_list d')) →
  s16 (nwait d y + 1) = nwait d y + 1 →
  mwait_ok t' (alter (λ y, set_nwait d (nwait d y + 1) y) q Q).
Proof.
  intros [Hl Hc] Hy Ha Ha' Hw HW HW' Hs. split.
  - intros d' b Hb. rewrite Hw. unfold set_wait. case_decide as Hba.
    { subst. exists q. split; [done|]. rewrite dom_alter_L. by eapply elem_of_dom_2. }
    destruct (Hl d' b) as (q' & Hq & Hd); [|exists q'; by rewrite dom_alter_L].
    destruct (decide (d' = d)) as [->|Hd]; [rewrite HW in Hb; set_solver|by rewrite <- HW'].
  - assert (∀ d' q', length (mwaiters t' d' q') =
      ((if decide (d' = d ∧ q' = q) then 1 else 0) + length (mwaiters t d' q'))%nat) as Hlen.
    { intros d' q'. unfold mwaiters.
      rewrite (waiting_for_ext _ (set_wait a (Some q) (wmq (tasks t)))) by (intros; apply Hw).
      destruct (decide (d' = d)) as [->|Hd].
      - rewrite HW, waiting_for_cons, set_wait_eq, waiting_for_set by done.
        do 2 case_decide; simpl; try done; naive_solver.
      - rewrite HW', waiting_for_set by (done || by apply Ha').
        by rewrite decide_False by naive_solver. }
    intros d' q' z. rewrite Hlen, lookup_alter_Some.
    intros [(<- & z0 & Hz & ->)|[Hne Hz]].
    + assert (z0 = y) as -> by congruence. rewrite nwait_set. case_decide; subst.
      * rewrite decide_True by done. rewrite Hs, (Hc _ _ _ Hy). lia.
      * rewrite decide_False by naive_solver. rewrite (Hc _ _ _ Hy). lia.
    + rewrite decide_False by naive_solver. rewrite (Hc _ _ _ Hz). lia.
Qed.

(** A waiting task is taken off its queue. *)
Lemma mwait_leave t t' Q d q y a W1 W2 :
  mwait_ok t Q → Q !! q = Some y → wmq (tasks t) a = Some q →
  lists t (wait_list d) = W1 ++ a :: W2 → NoDup (W1 ++ a :: W2) →
  (∀ d', d' ≠ d → a ∉ lists t (wait_list d')) →
  (∀ b, b ≠ a → wmq (tasks t') b = wmq (tasks t) b) →
  lists t' (wait_list d) = W1 ++ W2 →
  (∀ d', d' ≠ d → lists t' (wait_list d') = lists t (wait_list d')) →
  nwait d y ≤ 32767 →
  0 < nwait d y ∧ mwait_ok t' (alter (λ y, set_nwait d (nwait d y - 1) y) q Q) ∧
  ∃ A B, mwaiters t d q = A ++ a :: B ∧ (a ∉ A) ∧ mwaiters t' d q = A ++ B ∧
    ∀ d' q', (d', q') ≠ (d, q) → mwaiters t' d' q' = mwaiters t d' q'.
Proof.
  intros [Hl Hc] Hy Ha HW Hnd Ha' Hw HW1 HW' Hs. nodup_facts.
  set (A := waiting_for (wmq (tasks t)) W1 q). set (B := waiting_for (wmq (tasks t)) W2 q).
  assert (mwaiters t d q = A ++ a :: B) as HA.
  { unfold mwaiters, A, B. rewrite HW. unfold waiting_for. rewrite filter_app, filter_cons.
    by rewrite decide_True. }
  assert (mwaiters t' d q = A ++ B) as HB.
  { unfold mwaiters, A, B. rewrite HW1. rewrite (waiting_for_ext _ (wmq (tasks t))).
    - unfold waiting_for. by rewrite filter_app.
    - intros b Hb. apply Hw. intros ->. set_solver. }
  assert (∀ d' q', (d', q') ≠ (d, q) → mwaiters t' d' q' = mwaiters t d' q') as Ho.
  { intros d' q' Hne. unfold mwaiters. destruct (decide (d' = d)) as [->|Hd].
    - rewrite HW1, HW, (waiting_for_ext _ (wmq (tasks t))) by (intros b Hb; apply Hw; intros ->; set_solver).
      unfold waiting_for. rewrite !filter_app, filter_cons, decide_False; [done|].
      rewrite Ha. intros [= ->]. done.
    - rewrite HW' by done. apply waiting_for_ext. intros b Hb. apply Hw. intros ->. by apply (Ha' d'). }
  pose proof (Hc d q y Hy) as Hcy. rewrite HA, length_app in Hcy. simpl in Hcy.
  split; [lia|]. split.
  2: { exists A, B. split; [done|]. split; [|done].
       unfold A, waiting_for. intros [_ ?]%list_elem_of_filter. set_solver. }
  split.
  - intros d' b Hb. destruct (decide (b = a)) as [->|Hba].
    { exfalso. destruct (decide (d' = d)) as [->|Hd]; [rewrite HW1 in Hb; set_solver|].
      rewrite HW' in Hb by done. by apply (Ha' d'). }
    rewrite Hw by done. destruct (Hl d' b) as (q' & Hq & Hd); [|exists q'; by rewrite dom_alter_L].
    destruct (decide (d' = d)) as [->|Hd]; [rewrite HW1 in Hb; rewrite HW; set_solver|by rewrite <- HW'].
  - intros d' q' z. rewrite lookup_alter_Some. intros [(<- & z0 & Hz & ->)|[Hne Hz]].
    + assert (z0 = y) as -> by congruence. rewrite nwait_set. case_decide; subst.
      * rewrite HB, length_app, s16_small by lia. lia.
      * rewrite Ho by congruence. by apply Hc.
    + rewrite Ho by congruence. by apply Hc.
Qed.
End fields.
