(* ===== verification/MqWait.v ===== *)
(** * MqWait: blocking on a message queue and being woken

    On plain task lists: what [mq_block], [mq_unblock], [nxmq_wait_irq] and the
    scheduler lock do to the tasks and the counts of waiters. *)

From stdpp Require Import sorting.
From S2P Require Import Prelude Queue QueueRefine Sched SchedSpec SchedInv SchedOps Semaphore SemSpec SemOps MQueue MqSpec MqInv.
Local Open Scope Z_scope.

(** The fields of a queue that have to do with its messages. *)
Definition q_keep (y : mqueue_inode_s) := (msglist y, nmsgs y, maxmsgs y, maxmsgsize y).

Section wait.
Context `{Config} `{MqConfig} (idle : addr).
Implicit Types (u : mqsys lsched) (t : lsched) (L : mlist → list addr) (held : gset addr)
  (d : side) (a q r : addr).
Abbreviation inv := (mq_inv idle).

(** ** Changes that keep the invariant *)

Lemma inv_msgq u L held t' f q :
  inv L held u → (∀ y, q_keep (f y) = q_keep y) → sched_inv idle t' →
  size (tasks t') = size (tasks (tsk u)) → mwait_ok t' (alter f q (msgqs (mdata u))) →
  inv L held (with_t t' (with_d (upd_msgq f q (mdata u)) u)).
Proof.
  intros [_ Hts [Hml Hsz Hmail Hfree Hirq Hq] _] Hf Hs Hsize Hw.
  split; simpl; [done|by rewrite Hsize| |done]. split; simpl; [|done..|].
  - apply mlists_upd; [|done]. intros y. by injection (Hf y).
  - intros q' y. rewrite lookup_alter_Some. intros [(<- & z & Hz & ->)|[_ Hy]]; [|by apply Hq].
    destruct (Hq _ _ Hz) as [H1 H2 H3 H4]. injection (Hf z) as E1 E2 E3 E4.
    split; rewrite ?E1, ?E2, ?E3, ?E4; done.
Qed.

Lemma inv_tasks u L held t' :
  inv L held u → sched_inv idle t' → size (tasks t') = size (tasks (tsk u)) →
  mwait_ok t' (msgqs (mdata u)) → inv L held (with_t t' u).
Proof. intros [_ Hts Hd _] Hs Hsize Hw. split; simpl; [done|by rewrite Hsize|done|done]. Qed.

Lemma inv_sched_frame u L held T t' :
  inv L held u → sched_inv idle t' → frame T t' → size T = size (tasks (tsk u)) →
  (∀ a, wmq T a = wmq (tasks (tsk u)) a) →
  (∀ d, lists t' (wait_list d) ≡ₚ lists (tsk u) (wait_list d)) → inv L held (with_t t' u).
Proof.
  intros Hi Hs Hf Hsz Hw HW. apply inv_tasks; [done|done|by rewrite (frame_size _ _ Hf)|].
  eapply mwait_frame; [apply Hi| |done]. intros a. by rewrite (wmq_frame _ _ _ Hf).
Qed.

(** ** The tasks that wait *)

Lemma wait_state_list d : TLIST_BLOCKED (wait_state d) = Some (wait_list d).
Proof. by destruct d. Qed.

Lemma wait_list_state d st : TLIST_BLOCKED st = Some (wait_list d) → st = wait_state d.
Proof. by destruct d, st. Qed.

Lemma wait_state_blocked d : is_blocked_state (wait_state d) = true.
Proof. by destruct d. Qed.

Lemma wait_list_ready d : wait_list d ≠ g_readytorun ∧ wait_list d ≠ g_pendingtasks.
Proof. by destruct d. Qed.

Lemma wait_list_ne d d' : d' ≠ d → wait_list d' ≠ wait_list d.
Proof. by destruct d, d'. Qed.

Lemma waiting_once u L held d d' a :
  inv L held u → a ∈ lists (tsk u) (wait_list d) → d' ≠ d → a ∉ lists (tsk u) (wait_list d').
Proof.
  intros Hi Ha Hd Ha'. apply (wait_list_ne d d' Hd).
  exact (sc_disjoint idle _ a _ _ (sv_core _ _ (mv_sched _ _ _ _ Hi)) Ha' Ha).
Qed.

Lemma ready_not_waiting u L held r d :
  inv L held u → r ∈ lists (tsk u) g_readytorun → r ∉ lists (tsk u) (wait_list d).
Proof.
  intros Hi Hr Ha. apply (proj1 (wait_list_ready d)). symmetry.
  exact (sc_disjoint idle _ r _ _ (sv_core _ _ (mv_sched _ _ _ _ Hi)) Hr Ha).
Qed.

Lemma list_length_tasks t k : sched_core idle t → (length (lists t k) ≤ size (tasks t))%nat.
Proof.
  intros Hc. apply NoDup_dom_size; [apply Hc|]. apply Forall_forall. intros a Ha.
  destruct (sc_lookup idle _ a k Hc Ha) as (y & Hy & _). apply elem_of_dom. eauto.
Qed.

Lemma nwait_bound u L held d q y :
  inv L held u → msgqs (mdata u) !! q = Some y →
  0 ≤ nwait d y ≤ Z.of_nat (length (lists (tsk u) (wait_list d))) ∧ nwait d y ≤ 32767.
Proof.
  intros Hi Hy. rewrite (mw_count _ _ (mv_wait _ _ _ _ Hi) d q y Hy).
  pose proof (list_length_tasks (tsk u) (wait_list d) (sv_core _ _ (mv_sched _ _ _ _ Hi))) as H1.
  pose proof (mv_tasks _ _ _ _ Hi) as H2.
  assert (length (mwaiters (tsk u) d q) ≤ length (lists (tsk u) (wait_list d)))%nat by apply length_filter.
  lia.
Qed.

Lemma nwait_room u L held d q y r l :
  inv L held u → msgqs (mdata u) !! q = Some y → lists (tsk u) g_readytorun = r :: l →
  0 ≤ nwait d y < 32767.
Proof.
  intros Hi Hy Hl. pose proof (nwait_bound u L held d q y Hi Hy) as [Hb _].
  pose proof (sv_core _ _ (mv_sched _ _ _ _ Hi)) as Hc.
  assert (S (length (lists (tsk u) (wait_list d))) ≤ size (tasks (tsk u)))%nat.
  { apply (NoDup_dom_size (tasks (tsk u)) (r :: lists (tsk u) (wait_list d))).
    - constructor; [eapply ready_not_waiting; [done|rewrite Hl; set_solver]|apply Hc].
    - assert (∀ a k, a ∈ lists (tsk u) k → a ∈ dom (tasks (tsk u))) as Hd.
      { intros a k Ha. destruct (sc_lookup idle _ a k Hc Ha) as (z & Hz & _). apply elem_of_dom. eauto. }
      constructor; [apply (Hd r g_readytorun); rewrite Hl; set_solver|]. apply Forall_forall. eauto. }
  pose proof (mv_tasks _ _ _ _ Hi). lia.
Qed.

(** ** Blocking *)

(** What [mq_block] leaves. *)
Definition blocked_on u d q u' : Prop :=
  ∃ r l t', lists (tsk u) g_readytorun = r :: l ∧
    u' = with_t t' (with_d (upd_msgq (λ y, set_nwait d (nwait d y + 1) y) q (mdata u)) u) ∧
    frame (alter (set_pterrno OK ∘ set_msgwaitq (Some q)) r (tasks (tsk u))) t' ∧
    lists t' (wait_list d) = prio_insert (tasks (tsk u)) r (lists (tsk u) (wait_list d)) ∧
    lists t' g_pendingtasks = [] ∧
    lists t' g_readytorun = prio_merge (tasks (tsk u)) (lists (tsk u) g_pendingtasks) l ∧
    ∀ k, k ≠ g_pendingtasks → k ≠ g_readytorun → k ≠ wait_list d → lists t' k = lists (tsk u) k.

Lemma mq_block_ok u L held d q y r l xr :
  inv L held u → msgqs (mdata u) !! q = Some y → lists (tsk u) g_readytorun = r :: l →
  tasks (tsk u) !! r = Some xr → r ≠ idle →
  ∃ u', mq_block d (Some q) u = Some (pterrno xr, u') ∧ inv L held u' ∧ blocked_on u d q u'.
Proof.
  intros Hi Hy Hl Hxr Hne. pose proof (mv_sched _ _ _ _ Hi) as Hinv.
  assert (∀ d', r ∉ lists (tsk u) (wait_list d')) as Hno.
  { intros d'. eapply ready_not_waiting; [done|]. rewrite Hl. set_solver. }
  set (f := set_pterrno OK ∘ set_msgwaitq (Some q)).
  destruct (up_block_task_ok idle (upd f r (tsk u)) r l (f xr) (wait_state d) (wait_list d))
    as (t' & Hrun & Hinv' & Hf & Hpend & Hready & Hwl & Ho);
    [by apply inv_upd|done|simpl; by rewrite lookup_alter_eq, Hxr|done|by destruct d|by destruct d|].
  assert (∀ b, prio (alter f r (tasks (tsk u))) b = prio (tasks (tsk u)) b) as Hpr
    by (intros b; by apply prio_alter).
  cbn [upd tasks lists] in *.
  assert (lists t' (wait_list d) = prio_insert (tasks (tsk u)) r (lists (tsk u) (wait_list d))) as HW.
  { rewrite Hwl. unfold blocked_insert. destruct d; cbn; by apply prio_insert_ext. }
  rewrite (prio_merge_ext _ (tasks (tsk u))) in Hready by done.
  eexists. split; [|split; [|exists r, l, t'; by do 6 (split; [done|])]].
  - unfold mq_block. tread ls_this_task. twrite ls_set. dwrite msgq_set_Some.
    erewrite K_bind_Some
      by (eapply tcb_read, ls_get; simpl; rewrite lookup_alter_eq, Hxr; reflexivity).
    cbv beta. twrite ls_set. mnorm. rewrite upd_upd.
    by erewrite K_bind_Some by (eapply on_tcb_Some, Hrun).
  - pose proof (nwait_bound _ _ _ d _ _ Hi Hy) as Hb. apply inv_msgq; [done|done|done
      |by rewrite (frame_size _ _ Hf), size_alter|].
    eapply mwait_block; [apply Hi|exact Hy|apply Hno|intros; apply Hno| | | |].
    + intros b. rewrite (wmq_frame _ _ _ Hf). apply wmq_alter; [by eexists|done].
    + rewrite HW. apply prio_insert_perm.
    + intros d' Hd. apply Ho; [apply wait_list_ready..|by apply wait_list_ne].
    + pose proof (nwait_room u L held d q y r l Hi Hy Hl). apply s16_small. lia.
Qed.

(** ** Leaving the list of waiters *)

(** The task [a] that waits for [q] is made ready, [f] being applied to its TCB. *)
Definition unblocked u d q a (f : tcb_data → tcb_data) u' : Prop :=
  ∃ t' W1 W2 r l x xr,
    u' = with_t t' (with_d (upd_msgq (λ y, set_nwait d (nwait d y - 1) y) q (mdata u)) u) ∧
    frame (alter f a (tasks (tsk u))) t' ∧
    tasks (tsk u) !! a = Some x ∧ task_state x = wait_state d ∧ msgwaitq x = Some q ∧
    lists (tsk u) (wait_list d) = W1 ++ a :: W2 ∧ lists t' (wait_list d) = W1 ++ W2 ∧
    lists (tsk u) g_readytorun = r :: l ∧ r ≠ a ∧ tasks (tsk u) !! r = Some xr ∧
    (∀ k, k ≠ wait_list d → lists t' k =
      if decide (k = if must_wait xr (sched_priority x) then g_pendingtasks else g_readytorun)
      then prio_insert (tasks (tsk u)) a (lists (tsk u) k) else lists (tsk u) k) ∧
    ∃ A B, mwaiters (tsk u) d q = A ++ a :: B ∧ (a ∉ A) ∧ mwaiters t' d q = A ++ B ∧
      ∀ d' q', (d', q') ≠ (d, q) → mwaiters t' d' q' = mwaiters (tsk u) d' q'.

Lemma unblock_ok u L held d q y a x f :
  inv L held u → msgqs (mdata u) !! q = Some y → tasks (tsk u) !! a = Some x →
  task_state x = wait_state d → msgwaitq x = Some q →
  (∀ x, task_state (f x) = task_state x ∧ sched_priority (f x) = sched_priority x ∧
        lockcount (f x) = lockcount x) →
  ∃ b t', up_unblock_task a (upd f a (tsk u)) = Some (b, t') ∧ 0 < nwait d y ∧
    let u' := with_t t' (with_d (upd_msgq (λ y, set_nwait d (nwait d y - 1) y) q (mdata u)) u) in
    inv L held u' ∧ unblocked u d q a f u'.
Proof.
  intros Hi Hy Hx Hst Hwx Hf. pose proof (mv_sched _ _ _ _ Hi) as Hinv.
  assert (a ∈ lists (tsk u) (wait_list d)) as Ha.
  { apply (sc_listed _ _ (sv_core _ _ Hinv)). exists x. by rewrite Hst, wait_state_list. }
  destruct (up_unblock_task_ok idle (upd f a (tsk u)) a (f x) (wait_list d))
    as (r & l & xr & W1 & W2 & t' & Hl & Hxr & HW & Hrun & Hinv' & Hfr & Hlists);
    [by apply inv_upd|simpl; by rewrite lookup_alter_eq, Hx
    |rewrite (proj1 (Hf x)), Hst; by destruct d..|].
  rewrite (proj1 (proj2 (Hf x))) in Hlists. cbn [upd tasks lists] in *.
  assert (r ≠ a) as Hne.
  { intros ->. eapply (ready_not_waiting u); [done| |exact Ha]. rewrite Hl. set_solver. }
  rewrite lookup_alter_ne in Hxr by done.
  assert (wmq (tasks (tsk u)) a = Some q) as Hwa by (unfold wmq; by rewrite Hx).
  assert (∀ k, k ≠ wait_list d → lists t' k =
      if decide (k = if must_wait xr (sched_priority x) then g_pendingtasks else g_readytorun)
      then prio_insert (tasks (tsk u)) a (lists (tsk u) k) else lists (tsk u) k) as Hlists'.
  { intros k Hk. rewrite Hlists, decide_False by done. case_decide; [|done].
    apply prio_insert_ext. intros b. apply prio_alter. intros z. apply Hf. }
  assert (lists t' (wait_list d) = W1 ++ W2) as HW' by (by rewrite Hlists, decide_True).
  destruct (mwait_leave (tsk u) t' _ d q y a W1 W2 (mv_wait _ _ _ _ Hi) Hy Hwa HW)
    as (Hpos & Hok & Hws).
  { rewrite <- HW. apply (sv_core _ _ Hinv). }
  { intros d' Hd. by eapply waiting_once. }
  { intros b Hb. rewrite (wmq_frame _ _ _ Hfr). unfold wmq. by rewrite lookup_alter_ne. }
  { done. }
  { intros d' Hd. rewrite Hlists' by (by apply wait_list_ne). rewrite decide_False; [done|].
    case_match; apply wait_list_ready. }
  { by eapply nwait_bound. }
  do 2 eexists. split; [exact Hrun|]. split; [done|]. split.
  - apply inv_msgq; [done|done|done|by rewrite (frame_size _ _ Hfr), size_alter|done].
  - exists t', W1, W2, r, l, x, xr. by do 11 (split; [done|]).
Qed.

Lemma wait_search_ok t n d q l1 l2 :
  sched_core idle t → lists t (wait_list d) = l1 ++ l2 → (length l2 ≤ n)%nat →
  mq_wait_search n d (Some q) (hd_or NULL l2) t =
    Some (hd_or NULL (waiting_for (wmq (tasks t)) l2 q), t).
Proof.
  intros Hc. revert n l1. induction l2 as [|a l2 IH]; intros n l1 Hl Hn; [by destruct n|].
  destruct n as [|n]; [simpl in Hn; lia|].
  assert (a ∈ lists t (wait_list d)) as Ha by (rewrite Hl; set_solver).
  destruct (sc_lookup idle t a _ Hc Ha) as (x & Hx & _). cbn [mq_wait_search hd_or].
  krun ls_get. rewrite waiting_for_cons.
  assert (wmq (tasks t) a = msgwaitq x) as -> by (unfold wmq; by rewrite Hx).
  case_bool_decide as Hw; [by rewrite decide_True|]. rewrite decide_False by done.
  pose proof (sc_nodup _ _ Hc (wait_list d)) as Hnd. rewrite Hl in Hnd. nodup_facts.
  krun (ls_flink (wait_list d) a t l1 l2).
  apply (IH n (l1 ++ [a])); [by rewrite Hl, <- app_assoc|simpl in Hn; lia].
Qed.

Lemma mq_unblock_none u L held d q y :
  inv L held u → msgqs (mdata u) !! q = Some y → mwaiters (tsk u) d q = [] →
  mq_unblock d (Some q) u = Some (tt, u).
Proof.
  intros Hi Hy Hw. unfold mq_unblock. dread msgq_get_Some.
  rewrite (mw_count _ _ (mv_wait _ _ _ _ Hi) d q y Hy), Hw. done.
Qed.

(** The first waiter, which has the highest priority, is made ready. *)
Lemma mq_unblock_some u L held d q y a ws :
  inv L held u → msgqs (mdata u) !! q = Some y → mwaiters (tsk u) d q = a :: ws →
  ∃ u', mq_unblock d (Some q) u = Some (tt, u') ∧ inv L held u' ∧
    unblocked u d q a (set_msgwaitq NULL) u'.
Proof.
  intros Hi Hy Hws. pose proof (mv_sched _ _ _ _ Hi) as Hinv. pose proof (sv_core _ _ Hinv) as Hc.
  assert (a ∈ mwaiters (tsk u) d q) as Ha by (rewrite Hws; set_solver).
  apply list_elem_of_filter in Ha as [Hwa Ha].
  destruct (sc_lookup idle _ a _ Hc Ha) as (x & Hx & Hst%wait_list_state).
  assert (msgwaitq x = Some q) as Hw by (unfold wmq in Hwa; by rewrite Hx in Hwa).
  destruct (unblock_ok u L held d q y a x (set_msgwaitq NULL) Hi Hy Hx Hst Hw)
    as (b & t' & Hrun & Hpos & Hi' & Hub); [done|].
  eexists. split; [|by split]. unfold mq_unblock. dread msgq_get_Some.
  rewrite (proj2 (Z.ltb_lt _ _) Hpos). tread ls_count. tread ls_head.
  erewrite K_bind_Some
    by (eapply tcb_read, (wait_search_ok (tsk u) _ d q []); [done|done|by apply list_length_tasks]).
  cbv beta. change (waiting_for _ _ q) with (mwaiters (tsk u) d q). rewrite Hws. cbn [hd_or].
  krun kassert_Some. krun klift_Some. twrite ls_set. dwrite msgq_set_Some.
  by erewrite K_bind_Some by (eapply on_tcb_Some, Hrun).
Qed.

(** ** Interrupted waits *)

Lemma wait_irq_ok u L held d a x e :
  inv L held u → tasks (tsk u) !! a = Some x → task_state x = wait_state d →
  ∃ q u', msgwaitq x = Some q ∧ nxmq_wait_irq a e u = Some (tt, u') ∧ inv L held u' ∧
    unblocked u d q a (set_pterrno e ∘ set_msgwaitq NULL) u'.
Proof.
  intros Hi Hx Hst. pose proof (mv_sched _ _ _ _ Hi) as Hinv.
  assert (a ∈ lists (tsk u) (wait_list d)) as Ha.
  { apply (sc_listed _ _ (sv_core _ _ Hinv)). exists x. by rewrite Hst, wait_state_list. }
  destruct (mw_live _ _ (mv_wait _ _ _ _ Hi) d a Ha) as (q & Hwa & [y Hy]%elem_of_dom).
  assert (msgwaitq x = Some q) as Hw by (unfold wmq in Hwa; by rewrite Hx in Hwa).
  destruct (unblock_ok u L held d q y a x (set_pterrno e ∘ set_msgwaitq NULL) Hi Hy Hx Hst Hw)
    as (b & t' & Hrun & Hpos & Hi' & Hub); [done|].
  eexists q, _. split; [done|]. split; [|by split]. unfold nxmq_wait_irq. tread ls_get.
  assert (waiting_side (task_state x) = Some d) as -> by (rewrite Hst; by destruct d).
  cbn. rewrite Hw. krun kassert_Some. twrite ls_set.
  erewrite K_bind_Some by (eapply data_read, msgq_get_Some; exact Hy). cbv beta.
  rewrite (proj2 (Z.ltb_lt _ _) Hpos). krun kassert_Some. dwrite msgq_set_Some. twrite ls_set.
  mnorm. rewrite upd_upd. by erewrite K_bind_Some by (eapply on_tcb_Some, Hrun).
Qed.

Lemma wait_irq_quiet u a x e :
  tasks (tsk u) !! a = Some x → (∀ d, task_state x ≠ wait_state d) →
  nxmq_wait_irq a e u = Some (tt, u).
Proof.
  intros Hx Hst. unfold nxmq_wait_irq. tread ls_get.
  destruct (task_state x) eqn:Hs; try done; [by destruct (Hst NotEmpty)|by destruct (Hst NotFull)].
Qed.
End wait.
