(* ===== verification/MqView.v ===== *)
(** * MqView: who waits for what

    The operations as changes of the sets of waiting tasks and of the codes they
    are woken with, and the interface to the signals. *)

From stdpp Require Import sorting.
From S2P Require Import Prelude Queue QueueRefine Sched SchedSpec SchedInv SchedOps Semaphore SemSpec SemOps MQueue MqSpec MqInv MqWait.
Local Open Scope Z_scope.

(** ** Changes *)

Section view.
Implicit Types (t : lsched) (d : side) (a q r : addr).

Definition same_waits t t' : Prop :=
  (∀ d q a, a ∈ mwaiters t' d q ↔ a ∈ mwaiters t d q) ∧ ∀ a, werr (tasks t') a = werr (tasks t) a.

(** Some waits end with an error. *)
Definition left_waits t t' : Prop :=
  (∀ d q a, a ∈ mwaiters t' d q → a ∈ mwaiters t d q ∧ werr (tasks t') a = werr (tasks t) a) ∧
  (∀ a, (∀ d q, a ∉ mwaiters t d q) → werr (tasks t') a = werr (tasks t) a) ∧
  (∀ d q a, a ∈ mwaiters t d q → a ∉ mwaiters t' d q → OK < werr (tasks t') a).

(** The wait of [a] for [q] ends. *)
Definition woken t d q a t' : Prop :=
  a ∈ mwaiters t d q ∧
  (∀ d' q' b, b ∈ mwaiters t' d' q' ↔ b ∈ mwaiters t d' q' ∧ b ≠ a) ∧
  ∀ b, werr (tasks t') b = werr (tasks t) b.

(** If there is a task that waits for [q], the first is woken. *)
Definition wakes t d q t' : Prop :=
  mwaiters t d q = [] ∧ same_waits t t' ∨
  ∃ a ws, mwaiters t d q = a :: ws ∧ woken t d q a t'.

(** The task [r] starts to wait. *)
Definition starts t d q r t' : Prop :=
  (∀ d' q', r ∉ mwaiters t d' q') ∧
  (∀ d' q' b, b ∈ mwaiters t' d' q' ↔ b ∈ mwaiters t d' q' ∨ (d', q', b) = (d, q, r)) ∧
  ∀ b, werr (tasks t') b = if decide (b = r) then OK else werr (tasks t) b.

#[global] Instance same_waits_refl : Reflexive same_waits.
Proof. by intros t. Qed.

#[global] Instance same_waits_trans : Transitive same_waits.
Proof.
  intros t1 t2 t3 [H1 E1] [H2 E2]. split; [|congruence]. intros d q a. by rewrite H2, H1.
Qed.

#[global] Instance left_waits_refl : Reflexive left_waits.
Proof. intros t. split_and!; [done|done|]. intros d q a ? ?. done. Qed.

Lemma same_left t1 t2 t3 : same_waits t1 t2 → left_waits t2 t3 → left_waits t1 t3.
Proof.
  intros [H1 E1] (H2 & E2 & E3). split_and!.
  - intros d q a Ha. destruct (H2 d q a Ha). rewrite <- H1. split; congruence.
  - intros a Ha. rewrite E2; [apply E1|]. intros d q. rewrite H1. apply Ha.
  - intros d q a. rewrite <- H1. apply E3.
Qed.

Lemma wakes_same t1 t2 t3 d q : wakes t1 d q t2 → same_waits t2 t3 → wakes t1 d q t3.
Proof.
  intros [[Hw Hs]|(a & ws & Hw & Ha & H1 & E1)] [H2 E2].
  - left. split; [done|]. by transitivity t2.
  - right. exists a, ws. split; [done|]. split; [done|]. split; [|congruence].
    intros d' q' b. by rewrite H2.
Qed.

Lemma elem_mwaiters t d q a :
  a ∈ mwaiters t d q ↔ wmq (tasks t) a = Some q ∧ a ∈ lists t (wait_list d).
Proof. unfold mwaiters, waiting_for. by rewrite list_elem_of_filter. Qed.

Lemma same_waits_frame t T t' :
  frame T t' → (∀ a, wmq T a = wmq (tasks t) a) → (∀ a, werr T a = werr (tasks t) a) →
  (∀ d, lists t' (wait_list d) ≡ₚ lists t (wait_list d)) → same_waits t t'.
Proof.
  intros Hf Hw He HW. split.
  - intros d q a. by rewrite !elem_mwaiters, (wmq_frame _ _ _ Hf), Hw, HW.
  - intros a. by rewrite (werr_frame _ _ _ Hf).
Qed.
End view.

Section ops.
Context `{Config} `{MqConfig} (idle : addr).
Implicit Types (u : mqsys lsched) (t : lsched) (L : mlist → list addr) (held : gset addr)
  (d : side) (a q r : addr).
Abbreviation inv := (mq_inv idle).

Lemma blocked_starts u L held d q u' r l :
  inv L held u → lists (tsk u) g_readytorun = r :: l → is_Some (tasks (tsk u) !! r) →
  blocked_on u d q u' → starts (tsk u) d q r (tsk u').
Proof.
  intros Hi Hl Hx (r' & l' & t' & Hl' & -> & Hf & HW & _ & _ & Ho). simpl.
  rewrite Hl in Hl'. injection Hl' as <- <-.
  assert (∀ d', r ∉ lists (tsk u) (wait_list d')) as Hno.
  { intros d'. eapply ready_not_waiting; [done|]. rewrite Hl. set_solver. }
  split; [|split].
  - intros d' q'. rewrite elem_mwaiters. naive_solver.
  - intros d' q' b. rewrite !elem_mwaiters, (wmq_frame _ _ _ Hf), (wmq_alter _ _ _ (Some q)) by done.
    assert (b ∈ lists t' (wait_list d') ↔ b ∈ lists (tsk u) (wait_list d') ∨ (d' = d ∧ b = r)) as ->.
    { destruct (decide (d' = d)) as [->|Hd]; [rewrite HW, elem_of_prio_insert; naive_solver|].
      rewrite Ho; [naive_solver|apply wait_list_ready..|by apply wait_list_ne]. }
    unfold set_wait. case_decide as Hb; [subst|naive_solver].
    specialize (Hno d'). split; [|naive_solver]. intros [[= <-] [?|[-> _]]]; [done|by right].
  - intros b. rewrite (werr_frame _ _ _ Hf). destruct Hx as [x Hx]. case_decide as Hb.
    + subst. unfold werr. by rewrite lookup_alter_eq, Hx.
    + by apply werr_alter_ne.
Qed.

Lemma unblocked_waits u L held d q a f u' :
  inv L held u → unblocked u d q a f u' →
  a ∈ mwaiters (tsk u) d q ∧
  (∀ d' q' b, b ∈ mwaiters (tsk u') d' q' ↔ b ∈ mwaiters (tsk u) d' q' ∧ b ≠ a) ∧
  (∀ b, werr (tasks (tsk u')) b = werr (alter f a (tasks (tsk u))) b).
Proof.
  intros Hi (t' & W1 & W2 & r & l & x & xr & -> & Hf & Hx & Hst & Hw & HW & HW' & _ & _ & _ & _ &
    A & B & HA & HnA & HB & Ho). simpl.
  pose proof (sc_nodup _ _ (sv_core _ _ (mv_sched _ _ _ _ Hi)) (wait_list d)) as Hnd.
  assert (a ∈ lists (tsk u) (wait_list d)) as Ha by (rewrite HW; set_solver).
  split; [rewrite HA; set_solver|]. split; [|intros b; by apply werr_frame].
  assert (NoDup (mwaiters (tsk u) d q)) as HndA by (by apply NoDup_filter). rewrite HA in HndA. nodup_facts.
  intros d' q' b. destruct (decide ((d', q') = (d, q))) as [[= -> ->]|Hne].
  - rewrite HA, HB. set_solver.
  - rewrite Ho by done. split; [|naive_solver]. intros Hb. split; [done|]. intros ->.
    apply elem_mwaiters in Hb as [Hq Hb]. apply Hne. f_equal.
    + destruct (decide (d' = d)) as [|Hd]; [done|]. by destruct (waiting_once idle _ _ _ _ _ a Hi Ha Hd).
    + unfold wmq in Hq. rewrite Hx in Hq. congruence.
Qed.

Lemma unblocked_woken u L held d q a u' :
  inv L held u → unblocked u d q a (set_msgwaitq NULL) u' → woken (tsk u) d q a (tsk u').
Proof.
  intros Hi Hu. destruct (unblocked_waits _ _ _ _ _ _ _ _ Hi Hu) as (Ha & Hb & He).
  split; [done|]. split; [done|]. intros b. rewrite He. by apply werr_alter_same.
Qed.

Lemma unblocked_left u L held d q a e u' :
  inv L held u → unblocked u d q a (set_pterrno e ∘ set_msgwaitq NULL) u' → OK < e →
  left_waits (tsk u) (tsk u').
Proof.
  intros Hi Hu He. destruct (unblocked_waits _ _ _ _ _ _ _ _ Hi Hu) as (Ha & Hb & Hw).
  destruct Hu as (t' & _ & _ & _ & _ & x & _ & -> & _ & Hx & _). split_and!.
  - intros d' q' b [Hb' Hne]%Hb. split; [done|]. rewrite Hw. by apply werr_alter_ne.
  - intros b Hb'. rewrite Hw. apply werr_alter_ne. intros ->. by apply (Hb' d q).
  - intros d' q' b Hin Hout. rewrite Hb in Hout. destruct (decide (b = a)) as [->|]; [|tauto].
    rewrite Hw. unfold werr. by rewrite lookup_alter_eq, Hx.
Qed.
End ops.

(** ** What stays *)

(** The limits of a queue. *)
Definition q_conf (y : mqueue_inode_s) := (maxmsgs y, maxmsgsize y).

(** The notification of a queue that is sent as a signal: the task and the signal. *)
Definition note (y : mqueue_inode_s) : option (Z * Z) :=
  if bool_decide (ntmqdes y = NULL) || negb (sigev_notify (ntevent y) =? SIGEV_SIGNAL) then None
  else Some (ntpid y, sigev_signo (ntevent y)).

(** No notification is new. *)
Definition notes_kept (Q Q' : mem mqueue_inode_s) : Prop :=
  ∀ q y' n, Q' !! q = Some y' → note y' = Some n → ∃ y, Q !! q = Some y ∧ note y = Some n.

#[global] Instance notes_kept_preorder : PreOrder notes_kept.
Proof.
  split; [by intros Q q y n ? ?; exists y|]. intros Q1 Q2 Q3 H1 H2 q y3 n H3 Hn.
  destruct (H2 q y3 n H3 Hn) as (y2 & Hy2 & Hn2). by apply (H1 q y2 n).
Qed.

Lemma notes_upd f q (Q : mem mqueue_inode_s) :
  (∀ y, note (f y) = note y ∨ note (f y) = None) → notes_kept Q (alter f q Q).
Proof.
  intros Hf b y' n Hy Hn. destruct (decide (q = b)) as [->|]; [|rewrite lookup_alter_ne in Hy by done; eauto].
  rewrite lookup_alter_eq in Hy. destruct (Q !! b) as [y|]; [|done]. injection Hy as <-. exists y.
  split; [done|]. destruct (Hf y) as [Heq|Heq]; congruence.
Qed.

Lemma notes_same {B} (g : mqueue_inode_s → B) (Q Q' : mem mqueue_inode_s) :
  (∀ x y, g x = g y → note x = note y) → g <$> Q' = g <$> Q → notes_kept Q Q'.
Proof.
  intros Hg HQ q y' n Hy Hn. destruct (same_data_lookup_r g Q Q' q y' HQ Hy) as (y & Hy0 & E).
  exists y. split; [done|]. by rewrite (Hg _ _ E).
Qed.

Record mq_same (u u' : mqsys lsched) : Prop := {
  ms_tasks : dom (tasks (tsk u')) = dom (tasks (tsk u));
  ms_hash : g_pidhash (msys u') = g_pidhash (msys u);
  ms_des : mqdess (mdata u') = mqdess (mdata u);
  ms_conf : q_conf <$> msgqs (mdata u') = q_conf <$> msgqs (mdata u);
  ms_notes : notes_kept (msgqs (mdata u)) (msgqs (mdata u'));
}.

#[global] Instance mq_same_preorder : PreOrder mq_same.
Proof.
  split; [by intros u|]. intros u1 u2 u3 [A1 B1 C1 D1 E1] [A2 B2 C2 D2 E2].
  split; [congruence..|by etransitivity].
Qed.

(** The letters in the queues and the messages in the pools. *)
Definition box (L : mlist → list addr) (u : mqsys lsched) (q : addr) : list letter :=
  letters (msgs (mdata u)) (L (MQueue q)).

(** The running task and its lock count. *)
Definition runs (u : mqsys lsched) (r : addr) (c : Z) : Prop :=
  ∃ l x, lists (tsk u) g_readytorun = r :: l ∧ tasks (tsk u) !! r = Some x ∧ lockcount x = c.

(** What the delivery of a signal may do here: interrupt waits, and nothing while
    the scheduler is locked to the running task. *)
Record sig_effect (u u' : mqsys lsched) : Prop := {
  se_data : ∃ Q', mdata u' = set_msgqs Q' (mdata u) ∧ q_keep <$> Q' = q_keep <$> msgqs (mdata u) ∧
            notes_kept (msgqs (mdata u)) Q';
  se_waits : left_waits (tsk u) (tsk u');
  se_tasks : dom (tasks (tsk u')) = dom (tasks (tsk u));
  se_hash : g_pidhash (msys u') = g_pidhash (msys u);
  se_runs r c : runs u r c → 0 < c → runs u' r c;
}.

(** The interface to sched/signal.  [nxsig_mqnotempty] returns some code, an error for
    instance when the signal number is bad or there is no such task
    (sig_mqnotempty.c, sig_dispatch.c). *)
Class SignalsOk `{MqConfig} (idle : addr) (sig : Z → Z → Z → K (mqsys lsched) Z) : Prop :=
  signals_ok p n v L held u : mq_inv idle L held u →
    ∃ ret u', sig p n v u = Some (ret, u') ∧ mq_inv idle L held u' ∧ sig_effect u u'.

(** With the process ids [h], signal [n] can be sent to task [p] without an error. *)
Definition delivers `{MqConfig} (idle : addr) (sig : Z → Z → Z → K (mqsys lsched) Z)
    (h : list pidhash_s) (p n : Z) : Prop :=
  ∀ v L held u ret u', mq_inv idle L held u → g_pidhash (msys u) = h →
    sig p n v u = Some (ret, u') → 0 ≤ ret.

(** In a build with assertions, where [nxmq_do_send] asserts that there is no error, the
    notifications that are attached to the queues can be sent. *)
Definition notes_ok `{Config} `{MqConfig} (idle : addr) (sig : Z → Z → Z → K (mqsys lsched) Z)
    (u : mqsys lsched) : Prop :=
  CONFIG_DEBUG_ASSERTIONS = true → ∀ q y p n, msgqs (mdata u) !! q = Some y → note y = Some (p, n) →
    delivers idle sig (g_pidhash (msys u)) p n.

Lemma notes_ok_same `{Config} `{MqConfig} idle sig u u' :
  mq_same u u' → notes_ok idle sig u → notes_ok idle sig u'.
Proof.
  intros [_ Hh _ _ Hn] Hok HD q y p n Hy Hnote. destruct (Hn q y _ Hy Hnote) as (y0 & Hy0 & Hn0).
  rewrite Hh. by apply (Hok HD q y0).
Qed.

Section same.
Context `{Config} `{MqConfig} (idle : addr).
Implicit Types (u : mqsys lsched) (t : lsched) (L : mlist → list addr) (held : gset addr)
  (d : side) (a q r : addr).
Abbreviation inv := (mq_inv idle).

Lemma conf_upd f q (Q : mem mqueue_inode_s) :
  (∀ y, q_conf (f y) = q_conf y) → q_conf <$> alter f q Q = q_conf <$> Q.
Proof.
  intros Hf. apply map_eq. intros b. rewrite !lookup_fmap.
  destruct (decide (q = b)) as [->|]; [|by rewrite lookup_alter_ne].
  rewrite lookup_alter_eq. destruct (Q !! b); simpl; [by rewrite Hf|done].
Qed.

Lemma keep_conf (Q Q' : mem mqueue_inode_s) :
  q_keep <$> Q' = q_keep <$> Q → q_conf <$> Q' = q_conf <$> Q.
Proof. intros HQ. eapply same_data_weaken; [exact HQ|]. intros x y. unfold q_keep, q_conf. congruence. Qed.

Lemma sig_same u u' : sig_effect u u' → mq_same u u'.
Proof.
  intros [(Q' & Hd & HQ & Hn) _ Ht Hp _]. split; [done|done|by rewrite Hd|..]; rewrite Hd; [|done].
  by apply keep_conf.
Qed.

Lemma sig_box L u u' q : sig_effect u u' → box L u' q = box L u q.
Proof. intros [(Q' & Hd & _) _ _ _ _]. unfold box. by rewrite Hd. Qed.

Lemma sig_refl u : sig_effect u u.
Proof.
  split; [|done|done|done|done]. exists (msgqs (mdata u)). split; [by destruct (mdata u)|done].
Qed.

Lemma inv_runs u L held : inv L held u → ∃ r c, runs u r c ∧ 0 ≤ c ≤ MAX_LOCK_COUNT.
Proof.
  intros Hi. pose proof (sv_core _ _ (mv_sched _ _ _ _ Hi)) as Hc.
  destruct (ready_head idle _ Hc) as (r & l & x & Hl & Hx & _).
  exists r, (lockcount x). split; [by exists l, x|by eapply (sc_lock _ _ Hc)].
Qed.

Lemma blocked_same_mq u d q u' : blocked_on u d q u' → mq_same u u' ∧ ∀ L b, box L u' b = box L u b.
Proof.
  intros (r & l & t' & _ & -> & Hf & _). split; [|done]. split; simpl; [|done|done|by apply conf_upd|].
  - by rewrite (frame_dom _ _ Hf), dom_alter_L.
  - apply notes_upd. intros y. left. by destruct d.
Qed.

Lemma unblocked_same u d q a f u' : unblocked u d q a f u' → mq_same u u' ∧ ∀ L b, box L u' b = box L u b.
Proof.
  intros (t' & _ & _ & _ & _ & _ & _ & -> & Hf & _). split; [|done].
  split; simpl; [|done|done|by apply conf_upd|].
  - by rewrite (frame_dom _ _ Hf), dom_alter_L.
  - apply notes_upd. intros y. left. by destruct d.
Qed.

(** A task that is made ready does not pre-empt one that has the scheduler locked. *)
Lemma unblocked_runs u d q a f u' r c :
  unblocked u d q a f u' → runs u r c → 0 < c → runs u' r c.
Proof.
  intros (t' & W1 & W2 & r' & l & x & xr & -> & Hf & Hx & _ & _ & _ & _ & Hl & Hne & Hxr & Hlists & _).
  intros (l' & xr' & Hl' & Hxr' & <-) Hpos. rewrite Hl in Hl'. injection Hl' as <- <-.
  assert (xr' = xr) as -> by congruence. unfold runs. simpl.
  destruct (frame_lookup _ _ r' xr Hf) as (xr' & Hxr2 & Hk); [by rewrite lookup_alter_ne|].
  assert (∃ l', lists t' g_readytorun = r' :: l') as [l2 Hl2].
  { rewrite Hlists by (symmetry; apply wait_list_ready). rewrite Hl.
    unfold must_wait. rewrite (proj2 (Z.ltb_lt _ _) Hpos). cbn [andb].
    destruct (Z.ltb_spec (sched_priority xr) (sched_priority x)) as [Hlt|Hle];
      [rewrite decide_False by done; eauto|]. rewrite decide_True by done. simpl.
    rewrite (prio_lookup _ _ _ Hxr), (prio_lookup _ _ _ Hx), (proj2 (Z.leb_le _ _) Hle). eauto. }
  exists l2, xr'. split; [done|]. split; [done|]. by injection Hk.
Qed.

Lemma unblocked_sig u L held d q a e u' :
  inv L held u → unblocked u d q a (set_pterrno e ∘ set_msgwaitq NULL) u' → OK < e → sig_effect u u'.
Proof.
  intros Hi Hu He. split.
  - pose proof (ms_notes _ _ (proj1 (unblocked_same _ _ _ _ _ _ Hu))) as Hn.
    destruct Hu as (t' & _ & _ & _ & _ & _ & _ & -> & _). simpl in *. eexists. split; [done|]. split; [|done].
    apply map_eq. intros b. rewrite !lookup_fmap.
    destruct (decide (q = b)) as [->|]; [|by rewrite lookup_alter_ne].
    rewrite lookup_alter_eq. by destruct (_ !! b).
  - by eapply unblocked_left.
  - by destruct (unblocked_same _ _ _ _ _ _ Hu) as [[? _ _ _ _] _].
  - by destruct (unblocked_same _ _ _ _ _ _ Hu) as [[_ ? _ _ _] _].
  - intros r c. by eapply unblocked_runs.
Qed.

(** ** The scheduler lock *)

Lemma lock_ok_mq u L held r c :
  inv L held u → runs u r c → c < MAX_LOCK_COUNT →
  ∃ t', sched_lock false (tsk u) = Some (OK, t') ∧ inv L held (with_t t' u) ∧
    runs (with_t t' u) r (c + 1) ∧ same_waits (tsk u) t' ∧ mq_same u (with_t t' u) ∧
    ∀ d q, mwaiters t' d q = mwaiters (tsk u) d q.
Proof.
  intros Hi (l & x & Hl & Hx & <-) Hc. pose proof (mv_sched _ _ _ _ Hi) as Hinv.
  destruct (lock_sched_ok idle (tsk u) r l x Hinv Hl Hx Hc) as (t' & Hrun & Hinv' & Hr' & Ho & Hl').
  assert (∀ a, wmq (tasks t') a = wmq (tasks (tsk u)) a ∧ werr (tasks t') a = werr (tasks (tsk u)) a) as Hw.
  { intros a. unfold wmq, werr.
    destruct (decide (a = r)) as [->|]; [by rewrite Hr', Hx|by rewrite Ho]. }
  assert (dom (tasks t') = dom (tasks (tsk u))) as Hd.
  { apply set_eq. intros a. rewrite !elem_of_dom.
    destruct (decide (a = r)) as [->|]; [rewrite Hr', Hx; by split; eexists|by rewrite Ho]. }
  exists t'. split; [done|]. split; [|split; [|split; [|split]]].
  - apply inv_tasks; [done|done|by rewrite <- !size_dom, Hd|].
    eapply mwait_frame; [apply Hi|apply Hw|intros; by rewrite Hl'].
  - exists l, (set_lockcount (lockcount x + 1) x). simpl. by rewrite Hl'.
  - split; [|apply Hw]. intros d q a. rewrite !elem_mwaiters, Hl'. by rewrite (proj1 (Hw a)).
  - by split.
  - intros d q. apply mwaiters_ext; [apply Hw|by rewrite Hl'].
Qed.

Lemma unlock_ok_mq u L held r c :
  inv L held u → runs u r c →
  ∃ b t', sched_unlock false (tsk u) = Some ((OK, b), t') ∧ inv L held (with_t t' u) ∧
    (1 < c → runs (with_t t' u) r (c - 1)) ∧ same_waits (tsk u) t' ∧ mq_same u (with_t t' u).
Proof.
  intros Hi (l & x & Hl & Hx & <-). pose proof (mv_sched _ _ _ _ Hi) as Hinv.
  destruct (unlock_sched_ok idle (tsk u) r l x Hinv Hl Hx)
    as (b & t' & Hrun & Hinv' & Hf & Hmore & _ & Ho).
  set (f := set_lockcount (0 `max` (lockcount x - 1))) in *.
  assert (∀ d, lists t' (wait_list d) = lists (tsk u) (wait_list d)) as HW.
  { intros d. apply Ho; apply wait_list_ready. }
  exists b, t'. split; [done|]. split; [|split; [|split]].
  - eapply inv_sched_frame; [done|done|exact Hf|apply size_alter|intros; by apply wmq_alter_same|].
    intros d. by rewrite HW.
  - intros Hc. destruct (Hmore Hc) as [_ Hls].
    destruct (frame_lookup _ _ r (f x) Hf) as (y & Hy & Hk); [by rewrite lookup_alter_eq, Hx|].
    exists l, y. simpl. split; [by rewrite Hls|]. split; [done|].
    assert (lockcount y = 0 `max` (lockcount x - 1)) as -> by (by injection Hk). lia.
  - eapply same_waits_frame; [exact Hf|intros; by apply wmq_alter_same|intros; by apply werr_alter_same|].
    intros d. by rewrite HW.
  - split; simpl; [|done..]. by rewrite (frame_dom _ _ Hf), dom_alter_L.
Qed.
End same.
