(* ===== verification/MqData.v ===== *)
(** * MqData: taking, putting, allocating and releasing messages

    What the operations on message structures do to the lists and to the letters in
    the queues. *)

From stdpp Require Import sorting.
From S2P Require Import Prelude Queue QueueRefine Sched SchedSpec SchedInv Semaphore SemSpec SemOps MQueue MqSpec MqInv.
Import Sq SqSpec.
Local Open Scope Z_scope.

(** The fields of a queue that operations on messages keep. *)
Definition d_keep (y : mqueue_inode_s) :=
  (maxmsgs y, maxmsgsize y, nwaitnotfull y, nwaitnotempty y, (ntmqdes y, ntpid y, ntevent y)).

Definition des_part (d : mq_data) := (mqdess d, g_desfree d, desblocks d, g_desalloc d, tg_msgdesq d).

Record data_same (d d' : mq_data) : Prop := {
  ds_des : des_part d' = des_part d;
  ds_keep : d_keep <$> msgqs d' = d_keep <$> msgqs d;
}.

#[global] Instance data_same_preorder : PreOrder data_same.
Proof. split; [by intros d|]. intros d1 d2 d3 [A1 B1] [A2 B2]. split; congruence. Qed.

(** The messages [l] carry the same. *)
Definition same_msgs (l : list addr) (m m' : mem mqueue_msg_s) : Prop :=
  ∀ a, a ∈ l → sq_data <$> m' !! a = sq_data <$> m !! a.

Section data.
Context `{Config} `{MqConfig}.
Implicit Types (d : mq_data) (L : mlist → list addr) (held : gset addr) (k : mlist) (a q : addr)
  (m : mem mqueue_msg_s).

Lemma same_data_msgs l m m' : same_data sq_data m m' → same_msgs l m m'.
Proof. intros Hd a _. apply (f_equal (.!! a)) in Hd. by rewrite !lookup_fmap in Hd. Qed.

Lemma same_msgs_lookup l m m' a x :
  same_msgs l m m' → a ∈ l → m' !! a = Some x → ∃ x0, m !! a = Some x0 ∧ sq_data x = sq_data x0.
Proof.
  intros Hs Ha Hx. specialize (Hs a Ha). rewrite Hx in Hs.
  destruct (m !! a) as [x0|]; [|done]. exists x0. split; [done|]. simpl in *. congruence.
Qed.

Lemma same_msgs_letters l m m' : same_msgs l m m' → letters m' l = letters m l.
Proof.
  intros Hs. apply letters_ext. intros a Ha. specialize (Hs a Ha).
  destruct (m' !! a) as [x|], (m !! a) as [x0|]; simpl in *; try done.
  injection Hs as ? ? ? ?. unfold letter_of. simpl. congruence.
Qed.

Lemma queue_ok_same m m' l y : same_msgs l m m' → queue_ok m l y → queue_ok m' l y.
Proof.
  intros Hs [Hc Hso Hsz Hlen]. split; [done|by rewrite (same_msgs_letters _ _ _ Hs)|done|].
  intros a x Ha Hx. destruct (same_msgs_lookup _ _ _ _ _ Hs Ha Hx) as (x0 & Hx0 & Hd).
  injection Hd as _ _ -> _. by eapply Hlen.
Qed.

Lemma same_msgs_insert l m a x : a ∉ l → same_msgs l m (<[a := x]> m).
Proof. intros Ha b Hb. rewrite lookup_insert_ne; [done|]. by intros ->. Qed.

Lemma same_msgs_trans l m1 m2 m3 : same_msgs l m1 m2 → same_msgs l m2 m3 → same_msgs l m1 m3.
Proof. intros H1 H2 a Ha. by rewrite H2, H1. Qed.

Lemma data_same_list k (q : sq_queue_t) m d : data_same d (set_mlist k q m d).
Proof.
  destruct k as [| |b]; [done|done|]. split; [done|]. simpl. apply map_eq. intros c.
  rewrite !lookup_fmap. destruct (decide (b = c)) as [->|]; [|by rewrite lookup_alter_ne].
  rewrite lookup_alter_eq. by destruct (msgqs d !! c).
Qed.

Lemma data_same_nmsgs f q d : data_same d (upd_msgq (λ y, set_nmsgs (f y) y) q d).
Proof.
  split; [done|]. simpl. apply map_eq. intros c.
  rewrite !lookup_fmap. destruct (decide (q = c)) as [->|]; [|by rewrite lookup_alter_ne].
  rewrite lookup_alter_eq. by destruct (msgqs d !! c).
Qed.

(** A pool gets other messages; the queues stay. *)
Lemma mdata_pool d L held d' L' held' m' :
  mdata_ok L held d → mlists_ok d' L' held' → msgs d' = m' → msgqs d' = msgqs d →
  Z.of_nat (size m') ≤ 32767 →
  (∀ a x, m' !! a = Some x → Z.of_nat (length (mail x)) = MQ_MAX_BYTES) →
  (∀ q, L' (MQueue q) = L (MQueue q) ∧ same_msgs (L (MQueue q)) (msgs d) m') →
  (∀ a x, a ∈ L' MFree → m' !! a = Some x → msg_type x = MQ_ALLOC_FIXED) →
  (∀ a x, a ∈ L' MFreeIrq → m' !! a = Some x → msg_type x = MQ_ALLOC_IRQ) →
  mdata_ok L' held' d'.
Proof.
  intros [_ _ _ _ _ Hq] Hl <- HQ Hsz Hmail Hsame Hfree Hirq. split; try done.
  intros q y. rewrite HQ. intros Hy. destruct (Hsame q) as [-> Hs].
  eapply queue_ok_same; [exact Hs|by apply Hq].
Qed.

Lemma pool_types d L held m' k a x :
  mdata_ok L held d → same_data sq_data (msgs d) m' → a ∈ L k → m' !! a = Some x →
  (k = MFree → msg_type x = MQ_ALLOC_FIXED) ∧ (k = MFreeIrq → msg_type x = MQ_ALLOC_IRQ).
Proof.
  intros Hok Hs Ha Hx. destruct (same_data_lookup_r _ _ _ _ _ Hs Hx) as (x0 & Hx0 & Hd).
  injection Hd as <- _ _ _. split; intros ->; [by eapply (md_free _ _ _ Hok)|by eapply (md_irq _ _ _ Hok)].
Qed.

Lemma same_mail d L held m' :
  mdata_ok L held d → same_data sq_data (msgs d) m' →
  ∀ a x, m' !! a = Some x → Z.of_nat (length (mail x)) = MQ_MAX_BYTES.
Proof.
  intros Hok Hs a x Hx. destruct (same_data_lookup_r _ _ _ _ _ Hs Hx) as (x0 & Hx0 & Hd).
  injection Hd as _ _ _ <-. by eapply (md_mail _ _ _ Hok).
Qed.

(** ** The pools *)

(** The lists after an operation on the pools. *)
Definition pools_only d L d' L' : Prop :=
  data_same d d' ∧ msgqs d' = msgqs d ∧
  ∀ q, L' (MQueue q) = L (MQueue q) ∧ same_msgs (L (MQueue q)) (msgs d) (msgs d').

Lemma pool_take d L held k a l :
  mdata_ok L held d → (k = MFree ∨ k = MFreeIrq) → L k = a :: l →
  ∃ d', mlist_remfirst k d = Some (Some a, d') ∧ mdata_ok (upd_list k l L) ({[a]} ∪ held) d' ∧
    pools_only d L d' (upd_list k l L).
Proof.
  intros Hok Hk Hl.
  destruct (mq_list k d) as [q|] eqn:Hq; [|by destruct Hk as [-> | ->]].
  destruct (mlist_take d L held k q a l (md_lists _ _ _ Hok) Hq Hl) as (q' & m' & Hrun & Hml & Hs).
  eexists. split; [exact Hrun|].
  assert (msgs (set_mlist k q' m' d) = m' ∧ msgqs (set_mlist k q' m' d) = msgqs d) as [Hm HQ]
    by (destruct Hk as [-> | ->]; done).
  assert (∀ b, upd_list k l L (MQueue b) = L (MQueue b)) as Hmq
    by (intros b; apply upd_list_ne; destruct Hk as [-> | ->]; done).
  assert (∀ k' b, b ∈ upd_list k l L k' → b ∈ L k') as Hsub.
  { intros k' b. unfold upd_list. case_decide; [|done]. subst. rewrite Hl. set_solver. }
  split.
  - eapply mdata_pool; [exact Hok|exact Hml|exact Hm|exact HQ| | | | |].
    + by rewrite (same_data_size _ _ _ Hs), (md_size _ _ _ Hok).
    + by eapply same_mail.
    + intros b. split; [apply Hmq|by apply same_data_msgs].
    + intros b x Hb Hx. by apply (pool_types _ _ _ _ MFree b x Hok Hs (Hsub _ _ Hb) Hx).
    + intros b x Hb Hx. by apply (pool_types _ _ _ _ MFreeIrq b x Hok Hs (Hsub _ _ Hb) Hx).
  - split; [apply data_same_list|]. split; [done|]. intros b. split; [apply Hmq|].
    rewrite Hm. by apply same_data_msgs.
Qed.

(** Messages on no list, other than [a], are not touched. *)
Definition unlisted_same L a d d' : Prop :=
  ∀ b, b ≠ a → (∀ k, b ∉ L k) → msgs d' !! b = msgs d !! b.

Lemma pool_put d L held k a x :
  mdata_ok L held d → a ∈ held → msgs d !! a = Some x →
  (k = MFree ∧ msg_type x = MQ_ALLOC_FIXED ∨ k = MFreeIrq ∧ msg_type x = MQ_ALLOC_IRQ) →
  ∃ d', mlist_addlast a k d = Some (tt, d') ∧
    mdata_ok (upd_list k (L k ++ [a]) L) (held ∖ {[a]}) d' ∧
    pools_only d L d' (upd_list k (L k ++ [a]) L) ∧ unlisted_same L a d d'.
Proof.
  intros Hok Ha Hx Hk. destruct (mq_list k d) as [q|] eqn:Hq; [|by destruct Hk as [[-> _]|[-> _]]].
  destruct (mlist_put d L held k q a (md_lists _ _ _ Hok) Hq Ha) as (q' & m' & Hrun & Hml & Hs & Hun).
  eexists. split; [exact Hrun|].
  assert (msgs (set_mlist k q' m' d) = m' ∧ msgqs (set_mlist k q' m' d) = msgqs d) as [Hm HQ]
    by (destruct Hk as [[-> _]|[-> _]]; done).
  assert (∀ b, upd_list k (L k ++ [a]) L (MQueue b) = L (MQueue b)) as Hmq
    by (intros b; apply upd_list_ne; destruct Hk as [[-> _]|[-> _]]; done).
  assert (∀ k' b y, b ∈ upd_list k (L k ++ [a]) L k' → m' !! b = Some y →
    b ∈ L k' ∨ k' = k ∧ msg_type y = msg_type x) as Hty.
  { intros k' b y Hb Hy. unfold upd_list in Hb. case_decide; [subst|by left].
    apply elem_of_app in Hb as [Hb|Hb]; [by left|]. right. split; [done|].
    apply list_elem_of_singleton in Hb as ->.
    destruct (same_data_lookup_r _ _ _ _ _ Hs Hy) as (x0 & Hx0 & Hd).
    injection Hd as <- _ _ _. congruence. }
  split; [|split].
  - eapply mdata_pool; [exact Hok|exact Hml|exact Hm|exact HQ| | | | |].
    + by rewrite (same_data_size _ _ _ Hs), (md_size _ _ _ Hok).
    + by eapply same_mail.
    + intros b. split; [apply Hmq|by apply same_data_msgs].
    + intros b y Hb Hy. destruct (Hty _ _ _ Hb Hy) as [Hb'|[? Ht]]; [|destruct Hk as [[? ?]|[? ?]]; congruence].
      by apply (pool_types _ _ _ _ MFree b y Hok Hs Hb' Hy).
    + intros b y Hb Hy. destruct (Hty _ _ _ Hb Hy) as [Hb'|[? Ht]]; [|destruct Hk as [[? ?]|[? ?]]; congruence].
      by apply (pool_types _ _ _ _ MFreeIrq b y Hok Hs Hb' Hy).
  - split; [apply data_same_list|]. split; [done|]. intros b. split; [apply Hmq|].
    rewrite Hm. by apply same_data_msgs.
  - intros b Hne Hb. rewrite Hm. apply Hun. specialize (Hb k). set_solver.
Qed.

(** What the heap may return: a new structure. *)
Definition heap_msg d (kmm_malloc : option (addr * mqueue_msg_s)) : Prop :=
  ∀ a x, kmm_malloc = Some (a, x) → (a ∉ dom (msgs d)) ∧
    Z.of_nat (length (mail x)) = MQ_MAX_BYTES ∧ Z.of_nat (size (msgs d)) < 32767.

Lemma new_msg_ok d L held a x :
  mdata_ok L held d → a ∉ dom (msgs d) → Z.of_nat (length (mail x)) = MQ_MAX_BYTES →
  Z.of_nat (size (msgs d)) < 32767 →
  let d' := set_msgs (<[a := x]> (msgs d)) d in
  mdata_ok L ({[a]} ∪ held) d' ∧ pools_only d L d' L.
Proof.
  intros Hok Ha Hlen Hsz d'. assert (∀ k, a ∉ L k) as Hno.
  { intros k Hk. apply Ha, (ml_dom _ _ _ (md_lists _ _ _ Hok)). right. by exists k. }
  split; [|split; [done|split; [done|]]].
  - eapply mdata_pool; [exact Hok|by apply mlists_new, Ha; apply Hok|done|done| | | | |]; simpl.
    + apply not_elem_of_dom in Ha. rewrite map_size_insert_None by done. lia.
    + intros b y. rewrite lookup_insert_Some. intros [[<- <-]|[_ Hy]]; [done|by eapply (md_mail _ _ _ Hok)].
    + intros q. split; [done|]. apply same_msgs_insert, Hno.
    + intros b y Hb. rewrite lookup_insert_ne by (intros ->; by apply (Hno MFree)).
      by apply (md_free _ _ _ Hok).
    + intros b y Hb. rewrite lookup_insert_ne by (intros ->; by apply (Hno MFreeIrq)).
      by apply (md_irq _ _ _ Hok).
  - intros q. split; [done|]. apply same_msgs_insert, Hno.
Qed.

Lemma alloc_msg_ok d L held irq kmm :
  mdata_ok L held d → heap_msg d kmm →
  ∃ p d' L', nxmq_alloc_msg irq kmm d = Some (p, d') ∧ pools_only d L d' L' ∧
    match p with
    | Some a => (a ∉ held) ∧ mdata_ok L' ({[a]} ∪ held) d'
    | None => L MFree = [] ∧ (if irq then L MFreeIrq = [] else kmm = None) ∧ d' = d ∧ L' = L
    end.
Proof.
  intros Hok Hheap. pose proof (md_lists _ _ _ Hok) as Hml.
  assert (∀ k a l, L k = a :: l → a ∉ held) as Hnh.
  { intros k a l Hl. apply (ml_held _ _ _ Hml k). rewrite Hl. set_solver. }
  unfold nxmq_alloc_msg. destruct (L MFree) as [|a l] eqn:Hf.
  - pose proof (mlist_take_empty d L held MFree _ Hml eq_refl Hf) as Hrun. destruct irq.
    + rewrite (K_bind_Some _ _ _ _ _ Hrun), bool_decide_eq_true_2 by done.
      destruct (L MFreeIrq) as [|a l] eqn:Hq.
      * exists NULL, d, L. split; [by eapply mlist_take_empty|]. by split.
      * destruct (pool_take d L held MFreeIrq a l Hok) as (d' & Hrun' & Hok' & Hp); [by right|done|].
        exists (Some a), d', (upd_list MFreeIrq l L). split; [done|]. split; [done|].
        split; [by eapply Hnh|done].
    + rewrite (K_bind_Some _ _ _ _ _ Hrun), bool_decide_eq_true_2 by done.
      destruct kmm as [[a x]|]; [|exists NULL, d, L; by repeat split].
      destruct (Hheap a x eq_refl) as (Hd & Hlen & Hsz).
      destruct (new_msg_ok d L held a (set_msg_type MQ_ALLOC_DYN x) Hok Hd Hlen Hsz) as [Hok' Hp].
      exists (Some a), (set_msgs (<[a := set_msg_type MQ_ALLOC_DYN x]> (msgs d)) d), L.
      split; [|split; [done|split; [|done]]].
      * erewrite K_bind_Some by reflexivity.
        erewrite K_bind_Some by (apply msg_set_Some; simpl; apply lookup_insert_eq).
        simpl. unfold set_msgs. simpl. by rewrite insert_insert_eq.
      * intros Ha. apply Hd, (ml_dom _ _ _ Hml). by left.
  - destruct (pool_take d L held MFree a l Hok) as (d' & Hrun & Hok' & Hp); [by left|done|].
    exists (Some a), d', (upd_list MFree l L).
    split; [destruct irq; by rewrite (K_bind_Some _ _ _ _ _ Hrun)|]. split; [done|].
    split; [by eapply Hnh|done].
Qed.

Lemma free_msg_ok d L held a :
  mdata_ok L held d → a ∈ held →
  ∃ d' L', nxmq_free_msg a d = Some (tt, d') ∧ mdata_ok L' (held ∖ {[a]}) d' ∧ pools_only d L d' L' ∧
    unlisted_same L a d d'.
Proof.
  intros Hok Ha. pose proof (md_lists _ _ _ Hok) as Hml.
  assert (a ∈ dom (msgs d)) as [x Hx]%elem_of_dom by (apply (ml_dom _ _ _ Hml); by left).
  unfold nxmq_free_msg. krun msg_get_Some. destruct (msg_type x) eqn:Ht.
  - destruct (pool_put d L held MFree a x Hok Ha Hx) as (d' & Hrun & Hok' & Hp); [by left|]. eauto 6.
  - eexists _, L. split; [reflexivity|]. assert (∀ k, a ∉ L k) as Hno.
    { intros k Hk. by apply (ml_held _ _ _ Hml k a). }
    assert (∀ q, same_msgs (L (MQueue q)) (msgs d) (delete a (msgs d))) as Hs.
    { intros q b Hb. rewrite lookup_delete_ne; [done|]. intros ->. by apply (Hno (MQueue q)). }
    split; [|split; [by split_and!|intros b Hne _; by apply lookup_delete_ne]].
    eapply mdata_pool; [exact Hok|by apply mlists_delete|done|done| | |by intros q| |]; simpl.
    + rewrite map_size_delete, Hx. pose proof (md_size _ _ _ Hok). lia.
    + intros b y. rewrite lookup_delete_Some. intros [_ Hy]. by eapply (md_mail _ _ _ Hok).
    + intros b y Hb. rewrite lookup_delete_Some. intros [_ Hy]. by eapply (md_free _ _ _ Hok).
    + intros b y Hb. rewrite lookup_delete_Some. intros [_ Hy]. by eapply (md_irq _ _ _ Hok).
  - destruct (pool_put d L held MFreeIrq a x Hok Ha Hx) as (d' & Hrun & Hok' & Hp); [by right|]. eauto 6.
Qed.

(** ** The queues *)

(** The other lists are the same, with the same messages. *)
Definition others_same k L L' m m' : Prop :=
  ∀ k', k' ≠ k → L' k' = L k' ∧ same_msgs (L k') m m'.

Lemma mdata_queue d L held q y d' l' held' y' :
  mdata_ok L held d → msgqs d !! q = Some y → mlists_ok d' (upd_list (MQueue q) l' L) held' →
  msgqs d' = <[q := y']> (msgqs d) → queue_ok (msgs d') l' y' →
  Z.of_nat (size (msgs d')) ≤ 32767 →
  (∀ a x, msgs d' !! a = Some x → Z.of_nat (length (mail x)) = MQ_MAX_BYTES) →
  (∀ k, k ≠ MQueue q → same_msgs (L k) (msgs d) (msgs d')) →
  mdata_ok (upd_list (MQueue q) l' L) held' d'.
Proof.
  intros Hok Hy Hl HQ Hq Hsz Hmail Hsame. split; [done|done|done| | |].
  - intros a x. rewrite upd_list_ne by done. intros Ha Hx.
    destruct (same_msgs_lookup _ _ _ _ _ (Hsame MFree ltac:(done)) Ha Hx) as (x0 & Hx0 & Hd).
    injection Hd as -> _ _ _. by eapply (md_free _ _ _ Hok).
  - intros a x. rewrite upd_list_ne by done. intros Ha Hx.
    destruct (same_msgs_lookup _ _ _ _ _ (Hsame MFreeIrq ltac:(done)) Ha Hx) as (x0 & Hx0 & Hd).
    injection Hd as -> _ _ _. by eapply (md_irq _ _ _ Hok).
  - intros b z. rewrite HQ, lookup_insert_Some. intros [[<- <-]|[Hne Hz]]; [by rewrite upd_list_eq|].
    rewrite upd_list_ne by congruence. eapply queue_ok_same; [apply Hsame; congruence|].
    by apply (md_queue _ _ _ Hok).
Qed.

Lemma queue_length d L held q y :
  mdata_ok L held d → msgqs d !! q = Some y → (length (L (MQueue q)) ≤ size (msgs d))%nat.
Proof.
  intros Hok Hy. eapply sq_repr_size, (ml_repr _ _ _ (md_lists _ _ _ Hok) (MQueue q)). simpl. by rewrite Hy.
Qed.

(** A message is taken from the head of a queue. *)
Lemma take_ok_mq d L held q y a l :
  mdata_ok L held d → msgqs d !! q = Some y → L (MQueue q) = a :: l →
  ∃ d1 d', mlist_remfirst (MQueue q) d = Some (Some a, d1) ∧
    msgq_set (λ y, set_nmsgs (nmsgs y - 1) y) (Some q) d1 = Some (tt, d') ∧
    mdata_ok (upd_list (MQueue q) l L) ({[a]} ∪ held) d' ∧ data_same d d' ∧
    same_data sq_data (msgs d) (msgs d').
Proof.
  intros Hok Hy Hl. assert (mq_list (MQueue q) d = Some (msglist y)) as Hq by (simpl; by rewrite Hy).
  destruct (mlist_take d L held _ _ a l (md_lists _ _ _ Hok) Hq Hl) as (q' & m' & Hrun & Hml & Hs).
  set (d1 := set_mlist (MQueue q) q' m' d) in *.
  assert (msgqs d1 !! q = Some (set_msglist q' y)) as Hy1 by (simpl; by rewrite lookup_alter_eq, Hy).
  set (f := λ y, set_nmsgs (nmsgs y - 1) y).
  exists d1, (upd_msgq f q d1). split; [done|]. split; [apply msgq_set_Some; by eexists|].
  pose proof (md_queue _ _ _ Hok q y Hy) as [Hc Hso Hsz Hlen]. rewrite Hl in Hc, Hso, Hlen. simpl in Hc.
  pose proof (queue_length _ _ _ _ _ Hok Hy) as Hql. pose proof (md_size _ _ _ Hok) as Hms.
  rewrite Hl in Hql. simpl in Hql.
  assert (s16 (nmsgs y - 1) = Z.of_nat (length l)) as Hn by (rewrite Hc, s16_small; lia).
  split; [|split; [transitivity d1; [apply data_same_list|apply data_same_nmsgs]|done]].
  eapply (mdata_queue d L held q y _ l _ (f (set_msglist q' y)) Hok Hy); simpl.
  - by apply (mlists_upd f q d1).
  - rewrite alter_alter_eq. symmetry. by apply (alter_insert_Some (f ∘ set_msglist q')).
  - assert (same_msgs l (msgs d) m') as Hsm by (by apply same_data_msgs).
    assert (a ∈ dom (msgs d)) as [x Hx]%elem_of_dom.
    { apply (ml_dom _ _ _ (md_lists _ _ _ Hok)). right. exists (MQueue q). rewrite Hl. set_solver. }
    rewrite (letters_cons _ _ _ _ Hx) in Hso.
    eapply queue_ok_same; [exact Hsm|]. split; [exact Hn|by inversion Hso|done|].
    intros b z Hb. apply Hlen. set_solver.
  - by rewrite (same_data_size _ _ _ Hs).
  - by eapply same_mail.
  - intros k _. by apply same_data_msgs.
Qed.

(** ** A message is filled in and queued *)

Definition filled (msg : list Z) (msglen prio : Z) (x : mqueue_msg_s) : mqueue_msg_s :=
  mk_msg (msg_next x) (msg_type x) prio msglen
    (take (Z.to_nat msglen) msg ++ drop (Z.to_nat msglen) (mail x)).

Lemma msgsize_small s z : msgsize_t s = s → 0 ≤ z ≤ s → msgsize_t z = z.
Proof.
  unfold msgsize_t. case_match; intros Hs Hz.
  - apply u8_small. unfold wrap_u in Hs. change (2 ^ 8) with 256 in Hs.
    pose proof (Z.mod_pos_bound s 256). lia.
  - apply u16_small. unfold wrap_u in Hs. change (2 ^ 16) with 65536 in Hs.
    pose proof (Z.mod_pos_bound s 65536). lia.
Qed.

Lemma letter_filled msg msglen prio x :
  msglen ≤ Z.of_nat (length msg) →
  letter_of (filled msg msglen prio x) = (prio, take (Z.to_nat msglen) msg).
Proof.
  intros Hlen. unfold letter_of. simpl. f_equal. rewrite take_app_le by (rewrite length_take; lia).
  rewrite take_take. f_equal. lia.
Qed.

(** The structure is filled in; it is on no list. *)
Lemma fill_ok d L held q y a x msg msglen prio :
  mdata_ok L held d → a ∈ held → msgqs d !! q = Some y → msgs d !! a = Some x →
  0 ≤ prio ≤ MQ_PRIO_MAX → 0 ≤ msglen ≤ maxmsgsize y → msglen ≤ Z.of_nat (length msg) →
  let d1 := set_msgs (<[a := filled msg msglen prio x]> (msgs d)) d in
  put_message a msg msglen prio q d =
    (mlist_insert a prio q;; msgq_set (λ y, set_nmsgs (nmsgs y + 1) y) (Some q)) d1 ∧
  mdata_ok L held d1 ∧ ∀ k, same_msgs (L k) (msgs d) (msgs d1).
Proof.
  intros Hok Ha Hy Hx Hp Hl Hmsg d1. destruct (md_queue _ _ _ Hok q y Hy) as [_ _ [Hsz Hst] _].
  assert (∀ k, a ∉ L k) as Hno.
  { intros k Hk. by apply (ml_held _ _ _ (md_lists _ _ _ Hok) k a). }
  assert (∀ k, same_msgs (L k) (msgs d) (msgs d1)) as Hs by (intros k; by apply same_msgs_insert).
  split; [|split; [|done]].
  - unfold put_message. krun msg_set_Some.
    erewrite K_bind_Some by (apply msg_set_Some; simpl; apply lookup_insert_eq). cbv beta.
    erewrite K_bind_Some by (apply msg_get_Some; simpl; apply lookup_insert_eq). cbv beta.
    unfold fill_mail. do 2 rewrite (proj2 (Z.leb_le _ _)) by lia. rewrite (proj2 (Z.leb_le msglen _)) by lia.
    erewrite K_bind_Some by (apply klift_Some). cbv beta.
    erewrite K_bind_Some by (apply msg_set_Some; simpl; apply lookup_insert_eq). cbv beta.
    unfold set_msgs. simpl. rewrite !insert_insert_eq, u8_small,
      (msgsize_small _ _ Hst) by (unfold MQ_PRIO_MAX in *; lia).
    done.
  - eapply mdata_pool; [exact Hok|by eapply mlists_msg; [apply Hok|..]|done|done| | |done| |]; simpl.
    + rewrite map_size_insert, Hx. apply Hok.
    + intros b z. rewrite lookup_insert_Some. intros [[<- <-]|[_ Hz]]; [|by eapply (md_mail _ _ _ Hok)].
      simpl. rewrite length_app, length_take, length_drop. pose proof (md_mail _ _ _ Hok a x Hx). lia.
    + intros b z Hb. rewrite lookup_insert_ne by (intros ->; by apply (Hno MFree)).
      by apply (md_free _ _ _ Hok).
    + intros b z Hb. rewrite lookup_insert_ne by (intros ->; by apply (Hno MFreeIrq)).
      by apply (md_irq _ _ _ Hok).
Qed.

Lemma put_ok_mq d L held q y a msg msglen prio :
  mdata_ok L held d → a ∈ held → msgqs d !! q = Some y →
  0 ≤ prio ≤ MQ_PRIO_MAX → 0 ≤ msglen ≤ maxmsgsize y → msglen ≤ Z.of_nat (length msg) →
  ∃ l' d', put_message a msg msglen prio q d = Some (tt, d') ∧
    mdata_ok (upd_list (MQueue q) l' L) (held ∖ {[a]}) d' ∧ data_same d d' ∧
    letters (msgs d') l' = pq_insert (prio, take (Z.to_nat msglen) msg) (letters (msgs d) (L (MQueue q))) ∧
    ∀ k, k ≠ MQueue q → same_msgs (L k) (msgs d) (msgs d').
Proof.
  intros Hok Ha Hy Hp Hl Hmsg.
  assert (a ∈ dom (msgs d)) as [x Hx]%elem_of_dom by (apply (ml_dom _ _ _ (md_lists _ _ _ Hok)); by left).
  destruct (fill_ok d L held q y a x msg msglen prio Hok Ha Hy Hx Hp Hl Hmsg) as (-> & Hok1 & Hs1).
  set (d1 := set_msgs _ d) in *. set (x1 := filled msg msglen prio x) in *.
  assert (msgs d1 !! a = Some x1) as Hx1 by apply lookup_insert_eq.
  destruct (mlist_insert_ok d1 L held q y a prio (md_lists _ _ _ Hok1) Hy Ha)
    as (l1 & l2 & q' & m' & HL & Hall & Hnx & Hrun & Hml & Hs).
  set (d2 := set_mlist (MQueue q) q' m' d1) in *.
  assert (msgqs d2 !! q = Some (set_msglist q' y)) as Hy2 by (simpl; by rewrite lookup_alter_eq, Hy).
  set (f := λ y, set_nmsgs (nmsgs y + 1) y).
  assert (letters m' (l1 ++ a :: l2) = pq_insert (prio, take (Z.to_nat msglen) msg) (letters (msgs d1) (L
    (MQueue q)))) as Hlet.
  { rewrite (letters_same _ _ _ Hs), (letters_put _ _ x1), HL by done. f_equal. by apply letter_filled. }
  exists (l1 ++ a :: l2), (upd_msgq f q d2). split.
  { rewrite (K_bind_Some _ _ _ _ _ Hrun). apply msgq_set_Some. by eexists. }
  destruct (md_queue _ _ _ Hok1 q y Hy) as [Hc Hso Hsz Hlen].
  assert (length (L (MQueue q)) < size (msgs d1))%nat as Hql.
  { apply (NoDup_dom_size (msgs d1) (a :: L (MQueue q))).
    - constructor; [by intros Hk; apply (ml_held _ _ _ (md_lists _ _ _ Hok1) (MQueue q) a)|].
      by apply (ml_repr _ _ _ (md_lists _ _ _ Hok1) (MQueue q) (msglist y)); simpl; rewrite Hy.
    - apply Forall_forall. intros b Hb. apply (ml_dom _ _ _ (md_lists _ _ _ Hok1)).
      apply elem_of_cons in Hb as [->|Hb]; [by left|right; by exists (MQueue q)]. }
  pose proof (md_size _ _ _ Hok1) as Hms.
  split; [|split; [transitivity d2; [exact (data_same_list (MQueue q) q' m' d)|apply data_same_nmsgs]|split]].
  - eapply (mdata_queue d1 L held q y _ _ _ (f (set_msglist q' y)) Hok1 Hy); simpl.
    + by apply (mlists_upd f q d2).
    + rewrite alter_alter_eq. symmetry. by apply (alter_insert_Some (f ∘ set_msglist q')).
    + split; [|rewrite Hlet; by apply pq_insert_sorted|done|].
      * simpl. rewrite Hc, HL, s16_small; [rewrite !length_app; simpl; lia|rewrite <- HL; lia].
      * intros b z Hb Hz. destruct (same_data_lookup_r _ _ _ _ _ Hs Hz) as (z0 & Hz0 & Hd).
        injection Hd as _ _ <- _. apply elem_of_app in Hb. rewrite elem_of_cons in Hb.
        destruct (decide (b = a)) as [->|Hne]; [rewrite Hx1 in Hz0; by injection Hz0 as <-|].
        eapply Hlen; [|exact Hz0]. rewrite HL. set_solver.
    + by rewrite (same_data_size _ _ _ Hs).
    + by eapply same_mail.
    + intros k _. by apply same_data_msgs.
  - rewrite <- (same_msgs_letters _ _ _ (Hs1 _)). exact Hlet.
  - intros k _. eapply same_msgs_trans; [apply Hs1|]. by apply same_data_msgs.
Qed.
End data.
