(* ===== verification/MqOps.v ===== *)
(** * MqOps: sending and receiving

    The calls on every branch, on plain task lists: what they return, what they do
    to the letters in the queues and to the waiting tasks. *)

From stdpp Require Import sorting.
From S2P Require Import Prelude Queue QueueRefine Sched SchedSpec SchedInv SchedOps Semaphore SemSpec SemOps MQueue MqSpec MqInv MqWait MqView MqData.
Local Open Scope Z_scope.

(** ** Effects on the queues *)

Section effects.
Implicit Types (L : mlist → list addr) (u : mqsys lsched) (q : addr) (e : letter) (t : lsched).

Definition boxes_same L u L' u' : Prop := ∀ q, box L' u' q = box L u q.

Definition posted L u q e L' u' : Prop :=
  box L' u' q = pq_insert e (box L u q) ∧ ∀ q', q' ≠ q → box L' u' q' = box L u q'.

Definition fetched L u q e L' u' : Prop :=
  box L u q = e :: box L' u' q ∧ ∀ q', q' ≠ q → box L' u' q' = box L u q'.

(** A letter is sent: signals may interrupt waits, then a receiver is woken. *)
Definition sends t q t' : Prop := ∃ t1, left_waits t t1 ∧ wakes t1 NotEmpty q t'.

Lemma posted_same L1 u1 L2 u2 L3 u3 L4 u4 q e :
  boxes_same L1 u1 L2 u2 → posted L2 u2 q e L3 u3 → boxes_same L3 u3 L4 u4 → posted L1 u1 q e L4 u4.
Proof.
  intros H1 [H2 H3] H4. split; [by rewrite H4, H2, H1|]. intros q' Hq. by rewrite H4, H3, H1.
Qed.

Lemma fetched_same L1 u1 L2 u2 L3 u3 L4 u4 q e :
  boxes_same L1 u1 L2 u2 → fetched L2 u2 q e L3 u3 → boxes_same L3 u3 L4 u4 → fetched L1 u1 q e L4 u4.
Proof.
  intros H1 [H2 H3] H4. split; [by rewrite H4, <- H2, H1|]. intros q' Hq. by rewrite H4, H3, H1.
Qed.

Lemma sends_same t1 t2 t3 t4 q :
  same_waits t1 t2 → sends t2 q t3 → same_waits t3 t4 → sends t1 q t4.
Proof.
  intros H1 (t & Hl & Hw) H2. exists t. split; [by eapply same_left|by eapply wakes_same].
Qed.
End effects.

Section ops.
Context `{Config} `{MqConfig} (idle : addr).
Implicit Types (u : mqsys lsched) (t : lsched) (L : mlist → list addr) (held : gset addr)
  (d : side) (a q r : addr) (y : mqueue_inode_s).
Abbreviation inv := (mq_inv idle).

(** ** Changes of the data *)

Lemma inv_data u L held L' held' (d' : mq_data) :
  inv L held u → mdata_ok L' held' d' → data_same (mdata u) d' →
  inv L' held' (with_d d' u) ∧ mq_same u (with_d d' u).
Proof.
  intros [Hs Ht _ [Hl Hc]] Hd' [Hdes Hk]. split.
  - split; [done|done|done|]. split; simpl.
    + intros d a Ha. destruct (Hl d a Ha) as (q & Hq & Hd). exists q. split; [done|].
      by rewrite (same_data_dom d_keep _ _ Hk).
    + intros d q y Hy. destruct (same_data_lookup_r d_keep _ _ _ _ Hk Hy) as (y0 & Hy0 & E).
      injection E as _ _ E1 E2 _. rewrite <- (Hc d q y0 Hy0). by destruct d.
  - split; [done|done|by injection Hdes|..]; simpl.
    + eapply same_data_weaken; [exact Hk|]. intros x y. unfold d_keep, q_conf. congruence.
    + eapply notes_same; [|exact Hk]. intros x y [= _ _ _ _ E1 E2 E3]. unfold note. by rewrite E1, E2, E3.
Qed.

Lemma pools_inv u L held L' held' (d' : mq_data) :
  inv L held u → mdata_ok L' held' d' → pools_only (mdata u) L d' L' →
  inv L' held' (with_d d' u) ∧ mq_same u (with_d d' u) ∧ boxes_same L u L' (with_d d' u).
Proof.
  intros Hi Hd' (Hs & _ & Hb). destruct (inv_data _ _ _ _ _ _ Hi Hd' Hs) as [H1 H2].
  split; [done|]. split; [done|]. intros q. unfold box. simpl. destruct (Hb q) as [-> Hm].
  by apply same_msgs_letters.
Qed.

Lemma nmsgs_box u L held q y :
  inv L held u → msgqs (mdata u) !! q = Some y → nmsgs y = Z.of_nat (length (box L u q)).
Proof.
  intros Hi Hy. pose proof (mv_data _ _ _ _ Hi) as Hd.
  rewrite (qo_count _ _ _ (md_queue _ _ _ Hd q y Hy)). unfold box. f_equal. symmetry.
  apply letters_length, Forall_forall. intros a Ha. apply (ml_dom _ _ _ (md_lists _ _ _ Hd)).
  right. by exists (MQueue q).
Qed.

Lemma same_queue u u' q y :
  mq_same u u' → msgqs (mdata u) !! q = Some y →
  ∃ y', msgqs (mdata u') !! q = Some y' ∧ maxmsgs y' = maxmsgs y ∧ maxmsgsize y' = maxmsgsize y.
Proof.
  intros [_ _ _ Hc _] Hy. apply (f_equal (.!! q)) in Hc. rewrite !lookup_fmap, Hy in Hc.
  destruct (msgqs (mdata u') !! q) as [y'|]; [|done]. exists y'. by injection Hc.
Qed.

Lemma same_des u u' p x : mq_same u u' → mqdess (mdata u) !! p = Some x → mqdess (mdata u') !! p = Some x.
Proof. intros [_ _ -> _ _]. done. Qed.

(** ** The scheduler lock in a task and in an interrupt handler *)

(** The running task can lock the scheduler [n] times more. *)
Definition can_lock (irq : bool) u (n : Z) : Prop :=
  irq = false → ∀ r c, runs u r c → c + n ≤ MAX_LOCK_COUNT.

Lemma runs_fun u r c r' c' : runs u r c → runs u r' c' → r = r' ∧ c = c'.
Proof. intros (l & x & Hl & Hx & <-) (l' & x' & Hl' & Hx' & <-). rewrite Hl in Hl'. naive_solver. Qed.

Lemma lock_any irq u L held n :
  inv L held u → can_lock irq u (n + 1) → 0 ≤ n →
  ∃ t', sched_lock irq (tsk u) = Some (OK, t') ∧ inv L held (with_t t' u) ∧
    can_lock irq (with_t t' u) n ∧ same_waits (tsk u) t' ∧ mq_same u (with_t t' u) ∧
    (∀ d q, mwaiters t' d q = mwaiters (tsk u) d q) ∧
    ∀ r, (∃ c, runs u r c) → ∃ c, runs (with_t t' u) r c.
Proof.
  intros Hi Hn Hpos. destruct (inv_runs idle u L held Hi) as (r & c & Hr & Hc). destruct irq.
  - exists (tsk u). rewrite with_t_same. split; [|by split_and!].
    destruct Hr as (l & x & Hl & Hx & _). unfold sched_lock. krun ls_head. by rewrite Hl.
  - specialize (Hn eq_refl _ _ Hr).
    destruct (lock_ok_mq idle u L held r c Hi Hr) as (t' & Hrun & Hi' & Hr' & Hw & Hs & Hws); [lia|].
    exists t'. split_and!; [done|done| |done|done|done|].
    + intros _ r' c' Hr2. destruct (runs_fun _ _ _ _ _ Hr' Hr2) as [<- <-]. lia.
    + intros r' [c' Hr2]. destruct (runs_fun _ _ _ _ _ Hr Hr2) as [<- _]. eauto.
Qed.

Lemma unlock_any irq u L held :
  inv L held u →
  ∃ b t', sched_unlock irq (tsk u) = Some ((OK, b), t') ∧ inv L held (with_t t' u) ∧
    same_waits (tsk u) t' ∧ mq_same u (with_t t' u).
Proof.
  intros Hi. destruct (inv_runs idle u L held Hi) as (r & c & Hr & Hc). destruct irq.
  - exists false, (tsk u). rewrite with_t_same. split; [|by split_and!].
    destruct Hr as (l & x & Hl & Hx & _). unfold sched_unlock. krun ls_head. by rewrite Hl.
  - destruct (unlock_ok_mq idle u L held r c Hi Hr) as (b & t' & Hrun & Hi' & _ & Hw & Hs).
    exists b, t'. by split_and!.
Qed.

(** ** Delivering a letter *)

Section send.
Context (sig : Z → Z → Z → K (mqsys lsched) Z) `{!SignalsOk idle sig}.

Lemma sig_upd f q u u' :
  (∀ y, q_keep (f y) = q_keep y ∧ (note (f y) = note y ∨ note (f y) = None)) → sig_effect (with_d (upd_msgq f q (mdata u)) u) u' → sig_effect u u'.
Proof.
  intros Hf [(Q' & Hd & HQ & Hn) Hl Ht Hh Hr]. split; [|done|done|done|done].
  exists Q'. split; [by rewrite Hd|]. split; last first.
  { etransitivity; [|exact Hn]. apply notes_upd. intros y. apply Hf. }
  rewrite HQ. simpl. apply map_eq. intros b. rewrite !lookup_fmap.
  destruct (decide (q = b)) as [->|]; [|by rewrite lookup_alter_ne].
  rewrite lookup_alter_eq. destruct (_ !! b) as [y|]; simpl; [by rewrite (proj1 (Hf y))|done].
Qed.

Lemma notification_ok u L held q y :
  inv L held u → notes_ok idle sig u → msgqs (mdata u) !! q = Some y →
  ∃ u', mq_notification sig (Some q) u = Some (tt, u') ∧ inv L held u' ∧ sig_effect u u'.
Proof.
  intros Hi Hno Hy. unfold mq_notification. dread msgq_get_Some. case_bool_decide as Hnt; cbn [negb].
  { exists u. split; [done|]. split; [done|apply sig_refl]. }
  set (f := set_notification NULL INVALID_PROCESS_ID no_event).
  assert (inv L held (with_d (upd_msgq f q (mdata u)) u)) as Hi1.
  { rewrite <- (with_t_same (with_d _ u)). apply inv_msgq; [done|done|apply Hi|done|].
    apply mwait_msgq; [apply Hi|by intros []]. }
  assert (∀ z, q_keep (f z) = q_keep z ∧ (note (f z) = note z ∨ note (f z) = None)) as Hf.
  { intros z. split; [done|by right]. }
  dwrite msgq_set_Some. case_match eqn:Hev.
  - destruct (signals_ok (ntpid y) (sigev_signo (ntevent y)) (sigev_value (ntevent y)) _ _ _ Hi1)
      as (ret & u' & Hrun & Hi' & He).
    rewrite (K_bind_Some _ _ _ _ _ Hrun). exists u'. split; [|split; [done|by apply (sig_upd f q)]].
    apply kassert_if. intros HD. apply Z.leb_le. eapply (Hno HD q y); [done| |exact Hi1|done|exact Hrun].
    unfold note. by rewrite bool_decide_eq_false_2, Hev by done.
  - eexists. split; [done|]. split; [done|]. apply (sig_upd f q); [done|apply sig_refl].
Qed.

Lemma mq_unblock_ok u L held d q y :
  inv L held u → msgqs (mdata u) !! q = Some y →
  ∃ u', mq_unblock d (Some q) u = Some (tt, u') ∧ inv L held u' ∧ wakes (tsk u) d q (tsk u') ∧
    mq_same u u' ∧ boxes_same L u L u'.
Proof.
  intros Hi Hy. destruct (mwaiters (tsk u) d q) as [|a ws] eqn:Hws.
  - exists u. split; [by eapply mq_unblock_none|]. split; [done|]. split; [by left|]. by split.
  - destruct (mq_unblock_some idle u L held d q y a ws Hi Hy Hws) as (u' & Hrun & Hi' & Hu).
    exists u'. split; [done|]. split; [done|]. destruct (unblocked_same _ _ _ _ _ _ Hu) as [Hs Hb].
    split; [|split; [done|by intros b]]. right. exists a, ws. split; [done|]. by eapply unblocked_woken.
Qed.

Lemma do_send_ok irq u L held p x q y a msg msglen prio :
  inv L held u → notes_ok idle sig u → can_lock irq u 1 → mqdess (mdata u) !! p = Some x → des_msgq x = Some q →
  msgqs (mdata u) !! q = Some y → a ∈ held →
  0 ≤ prio ≤ MQ_PRIO_MAX → 0 ≤ msglen ≤ maxmsgsize y → msglen ≤ Z.of_nat (length msg) →
  ∃ L' u', nxmq_do_send sig irq (Some p) a msg msglen prio u = Some (OK, u') ∧
    inv L' (held ∖ {[a]}) u' ∧ mq_same u u' ∧ sends (tsk u) q (tsk u') ∧
    posted L u q (prio, take (Z.to_nat msglen) msg) L' u'.
Proof.
  intros Hi Hno Hlock Hx Hq Hy Ha Hp Hlen Hmsg. unfold nxmq_do_send.
  destruct (lock_any irq u L held 0 Hi Hlock) as (t1 & Hr1 & Hi1 & _ & Hw1 & Hs1 & _ & _); [done|].
  twrite Hr1. dread des_get_Some. rewrite Hq. krun klift_Some.
  destruct (put_ok_mq (mdata u) L held q y a msg msglen prio) as (l' & d' & Hrun & Hd' & Hsame & Hbox & Hoth);
    [apply Hi|done..|].
  erewrite K_bind_Some by (eapply on_data_Some, Hrun). cbv beta.
  destruct (inv_data _ _ _ _ _ _ Hi1 Hd' Hsame) as [Hi2 Hs2]. set (u2 := with_d d' (with_t t1 u)) in *.
  destruct (same_queue u u2 q y) as (y2 & Hy2 & _); [by etransitivity|done|].
  assert (notes_ok idle sig u2) as Hno2 by (eapply notes_ok_same, Hno; by etransitivity).
  destruct (notification_ok u2 _ _ q y2 Hi2 Hno2 Hy2) as (u3 & Hr3 & Hi3 & He).
  rewrite (K_bind_Some _ _ _ _ _ Hr3). pose proof (sig_same _ _ He) as Hs3.
  destruct (same_queue u2 u3 q y2 Hs3 Hy2) as (y3 & Hy3 & _).
  destruct (mq_unblock_ok u3 _ _ NotEmpty q y3 Hi3 Hy3) as (u4 & Hr4 & Hi4 & Hw4 & Hs4 & Hb4).
  rewrite (K_bind_Some _ _ _ _ _ Hr4).
  destruct (unlock_any irq u4 _ _ Hi4) as (b & t5 & Hr5 & Hi5 & Hw5 & Hs5).
  erewrite K_bind_Some by (eapply on_tcb_Some, Hr5). cbv beta.
  eexists _, _. split; [done|]. split; [exact Hi5|]. split; [by do 4 (etransitivity; [done|])|]. split.
  - exists (tsk u3). split; [|by eapply wakes_same]. eapply same_left; [exact Hw1|]. apply He.
  - eapply (posted_same L u L u _ u2); [done| |].
    + unfold posted, box. rewrite upd_list_eq. split; [done|]. intros q' Hne.
      rewrite upd_list_ne by congruence. apply same_msgs_letters, Hoth. congruence.
    + intros q'. transitivity (box (upd_list (MQueue q) l' L) u4 q'); [done|].
      rewrite Hb4. by apply sig_box.
Qed.
End send.

(** ** Handing out a letter *)

Lemma do_receive_ok u L held p z q y a x size prio :
  inv L held u → mqdess (mdata u) !! p = Some z → des_msgq z = Some q →
  msgqs (mdata u) !! q = Some y → a ∈ held → msgs (mdata u) !! a = Some x →
  0 ≤ msg_len x ≤ maxmsgsize y → maxmsgsize y ≤ size →
  ∃ L' u', nxmq_do_receive (Some p) a size prio u =
      Some ((Z.of_nat (length (letter_of x).2), (letter_of x).2,
             if prio then Some (letter_of x).1 else None), u') ∧
    inv L' (held ∖ {[a]}) u' ∧ mq_same u u' ∧ wakes (tsk u) NotFull q (tsk u') ∧ boxes_same L u L' u'.
Proof.
  intros Hi Hz Hq Hy Ha Hx Hlen Hsz. unfold nxmq_do_receive. dread msg_get_Some.
  pose proof (mv_data _ _ _ _ Hi) as Hd. pose proof (md_mail _ _ _ Hd a x Hx) as Hm.
  destruct (qo_size _ _ _ (md_queue _ _ _ Hd q y Hy)) as [Hmax _].
  do 2 rewrite (proj2 (Z.leb_le _ _)) by lia. cbn [andb]. krun klift_Some.
  destruct (free_msg_ok _ L held a Hd Ha) as (d' & L' & Hrun & Hd' & Hp & _).
  erewrite K_bind_Some by (eapply on_data_Some, Hrun). cbv beta.
  destruct (pools_inv _ _ _ _ _ _ Hi Hd' Hp) as (Hi1 & Hs1 & Hb1). set (u1 := with_d d' u) in *.
  pose proof (same_des u u1 p z Hs1 Hz) as Hz1. dread des_get_Some. rewrite Hq.
  destruct (same_queue u u1 q y Hs1 Hy) as (y1 & Hy1 & _).
  destruct (mq_unblock_ok u1 _ _ NotFull q y1 Hi1 Hy1) as (u2 & Hr2 & Hi2 & Hw2 & Hs2 & Hb2).
  rewrite (K_bind_Some _ _ _ _ _ Hr2). exists L', u2. split.
  { unfold letter_of. simpl. rewrite length_take. rewrite Nat.min_l, Z2Nat.id by lia. done. }
  split; [done|]. split; [by etransitivity|]. split; [done|]. intros q'. by rewrite Hb2.
Qed.
End ops.
