(* ===== verification/MqCalls.v ===== *)
(** * MqCalls: [nxmq_send] and [nxmq_receive] on every branch

    What a call returns, or that it blocks, with its effect on the letters and on
    the waiting tasks; and what the call does when the task runs again. *)

From stdpp Require Import sorting.
From S2P Require Import Prelude Queue QueueRefine Sched SchedSpec SchedInv SchedOps Semaphore SemSpec SemOps MQueue MqSpec MqInv MqWait MqView MqData MqOps.
Local Open Scope Z_scope.

(** ** Outcomes *)

Section outcomes.
Context `{MqConfig}.
Implicit Types (L : mlist → list addr) (u : mqsys lsched) (q r : addr) (e : letter) (y : mqueue_inode_s).

Definition is_full L u q y : Prop := maxmsgs y ≤ Z.of_nat (length (box L u q)).

(** Nothing happens to the queues and the waiting tasks. *)
Definition quiet L u L' u' : Prop := same_waits (tsk u) (tsk u') ∧ boxes_same L u L' u'.

(** There is room for the letter [e]. *)
Inductive delivery (irq : bool) (kmm : option (addr * mqueue_msg_s)) L u q e :
    Z → (mlist → list addr) → mqsys lsched → Prop :=
  | delivered L' u' :
      posted L u q e L' u' → sends (tsk u) q (tsk u') → delivery irq kmm L u q e OK L' u'
  | no_memory L' u' :
      L MFree = [] → (if irq then L MFreeIrq = [] else kmm = None) → quiet L u L' u' →
      delivery irq kmm L u q e (- ENOMEM) L' u'.

Inductive send_outcome (irq : bool) (kmm : option (addr * mqueue_msg_s)) (nonblock : bool) L u r q y e :
    outcome Z → (mlist → list addr) → mqsys lsched → Prop :=
  | send_room ret L' u' :
      irq = true ∨ ¬ is_full L u q y → delivery irq kmm L u q e ret L' u' →
      send_outcome irq kmm nonblock L u r q y e (Returns ret) L' u'
  | send_again L' u' :
      irq = false → is_full L u q y → nonblock = true → quiet L u L' u' →
      send_outcome irq kmm nonblock L u r q y e (Returns (- EAGAIN)) L' u'
  | send_blocks L' u' :
      irq = false → is_full L u q y → nonblock = false →
      starts (tsk u) NotFull q r (tsk u') → boxes_same L u L' u' →
      send_outcome irq kmm nonblock L u r q y e (Blocks (werr (tasks (tsk u)) r)) L' u'.

Inductive receive_outcome (nonblock : bool) L u r q (prio : bool) :
    outcome (Z * option (list Z * option Z)) → (mlist → list addr) → mqsys lsched → Prop :=
  | receive_letter e L' u' :
      fetched L u q e L' u' → wakes (tsk u) NotFull q (tsk u') →
      receive_outcome nonblock L u r q prio
        (Returns (Z.of_nat (length e.2), Some (e.2, if prio then Some e.1 else None))) L' u'
  | receive_again L' u' :
      box L u q = [] → nonblock = true → quiet L u L' u' →
      receive_outcome nonblock L u r q prio (Returns (- EAGAIN, None)) L' u'
  | receive_blocks L' u' :
      box L u q = [] → nonblock = false →
      starts (tsk u) NotEmpty q r (tsk u') → boxes_same L u L' u' →
      receive_outcome nonblock L u r q prio (Blocks (werr (tasks (tsk u)) r)) L' u'.

(** A wait that is over: the errno of the task [r] is restored. *)
Definition resumes t r t' (en : Z) : Prop :=
  dom (tasks t') = dom (tasks t) ∧
  (∀ d q a, a ∈ mwaiters t' d q ↔ a ∈ mwaiters t d q) ∧
  ∀ a, werr (tasks t') a = if decide (a = r) then en else werr (tasks t) a.

Lemma resumes_same u r t1 en : resumes (tsk u) r t1 en → mq_same u (with_t t1 u).
Proof. by intros (Hd & _). Qed.

Lemma same_resumes u r t1 en u' :
  resumes (tsk u) r t1 en → mq_same u u' → mq_same (with_t t1 u) u'.
Proof. intros (Hd & _) [Ht Hp Hdes Hc Hn]. split; simpl; [by rewrite Ht, Hd|done..]. Qed.

Lemma same_starts t1 t2 t3 d q r : same_waits t1 t2 → starts t2 d q r t3 → starts t1 d q r t3.
Proof.
  intros [H1 E1] (Hn & H2 & E2). split_and!.
  - intros d' q'. rewrite <- H1. apply Hn.
  - intros d' q' b. by rewrite H2, H1.
  - intros b. rewrite E2. case_decide; [done|apply E1].
Qed.
End outcomes.

Section calls.
Context `{Config} `{MqConfig} (idle : addr).
Implicit Types (u : mqsys lsched) (t : lsched) (L : mlist → list addr)
  (d : side) (a q r : addr) (y : mqueue_inode_s).
Abbreviation inv L := (mq_inv idle L ∅).

(** ** Blocking *)

Lemma block_ok u L d q y r c :
  inv L u → msgqs (mdata u) !! q = Some y → runs u r c → r ≠ idle →
  ∃ u', mq_block d (Some q) u = Some (werr (tasks (tsk u)) r, u') ∧ inv L u' ∧ mq_same u u' ∧
    starts (tsk u) d q r (tsk u') ∧ boxes_same L u L u'.
Proof.
  intros Hi Hy (l & x & Hl & Hx & _) Hne.
  destruct (mq_block_ok idle u L ∅ d q y r l x Hi Hy Hl Hx Hne) as (u' & Hrun & Hi' & Hb).
  exists u'. destruct (blocked_same_mq _ _ _ _ Hb) as [Hs Hbox].
  split; [unfold werr; by rewrite Hx|]. split; [done|]. split; [done|]. split; [|by intros b].
  by eapply blocked_starts.
Qed.

Lemma wait_send_loop_ok u L q y r c :
  inv L u → msgqs (mdata u) !! q = Some y → runs u r c → r ≠ idle →
  (¬ is_full L u q y ∧ wait_send_loop (Some q) u = Some (Returns OK, u)) ∨
  (is_full L u q y ∧ ∃ u', wait_send_loop (Some q) u = Some (Blocks (werr (tasks (tsk u)) r), u') ∧
     inv L u' ∧ mq_same u u' ∧ starts (tsk u) NotFull q r (tsk u') ∧ boxes_same L u L u').
Proof.
  intros Hi Hy Hr Hne. unfold wait_send_loop, is_full. rewrite <- (nmsgs_box idle u L ∅ q y Hi Hy).
  dread msgq_get_Some. destruct (Z.leb_spec (maxmsgs y) (nmsgs y)) as [Hf|Hf]; [right|left].
  - split; [done|]. destruct (block_ok u L NotFull q y r c Hi Hy Hr Hne) as (u' & Hrun & Hu').
    rewrite (K_bind_Some _ _ _ _ _ Hrun). eauto.
  - split; [lia|done].
Qed.

Lemma wakeup_ok u L r c en :
  inv L u → runs u r c →
  ∃ t1, mq_wakeup r en u = Some (werr (tasks (tsk u)) r, with_t t1 u) ∧ inv L (with_t t1 u) ∧
    resumes (tsk u) r t1 en ∧ mq_same u (with_t t1 u) ∧ runs (with_t t1 u) r c.
Proof.
  intros Hi (l & x & Hl & Hx & Hc). exists (upd (set_pterrno en) r (tsk u)). split_and!.
  - unfold mq_wakeup. tread ls_get. twrite ls_set. unfold werr. by rewrite Hx.
  - apply inv_tasks; [done|by apply inv_upd, Hi|apply size_alter|].
    eapply mwait_frame; [apply Hi| |done]. intros a. by apply wmq_alter_same.
  - split; [simpl; by rewrite dom_alter_L|].
    split; [intros d q a; rewrite !elem_mwaiters; simpl; by rewrite wmq_alter_same|].
    intros a. simpl. case_decide; [subst|apply werr_alter_ne; congruence].
    unfold werr. by rewrite lookup_alter_eq, Hx.
  - split; [|done..]. simpl. by rewrite dom_alter_L.
  - exists l, (set_pterrno en x). simpl. by rewrite lookup_alter_eq, Hx.
Qed.

(** ** Sending *)

Section sending.
Context (sig : Z → Z → Z → K (mqsys lsched) Z) `{!SignalsOk idle sig}.

Lemma finish_error irq u L kmm p msg msglen prio ret :
  inv L u → ret < 0 →
  ∃ u', send_finish sig irq kmm p msg msglen prio ret u = Some (ret, u') ∧
    inv L u' ∧ mq_same u u' ∧ quiet L u L u'.
Proof.
  intros Hi Hret. unfold send_finish. rewrite (proj2 (Z.leb_gt _ _) Hret).
  destruct (unlock_any idle irq u L ∅ Hi) as (b & t' & Hrun & Hi' & Hw & Hs).
  exists (with_t t' u). split; [|by split_and!]. erewrite K_bind_Some by reflexivity. cbv beta.
  by erewrite K_bind_Some by (eapply on_tcb_Some, Hrun).
Qed.

Lemma finish_ok irq u L kmm p x q y msg msglen prio :
  inv L u → notes_ok idle sig u → can_lock irq u 1 → mqdess (mdata u) !! p = Some x → des_msgq x = Some q →
  msgqs (mdata u) !! q = Some y → heap_msg (mdata u) kmm →
  0 ≤ prio ≤ MQ_PRIO_MAX → 0 ≤ msglen ≤ maxmsgsize y → msglen ≤ Z.of_nat (length msg) →
  ∃ ret L' u', send_finish sig irq kmm (Some p) msg msglen prio OK u = Some (ret, u') ∧
    inv L' u' ∧ mq_same u u' ∧
    delivery irq kmm L u q (prio, take (Z.to_nat msglen) msg) ret L' u'.
Proof.
  intros Hi Hno Hlock Hx Hq Hy Hheap Hp Hlen Hmsg. unfold send_finish. cbn [Z.leb OK Z.compare].
  destruct (alloc_msg_ok _ _ _ irq kmm (mv_data _ _ _ _ Hi) Hheap) as (m & d' & L' & Hrun & Hpool & Hm).
  destruct m as [a|].
  - destruct Hm as [_ Hd']. destruct (pools_inv _ _ _ _ _ _ _ Hi Hd' Hpool) as (Hi1 & Hs1 & Hb1).
    set (u1 := with_d d' u) in *. destruct (same_queue u u1 q y Hs1 Hy) as (y1 & Hy1 & _ & E1).
    destruct (do_send_ok idle sig irq u1 L' _ p x q y1 a msg msglen prio Hi1)
      as (L2 & u2 & Hr2 & Hi2 & Hs2 & Hse & Hpo);
      [by eapply notes_ok_same|done|by eapply same_des|done|done|set_solver|done|by rewrite E1|done|].
    destruct (unlock_any idle irq u2 _ _ Hi2) as (b & t3 & Hr3 & Hi3 & Hw3 & Hs3).
    exists OK, L2, (with_t t3 u2). split; [|split; [|split]].
    + erewrite K_bind_Some.
      2: { erewrite K_bind_Some by (eapply on_data_Some, Hrun). exact Hr2. }
      by erewrite K_bind_Some by (eapply on_tcb_Some, Hr3).
    + by replace (({[a]} ∪ ∅) ∖ {[a]}) with (∅ : gset addr) in Hi3 by set_solver.
    + by do 2 (etransitivity; [done|]).
    + constructor; [|by eapply sends_same]. by eapply (posted_same L u L' u1 L2 u2).
  - destruct Hm as (Hf & Hk & -> & ->).
    destruct (unlock_any idle irq u _ _ Hi) as (b & t3 & Hr3 & Hi3 & Hw3 & Hs3).
    exists (- ENOMEM), L, (with_t t3 u). split; [|split; [done|split; [done|by constructor]]].
    erewrite K_bind_Some.
    2: { by erewrite K_bind_Some by (eapply data_read, Hrun). }
    by erewrite K_bind_Some by (eapply on_tcb_Some, Hr3).
Qed.

(** What [nxmq_verify_send] answers for an open queue. *)
Definition send_code (msg : option (list Z)) (msglen prio : Z) (x : mq_des) y : Z :=
  if bool_decide (msg = None) || (prio <? 0) || (MQ_PRIO_MAX <? prio) then - EINVAL
  else if negb (has_flag (oflags x) O_WROK) then - EPERM
  else if maxmsgsize y <? msglen then - EMSGSIZE else OK.

Lemma verify_send_run (md : mq_data) p x q y msg msglen prio :
  mqdess md !! p = Some x → des_msgq x = Some q → msgqs md !! q = Some y →
  nxmq_verify_send (Some p) msg msglen prio md = Some (send_code msg msglen prio x y, md).
Proof.
  intros Hx Hq Hy. unfold nxmq_verify_send, send_code. rewrite (bool_decide_eq_false_2 (Some p = NULL)) by done.
  rewrite orb_false_r. destruct (_ || _); [done|]. krun des_get_Some. destruct (negb _); [done|].
  rewrite Hq. krun msgq_get_Some. by destruct (maxmsgsize y <? msglen).
Qed.

Lemma send_code_ok msg msglen prio x y :
  send_code msg msglen prio x y = OK →
  ∃ m, msg = Some m ∧ 0 ≤ prio ≤ MQ_PRIO_MAX ∧ has_flag (oflags x) O_WROK = true ∧ msglen ≤ maxmsgsize y.
Proof.
  unfold send_code. destruct msg as [m|]; [|done]. rewrite bool_decide_eq_false_2 by done. cbn [orb].
  destruct (Z.ltb_spec prio 0), (Z.ltb_spec MQ_PRIO_MAX prio); try done. cbn [orb].
  destruct (has_flag _ _) eqn:Hw; [|done]. cbn [negb].
  destruct (Z.ltb_spec (maxmsgsize y) msglen); [done|]. intros _. exists m. by repeat split.
Qed.

Lemma send_code_neg msg msglen prio x y :
  send_code msg msglen prio x y ≠ OK → send_code msg msglen prio x y < 0.
Proof. unfold send_code. by repeat case_match. Qed.

Lemma nxmq_send_rejects irq kmm u p x q y msg msglen prio :
  mqdess (mdata u) !! p = Some x → des_msgq x = Some q → msgqs (mdata u) !! q = Some y →
  send_code msg msglen prio x y ≠ OK →
  nxmq_send sig irq kmm (Some p) msg msglen prio u = Some (Returns (send_code msg msglen prio x y), u).
Proof.
  intros Hx Hq Hy Hc%send_code_neg. unfold nxmq_send.
  erewrite K_bind_Some by (eapply data_read, verify_send_run; done). cbv beta.
  by rewrite (proj2 (Z.ltb_lt _ _) Hc).
Qed.

(** From the point where the scheduler is locked. *)
Lemma send_outcome_after irq kmm nb L u u1 r q y e o L' u' :
  same_waits (tsk u) (tsk u1) → mdata u1 = mdata u → send_outcome irq kmm nb L u1 r q y e o L' u' →
  send_outcome irq kmm nb L u r q y e o L' u'.
Proof.
  intros Hw Hd. assert (∀ b, box L u1 b = box L u b) as Hb by (intros b; unfold box; by rewrite Hd).
  assert (is_full L u1 q y ↔ is_full L u q y) as Hf by (unfold is_full; by rewrite Hb).
  destruct 1 as [ret L1 u2 Hr [L2 u3 Hp Hs|L2 u3 Hm Hk [Hs Hbs]]|L1 u2 ? ? ? [Hs Hbs]|L1 u2 ? ? ? Hs Hbs].
  - apply send_room; [by rewrite <- Hf|]. constructor; [|by eapply sends_same; [| |reflexivity]].
    eapply posted_same; [|done|by intros b]. intros b. apply Hb.
  - apply send_room; [by rewrite <- Hf|]. constructor; [done|done|]. split; [by etransitivity|].
    intros b. by rewrite Hbs.
  - apply send_again; [done|by apply Hf|done|]. split; [by etransitivity|]. intros b. by rewrite Hbs.
  - rewrite (proj2 Hw). apply send_blocks; [done|by apply Hf|done|by eapply same_starts|].
    intros b. by rewrite Hbs.
Qed.

Lemma wait_send_run u p x q y :
  mqdess (mdata u) !! p = Some x → des_msgq x = Some q → msgqs (mdata u) !! q = Some y →
  maxmsgs y ≤ nmsgs y →
  nxmq_wait_send (Some p) u =
    if has_flag (oflags x) O_NONBLOCK then Some (Returns (- EAGAIN), u) else wait_send_loop (Some q) u.
Proof.
  intros Hx Hq Hy Hf. unfold nxmq_wait_send. dread des_get_Some. rewrite Hq. dread msgq_get_Some.
  rewrite (proj2 (Z.leb_le _ _) Hf). by destruct (has_flag _ _).
Qed.

Lemma nxmq_send_ok irq kmm u L p x q y r c m msglen prio :
  inv L u → notes_ok idle sig u → can_lock irq u 2 → runs u r c → (irq = false → r ≠ idle) →
  mqdess (mdata u) !! p = Some x → des_msgq x = Some q → msgqs (mdata u) !! q = Some y →
  heap_msg (mdata u) kmm → send_code (Some m) msglen prio x y = OK →
  0 ≤ msglen ≤ Z.of_nat (length m) →
  ∃ o L' u', nxmq_send sig irq kmm (Some p) (Some m) msglen prio u = Some (o, u') ∧
    inv L' u' ∧ mq_same u u' ∧
    send_outcome irq kmm (has_flag (oflags x) O_NONBLOCK) L u r q y
      (prio, take (Z.to_nat msglen) m) o L' u'.
Proof.
  intros Hi Hno Hlock Hr Hne Hx Hq Hy Hheap Hc Hlen. unfold nxmq_send.
  erewrite K_bind_Some by (eapply data_read, verify_send_run; done). cbv beta. rewrite Hc. cbn.
  krun klift_Some. destruct (send_code_ok _ _ _ _ _ Hc) as (m' & [= <-] & Hp & _ & Hmax).
  destruct (lock_any idle irq u L ∅ 1 Hi Hlock) as (t1 & Hr1 & Hi1 & Hl1 & Hw1 & Hs1 & _ & Hrun1); [done|].
  twrite Hr1. destruct (Hrun1 r) as [c1 Hrc1]; [by exists c|]. set (u1 := with_t t1 u) in *.
  dread des_get_Some. rewrite Hq.
  erewrite K_bind_Some by (eapply data_read, msgq_get_Some; exact Hy). cbv beta.
  assert (∀ L' u' o, mq_same u1 u' → inv L' u' →
    send_outcome irq kmm (has_flag (oflags x) O_NONBLOCK) L u1 r q y (prio, take (Z.to_nat msglen) m) o L' u' →
    inv L' u' ∧ mq_same u u' ∧ send_outcome irq kmm (has_flag (oflags x) O_NONBLOCK) L u r q y
      (prio, take (Z.to_nat msglen) m) o L' u') as Hfin.
  { intros L' u' o Hs' Hi' Ho. split; [done|]. split; [by etransitivity|].
    by apply (send_outcome_after _ _ _ _ _ u1). }
  pose proof (nmsgs_box idle u1 L ∅ q y Hi1 Hy) as Hn.
  destruct (negb irq && (maxmsgs y <=? nmsgs y)) eqn:Hfull.
  - apply andb_true_iff in Hfull as [Hirq%negb_true_iff Hfull%Z.leb_le].
    pose proof (wait_send_run u1 p x q y Hx Hq Hy Hfull) as Hw. rewrite Hn in Hfull.
    destruct (has_flag (oflags x) O_NONBLOCK) eqn:Hnb.
    + destruct (finish_error irq u1 L kmm (Some p) m msglen prio (- EAGAIN) Hi1)
        as (u' & Hrun & Hi' & Hs' & Hqu); [done|].
      eexists _, L, u'. split; [by rewrite (K_bind_Some _ _ _ _ _ Hw), (K_bind_Some _ _ _ _ _ Hrun)|].
      apply Hfin; [done..|]. by apply send_again.
    + destruct (wait_send_loop_ok u1 L q y r c1 Hi1 Hy Hrc1 (Hne Hirq)) as [[Hnf _]|(_ & u' & Hrun & Hi' & Hs'
        & Hst & Hb)];
        [done|].
      eexists _, L, u'. rewrite Hrun in Hw.
      split; [by rewrite (K_bind_Some _ _ _ _ _ Hw)|]. apply Hfin; [done..|]. by apply send_blocks.
  - destruct (finish_ok irq u1 L kmm p x q y m msglen prio Hi1 (notes_ok_same _ _ _ _ Hs1 Hno) Hl1 Hx Hq Hy Hheap Hp)
      as (ret & L' & u' & Hrun & Hi' & Hs' & Hd); [lia|lia|].
    eexists _, L', u'. split.
    { erewrite K_bind_Some by reflexivity. cbv beta iota. by rewrite (K_bind_Some _ _ _ _ _ Hrun). }
    apply Hfin; [done..|]. apply send_room; [|done]. destruct irq; [by left|right]. apply Z.leb_gt in Hfull.
    unfold is_full. rewrite <- Hn. lia.
Qed.

Lemma nxmq_send_resume_ok u L p x q y r c en kmm m msglen prio :
  inv L u → notes_ok idle sig u → can_lock false u 1 → runs u r c → r ≠ idle → OK ≤ werr (tasks (tsk u)) r →
  mqdess (mdata u) !! p = Some x → des_msgq x = Some q → msgqs (mdata u) !! q = Some y →
  heap_msg (mdata u) kmm → 0 ≤ prio ≤ MQ_PRIO_MAX → 0 ≤ msglen ≤ maxmsgsize y →
  msglen ≤ Z.of_nat (length m) →
  ∃ o L' u' t1, nxmq_send_resume sig r en kmm (Some p) q m msglen prio u = Some (o, u') ∧
    inv L' u' ∧ mq_same u u' ∧ resumes (tsk u) r t1 en ∧
    if decide (werr (tasks (tsk u)) r = OK)
    then send_outcome false kmm false L (with_t t1 u) r q y (prio, take (Z.to_nat msglen) m) o L' u'
    else o = Returns (- werr (tasks (tsk u)) r) ∧ quiet L (with_t t1 u) L' u'.
Proof.
  intros Hi Hno Hlock Hr Hne Herr Hx Hq Hy Hheap Hp Hlen Hmsg.
  destruct (wakeup_ok u L r c en Hi Hr) as (t1 & Hrun1 & Hi1 & Hres & Hs1 & Hr1).
  set (u1 := with_t t1 u) in *. unfold nxmq_send_resume.
  assert (nxmq_wait_send_resume r en (Some q) u =
    if decide (werr (tasks (tsk u)) r = OK) then wait_send_loop (Some q) u1
    else Some (Returns (- werr (tasks (tsk u)) r), u1)) as Hw.
  { unfold nxmq_wait_send_resume. rewrite (K_bind_Some _ _ _ _ _ Hrun1).
    case_decide as Hz; [by rewrite Hz|]. by rewrite (proj2 (Z.eqb_neq _ _) Hz). }
  case_decide as Hz.
  - destruct (wait_send_loop_ok u1 L q y r c Hi1 Hy Hr1 Hne)
      as [[Hnf Hrun2]|(Hf & u' & Hrun2 & Hi' & Hs' & Hst & Hb)]; rewrite Hrun2 in Hw.
    + destruct (finish_ok false u1 L kmm p x q y m msglen prio Hi1 (notes_ok_same _ _ _ _ Hs1 Hno))
        as (ret & L' & u' & Hrun & Hi' & Hs' & Hd); [|done..|].
      { intros _ r' c' Hr'. destruct (runs_fun _ _ _ _ _ Hr1 Hr') as [<- <-]. by eapply Hlock. }
      exists (Returns ret), L', u', t1. split_and!; [|done|by etransitivity|done|by apply send_room; [right|]].
      by rewrite (K_bind_Some _ _ _ _ _ Hw), (K_bind_Some _ _ _ _ _ Hrun).
    + exists (Blocks (werr (tasks t1) r)), L, u', t1.
      split_and!; [by rewrite (K_bind_Some _ _ _ _ _ Hw)|done|by etransitivity|done|by apply send_blocks].
  - destruct (finish_error false u1 L kmm (Some p) m msglen prio (- werr (tasks (tsk u)) r) Hi1)
      as (u' & Hrun & Hi' & Hs' & Hqu); [unfold OK in *; lia|].
    eexists _, L, u', t1. split_and!; [|done|by etransitivity|done|done|done].
    by rewrite (K_bind_Some _ _ _ _ _ Hw), (K_bind_Some _ _ _ _ _ Hrun).
Qed.
End sending.

(** ** Receiving *)

(** The first message of the queue is in the hands of the receiver. *)
Definition taken L u q y (a : addr) (L' : mlist → list addr) u' : Prop :=
  mq_inv idle L' {[a]} u' ∧ mq_same u u' ∧ msys u' = msys u ∧
  ∃ x, msgs (mdata u') !! a = Some x ∧ 0 ≤ msg_len x ≤ maxmsgsize y ∧ fetched L u q (letter_of x) L' u'.

Lemma take_letter u L q y a l :
  inv L u → msgqs (mdata u) !! q = Some y → L (MQueue q) = a :: l →
  ∃ u', (∀ p, wait_receive_loop p q u = Some (Returns (OK, Some a), u')) ∧
    taken L u q y a (upd_list (MQueue q) l L) u'.
Proof.
  intros Hi Hy Hl. pose proof (mv_data _ _ _ _ Hi) as Hd.
  destruct (take_ok_mq _ _ _ q y a l Hd Hy Hl) as (d1 & d' & Hr1 & Hr2 & Hd' & Hs & Hm).
  exists (with_d d' u). split.
  { intros p. unfold wait_receive_loop. erewrite K_bind_Some by (eapply on_data_Some, Hr1). cbv beta iota.
    by erewrite K_bind_Some by (eapply on_data_Some, Hr2). }
  destruct (inv_data idle _ _ _ _ _ _ Hi Hd' Hs) as [Hi' Hs']. rewrite union_empty_r_L in Hi'.
  split; [done|]. split; [done|]. split; [done|].
  assert (a ∈ dom (msgs (mdata u))) as [x Hx]%elem_of_dom.
  { apply (ml_dom _ _ _ (md_lists _ _ _ Hd)). right. exists (MQueue q). rewrite Hl. set_solver. }
  destruct (same_data_lookup _ _ _ _ _ Hm Hx) as (x' & Hx' & E). exists x'. split; [done|].
  injection E as _ E2 E3 E4.
  split; [rewrite E3; apply (qo_len _ _ _ (md_queue _ _ _ Hd q y Hy) a); [rewrite Hl; set_solver|done]|].
  split.
  - unfold box. rewrite upd_list_eq, Hl, (letters_cons _ _ _ _ Hx). simpl.
    rewrite (letters_same _ _ _ Hm). f_equal. unfold letter_of. congruence.
  - intros q' Hne. unfold box. rewrite upd_list_ne by congruence. by apply letters_same.
Qed.

Lemma box_nil u L q :
  inv L u → box L u q = [] → L (MQueue q) = [].
Proof.
  intros Hi. unfold box. destruct (L (MQueue q)) as [|a l] eqn:Hl; [done|].
  assert (a ∈ dom (msgs (mdata u))) as [x Hx]%elem_of_dom.
  { apply (ml_dom _ _ _ (md_lists _ _ _ (mv_data _ _ _ _ Hi))). right. exists (MQueue q). rewrite Hl. set_solver. }
  by rewrite (letters_cons _ _ _ _ Hx).
Qed.

(** The queue is empty. *)
Lemma wait_receive_empty u L p z q y r c :
  inv L u → mqdess (mdata u) !! p = Some z → msgqs (mdata u) !! q = Some y → runs u r c → r ≠ idle →
  L (MQueue q) = [] →
  if has_flag (oflags z) O_NONBLOCK
  then wait_receive_loop (Some p) q u = Some (Returns (- EAGAIN, NULL), u)
  else ∃ u', wait_receive_loop (Some p) q u = Some (Blocks (werr (tasks (tsk u)) r), u') ∧
     inv L u' ∧ mq_same u u' ∧ starts (tsk u) NotEmpty q r (tsk u') ∧ boxes_same L u L u'.
Proof.
  intros Hi Hz Hy Hr Hne Hl. unfold wait_receive_loop.
  assert (mq_list (MQueue q) (mdata u) = Some (msglist y)) as Hq by (simpl; by rewrite Hy).
  erewrite K_bind_Some
    by (eapply data_read, mlist_take_empty; [apply Hi|exact Hq|done]). cbv beta iota.
  dread des_get_Some. destruct (has_flag (oflags z) O_NONBLOCK); [done|]. cbn [negb].
  destruct (block_ok u L NotEmpty q y r c Hi Hy Hr Hne) as (u' & Hrun & Hu').
  rewrite (K_bind_Some _ _ _ _ _ Hrun). eauto.
Qed.

Lemma receive_finish_error u L p size prio ret m :
  inv L u → ret < 0 →
  ∃ u', receive_finish p size prio ret m u = Some ((ret, None), u') ∧
    inv L u' ∧ mq_same u u' ∧ quiet L u L u'.
Proof.
  intros Hi Hret. unfold receive_finish. rewrite (proj2 (Z.leb_gt _ _) Hret).
  destruct (unlock_any idle false u L ∅ Hi) as (b & t' & Hrun & Hi' & Hw & Hs).
  exists (with_t t' u). split; [|by split_and!]. erewrite K_bind_Some by reflexivity. cbv beta.
  by erewrite K_bind_Some by (eapply on_tcb_Some, Hrun).
Qed.

Lemma receive_finish_ok u L p z q y a L1 u1 size prio :
  mqdess (mdata u) !! p = Some z → des_msgq z = Some q → msgqs (mdata u) !! q = Some y →
  taken L u q y a L1 u1 → maxmsgsize y ≤ size →
  ∃ e L' u', receive_finish (Some p) size prio OK (Some a) u1 =
      Some ((Z.of_nat (length e.2), Some (e.2, if prio then Some e.1 else None)), u') ∧
    inv L' u' ∧ mq_same u u' ∧ fetched L u q e L' u' ∧ wakes (tsk u) NotFull q (tsk u').
Proof.
  intros Hz Hq Hy (Hi1 & Hs1 & Ht1 & x & Hx & Hlen & Hf) Hsz.
  destruct (same_queue u u1 q y Hs1 Hy) as (y1 & Hy1 & _ & E1).
  destruct (do_receive_ok idle u1 L1 _ p z q y1 a x size prio Hi1)
    as (L2 & u2 & Hr2 & Hi2 & Hs2 & Hw2 & Hb2); [by eapply same_des|done|done|set_solver|done|lia|lia|].
  destruct (unlock_any idle false u2 _ _ Hi2) as (b & t3 & Hr3 & Hi3 & Hw3 & Hs3).
  exists (letter_of x), L2, (with_t t3 u2). split_and!.
  - unfold receive_finish. cbn [Z.leb OK Z.compare]. erewrite K_bind_Some.
    2: { krun kassert_Some. krun klift_Some. by rewrite (K_bind_Some _ _ _ _ _ Hr2). }
    by erewrite K_bind_Some by (eapply on_tcb_Some, Hr3).
  - by replace ({[a]} ∖ {[a]}) with (∅ : gset addr) in Hi3 by set_solver.
  - by do 2 (etransitivity; [done|]).
  - by eapply (fetched_same L u L u L1 u1 L2 u2).
  - rewrite Ht1 in Hw2. by eapply wakes_same.
Qed.

Definition receive_rest (p : ptr) (size : Z) (prio : bool) (st : outcome (Z * ptr))
  : K (mqsys lsched) (outcome (Z * option (list Z * option Z))) :=
  match st with
  | Returns (ret, mqmsg) => res ← receive_finish p size prio ret mqmsg; mret (Returns res)
  | Blocks e => mret (Blocks e)
  end.

Lemma receive_loop_ok u L p z q y r c size prio :
  inv L u → runs u r c → r ≠ idle →
  mqdess (mdata u) !! p = Some z → des_msgq z = Some q → msgqs (mdata u) !! q = Some y →
  maxmsgsize y ≤ size →
  ∃ o L' u', (st ← wait_receive_loop (Some p) q; receive_rest (Some p) size prio st) u = Some (o, u') ∧
    inv L' u' ∧ mq_same u u' ∧
    receive_outcome (has_flag (oflags z) O_NONBLOCK) L u r q prio o L' u'.
Proof.
  intros Hi Hr Hne Hz Hq Hy Hsz. destruct (L (MQueue q)) as [|a l] eqn:Hl.
  - assert (box L u q = []) as Hb by (unfold box; by rewrite Hl).
    pose proof (wait_receive_empty u L p z q y r c Hi Hz Hy Hr Hne Hl) as Hw.
    destruct (has_flag (oflags z) O_NONBLOCK) eqn:Hnb.
    + destruct (receive_finish_error u L (Some p) size prio (- EAGAIN) NULL Hi) as (u' & Hrun & Hi' & Hs' & Hqu);
        [done|].
      eexists _, L, u'. split; [by rewrite (K_bind_Some _ _ _ _ _ Hw); cbn; rewrite (K_bind_Some _ _ _ _ _ Hrun)|].
      split; [done|]. split; [done|by apply receive_again].
    + destruct Hw as (u' & Hrun & Hi' & Hs' & Hst & Hbs). eexists _, L, u'.
      split; [by rewrite (K_bind_Some _ _ _ _ _ Hrun)|]. split; [done|]. split; [done|by apply receive_blocks].
  - destruct (take_letter u L q y a l Hi Hy Hl) as (u1 & Hrun & Ht).
    destruct (receive_finish_ok u L p z q y a _ u1 size prio Hz Hq Hy Ht Hsz)
      as (e & L' & u' & Hrun2 & Hi' & Hs' & Hf & Hw).
    eexists _, L', u'. split; [by rewrite (K_bind_Some _ _ _ _ _ (Hrun _)); cbn;
      rewrite (K_bind_Some _ _ _ _ _ Hrun2)|].
    split; [done|]. split; [done|by apply receive_letter].
Qed.

(** What [nxmq_verify_receive] answers for an open queue. *)
Definition receive_code (msg : bool) (msglen : Z) (x : mq_des) y : Z :=
  if negb msg then - EINVAL
  else if negb (has_flag (oflags x) O_RDOK) then - EPERM
  else if msglen <? maxmsgsize y then - EMSGSIZE else OK.

Lemma verify_receive_run (md : mq_data) p x q y msg msglen :
  mqdess md !! p = Some x → des_msgq x = Some q → msgqs md !! q = Some y →
  nxmq_verify_receive (Some p) msg msglen md = Some (receive_code msg msglen x y, md).
Proof.
  intros Hx Hq Hy. unfold nxmq_verify_receive, receive_code.
  rewrite (bool_decide_eq_false_2 (Some p = NULL)) by done.
  rewrite orb_false_r. destruct (negb _); [done|]. krun des_get_Some. destruct (negb _); [done|].
  rewrite Hq. krun msgq_get_Some. by destruct (msglen <? maxmsgsize y).
Qed.

Lemma receive_code_ok msg msglen x y :
  receive_code msg msglen x y = OK →
  msg = true ∧ has_flag (oflags x) O_RDOK = true ∧ maxmsgsize y ≤ msglen.
Proof.
  unfold receive_code. destruct msg; [|done]. cbn [negb]. destruct (has_flag _ _); [|done]. cbn [negb].
  destruct (Z.ltb_spec msglen (maxmsgsize y)); [done|]. by repeat split.
Qed.

Lemma receive_code_neg msg msglen x y :
  receive_code msg msglen x y ≠ OK → receive_code msg msglen x y < 0.
Proof. unfold receive_code. by repeat case_match. Qed.

Lemma nxmq_receive_rejects u p x q y msg msglen prio :
  mqdess (mdata u) !! p = Some x → des_msgq x = Some q → msgqs (mdata u) !! q = Some y →
  receive_code msg msglen x y ≠ OK →
  nxmq_receive (Some p) msg msglen prio u = Some (Returns (receive_code msg msglen x y, None), u).
Proof.
  intros Hx Hq Hy Hc%receive_code_neg. unfold nxmq_receive.
  erewrite K_bind_Some by (eapply data_read, verify_receive_run; done). cbv beta.
  by rewrite (proj2 (Z.ltb_lt _ _) Hc).
Qed.

Lemma receive_outcome_after nb L u u1 r q prio o L' u' :
  same_waits (tsk u) (tsk u1) → mwaiters (tsk u1) NotFull q = mwaiters (tsk u) NotFull q →
  mdata u1 = mdata u → receive_outcome nb L u1 r q prio o L' u' → receive_outcome nb L u r q prio o L' u'.
Proof.
  intros Hw Hws Hd. assert (∀ b, box L u1 b = box L u b) as Hb by (intros b; unfold box; by rewrite Hd).
  destruct 1 as [e L1 u2 Hf Hk|L1 u2 Hn Hnb [Hs Hbs]|L1 u2 Hn Hnb Hst Hbs].
  - apply receive_letter; [by eapply fetched_same; [|done|]|].
    destruct Hk as [[Hk1 Hk2]|(a & ws & Hk1 & Hk2 & Hk3 & Hk4)].
    + left. rewrite <- Hws. split; [done|by etransitivity].
    + right. exists a, ws. rewrite <- Hws. split; [done|]. destruct Hw as [H1 E1]. split; [by apply H1|].
      split; [|congruence]. intros d' q' b. by rewrite Hk3, H1.
  - apply receive_again; [by rewrite <- Hb|done|]. split; [by etransitivity|]. intros b. by rewrite Hbs.
  - rewrite (proj2 Hw). apply receive_blocks; [by rewrite <- Hb|done|by eapply same_starts|].
    intros b. by rewrite Hbs.
Qed.

Lemma nxmq_receive_ok u L p z q y r c size prio :
  inv L u → can_lock false u 1 → runs u r c → r ≠ idle →
  mqdess (mdata u) !! p = Some z → des_msgq z = Some q → msgqs (mdata u) !! q = Some y →
  receive_code true size z y = OK →
  ∃ o L' u', nxmq_receive (Some p) true size prio u = Some (o, u') ∧ inv L' u' ∧ mq_same u u' ∧
    receive_outcome (has_flag (oflags z) O_NONBLOCK) L u r q prio o L' u'.
Proof.
  intros Hi Hlock Hr Hne Hz Hq Hy Hc. unfold nxmq_receive.
  erewrite K_bind_Some by (eapply data_read, verify_receive_run; done). cbv beta. rewrite Hc. cbn.
  destruct (receive_code_ok _ _ _ _ Hc) as (_ & _ & Hsz).
  destruct (lock_any idle false u L ∅ 0 Hi Hlock) as (t1 & Hr1 & Hi1 & Hl1 & Hw1 & Hs1 & Hws & Hrun1); [done|].
  twrite Hr1. destruct (Hrun1 r) as [c1 Hrc1]; [by exists c|]. set (u1 := with_t t1 u) in *.
  destruct (receive_loop_ok u1 L p z q y r c1 size prio Hi1 Hrc1 Hne Hz Hq Hy Hsz)
    as (o & L' & u' & Hrun & Hi' & Hs' & Ho).
  exists o, L', u'. split; [|split; [done|split; [by etransitivity|by apply (receive_outcome_after _ _ _ u1)]]].
  rewrite <- Hrun. assert (nxmq_wait_receive (Some p) u1 = wait_receive_loop (Some p) q u1) as Hw.
  { unfold nxmq_wait_receive. dread des_get_Some. rewrite Hq. by krun klift_Some. }
  unfold mbind, K_bind. by rewrite Hw.
Qed.

Lemma nxmq_receive_resume_ok u L p z q y r c en size prio :
  inv L u → runs u r c → r ≠ idle → OK ≤ werr (tasks (tsk u)) r →
  mqdess (mdata u) !! p = Some z → des_msgq z = Some q → msgqs (mdata u) !! q = Some y →
  maxmsgsize y ≤ size →
  ∃ o L' u' t1, nxmq_receive_resume r en (Some p) q size prio u = Some (o, u') ∧
    inv L' u' ∧ mq_same u u' ∧ resumes (tsk u) r t1 en ∧
    if decide (werr (tasks (tsk u)) r = OK)
    then receive_outcome (has_flag (oflags z) O_NONBLOCK) L (with_t t1 u) r q prio o L' u'
    else o = Returns (- werr (tasks (tsk u)) r, None) ∧ quiet L (with_t t1 u) L' u'.
Proof.
  intros Hi Hr Hne Herr Hz Hq Hy Hsz.
  destruct (wakeup_ok u L r c en Hi Hr) as (t1 & Hrun1 & Hi1 & Hres & Hs1 & Hr1).
  set (u1 := with_t t1 u) in *. unfold nxmq_receive_resume.
  assert (nxmq_wait_receive_resume r en (Some p) q u =
    if decide (werr (tasks (tsk u)) r = OK) then wait_receive_loop (Some p) q u1
    else Some (Returns (- werr (tasks (tsk u)) r, NULL), u1)) as Hw.
  { unfold nxmq_wait_receive_resume. rewrite (K_bind_Some _ _ _ _ _ Hrun1).
    case_decide as Hx; [by rewrite Hx|]. by rewrite (proj2 (Z.eqb_neq _ _) Hx). }
  case_decide as Hx.
  - destruct (receive_loop_ok u1 L p z q y r c size prio Hi1 Hr1 Hne Hz Hq Hy Hsz)
      as (o & L' & u' & Hrun & Hi' & Hs' & Ho).
    exists o, L', u', t1. split_and!; [|done|by etransitivity|done|done].
    rewrite <- Hrun. unfold mbind, K_bind. by rewrite Hw.
  - destruct (receive_finish_error u1 L (Some p) size prio (- werr (tasks (tsk u)) r) NULL Hi1)
      as (u' & Hrun & Hi' & Hs' & Hqu); [unfold OK in *; lia|].
    eexists _, L, u', t1. split_and!; [|done|by etransitivity|done|done|done].
    by rewrite (K_bind_Some _ _ _ _ _ Hw), (K_bind_Some _ _ _ _ _ Hrun).
Qed.
End calls.
