(* ===== verification/MqHist.v ===== *)
(** * MqHist: histories of calls on message queues

    Tasks and interrupt handlers use message queues, with operations of the
    scheduler in between.  The abstract system is a set of mailboxes ordered by
    priority; [watched] is the invariant behind the delivery of messages: when
    tasks wait for a queue, as many have been woken for it as it has letters (or
    free places). *)

From S2P Require Import Prelude Queue QueueRefine Sched SchedSpec SchedInv SchedOps SchedProps Semaphore SemSpec SemOps SemProps MQueue MqSpec MqInv MqWait MqView MqData MqOps MqCalls.
Local Open Scope Z_scope.

(** ** The calls *)

(** A call that has blocked: the rest of it is to be done when the task runs. *)
Inductive mq_cont :=
  | InSend (saved_errno : Z) (mqdes msgq : addr) (msg : list Z) (msglen prio : Z)
  | InReceive (saved_errno : Z) (mqdes msgq : addr) (msglen : Z).

Inductive mq_op :=
  | MqSend (kmm : option (addr * mqueue_msg_s)) (mqdes : addr) (msg : option (list Z)) (msglen prio : Z)
  | MqIrqSend (mqdes : addr) (msg : option (list Z)) (msglen prio : Z)
  | MqReceive (mqdes : addr) (msg : bool) (msglen : Z)
  | MqResume (kmm : option (addr * mqueue_msg_s))
  | MqInterrupt (a : addr) (errcode : Z)
  | MqTimeout (d : side) (pid : Z)
  | MqSched (o : sched_op).

(** What becomes known of the letters: through which descriptor they went. *)
Inductive mq_event := Sent (mqdes : addr) (e : letter) | Received (mqdes : addr) (e : letter).

Section history.
Context `{Config} `{MqConfig} {S : Type} `{!TaskLists S} (idle : addr).
Context (sig : Z → Z → Z → K (mqsys S) Z).

(** A task that waits for a message queue is left to the message queues. *)
Definition mq_compat (o : sched_op) : K S bool :=
  match o with
  | OpBlock st => mret (bool_decide (waiting_side st = None))
  | OpUnblock a => x ← tcb_get a; mret (bool_decide (waiting_side (task_state x) = None))
  | _ => mret true
  end.

(** The heap provides a new structure, or none. *)
Definition heap_fresh (md : mq_data) (kmm : option (addr * mqueue_msg_s)) : bool :=
  match kmm with
  | Some (a, x) =>
      bool_decide (a ∉ dom (msgs md)) && (Z.of_nat (length (mail x)) =? MQ_MAX_BYTES) &&
      (Z.of_nat (size (msgs md)) <? 32767)
  | None => true
  end.

(** The buffer of a sender has [msglen] bytes. *)
Definition buffer_ok (msg : option (list Z)) (msglen : Z) : bool :=
  match msg with Some m => (0 <=? msglen) && (msglen <=? Z.of_nat (length m)) | None => true end.

Definition send_event (p : addr) (msg : list Z) (msglen prio ret : Z) : list mq_event :=
  if ret =? OK then [Sent p (prio, take (Z.to_nat msglen) msg)] else [].

Definition receive_event (p : addr) (res : Z * option (list Z * option Z)) : list mq_event :=
  match res with (_, Some (bytes, Some prio)) => [Received p (prio, bytes)] | _ => [] end.

(** The end of a call of task [r], or that it blocks. *)
Definition after_send (conts : gmap addr mq_cont) (r p q : addr) (msg : list Z) (msglen prio : Z)
    (st : outcome Z) : gmap addr mq_cont * list mq_event :=
  match st with
  | Returns ret => (delete r conts, send_event p msg msglen prio ret)
  | Blocks e => (<[r := InSend e p q msg msglen prio]> conts, [])
  end.

Definition after_receive (conts : gmap addr mq_cont) (r p q : addr) (msglen : Z)
    (st : outcome (Z * option (list Z * option Z))) : gmap addr mq_cont * list mq_event :=
  match st with
  | Returns res => (delete r conts, receive_event p res)
  | Blocks e => (<[r := InReceive e p q msglen]> conts, [])
  end.

Definition queue_of (p : addr) : K (mqsys S) addr :=
  x ← on_data (des_get (Some p)); klift (des_msgq x).

(** [conts] holds the calls that have blocked; when such a task runs, it goes on
    with its call first.  Skipped are operations their callers may not perform: the
    IDLE task waiting, locks beyond [MAX_LOCK_COUNT], an interruption without an
    error code. *)
Definition mq_exec (conts : gmap addr mq_cont) (o : mq_op)
  : K (mqsys S) (gmap addr mq_cont * list mq_event) :=
  r ← on_tcb this_task;
  xr ← on_tcb (tcb_get r);
  md ← on_data (kget Some);
  let room := lockcount xr + 2 <=? MAX_LOCK_COUNT in
  let free := bool_decide (conts !! r = None) && negb (bool_decide (r = idle)) && room in
  match o with
  | MqSend kmm p msg msglen prio =>
      if free && heap_fresh md kmm && buffer_ok msg msglen then
        q ← queue_of p;
        st ← nxmq_send sig false kmm (Some p) msg msglen prio;
        mret (after_send conts r p q (default [] msg) msglen prio st)
      else mret (conts, [])
  | MqIrqSend p msg msglen prio =>
      if buffer_ok msg msglen then
        st ← nxmq_send sig true None (Some p) msg msglen prio;
        mret (conts, match st with
                     | Returns ret => send_event p (default [] msg) msglen prio ret
                     | Blocks _ => []
                     end)
      else mret (conts, [])
  | MqReceive p msg msglen =>
      if free then
        q ← queue_of p;
        st ← nxmq_receive (Some p) msg msglen true;
        mret (after_receive conts r p q msglen st)
      else mret (conts, [])
  | MqResume kmm =>
      match conts !! r with
      | Some (InSend e p q msg msglen prio) =>
          if room && heap_fresh md kmm then
            st ← nxmq_send_resume sig r e kmm (Some p) q msg msglen prio;
            mret (after_send conts r p q msg msglen prio st)
          else mret (conts, [])
      | Some (InReceive e p q msglen) =>
          st ← nxmq_receive_resume r e (Some p) q msglen true;
          mret (after_receive conts r p q msglen st)
      | None => mret (conts, [])
      end
  | MqInterrupt a e => kwhen (OK <? e) (nxmq_wait_irq a e);; mret (conts, [])
  | MqTimeout d pid => mq_timeout d pid;; mret (conts, [])
  | MqSched o =>
      ok ← on_tcb (mq_compat o);
      kwhen (ok : bool) (on_tcb (sched_exec idle o));; mret (conts, [])
  end.

Fixpoint mq_run (conts : gmap addr mq_cont) (os : list mq_op)
  : K (mqsys S) (gmap addr mq_cont * list mq_event) :=
  match os with
  | [] => mret (conts, [])
  | o :: os =>
      '(conts, ev) ← mq_exec conts o;
      '(conts, evs) ← mq_run conts os;
      mret (conts, ev ++ evs)
  end.
End history.

(** The tasks and descriptors an operation names exist. *)
Definition mq_op_in (T P : gset addr) (o : mq_op) : bool :=
  match o with
  | MqSend _ p _ _ _ | MqIrqSend p _ _ _ | MqReceive p _ _ => bool_decide (p ∈ P)
  | MqInterrupt a _ => bool_decide (a ∈ T)
  | MqSched o => sched_op_in T o
  | MqResume _ | MqTimeout _ _ => true
  end.

(** ** The abstract system: mailboxes *)

Definition upd_box (q : addr) (l : list letter) (B : addr → list letter) (q' : addr) : list letter :=
  if decide (q' = q) then l else B q'.

(** An event is possible, and what it does: a letter goes into the box behind those
    of the same or a higher priority, and the first one is taken out. *)
Inductive mail_step (D : mem mq_des) : (addr → list letter) → mq_event → (addr → list letter) → Prop :=
  | mail_sent B p x q e B' :
      D !! p = Some x → des_msgq x = Some q → (∀ q', B' q' = upd_box q (pq_insert e (B q)) B q') →
      mail_step D B (Sent p e) B'
  | mail_received B p x q e l B' :
      D !! p = Some x → des_msgq x = Some q → B q = e :: l → (∀ q', B' q' = upd_box q l B q') →
      mail_step D B (Received p e) B'.

Inductive mail_steps (D : mem mq_des) : (addr → list letter) → list mq_event → (addr → list letter) → Prop :=
  | mail_nil B B' : (∀ q, B' q = B q) → mail_steps D B [] B'
  | mail_cons B ev B1 evs B' :
      mail_step D B ev B1 → mail_steps D B1 evs B' → mail_steps D B (ev :: evs) B'.

Section mail.
Implicit Types (D : mem mq_des) (B : addr → list letter).

Lemma mail_steps_ext D B B2 evs B' :
  (∀ q, B2 q = B q) → mail_steps D B evs B' → mail_steps D B2 evs B'.
Proof.
  intros HB Hs. destruct Hs as [B B' HB'|B ev B1 evs B' Hev Hs].
  { apply mail_nil. intros q. by rewrite HB', HB. }
  apply (mail_cons D B2 ev B1); [|done].
  destruct Hev as [B p x q e B1 Hx Hq HB1|B p x q e l B1 Hx Hq Hl HB1].
  - eapply mail_sent; [done|done|]. intros q'. rewrite HB1. unfold upd_box. by rewrite !HB.
  - eapply (mail_received D B2 p x q e l); [done|done|by rewrite HB|].
    intros q'. rewrite HB1. unfold upd_box. by rewrite !HB.
Qed.

Lemma mail_steps_app D B evs1 B1 evs2 B2 :
  mail_steps D B evs1 B1 → mail_steps D B1 evs2 B2 → mail_steps D B (evs1 ++ evs2) B2.
Proof.
  induction 1 as [B B' HB|B ev B1 evs B' Hev Hs IH]; intros H2; [|by eapply mail_cons; auto].
  eapply mail_steps_ext; [|exact H2]. intros q. by rewrite HB.
Qed.
End mail.

(** ** Waiting tasks and the calls they are in *)

Abbreviation place := (side * addr)%type.

Definition cont_place (c : mq_cont) : place :=
  match c with InSend _ _ q _ _ _ => (NotFull, q) | InReceive _ _ q _ => (NotEmpty, q) end.

Definition places (conts : gmap addr mq_cont) : gmap addr place := cont_place <$> conts.

Section waits.
Implicit Types (t : lsched) (d : side) (a q r : addr) (C : gmap addr place) (N : side → addr → Z).

(** Tasks that wait are in a call that has blocked, and have no error yet. *)
Record in_calls C t : Prop := {
  ic_wait d q a : a ∈ mwaiters t d q → C !! a = Some (d, q) ∧ werr (tasks t) a = OK;
  ic_err a : is_Some (C !! a) → OK ≤ werr (tasks t) a;
}.

(** The task [a] has been woken in the call it is in, and has still to go on with it. *)
Definition woke C t d q a : Prop :=
  C !! a = Some (d, q) ∧ (a ∉ mwaiters t d q) ∧ werr (tasks t) a = OK.

(** When tasks wait for [q], at least [N d q] others have been woken for it. *)
Definition watched C t N : Prop :=
  ∀ d q, mwaiters t d q ≠ [] →
    ∃ l, NoDup l ∧ Forall (woke C t d q) l ∧ N d q ≤ Z.of_nat (length l).

Lemma watched_zero C t d q : ∃ l, NoDup l ∧ Forall (woke C t d q) l ∧ 0 ≤ Z.of_nat (length l).
Proof. exists []. split; [constructor|]. split; [constructor|done]. Qed.

Lemma watched_le C t N N' : watched C t N → (∀ d q, N' d q ≤ Z.max 0 (N d q)) → watched C t N'.
Proof.
  intros Hw Hle d q Hne. destruct (Hw d q Hne) as (l & Hnd & Hl & Hn). exists l.
  split; [done|]. split; [done|]. specialize (Hle d q). lia.
Qed.

(** How the sets of waiting and woken tasks change. *)
Lemma watched_mono C t N C' t' :
  watched C t N → (∀ d q, mwaiters t' d q ≠ [] → mwaiters t d q ≠ []) →
  (∀ d q a, woke C t d q a → woke C' t' d q a) → watched C' t' N.
Proof.
  intros Hw Hne Hk d q Hq. destruct (Hw d q (Hne d q Hq)) as (l & Hnd & Hl & Hn). exists l.
  split; [done|]. split; [|done]. eapply Forall_impl; [exact Hl|]. auto.
Qed.

Lemma mwaiters_ne t t' d q :
  (∀ a, a ∈ mwaiters t' d q → a ∈ mwaiters t d q) → mwaiters t' d q ≠ [] → mwaiters t d q ≠ [].
Proof.
  intros Hs Hne Hn. rewrite Hn in Hs. destruct (mwaiters t' d q) as [|a l]; [done|].
  specialize (Hs a). set_solver.
Qed.

(** *** Nothing, and errors *)

Lemma in_calls_same C t t' : in_calls C t → same_waits t t' → in_calls C t'.
Proof. intros [H1 H2] [Hs He]. split; [intros d q a; rewrite Hs, He; apply H1|intros a; rewrite He; apply H2]. Qed.

Lemma watched_same C t t' N : watched C t N → same_waits t t' → watched C t' N.
Proof.
  intros Hw [Hs He]. eapply watched_mono; [done| |].
  - intros d q. apply mwaiters_ne. intros a. apply Hs.
  - intros d q a (H1 & H2 & H3). unfold woke. by rewrite Hs, He.
Qed.

Lemma not_waiting C t d q a :
  in_calls C t → C !! a = Some (d, q) → a ∉ mwaiters t d q → ∀ d' q', a ∉ mwaiters t d' q'.
Proof. intros Hc HC Hn d' q' Ha. destruct (ic_wait _ _ Hc d' q' a Ha) as [E _]. naive_solver. Qed.

Lemma in_calls_left C t t' : in_calls C t → left_waits t t' → in_calls C t'.
Proof.
  intros Hc (H1 & H2 & H3). split.
  - intros d q a Ha. destruct (H1 d q a Ha) as [Ha' ->]. by apply Hc.
  - intros a [[d q] HC]. destruct (decide (a ∈ mwaiters t d q)) as [Ha|Ha].
    + destruct (decide (a ∈ mwaiters t' d q)) as [Ha'|Ha'].
      * rewrite (proj2 (H1 d q a Ha')), (proj2 (ic_wait _ _ Hc d q a Ha)). done.
      * specialize (H3 d q a Ha Ha'). lia.
    + rewrite H2 by (by eapply not_waiting). apply Hc. by eexists.
Qed.

Lemma watched_left C t t' N : in_calls C t → watched C t N → left_waits t t' → watched C t' N.
Proof.
  intros Hc Hw (H1 & H2 & H3). eapply watched_mono; [done| |].
  - intros d q. apply mwaiters_ne. intros a Ha. by apply H1.
  - intros d q a (E1 & E2 & E3). split; [done|]. split; [|rewrite H2; [done|by eapply not_waiting]].
    intros Ha. by apply E2, H1.
Qed.

(** *** A task is woken *)

Lemma in_calls_wakes C t t' d q : in_calls C t → wakes t d q t' → in_calls C t'.
Proof.
  intros Hc [[_ Hs]|(a & ws & _ & _ & H1 & H2)]; [by eapply in_calls_same|]. split.
  - intros d' q' b [Hb _]%H1. rewrite H2. by apply Hc.
  - intros b. rewrite H2. apply Hc.
Qed.

Lemma watched_wakes C t t' d q N N' :
  in_calls C t → watched C t N → wakes t d q t' →
  N' d q ≤ N d q + 1 → (∀ d' q', (d', q') ≠ (d, q) → N' d' q' ≤ Z.max 0 (N d' q')) →
  watched C t' N'.
Proof.
  intros Hc Hw Hk HN HN'. destruct Hk as [[Hn Hs]|(a & ws & Hws & Ha & H1 & H2)].
  - intros d' q' Hne. destruct (decide ((d', q') = (d, q))) as [[= -> ->]|Hd].
    { exfalso. apply Hne. destruct (mwaiters t' d q) as [|b l] eqn:E; [done|].
      assert (b ∈ mwaiters t d q) as Hb by (apply Hs; rewrite E; set_solver).
      rewrite Hn in Hb. set_solver. }
    destruct (watched_same _ _ _ _ Hw Hs d' q' Hne) as (l & Hnd & Hl & Hlen).
    exists l. split; [done|]. split; [done|]. specialize (HN' d' q' Hd). lia.
  - assert (∀ d' q' b, woke C t d' q' b → woke C t' d' q' b) as Hkeep.
    { intros d' q' b (E1 & E2 & E3). split; [done|]. rewrite H1, H2. tauto. }
    intros d' q' Hne. destruct (Hw d' q') as (l & Hnd & Hl & Hlen).
    { eapply mwaiters_ne; [|done]. intros b. rewrite H1. tauto. }
    assert (Forall (woke C t' d' q') l) as Hl' by (eapply Forall_impl; [exact Hl|auto]).
    destruct (decide ((d', q') = (d, q))) as [[= -> ->]|Hd].
    + destruct (ic_wait _ _ Hc d q a Ha) as [HC He]. exists (a :: l). split; [|split; [|simpl; lia]].
      * constructor; [|done]. intros Hal. rewrite Forall_forall in Hl. by destruct (Hl a Hal) as (_ & ? & _).
      * constructor; [|done]. split; [done|]. rewrite H1, H2. naive_solver.
    + exists l. split; [done|]. split; [done|]. specialize (HN' d' q' Hd). lia.
Qed.

(** *** A task blocks *)

Lemma in_calls_starts C t t' d q r :
  in_calls C t → starts t d q r t' → in_calls (<[r := (d, q)]> C) t'.
Proof.
  intros Hc (Hn & H1 & H2). split.
  - intros d' q' a. rewrite H1, H2. intros [Ha|[= -> -> ->]]; [|by rewrite lookup_insert_eq, decide_True].
    assert (a ≠ r) by (intros ->; by apply (Hn d' q')).
    rewrite lookup_insert_ne, decide_False by done. by apply Hc.
  - intros a. rewrite H2. case_decide; [done|]. rewrite lookup_insert_ne by done. apply Hc.
Qed.

Lemma watched_starts C t t' d q r N N' :
  C !! r = None → watched C t N → starts t d q r t' →
  N' d q ≤ 0 → (∀ d' q', (d', q') ≠ (d, q) → N' d' q' ≤ Z.max 0 (N d' q')) →
  watched (<[r := (d, q)]> C) t' N'.
Proof.
  intros HC Hw (Hn & H1 & H2) HN HN' d' q' Hne.
  destruct (decide ((d', q') = (d, q))) as [[= -> ->]|Hd].
  { destruct (watched_zero (<[r := (d, q)]> C) t' d q) as (l & ? & ? & ?). exists l. split_and!; [done..|lia]. }
  destruct (Hw d' q') as (l & Hnd & Hl & Hlen).
  { eapply mwaiters_ne; [|done]. intros b. rewrite H1. naive_solver. }
  exists l. split; [done|]. split; [|specialize (HN' d' q' Hd); lia].
  eapply Forall_impl; [exact Hl|]. intros b (E1 & E2 & E3).
  assert (b ≠ r) by (intros ->; congruence). split; [by rewrite lookup_insert_ne|].
  rewrite H1, H2, decide_False by done. naive_solver.
Qed.

(** *** A task goes on with its call *)

Lemma in_calls_resumes C t t' r en :
  in_calls C t → (∀ d q, r ∉ mwaiters t d q) → resumes t r t' en → in_calls (delete r C) t'.
Proof.
  intros Hc Hr (_ & H1 & H2). split.
  - intros d q a. rewrite H1, H2. intros Ha. assert (a ≠ r) by (intros ->; by apply (Hr d q)).
    rewrite lookup_delete_ne, decide_False by done. by apply Hc.
  - intros a [c Ha]. apply lookup_delete_Some in Ha as [Hne Ha].
    rewrite H2, decide_False by done. apply Hc. by eexists.
Qed.

Lemma length_without (l : list addr) r :
  NoDup l → (length l ≤ length (filter (λ b, b ≠ r) l) + if decide (r ∈ l) then 1 else 0)%nat.
Proof.
  intros Hnd. case_decide as Hr.
  - assert (l ⊆+ r :: filter (λ b, b ≠ r) l) as Hs%submseteq_length; [|simpl in Hs; lia].
    apply NoDup_submseteq; [done|]. intros b Hb. rewrite elem_of_cons, list_elem_of_filter.
    destruct (decide (b = r)); auto.
  - assert (l ⊆+ filter (λ b, b ≠ r) l) as Hs%submseteq_length; [|lia].
    apply NoDup_submseteq; [done|]. intros b Hb. rewrite list_elem_of_filter. naive_solver.
Qed.

Lemma watched_resumes C t t' r en N N' :
  watched C t N → (∀ d q, r ∉ mwaiters t d q) → resumes t r t' en →
  (∀ d q, N' d q ≤ N d q ∧ (woke C t d q r → N' d q ≤ N d q - 1)) →
  watched (delete r C) t' N'.
Proof.
  intros Hw Hr (_ & H1 & H2) HN d q Hne.
  destruct (Hw d q) as (l & Hnd & Hl & Hlen); [eapply mwaiters_ne; [|done]; intros b; by rewrite H1|].
  rewrite Forall_forall in Hl. exists (filter (λ b, b ≠ r) l). split; [by apply NoDup_filter|]. split.
  - apply Forall_forall. intros b [Hb Hbl]%list_elem_of_filter.
    destruct (Hl b Hbl) as (E1 & E2 & E3). split; [by rewrite lookup_delete_ne|].
    by rewrite H1, H2, decide_False.
  - destruct (HN d q) as [HN1 HN2]. pose proof (length_without l r Hnd) as Hlw.
    case_decide as Hin; [specialize (HN2 (Hl r Hin))|]; lia.
Qed.
End waits.

(** ** What a call does to the mailboxes and to the waiting tasks *)

Section steps.
Context `{Config} `{MqConfig}.
Implicit Types (u : mqsys lsched) (L : mlist → list addr) (a q r p : addr) (e : letter)
  (C : gmap addr place) (N : side → addr → Z).

(** The letters of a queue that are there, or may come. *)
Definition need L u (d : side) (q : addr) : Z :=
  match d with
  | NotEmpty => Z.of_nat (length (box L u q))
  | NotFull => from_option maxmsgs 0 (msgqs (mdata u) !! q) - Z.of_nat (length (box L u q))
  end.

Lemma same_maxmsgs u u' q :
  mq_same u u' → from_option maxmsgs 0 (msgqs (mdata u') !! q) = from_option maxmsgs 0 (msgqs (mdata u) !! q).
Proof.
  intros [_ _ _ Hc]. apply (f_equal (.!! q)) in Hc. rewrite !lookup_fmap in Hc.
  destruct (msgqs (mdata u') !! q), (msgqs (mdata u) !! q); simpl in *; try done. by injection Hc.
Qed.

Lemma need_same L u L' u' d q : boxes_same L u L' u' → mq_same u u' → need L' u' d q = need L u d q.
Proof. intros Hb Hs. unfold need. rewrite (same_maxmsgs _ _ _ Hs). destruct d; by rewrite Hb. Qed.

Lemma need_posted L u q e L' u' d' q' :
  posted L u q e L' u' → mq_same u u' →
  need L' u' d' q' = if decide (q' = q) then match d' with NotEmpty => need L u d' q' + 1
                                             | NotFull => need L u d' q' - 1 end
                     else need L u d' q'.
Proof.
  intros [Hq Ho] Hs. unfold need. rewrite (same_maxmsgs _ _ _ Hs). case_decide as Hd; [subst|by rewrite Ho].
  rewrite Hq, (Permutation_length (pq_insert_perm _ _)). destruct d'; simpl; lia.
Qed.

Lemma need_fetched L u q e L' u' d' q' :
  fetched L u q e L' u' → mq_same u u' →
  need L' u' d' q' = if decide (q' = q) then match d' with NotEmpty => need L u d' q' - 1
                                             | NotFull => need L u d' q' + 1 end
                     else need L u d' q'.
Proof.
  intros [Hq Ho] Hs. unfold need. rewrite (same_maxmsgs _ _ _ Hs). case_decide as Hd; [subst|by rewrite Ho].
  rewrite Hq. destruct d'; simpl; lia.
Qed.

Lemma need_full L u q y :
  msgqs (mdata u) !! q = Some y → is_full L u q y ↔ need L u NotFull q ≤ 0.
Proof. intros Hy. unfold need, is_full. rewrite Hy. simpl. lia. Qed.

(** *** Sending *)

Definition place_after {A} C r (pl : place) (o : outcome A) : gmap addr place :=
  match o with Returns _ => C | Blocks _ => <[r := pl]> C end.

Lemma send_calls irq kmm nb L u r q y e o L' u' C :
  in_calls C (tsk u) → send_outcome irq kmm nb L u r q y e o L' u' →
  in_calls (place_after C r (NotFull, q) o) (tsk u').
Proof.
  intros Hc. destruct 1 as [ret L1 u2 Hr [L2 u3 Hp (t1 & Hl & Hw)|L2 u3 Hm Hk [Hs Hbs]]
    |L1 u2 ? ? ? [Hs Hbs]|L1 u2 ? ? ? Hs Hbs]; simpl.
  - eapply in_calls_wakes; [|exact Hw]. by eapply in_calls_left.
  - by eapply in_calls_same.
  - by eapply in_calls_same.
  - by apply (in_calls_starts C (tsk u)).
Qed.

(** [N] counts the sender itself, if it had been woken. *)
Lemma send_watched irq kmm nb L u r q y e o L' u' C N :
  in_calls C (tsk u) → mq_same u u' → msgqs (mdata u) !! q = Some y →
  send_outcome irq kmm nb L u r q y e o L' u' → (irq = false → C !! r = None) →
  (∀ d' q', (d', q') ≠ (NotFull, q) → need L u d' q' ≤ N d' q') →
  need L u NotFull q - 1 ≤ N NotFull q →
  (irq = true ∨ kmm = None → need L u NotFull q ≤ N NotFull q) →
  watched C (tsk u) N → watched (place_after C r (NotFull, q) o) (tsk u') (need L' u').
Proof.
  intros Hc Hsame Hy Ho HC HN HNq Hkmm HW.
  assert (boxes_same L u L' u' → need L u NotFull q ≤ Z.max 0 (N NotFull q) →
    ∀ d' q', need L' u' d' q' ≤ Z.max 0 (N d' q')) as Hsm.
  { intros Hb Hq d' q'. rewrite (need_same _ _ _ _ _ _ Hb Hsame).
    destruct (decide ((d', q') = (NotFull, q))) as [[= -> ->]|Hd]; [done|]. specialize (HN d' q' Hd). lia. }
  destruct Ho as [ret L1 u2 Hr [L2 u3 Hp (t1 & Hl & Hw)|L2 u3 Hm Hk [Hs Hbs]]
    |L1 u2 Hi Hf Hnb [Hs Hbs]|L1 u2 Hi Hf Hnb Hs Hbs]; simpl.
  - apply (watched_wakes C t1 (tsk u3) NotEmpty q N); [by eapply in_calls_left|by eapply watched_left|done| |].
    + rewrite (need_posted _ _ _ _ _ _ _ _ Hp Hsame), decide_True by done.
      specialize (HN NotEmpty q ltac:(done)). lia.
    + intros d' q' Hd. rewrite (need_posted _ _ _ _ _ _ _ _ Hp Hsame).
      destruct (decide (q' = q)) as [->|Hq]; [destruct d'; [done|lia]|].
      specialize (HN d' q' ltac:(congruence)). lia.
  - eapply watched_le; [by eapply watched_same|]. apply Hsm; [done|].
    assert (irq = true ∨ kmm = None) as Hor by (destruct irq; auto). specialize (Hkmm Hor). lia.
  - eapply watched_le; [by eapply watched_same|]. apply Hsm; [done|].
    apply (need_full L u q y Hy) in Hf. lia.
  - apply (watched_starts C (tsk u) _ _ _ _ N); [by apply HC|done|done| |].
    + rewrite (need_same _ _ _ _ _ _ Hbs Hsame). by apply (need_full L u q y Hy).
    + intros d' q' Hd. rewrite (need_same _ _ _ _ _ _ Hbs Hsame). specialize (HN d' q' Hd). lia.
Qed.

Lemma send_mail irq kmm nb L u r p x q y msg msglen prio o L' u' :
  mqdess (mdata u) !! p = Some x → des_msgq x = Some q →
  send_outcome irq kmm nb L u r q y (prio, take (Z.to_nat msglen) msg) o L' u' →
  mail_steps (mqdess (mdata u)) (box L u)
    match o with Returns ret => send_event p msg msglen prio ret | Blocks _ => [] end (box L' u').
Proof.
  intros Hx Hq. destruct 1 as [ret L1 u2 Hr [L2 u3 [Hp Hoth] _|L2 u3 Hm Hk [Hs Hbs]]
    |L1 u2 Hi Hf Hnb [Hs Hbs]|L1 u2 Hi Hf Hnb Hs Hbs]; try by apply mail_nil.
  eapply mail_cons; [|by apply mail_nil]. eapply mail_sent; [done|done|]. intros q'. unfold upd_box.
  case_decide; [by subst|by apply Hoth].
Qed.

(** *** Receiving *)

Lemma receive_calls nb L u r q prio o L' u' C :
  in_calls C (tsk u) → receive_outcome nb L u r q prio o L' u' →
  in_calls (place_after C r (NotEmpty, q) o) (tsk u').
Proof.
  intros Hc. destruct 1 as [e L1 u2 Hf Hk|L1 u2 Hn Hnb [Hs Hbs]|L1 u2 Hn Hnb Hst Hbs]; simpl.
  - by eapply in_calls_wakes.
  - by eapply in_calls_same.
  - by apply (in_calls_starts C (tsk u)).
Qed.

Lemma receive_watched nb L u r q prio o L' u' C N :
  in_calls C (tsk u) → mq_same u u' → receive_outcome nb L u r q prio o L' u' → C !! r = None →
  (∀ d' q', (d', q') ≠ (NotEmpty, q) → need L u d' q' ≤ N d' q') → need L u NotEmpty q - 1 ≤ N NotEmpty q →
  watched C (tsk u) N → watched (place_after C r (NotEmpty, q) o) (tsk u') (need L' u').
Proof.
  intros Hc Hsame Ho HC HN HNq HW.
  assert (box L u q = [] → need L u NotEmpty q = 0) as Hz by (intros Hb; simpl; by rewrite Hb).
  destruct Ho as [e L1 u2 Hf Hk|L1 u2 Hn Hnb [Hs Hbs]|L1 u2 Hn Hnb Hs Hbs]; simpl.
  - apply (watched_wakes C (tsk u) _ NotFull q N); [done|done|done| |].
    + rewrite (need_fetched _ _ _ _ _ _ _ _ Hf Hsame), decide_True by done.
      specialize (HN NotFull q ltac:(done)). lia.
    + intros d' q' Hd. rewrite (need_fetched _ _ _ _ _ _ _ _ Hf Hsame).
      destruct (decide (q' = q)) as [->|Hq]; [destruct d'; [lia|done]|].
      specialize (HN d' q' ltac:(congruence)). lia.
  - eapply watched_le; [by eapply watched_same|]. intros d' q'. rewrite (need_same _ _ _ _ _ _ Hbs Hsame).
    destruct (decide ((d', q') = (NotEmpty, q))) as [[= -> ->]|Hd]; [rewrite Hz by done; lia|].
    specialize (HN d' q' Hd). lia.
  - apply (watched_starts C (tsk u) _ _ _ _ N); [done|done|done| |].
    + rewrite (need_same _ _ _ _ _ _ Hbs Hsame), Hz by done. done.
    + intros d' q' Hd. rewrite (need_same _ _ _ _ _ _ Hbs Hsame). specialize (HN d' q' Hd). lia.
Qed.

Lemma receive_mail nb L u r p x q o L' u' :
  mqdess (mdata u) !! p = Some x → des_msgq x = Some q →
  receive_outcome nb L u r q true o L' u' →
  mail_steps (mqdess (mdata u)) (box L u)
    match o with Returns res => receive_event p res | Blocks _ => [] end (box L' u').
Proof.
  intros Hx Hq. destruct 1 as [[pr bs] L1 u2 [Hf Hoth] Hk|L1 u2 Hn Hnb [Hs Hbs]|L1 u2 Hn Hnb Hst Hbs];
    try by apply mail_nil.
  eapply mail_cons; [|by apply mail_nil]. eapply mail_received; [done|done|exact Hf|]. intros q'. unfold upd_box.
  case_decide; [by subst|by apply Hoth].
Qed.
End steps.
