(* ===== verification/MqRun.v ===== *)
(** * MqRun: every history is safe, and refines the mailboxes

    One operation of a history keeps the invariant, is a step of the mailboxes, and
    keeps [watched]. *)

From S2P Require Import Prelude Queue QueueRefine Sched SchedSpec SchedInv SchedOps SchedProps Semaphore SemSpec SemOps SemProps MQueue MqSpec MqInv MqWait MqView MqData MqOps MqCalls MqHist.
Local Open Scope Z_scope.

(** ** The invariant of a history *)

Section hist.
Context `{Config} `{MqConfig} (idle : addr).
Implicit Types (u : mqsys lsched) (L : mlist → list addr) (a q r p : addr) (conts : gmap addr mq_cont).
Abbreviation inv L := (mq_inv idle L ∅).

(** The descriptor [p] is open for the queue [q]. *)
Definition opened u p q (x : mq_des) (y : mqueue_inode_s) : Prop :=
  mqdess (mdata u) !! p = Some x ∧ des_msgq x = Some q ∧ msgqs (mdata u) !! q = Some y.

Definition cont_ok u (c : mq_cont) : Prop :=
  match c with
  | InSend _ p q msg msglen prio => ∃ x y, opened u p q x y ∧
      0 ≤ prio ≤ MQ_PRIO_MAX ∧ 0 ≤ msglen ≤ maxmsgsize y ∧ msglen ≤ Z.of_nat (length msg)
  | InReceive _ p q msglen => ∃ x y, opened u p q x y ∧ maxmsgsize y ≤ msglen
  end.

Record hist_ok conts L u : Prop := {
  ho_inv : inv L u;
  ho_calls : in_calls (places conts) (tsk u);
  ho_conts : map_Forall (λ a c, a ≠ idle ∧ cont_ok u c) conts;
}.

(** What an operation does; [live] if the heap did not fail a sender that was
    woken. *)
Record hist_step (live : Prop) conts L u conts' (evs : list mq_event) L' u' : Prop := {
  hs_ok : hist_ok conts' L' u';
  hs_same : mq_same u u';
  hs_mail : mail_steps (mqdess (mdata u)) (box L u) evs (box L' u');
  hs_live : live → watched (places conts) (tsk u) (need L u) →
            watched (places conts') (tsk u') (need L' u');
}.

Lemma opened_same u u' p q x y :
  mq_same u u' → opened u p q x y → ∃ y', opened u' p q x y' ∧ maxmsgsize y' = maxmsgsize y.
Proof.
  intros Hs (Hx & Hq & Hy). destruct (same_queue u u' q y Hs Hy) as (y' & Hy' & _ & E).
  exists y'. split; [|done]. split; [by eapply same_des|done].
Qed.

Lemma cont_ok_same u u' c : mq_same u u' → cont_ok u c → cont_ok u' c.
Proof.
  intros Hs. destruct c; simpl; intros (x & y & Ho & Hc);
    destruct (opened_same _ _ _ _ _ _ Hs Ho) as (y' & Ho' & E); exists x, y'; by rewrite E.
Qed.

Lemma conts_same u u' conts :
  mq_same u u' → map_Forall (λ a c, a ≠ idle ∧ cont_ok u c) conts →
  map_Forall (λ a c, a ≠ idle ∧ cont_ok u' c) conts.
Proof. intros Hs Hc a c Ha. destruct (Hc a c Ha). split; [done|by eapply cont_ok_same]. Qed.

Lemma runs_not_waiting u L r c : inv L u → runs u r c → ∀ d q, r ∉ mwaiters (tsk u) d q.
Proof.
  intros Hi (l & x & Hl & _) d q Hr. apply elem_mwaiters in Hr as [_ Hr].
  eapply (ready_not_waiting idle u L ∅ r d Hi); [rewrite Hl; set_solver|done].
Qed.

(** ** Operations without letters *)

Lemma step_left live conts L u u' :
  hist_ok conts L u → inv L u' → mq_same u u' → boxes_same L u L u' → left_waits (tsk u) (tsk u') →
  hist_step live conts L u conts [] L u'.
Proof.
  intros [Hi Hc Hk] Hi' Hs Hb Hl. split; [|done|by apply mail_nil|].
  - split; [done|by eapply in_calls_left|by eapply conts_same].
  - intros _ Hw. eapply watched_le; [by eapply watched_left|]. intros d q.
    rewrite (need_same _ _ _ _ _ _ Hb Hs). lia.
Qed.

Lemma step_same live conts L u u' :
  hist_ok conts L u → inv L u' → mq_same u u' → quiet L u L u' → hist_step live conts L u conts [] L u'.
Proof.
  intros Ho Hi' Hs [Hw Hb]. apply step_left; [done..|]. eapply same_left; [exact Hw|reflexivity].
Qed.

Lemma step_refl live conts L u : hist_ok conts L u → hist_step live conts L u conts [] L u.
Proof. intros Ho. by apply step_same; [|apply Ho| |split]. Qed.

(** ** Calls *)

Lemma places_delete conts r : places (delete r conts) = delete r (places conts).
Proof. apply fmap_delete. Qed.

Lemma places_send conts r p q msg msglen prio st :
  places (after_send conts r p q msg msglen prio st).1 = place_after (delete r (places conts)) r (NotFull, q) st.
Proof.
  destruct st; simpl; [apply places_delete|]. unfold places. by rewrite fmap_insert, insert_delete_eq.
Qed.

Lemma places_receive conts r p q msglen st :
  places (after_receive conts r p q msglen st).1 = place_after (delete r (places conts)) r (NotEmpty, q) st.
Proof.
  destruct st; simpl; [apply places_delete|]. unfold places. by rewrite fmap_insert, insert_delete_eq.
Qed.

Lemma conts_after_send u conts r p q msg msglen prio st :
  map_Forall (λ a c, a ≠ idle ∧ cont_ok u c) conts → r ≠ idle → cont_ok u (InSend 0 p q msg msglen prio) →
  map_Forall (λ a c, a ≠ idle ∧ cont_ok u c) (after_send conts r p q msg msglen prio st).1.
Proof. intros Hc Hr Hk. destruct st; simpl; [by apply map_Forall_delete|by apply map_Forall_insert_2]. Qed.

Lemma conts_after_receive u conts r p q msglen st :
  map_Forall (λ a c, a ≠ idle ∧ cont_ok u c) conts → r ≠ idle → cont_ok u (InReceive 0 p q msglen) →
  map_Forall (λ a c, a ≠ idle ∧ cont_ok u c) (after_receive conts r p q msglen st).1.
Proof. intros Hc Hr Hk. destruct st; simpl; [by apply map_Forall_delete|by apply map_Forall_insert_2]. Qed.

(** From [u0], where the running task is in no call any more; [N] says how many
    woken tasks there are without it. *)
Lemma send_step live conts L u u0 r kmm nb p q x y msg msglen prio o L' u' N :
  hist_ok conts L u → opened u p q x y → r ≠ idle → cont_ok u (InSend 0 p q msg msglen prio) →
  mdata u0 = mdata u → in_calls (delete r (places conts)) (tsk u0) →
  inv L' u' → mq_same u u' → mq_same u0 u' →
  send_outcome false kmm nb L u0 r q y (prio, take (Z.to_nat msglen) msg) o L' u' →
  (watched (places conts) (tsk u) (need L u) → watched (delete r (places conts)) (tsk u0) N) →
  (∀ d' q', (d', q') ≠ (NotFull, q) → need L u d' q' ≤ N d' q') →
  need L u NotFull q - 1 ≤ N NotFull q → (live → kmm = None → need L u NotFull q ≤ N NotFull q) →
  let '(conts', evs) := after_send conts r p q msg msglen prio o in hist_step live conts L u conts' evs L' u'.
Proof.
  intros [Hi Hc Hk] (Hx & Hq & Hy) Hr Hcont Hd Hc0 Hi' Hs Hs0 Ho Hw0 HN HNq Hkmm.
  assert (∀ b, box L u0 b = box L u b) as Hb by (intros b; unfold box; by rewrite Hd).
  assert (∀ d' q', need L u0 d' q' = need L u d' q') as Hn by (intros [] q'; simpl; by rewrite Hb, ?Hd).
  pose proof (places_send conts r p q msg msglen prio o) as Hp.
  pose proof (conts_after_send u' conts r p q msg msglen prio o (conts_same _ _ _ Hs Hk) Hr
    (cont_ok_same _ _ _ Hs Hcont)) as Hca.
  assert (snd (after_send conts r p q msg msglen prio o) =
    match o with Returns ret => send_event p msg msglen prio ret | Blocks _ => [] end) as Hev by (by destruct o).
  destruct (after_send _ _ _ _ _ _ _ _) as [conts' evs]. simpl in *. subst evs. split.
  - split; [done|rewrite Hp; by eapply send_calls|done].
  - done.
  - rewrite <- Hd in Hx |- *. eapply mail_steps_ext; [|by eapply send_mail]. done.
  - intros Hl Hw. rewrite Hp.
    eapply send_watched; [exact Hc0|exact Hs0|by rewrite Hd|exact Ho|intros _; apply lookup_delete_eq
      |intros; rewrite Hn; auto|by rewrite Hn|rewrite Hn; intros [?|?]; auto|auto].
Qed.

Lemma receive_step live conts L u u0 r nb p q x y msglen o L' u' N :
  hist_ok conts L u → opened u p q x y → r ≠ idle → cont_ok u (InReceive 0 p q msglen) →
  mdata u0 = mdata u → in_calls (delete r (places conts)) (tsk u0) →
  inv L' u' → mq_same u u' → mq_same u0 u' →
  receive_outcome nb L u0 r q true o L' u' →
  (watched (places conts) (tsk u) (need L u) → watched (delete r (places conts)) (tsk u0) N) →
  (∀ d' q', (d', q') ≠ (NotEmpty, q) → need L u d' q' ≤ N d' q') →
  need L u NotEmpty q - 1 ≤ N NotEmpty q →
  let '(conts', evs) := after_receive conts r p q msglen o in hist_step live conts L u conts' evs L' u'.
Proof.
  intros [Hi Hc Hk] (Hx & Hq & Hy) Hr Hcont Hd Hc0 Hi' Hs Hs0 Ho Hw0 HN HNq.
  assert (∀ b, box L u0 b = box L u b) as Hb by (intros b; unfold box; by rewrite Hd).
  assert (∀ d' q', need L u0 d' q' = need L u d' q') as Hn by (intros [] q'; simpl; by rewrite Hb, ?Hd).
  pose proof (places_receive conts r p q msglen o) as Hp.
  pose proof (conts_after_receive u' conts r p q msglen o (conts_same _ _ _ Hs Hk) Hr
    (cont_ok_same _ _ _ Hs Hcont)) as Hca.
  assert (snd (after_receive conts r p q msglen o) =
    match o with Returns res => receive_event p res | Blocks _ => [] end) as Hev by (by destruct o).
  destruct (after_receive _ _ _ _ _ _) as [conts' evs]. simpl in *. subst evs. split.
  - split; [done|rewrite Hp; by eapply receive_calls|done].
  - done.
  - rewrite <- Hd in Hx |- *. eapply mail_steps_ext; [|by eapply receive_mail]. done.
  - intros Hl Hw. rewrite Hp.
    eapply receive_watched; [exact Hc0|exact Hs0|exact Ho|apply lookup_delete_eq
      |intros; rewrite Hn; auto|by rewrite Hn|auto].
Qed.

(** The task [r] goes on with its call. *)
Lemma resumes_calls conts L u r c t1 en :
  hist_ok conts L u → runs u r c → resumes (tsk u) r t1 en → in_calls (delete r (places conts)) t1.
Proof.
  intros [Hi Hc _] Hr Hres. eapply in_calls_resumes; [exact Hc| |exact Hres]. by eapply runs_not_waiting.
Qed.

Lemma resumes_watched conts L u r c t1 en k d q :
  hist_ok conts L u → runs u r c → conts !! r = Some k → cont_place k = (d, q) →
  resumes (tsk u) r t1 en → watched (places conts) (tsk u) (need L u) →
  watched (delete r (places conts)) t1
    (λ d' q', need L u d' q' - if decide ((d', q') = (d, q) ∧ werr (tasks (tsk u)) r = OK) then 1 else 0).
Proof.
  intros [Hi Hc _] Hr Hk Hpl Hres Hw. eapply watched_resumes; [exact Hw|by eapply runs_not_waiting|exact Hres|].
  intros d' q'. split; [case_decide; lia|]. intros (E1 & _ & E3). unfold places in E1.
  rewrite lookup_fmap, Hk in E1. simpl in E1. rewrite Hpl in E1. injection E1 as <- <-.
  by rewrite decide_True.
Qed.

Lemma resume_error conts L u r c t1 en k L' u' live :
  hist_ok conts L u → runs u r c → conts !! r = Some k → resumes (tsk u) r t1 en →
  werr (tasks (tsk u)) r ≠ OK → inv L' u' → mq_same u u' → quiet L (with_t t1 u) L' u' →
  hist_step live conts L u (delete r conts) [] L' u'.
Proof.
  intros Ho Hr Hk Hres Herr Hi' Hs [Hw Hb]. split; [|done|by apply mail_nil|].
  - split; [done| |by apply map_Forall_delete; eapply conts_same, Ho]. rewrite places_delete.
    eapply in_calls_same; [|exact Hw]. by eapply resumes_calls.
  - intros _ Hwd. rewrite places_delete. destruct (cont_place k) as [d q] eqn:Hpl.
    eapply watched_le;
      [eapply watched_same; [by eapply (resumes_watched conts L u r c t1 en k d q)|exact Hw]|].
    intros d' q'. rewrite (need_same L u L' u' d' q') by done. rewrite decide_False by naive_solver. lia.
Qed.

(** ** The operations of a history *)

Lemma heap_fresh_ok (md : mq_data) kmm : heap_fresh md kmm = true → heap_msg md kmm.
Proof.
  intros Hf a x ->. simpl in Hf. rewrite !andb_true_iff, Z.eqb_eq, Z.ltb_lt in Hf.
  destruct Hf as [[H1%bool_decide_eq_true_1 H2] H3]. done.
Qed.

Lemma runs_lock u r c n : runs u r c → c + n ≤ MAX_LOCK_COUNT → can_lock false u n.
Proof. intros Hr Hc _ r' c' Hr'. by destruct (runs_fun _ _ _ _ _ Hr Hr') as [<- <-]. Qed.

Section ops.
Context (sig : Z → Z → Z → K (mqsys lsched) Z) `{!SignalsOk idle sig}.

Lemma exec_send conts L u r c kmm p q x y msg msglen prio :
  hist_ok conts L u → notes_ok idle sig u → opened u p q x y → conts !! r = None → r ≠ idle → runs u r c →
  c + 2 ≤ MAX_LOCK_COUNT → heap_msg (mdata u) kmm → buffer_ok msg msglen = true →
  ∃ st L' u', nxmq_send sig false kmm (Some p) msg msglen prio u = Some (st, u') ∧
    let '(conts', evs) := after_send conts r p q (default [] msg) msglen prio st in
    hist_step True conts L u conts' evs L' u'.
Proof.
  intros Ho Hno Hop Hn Hr Hrun Hc Hheap Hbuf. pose proof Hop as (Hx & Hq & Hy).
  destruct (decide (send_code msg msglen prio x y = OK)) as [Hcode|Hcode].
  - destruct (send_code_ok _ _ _ _ _ Hcode) as (m & -> & Hp & _ & Hmax). simpl in Hbuf.
    rewrite andb_true_iff, !Z.leb_le in Hbuf.
    destruct (nxmq_send_ok idle sig false kmm u L p x q y r c m msglen prio)
      as (o & L' & u' & Hrun' & Hi' & Hs' & Hout); [apply Ho|done|by eapply runs_lock|done..|].
    exists o, L', u'. split; [done|]. assert (delete r (places conts) = places conts) as Hdel.
    { apply delete_id. unfold places. by rewrite lookup_fmap, Hn. }
    eapply (send_step True conts L u u); [done|exact Hop|done|exists x, y; split; [exact Hop|simpl;
      lia]|done|rewrite Hdel; apply Ho
      |done|done|done|exact Hout|rewrite Hdel; intros Hw; exact Hw|..]; intros; lia.
  - exists (Returns (send_code msg msglen prio x y)), L, u.
    split; [by eapply nxmq_send_rejects|]. simpl. unfold send_event.
    rewrite (proj2 (Z.eqb_neq _ _) Hcode), delete_id by done. by apply step_refl.
Qed.

Lemma exec_irq_send conts L u p q x y msg msglen prio :
  hist_ok conts L u → notes_ok idle sig u → opened u p q x y → buffer_ok msg msglen = true →
  ∃ st L' u', nxmq_send sig true None (Some p) msg msglen prio u = Some (st, u') ∧
    hist_step True conts L u conts
      (match st with Returns ret => send_event p (default [] msg) msglen prio ret | Blocks _ => [] end) L' u'.
Proof.
  intros Ho Hno Hop Hbuf. pose proof Hop as (Hx & Hq & Hy).
  destruct (decide (send_code msg msglen prio x y = OK)) as [Hcode|Hcode].
  - destruct (send_code_ok _ _ _ _ _ Hcode) as (m & -> & Hp & _ & Hmax). simpl in Hbuf.
    rewrite andb_true_iff, !Z.leb_le in Hbuf.
    destruct (inv_runs idle u L ∅ (ho_inv _ _ _ Ho)) as (r & c & Hr & _).
    destruct (nxmq_send_ok idle sig true None u L p x q y r c m msglen prio)
      as (o & L' & u' & Hrun' & Hi' & Hs' & Hout); [apply Ho|done..|].
    exists o, L', u'. split; [done|].
    assert (place_after (places conts) r (NotFull, q) o = places conts) as Hpl by (by destruct Hout).
    split; [|done|by eapply send_mail|].
    + split; [done|rewrite <- Hpl; eapply send_calls; [apply Ho|done]|eapply conts_same, Ho; done].
    + intros _ Hw. rewrite <- Hpl. eapply send_watched; [apply Ho|done|done|done|done|..|exact Hw];
        intros; lia.
  - exists (Returns (send_code msg msglen prio x y)), L, u.
    split; [by eapply nxmq_send_rejects|]. unfold send_event.
    rewrite (proj2 (Z.eqb_neq _ _) Hcode). by apply step_refl.
Qed.

Lemma exec_receive conts L u r c p q x y msg msglen :
  hist_ok conts L u → opened u p q x y → conts !! r = None → r ≠ idle → runs u r c →
  c + 1 ≤ MAX_LOCK_COUNT →
  ∃ st L' u', nxmq_receive (Some p) msg msglen true u = Some (st, u') ∧
    let '(conts', evs) := after_receive conts r p q msglen st in hist_step True conts L u conts' evs L' u'.
Proof.
  intros Ho Hop Hn Hr Hrun Hc. pose proof Hop as (Hx & Hq & Hy).
  destruct (decide (receive_code msg msglen x y = OK)) as [Hcode|Hcode].
  - destruct (receive_code_ok _ _ _ _ Hcode) as (-> & _ & Hsz).
    destruct (nxmq_receive_ok idle u L p x q y r c msglen true)
      as (o & L' & u' & Hrun' & Hi' & Hs' & Hout); [apply Ho|by eapply runs_lock|done..|].
    exists o, L', u'. split; [done|]. assert (delete r (places conts) = places conts) as Hdel.
    { apply delete_id. unfold places. by rewrite lookup_fmap, Hn. }
    eapply (receive_step True conts L u u); [done|exact Hop|done|by exists x, y|done|rewrite Hdel; apply Ho
      |done|done|done|exact Hout|rewrite Hdel; intros Hw; exact Hw|..]; intros; lia.
  - exists (Returns (receive_code msg msglen x y, None)), L, u.
    split; [by eapply nxmq_receive_rejects|]. simpl. rewrite delete_id by done. by apply step_refl.
Qed.

Lemma exec_send_resume conts L u r c e kmm p q msg msglen prio :
  hist_ok conts L u → notes_ok idle sig u → conts !! r = Some (InSend e p q msg msglen prio) → runs u r c →
  c + 1 ≤ MAX_LOCK_COUNT → heap_msg (mdata u) kmm →
  ∃ st L' u', nxmq_send_resume sig r e kmm (Some p) q msg msglen prio u = Some (st, u') ∧
    let '(conts', evs) := after_send conts r p q msg msglen prio st in
    hist_step (kmm ≠ None) conts L u conts' evs L' u'.
Proof.
  intros Ho Hno Hk Hrun Hc Hheap. destruct (ho_conts _ _ _ Ho r _ Hk) as [Hr Hcont].
  pose proof Hcont as (x & y & Hop & Hp & Hlen & Hmsg). pose proof Hop as (Hx & Hq & Hy).
  assert (OK ≤ werr (tasks (tsk u)) r) as Herr.
  { apply (ic_err _ _ (ho_calls _ _ _ Ho)). unfold places. by rewrite lookup_fmap, Hk. }
  destruct (nxmq_send_resume_ok idle sig u L p x q y r c e kmm msg msglen prio)
    as (o & L' & u' & t1 & Hrun' & Hi' & Hs' & Hres & Hout); [apply Ho|done|by eapply runs_lock|done..|].
  exists o, L', u'. split; [done|]. case_decide as Hz.
  - eapply (send_step _ conts L u (with_t t1 u)); [done|exact Hop|done|done|done
      |by eapply resumes_calls|done|done| |exact Hout|by eapply resumes_watched| | |]; cbv beta.
    + by eapply same_resumes.
    + intros d' q' Hne. rewrite decide_False by naive_solver. lia.
    + case_decide; lia.
    + done.
  - destruct Hout as [-> Hqu]. simpl. unfold send_event. rewrite (proj2 (Z.eqb_neq _ _)) by (unfold OK in *; lia).
    by eapply resume_error.
Qed.

Lemma exec_receive_resume conts L u r c e p q msglen :
  hist_ok conts L u → conts !! r = Some (InReceive e p q msglen) → runs u r c →
  ∃ st L' u', nxmq_receive_resume r e (Some p) q msglen true u = Some (st, u') ∧
    let '(conts', evs) := after_receive conts r p q msglen st in hist_step True conts L u conts' evs L' u'.
Proof.
  intros Ho Hk Hrun. destruct (ho_conts _ _ _ Ho r _ Hk) as [Hr Hcont].
  pose proof Hcont as (x & y & Hop & Hsz). pose proof Hop as (Hx & Hq & Hy).
  assert (OK ≤ werr (tasks (tsk u)) r) as Herr.
  { apply (ic_err _ _ (ho_calls _ _ _ Ho)). unfold places. by rewrite lookup_fmap, Hk. }
  destruct (nxmq_receive_resume_ok idle u L p x q y r c e msglen true)
    as (o & L' & u' & t1 & Hrun' & Hi' & Hs' & Hres & Hout); [apply Ho|done..|].
  exists o, L', u'. split; [done|]. case_decide as Hz.
  - eapply (receive_step _ conts L u (with_t t1 u)); [done|exact Hop|done|done|done
      |by eapply resumes_calls|done|done| |exact Hout|by eapply resumes_watched| |]; cbv beta.
    + by eapply same_resumes.
    + intros d' q' Hne. rewrite decide_False by naive_solver. lia.
    + case_decide; lia.
  - destruct Hout as [-> Hqu]. simpl. by eapply resume_error.
Qed.

(** *** Interrupted waits *)

Lemma exec_interrupt conts L u a e :
  hist_ok conts L u → a ∈ dom (tasks (tsk u)) → OK < e →
  ∃ u', nxmq_wait_irq a e u = Some (tt, u') ∧ hist_step True conts L u conts [] L u'.
Proof.
  intros Ho [x Hx]%elem_of_dom He. pose proof (ho_inv _ _ _ Ho) as Hi.
  destruct (waiting_side (task_state x)) as [d|] eqn:Hd.
  - assert (task_state x = wait_state d) as Hst by (by destruct (task_state x); simplify_eq/=).
    destruct (wait_irq_ok idle u L ∅ d a x e Hi Hx Hst) as (q & u' & _ & Hrun & Hi' & Hu).
    destruct (unblocked_same _ _ _ _ _ _ Hu) as [Hs Hb]. exists u'. split; [done|].
    apply step_left; [done|done|done|intros b; apply Hb|by eapply unblocked_left].
  - exists u. split; [|by apply step_refl]. apply (wait_irq_quiet u a x); [done|].
    intros d Hst. rewrite Hst in Hd. by destruct d.
Qed.

Lemma exec_timeout conts L u d pid :
  hist_ok conts L u → hash_ok (msys u) →
  ∃ u', mq_timeout d pid u = Some (tt, u') ∧ hist_step True conts L u conts [] L u'.
Proof.
  intros Ho Hh. unfold mq_timeout. destruct (gettcb_ok (msys u) (s16 pid) Hh) as (w & Hrun & Hw).
  rewrite (K_bind_Some _ _ u w u) by (unfold on_sys; rewrite Hrun; by destruct u).
  destruct w as [a|]; [|exists u; split; [done|by apply step_refl]].
  pose proof (Hw a eq_refl) as Ha. destruct (proj1 (elem_of_dom _ _) Ha) as [x Hx]. tread ls_get.
  case_bool_decide; [by apply exec_interrupt|exists u; split; [done|by apply step_refl]].
Qed.

(** *** The scheduler *)

Lemma exec_sched conts L u o :
  hist_ok conts L u → sched_op_in (dom (tasks (tsk u))) o = true →
  ∃ ok, mq_compat o (tsk u) = Some (ok, tsk u) ∧ (ok = true →
    ∃ t', sched_exec idle o (tsk u) = Some (tt, t') ∧ hist_step True conts L u conts [] L (with_t t' u)).
Proof.
  intros Ho Hin. pose proof (ho_inv _ _ _ Ho) as Hi.
  destruct (sched_exec_ok idle o (tsk u) (mv_sched _ _ _ _ Hi) Hin) as (t' & Hrun & Hinv & Hf & Hl).
  assert (∃ ok, mq_compat o (tsk u) = Some (ok, tsk u) ∧
    (ok = true → ∀ d, ¬ sched_touches (tasks (tsk u)) o (wait_list d))) as (ok & Hok & Hno).
  { destruct o; try (by exists true; split; [|intros _ d ?]); simpl in *.
    - eexists. split; [done|]. intros Hst%bool_decide_eq_true_1 d ->%wait_list_state. by destruct d.
    - apply bool_decide_eq_true_1, elem_of_dom in Hin as [y Hy]. eexists. unfold mq_compat.
      rewrite (K_bind_Some _ _ _ _ _ (ls_get _ _ _ Hy)). split; [done|].
      intros Hst%bool_decide_eq_true_1 d (x & Hx & Hk%wait_list_state). simplify_eq. rewrite Hk in Hst.
      by destruct d. }
  exists ok. split; [done|]. intros Htrue. exists t'. split; [done|].
  pose proof (same_data_dom _ _ _ Hf) as Hd.
  assert (∀ a, wmq (tasks t') a = wmq (tasks (tsk u)) a ∧ werr (tasks t') a = werr (tasks (tsk u)) a) as Hw.
  { intros a. apply (f_equal (.!! a)) in Hf. rewrite !lookup_fmap in Hf. unfold wmq, werr.
    destruct (tasks t' !! a), (tasks (tsk u) !! a); simpl in Hf; try done. by injection Hf. }
  assert (∀ d, lists t' (wait_list d) ≡ₚ lists (tsk u) (wait_list d)) as HW.
  { intros d. apply Hl; [apply wait_list_ready..|by apply Hno]. }
  apply step_same; [done| |by split|].
  - apply inv_tasks; [done|done|by rewrite <- !size_dom, Hd|]. eapply mwait_frame; [apply Hi|apply Hw|done].
  - split; [|done]. split; [|apply Hw]. intros d q a. rewrite !elem_mwaiters. simpl. by rewrite (proj1 (Hw a)), HW.
Qed.

(** *** One operation, and all *)

(** The heap has a structure for the operation. *)
Definition heap_provides (o : mq_op) : Prop :=
  match o with MqResume kmm => kmm ≠ None | _ => True end.

(** The descriptors in [P] are open. *)
Definition all_opened u (P : gset addr) : Prop := ∀ p, p ∈ P → ∃ q x y, opened u p q x y.

Lemma all_opened_same u u' P : mq_same u u' → all_opened u P → all_opened u' P.
Proof.
  intros Hs HP p Hp. destruct (HP p Hp) as (q & x & y & Hop).
  destruct (opened_same _ _ _ _ _ _ Hs Hop) as (y' & ? & _). eauto.
Qed.

Lemma queue_of_ok u p q x y : opened u p q x y → queue_of p u = Some (q, u).
Proof. intros (Hx & Hq & _). unfold queue_of. dread des_get_Some. by rewrite Hq. Qed.

Lemma mq_exec_ok conts o L u P :
  hist_ok conts L u → notes_ok idle sig u → hash_ok (msys u) → all_opened u P →
  mq_op_in (dom (tasks (tsk u))) P o = true →
  ∃ conts' evs L' u', mq_exec idle sig conts o u = Some ((conts', evs), u') ∧
    hist_step (heap_provides o) conts L u conts' evs L' u'.
Proof.
  intros Ho Hno Hh HP Hin. pose proof (ho_inv _ _ _ Ho) as Hi.
  destruct (ready_head idle _ (sv_core _ _ (mv_sched _ _ _ _ Hi))) as (r & l & x & Hl & Hx & _).
  assert (runs u r (lockcount x)) as Hr by (by exists l, x).
  pose proof (λ P, step_refl P conts L u Ho) as Hrefl. unfold mq_exec. tread ls_this_task. tread ls_get.
  erewrite K_bind_Some by (eapply data_read; reflexivity). cbv beta zeta. unfold kwhen.
  destruct o as [kmm p msg msglen prio|p msg msglen prio|p msg msglen|kmm|a e|d pid|o]; simpl in Hin.
  - apply bool_decide_eq_true_1, HP in Hin as (q & z & y & Hop). destruct (_ && _) eqn:Hb; [|eauto 6].
    rewrite !andb_true_iff, Z.leb_le in Hb. destruct Hb as [[[[Hn Hne] Hroom] Hfr] Hbuf].
    apply bool_decide_eq_true_1 in Hn. apply negb_true_iff, bool_decide_eq_false_1 in Hne.
    rewrite (K_bind_Some _ _ _ _ _ (queue_of_ok _ _ _ _ _ Hop)).
    destruct (exec_send conts L u r _ kmm p q z y msg msglen prio Ho Hno Hop Hn Hne Hr Hroom
      (heap_fresh_ok _ _ Hfr) Hbuf) as (st & L' & u' & Hrun & Hst).
    rewrite (K_bind_Some _ _ _ _ _ Hrun). destruct (after_send _ _ _ _ _ _ _ _). eauto 6.
  - apply bool_decide_eq_true_1, HP in Hin as (q & z & y & Hop). destruct (buffer_ok _ _) eqn:Hbuf; [|eauto 6].
    destruct (exec_irq_send conts L u p q z y msg msglen prio Ho Hno Hop Hbuf) as (st & L' & u' & Hrun & Hst).
    rewrite (K_bind_Some _ _ _ _ _ Hrun). eauto 6.
  - apply bool_decide_eq_true_1, HP in Hin as (q & z & y & Hop). destruct (_ && _) eqn:Hb; [|eauto 6].
    rewrite !andb_true_iff, Z.leb_le in Hb. destruct Hb as [[Hn Hne] Hroom].
    apply bool_decide_eq_true_1 in Hn. apply negb_true_iff, bool_decide_eq_false_1 in Hne.
    rewrite (K_bind_Some _ _ _ _ _ (queue_of_ok _ _ _ _ _ Hop)).
    destruct (exec_receive conts L u r (lockcount x) p q z y msg msglen Ho Hop Hn Hne Hr)
      as (st & L' & u' & Hrun & Hst); [lia|].
    rewrite (K_bind_Some _ _ _ _ _ Hrun). destruct (after_receive _ _ _ _ _ _). eauto 6.
  - destruct (conts !! r) as [[e p q msg msglen prio|e p q msglen]|] eqn:Hk; [| |eauto 6].
    + destruct (_ && _) eqn:Hb; [|eauto 6]. rewrite andb_true_iff, Z.leb_le in Hb. destruct Hb as [Hroom Hfr].
      destruct (exec_send_resume conts L u r (lockcount x) e kmm p q msg msglen prio Ho Hno Hk Hr)
        as (st & L' & u' & Hrun & Hst); [lia|by apply heap_fresh_ok|].
      rewrite (K_bind_Some _ _ _ _ _ Hrun). destruct (after_send _ _ _ _ _ _ _ _). eauto 6.
    + destruct (exec_receive_resume conts L u r (lockcount x) e p q msglen Ho Hk Hr)
        as (st & L' & u' & Hrun & Hst).
      rewrite (K_bind_Some _ _ _ _ _ Hrun). destruct (after_receive _ _ _ _ _ _) as [conts' evs].
      exists conts', evs, L', u'. split; [done|]. destruct Hst. split; auto.
  - apply bool_decide_eq_true_1 in Hin. destruct (Z.ltb_spec OK e) as [He|He]; [|eauto 6].
    destruct (exec_interrupt conts L u a e Ho Hin He) as (u' & Hrun & Hst).
    rewrite (K_bind_Some _ _ _ _ _ Hrun). eauto 6.
  - destruct (exec_timeout conts L u d pid Ho Hh) as (u' & Hrun & Hst).
    rewrite (K_bind_Some _ _ _ _ _ Hrun). eauto 6.
  - destruct (exec_sched conts L u o Ho Hin) as (ok & Hok & Hex).
    rewrite (K_bind_Some _ _ _ _ _ (tcb_read _ _ _ Hok)). destruct ok; [|eauto 6].
    destruct (Hex eq_refl) as (t' & Hrun & Hst).
    rewrite (K_bind_Some _ _ _ _ _ (on_tcb_Some _ _ _ _ Hrun)). eauto 6.
Qed.

Lemma hash_same u u' : mq_same u u' → hash_ok (msys u) → hash_ok (msys u').
Proof. intros [Hd Hp _ _ _] Hh. unfold hash_ok. by rewrite Hd, Hp. Qed.

Lemma hist_step_trans (A B : Prop) conts1 L1 u1 evs conts2 L2 u2 evs' conts3 L3 u3 :
  hist_step A conts1 L1 u1 conts2 evs L2 u2 → hist_step B conts2 L2 u2 conts3 evs' L3 u3 →
  hist_step (A ∧ B) conts1 L1 u1 conts3 (evs ++ evs') L3 u3.
Proof.
  intros [O1 S1 M1 W1] [O2 S2 M2 W2]. split; [done|by etransitivity| |intros [HA HB] Hw; auto].
  eapply mail_steps_app; [exact M1|]. by rewrite <- (ms_des _ _ S1).
Qed.

Lemma mq_run_ok conts os L u P :
  hist_ok conts L u → notes_ok idle sig u → hash_ok (msys u) → all_opened u P →
  Forall (λ o, mq_op_in (dom (tasks (tsk u))) P o = true) os →
  ∃ conts' evs L' u', mq_run idle sig conts os u = Some ((conts', evs), u') ∧
    hist_step (Forall heap_provides os) conts L u conts' evs L' u'.
Proof.
  revert conts L u. induction os as [|o os IH]; intros conts L u Ho Hno Hh HP Hin; cbn [mq_run].
  { exists conts, [], L, u. split; [done|by apply step_refl]. }
  apply Forall_cons in Hin as [Hin Hos].
  destruct (mq_exec_ok conts o L u P Ho Hno Hh HP Hin) as (c1 & ev & L1 & u1 & Hrun1 & Hst1).
  rewrite (K_bind_Some _ _ _ _ _ Hrun1). pose proof (hs_same _ _ _ _ _ _ _ _ Hst1) as Hs.
  destruct (IH c1 L1 u1 (hs_ok _ _ _ _ _ _ _ _ Hst1)) as (c2 & evs & L2 & u2 & Hrun2 & Hst2);
    [by eapply notes_ok_same|by eapply hash_same|by eapply all_opened_same|by rewrite (ms_tasks _ _ Hs)|].
  rewrite (K_bind_Some _ _ _ _ _ Hrun2). exists c2, (ev ++ evs), L2, u2. split; [done|].
  destruct (hist_step_trans _ _ _ _ _ _ _ _ _ _ _ _ _ Hst1 Hst2) as [O S M W]. split; [done..|].
  intros Hall%Forall_cons. auto.
Qed.
End ops.
End hist.
