(* ===== verification/MqInit.v ===== *)
(** * MqInit: start-up, creation and deletion of queues

    [nxmq_initialize] fills the pools, [nxmq_alloc_msgq] creates an empty queue,
    [nxmq_free_msgq] gives every message of a queue back to where it came from. *)

From S2P Require Import Prelude Queue QueueRefine Sched SchedSpec SchedInv Semaphore SemSpec SemOps MQueue MqSpec MqInv MqData.
Import Sq SqSpec.
Local Open Scope Z_scope.

Section init.
Context `{Config} `{MqConfig}.
Implicit Types (d : mq_data) (L : mlist → list addr) (held : gset addr) (k : mlist) (a q : addr)
  (block : list (addr * mqueue_msg_s)).

(** ** The pools *)

(** What [kmm_malloc] may return for a block of structures. *)
Definition block_ok d block : Prop :=
  NoDup block.*1 ∧ Forall (λ ax, (ax.1 ∉ dom (msgs d)) ∧ Z.of_nat (length (mail ax.2)) = MQ_MAX_BYTES) block ∧
  Z.of_nat (size (msgs d)) + Z.of_nat (length block) ≤ 32767.

Definition pool_type k (ty : mqalloc_e) : Prop :=
  k = MFree ∧ ty = MQ_ALLOC_FIXED ∨ k = MFreeIrq ∧ ty = MQ_ALLOC_IRQ.

Lemma block_new d L held block :
  mdata_ok L held d → block_ok d block →
  mdata_ok L (list_to_set block.*1 ∪ held) (set_msgs (list_to_map block ∪ msgs d) d).
Proof.
  revert d held. induction block as [|[a x] block IH]; intros d held Hok (Hnd & Hall & Hsz).
  { simpl. rewrite map_empty_union, union_empty_l_L. by destruct d. }
  rewrite fmap_cons, list_to_map_cons, list_to_set_cons. cbn [fst snd length] in *.
  apply Forall_cons in Hall as [[Ha Hx] Hall]. apply NoDup_cons in Hnd as [Hna Hnd]. cbn [fst snd] in *.
  destruct (new_msg_ok d L held a x Hok Ha Hx) as [Hok1 _]; [lia|].
  assert (list_to_map block !! a = None) as Hnone by (by apply not_elem_of_list_to_map_1).
  pose proof (not_elem_of_dom_1 _ _ Ha) as Hda.
  replace (<[a := x]> (list_to_map block) ∪ msgs d)
    with (list_to_map block ∪ <[a := x]> (msgs d)) by (by rewrite <- insert_union_l, insert_union_r).
  replace ({[a]} ∪ list_to_set block.*1 ∪ held)
    with (list_to_set block.*1 ∪ ({[a]} ∪ held)) by set_solver.
  refine (IH (set_msgs (<[a := x]> (msgs d)) d) ({[a]} ∪ held) Hok1 _). split; [done|]. split; simpl.
  - apply Forall_forall. intros [b y] Hb. rewrite Forall_forall in Hall. destruct (Hall _ Hb) as [Hbd Hy].
    split; [|done]. simpl in *. rewrite dom_insert. apply (list_elem_of_fmap_2 fst) in Hb. simpl in Hb.
    set_solver.
  - rewrite map_size_insert_None by done. lia.
Qed.

Lemma type_ok d L held a x ty :
  mdata_ok L held d → a ∈ held → msgs d !! a = Some x →
  mdata_ok L held (set_msgs (<[a := set_msg_type ty x]> (msgs d)) d).
Proof.
  intros Hok Ha Hx. assert (∀ k, a ∉ L k) as Hno.
  { intros k Hk. by apply (ml_held _ _ _ (md_lists _ _ _ Hok) k a). }
  eapply mdata_pool; [exact Hok|by eapply mlists_msg; [apply Hok|..]|done|done| | | | |]; simpl.
  - rewrite map_size_insert, Hx. apply Hok.
  - intros b z. rewrite lookup_insert_Some. intros [[<- <-]|[_ Hz]];
      [exact (md_mail _ _ _ Hok a x Hx)|by eapply (md_mail _ _ _ Hok)].
  - intros q. split; [done|]. apply same_msgs_insert, Hno.
  - intros b z Hb. rewrite lookup_insert_ne by (intros ->; by apply (Hno MFree)). by apply (md_free _ _ _ Hok).
  - intros b z Hb. rewrite lookup_insert_ne by (intros ->; by apply (Hno MFreeIrq)). by apply (md_irq _ _ _ Hok).
Qed.

Lemma msgblock_loop_ok l k ty d L held :
  mdata_ok L held d → NoDup l → list_to_set l ⊆ held → pool_type k ty →
  ∃ d' L', msgblock_loop l k ty d = Some (tt, d') ∧ mdata_ok L' (held ∖ list_to_set l) d' ∧
    L' k = L k ++ l ∧ (∀ k', k' ≠ k → L' k' = L k') ∧ msgqs d' = msgqs d ∧ des_part d' = des_part d.
Proof.
  revert d L held. induction l as [|a l IH]; intros d L held Hok Hnd Hsub Hty; cbn [msgblock_loop].
  { exists d, L. simpl. rewrite app_nil_r, difference_empty_L. by split_and!. }
  apply NoDup_cons in Hnd as [Hna Hnd]. simpl in Hsub. assert (a ∈ held) as Ha by set_solver.
  assert (a ∈ dom (msgs d)) as [x Hx]%elem_of_dom by (apply (ml_dom _ _ _ (md_lists _ _ _ Hok)); by left).
  krun msg_set_Some. pose proof (type_ok d L held a x ty Hok Ha Hx) as Hok1.
  destruct (pool_put _ L held k a (set_msg_type ty x) Hok1 Ha) as (d2 & Hrun & Hok2 & ([Hdp _] & HQ & _) & _);
    [apply lookup_insert_eq|done|].
  rewrite (K_bind_Some _ _ _ _ _ Hrun).
  destruct (IH _ _ _ Hok2 Hnd) as (d' & L' & Hrun' & Hok' & Hk & Ho & HQ' & Hdp'); [set_solver|done|].
  exists d', L'. split; [done|]. split; [|split; [|split; [|split]]].
  - replace (held ∖ list_to_set (a :: l)) with (held ∖ {[a]} ∖ list_to_set l); [done|].
    apply set_eq. intros b. simpl. set_solver.
  - by rewrite Hk, upd_list_eq, <- app_assoc.
  - intros k' Hne. rewrite Ho by done. by apply upd_list_ne.
  - by rewrite HQ'.
  - by rewrite Hdp', Hdp.
Qed.

Lemma msgblockalloc_ok block k ty d L :
  mdata_ok L ∅ d → block_ok d block → pool_type k ty →
  ∃ d' L', mq_msgblockalloc (Some block) k ty d = Some (tt, d') ∧ mdata_ok L' ∅ d' ∧
    L' k = L k ++ block.*1 ∧ (∀ k', k' ≠ k → L' k' = L k') ∧ msgqs d' = msgqs d ∧ des_part d' = des_part d.
Proof.
  intros Hok Hb Hty. unfold mq_msgblockalloc. erewrite K_bind_Some by reflexivity. cbv beta.
  destruct (msgblock_loop_ok block.*1 k ty _ L _ (block_new d L ∅ block Hok Hb)) as (d' & L' & Hrun & Hok' & Hrest);
    [apply Hb|set_solver|done|].
  exists d', L'. split; [done|]. split; [|done].
  by replace ((list_to_set block.*1 ∪ ∅) ∖ list_to_set block.*1) with (∅ : gset addr) in Hok' by set_solver.
Qed.

(** ** The descriptors *)

(** Operations on descriptors leave messages and queues alone. *)
Definition des_only d d' : Prop :=
  msgs d' = msgs d ∧ g_msgfree d' = g_msgfree d ∧ g_msgfreeirq d' = g_msgfreeirq d ∧ msgqs d' = msgqs d.

Lemma des_only_ok d d' L held : des_only d d' → mdata_ok L held d → mdata_ok L held d'.
Proof.
  intros (Hm & Hf & Hi & HQ) [[Hr Hn Hd Hh Hdom] Hsz Hmail Hfree Hirq Hq].
  assert (∀ k, mq_list k d' = mq_list k d) as Hk by (intros [| |b]; simpl; by rewrite ?Hf, ?Hi, ?HQ).
  split; rewrite ?Hm, ?HQ; try done. split; rewrite ?Hm; try done; intros k; [intros q|]; rewrite Hk; auto.
Qed.

Lemma desblock_loop_ok l d ls :
  sq_repr (mqdess d) (g_desfree d) ls → NoDup (ls ++ l) → Forall (.∈ dom (mqdess d)) l →
  ∃ d', desblock_loop l d = Some (tt, d') ∧ des_only d d' ∧
    sq_repr (mqdess d') (g_desfree d') (ls ++ l) ∧ dom (mqdess d') = dom (mqdess d) ∧
    tg_msgdesq d' = tg_msgdesq d.
Proof.
  revert d ls. induction l as [|a l IH]; intros d ls Hr Hnd Hall; cbn [desblock_loop].
  { exists d. rewrite app_nil_r. by split_and!. }
  apply Forall_cons in Hall as [Ha Hall].
  assert (a ∉ ls) as Hn by (apply NoDup_app in Hnd as (_ & Hd & _); intros Hx; apply (Hd a Hx); set_solver).
  destruct (sq_addlast_spec _ _ _ a Hr Ha Hn) as (q' & m' & Hrun & Hr' & [Hsd _]).
  pose proof (same_data_dom _ _ _ Hsd) as Hdom. set (d1 := set_des m' q' (tg_msgdesq d) d).
  rewrite (K_bind_Some _ _ d tt d1) by (unfold kput; by rewrite Hrun).
  destruct (IH d1 (ls ++ [a])) as (d' & Hrun' & Hd' & Hr2 & Hdom' & Htg);
    [done|by rewrite <- app_assoc|by simpl; rewrite Hdom|].
  exists d'. rewrite <- app_assoc in Hr2. split; [done|]. split; [done|]. split; [done|].
  split; [by rewrite Hdom'|done].
Qed.

Lemma alloc_desblock_ok d ls b (dblock : list (addr * mq_des)) :
  sq_repr (mqdess d) (g_desfree d) ls → (∃ lb, sq_repr (desblocks d) (g_desalloc d) lb ∧ b ∉ lb) →
  NoDup (ls ++ dblock.*1) → Forall (.∉ dom (mqdess d)) dblock.*1 →
  ∃ d', nxmq_alloc_desblock (Some (b, dblock)) d = Some (tt, d') ∧ des_only d d' ∧
    sq_repr (mqdess d') (g_desfree d') (ls ++ dblock.*1) ∧
    dom (mqdess d') = list_to_set dblock.*1 ∪ dom (mqdess d) ∧ tg_msgdesq d' = tg_msgdesq d.
Proof.
  intros Hr (lb & Hb & Hnb) Hnd Hfresh. unfold nxmq_alloc_desblock.
  destruct (sq_addlast_spec (<[b := mk_sq_entry NULL]> (desblocks d)) (g_desalloc d) lb b)
    as (q' & m' & Hrun & _); [|set_solver|done|].
  { apply (sq_repr_frame (desblocks d) _ _ _ [b]); [done| |set_solver].
    intros c Hc. rewrite lookup_insert_ne; [done|set_solver]. }
  erewrite K_bind_Some by (unfold kput; rewrite Hrun; reflexivity). cbv beta.
  set (d1 := mk_md _ _ _ _ _ _ _ _ _). pose proof Hnd as (_ & Hdis & _)%NoDup_app.
  destruct (desblock_loop_ok dblock.*1 d1 ls) as (d' & Hrun' & Hd' & Hr' & Hdom & Htg); [|done| |].
  - apply (sq_repr_frame (mqdess d) _ _ _ dblock.*1); [done| |done].
    intros c Hc. simpl. rewrite lookup_union_r; [done|]. by apply not_elem_of_list_to_map_1.
  - simpl. apply Forall_forall. intros c Hc. rewrite dom_union, dom_list_to_map. set_solver.
  - exists d'. split_and!; try done. rewrite Hdom. simpl. by rewrite dom_union_L, dom_list_to_map_L.
Qed.

(** ** Start-up *)

(** The state before [nxmq_initialize]. *)
Definition boot_data d : Prop :=
  msgs d = ∅ ∧ msgqs d = ∅ ∧ mqdess d = ∅ ∧ g_desfree d = sq_init.

Lemma sq_repr_init {A D} `{!SqEntry A D} (m : mem A) : sq_repr m sq_init [].
Proof. repeat split. constructor. Qed.

Lemma reset_ok_mq d :
  msgs d = ∅ → msgqs d = ∅ → g_msgfree d = sq_init → g_msgfreeirq d = sq_init → mdata_ok (λ _, []) ∅ d.
Proof.
  intros Hm HQ Hf Hi. split; try (rewrite ?Hm, ?HQ; done).
  split; rewrite ?Hm; try set_solver.
  intros [| |q] h; simpl; rewrite ?Hf, ?Hi, ?HQ, ?lookup_empty; simpl; [intros [= <-]; apply sq_repr_init..|done].
Qed.

Lemma pool_dom d L k l :
  mdata_ok L ∅ d → L k = l → (∀ k', k' ≠ k → L k' = []) → NoDup l →
  (∀ a, a ∈ dom (msgs d) ↔ a ∈ l) ∧ size (msgs d) = length l.
Proof.
  intros Hok Hk Ho Hnd. assert (∀ a, a ∈ dom (msgs d) ↔ a ∈ l) as Hdom.
  { intros a. rewrite (ml_dom _ _ _ (md_lists _ _ _ Hok)). split; [|intros Ha; right; exists k; by rewrite Hk].
    intros [?|[k' Ha]]; [set_solver|]. destruct (decide (k' = k)) as [->|Hne]; [by rewrite <- Hk|].
    rewrite Ho in Ha by done. set_solver. }
  split; [done|]. rewrite <- size_dom, <- (size_list_to_set (C := gset addr) l) by done. f_equal. set_solver.
Qed.

Lemma mq_initialize_ok d block1 block2 b (dblock : list (addr * mq_des)) :
  boot_data d → NoDup (block1.*1 ++ block2.*1) →
  Forall (λ ax, Z.of_nat (length (mail ax.2)) = MQ_MAX_BYTES) (block1 ++ block2) →
  Z.of_nat (length (block1 ++ block2)) ≤ 32767 → NoDup dblock.*1 →
  ∃ d' L, nxmq_initialize (Some block1) (Some block2) (Some (b, dblock)) d = Some (tt, d') ∧
    mdata_ok L ∅ d' ∧ L MFree = block1.*1 ∧ L MFreeIrq = block2.*1 ∧ msgqs d' = ∅ ∧
    sq_repr (mqdess d') (g_desfree d') dblock.*1 ∧ dom (mqdess d') = list_to_set dblock.*1 ∧
    tg_msgdesq d' = tg_msgdesq d.
Proof.
  intros (Hm & HQ & Hds & Hdf) Hnd [H1 H2]%Forall_app Hlen Hndd. rewrite length_app in Hlen.
  pose proof Hnd as (Hnd1 & Hdis & Hnd2)%NoDup_app.
  unfold nxmq_initialize. erewrite K_bind_Some by reflexivity. cbv beta. set (d0 := mk_md _ _ _ _ _ _ _ _ _).
  pose proof (reset_ok_mq d0 Hm HQ eq_refl eq_refl) as Hok0.
  destruct (msgblockalloc_ok block1 MFree MQ_ALLOC_FIXED d0 _ Hok0) as (d1 & L1 & Hr1 & Hok1 & Hf1 & Ho1 & HQ1
    & Hdp1);
    [|by left|].
  { split; [done|]. simpl. rewrite Hm. split; [|rewrite map_size_empty; lia].
    eapply Forall_impl; [exact H1|]. set_solver. }
  rewrite (K_bind_Some _ _ _ _ _ Hr1).
  destruct (pool_dom d1 L1 MFree block1.*1 Hok1) as [Hdom1 Hsz1]; [done|intros k Hk; by rewrite Ho1|done|].
  destruct (msgblockalloc_ok block2 MFreeIrq MQ_ALLOC_IRQ d1 _ Hok1) as (d2 & L2 & Hr2 & Hok2 & Hf2 & Ho2 & HQ2
    & Hdp2);
    [|by right|].
  { split; [done|]. split; [|rewrite Hsz1, length_fmap; lia]. apply Forall_forall. intros [a x] Ha.
    rewrite Forall_forall in H2. split; [|by apply (H2 _ Ha)]. simpl. rewrite Hdom1. intros Hb.
    apply (Hdis a Hb). by apply (list_elem_of_fmap_2 fst) in Ha. }
  rewrite (K_bind_Some _ _ _ _ _ Hr2). rewrite Hdp1 in Hdp2. injection Hdp2 as E1 E2 E3 E4 E5.
  destruct (alloc_desblock_ok d2 [] b dblock) as (d3 & Hr3 & Hd3 & Hrep & Hdm & Htg).
  - rewrite E2, Hdf. apply sq_repr_init.
  - exists []. rewrite E4. split; [apply sq_repr_init|set_solver].
  - done.
  - rewrite E1, Hds. apply Forall_forall. set_solver.
  - exists d3, L2. split; [done|]. split; [by eapply des_only_ok|].
    split; [by rewrite Ho2, Hf1|]. split; [by rewrite Hf2, Ho1|].
    split; [|split; [done|split; [|by rewrite Htg, E5]]].
    2: { rewrite Hdm, E1, Hds, dom_empty_L. set_solver. }
    destruct Hd3 as (_ & _ & _ & ->). by rewrite HQ2, HQ1.
Qed.

(** ** A new queue *)

Definition new_msgq (maxmsg msgsize : Z) : mqueue_inode_s :=
  mk_mqi sq_init maxmsg 0 0 0 msgsize NULL INVALID_PROCESS_ID no_event.

Lemma alloc_msgq_ok d L held a at' :
  mdata_ok L held d → a ∉ dom (msgqs d) → MQ_MAX_BYTES ≤ 32767 → 0 ≤ mq_msgsize at' ≤ MQ_MAX_BYTES →
  ∃ d', nxmq_alloc_msgq (Some a) (Some at') d = Some (Some a, d') ∧ mdata_ok L held d' ∧
    L (MQueue a) = [] ∧ des_part d' = des_part d ∧
    msgqs d' = <[a := new_msgq (s16 (mq_maxmsg at')) (mq_msgsize at')]> (msgqs d).
Proof.
  intros Hok Ha Hmax Hsz. pose proof (not_elem_of_dom_1 _ _ Ha) as Hnone.
  assert (L (MQueue a) = []) as HL by (apply (ml_none _ _ _ (md_lists _ _ _ Hok)); simpl; by rewrite Hnone).
  assert (msgsize_t (mq_msgsize at') = mq_msgsize at') as Hms.
  { unfold msgsize_t. destruct (Z.ltb_spec MQ_MAX_BYTES 256); [apply u8_small|apply u16_small]; lia. }
  unfold nxmq_alloc_msgq. rewrite (proj2 (Z.ltb_ge _ _)) by lia. krun kassert_Some.
  rewrite (s16_small (mq_msgsize at')) by lia. rewrite Hms.
  erewrite K_bind_Some by reflexivity. eexists. split; [done|]. split; [|done].
  destruct Hok as [[Hr Hn Hd Hh Hdom] Hs Hmail Hfree Hirq Hq]. split; simpl; try done.
  - split; try done.
    + intros [| |b] h; simpl; [apply (Hr MFree)|apply (Hr MFreeIrq)|].
      rewrite fmap_Some. intros (y & Hy & ->). apply lookup_insert_Some in Hy as [[<- <-]|[Hne Hy]].
      * rewrite HL. apply sq_repr_init.
      * apply (Hr (MQueue b)). simpl. by rewrite Hy.
    + intros [| |b]; simpl; [done..|]. rewrite fmap_None, lookup_insert_None. intros [Hb _].
      apply Hn. simpl. by rewrite Hb.
  - intros q y Hy. apply lookup_insert_Some in Hy as [[<- <-]|[Hne Hy]]; [|by apply Hq].
    rewrite HL. split; [done|constructor|done|set_solver].
Qed.

(** ** The end of a queue *)

(** A queue is taken out: its messages are on no list any more. *)
Lemma drop_msgq d L held q y :
  mdata_ok L held d → msgqs d !! q = Some y →
  mdata_ok (upd_list (MQueue q) [] L) (list_to_set (L (MQueue q)) ∪ held) (set_msgqs (delete q (msgqs d)) d).
Proof.
  intros [[Hr Hn Hd Hh Hdom] Hs Hmail Hfree Hirq Hq] Hy.
  assert (∀ k a, a ∈ upd_list (MQueue q) [] L k → k ≠ MQueue q ∧ a ∈ L k) as Hin.
  { intros k a. unfold upd_list. case_decide; [set_solver|done]. }
  split; simpl; try done.
  - split.
    + intros [| |b] h; simpl; [rewrite upd_list_ne by done..|].
      * apply (Hr MFree).
      * apply (Hr MFreeIrq).
      * rewrite fmap_Some. intros (z & Hz & ->). apply lookup_delete_Some in Hz as [Hne Hz].
        rewrite upd_list_ne by congruence. apply (Hr (MQueue b)). simpl. by rewrite Hz.
    + intros k. unfold upd_list. case_decide; [done|]. intros Hk. apply Hn.
      destruct k as [| |b]; simpl in *; [done..|]. rewrite lookup_delete_ne in Hk by congruence. done.
    + intros k k' a [_ Ha]%Hin [_ Ha']%Hin. by eapply Hd.
    + intros k a [Hne Ha]%Hin. specialize (Hh k a Ha). intros [Hx%elem_of_list_to_set|?]%elem_of_union; [|done].
      apply Hne. by eapply Hd.
    + intros a. rewrite Hdom. split.
      * intros [?|[k Ha]]; [set_solver|]. destruct (decide (k = MQueue q)) as [->|Hne]; [set_solver|].
        right. exists k. by rewrite upd_list_ne.
      * intros [[?%elem_of_list_to_set|?]%elem_of_union|[k [_ Ha]%Hin]]; [right;
          by exists (MQueue q)|by left|by right; exists k].
  - intros b z Hz. apply lookup_delete_Some in Hz as [Hne Hz]. rewrite upd_list_ne by congruence. by apply Hq.
Qed.

(** The loop does not look at the queues. *)
Lemma free_msg_msgqs Q a d d' :
  nxmq_free_msg a d = Some (tt, d') → nxmq_free_msg a (set_msgqs Q d) = Some (tt, set_msgqs Q d').
Proof.
  unfold nxmq_free_msg. intros (x & d1 & H1 & H2)%K_bind_inv.
  assert (d1 = d ∧ msgs d !! a = Some x) as [-> Hx].
  { unfold msg_get, kget in H1. by destruct (msgs d !! a); simplify_eq/=. }
  rewrite (K_bind_Some _ _ _ x (set_msgqs Q d)) by (by apply msg_get_Some). destruct (msg_type x).
  - unfold mlist_addlast in *. simpl in *. destruct (sq_addlast _ _ _) as [[q' m']|]; simpl in *; [|done].
    by injection H2 as <-.
  - unfold kput in *. simpl in *. by injection H2 as <-.
  - unfold mlist_addlast in *. simpl in *. destruct (sq_addlast _ _ _) as [[q' m']|]; simpl in *; [|done].
    by injection H2 as <-.
Qed.

Lemma free_msgq_loop_ok l n d L held :
  mdata_ok L held d → sseg msg_next (msgs d) l NULL → NoDup l → list_to_set l ⊆ held →
  (length l ≤ n)%nat →
  ∃ d' L', free_msgq_loop n (hd_or NULL l) d = Some (tt, d') ∧
    mdata_ok L' (held ∖ list_to_set l) d' ∧ pools_only d L d' L'.
Proof.
  revert n d L held. induction l as [|a l IH]; intros n d L held Hok Hseg Hnd Hsub Hn.
  { exists d, L. split; [by destruct n|]. simpl. rewrite difference_empty_L. split; [done|]. by split_and!. }
  destruct n as [|n]; [simpl in Hn; lia|]. destruct Hseg as [(x & Hx & Hnext) Hseg].
  apply NoDup_cons in Hnd as [Hna Hnd]. simpl in Hsub. cbn [free_msgq_loop hd_or]. krun msg_get_Some.
  destruct (free_msg_ok d L held a Hok) as (d1 & L1 & Hrun & Hok1 & Hp1 & Hun); [set_solver|].
  rewrite (K_bind_Some _ _ _ _ _ Hrun), Hnext.
  destruct (IH n d1 L1 _ Hok1) as (d' & L' & Hrun' & Hok' & Hp'); [|done|set_solver|simpl in Hn; lia|].
  { eapply sseg_frame; [|exact Hseg]. intros b Hb. apply Hun; [set_solver|]. intros k Hk.
    apply (ml_held _ _ _ (md_lists _ _ _ Hok) k b Hk). set_solver. }
  exists d', L'. split; [done|]. split.
  - replace (held ∖ list_to_set (a :: l)) with (held ∖ {[a]} ∖ list_to_set l); [done|].
    apply set_eq. intros b. simpl. set_solver.
  - destruct Hp1 as (S1 & Q1 & M1), Hp' as (S2 & Q2 & M2). split; [by transitivity d1|].
    split; [by rewrite Q2|]. intros q. destruct (M1 q) as [E1 F1], (M2 q) as [E2 F2].
    split; [by rewrite E2|]. eapply same_msgs_trans; [exact F1|]. by rewrite <- E1.
Qed.

Lemma free_loop_msgqs Q n p d d' :
  free_msgq_loop n p d = Some (tt, d') → free_msgq_loop n p (set_msgqs Q d) = Some (tt, set_msgqs Q d').
Proof.
  revert p d. induction n as [|n IH]; intros [a|] d; cbn [free_msgq_loop]; try (by intros [= <-]).
  - intros (x & d1 & H1 & (? & d2 & H2 & H3)%K_bind_inv)%K_bind_inv. done.
  - intros (x & d1 & H1 & ([] & d2 & H2 & H3)%K_bind_inv)%K_bind_inv.
    assert (d1 = d ∧ msgs d !! a = Some x) as [-> Hx].
    { unfold msg_get, kget in H1. by destruct (msgs d !! a); simplify_eq/=. }
    rewrite (K_bind_Some _ _ _ x (set_msgqs Q d)) by (by apply msg_get_Some).
    rewrite (K_bind_Some _ _ _ _ _ (free_msg_msgqs Q a d d2 H2)). by apply IH.
Qed.

(** Every message of the queue goes back to its pool or to the heap; the other
    queues keep theirs. *)
Lemma free_msgq_ok d L held q y :
  mdata_ok L held d → msgqs d !! q = Some y →
  ∃ d' L', nxmq_free_msgq q d = Some (tt, d') ∧ mdata_ok L' held d' ∧ L' (MQueue q) = [] ∧
    msgqs d' = delete q (msgqs d) ∧ des_part d' = des_part d ∧
    ∀ q', q' ≠ q → L' (MQueue q') = L (MQueue q') ∧ same_msgs (L (MQueue q')) (msgs d) (msgs d').
Proof.
  intros Hok Hy. pose proof (ml_held _ _ _ (md_lists _ _ _ Hok) (MQueue q)) as Hheld.
  pose proof (drop_msgq d L held q y Hok Hy) as Hok1.
  assert (sq_repr (msgs d) (msglist y) (L (MQueue q))) as Hr.
  { apply (ml_repr _ _ _ (md_lists _ _ _ Hok)). simpl. by rewrite Hy. }
  pose proof Hr as (Hnd & Hhd & _ & Hseg). set (d1 := set_msgqs (delete q (msgqs d)) d) in *.
  destruct (free_msgq_loop_ok (L (MQueue q)) (size (msgs d)) d1 _ _ Hok1)
    as (d2 & L' & Hrun & Hok2 & ([Hdp _] & HQ & Hoth)); [done|done|set_solver|by eapply sq_repr_size|].
  assert (free_msgq_loop (size (msgs d)) (hd_or NULL (L (MQueue q))) d =
          Some (tt, set_msgqs (msgqs d) d2)) as Hrun'.
  { apply (free_loop_msgqs (msgqs d)) in Hrun. by destruct d. }
  exists d2, L'. split; [|split; [|split; [|split; [done|split; [done|]]]]].
  - unfold nxmq_free_msgq. krun msgq_get_Some. rewrite Hhd. erewrite K_bind_Some by reflexivity.
    rewrite (K_bind_Some _ _ _ _ _ Hrun'). unfold kput. simpl. do 3 f_equal.
    change (delete q (msgqs d)) with (msgqs d1). rewrite <- HQ. by destruct d2.
  - by replace ((list_to_set (L (MQueue q)) ∪ held) ∖ list_to_set (L (MQueue q))) with held in Hok2
      by (apply set_eq; intros b; specialize (Hheld b); set_solver).
  - destruct (Hoth q) as [-> _]. apply upd_list_eq.
  - intros q' Hne. destruct (Hoth q') as [E F]. rewrite upd_list_ne in E, F by congruence. done.
Qed.
End init.
