(* ===== verification/MqDes.v ===== *)
(** * MqDes: message queue descriptors

    A descriptor is free, or on the list of open descriptors of one task group;
    opening and closing move it between the two. *)

From S2P Require Import Prelude Queue QueueRefine Sched SchedSpec SchedInv Semaphore SemSpec SemOps MQueue MqSpec MqInv MqData MqInit.
Import Sq SqSpec.
Local Open Scope Z_scope.

(** [F] are the free descriptors, [G] the open ones of each group. *)
Record des_ok (d : mq_data) (F : list addr) (G : addr → list addr) : Prop := {
  de_free : sq_repr (mqdess d) (g_desfree d) F;
  de_group g q : tg_msgdesq d !! g = Some q → sq_repr (mqdess d) q (G g);
  de_none g : tg_msgdesq d !! g = None → G g = [];
  de_open g a : a ∈ G g → a ∉ F;
  de_one g g' a : a ∈ G g → a ∈ G g' → g = g';
  de_dom a : a ∈ dom (mqdess d) ↔ a ∈ F ∨ ∃ g, a ∈ G g;
}.

Definition upd_group (g : addr) (l : list addr) (G : addr → list addr) (g' : addr) : list addr :=
  if decide (g' = g) then l else G g'.

Section des.
Context `{Config} `{MqConfig}.
Implicit Types (d : mq_data) (F : list addr) (G : addr → list addr) (a g : addr).

Lemma upd_group_eq g l G : upd_group g l G g = l.
Proof. unfold upd_group. by rewrite decide_True. Qed.

Lemma upd_group_ne g l G g' : g' ≠ g → upd_group g l G g' = G g'.
Proof. intros. unfold upd_group. by rewrite decide_False. Qed.

(** A descriptor moves between a group and the free list. *)
Lemma des_move d F G g q0 m' f' q' F' l' xs :
  des_ok d F G → tg_msgdesq d !! g = Some q0 →
  sq_repr m' f' F' → sq_repr m' q' l' → unchanged_but xs (mqdess d) m' →
  (∀ a, a ∈ xs → a ∈ F ∨ a ∈ G g) → dom m' = dom (mqdess d) →
  (∀ a, a ∈ F' ∨ a ∈ l' ↔ a ∈ F ∨ a ∈ G g) → (∀ a, a ∈ l' → a ∉ F') →
  des_ok (set_des m' f' (<[g := q']> (tg_msgdesq d)) d) F' (upd_group g l' G).
Proof.
  intros [Hf Hg Hn Ho H1 Hd] Hq Hf' Hq' Hun Hxs Hdom Hiff Hdis.
  assert (∀ g' a, g' ≠ g → a ∈ G g' → (a ∉ F) ∧ a ∉ G g) as Hout.
  { intros g' a Hne Ha. split; [by eapply Ho|]. intros Ha'. by apply Hne, (H1 g' g a). }
  assert (∀ g' a, a ∈ upd_group g l' G g' → g' = g ∧ a ∈ l' ∨ g' ≠ g ∧ a ∈ G g') as Hin.
  { intros g' a. unfold upd_group. case_decide; auto. }
  split; simpl; [done| | | | |].
  - intros g' h Hh. apply lookup_insert_Some in Hh as [[<- <-]|[Hne Hh]]; [by rewrite upd_group_eq|].
    rewrite upd_group_ne by done. eapply sq_repr_frame; [by apply Hg|exact Hun|].
    intros a Ha Hx. destruct (Hout g' a) as [? ?]; [done..|]. destruct (Hxs a Hx); done.
  - intros g'. rewrite lookup_insert_None. intros [Hh Hne]. rewrite upd_group_ne by done. by apply Hn.
  - intros g' a [[-> Ha]|[Hne Ha]]%Hin; [by apply Hdis|]. destruct (Hout g' a) as [? ?]; [done..|].
    specialize (Hiff a). tauto.
  - intros g1 g2 a [[-> Ha]|[Hne Ha]]%Hin [[-> Ha']|[Hne' Ha']]%Hin; [done| | |by eapply H1].
    + destruct (Hout g2 a) as [? ?]; [done..|]. specialize (Hiff a). tauto.
    + destruct (Hout g1 a) as [? ?]; [done..|]. specialize (Hiff a). tauto.
  - intros a. rewrite Hdom, Hd. specialize (Hiff a). split.
    + intros [Ha|[g' Ha]]; [|destruct (decide (g' = g)) as [->|Hne]].
      * destruct (proj2 Hiff (or_introl Ha)); [by left|right; exists g; by rewrite upd_group_eq].
      * destruct (proj2 Hiff (or_intror Ha)); [by left|right; exists g; by rewrite upd_group_eq].
      * right. exists g'. by rewrite upd_group_ne.
    + intros [Ha|[g' [[-> Ha]|[Hne Ha]]%Hin]].
      * destruct (proj1 Hiff (or_introl Ha)); [by left|right; by exists g].
      * destruct (proj1 Hiff (or_intror Ha)); [by left|right; by exists g].
      * right. by exists g'.
Qed.

(** Open: the first free descriptor. *)
Lemma create_des_ok d F G g a kmm q flags :
  des_ok d (a :: F) G → is_Some (tg_msgdesq d !! g) →
  ∃ d', nxmq_create_des kmm g q flags d = Some (Some a, d') ∧ des_ok d' F (upd_group g (G g ++ [a]) G) ∧
    des_only d d' ∧ (∃ x, mqdess d' !! a = Some x ∧ des_msgq x = q ∧ oflags x = flags) ∧
    ∀ b, b ≠ a → sq_data <$> mqdess d' !! b = sq_data <$> mqdess d !! b.
Proof.
  intros Hok [q0 Hq]. pose proof (de_free _ _ _ Hok) as Hf. pose proof (de_group _ _ _ Hok g q0 Hq) as Hg.
  pose proof Hf as (Hnd & _). nodup_facts.
  assert (∀ b, b ∈ G g → b ≠ a ∧ b ∉ F) as Hno by (intros b Hb; pose proof (de_open _ _ _ Hok g b Hb); set_solver).
  destruct (sq_remfirst_spec _ _ _ _ Hf) as (f' & m1 & Hr1 & Hf1 & [Hs1 Hu1] & _).
  assert (a ∈ dom m1) as Ha1 by (rewrite (same_data_dom _ _ _ Hs1); apply (de_dom _ _ _ Hok); left; set_solver).
  pose proof Ha1 as [x1 Hx1]%elem_of_dom. set (m2 := <[a := mk_des NULL q flags]> m1).
  assert (unchanged_but [a] (mqdess d) m2) as Hu2.
  { intros b Hb. unfold m2. rewrite lookup_insert_ne by set_solver. by apply Hu1. }
  assert (sq_repr m2 q0 (G g)) as Hg2.
  { eapply sq_repr_frame; [exact Hg|exact Hu2|]. intros b Hb Hba. destruct (Hno b Hb). set_solver. }
  destruct (sq_addlast_spec m2 q0 (G g) a Hg2) as (q' & m' & Hr3 & Hg3 & [Hs3 Hu3]).
  { unfold m2. rewrite dom_insert. set_solver. }
  { intros Hb. by destruct (Hno a Hb). }
  exists (set_des m' f' (<[g := q']> (tg_msgdesq d)) d). split; [|split; [|split; [done|split]]].
  - unfold nxmq_create_des, nxmq_alloc_des.
    assert (des_remfirst d = Some (Some a, set_des m1 f' (tg_msgdesq d) d)) as Hrem
      by (unfold des_remfirst; by rewrite Hr1).
    erewrite K_bind_Some by (rewrite (K_bind_Some _ _ _ _ _ Hrem); reflexivity). cbv beta iota.
    erewrite K_bind_Some; [reflexivity|]. unfold kput. cbn [mqdess tg_msgdesq set_des].
    rewrite (store_Some _ _ _ _ Hx1). cbn [mbind option_bind]. fold m2. rewrite Hq. cbn [mbind option_bind].
    by rewrite Hr3.
  - eapply (des_move d (a :: F) G g q0 m' f' q' F (G g ++ [a]) (a :: G g)); [done|done| |done| | | | |].
    + eapply sq_repr_frame; [|exact Hu3|].
      * unfold m2. eapply sq_repr_frame; [exact Hf1|by apply (unchanged_but_insert _ _ [a]); [|set_solver]|].
        intros b Hb Hba. set_solver.
      * intros b Hb [Hbg|Hba]%elem_of_app; [by destruct (Hno b Hbg)|set_solver].
    + intros b Hb. rewrite Hu3, Hu2 by set_solver. done.
    + set_solver.
    + rewrite (same_data_dom _ _ _ Hs3). unfold m2. rewrite dom_insert_L, (same_data_dom _ _ _ Hs1) in *. set_solver.
    + intros b. set_solver.
    + intros b [Hb|Hb]%elem_of_app; [by destruct (Hno b Hb)|set_solver].
  - assert (m2 !! a = Some (mk_des NULL q flags)) as Hm2 by apply lookup_insert_eq.
    destruct (same_data_lookup _ _ _ _ _ Hs3 Hm2) as (x & Hx & E). exists x. split; [done|]. by injection E.
  - intros b Hb. simpl. apply (f_equal (.!! b)) in Hs3. rewrite !lookup_fmap in Hs3.
    etransitivity; [exact Hs3|]. by rewrite Hu2 by set_solver.
Qed.

(** The notifications of a queue do not matter to its messages. *)
Lemma notification_data d L held q (y : mqueue_inode_s) f :
  mdata_ok L held d → msgqs d !! q = Some y →
  (∀ z, msglist (f z) = msglist z ∧ nmsgs (f z) = nmsgs z ∧ maxmsgsize (f z) = maxmsgsize z) →
  mdata_ok L held (upd_msgq f q d).
Proof.
  intros [Hl Hs Hmail Hfree Hirq Hq] Hy Hf. split; simpl; try done; [apply mlists_upd; [apply Hf|done]|].
  intros b z. rewrite lookup_alter_Some. intros [(<- & z0 & Hz & ->)|[_ Hz]]; [|by apply Hq].
  destruct (Hq _ _ Hz) as [H1 H2 H3 H4]. destruct (Hf z0) as (E1 & E2 & E3).
  split; rewrite ?E2, ?E3; done.
Qed.

(** Close: the descriptor goes behind the free ones, and no notification of its
    queue goes to it any more. *)
Lemma desclose_ok d L held F G g l1 a l2 x q y :
  des_ok d F G → mdata_ok L held d → is_Some (tg_msgdesq d !! g) → G g = l1 ++ a :: l2 →
  mqdess d !! a = Some x → des_msgq x = Some q → msgqs d !! q = Some y →
  ∃ d' y', nxmq_desclose_group (Some a) g d = Some (tt, d') ∧
    des_ok d' (F ++ [a]) (upd_group g (l1 ++ l2) G) ∧ mdata_ok L held d' ∧
    msgqs d' !! q = Some y' ∧ ntmqdes y' ≠ Some a ∧ nwaitnotfull y' = nwaitnotfull y ∧
    nwaitnotempty y' = nwaitnotempty y ∧ ∀ q', q' ≠ q → msgqs d' !! q' = msgqs d !! q'.
Proof.
  intros Hok Hmd [q0 Hq0] HG Hx Hq Hy. pose proof (de_group _ _ _ Hok g q0 Hq0) as Hg. rewrite HG in Hg.
  pose proof (de_free _ _ _ Hok) as Hf. pose proof Hg as (Hnd & _). nodup_facts.
  assert (∀ b, b ∈ l1 ++ a :: l2 → b ∉ F) as Hno by (intros b; rewrite <- HG; apply (de_open _ _ _ Hok)).
  destruct (sq_rem_spec _ _ _ _ _ Hg) as (q' & m1 & Hr1 & Hg1 & [Hs1 Hu1]).
  assert (a ∈ dom m1) as Ha1 by (rewrite (same_data_dom _ _ _ Hs1); by eapply elem_of_dom_2).
  assert (sq_repr m1 (g_desfree d) F) as Hf1.
  { eapply sq_repr_frame; [exact Hf|exact Hu1|]. intros b Hb Hb'. by apply (Hno b). }
  destruct (sq_addlast_spec m1 (g_desfree d) F a Hf1 Ha1) as (f' & m' & Hr2 & Hf2 & [Hs2 Hu2]);
    [apply Hno; set_solver|].
  destruct (same_data_lookup _ _ _ _ _ Hs1 Hx) as (x1 & Hx1 & E1).
  assert (des_msgq x1 = Some q) as Hq1 by (by injection E1 as -> _).
  set (c := set_notification NULL INVALID_PROCESS_ID no_event).
  set (Q := if decide (ntmqdes y = Some a) then alter c q (msgqs d) else msgqs d).
  exists (set_msgqs Q (set_des m' f' (<[g := q']> (tg_msgdesq d)) d)),
    (if decide (ntmqdes y = Some a) then c y else y). split; [|split; [|split]].
  - unfold nxmq_desclose_group. krun kassert_Some.
    erewrite K_bind_Some by (unfold kput; rewrite Hq0; cbn [mbind option_bind]; rewrite Hr1; reflexivity).
    cbv beta. erewrite K_bind_Some by (apply des_get_Some; exact Hx1). cbv beta. rewrite Hq1.
    erewrite K_bind_Some by (apply msgq_get_Some; exact Hy). cbv beta. unfold Q, kwhen. case_bool_decide.
    + rewrite decide_True by done. erewrite K_bind_Some by (apply msgq_set_Some; by eexists). unfold kput.
      simpl. by rewrite Hr2.
    + rewrite decide_False by done. erewrite K_bind_Some by reflexivity. unfold kput. simpl. by rewrite Hr2.
  - eapply (des_move d F G g q0 m' f' q' (F ++ [a]) (l1 ++ l2) (F ++ l1 ++ a :: l2)) in Hok; [|done|done|..].
    + destruct Hok as [? ? ? ? ? ?]. by split.
    + eapply sq_repr_frame; [exact Hg1|exact Hu2|]. intros b Hb [Hbf|Hba]%elem_of_app; [|set_solver].
      apply (Hno b); [set_solver|done].
    + intros b Hb. rewrite Hu2, Hu1 by set_solver. done.
    + rewrite HG. set_solver.
    + by rewrite (same_data_dom _ _ _ Hs2), (same_data_dom _ _ _ Hs1).
    + rewrite HG. set_solver.
    + intros b Hb [Hbf|Hba]%elem_of_app; [|set_solver]. apply (Hno b); [set_solver|done].
  - assert (mdata_ok L held (set_msgqs Q d)) as Hmd'.
    { unfold Q. case_decide; [by eapply (notification_data d)|by destruct d]. }
    by eapply (des_only_ok (set_msgqs Q d)).
  - simpl. unfold Q. case_decide; simpl.
    + rewrite lookup_alter_eq, Hy. do 4 (split; [done|]). intros b Hb. by apply lookup_alter_ne.
    + done.
Qed.
End des.
