(* ===== verification/MqProps.v ===== *)
(** * MqProps: what the message queues guarantee

    The properties of sched/mqueue, for the code on the linked task lists. *)

From S2P Require Import Prelude Queue QueueRefine Sched SchedSpec SchedInv SchedOps SchedProps Semaphore SemSpec SemOps SemProps MQueue MqSpec MqInv MqWait MqView MqData MqOps MqCalls MqHist MqRun MqInit MqDes.
Import Sq SqSpec.
Local Open Scope Z_scope.

Section simulation.
Context `{Config} `{MqConfig} (idle : addr).
Context (sigp : Z → Z → Z → K (mqsys sched_s) Z) (sigl : Z → Z → Z → K (mqsys lsched) Z).
Hypothesis sim_sig : ∀ p n v, sim mq_repr (sigp p n v) (sigl p n v).

Lemma sim_mq_compat o : sim sched_repr (mq_compat o) (mq_compat o).
Proof. destruct o; unfold mq_compat; solve_sim. Qed.

Lemma sim_mq_exec conts o : sim mq_repr (mq_exec idle sigp conts o) (mq_exec idle sigl conts o).
Proof.
  pose proof (sim_sched_exec idle). pose proof sim_mq_compat. pose proof sim_sig.
  unfold mq_exec, queue_of. solve_sim.
Qed.

Lemma sim_mq_run conts os : sim mq_repr (mq_run idle sigp conts os) (mq_run idle sigl conts os).
Proof.
  revert conts. induction os as [|o os IH]; intros conts; simpl; [apply sim_ret|].
  apply sim_bind; [apply sim_mq_exec|]. intros [c ev]. apply sim_bind; [done|].
  intros [c' evs]. apply sim_ret.
Qed.
End simulation.

Section props.
Context `{Config} `{MqConfig} (idle : addr).
Implicit Types (s : mqsys sched_s) (u : mqsys lsched) (L : mlist → list addr) (a q : addr).

(** ** Histories *)

Section histories.
Context (sigp : Z → Z → Z → K (mqsys sched_s) Z) (sigl : Z → Z → Z → K (mqsys lsched) Z).
Context `{!SignalsOk idle sigl}.
Hypothesis sim_sig : ∀ p n v, sim mq_repr (sigp p n v) (sigl p n v).

(** C8: no history of sending and receiving by tasks and interrupt handlers, with waits
    that are interrupted or time out and operations of the scheduler in between,
    faults or fails an assertion on the linked lists; after it every message is on one
    list, every queue counts its messages and its waiting tasks, and every waiting
    task is in a call that has blocked.  Whatever code [nxsig_mqnotempty] returns, in a
    build without assertions; in a build with them, which asserts that it is no error,
    the notifications attached at the start are ones that can be delivered
    ([notes_ok]; [notification_error_panics] is what happens otherwise). *)
Theorem mq_history_safe conts os L P s u :
  mq_repr s u → hist_ok idle conts L u → notes_ok idle sigl u →
  hash_ok (msys u) → all_opened u P → Forall (λ o, mq_op_in (dom (tasks (tsk u))) P o = true) os →
  ∃ conts' evs L' s' u', mq_run idle sigp conts os s = Some ((conts', evs), s') ∧ mq_repr s' u' ∧
    hist_ok idle conts' L' u'.
Proof.
  intros Hs Ho Hno Hh HP Hin.
  destruct (mq_run_ok idle sigl conts os L u P Ho Hno Hh HP Hin) as (c' & evs & L' & u' & Hrun & Hst).
  destruct (sim_mq_run idle sigp sigl sim_sig conts os s u _ _ Hs Hrun) as (s' & Hrun' & Hs').
  exists c', evs, L', s', u'. split; [done|]. split; [done|apply Hst].
Qed.

(** C9: what such a history sends and receives is a history of mailboxes: a letter
    goes behind those of the same or a higher priority, a receiver gets the first
    one with its priority and all of its bytes, and nothing is lost, duplicated or
    changed; the boxes hold what the queues hold, which is ordered by priority. *)
Theorem mq_history_refines conts os L P s u :
  mq_repr s u → hist_ok idle conts L u → notes_ok idle sigl u →
  hash_ok (msys u) → all_opened u P → Forall (λ o, mq_op_in (dom (tasks (tsk u))) P o = true) os →
  ∃ conts' evs L' s' u', mq_run idle sigp conts os s = Some ((conts', evs), s') ∧ mq_repr s' u' ∧
    mail_steps (mqdess (mdata s)) (box L u) evs (box L' u') ∧
    ∀ q y, msgqs (mdata s') !! q = Some y →
      pq_sorted (box L' u' q) ∧ nmsgs y = Z.of_nat (length (box L' u' q)).
Proof.
  intros Hs Ho Hno Hh HP Hin.
  destruct (mq_run_ok idle sigl conts os L u P Ho Hno Hh HP Hin) as (c' & evs & L' & u' & Hrun & Hst).
  destruct (sim_mq_run idle sigp sigl sim_sig conts os s u _ _ Hs Hrun) as (s' & Hrun' & Hs').
  exists c', evs, L', s', u'. split; [done|]. split; [done|].
  split; [rewrite (mr_data _ _ Hs); apply Hst|]. intros q y. rewrite (mr_data _ _ Hs'). intros Hy.
  pose proof (ho_inv _ _ _ _ (hs_ok _ _ _ _ _ _ _ _ _ Hst)) as Hi. split.
  - apply (md_queue _ _ _ (mv_data _ _ _ _ Hi) q y Hy).
  - by eapply nmsgs_box.
Qed.

(** C10: no wake-up is lost: when tasks still wait to receive from a queue after such
    a history, at least as many others have been woken for it as it holds letters,
    and when tasks still wait to send, at least as many have been woken as there
    are free places, if the heap has a structure for every sender that goes on
    ([heap_provides]; [wakeup_lost_without_memory] is what happens otherwise). *)
Theorem mq_no_lost_wakeup conts os L P s u :
  mq_repr s u → hist_ok idle conts L u → notes_ok idle sigl u →
  hash_ok (msys u) → all_opened u P → Forall (λ o, mq_op_in (dom (tasks (tsk u))) P o = true) os →
  Forall heap_provides os → watched (places conts) (tsk u) (need L u) →
  ∃ conts' evs L' s' u', mq_run idle sigp conts os s = Some ((conts', evs), s') ∧ mq_repr s' u' ∧
    ∀ d q, mwaiters (tsk u') d q ≠ [] →
      ∃ l, NoDup l ∧ Forall (woke (places conts') (tsk u') d q) l ∧
        need L' u' d q ≤ Z.of_nat (length l).
Proof.
  intros Hs Ho Hno Hh HP Hin Hheap Hw.
  destruct (mq_run_ok idle sigl conts os L u P Ho Hno Hh HP Hin) as (c' & evs & L' & u' & Hrun & Hst).
  destruct (sim_mq_run idle sigp sigl sim_sig conts os s u _ _ Hs Hrun) as (s' & Hrun' & Hs').
  exists c', evs, L', s', u'. split; [done|]. split; [done|]. by apply (hs_live _ _ _ _ _ _ _ _ _ Hst).
Qed.
End histories.

(** ** Single calls *)

(** C11: when tasks wait for a queue, the end of a call wakes the first of them,
    which has the highest priority of all that wait for this queue; it becomes
    ready (or pending, under the scheduler lock), the others keep their order, and
    the count of waiters goes down by one. *)
Theorem mq_unblock_wakes_highest s u L held d q y :
  mq_repr s u → mq_inv idle L held u → msgqs (mdata u) !! q = Some y → 0 < nwait d y →
  ∃ a ws s' u', mwaiters (tsk u) d q = a :: ws ∧
    Forall (λ b, prio (tasks (tsk u)) b ≤ prio (tasks (tsk u)) a) ws ∧
    mq_unblock d (Some q) s = Some (tt, s') ∧ mq_repr s' u' ∧ mq_inv idle L held u' ∧
    mwaiters (tsk u') d q = ws ∧
    (∀ d' q', (d', q') ≠ (d, q) → mwaiters (tsk u') d' q' = mwaiters (tsk u) d' q') ∧
    a ∈ lists (tsk u') g_readytorun ++ lists (tsk u') g_pendingtasks ∧
    wmq (tasks (tsk u')) a = NULL ∧
    msgqs (mdata s') = <[q := set_nwait d (nwait d y - 1) y]> (msgqs (mdata s)).
Proof.
  intros Hs Hi Hy Hpos. pose proof (sv_core _ _ (mv_sched _ _ _ _ Hi)) as Hc.
  pose proof (mw_count _ _ (mv_wait _ _ _ _ Hi) d q y Hy) as Hn.
  destruct (mwaiters (tsk u) d q) as [|a ws] eqn:Hws; [simpl in Hn; lia|].
  destruct (mq_unblock_some idle u L held d q y a ws Hi Hy Hws) as (u' & Hrun & Hi' & Hu).
  destruct (sim_mq_unblock d (Some q) s u _ _ Hs Hrun) as (s' & Hrun' & Hs').
  exists a, ws, s', u'. split; [done|]. split.
  { pose proof (prio_sorted_filter (λ a, wmq (tasks (tsk u)) a = Some q) _ _
      (sc_sorted _ _ Hc (wait_list d) ltac:(by destruct d))) as Hsort.
    change (filter _ _) with (mwaiters (tsk u) d q) in Hsort. rewrite Hws in Hsort.
    by apply prio_sorted_cons in Hsort as [Hall _]. }
  do 3 (split; [done|]).
  destruct Hu as (t' & W1 & W2 & r & l & x & xr & -> & Hf & Hx & _ & _ & HW & HW' & _ & _ & _ & Hlists &
    A & B & HA & HnA & HB & Ho). simpl.
  assert (A = [] ∧ B = ws) as [-> ->].
  { rewrite Hws in HA. destruct A as [|b A]; simpl in HA; [by injection HA|]. injection HA as -> _. set_solver. }
  do 2 (split; [done|]). split; [|split].
  - rewrite !Hlists by (symmetry; apply wait_list_ready). apply elem_of_app.
    destruct (must_wait xr (sched_priority x)); [right|left];
      rewrite decide_True, elem_of_prio_insert by done; by left.
  - by rewrite (wmq_frame _ _ _ Hf), (wmq_alter _ _ _ NULL), set_wait_eq by (done || by eexists).
  - rewrite (mr_data _ _ Hs'), (mr_data _ _ Hs). simpl. symmetry.
    by apply (alter_insert_Some (λ y, set_nwait d (nwait d y - 1) y)).
Qed.

(** C30: arguments that [nxmq_send] and [nxmq_receive] reject: without a buffer, a
    descriptor or a priority from 0 to [MQ_PRIO_MAX] it is [-EINVAL], without the
    right to write or to read [-EPERM], and a message that is too long for the
    queue, or a buffer that is too short for its messages, [-EMSGSIZE]; nothing is
    changed. *)
Theorem mq_rejects {S} `{!TaskLists S} (sig : Z → Z → Z → K (mqsys S) Z) irq kmm (s : mqsys S) p x q y
    msg msglen prio buf size want :
  mqdess (mdata s) !! p = Some x → des_msgq x = Some q → msgqs (mdata s) !! q = Some y →
  nxmq_send sig irq kmm NULL msg msglen prio s = Some (Returns (- EINVAL), s) ∧
  nxmq_receive NULL buf size want s = Some (Returns (- EINVAL, None), s) ∧
  (∀ code, code ≠ OK →
    code = (if bool_decide (msg = None) || (prio <? 0) || (MQ_PRIO_MAX <? prio) then - EINVAL
            else if negb (has_flag (oflags x) O_WROK) then - EPERM
            else if maxmsgsize y <? msglen then - EMSGSIZE else OK) →
    nxmq_send sig irq kmm (Some p) msg msglen prio s = Some (Returns code, s)) ∧
  (∀ code, code ≠ OK →
    code = (if negb buf then - EINVAL
            else if negb (has_flag (oflags x) O_RDOK) then - EPERM
            else if size <? maxmsgsize y then - EMSGSIZE else OK) →
    nxmq_receive (Some p) buf size want s = Some (Returns (code, None), s)).
Proof.
  intros Hx Hq Hy. assert (∀ {A} (c : K mq_data A) (v : A), c (mdata s) = Some (v, mdata s) →
    on_data c s = Some (v, s)) as Hread.
  { intros A c v Hc. unfold on_data. rewrite Hc. by destruct s. }
  split_and!.
  - unfold nxmq_send. rewrite (K_bind_Some _ _ _ (- EINVAL) s); [done|]. apply Hread. unfold nxmq_verify_send.
    rewrite (bool_decide_eq_true_2 (NULL = NULL)), orb_true_r by done. done.
  - unfold nxmq_receive. rewrite (K_bind_Some _ _ _ (- EINVAL) s); [done|]. apply Hread. unfold nxmq_verify_receive.
    by rewrite (bool_decide_eq_true_2 (NULL = NULL)), orb_true_r by done.
  - intros code Hne ->. unfold nxmq_send. change (if _ || _ then _ else _) with (send_code msg msglen prio x y) in *.
    rewrite (K_bind_Some _ _ _ _ _ (Hread _ _ _ (verify_send_run _ _ _ _ _ _ _ _ Hx Hq Hy))).
    by rewrite (proj2 (Z.ltb_lt _ _) (send_code_neg _ _ _ _ _ Hne)).
  - intros code Hne ->. unfold nxmq_receive. change (if negb buf then _ else _) with (receive_code buf size x y) in *.
    rewrite (K_bind_Some _ _ _ _ _ (Hread _ _ _ (verify_receive_run _ _ _ _ _ _ _ Hx Hq Hy))).
    by rewrite (proj2 (Z.ltb_lt _ _) (receive_code_neg _ _ _ _ Hne)).
Qed.

(** ** Start-up and shut-down *)

(** mq_open.c, lines 211-225 and 242-243: what [mq_open] does for a new queue, the
    inode apart. *)
Definition open_new (kmm_zalloc : ptr) (attr : mq_attr) (group : addr) (flags : Z) : K mq_data ptr :=
  msgq ← nxmq_alloc_msgq kmm_zalloc (Some attr);
  match msgq with
  | Some a =>
      mqdes ← nxmq_create_des None group msgq flags;
      match mqdes with
      | Some _ => mret mqdes
      | None => nxmq_free_msgq a;; mret NULL
      end
  | None => mret NULL
  end.

Lemma fresh_msgq u L held (md : mq_data) a m z :
  mq_inv idle L held u → a ∉ dom (msgqs (mdata u)) → mdata_ok L held md →
  msgqs md = <[a := new_msgq m z]> (msgqs (mdata u)) → mq_inv idle L held (with_d md u).
Proof.
  intros [Hs Ht _ [Hl Hc]] Ha Hmd HQ. split; [done|done|done|]. split; simpl; rewrite HQ.
  - intros d b Hb. destruct (Hl d b Hb) as (q & Hq & Hd). exists q. rewrite dom_insert. set_solver.
  - intros d q y Hy. apply lookup_insert_Some in Hy as [[<- <-]|[_ Hy]]; [|by apply Hc].
    assert (mwaiters (tsk u) d a = []) as ->; [|by destruct d].
    destruct (mwaiters (tsk u) d a) as [|b l] eqn:E; [done|]. exfalso.
    assert (b ∈ mwaiters (tsk u) d a) as [Hq Hb]%elem_mwaiters by (rewrite E; set_solver).
    destruct (Hl d b Hb) as (q & Hq' & Hd). congruence.
Qed.

Lemma startup_hist u block1 block2 b (dblock : list (addr * mq_des)) p rest a at' group flags :
  sched_inv idle (tsk u) → Z.of_nat (size (tasks (tsk u))) ≤ 32767 →
  (∀ d, lists (tsk u) (wait_list d) = []) → boot_data (mdata u) →
  NoDup (block1.*1 ++ block2.*1) →
  Forall (λ ax, Z.of_nat (length (mail ax.2)) = MQ_MAX_BYTES) (block1 ++ block2) →
  Z.of_nat (length (block1 ++ block2)) ≤ 32767 →
  NoDup dblock.*1 → dblock.*1 = p :: rest → tg_msgdesq (mdata u) = {[group := sq_init]} →
  MQ_MAX_BYTES ≤ 32767 → 0 ≤ mq_msgsize at' ≤ MQ_MAX_BYTES →
  ∃ md L x y, (nxmq_initialize (Some block1) (Some block2) (Some (b, dblock));;
               open_new (Some a) at' group flags) (mdata u) = Some (Some p, md) ∧
    hist_ok idle ∅ L (with_d md u) ∧ opened (with_d md u) p a x y ∧ oflags x = flags ∧
    L MFree = block1.*1 ∧ L MFreeIrq = block2.*1 ∧ box L (with_d md u) a = [] ∧
    maxmsgs y = s16 (mq_maxmsg at') ∧ maxmsgsize y = mq_msgsize at' ∧
    watched (places ∅) (tsk u) (need L (with_d md u)).
Proof.
  intros Hs Ht Hno Hboot Hnd Hmail Hlen Hndd Hp Htg Hmax Hsz.
  destruct (mq_initialize_ok (mdata u) block1 block2 b dblock Hboot Hnd Hmail Hlen Hndd)
    as (d1 & L & Hr1 & Hok1 & Hf & Hfi & HQ1 & Hdes & Hdm & Htg1).
  destruct (alloc_msgq_ok d1 L ∅ a at' Hok1) as (d2 & Hr2 & Hok2 & HLa & Hdp & HQ2);
    [rewrite HQ1; set_solver|done|done|].
  injection Hdp as E1 E2 _ _ E5.
  assert (des_ok d2 (p :: rest) (λ _, [])) as Hd2.
  { rewrite <- Hp. split; rewrite ?E1, ?E2, ?E5, ?Htg1, ?Htg, ?Hdm; try set_solver.
    intros g q Hq. apply lookup_singleton_Some in Hq as [_ <-]. apply sq_repr_init. }
  destruct (create_des_ok d2 rest _ group p None (Some a) flags Hd2)
    as (d3 & Hr3 & _ & Honly & (x & Hx & Hq & Hfl) & _); [rewrite E5, Htg1, Htg, lookup_singleton_eq; by eexists|].
  exists d3, L, x, (new_msgq (s16 (mq_maxmsg at')) (mq_msgsize at')).
  assert (msgqs d3 = <[a := new_msgq (s16 (mq_maxmsg at')) (mq_msgsize at')]> ∅) as HQ3.
  { destruct Honly as (_ & _ & _ & ->). by rewrite HQ2, HQ1. }
  assert (∀ d q, mwaiters (tsk u) d q = []) as Hnw by (intros d q; unfold mwaiters; by rewrite Hno).
  split.
  { rewrite (K_bind_Some _ _ _ _ _ Hr1). unfold open_new. rewrite (K_bind_Some _ _ _ _ _ Hr2).
    by rewrite (K_bind_Some _ _ _ _ _ Hr3). }
  split; [|split; [|split; [done|split; [done|split; [done|split; [|split; [done|split; [done|]]]]]]]].
  - split; [|split; simpl|apply map_Forall_empty].
    + apply (fresh_msgq (with_d d1 u) L ∅ d3 a (s16 (mq_maxmsg at')) (mq_msgsize at'));
        [|simpl; rewrite HQ1; set_solver|by eapply des_only_ok|simpl; by rewrite HQ1].
      split; [done|done|done|]. split; simpl; rewrite ?HQ1; [intros d c; rewrite Hno; set_solver|done].
    + intros d q c. rewrite Hnw. set_solver.
    + intros c [z Hz]. done.
  - split; [done|]. split; [done|]. simpl. by rewrite HQ3, lookup_insert_eq.
  - unfold box. by rewrite HLa.
  - intros d q. by rewrite Hnw.
Qed.

(** C29: after start-up the pools hold the structures that were allocated, and a new
    queue is empty and can be used at once: the invariant of the histories above
    holds, with the queue open through the descriptor that is returned. *)
Theorem mq_startup_ok u block1 block2 b (dblock : list (addr * mq_des)) p rest a at' group flags :
  sched_inv idle (tsk u) → Z.of_nat (size (tasks (tsk u))) ≤ 32767 →
  (∀ d, lists (tsk u) (wait_list d) = []) → boot_data (mdata u) →
  NoDup (block1.*1 ++ block2.*1) →
  Forall (λ ax, Z.of_nat (length (mail ax.2)) = MQ_MAX_BYTES) (block1 ++ block2) →
  Z.of_nat (length (block1 ++ block2)) ≤ 32767 →
  NoDup dblock.*1 → dblock.*1 = p :: rest → tg_msgdesq (mdata u) = {[group := sq_init]} →
  MQ_MAX_BYTES ≤ 32767 → 0 ≤ mq_msgsize at' ≤ MQ_MAX_BYTES →
  ∃ md L x y, (nxmq_initialize (Some block1) (Some block2) (Some (b, dblock));;
               open_new (Some a) at' group flags) (mdata u) = Some (Some p, md) ∧
    hist_ok idle ∅ L (with_d md u) ∧ opened (with_d md u) p a x y ∧ oflags x = flags ∧
    L MFree = block1.*1 ∧ L MFreeIrq = block2.*1 ∧ box L (with_d md u) a = [] ∧
    maxmsgs y = s16 (mq_maxmsg at') ∧ maxmsgsize y = mq_msgsize at' ∧
    watched (places ∅) (tsk u) (need L (with_d md u)).
Proof. apply startup_hist. Qed.
End props.

(** ** Witnesses *)

#[local] Definition debug_config : Config := {|
  CONFIG_DEBUG_ASSERTIONS := true; CONFIG_DEBUG_FEATURES := false;
  CONFIG_SCHED_TICKLESS_ALARM := false; CONFIG_MAX_WDOGPARMS := 4;
  CONFIG_PREALLOC_WDOGS := 32; CONFIG_WDOG_INTRESERVE := 4;
  CONFIG_RR_INTERVAL := 200; CONFIG_USEC_PER_TICK := 10000;
  CONFIG_MAX_TASKS := 16;
|}.
#[local] Existing Instance debug_config.

Definition demo_mq_config : MqConfig := {| CONFIG_MQ_MAXMSGSIZE := 8; CONFIG_PREALLOC_MQ_MSGS := 2 |}.
#[local] Existing Instance demo_mq_config.

(** Signals to tasks that mask them: the signal is made pending, unless its number is
    bad or there is no such task. *)
Definition ESRCH : Z := 3.
Definition knows (h : list pidhash_s) (pid : Z) : bool :=
  existsb (λ e, (ph_pid e =? pid) && negb (bool_decide (ph_tcb e = NULL))) h.
Definition pending_signals {S} (pid signo value : Z) : K (mqsys S) Z :=
  if GOOD_SIGNO signo then
    known ← kget (λ s, Some (knows (g_pidhash (msys s)) pid));
    mret (if (known : bool) then OK else - ESRCH)
  else mret (- EINVAL).

Lemma pending_signals_run {S} pid signo value (s : mqsys S) :
  pending_signals pid signo value s =
    Some (if GOOD_SIGNO signo then if knows (g_pidhash (msys s)) pid then OK else - ESRCH else - EINVAL, s).
Proof. unfold pending_signals. by destruct (GOOD_SIGNO signo). Qed.

Lemma pending_signals_ok idle : SignalsOk idle pending_signals.
Proof.
  intros p n v L held u Hi. eexists _, u. split; [apply pending_signals_run|]. split; [done|apply sig_refl].
Qed.

Lemma sim_pending_signals p n v : sim mq_repr (pending_signals p n v) (pending_signals p n v).
Proof.
  intros s u ret u' Hs. rewrite !pending_signals_run, (yr_pidhash _ _ (mr_sys _ _ Hs)).
  intros [= <- <-]. by exists s.
Qed.

(** A known task gets a good signal. *)
Lemma pending_signals_delivers idle h p n :
  GOOD_SIGNO n = true → knows h p = true → delivers idle pending_signals h p n.
Proof.
  intros Hn Hp v L held u ret u' _ Hh. rewrite pending_signals_run, Hn, Hh, Hp. by intros [= <- _].
Qed.

Definition blank_msg : mqueue_msg_s := mk_msg NULL MQ_ALLOC_DYN 0 0 (replicate 8 0).
Definition blank_des : mq_des := mk_des NULL NULL 0.

(** Two messages for tasks, one for interrupt handlers, two descriptors; task 4 waits
    for a semaphore, task 2 runs. *)
Definition demo_block1 : list (addr * mqueue_msg_s) := [(31%positive, blank_msg); (32%positive, blank_msg)].
Definition demo_block2 : list (addr * mqueue_msg_s) := [(33%positive, blank_msg)].
Definition demo_dblock : list (addr * mq_des) := [(41%positive, blank_des); (42%positive, blank_des)].
Definition demo_boot : mq_data :=
  mk_md ∅ sq_init sq_init ∅ ∅ sq_init ∅ sq_init {[50%positive := sq_init]}.
(** At most one message of at most 4 bytes *)
Definition demo_attr : mq_attr := mk_attr 1 4 0 0.

Definition demo_startup : K mq_data ptr :=
  nxmq_initialize (Some demo_block1) (Some demo_block2) (Some (40%positive, demo_dblock));;
  open_new (Some 20%positive) demo_attr 50 (Z.lor O_RDOK O_WROK).

Definition demo_md : mq_data := match demo_startup demo_boot with Some (_, d) => d | None => demo_boot end.

Definition demo_tasks_ls : lsched := demo_ls 0 TSTATE_WAIT_SEM g_waitingforsemaphore.
Definition demo_mq : mqsys sched_s := mk_mq (mk_sys demo_blocked demo_sems demo_hash) demo_md.
Definition demo_lmq : mqsys lsched := mk_mq (mk_sys demo_tasks_ls demo_sems demo_hash) demo_md.

Lemma demo_mq_repr : mq_repr demo_mq demo_lmq.
Proof. split; [|done]. split; [apply demo_blocked_repr|done|done]. Qed.

Lemma demo_mq_hash : hash_ok (msys demo_lmq).
Proof.
  split; [done|]. split; [done|]. unfold demo_hash. simpl.
  repeat constructor; intros a; simpl; intros [= <-] || done; by_decide.
Qed.

Lemma mq_startup_ok_witness :
  ∃ md L x y, demo_startup demo_boot = Some (Some 41%positive, md) ∧
    hist_ok 1 ∅ L (with_d md demo_lmq) ∧ opened (with_d md demo_lmq) 41 20 x y ∧ oflags x = Z.lor O_RDOK O_WROK ∧
    L MFree = [31%positive; 32%positive] ∧ L MFreeIrq = [33%positive] ∧ box L (with_d md demo_lmq) 20 = [] ∧
    maxmsgs y = 1 ∧ maxmsgsize y = 4 ∧ watched (places ∅) demo_tasks_ls (need L (with_d md demo_lmq)).
Proof.
  apply (mq_startup_ok 1 (mk_mq (mk_sys demo_tasks_ls demo_sems demo_hash) demo_boot) demo_block1 demo_block2 40
    demo_dblock 41 [42%positive] 20 demo_attr 50 (Z.lor O_RDOK O_WROK));
    try done; [apply demo_blocked_inv|by intros []|by_decide|by repeat constructor|by_decide].
Defined.

(** A sender that waits, and messages of different priority: an interrupt handler
    may put a message into a full queue, a sender that was woken finds the queue
    full again and waits on. *)
Definition demo_mq_full : list mq_op :=
  [MqSend None 41 (Some [1]) 1 3; MqIrqSend 41 (Some [2]) 1 9;
   MqSend (Some (35%positive, blank_msg)) 41 (Some [3; 3]) 2 5;
   MqReceive 41 true 4; MqSched OpYield; MqResume (Some (35%positive, blank_msg));
   MqReceive 41 true 4; MqSched OpYield; MqResume (Some (35%positive, blank_msg));
   MqReceive 41 true 3; MqSend None 41 (Some [4; 4; 4; 4; 4]) 5 1].

Definition run_events (os : list mq_op) : option (list mq_event) :=
  (λ r, snd (fst r)) <$> mq_run 1 pending_signals ∅ os demo_mq.

Example demo_events :
  run_events demo_mq_full =
    Some [Sent 41 (3, [1]); Sent 41 (9, [2]); Received 41 (9, [2]); Received 41 (3, [1]);
          Sent 41 (5, [3; 3])].
Proof. vm_compute. reflexivity. Qed.

Lemma demo_hist :
  ∃ L, hist_ok 1 ∅ L demo_lmq ∧ all_opened demo_lmq {[41%positive]} ∧ box L demo_lmq 20 = [] ∧
    watched (places ∅) (tsk demo_lmq) (need L demo_lmq).
Proof.
  destruct (startup_hist 1 (mk_mq (mk_sys demo_tasks_ls demo_sems demo_hash) demo_boot) demo_block1 demo_block2 40
    demo_dblock 41 [42%positive] 20 demo_attr 50 (Z.lor O_RDOK O_WROK))
    as (md & L & x & y & Hrun & Ho & Hop & _ & _ & _ & Hb & _ & _ & Hw);
    [apply demo_blocked_inv|done|by intros []|done|by_decide|by repeat constructor|done|by_decide|done..|].
  assert (md = demo_md) as ->.
  { unfold demo_md. by rewrite (Hrun : demo_startup demo_boot = _). }
  exists L. split; [exact Ho|]. split; [|split; [exact Hb|exact Hw]].
  intros p ->%elem_of_singleton. exists 20%positive, x, y. exact Hop.
Qed.

(** Task 2 has asked for signal 7 when there is a message. *)
Definition demo_event : sigevent := mk_ev SIGEV_SIGNAL 7 0.
Definition demo_noted : mq_data := upd_msgq (set_notification (Some 41%positive) 2 demo_event) 20 demo_md.
Definition demo_mqn : mqsys sched_s := mk_mq (mk_sys demo_blocked demo_sems demo_hash) demo_noted.
Definition demo_lmqn : mqsys lsched := mk_mq (mk_sys demo_tasks_ls demo_sems demo_hash) demo_noted.
#[local] Strategy 100 [demo_md demo_noted].

Example demo_noted_by_notify :
  mdata ∘ snd <$> mq_notify (Some 41%positive) (Some demo_event) demo_mq = Some demo_noted.
Proof. vm_compute. reflexivity. Qed.

Lemma demo_noted_repr : mq_repr demo_mqn demo_lmqn.
Proof. split; [|done]. split; [apply demo_blocked_repr|done|done]. Qed.

Lemma demo_noted_ok : notes_ok 1 pending_signals demo_lmqn.
Proof.
  intros _ q y p n Hy Hn. assert (map_Forall (λ _ y, note y = Some (2, 7)) (msgqs demo_noted)) as Hall by by_decide.
  rewrite (Hall q y Hy) in Hn. injection Hn as <- <-. by apply pending_signals_delivers.
Qed.

(** A notification does not matter to the letters and the waiting tasks. *)
Lemma noted_hist idle L u P q p pid ev :
  let u' := with_d (upd_msgq (set_notification p pid ev) q (mdata u)) u in
  hist_ok idle ∅ L u → all_opened u P → watched (places ∅) (tsk u) (need L u) →
  hist_ok idle ∅ L u' ∧ all_opened u' P ∧ watched (places ∅) (tsk u') (need L u').
Proof.
  intros u' [Hi Hc _] HP Hw. set (f := set_notification p pid ev) in *.
  assert (∀ b y, msgqs (mdata u) !! b = Some y → ∃ y', msgqs (mdata u') !! b = Some y') as Hdom.
  { intros b y Hy. simpl. destruct (decide (q = b)) as [->|]; [rewrite lookup_alter_eq|rewrite lookup_alter_ne by done];
      rewrite Hy; by eexists. }
  split; [split; [|exact Hc|by apply map_Forall_empty]|split].
  - unfold u'. rewrite <- (with_t_same (with_d _ u)). apply inv_msgq; [done|done|apply Hi|done|].
    apply mwait_msgq; [apply Hi|by intros []].
  - intros b Hb. destruct (HP b Hb) as (c & x & y & Hx & Hq & Hy). destruct (Hdom c y Hy) as [y' Hy'].
    by exists c, x, y'.
  - intros d b Hne. destruct (Hw d b Hne) as (l & Hnd & Hl & Hle). exists l. split; [done|]. split; [done|].
    etransitivity; [|exact Hle]. destruct d; simpl; [done|].
    destruct (decide (q = b)) as [->|]; [|by rewrite lookup_alter_ne].
    rewrite lookup_alter_eq. by destruct (msgqs (mdata u) !! b).
Qed.

Lemma demo_noted_hist :
  ∃ L, hist_ok 1 ∅ L demo_lmqn ∧ all_opened demo_lmqn {[41%positive]} ∧
    watched (places ∅) (tsk demo_lmqn) (need L demo_lmqn).
Proof.
  destruct demo_hist as (L & Ho & HP & _ & Hw). exists L.
  exact (noted_hist 1 L demo_lmq _ 20 (Some 41%positive) 2 demo_event Ho HP Hw).
Qed.

Lemma mq_history_safe_witness :
  ∃ conts' evs L' s' u', mq_run 1 pending_signals ∅ demo_mq_full demo_mqn = Some ((conts', evs), s') ∧
    mq_repr s' u' ∧ hist_ok 1 conts' L' u'.
Proof.
  destruct demo_noted_hist as (L & Ho & HP & _).
  apply (mq_history_safe 1 pending_signals pending_signals (SignalsOk0 := pending_signals_ok 1) sim_pending_signals
    ∅ demo_mq_full L {[41%positive]} demo_mqn demo_lmqn);
    [apply demo_noted_repr|done|apply demo_noted_ok|exact demo_mq_hash|done|by_decide].
Defined.

Lemma mq_history_refines_witness :
  ∃ L conts' evs L' s' u', mq_run 1 pending_signals ∅ demo_mq_full demo_mqn = Some ((conts', evs), s') ∧
    mq_repr s' u' ∧ mail_steps (mqdess demo_noted) (box L demo_lmqn) evs (box L' u') ∧
    ∀ q y, msgqs (mdata s') !! q = Some y →
      pq_sorted (box L' u' q) ∧ nmsgs y = Z.of_nat (length (box L' u' q)).
Proof.
  destruct demo_noted_hist as (L & Ho & HP & _). exists L.
  apply (mq_history_refines 1 pending_signals pending_signals (SignalsOk0 := pending_signals_ok 1) sim_pending_signals
    ∅ demo_mq_full L {[41%positive]} demo_mqn demo_lmqn);
    [apply demo_noted_repr|done|apply demo_noted_ok|exact demo_mq_hash|done|by_decide].
Defined.

(** The first eight operations; a sender has been woken, and goes on with a structure
    of the heap. *)
Lemma mq_no_lost_wakeup_witness :
  ∃ conts' evs L' s' u', mq_run 1 pending_signals ∅ (take 8 demo_mq_full) demo_mqn = Some ((conts', evs), s') ∧
    mq_repr s' u' ∧ ∀ d q, mwaiters (tsk u') d q ≠ [] →
      ∃ l, NoDup l ∧ Forall (woke (places conts') (tsk u') d q) l ∧ need L' u' d q ≤ Z.of_nat (length l).
Proof.
  destruct demo_noted_hist as (L & Ho & HP & Hw).
  apply (mq_no_lost_wakeup 1 pending_signals pending_signals (SignalsOk0 := pending_signals_ok 1) sim_pending_signals
    ∅ (take 8 demo_mq_full) L {[41%positive]} demo_mqn demo_lmqn);
    [apply demo_noted_repr|done|apply demo_noted_ok|exact demo_mq_hash|done|by_decide|by repeat constructor|done].
Defined.

Lemma demo_no_notes : notes_ok 1 pending_signals demo_lmq.
Proof.
  intros _ q y p n Hy Hn. assert (map_Forall (λ _ y, note y = None) (msgqs demo_md)) as Hall by by_decide.
  by rewrite (Hall q y Hy) in Hn.
Qed.

(** Task 4 waits in [mq_receive]. *)
Definition after (os : list mq_op) {S} `{!TaskLists S} (s : mqsys S) : mqsys S :=
  match mq_run 1 pending_signals ∅ os s with Some (_, s') => s' | None => s end.
Definition demo_wait : list mq_op := [MqSched (OpUnblock 4); MqReceive 41 true 8].

Lemma after_ok os :
  Forall (λ o, mq_op_in (dom (tasks (tsk demo_lmq))) {[41%positive]} o = true) os →
  ∃ L, mq_repr (after os demo_mq) (after os demo_lmq) ∧ mq_inv 1 L ∅ (after os demo_lmq).
Proof.
  intros Hos. destruct demo_hist as (L & Ho & HP & _).
  destruct (mq_run_ok 1 pending_signals (SignalsOk0 := pending_signals_ok 1) ∅ os L demo_lmq {[41%positive]})
    as (c & evs & L' & u' & Hrun & Hst); [done|by apply demo_no_notes|apply demo_mq_hash|done|done|].
  destruct (sim_mq_run 1 pending_signals pending_signals sim_pending_signals ∅ os
    demo_mq demo_lmq _ _ demo_mq_repr Hrun) as (s' & Hrun' & Hs').
  exists L'. unfold after. rewrite Hrun, Hrun'. split; [done|apply Hst].
Qed.

Definition demo_msgq (waiting : Z) : mqueue_inode_s :=
  mk_mqi sq_init 1 0 0 waiting 4 NULL INVALID_PROCESS_ID no_event.

Lemma mq_unblock_wakes_highest_witness :
  let s := after demo_wait demo_mq in let u := after demo_wait demo_lmq in
  ∃ L a ws s' u', mwaiters (tsk u) NotEmpty 20 = a :: ws ∧
    Forall (λ b, prio (tasks (tsk u)) b ≤ prio (tasks (tsk u)) a) ws ∧
    mq_unblock NotEmpty (Some 20%positive) s = Some (tt, s') ∧ mq_repr s' u' ∧ mq_inv 1 L ∅ u' ∧
    mwaiters (tsk u') NotEmpty 20 = ws ∧
    (∀ d' q', (d', q') ≠ (NotEmpty, 20%positive) → mwaiters (tsk u') d' q' = mwaiters (tsk u) d' q') ∧
    a ∈ lists (tsk u') g_readytorun ++ lists (tsk u') g_pendingtasks ∧
    wmq (tasks (tsk u')) a = NULL ∧
    msgqs (mdata s') = <[20%positive := set_nwait NotEmpty 0 (demo_msgq 1)]> (msgqs (mdata s)).
Proof.
  destruct (after_ok demo_wait) as (L & Hs & Hi); [by_decide|]. exists L.
  apply (mq_unblock_wakes_highest 1 (after demo_wait demo_mq) (after demo_wait demo_lmq) L ∅ NotEmpty 20
    (demo_msgq 1));
    [exact Hs|exact Hi|vm_compute; reflexivity|done].
Defined.

Lemma mq_rejects_witness :
  ∃ s : mqsys sched_s, s = demo_mq ∧
  nxmq_send pending_signals false None NULL (Some [1]) 1 0 s = Some (Returns (- EINVAL), s) ∧
  nxmq_receive NULL true 4 true s = Some (Returns (- EINVAL, None), s) ∧
  (∀ code, code ≠ OK → code = (if 4 <? 5 then - EMSGSIZE else OK) →
    nxmq_send pending_signals false None (Some 41%positive) (Some [1; 2; 3; 4; 5]) 5 0 s = Some (Returns code, s)) ∧
  (∀ code, code ≠ OK → code = (if 3 <? 4 then - EMSGSIZE else OK) →
    nxmq_receive (Some 41%positive) true 3 true s = Some (Returns (code, None), s)).
Proof.
  exists demo_mq. split; [done|].
  destruct (mq_rejects pending_signals false None demo_mq 41 (mk_des NULL (Some 20%positive) 3) 20 (demo_msgq 0)
    (Some [1; 2; 3; 4; 5]) 5 0 true 3 true) as (_ & _ & Hs & Hr); [vm_compute; reflexivity..|].
  destruct (mq_rejects pending_signals false None demo_mq 41 (mk_des NULL (Some 20%positive) 3) 20 (demo_msgq 0)
    (Some [1]) 1 0 true 4 true) as (H1 & H2 & _ & _); [vm_compute; reflexivity..|].
  split; [exact H1|]. split; [exact H2|]. split; [exact Hs|exact Hr].
Defined.
