(* ===== verification/MqTimed.v ===== *)
(** * MqTimed: sending and receiving with a timeout (mq_timedsend.c, mq_timedreceive.c)

    A call with a timeout starts the watchdog of the task (TimedWait.v) with
    [nxmq_sndtimeout] or [nxmq_rcvtimeout] of MQueue.v as its function, and then
    waits like [nxmq_send] or [nxmq_receive].  The state is the one of the
    watchdogs with the message queues as their world.

    As in MQueue.v, a call that blocks ends with [Blocks], and what the task does
    when it runs again is the function with the suffix [_resume].  A sender keeps
    its message structure while it waits, which is returned with the outcome. *)

From S2P Require Import Prelude Queue Wdog Sched Semaphore Clock TimedWait MQueue.
Local Open Scope Z_scope.

#[export] Instance mqsys_World : World mqsys := {|
  wsched S u := ksched (msys u);
  wset S t u := mk_mq (mk_sys t (sems (msys u)) (g_pidhash (msys u))) (mdata u);
|}.

Section timed.
Context `{Config} `{MqConfig} {S : Type} `{!TaskLists S}.
Context (nxsig_mqnotempty : Z → Z → Z → K (mqsys S) Z).
(** The function pointers of [nxmq_sndtimeout] and [nxmq_rcvtimeout]. *)
Context (nxmq_sndtimeout_fn nxmq_rcvtimeout_fn : Z).
Abbreviation M := (K (wd_state (mqsys S))).

Definition on_queues {A} (c : K mq_data A) : M A := on_world (on_data c).

(** [!abstime || abstime->tv_nsec < 0 || abstime->tv_nsec >= 1000000000] *)
Definition bad_abstime (abstime : option timespec) : bool :=
  match abstime with
  | Some t => (tv_nsec t <? 0) || (1000000000 <=? tv_nsec t)
  | None => true
  end.

(** [result = clock_abstime2ticks(CLOCK_REALTIME, abstime, &ticks);
    if (result == OK && ticks <= 0) result = ETIMEDOUT;]: the error, or the ticks.
    [currtime] is the result of [clock_gettime]. *)
Definition timeout_ticks (currtime : option timespec) (abstime : timespec) : Z + Z :=
  match clock_abstime2ticks currtime abstime with
  | (result, Some ticks) => if ticks <=? 0 then inl ETIMEDOUT else inr ticks
  | (result, None) => inl result
  end.

(** *** mq_timedsend.c *)

(** From the label [errout_with_mqmsg] on. *)
Definition timedsend_errout (irq : bool) (mqmsg : addr) (ret : Z) : M Z :=
  on_queues (nxmq_free_msg mqmsg);;
  _ ← on_task (sched_unlock irq);
  mret ret.

(** What follows [nxmq_wait_send], whose result is [ret]. *)
Definition timedsend_end (irq : bool) (rtcb : addr) (mqdes : ptr) (mqmsg : addr) (msg : list Z)
    (msglen prio ret : Z) : M Z :=
  cancel_waitdog rtcb;;
  if ret <? 0 then
    delete_waitdog rtcb;;
    timedsend_errout irq mqmsg ret
  else
    ret ← on_world (nxmq_do_send nxsig_mqnotempty irq mqdes mqmsg msg msglen prio);
    _ ← on_task (sched_unlock irq);
    delete_waitdog rtcb;;
    mret ret.

(** [kmm_malloc] is what the heap returns for a message, [kmm_wdog] for a watchdog.
    The pointer in the result is the structure that a blocked sender holds. *)
Definition nxmq_timedsend (irq : bool) (kmm_malloc : option (addr * mqueue_msg_s))
    (kmm_wdog : option (addr * wdog_s)) (currtime : option timespec) (mqdes : ptr)
    (msg : option (list Z)) (msglen prio : Z) (abstime : option timespec) : M (outcome Z * ptr) :=
  rtcb ← on_task this_task;
  r ← on_task (tcb_get rtcb);
  kassert (negb irq && bool_decide (waitdog r = NULL));;
  ret ← on_queues (nxmq_verify_send mqdes msg msglen prio);
  if ret <? 0 then mret (Returns ret, NULL)
  else
    msg ← klift msg;
    mqmsg ← on_queues (nxmq_alloc_msg irq kmm_malloc);
    match mqmsg with
    | None => mret (Returns (- ENOMEM), NULL)
    | Some a =>
        _ ← on_task (sched_lock irq);
        x ← on_queues (des_get mqdes);
        y ← on_queues (msgq_get (des_msgq x));
        if (nmsgs y <? maxmsgs y) || irq then
          ret ← on_world (nxmq_do_send nxsig_mqnotempty irq mqdes a msg msglen prio);
          _ ← on_task (sched_unlock irq);
          mret (Returns ret, NULL)
        else if bad_abstime abstime then
          ret ← timedsend_errout irq a (- EINVAL); mret (Returns ret, NULL)
        else
          abstime ← klift abstime;
          ok ← create_waitdog irq kmm_wdog rtcb;
          if negb ok then ret ← timedsend_errout irq a (- EINVAL); mret (Returns ret, NULL)
          else
            match timeout_ticks currtime abstime with
            | inl result =>
                delete_waitdog rtcb;;
                ret ← timedsend_errout irq a (- result);
                mret (Returns ret, NULL)
            | inr ticks =>
                start_waitdog nxmq_sndtimeout_fn rtcb ticks;;
                st ← on_world (nxmq_wait_send mqdes);
                match st with
                | Returns ret =>
                    ret ← timedsend_end irq rtcb mqdes a msg msglen prio ret;
                    mret (Returns ret, NULL)
                | Blocks e => mret (Blocks e, Some a)
                end
            end
    end.

Definition nxmq_timedsend_resume (rtcb : addr) (saved_errno : Z) (mqdes : ptr) (msgq mqmsg : addr)
    (msg : list Z) (msglen prio : Z) : M (outcome Z * ptr) :=
  st ← on_world (nxmq_wait_send_resume rtcb saved_errno (Some msgq));
  match st with
  | Returns ret =>
      ret ← timedsend_end false rtcb mqdes mqmsg msg msglen prio ret;
      mret (Returns ret, NULL)
  | Blocks e => mret (Blocks e, Some mqmsg)
  end.

(** *** mq_timedreceive.c *)

(** What follows [nxmq_wait_receive], whose results are [ret] and [mqmsg]. *)
Definition timedreceive_end (rtcb : addr) (mqdes : ptr) (size : Z) (prio : bool) (ret : Z) (mqmsg : ptr)
  : M (Z * option (list Z * option Z)) :=
  cancel_waitdog rtcb;;
  res ← on_world (receive_finish mqdes size prio ret mqmsg);
  delete_waitdog rtcb;;
  mret res.

(** Receiving is for tasks only. *)
Definition nxmq_timedreceive (kmm_wdog : option (addr * wdog_s))
    (currtime : option timespec) (mqdes : ptr) (msg : bool) (msglen : Z) (prio : bool)
    (abstime : option timespec) : M (outcome (Z * option (list Z * option Z))) :=
  rtcb ← on_task this_task;
  r ← on_task (tcb_get rtcb);
  kassert (bool_decide (waitdog r = NULL));;
  ret ← on_queues (nxmq_verify_receive mqdes msg msglen);
  if ret <? 0 then mret (Returns (ret, None))
  else if bad_abstime abstime then mret (Returns (- EINVAL, None))
  else
    abstime ← klift abstime;
    ok ← create_waitdog false kmm_wdog rtcb;
    if negb ok then mret (Returns (- ENOMEM, None))
    else
      _ ← on_task (sched_lock false);
      x ← on_queues (des_get mqdes);
      y ← on_queues (msgq_get (des_msgq x));
      late ← (if bool_decide (sq_head (msglist y) = NULL) then
                match timeout_ticks currtime abstime with
                | inl result => mret (Some result)
                | inr ticks => start_waitdog nxmq_rcvtimeout_fn rtcb ticks;; mret None
                end
              else mret None);
      match late with
      | Some result =>
          _ ← on_task (sched_unlock false);
          delete_waitdog rtcb;;
          mret (Returns (- result, None))
      | None =>
          st ← on_world (nxmq_wait_receive mqdes);
          match st with
          | Returns (ret, mqmsg) =>
              res ← timedreceive_end rtcb mqdes msglen prio ret mqmsg; mret (Returns res)
          | Blocks e => mret (Blocks e)
          end
      end.

Definition nxmq_timedreceive_resume (rtcb : addr) (saved_errno : Z) (mqdes : ptr) (msgq : addr)
    (msglen : Z) (prio : bool) : M (outcome (Z * option (list Z * option Z))) :=
  st ← on_world (nxmq_wait_receive_resume rtcb saved_errno mqdes msgq);
  match st with
  | Returns (ret, mqmsg) =>
      res ← timedreceive_end rtcb mqdes msglen prio ret mqmsg; mret (Returns res)
  | Blocks e => mret (Blocks e)
  end.

(** *** The application interface *)

Definition mq_timedsend (irq : bool) (kmm_malloc : option (addr * mqueue_msg_s))
    (kmm_wdog : option (addr * wdog_s)) (currtime : option timespec) (mqdes : ptr)
    (msg : option (list Z)) (msglen prio : Z) (abstime : option timespec) : M (outcome Z * ptr) :=
  '(st, mqmsg) ← nxmq_timedsend irq kmm_malloc kmm_wdog currtime mqdes msg msglen prio abstime;
  match st with
  | Returns ret => '(ret, _) ← on_world (mq_errno ret tt); mret (Returns ret, mqmsg)
  | Blocks e => mret (Blocks e, mqmsg)
  end.

Definition mq_timedreceive (kmm_wdog : option (addr * wdog_s))
    (currtime : option timespec) (mqdes : ptr) (msg : bool) (msglen : Z) (prio : bool)
    (abstime : option timespec) : M (outcome (Z * option (list Z * option Z))) :=
  st ← nxmq_timedreceive kmm_wdog currtime mqdes msg msglen prio abstime;
  match st with
  | Returns (ret, res) => r ← on_world (mq_errno ret res); mret (Returns r)
  | Blocks e => mret (Blocks e)
  end.

(** What the timer interrupt calls: the functions of both calls, or another one. *)
Definition wdentry_mq (other : Z → list Z → wd_state (mqsys S) → option (wd_state (mqsys S)))
    (f : Z) (ps : list Z) (s : wd_state (mqsys S)) : option (wd_state (mqsys S)) :=
  match ps with
  | p :: _ =>
      if f =? nxmq_sndtimeout_fn then '(_, s) ← on_world (nxmq_sndtimeout 1 p) s; Some s
      else if f =? nxmq_rcvtimeout_fn then '(_, s) ← on_world (nxmq_rcvtimeout 1 p) s; Some s
      else other f ps s
  | [] => other f ps s
  end.
End timed.
