(* ===== verification/MqTimedOps.v ===== *)
(** * MqTimedOps: the steps of calls with a timeout

    On the lists that the state represents: a wait that its timer ends, and the
    parts of [nxmq_timedsend] and [nxmq_timedreceive] before and after it. *)

From S2P Require Import Prelude Queue QueueRefine Wdog WdogSpec WdogTimer Sched SchedSpec SchedInv SchedOps SchedProps Semaphore SemSpec SemOps SemProps Clock TimedWait MQueue MqSpec MqInv MqWait MqView MqData MqOps MqCalls MqHist MqRun MqInit MqProps MqTimed.
Import Sq SqSpec.
Local Open Scope Z_scope.

#[export] Instance mqsys_WorldOk `{Config} : WorldOk mqsys mq_repr.
Proof.
  split; [done|by intros [[]]|]. intros A c d Hc s t a t' [Hs Hd]. unfold on_wsched.
  destruct (d (wsched t)) as [[a1 k1]|] eqn:Hrun; simpl; [|done]. intros [= -> <-].
  destruct (Hc _ _ _ _ (yr_sched _ _ Hs) Hrun) as (k' & -> & Hk'). simpl. eexists. split; [done|].
  split; [|done]. split; [done|apply Hs..].
Qed.

(** ** A wait and its end *)

Section wait.
Context `{Config} `{MqConfig} (idle : addr).
Implicit Types (u : mqsys lsched) (L : mlist → list addr) (held : gset addr) (d : side) (q r : addr).
Abbreviation inv := (mq_inv idle).

Lemma waitdog_inv L held u p r : inv L held u → inv L held (with_waitdog p r u).
Proof.
  intros Hi. apply inv_tasks; [done|by apply inv_upd, Hi|apply size_alter|].
  eapply mwait_frame; [apply Hi| |done]. intros a. by apply wmq_alter_same.
Qed.

(** Only the errno of [r] has changed, and the place of [r] among the ready tasks. *)
Definition wait_over u r u' (e : Z) : Prop :=
  mdata u' = mdata u ∧ g_pidhash (msys u') = g_pidhash (msys u) ∧
  (∀ d q a, a ∈ mwaiters (tsk u') d q ↔ a ∈ mwaiters (tsk u) d q) ∧
  (∀ a, werr (tasks (tsk u')) a = if decide (a = r) then e else werr (tasks (tsk u)) a) ∧
  r ∈ lists (tsk u') g_readytorun ++ lists (tsk u') g_pendingtasks.

Lemma timeout_finds_mq u d r x p :
  g_pidhash (msys u) !! Z.to_nat (PIDHASH p) = Some (mk_ph (Some r) p) → 0 ≤ p < 32768 →
  tasks (tsk u) !! r = Some x → task_state x = wait_state d →
  mq_timeout d p u = nxmq_wait_irq r ETIMEDOUT u.
Proof.
  intros Hh Hp Hx Hst. unfold mq_timeout.
  rewrite (K_bind_Some _ _ u (Some r) u).
  - tread ls_get. by rewrite bool_decide_eq_true_2.
  - unfold on_sys, sched_gettcb. rewrite s16_small by lia. destruct (Z.leb_spec 0 p); [|lia].
    rewrite (K_bind_Some _ _ (msys u) (mk_ph (Some r) p) (msys u)) by (unfold kget; by rewrite Hh).
    simpl. rewrite Z.eqb_refl. by destruct u.
Qed.

Lemma count_full u L held q y :
  inv L held u → msgqs (mdata u) !! q = Some y → maxmsgs y ≤ nmsgs y → is_full L u q y.
Proof. intros Hi Hy Hn. unfold is_full. by rewrite <- (nmsgs_box idle u L held q y Hi Hy). Qed.

Lemma heap_msg_new (md : mq_data) a x :
  a ∉ dom (msgs md) → Z.of_nat (length (mail x)) = MQ_MAX_BYTES → Z.of_nat (size (msgs md)) < 32767 →
  heap_msg md (Some (a, x)).
Proof. intros Ha Hl Hs b z [= <- <-]. done. Qed.

Lemma nwait_back d y :
  0 ≤ nwait d y < 32767 → let y' := set_nwait d (nwait d y + 1) y in set_nwait d (nwait d y' - 1) y' = y.
Proof.
  intros Hy. unfold set_nwait. destruct y, d; simpl in *;
    rewrite (s16_small (_ + 1)), s16_small by lia; f_equal; lia.
Qed.

Lemma block_times_out u L held d q y r l xr :
  inv L held u → msgqs (mdata u) !! q = Some y → lists (tsk u) g_readytorun = r :: l →
  tasks (tsk u) !! r = Some xr → r ≠ idle → 0 ≤ pid xr < 32768 →
  g_pidhash (msys u) !! Z.to_nat (PIDHASH (pid xr)) = Some (mk_ph (Some r) (pid xr)) →
  ∃ u1 u2 x2, mq_block d (Some q) u = Some (pterrno xr, u1) ∧ mq_timeout d (pid xr) u1 = Some (tt, u2) ∧
    inv L held u2 ∧ wait_over u r u2 ETIMEDOUT ∧
    tasks (tsk u2) !! r = Some x2 ∧ waitdog x2 = waitdog xr.
Proof.
  intros Hi Hy Hl Hxr Hr Hpid Hhash.
  pose proof (nwait_room idle u L held d q y r l Hi Hy Hl) as Hroom.
  destruct (mq_block_ok idle u L held d q y r l xr Hi Hy Hl Hxr Hr) as (u1 & Hrun1 & Hi1 & Hb).
  pose proof (blocked_starts idle u L held d q u1 r l Hi Hl ltac:(by eexists) Hb) as (_ & Hw1 & He1).
  destruct Hb as (r' & l' & t1 & Hl' & -> & Hf1 & HW1 & _). rewrite Hl in Hl'. injection Hl' as <- <-.
  destruct (frame_lookup _ _ r (set_pterrno OK (set_msgwaitq (Some q) xr)) Hf1)
    as (x1 & Hx1 & Hk1); [by rewrite lookup_alter_eq, Hxr|].
  assert (msgwaitq x1 = Some q ∧ waitdog x1 = waitdog xr) as [Hq1 Hd1] by (by injection Hk1).
  assert (task_state x1 = wait_state d) as Hst1.
  { assert (r ∈ lists t1 (wait_list d)) as Hin by (rewrite HW1, elem_of_prio_insert; by left).
    destruct (sc_lookup idle _ r _ (sv_core _ _ (mv_sched _ _ _ _ Hi1)) Hin) as (z & Hz & Hk).
    assert (z = x1) as -> by (simpl in Hz; congruence). by apply wait_list_state. }
  destruct (wait_irq_ok idle _ L held d r x1 ETIMEDOUT Hi1 Hx1 Hst1) as (q' & u2 & Hq' & Hrun2 & Hi2 & Hu).
  assert (q' = q) as -> by congruence.
  destruct (unblocked_waits idle _ L held d q r _ u2 Hi1 Hu) as (_ & Hw2 & He2).
  destruct Hu as (t2 & W1 & W2 & r2 & l2 & x & xr2 & -> & Hf2 & Hx & _ & _ & _ & _ & _ & _ & _ & Hls & _).
  assert (x = x1) as -> by (simpl in Hx; congruence).
  destruct (frame_lookup _ _ r (set_pterrno ETIMEDOUT (set_msgwaitq NULL x1)) Hf2)
    as (x2 & Hx2 & Hk2); [simpl; by rewrite lookup_alter_eq, Hx1|].
  eexists _, _, x2. split; [done|]. split; [by rewrite (timeout_finds_mq _ d r x1)|].
  split; [done|]. split; [|split; [done|by injection Hk2; congruence]]. split_and!.
  - simpl. unfold upd_msgq, set_msgqs. simpl. destruct (mdata u) as [m f fi Q]. simpl in *. f_equal.
    apply map_eq. intros b. destruct (decide (q = b)) as [<-|]; [|by rewrite !lookup_alter_ne].
    rewrite !lookup_alter_eq, Hy. simpl. f_equal. by apply nwait_back.
  - done.
  - intros d' q' b. rewrite Hw2, Hw1. pose proof (ready_not_waiting idle u L held r d' Hi) as Hno.
    rewrite Hl in Hno. rewrite elem_mwaiters. set_solver.
  - intros b. rewrite He2. case_decide as Hb; [subst; unfold werr; simpl; by rewrite lookup_alter_eq, Hx1|].
    rewrite werr_alter_ne by done. rewrite He1. by rewrite decide_False.
  - simpl. rewrite !Hls by (symmetry; apply wait_list_ready). apply elem_of_app.
    destruct (must_wait xr2 (sched_priority x1)); [right|left];
      rewrite decide_True, elem_of_prio_insert by done; by left.
Qed.
End wait.

(** ** Steps of a call with a timeout *)

Section steps.
Context `{Config} `{MqConfig} (idle : addr) (pool : list addr).
Implicit Types (s : wd_state (mqsys sched_s)) (u : mqsys lsched) (ts : timers) (lf : list addr)
  (L : mlist → list addr) (held : gset addr) (d : side) (q r w : addr).
Abbreviation inv := (mq_inv idle).
Abbreviation timed := (timed mq_repr pool).

Lemma data_step {A} (c : K mq_data A) s ts lf u a md :
  timed s ts lf u → c (mdata u) = Some (a, md) →
  ∃ s', on_queues c s = Some (a, s') ∧ timed s' ts lf (with_d md u) ∧ wdogs s' = wdogs s.
Proof.
  intros Ht Hc. eapply (world_step mq_repr pool); [apply sim_on_data|done|]. by apply on_data_Some.
Qed.

Lemma read_step {A} (c : K mq_data A) s ts lf u a :
  timed s ts lf u → c (mdata u) = Some (a, mdata u) →
  ∃ s', on_queues c s = Some (a, s') ∧ timed s' ts lf u ∧ wdogs s' = wdogs s.
Proof.
  intros Ht Hc. destruct (data_step c s ts lf u a _ Ht Hc) as (s' & Hrun & Ht' & Hw).
  exists s'. by rewrite with_d_same in Ht'.
Qed.

(** What locking and unlocking the scheduler keep. *)
Definition lock_same u r x u' x' : Prop :=
  mdata u' = mdata u ∧ g_pidhash (msys u') = g_pidhash (msys u) ∧ same_waits (tsk u) (tsk u') ∧
  tasks (tsk u') !! r = Some x' ∧ waitdog x' = waitdog x ∧ pid x' = pid x ∧ pterrno x' = pterrno x.

Lemma lock_step s ts lf u L held r l x :
  timed s ts lf u → inv L held u → lists (tsk u) g_readytorun = r :: l → tasks (tsk u) !! r = Some x →
  lockcount x < MAX_LOCK_COUNT →
  ∃ s' u' x', on_task (sched_lock false) s = Some (OK, s') ∧ timed s' ts lf u' ∧ wdogs s' = wdogs s ∧
    inv L held u' ∧ lists (tsk u') g_readytorun = r :: l ∧ lock_same u r x u' x'.
Proof.
  intros Ht Hi Hl Hx Hc.
  destruct (lock_ok_mq idle u L held r (lockcount x) Hi) as (t' & Hrun & Hi' & _ & Hw & _ & _);
    [by exists l, x|done|].
  destruct (lock_sched_ok idle (tsk u) r l x (mv_sched _ _ _ _ Hi) Hl Hx Hc)
    as (t2 & Hrun2 & _ & Hx' & _ & Hls). assert (t2 = t') as -> by congruence.
  destruct (world_step mq_repr pool (on_wsched (sched_lock false)) (on_wsched (sched_lock false)) s ts lf u OK
    (with_t t' u)) as (s' & Hrun' & Ht' & Hd); [apply world_sim, sim_lock|done|exact (on_wsched_Some _ u _ _ Hrun)|].
  exists s', (with_t t' u), (set_lockcount (lockcount x + 1) x). split; [done|].
  do 3 (split; [done|]). split; [by simpl; rewrite Hls|]. by split_and!.
Qed.

Lemma unlock_step s ts lf u L held r l x :
  timed s ts lf u → inv L held u → lists (tsk u) g_readytorun = r :: l → tasks (tsk u) !! r = Some x →
  ∃ b s' u' x', on_task (sched_unlock false) s = Some ((OK, b), s') ∧ timed s' ts lf u' ∧
    wdogs s' = wdogs s ∧ inv L held u' ∧ lock_same u r x u' x'.
Proof.
  intros Ht Hi Hl Hx.
  destruct (unlock_ok_mq idle u L held r (lockcount x) Hi) as (b & t' & Hrun & Hi' & _ & Hw & _);
    [by exists l, x|].
  destruct (unlock_sched_ok idle (tsk u) r l x (mv_sched _ _ _ _ Hi) Hl Hx) as (b2 & t2 & Hrun2 & _ & Hf & _).
  assert (t2 = t') as -> by congruence.
  destruct (frame_lookup _ _ r (set_lockcount (Z.max 0 (lockcount x - 1)) x) Hf) as (x' & Hx' & Hk);
    [by rewrite lookup_alter_eq, Hx|].
  destruct (world_step mq_repr pool (on_wsched (sched_unlock false)) (on_wsched (sched_unlock false)) s ts lf u
    (OK, b) (with_t t' u)) as (s' & Hrun' & Ht' & Hd);
    [apply world_sim, sim_unlock|done|exact (on_wsched_Some _ u _ _ Hrun)|].
  exists b, s', (with_t t' u), x'. split; [done|]. do 3 (split; [done|]). split_and!; try done; by injection Hk.
Qed.

(** The wait: the watchdog is started, the task blocks, and after the delay the
    watchdog ends the wait. *)
Lemma timed_wait {A} wdentry d fn s ts lf u L held q y r l xr w ticks
    (c : K (mqsys sched_s) A) (c' : K (mqsys lsched) A) (o : Z → A) :
  let D := Z.min (ticks + 1) INT32_MAX in
  timed s ts lf u → inv L held u → msgqs (mdata u) !! q = Some y →
  lists (tsk u) g_readytorun = r :: l → tasks (tsk u) !! r = Some xr → r ≠ idle → 0 ≤ pid xr < 32768 →
  g_pidhash (msys u) !! Z.to_nat (PIDHASH (pid xr)) = Some (mk_ph (Some r) (pid xr)) →
  waitdog xr = Some w → w ∈ dom (wdogs s) → w ∉ lf → w ∉ ts.*1 → (1 ≤ CONFIG_MAX_WDOGPARMS)%nat →
  0 < ticks ≤ INT32_MAX → Forall (λ p, D < p.2) ts →
  (∀ s, wdentry fn [pid xr] s = ('(_, s) ← on_world (mq_timeout d (pid xr)) s; Some s)) →
  sim mq_repr c c' → (∀ u1, mq_block d (Some q) u = Some (pterrno xr, u1) → c' u = Some (o (pterrno xr), u1)) →
  ∃ sa s1 s2 u2 x2, start_waitdog fn r ticks s = Some (tt, sa) ∧ on_world c sa = Some (o (pterrno xr), s1) ∧
    Nat.iter (Z.to_nat D) (λ o, o ≫= wd_timer wdentry) (Some s1) = Some s2 ∧
    timed s2 (tq_shift D ts) lf u2 ∧ dom (wdogs s2) = dom (wdogs s) ∧ inv L held u2 ∧
    wait_over u r u2 ETIMEDOUT ∧ tasks (tsk u2) !! r = Some x2 ∧ waitdog x2 = Some w.
Proof.
  intros D Ht Hi Hy Hl Hxr Hr Hpid Hhash Hw Hwd Hwl Hwt Hparm Hticks Hlate Hentry Hsim Hc.
  destruct (block_times_out idle u L held d q y r l xr Hi Hy Hl Hxr Hr Hpid Hhash)
    as (u1 & u2 & x2 & Hblock & Hout & Hi2 & Hover & Hx2 & Hw2).
  destruct (start_waitdog_ok mq_repr pool fn s ts lf u r xr w ticks Ht)
    as (sa & z & Hruna & Hta & Hz & Hf & Ha & Hda); [done|done|done|done|lia|done|].
  rewrite tq_remove_notin, tq_insert_first in Hta by done.
  destruct (world_step mq_repr pool c c' sa _ lf u _ u1 Hsim Hta (Hc _ Hblock)) as (s1 & Hrun1 & Ht1 & Hd1).
  destruct (timer_times_out mq_repr pool wdentry s1 ts lf u1 w D z (pid xr) (mq_timeout d (pid xr))
    (mq_timeout d (pid xr)) tt u2 Ht1) as (s2 & Hrun2 & Ht2 & Hd2);
    [lia|done|by rewrite Hd1|done|by rewrite Hf|apply sim_mq_timeout|done|].
  exists sa, s1, s2, u2, x2. do 4 (split; [done|]). split_and!; [congruence|done|done|done|congruence].
Qed.

Lemma wait_over_after u u1 r u2 e :
  mdata u1 = mdata u → g_pidhash (msys u1) = g_pidhash (msys u) → same_waits (tsk u) (tsk u1) →
  wait_over u1 r u2 e → wait_over u r u2 e.
Proof.
  intros Hd Hh [Hw He] (Hd2 & Hh2 & Hw2 & He2 & Hin). split_and!; [congruence|congruence| | |done].
  - intros d q a. by rewrite Hw2, Hw.
  - intros a. rewrite He2. case_decide; [done|apply He].
Qed.

Lemma waitdog_waits p r u : same_waits (tsk u) (tsk (with_waitdog p r u)).
Proof.
  split; [|intros a; by apply werr_alter_same]. intros d q a. rewrite !elem_mwaiters. simpl.
  by rewrite wmq_alter_same.
Qed.

(** The task that makes a call with a timeout. *)
Record caller u r l x : Prop := {
  ca_runs : lists (tsk u) g_readytorun = r :: l;
  ca_tcb : tasks (tsk u) !! r = Some x;
  ca_idle : r ≠ idle;
  ca_waitdog : waitdog x = NULL;
  ca_lock : lockcount x < MAX_LOCK_COUNT;
  ca_pid : 0 ≤ pid x < 32768;
  ca_hash : g_pidhash (msys u) !! Z.to_nat (PIDHASH (pid x)) = Some (mk_ph (Some r) (pid x));
}.

(** The task whose wait has timed out runs again; [w] is its watchdog. *)
Record timed_out s lf u r w : Prop := {
  to_runs : ∃ l x, lists (tsk u) g_readytorun = r :: l ∧ tasks (tsk u) !! r = Some x ∧
    pterrno x = ETIMEDOUT ∧ waitdog x = Some w;
  to_wdog : w ∈ dom (wdogs s) ∧ w ∉ lf;
}.

(** At the end of the call the task has its errno back, and no watchdog. *)
Definition given_back u r u' (e : Z) : Prop :=
  (∀ d q a, a ∈ mwaiters (tsk u') d q ↔ a ∈ mwaiters (tsk u) d q) ∧
  (∀ a, werr (tasks (tsk u')) a = if decide (a = r) then e else werr (tasks (tsk u)) a) ∧
  ∃ x, tasks (tsk u') !! r = Some x ∧ waitdog x = NULL.

(** The wait is over: the task gets its errno back. *)
Lemma wakeup_late s lf u L held r w e :
  inv L held u → timed_out s lf u r w →
  let u' := with_t (upd (set_pterrno e) r (tsk u)) u in
  mq_wakeup r e u = Some (ETIMEDOUT, u') ∧ inv L held u' ∧
  ∃ l x, lists (tsk u') g_readytorun = r :: l ∧ tasks (tsk u') !! r = Some x ∧ waitdog x = Some w.
Proof.
  intros Hi [(l & x & Hl & Hx & He & Hw) _]. split; [|split].
  - unfold mq_wakeup. tread ls_get. twrite ls_set. by rewrite He.
  - apply inv_tasks; [done|by apply inv_upd, Hi|apply size_alter|].
    eapply mwait_frame; [apply Hi| |done]. intros a. by apply wmq_alter_same.
  - exists l, (set_pterrno e x). simpl. by rewrite lookup_alter_eq, Hx.
Qed.

Lemma given_back_waits u r x e u' x' :
  let u0 := with_t (upd (set_pterrno e) r (tsk u)) u in
  tasks (tsk u) !! r = Some x → same_waits (tsk u0) (tsk u') →
  tasks (tsk u') !! r = Some x' → waitdog x' = NULL → given_back u r u' e.
Proof.
  intros u0 Hx [Hw He] Hx' Hd. split_and!; [| |by exists x'].
  - intros d q a. rewrite Hw, !elem_mwaiters. simpl. by rewrite wmq_alter_same.
  - intros a. rewrite He. unfold u0. simpl. case_decide as Ha; [|by apply werr_alter_ne].
    subst. unfold werr. by rewrite lookup_alter_eq, Hx.
Qed.

Lemma call_step s ts lf u r l x (b : bool) :
  timed s ts lf u → caller u r l x → b = true →
  ∃ s1 s2, on_task this_task s = Some (r, s1) ∧ on_task (tcb_get r) s1 = Some (x, s2) ∧
    kassert (b && bool_decide (waitdog x = NULL)) s2 = Some (tt, s2) ∧ timed s2 ts lf u ∧ wdogs s2 = wdogs s.
Proof.
  intros Ht [Hl Hx _ Hw _ _ _] ->.
  destruct (this_step mq_repr pool s ts lf u r l) as (s1 & Hr1 & Ht1 & Hd1); [done..|].
  destruct (get_step mq_repr pool s1 ts lf u r x) as (s2 & Hr2 & Ht2 & Hd2); [done..|].
  exists s1, s2. split; [done|]. split; [done|]. split; [|split; [done|congruence]].
  apply kassert_Some. by rewrite bool_decide_eq_true_2.
Qed.
End steps.

(** ** Receiving *)

Section receive.
Context `{Config} `{MqConfig} (idle : addr) (pool : list addr).
Implicit Types (s : wd_state (mqsys sched_s)) (u : mqsys lsched) (ts : timers) (lf : list addr)
  (L : mlist → list addr) (held : gset addr) (d : side) (q r w : addr).
Abbreviation inv := (mq_inv idle).
Abbreviation timed := (timed mq_repr pool).
Context (nxmq_sndtimeout_fn nxmq_rcvtimeout_fn : Z).
Hypothesis pool_ok : NoDup pool ∧ length pool = CONFIG_PREALLOC_WDOGS ∧
                     Z.of_nat CONFIG_PREALLOC_WDOGS < 65536.

Lemma ticks_pos now abstime ticks : timeout_ticks now abstime = inr ticks → 0 < ticks.
Proof.
  unfold timeout_ticks. destruct (clock_abstime2ticks now abstime) as [z [n|]]; [|done].
  destruct (Z.leb_spec n 0); [done|]. by intros [= <-].
Qed.

(** The call from the point where the scheduler is locked. *)
Definition receive_wait (now : option timespec) (p : ptr) (size : Z) (want : bool) (abstime : timespec)
    (r : addr) (y : mqueue_inode_s) : K (wd_state (mqsys sched_s)) (outcome (Z * option (list Z * option Z))) :=
  late ← (if bool_decide (sq_head (msglist y) = NULL) then
            match timeout_ticks now abstime with
            | inl result => mret (Some result)
            | inr ticks => start_waitdog nxmq_rcvtimeout_fn r ticks;; mret None
            end
          else mret None);
  match late with
  | Some result =>
      _ ← on_task (sched_unlock false);
      delete_waitdog r;;
      mret (Returns (- result, None))
  | None =>
      st ← on_world (nxmq_wait_receive p);
      match st with
      | Returns (ret, mqmsg) => res ← timedreceive_end r p size want ret mqmsg; mret (Returns res)
      | Blocks e => mret (Blocks e)
      end
  end.

(** The task has its watchdog [w] and has locked the scheduler. *)
Definition ready_to_wait u r l x w u' : Prop :=
  lists (tsk u') g_readytorun = r :: l ∧ lock_same u r (set_waitdog (Some w) x) u' (default x (tasks (tsk u') !! r)).

Lemma timedreceive_begin s u ts w lf L p z q y r l xr kmm now abstime size want :
  timed s ts (w :: lf) u → inv L ∅ u → caller idle u r l xr →
  CONFIG_WDOG_INTRESERVE < Z.of_nat (S (length lf)) →
  mqdess (mdata u) !! p = Some z → des_msgq z = Some q → msgqs (mdata u) !! q = Some y →
  receive_code true size z y = OK → bad_abstime (Some abstime) = false →
  ∃ s' u', nxmq_timedreceive nxmq_rcvtimeout_fn kmm now (Some p) true size want (Some abstime) s =
      receive_wait now (Some p) size want abstime r y s' ∧
    timed s' ts lf u' ∧ dom (wdogs s') = dom (wdogs s) ∧ inv L ∅ u' ∧ ready_to_wait u r l xr w u'.
Proof.
  intros Ht Hi Hca Hres Hz Hq Hy Hcode Habs.
  destruct (call_step idle pool s ts (w :: lf) u r l xr true Ht Hca eq_refl) as (sa & sb & Ha & Hb & Has & Htb & Hdb).
  unfold nxmq_timedreceive. rewrite (K_bind_Some _ _ _ _ _ Ha), (K_bind_Some _ _ _ _ _ Hb),
    (K_bind_Some _ _ _ _ _ Has).
  destruct (read_step pool (nxmq_verify_receive (Some p) true size) sb ts (w :: lf) u OK Htb)
    as (sc & Hc & Htc & Hdc); [rewrite <- Hcode; by eapply verify_receive_run|].
  rewrite (K_bind_Some _ _ _ _ _ Hc). cbn [Z.ltb OK Z.compare]. rewrite Habs. krun klift_Some.
  destruct (create_waitdog_ok mq_repr pool pool_ok sc ts w lf u r kmm Htc Hres) as (sd & Hd & Htd & Hdd);
    [exists xr; apply Hca|].
  rewrite (K_bind_Some _ _ _ _ _ Hd). cbn [negb].
  destruct (lock_step idle pool sd ts lf (with_waitdog (Some w) r u) L ∅ r l (set_waitdog (Some w) xr) Htd)
    as (se & ue & xe & He & Hte & Hde & Hie & Hle & Hmd & Hph & Hws & Hxe & Hsx); [by apply waitdog_inv|apply Hca
    |exact (with_waitdog_lookup mq_repr _ _ u _ (ca_tcb _ _ _ _ _ Hca))|apply Hca|].
  rewrite (K_bind_Some _ _ _ _ _ He).
  destruct (read_step pool (des_get (Some p)) se ts lf ue z Hte) as (sf & Hf & Htf & Hdf);
    [rewrite Hmd; by apply des_get_Some|].
  rewrite (K_bind_Some _ _ _ _ _ Hf), Hq.
  destruct (read_step pool (msgq_get (Some q)) sf ts lf ue y Htf) as (sg & Hg & Htg & Hdg);
    [rewrite Hmd; by apply msgq_get_Some|].
  rewrite (K_bind_Some _ _ _ _ _ Hg). exists sg, ue. split; [done|]. split; [done|]. split; [congruence|].
  split; [done|]. split; [done|]. rewrite Hxe. split_and!; [done|done| |done|apply Hsx..].
  etransitivity; [apply waitdog_waits|done].
Qed.

Lemma empty_head u L q y :
  inv L ∅ u → msgqs (mdata u) !! q = Some y → L (MQueue q) = [] → sq_head (msglist y) = NULL.
Proof.
  intros Hi Hy Hl. pose proof (ml_repr _ _ _ (md_lists _ _ _ (mv_data _ _ _ _ Hi)) (MQueue q) (msglist y)) as Hr.
  rewrite Hl in Hr. destruct Hr as (_ & Hhd & _); [simpl; by rewrite Hy|done].
Qed.

Lemma wait_receive_blocks u L p z q y e u1 :
  inv L ∅ u → mqdess (mdata u) !! p = Some z → des_msgq z = Some q → msgqs (mdata u) !! q = Some y →
  L (MQueue q) = [] → has_flag (oflags z) O_NONBLOCK = false → mq_block NotEmpty (Some q) u = Some (e, u1) →
  nxmq_wait_receive (Some p) u = Some (Blocks e, u1).
Proof.
  intros Hi Hz Hq Hy Hl Hnb Hb. unfold nxmq_wait_receive, wait_receive_loop. dread des_get_Some. rewrite Hq.
  krun klift_Some. assert (mq_list (MQueue q) (mdata u) = Some (msglist y)) as Hm by (simpl; by rewrite Hy).
  erewrite K_bind_Some by (eapply data_read, mlist_take_empty; [apply Hi|exact Hm|done]). cbv beta iota.
  dread des_get_Some. rewrite Hnb. cbn [negb]. by rewrite (K_bind_Some _ _ _ _ _ Hb).
Qed.

Lemma timedreceive_blocks wdentry s u ts w lf L p z q y r l xr kmm now abstime ticks size want :
  let D := Z.min (ticks + 1) INT32_MAX in
  timed s ts (w :: lf) u → inv L ∅ u → caller idle u r l xr →
  CONFIG_WDOG_INTRESERVE < Z.of_nat (S (length lf)) → (1 ≤ CONFIG_MAX_WDOGPARMS)%nat →
  mqdess (mdata u) !! p = Some z → des_msgq z = Some q → msgqs (mdata u) !! q = Some y →
  receive_code true size z y = OK → has_flag (oflags z) O_NONBLOCK = false → box L u q = [] →
  bad_abstime (Some abstime) = false → timeout_ticks now abstime = inr ticks → ticks ≤ INT32_MAX →
  Forall (λ p, D < p.2) ts →
  (∀ s, wdentry nxmq_rcvtimeout_fn [pid xr] s =
        ('(_, s) ← on_world (mq_timeout NotEmpty (pid xr)) s; Some s)) →
  ∃ s1 s2 u2 x2,
    nxmq_timedreceive nxmq_rcvtimeout_fn kmm now (Some p) true size want (Some abstime) s =
      Some (Blocks (pterrno xr), s1) ∧
    Nat.iter (Z.to_nat D) (λ o, o ≫= wd_timer wdentry) (Some s1) = Some s2 ∧
    timed s2 (tq_shift D ts) lf u2 ∧ dom (wdogs s2) = dom (wdogs s) ∧ inv L ∅ u2 ∧
    wait_over u r u2 ETIMEDOUT ∧ tasks (tsk u2) !! r = Some x2 ∧ waitdog x2 = Some w.
Proof.
  intros D Ht Hi Hca Hres Hparm Hz Hq Hy Hcode Hnb Hbox Habs Hticks Hmax Hlate Hentry.
  pose proof (box_nil idle u L q Hi Hbox) as Hnil. pose proof (ticks_pos _ _ _ Hticks) as Hpos.
  destruct (free_head pool _ _ _ _ (tm_wd _ _ _ _ _ _ Ht)) as (Hwd & Hwp & Hwl & Hwt).
  destruct (timedreceive_begin s u ts w lf L p z q y r l xr kmm now abstime size want)
    as (sa & ua & -> & Hta & Hda & Hia & Hla & Hmd & Hph & Hws & Hxa & Hwa & Hpa & Hea); [done..|].
  set (xa := default xr (tasks (tsk ua) !! r)) in *. simpl in Hwa, Hpa, Hea.
  destruct (timed_wait idle pool wdentry NotEmpty nxmq_rcvtimeout_fn sa ts lf ua L ∅ q y r l xa w ticks
    (nxmq_wait_receive (Some p)) (nxmq_wait_receive (Some p)) Blocks)
    as (sb & s1 & s2 & u2 & x2 & Hstart & Hwait & Htick & Ht2 & Hd2 & Hi2 & Hover & Hx2 & Hw2);
    rewrite ?Hmd, ?Hph, ?Hpa, ?Hda; try done; [apply Hca..| | |].
  { apply sim_wait_receive. }
  { intros u1. eapply wait_receive_blocks; rewrite ?Hmd; done. }
  exists s1, s2, u2, x2. rewrite <- Hea. split.
  - unfold receive_wait. rewrite (empty_head u L q y), bool_decide_eq_true_2, Hticks by done.
    erewrite K_bind_Some by (by rewrite (K_bind_Some _ _ _ _ _ Hstart)). cbv beta iota.
    by rewrite (K_bind_Some _ _ _ _ _ Hwait).
  - split_and!; try done; [congruence|]. by eapply wait_over_after.
Qed.

Lemma receive_finish_late p size want ret m s :
  ret < 0 → on_world (receive_finish p size want ret m) s =
    (_ ← on_task (sched_unlock false); mret (ret, None)) s.
Proof.
  intros Hret. unfold on_world, on_task, on_wsched, receive_finish, on_tcb, on_sys, on_sched, mbind, K_bind,
    mret, K_ret.
  rewrite (proj2 (Z.leb_gt _ _) Hret). simpl. unfold on_world. by destruct (sched_unlock false _) as [[[]]|].
Qed.

Lemma timedreceive_resume_late s ts lf u L p q r w e size want :
  timed s ts lf u → inv L ∅ u → timed_out s lf u r w → w ∈ pool →
  ∃ s' u', nxmq_timedreceive_resume r e p q size want s = Some (Returns (- ETIMEDOUT, None), s') ∧
    timed s' (tq_remove w ts) (lf ++ [w]) u' ∧ inv L ∅ u' ∧ mdata u' = mdata u ∧ given_back u r u' e.
Proof.
  intros Ht Hi Hto Hwp. destruct (wakeup_late idle s lf u L ∅ r w e Hi Hto) as (Hr & Hi1 & l & x & Hl & Hx & Hw).
  destruct Hto as [(l0 & x0 & Hl0 & Hx0 & _) [Hwd Hwl]]. set (u1 := with_t _ u) in *.
  destruct (world_step mq_repr pool _ (nxmq_wait_receive_resume r e p q) s ts lf u (Returns (- ETIMEDOUT, NULL)) u1
    (sim_wait_receive_resume r e p q) Ht) as (s1 & Hr1 & Ht1 & Hd1).
  { unfold nxmq_wait_receive_resume. by rewrite (K_bind_Some _ _ _ _ _ Hr). }
  rewrite <- Hd1 in Hwd.
  destruct (cancel_waitdog_ok mq_repr pool s1 ts lf u1 r x w Ht1) as (s2 & Hr2 & Ht2 & Hd2); [done..|].
  destruct (unlock_step idle pool s2 _ lf u1 L ∅ r l x Ht2 Hi1 Hl Hx)
    as (b & s3 & u3 & x3 & Hr3 & Ht3 & Hd3 & Hi3 & Hm3 & _ & Hw3 & Hx3 & Hwx3 & _).
  destruct (delete_waitdog_ok mq_repr pool pool_ok s3 _ lf u3 r x3 w Ht3) as (s4 & Hr4 & Ht4);
    [done|congruence|by rewrite Hd3, Hd2|done|done|].
  exists s4, (with_waitdog NULL r u3). split.
  - unfold nxmq_timedreceive_resume, timedreceive_end. rewrite (K_bind_Some _ _ _ _ _ Hr1). cbv beta iota.
    erewrite K_bind_Some; [done|]. rewrite (K_bind_Some _ _ _ _ _ Hr2).
    erewrite K_bind_Some; [by rewrite (K_bind_Some _ _ _ _ _ Hr4)|].
    rewrite receive_finish_late by done. by rewrite (K_bind_Some _ _ _ _ _ Hr3).
  - rewrite tq_remove_notin in Ht4 by apply tq_remove_addrs.
    split; [done|]. split; [by apply waitdog_inv|]. split; [done|].
    eapply given_back_waits; [done|etransitivity; [exact Hw3|apply waitdog_waits]
      |exact (with_waitdog_lookup mq_repr _ _ u3 _ Hx3)|done].
Qed.
End receive.

(** ** Sending *)

Section send.
Context `{Config} `{MqConfig} (idle : addr) (pool : list addr).
Implicit Types (s : wd_state (mqsys sched_s)) (u : mqsys lsched) (ts : timers) (lf : list addr)
  (L : mlist → list addr) (held : gset addr) (d : side) (q r w a : addr).
Abbreviation inv := (mq_inv idle).
Abbreviation timed := (timed mq_repr pool).
Context (sigp : Z → Z → Z → K (mqsys sched_s) Z) (nxmq_sndtimeout_fn : Z).
Hypothesis pool_ok : NoDup pool ∧ length pool = CONFIG_PREALLOC_WDOGS ∧
                     Z.of_nat CONFIG_PREALLOC_WDOGS < 65536.

(** The call from the point where the watchdog is started. *)
Definition send_wait (r : addr) (p : ptr) (a : addr) (m : list Z) (msglen prio ticks : Z)
  : K (wd_state (mqsys sched_s)) (outcome Z * ptr) :=
  start_waitdog nxmq_sndtimeout_fn r ticks;;
  st ← on_world (nxmq_wait_send p);
  match st with
  | Returns ret => ret ← timedsend_end sigp false r p a m msglen prio ret; mret (Returns ret, NULL)
  | Blocks e => mret (Blocks e, Some a)
  end.

(** The sender has taken the message structure [a] from a pool or the heap. *)
Definition holds_message L u a L' u' : Prop :=
  mq_inv idle L' {[a]} u' ∧ pools_only (mdata u) L (mdata u') L' ∧ boxes_same L u L' u' ∧ mq_same u u'.

Lemma alloc_step s ts lf u L kmm :
  timed s ts lf u → inv L ∅ u → heap_msg (mdata u) kmm → (L MFree ≠ [] ∨ kmm ≠ None) →
  ∃ s' a L' md, on_queues (nxmq_alloc_msg false kmm) s = Some (Some a, s') ∧
    timed s' ts lf (with_d md u) ∧ wdogs s' = wdogs s ∧ holds_message L u a L' (with_d md u).
Proof.
  intros Ht Hi Hheap Hmem.
  destruct (alloc_msg_ok _ _ _ false kmm (mv_data _ _ _ _ Hi) Hheap) as (m & md & L' & Hrun & Hpool & Hm).
  destruct m as [a|]; [|naive_solver]. destruct Hm as [_ Hd]. rewrite union_empty_r_L in Hd.
  destruct (data_step pool _ s ts lf u _ _ Ht Hrun) as (s' & Hrun' & Ht' & Hw).
  destruct (pools_inv idle u L ∅ L' _ md Hi Hd Hpool) as (Hi' & Hs & Hb).
  exists s', a, L', md. by split_and!.
Qed.

Lemma timedsend_begin s u ts w lf L p z q y r l xr kmm kmm_wdog now abstime ticks m msglen prio :
  timed s ts (w :: lf) u → inv L ∅ u → caller idle u r l xr →
  CONFIG_WDOG_INTRESERVE < Z.of_nat (S (length lf)) →
  mqdess (mdata u) !! p = Some z → des_msgq z = Some q → msgqs (mdata u) !! q = Some y →
  send_code (Some m) msglen prio z y = OK → heap_msg (mdata u) kmm → (L MFree ≠ [] ∨ kmm ≠ None) →
  maxmsgs y ≤ nmsgs y → bad_abstime (Some abstime) = false → timeout_ticks now abstime = inr ticks →
  ∃ s' a L1 md u', nxmq_timedsend sigp nxmq_sndtimeout_fn false kmm kmm_wdog now (Some p) (Some m) msglen prio
      (Some abstime) s = send_wait r (Some p) a m msglen prio ticks s' ∧
    timed s' ts lf u' ∧ dom (wdogs s') = dom (wdogs s) ∧ holds_message L u a L1 (with_d md u) ∧
    inv L1 {[a]} u' ∧ ready_to_wait (with_d md u) r l xr w u'.
Proof.
  intros Ht Hi Hca Hres Hz Hq Hy Hcode Hheap Hmem Hfull Habs Hticks.
  destruct (call_step idle pool s ts (w :: lf) u r l xr (negb false) Ht Hca eq_refl) as (sa & sb & Ha & Hb &
    Has & Htb & Hdb).
  unfold nxmq_timedsend. rewrite (K_bind_Some _ _ _ _ _ Ha), (K_bind_Some _ _ _ _ _ Hb), (K_bind_Some _ _ _ _ _ Has).
  destruct (read_step pool (nxmq_verify_send (Some p) (Some m) msglen prio) sb ts (w :: lf) u OK Htb)
    as (sc & Hc & Htc & Hdc); [rewrite <- Hcode; by eapply verify_send_run|].
  rewrite (K_bind_Some _ _ _ _ _ Hc). cbn [Z.ltb OK Z.compare]. krun klift_Some.
  destruct (alloc_step sc ts (w :: lf) u L kmm Htc Hi Hheap Hmem) as (sd & a & L1 & md & Hd & Htd & Hdd & Hhold).
  rewrite (K_bind_Some _ _ _ _ _ Hd). set (ud := with_d md u) in *.
  pose proof Hhold as (Hid & (_ & Hqs & _) & _ & Hsame).
  destruct (lock_step idle pool sd ts (w :: lf) ud L1 _ r l xr Htd Hid)
    as (se & ue & xe & He & Hte & Hde & Hie & Hle & Hmd & Hph & Hws & Hxe & Hsx); [apply Hca..|].
  rewrite (K_bind_Some _ _ _ _ _ He).
  destruct (read_step pool (des_get (Some p)) se ts (w :: lf) ue z Hte) as (sf & Hf & Htf & Hdf);
    [rewrite Hmd; apply des_get_Some; by eapply same_des|].
  rewrite (K_bind_Some _ _ _ _ _ Hf), Hq.
  destruct (read_step pool (msgq_get (Some q)) sf ts (w :: lf) ue y Htf) as (sg & Hg & Htg & Hdg);
    [rewrite Hmd; apply msgq_get_Some; by rewrite Hqs|].
  rewrite (K_bind_Some _ _ _ _ _ Hg). rewrite (proj2 (Z.ltb_ge _ _) Hfull). cbn [orb]. rewrite Habs. krun klift_Some.
  destruct (create_waitdog_ok mq_repr pool pool_ok sg ts w lf ue r kmm_wdog Htg Hres) as (sh & Hh & Hth & Hdh);
    [by eexists|].
  rewrite (K_bind_Some _ _ _ _ _ Hh). cbn [negb]. rewrite Hticks.
  exists sh, a, L1, md, (with_waitdog (Some w) r ue). split; [done|]. split; [done|]. split; [congruence|].
  split; [done|]. split; [by apply waitdog_inv|]. split; [done|].
  assert (tasks (tsk (with_waitdog (Some w) r ue)) !! r = Some (set_waitdog (Some w) xe)) as Hxw
    by exact (with_waitdog_lookup mq_repr _ _ ue _ Hxe). rewrite Hxw.
  split_and!; [done|done| |done|done|apply Hsx..].
  etransitivity; [done|apply waitdog_waits].
Qed.

Lemma timedsend_blocks wdentry s u ts w lf L p z q y r l xr kmm kmm_wdog now abstime ticks m msglen prio :
  let D := Z.min (ticks + 1) INT32_MAX in
  timed s ts (w :: lf) u → inv L ∅ u → caller idle u r l xr →
  CONFIG_WDOG_INTRESERVE < Z.of_nat (S (length lf)) → (1 ≤ CONFIG_MAX_WDOGPARMS)%nat →
  mqdess (mdata u) !! p = Some z → des_msgq z = Some q → msgqs (mdata u) !! q = Some y →
  send_code (Some m) msglen prio z y = OK → has_flag (oflags z) O_NONBLOCK = false → is_full L u q y →
  heap_msg (mdata u) kmm → (L MFree ≠ [] ∨ kmm ≠ None) →
  bad_abstime (Some abstime) = false → timeout_ticks now abstime = inr ticks → ticks ≤ INT32_MAX →
  Forall (λ p, D < p.2) ts →
  (∀ s, wdentry nxmq_sndtimeout_fn [pid xr] s =
        ('(_, s) ← on_world (mq_timeout NotFull (pid xr)) s; Some s)) →
  ∃ s1 s2 a L1 u2 x2,
    nxmq_timedsend sigp nxmq_sndtimeout_fn false kmm kmm_wdog now (Some p) (Some m) msglen prio (Some abstime) s =
      Some ((Blocks (pterrno xr), Some a), s1) ∧
    Nat.iter (Z.to_nat D) (λ o, o ≫= wd_timer wdentry) (Some s1) = Some s2 ∧
    timed s2 (tq_shift D ts) lf u2 ∧ dom (wdogs s2) = dom (wdogs s) ∧ inv L1 {[a]} u2 ∧
    boxes_same L u L1 u2 ∧ msgqs (mdata u2) = msgqs (mdata u) ∧
    wait_over (with_d (mdata u2) u) r u2 ETIMEDOUT ∧ tasks (tsk u2) !! r = Some x2 ∧ waitdog x2 = Some w.
Proof.
  intros D Ht Hi Hca Hres Hparm Hz Hq Hy Hcode Hnb Hfull Hheap Hmem Habs Hticks Hmax Hlate Hentry.
  pose proof (ticks_pos _ _ _ Hticks) as Hpos. unfold is_full in Hfull.
  rewrite <- (nmsgs_box idle u L ∅ q y Hi Hy) in Hfull.
  destruct (free_head pool _ _ _ _ (tm_wd _ _ _ _ _ _ Ht)) as (Hwd & Hwp & Hwl & Hwt).
  destruct (timedsend_begin s u ts w lf L p z q y r l xr kmm kmm_wdog now abstime ticks m msglen prio)
    as (sa & a & L1 & md & ua & -> & Hta & Hda & (_ & (_ & Hqs & _) & Hbox & Hsame) & Hia & Hla & Hmd & Hph &
      Hws & Hxa & Hwa & Hpa & Hea); [done..|].
  set (xa := default xr (tasks (tsk ua) !! r)) in *. simpl in Hwa, Hpa, Hea, Hmd, Hph, Hqs.
  pose proof (same_des u (with_d md u) p z Hsame Hz) as Hz'. simpl in Hz'.
  assert (msgqs (mdata ua) !! q = Some y) as Hya by (by rewrite Hmd, Hqs).
  destruct (timed_wait idle pool wdentry NotFull nxmq_sndtimeout_fn sa ts lf ua L1 {[a]} q y r l xa w ticks
    (nxmq_wait_send (Some p)) (nxmq_wait_send (Some p)) Blocks)
    as (sb & s1 & s2 & u2 & x2 & Hstart & Hwait & Htick & Ht2 & Hd2 & Hi2 & Hover & Hx2 & Hw2);
    rewrite ?Hph, ?Hpa, ?Hda; try done; [apply Hca..|apply sim_wait_send| |].
  { intros u1 Hb. rewrite (wait_send_run ua p z q y); [|by rewrite Hmd|done..]. rewrite Hnb. unfold wait_send_loop.
    dread msgq_get_Some. rewrite (proj2 (Z.leb_le _ _) Hfull). by rewrite (K_bind_Some _ _ _ _ _ Hb). }
  exists s1, s2, a, L1, u2, x2. rewrite <- Hea. pose proof Hover as (Hmd2 & _). rewrite Hmd2, Hmd.
  split; [unfold send_wait; by rewrite (K_bind_Some _ _ _ _ _ Hstart), (K_bind_Some _ _ _ _ _ Hwait)|].
  split_and!; try done; [congruence| |by eapply wait_over_after].
  intros b. rewrite <- Hbox. unfold box. by rewrite Hmd2, Hmd.
Qed.

Lemma timedsend_resume_late s ts lf u L a p q r w e m msglen prio :
  timed s ts lf u → inv L {[a]} u → timed_out s lf u r w → w ∈ pool →
  ∃ s' L' u', nxmq_timedsend_resume sigp r e p q a m msglen prio s = Some ((Returns (- ETIMEDOUT), NULL), s') ∧
    timed s' (tq_remove w ts) (lf ++ [w]) u' ∧ inv L' ∅ u' ∧ boxes_same L u L' u' ∧
    msgqs (mdata u') = msgqs (mdata u) ∧ given_back u r u' e.
Proof.
  intros Ht Hi Hto Hwp. destruct (wakeup_late idle s lf u L {[a]} r w e Hi Hto) as (Hr & Hi1 & l & x & Hl & Hx & Hw).
  destruct Hto as [(l0 & x0 & Hl0 & Hx0 & _) [Hwd Hwl]]. set (u1 := with_t _ u) in *.
  destruct (world_step mq_repr pool _ (nxmq_wait_send_resume r e (Some q)) s ts lf u (Returns (- ETIMEDOUT)) u1
    (sim_wait_send_resume r e (Some q)) Ht) as (s1 & Hr1 & Ht1 & Hd1).
  { unfold nxmq_wait_send_resume. by rewrite (K_bind_Some _ _ _ _ _ Hr). }
  rewrite <- Hd1 in Hwd.
  destruct (cancel_waitdog_ok mq_repr pool s1 ts lf u1 r x w Ht1) as (s2 & Hr2 & Ht2 & Hd2); [done..|].
  destruct (delete_waitdog_ok mq_repr pool pool_ok s2 _ lf u1 r x w Ht2) as (s3 & Hr3 & Ht3);
    [done|done|by rewrite Hd2|done|done|].
  pose proof (waitdog_inv idle L {[a]} u1 NULL r Hi1) as Hi3. set (u3 := with_waitdog NULL r u1) in *.
  destruct (free_msg_ok _ L {[a]} a (mv_data _ _ _ _ Hi3)) as (md & L' & Hfree & Hd' & Hp & _); [set_solver|].
  destruct (data_step pool _ s3 _ _ u3 _ _ Ht3 Hfree) as (s4 & Hr4 & Ht4 & Hd4).
  destruct (pools_inv idle u3 L {[a]} L' _ md Hi3 Hd' Hp) as (Hi4 & Hs4 & Hb4).
  rewrite difference_diag_L in Hi4.
  destruct (unlock_step idle pool s4 _ _ (with_d md u3) L' ∅ r l (set_waitdog NULL x) Ht4 Hi4 Hl)
    as (b & s5 & u5 & x5 & Hr5 & Ht5 & Hd5 & Hi5 & Hm5 & _ & Hw5 & Hx5 & Hwx5 & _);
    [exact (with_waitdog_lookup mq_repr _ _ u1 _ Hx)|].
  exists s5, L', u5. split.
  - unfold nxmq_timedsend_resume, timedsend_end, timedsend_errout. rewrite (K_bind_Some _ _ _ _ _ Hr1). cbv beta iota.
    erewrite K_bind_Some; [done|]. rewrite (K_bind_Some _ _ _ _ _ Hr2). cbv beta.
    change (- ETIMEDOUT <? 0) with true. cbv iota. rewrite (K_bind_Some _ _ _ _ _ Hr3), (K_bind_Some _ _ _ _ _ Hr4).
    by rewrite (K_bind_Some _ _ _ _ _ Hr5).
  - rewrite tq_remove_notin in Ht5 by apply tq_remove_addrs. split; [done|]. split; [done|].
    split; [intros c; unfold box; rewrite Hm5; apply Hb4|]. split; [rewrite Hm5; apply Hp|].
    eapply given_back_waits; [done|etransitivity; [apply (waitdog_waits NULL r)|exact Hw5]|done|done].
Qed.
End send.
