(* ===== verification/MqTimedProps.v ===== *)
(** * MqTimedProps: what calls with a timeout guarantee

    The message queues with the watchdogs: the functions [nxmq_sndtimeout] and
    [nxmq_rcvtimeout] meet the contract [WdogHandler] of the timer interrupt, so an
    interrupt keeps the invariants of all components; and a call that waits in vain
    is ended by its timer, with everything given back. *)

From S2P Require Import Prelude Queue QueueRefine Wdog WdogSpec WdogTimer Sched SchedSpec SchedInv SchedOps SchedProps Semaphore SemSpec SemOps SemProps Clock TimedWait MQueue MqSpec MqInv MqWait MqView MqData MqOps MqCalls MqHist MqRun SemTimedProps MqInit MqProps MqTimed MqTimedOps.
Import Sq SqSpec.
Local Open Scope Z_scope.

(** ** Calls that do not wait *)

Section immediate.
Context `{Config} `{MqConfig} {S : Type} `{!TaskLists S}.
Implicit Types (s : wd_state (mqsys S)) (md : mq_data).

Lemma remfirst_keeps k md v md' :
  (k = MFree ∨ k = MFreeIrq) → mlist_remfirst k md = Some (v, md') →
  mqdess md' = mqdess md ∧ msgqs md' = msgqs md.
Proof.
  intros Hk. unfold mlist_remfirst. destruct (mq_list k md) as [q|]; [|done]. simpl.
  destruct (sq_remfirst q (msgs md)) as [[[p q'] m]|]; [|done]. simpl. intros [= <- <-].
  by destruct Hk as [-> | ->].
Qed.

Lemma alloc_keeps irq kmm md v md' :
  nxmq_alloc_msg irq kmm md = Some (v, md') → mqdess md' = mqdess md ∧ msgqs md' = msgqs md.
Proof.
  unfold nxmq_alloc_msg. destruct (mlist_remfirst MFree md) as [[p1 md1]|] eqn:H1.
  2: { unfold mbind, K_bind. destruct irq; by rewrite H1. }
  destruct irq; rewrite (K_bind_Some _ _ _ _ _ H1);
    (apply remfirst_keeps in H1 as [<- <-]; [|by left]); case_bool_decide; subst; try by intros [= <- <-].
  - intros Hr. by apply (remfirst_keeps MFreeIrq _ v); [right|].
  - destruct kmm as [[b x]|]; [|by intros [= <- <-]]. unfold msg_set, kput, mbind at 1 2, K_bind at 1 2, store.
    simpl. rewrite lookup_insert_eq. simpl. by intros [= <- <-].
Qed.

(** The state with the structure taken, and the scheduler locked. *)
Definition locked_with (t : S) md (w : mqsys S) : mqsys S :=
  mk_mq (mk_sys t (sems (msys w)) (g_pidhash (msys w))) md.

Lemma send_room_run sig kmm (w : mqsys S) p z q y a md m msglen prio :
  mqdess (mdata w) !! p = Some z → des_msgq z = Some q → msgqs (mdata w) !! q = Some y →
  send_code (Some m) msglen prio z y = OK → nmsgs y < maxmsgs y →
  nxmq_alloc_msg false kmm (mdata w) = Some (Some a, md) →
  nxmq_send sig false kmm (Some p) (Some m) msglen prio w =
    '(_, t) ← sched_lock false (ksched (msys w));
    (ret ← nxmq_do_send sig false (Some p) a m msglen prio; _ ← on_tcb (sched_unlock false); mret (Returns ret))
      (locked_with t md w).
Proof.
  intros Hz Hq Hy Hc Hroom Ha. unfold nxmq_send.
  rewrite (K_bind_Some _ _ _ OK w).
  2: { unfold on_data. rewrite (verify_send_run _ p z q y), Hc by done. by destruct w. }
  cbn [Z.ltb OK Z.compare]. krun klift_Some. unfold mbind at 1, K_bind at 1, on_tcb at 1, on_sys, on_sched.
  destruct (sched_lock false (ksched (msys w))) as [[v t]|]; [|done]. simpl.
  rewrite (K_bind_Some _ _ _ z (locked_with t (mdata w) w)).
  2: { unfold on_data. simpl. unfold des_get, kget. simpl. by rewrite Hz. }
  rewrite Hq, (K_bind_Some _ _ _ y (locked_with t (mdata w) w)).
  2: { unfold on_data. simpl. unfold msgq_get, kget. simpl. by rewrite Hy. }
  rewrite (proj2 (Z.leb_gt _ _) Hroom). cbn [negb andb].
  rewrite (K_bind_Some _ _ _ (Returns OK) (locked_with t (mdata w) w)) by done.
  assert (on_data (nxmq_alloc_msg false kmm) (locked_with t (mdata w) w) = Some (Some a, locked_with t md w)) as Hd
    by (unfold on_data; cbn [mdata locked_with]; by rewrite Ha).
  unfold send_finish, mbind, K_bind. cbn [Z.leb OK Z.compare]. rewrite Hd.
  cbn [mbind option_bind].
  destruct (nxmq_do_send _ _ _ _ _ _ _ _) as [[ret w1]|]; cbn [mbind option_bind]; [|done].
  by destruct (on_tcb _ w1) as [[? ?]|].
Qed.

Lemma on_task_read {A} (c : K S A) s v :
  c (wsched (world s)) = Some (v, wsched (world s)) → on_task c s = Some (v, s).
Proof. intros Hc. unfold on_task, on_world, on_wsched. rewrite Hc. by destruct s as [? ? ? ? [[]]]. Qed.

Lemma on_queues_read {A} (c : K mq_data A) s v :
  c (mdata (world s)) = Some (v, mdata (world s)) → on_queues c s = Some (v, s).
Proof. intros Hc. unfold on_queues, on_world, on_data. rewrite Hc. by destruct s as [? ? ? ? []]. Qed.

Lemma K_bind_run {X A B} (c : K X A) (f : A → K X B) (x : X) : (c ≫= f) x = '(v, x) ← c x; f v x.
Proof. done. Qed.

Lemma on_task_world {A} (c : K S A) s w :
  on_task c (set_world w s) = '(v, t) ← c (ksched (msys w)); Some (v, set_world (locked_with t (mdata w) w) s).
Proof. unfold on_task, on_world, on_wsched. simpl. by destruct (c _) as [[]|]. Qed.

Lemma on_world_world {A} (c : K (mqsys S) A) s w :
  on_world c (set_world w s) = '(v, w) ← c w; Some (v, set_world w s).
Proof. done. Qed.

(** C28: when there is room in the queue and a message structure, [nxmq_timedsend] does
    what [nxmq_send] does, whatever the time limit is, valid or not, passed or not,
    and without a watchdog. *)
Theorem nxmq_timedsend_immediate sig fn kmm kmm_wdog now abstime s r x p z q y a md m msglen prio :
  let w := world s in
  this_task (wsched w) = Some (r, wsched w) → tcb_get r (wsched w) = Some (x, wsched w) → waitdog x = NULL →
  mqdess (mdata w) !! p = Some z → des_msgq z = Some q → msgqs (mdata w) !! q = Some y →
  send_code (Some m) msglen prio z y = OK → nmsgs y < maxmsgs y →
  nxmq_alloc_msg false kmm (mdata w) = Some (Some a, md) →
  nxmq_timedsend sig fn false kmm kmm_wdog now (Some p) (Some m) msglen prio abstime s =
    (st ← on_world (nxmq_send sig false kmm (Some p) (Some m) msglen prio); mret (st, NULL)) s.
Proof.
  intros w Hr Hx Hd Hz Hq Hy Hc Hroom Ha. destruct (alloc_keeps _ _ _ _ _ Ha) as [Hk1 Hk2].
  unfold nxmq_timedsend.
  rewrite (K_bind_Some _ _ _ _ _ (on_task_read _ _ _ Hr)), (K_bind_Some _ _ _ _ _ (on_task_read _ _ _ Hx)).
  rewrite (bool_decide_eq_true_2 (waitdog x = NULL)), (K_bind_Some _ _ _ _ _ (kassert_Some _ s eq_refl)) by done.
  rewrite (K_bind_Some _ _ _ _ _ (on_queues_read _ _ _ (verify_send_run _ p z q y _ _ _ Hz Hq Hy))), Hc.
  cbn [Z.ltb OK Z.compare]. krun klift_Some.
  rewrite (K_bind_Some _ _ _ (Some a) (set_world (mk_mq (msys w) md) s)).
  2: { unfold on_queues, on_world, on_data. fold w. by rewrite Ha. }
  rewrite (K_bind_run (on_task _)), on_task_world. cbn [msys].
  rewrite (K_bind_run (on_world (nxmq_send _ _ _ _ _ _ _))).
  change (on_world (nxmq_send sig false kmm (Some p) (Some m) msglen prio) s) with
    ('(v, w0) ← nxmq_send sig false kmm (Some p) (Some m) msglen prio w; Some (v, set_world w0 s)).
  rewrite (send_room_run sig kmm w p z q y a md m msglen prio Hz Hq Hy Hc Hroom Ha).
  destruct (sched_lock false (ksched (msys w))) as [[v t]|]; [|done]. cbn [mbind option_bind].
  set (s1 := set_world _ s).
  rewrite (K_bind_Some _ _ _ z s1), Hq.
  2: { apply on_queues_read. simpl. unfold des_get, kget. simpl. by rewrite Hk1, Hz. }
  rewrite (K_bind_Some _ _ _ y s1).
  2: { apply on_queues_read. simpl. unfold msgq_get, kget. simpl. by rewrite Hk2, Hy. }
  rewrite (proj2 (Z.ltb_lt _ _) Hroom). cbn [orb].
  rewrite (K_bind_run (on_world _)), (K_bind_run (nxmq_do_send _ _ _ _ _ _ _)). unfold s1. rewrite on_world_world.
  destruct (nxmq_do_send _ _ _ _ _ _ _ _) as [[ret w1]|]; cbn [mbind option_bind]; [|done].
  rewrite (K_bind_run (on_task _)), (K_bind_run (on_tcb _)), on_task_world.
  unfold on_tcb, on_sys, on_sched. by destruct (sched_unlock false _) as [[[] ?]|].
Qed.
End immediate.

(** ** Properties *)

Section props.
Context `{Config} `{MqConfig} (idle : addr) (pool : list addr).
Implicit Types (s : wd_state (mqsys sched_s)) (u : mqsys lsched) (ts : timers) (lf : list addr)
  (L : mlist → list addr) (q r w : addr).
Abbreviation inv := (mq_inv idle).
Abbreviation repr := (wd_repr (W := mqsys sched_s) pool).
Abbreviation timed := (timed mq_repr pool).
Context (nxmq_sndtimeout_fn nxmq_rcvtimeout_fn : Z).

(** What holds of the message queues and the scheduler between interrupts. *)
Definition mq_world (_ : gset addr) (_ : list addr) (x : mqsys sched_s) : Prop :=
  ∃ L held u, mq_repr x u ∧ inv L held u ∧ hash_ok (msys u).

Lemma kept_mq_timeout L held u d p :
  inv L held u → hash_ok (msys u) →
  ∃ u', mq_timeout d p u = Some (tt, u') ∧ inv L held u' ∧ hash_ok (msys u').
Proof.
  intros Hi Hh. unfold mq_timeout. destruct (gettcb_ok (msys u) (s16 p) Hh) as (v & Hrun & Hv).
  rewrite (K_bind_Some _ _ u v u) by (unfold on_sys; rewrite Hrun; by destruct u).
  destruct v as [a|]; [|by exists u].
  destruct (proj1 (elem_of_dom _ _) (Hv a eq_refl)) as [x Hx]. tread ls_get.
  case_bool_decide as Hst; [|by exists u].
  destruct (wait_irq_ok idle u L held d a x ETIMEDOUT Hi Hx Hst) as (q & u' & _ & Hrun' & Hi' & Hu).
  exists u'. split; [done|]. split; [done|]. destruct (unblocked_same _ _ _ _ _ _ Hu) as [[Hd Hp _ _] _].
  unfold hash_ok in *. by rewrite Hd, Hp.
Qed.

Lemma mq_timeout_entry d p s ts lf :
  repr s ts lf → mq_world (dom (wdogs s)) lf (world s) →
  ∃ s' ts' lf', ('(_, s) ← on_world (mq_timeout d p) s; Some s) = Some s' ∧ repr s' ts' lf' ∧
    mq_world (dom (wdogs s')) lf' (world s') ∧ (length (tq_due 0 ts') ≤ length (tq_due 0 ts))%nat.
Proof.
  intros Hr (L & held & u & Hs & Hi & Hh). destruct (kept_mq_timeout L held u d p Hi Hh) as (u' & Hrun & Hi' & Hh').
  destruct (sim_mq_timeout d p _ _ _ _ Hs Hrun) as (w' & Hrun' & Hs').
  rewrite (on_world_Some _ _ _ _ Hrun'). cbn [mbind option_bind].
  exists (set_world w' s), ts, lf. split; [done|]. split; [by apply wd_repr_world|].
  split; [|done]. by exists L, held, u'.
Qed.

#[local] Instance mq_timeout_handler other :
  WdogHandler pool mq_world other →
  WdogHandler pool mq_world (wdentry_mq nxmq_sndtimeout_fn nxmq_rcvtimeout_fn other).
Proof.
  intros Hother. split. intros f ps s ts lf Hr HI. unfold wdentry_mq.
  destruct ps as [|p ps]; [by eapply handler_ok|].
  destruct (f =? nxmq_sndtimeout_fn); [by eapply mq_timeout_entry|].
  destruct (f =? nxmq_rcvtimeout_fn); [by eapply mq_timeout_entry|by eapply handler_ok].
Qed.

(** When the functions of all other watchdogs keep the invariants, a timer interrupt
    that ends timed calls returns, and keeps the timer queue, the task lists and the
    message queues right. *)
Theorem wd_timer_keeps_mqueues other s ts lf :
  WdogHandler pool mq_world other →
  repr s ts lf → Forall (λ p, 1 ≤ p.2) ts → mq_world (dom (wdogs s)) lf (world s) →
  ∃ s' ts' lf', wd_timer (wdentry_mq nxmq_sndtimeout_fn nxmq_rcvtimeout_fn other) s = Some s' ∧
    repr s' ts' lf' ∧ mq_world (dom (wdogs s')) lf' (world s') ∧ Forall (λ p, 1 ≤ p.2) ts'.
Proof. intros Hother. apply wd_timer_ok. by apply mq_timeout_handler. Qed.

Hypothesis pool_ok : NoDup pool ∧ length pool = CONFIG_PREALLOC_WDOGS ∧
                     Z.of_nat CONFIG_PREALLOC_WDOGS < 65536.

(** The wait of [r], which has the timer [w], is over in [u2] with the error
    [ETIMEDOUT]; when [r] runs again it can go on. *)
Lemma timed_out_when_runs s lf u r u2 x2 w :
  wait_over u r u2 ETIMEDOUT → tasks (tsk u2) !! r = Some x2 → waitdog x2 = Some w →
  w ∈ dom (wdogs s) → w ∉ lf → ∀ l, lists (tsk u2) g_readytorun = r :: l → timed_out s lf u2 r w.
Proof.
  intros (_ & _ & _ & He & _) Hx Hw Hd Hlf l Hl. split; [|done]. exists l, x2. split_and!; try done.
  specialize (He r). unfold werr in He. rewrite Hx, decide_True in He by done. done.
Qed.

(** C12: a receiver with a timeout, at a queue that stays empty, waits no longer than
    that, when the pool has a timer above the reserve and all other timers expire
    later: the call blocks, after as many timer interrupts as the limit has ticks,
    and one more, the task is made ready, and all is as before the call but for its
    errno and its timer; when it runs again, at whatever state of the queues, the
    call returns [-ETIMEDOUT] with its errno restored and its timer in the pool. *)
Theorem nxmq_timedreceive_times_out other s u ts w lf L p z q y r l xr kmm now abstime ticks size want :
  let D := Z.min (ticks + 1) INT32_MAX in
  let wdentry := wdentry_mq nxmq_sndtimeout_fn nxmq_rcvtimeout_fn other in
  timed s ts (w :: lf) u → inv L ∅ u → caller idle u r l xr → nxmq_sndtimeout_fn ≠ nxmq_rcvtimeout_fn →
  CONFIG_WDOG_INTRESERVE < Z.of_nat (S (length lf)) → (1 ≤ CONFIG_MAX_WDOGPARMS)%nat →
  mqdess (mdata u) !! p = Some z → des_msgq z = Some q → msgqs (mdata u) !! q = Some y →
  receive_code true size z y = OK → has_flag (oflags z) O_NONBLOCK = false → box L u q = [] →
  bad_abstime (Some abstime) = false → timeout_ticks now abstime = inr ticks → ticks ≤ INT32_MAX →
  Forall (λ p, D < p.2) ts →
  ∃ s1 s2 u2,
    nxmq_timedreceive nxmq_rcvtimeout_fn kmm now (Some p) true size want (Some abstime) s =
      Some (Blocks (pterrno xr), s1) ∧
    Nat.iter (Z.to_nat D) (λ o, o ≫= wd_timer wdentry) (Some s1) = Some s2 ∧
    timed s2 (tq_shift D ts) lf u2 ∧ inv L ∅ u2 ∧ wait_over u r u2 ETIMEDOUT ∧
    (∀ l2, lists (tsk u2) g_readytorun = r :: l2 → timed_out s2 lf u2 r w) ∧
    ∀ s3 ts3 lf3 L3 u3, timed s3 ts3 lf3 u3 → inv L3 ∅ u3 → timed_out s3 lf3 u3 r w →
    ∃ s4 u4, nxmq_timedreceive_resume r (pterrno xr) (Some p) q size want s3 =
        Some (Returns (- ETIMEDOUT, None), s4) ∧
      timed s4 (tq_remove w ts3) (lf3 ++ [w]) u4 ∧ inv L3 ∅ u4 ∧ mdata u4 = mdata u3 ∧
      given_back u3 r u4 (pterrno xr).
Proof.
  intros D wdentry Ht Hi Hca Hfn Hres Hparm Hz Hq Hy Hcode Hnb Hbox Habs Hticks Hmax Hlate.
  destruct (free_head pool _ _ _ _ (tm_wd _ _ _ _ _ _ Ht)) as (Hwd & Hwp & Hwl & _).
  destruct (timedreceive_blocks idle pool nxmq_rcvtimeout_fn pool_ok wdentry s u ts w lf L p z q y r l xr kmm now
    abstime ticks size want) as (s1 & s2 & u2 & x2 & Hrun & Htick & Ht2 & Hd2 & Hi2 & Hover & Hx2 & Hw2); [done..| |].
  { intros s0. unfold wdentry, wdentry_mq. rewrite (proj2 (Z.eqb_neq _ _)) by done. by rewrite Z.eqb_refl. }
  exists s1, s2, u2. do 5 (split; [done|]). split.
  - rewrite <- Hd2 in Hwd. intros l2. by eapply timed_out_when_runs.
  - intros s3 ts3 lf3 L3 u3 Ht3 Hi3 Hto. by apply timedreceive_resume_late.
Qed.

(** C13: the same, under the same conditions, of a sender at a queue that stays full: it keeps a message structure
    while it waits; after the limit the task is made ready, and when it runs again
    the call returns [-ETIMEDOUT] and the structure is given back: the queues hold
    what they held. *)
Theorem nxmq_timedsend_times_out sigp other s u ts w lf L p z q y r l xr kmm kmm_wdog now abstime ticks m
  msglen prio :
  let D := Z.min (ticks + 1) INT32_MAX in
  let wdentry := wdentry_mq nxmq_sndtimeout_fn nxmq_rcvtimeout_fn other in
  timed s ts (w :: lf) u → inv L ∅ u → caller idle u r l xr →
  CONFIG_WDOG_INTRESERVE < Z.of_nat (S (length lf)) → (1 ≤ CONFIG_MAX_WDOGPARMS)%nat →
  mqdess (mdata u) !! p = Some z → des_msgq z = Some q → msgqs (mdata u) !! q = Some y →
  send_code (Some m) msglen prio z y = OK → has_flag (oflags z) O_NONBLOCK = false → is_full L u q y →
  heap_msg (mdata u) kmm → (L MFree ≠ [] ∨ kmm ≠ None) →
  bad_abstime (Some abstime) = false → timeout_ticks now abstime = inr ticks → ticks ≤ INT32_MAX →
  Forall (λ p, D < p.2) ts →
  ∃ s1 s2 a L1 u2,
    nxmq_timedsend sigp nxmq_sndtimeout_fn false kmm kmm_wdog now (Some p) (Some m) msglen prio (Some abstime) s =
      Some ((Blocks (pterrno xr), Some a), s1) ∧
    Nat.iter (Z.to_nat D) (λ o, o ≫= wd_timer wdentry) (Some s1) = Some s2 ∧
    timed s2 (tq_shift D ts) lf u2 ∧ inv L1 {[a]} u2 ∧ boxes_same L u L1 u2 ∧
    msgqs (mdata u2) = msgqs (mdata u) ∧ wait_over (with_d (mdata u2) u) r u2 ETIMEDOUT ∧
    (∀ l2, lists (tsk u2) g_readytorun = r :: l2 → timed_out s2 lf u2 r w) ∧
    ∀ s3 ts3 lf3 L3 u3, timed s3 ts3 lf3 u3 → inv L3 {[a]} u3 → timed_out s3 lf3 u3 r w →
    ∃ s4 L4 u4, nxmq_timedsend_resume sigp r (pterrno xr) (Some p) q a m msglen prio s3 =
        Some ((Returns (- ETIMEDOUT), NULL), s4) ∧
      timed s4 (tq_remove w ts3) (lf3 ++ [w]) u4 ∧ inv L4 ∅ u4 ∧ boxes_same L3 u3 L4 u4 ∧
      msgqs (mdata u4) = msgqs (mdata u3) ∧ given_back u3 r u4 (pterrno xr).
Proof.
  intros D wdentry Ht Hi Hca Hres Hparm Hz Hq Hy Hcode Hnb Hfull Hheap Hmem Habs Hticks Hmax Hlate.
  destruct (free_head pool _ _ _ _ (tm_wd _ _ _ _ _ _ Ht)) as (Hwd & Hwp & Hwl & _).
  destruct (timedsend_blocks idle pool sigp nxmq_sndtimeout_fn pool_ok wdentry s u ts w lf L p z q y r l xr kmm
    kmm_wdog now abstime ticks m msglen prio)
    as (s1 & s2 & a & L1 & u2 & x2 & Hrun & Htick & Ht2 & Hd2 & Hi2 & Hbox & Hqs & Hover & Hx2 & Hw2); [done..| |].
  { intros s0. unfold wdentry, wdentry_mq. by rewrite Z.eqb_refl. }
  exists s1, s2, a, L1, u2. do 7 (split; [done|]). split.
  - rewrite <- Hd2 in Hwd. intros l2. by eapply timed_out_when_runs.
  - intros s3 ts3 lf3 L3 u3 Ht3 Hi3 Hto. by apply timedsend_resume_late.
Qed.
End props.

(** ** Witnesses *)

#[local] Existing Instance MqProps.debug_config.
#[local] Existing Instance demo_mq_config.

(** The watchdogs after [wd_initialize], with the world [x]. *)
Definition mq_boot (x : mqsys sched_s) : wd_state (mqsys sched_s) :=
  mk_wd (list_to_map ((λ a, (a, mk_wdog NULL 0 0 0 0 [0; 0; 0; 0])) <$> timed_pool))
    (mk_sq NULL NULL) (mk_sq NULL NULL) 0 x.
Definition timed_mq (x : mqsys sched_s) : wd_state (mqsys sched_s) :=
  default (mq_boot x) (wd_initialize timed_pool (mq_boot x)).

Lemma mq_pool_ok : NoDup timed_pool ∧ length timed_pool = CONFIG_PREALLOC_WDOGS ∧
  Z.of_nat CONFIG_PREALLOC_WDOGS < 65536.
Proof. split; [by_decide|done]. Qed.

Lemma timed_mq_ok x u : mq_repr x u → timed mq_repr timed_pool (timed_mq x) [] timed_pool u.
Proof.
  intros Hx. destruct (wd_initialize_spec timed_pool mq_pool_ok (mq_boot x)) as (s & Hrun & Hr & Hw).
  - by_decide.
  - intros a z Hz. apply elem_of_list_to_map_2, list_elem_of_fmap in Hz as (b & [= -> ->] & Hb).
    split; [done|]. split; [intros Hin; inversion Hin|done].
  - unfold timed_mq. rewrite Hrun. simpl. split; [done|]. by rewrite Hw.
Qed.

Definition demo_des : mq_des := mk_des NULL (Some 20%positive) (Z.lor O_RDOK O_WROK).

(** Task 2 waits three ticks for a message. *)
Lemma nxmq_timedreceive_times_out_witness :
  let timed := timed mq_repr timed_pool in
  ∃ L s1 s2 u2,
    nxmq_timedreceive 72 None (Some (mk_ts 10 0)) (Some 41%positive) true 4 true (Some (mk_ts 10 30000000))
      (timed_mq demo_mq) = Some (Blocks 0, s1) ∧
    Nat.iter 4 (λ o, o ≫= wd_timer (wdentry_mq 71 72 (λ _ _ _, None))) (Some s1) = Some s2 ∧
    timed s2 [] (tail timed_pool) u2 ∧ mq_inv 1 L ∅ u2 ∧ wait_over demo_lmq 2 u2 ETIMEDOUT ∧
    (∀ l2, lists (tsk u2) g_readytorun = 2%positive :: l2 → timed_out s2 (tail timed_pool) u2 2 1) ∧
    ∀ s3 ts3 lf3 L3 u3, timed s3 ts3 lf3 u3 → mq_inv 1 L3 ∅ u3 → timed_out s3 lf3 u3 2 1 →
    ∃ s4 u4, nxmq_timedreceive_resume 2 0 (Some 41%positive) 20 4 true s3 =
        Some (Returns (- ETIMEDOUT, None), s4) ∧
      timed s4 (tq_remove 1 ts3) (lf3 ++ [1%positive]) u4 ∧ mq_inv 1 L3 ∅ u4 ∧ mdata u4 = mdata u3 ∧
      given_back u3 2 u4 0.
Proof.
  destruct demo_hist as (L & [Hi _ _] & _ & Hb & _). exists L.
  apply (nxmq_timedreceive_times_out 1 timed_pool 71 72 mq_pool_ok (λ _ _ _, None) (timed_mq demo_mq) demo_lmq []
    1 (tail timed_pool) L 41 demo_des 20 (demo_msgq 0) 2 [3%positive; 1%positive]
    (demo_td 2 100 TSTATE_TASK_RUNNING 0) None (Some (mk_ts 10 0)) (mk_ts 10 30000000) 3 4 true);
    first [apply timed_mq_ok, demo_mq_repr|exact Hi|exact Hb|by split|done|simpl; lia|by vm_compute].
Defined.

(** The queue 20 is full; task 2 waits three ticks for room, with a structure of the
    heap in case the pool is empty. *)
Definition demo_full : list mq_op := [MqSend None 41 (Some [1]) 1 0].
Definition demo_full_msgq : mqueue_inode_s :=
  mk_mqi (mk_sq (Some 31%positive) (Some 31%positive)) 1 1 0 0 4 NULL INVALID_PROCESS_ID no_event.

Lemma demo_full_caller :
  caller 1 (after demo_full demo_lmq) 2 [3%positive; 1%positive] (demo_td 2 100 TSTATE_TASK_RUNNING 0).
Proof. split; [vm_compute; reflexivity..|done|done|done|done|vm_compute; reflexivity]. Qed.

Lemma nxmq_timedsend_times_out_witness :
  let timed := timed mq_repr timed_pool in
  let u := after demo_full demo_lmq in
  ∃ L s1 s2 a L1 u2,
    nxmq_timedsend pending_signals 71 false (Some (35%positive, blank_msg)) None (Some (mk_ts 10 0))
      (Some 41%positive) (Some [2; 3]) 2 7 (Some (mk_ts 10 30000000)) (timed_mq (after demo_full demo_mq)) =
      Some ((Blocks 0, Some a), s1) ∧
    Nat.iter 4 (λ o, o ≫= wd_timer (wdentry_mq 71 72 (λ _ _ _, None))) (Some s1) = Some s2 ∧
    timed s2 [] (tail timed_pool) u2 ∧ mq_inv 1 L1 {[a]} u2 ∧ boxes_same L u L1 u2 ∧
    msgqs (mdata u2) = msgqs (mdata u) ∧ wait_over (with_d (mdata u2) u) 2 u2 ETIMEDOUT ∧
    (∀ l2, lists (tsk u2) g_readytorun = 2%positive :: l2 → timed_out s2 (tail timed_pool) u2 2 1) ∧
    ∀ s3 ts3 lf3 L3 u3, timed s3 ts3 lf3 u3 → mq_inv 1 L3 {[a]} u3 → timed_out s3 lf3 u3 2 1 →
    ∃ s4 L4 u4, nxmq_timedsend_resume pending_signals 2 0 (Some 41%positive) 20 a [2; 3] 2 7 s3 =
        Some ((Returns (- ETIMEDOUT), NULL), s4) ∧
      timed s4 (tq_remove 1 ts3) (lf3 ++ [1%positive]) u4 ∧ mq_inv 1 L4 ∅ u4 ∧ boxes_same L3 u3 L4 u4 ∧
      msgqs (mdata u4) = msgqs (mdata u3) ∧ given_back u3 2 u4 0.
Proof.
  destruct (after_ok demo_full) as (L & Hs & Hi); [by_decide|]. exists L.
  assert (msgqs (mdata (after demo_full demo_lmq)) !! 20%positive = Some demo_full_msgq) as Hy
    by (vm_compute; reflexivity).
  assert (is_full L (after demo_full demo_lmq) 20 demo_full_msgq) as Hf
    by exact (count_full 1 _ L ∅ 20 _ Hi Hy (Z.le_refl 1)).
  assert (heap_msg (mdata (after demo_full demo_lmq)) (Some (35%positive, blank_msg))) as Hh
    by (apply heap_msg_new; [by_decide|done|by_decide]).
  apply (nxmq_timedsend_times_out 1 timed_pool 71 72 mq_pool_ok pending_signals (λ _ _ _, None)
    (timed_mq (after demo_full demo_mq)) (after demo_full demo_lmq) []
    1 (tail timed_pool) L 41 demo_des 20 demo_full_msgq 2 [3%positive; 1%positive]
    (demo_td 2 100 TSTATE_TASK_RUNNING 0) (Some (35%positive, blank_msg)) None (Some (mk_ts 10 0))
    (mk_ts 10 30000000) 3 [2; 3] 2 7);
    [apply timed_mq_ok, Hs|exact Hi|exact demo_full_caller|reflexivity|simpl; lia|vm_compute; reflexivity
    |reflexivity|exact Hy|reflexivity|reflexivity|exact Hf|exact Hh|by right|reflexivity|vm_compute; reflexivity
    |by vm_compute|constructor].
Defined.

(** With room in the queue a limit that has passed long ago does no harm. *)
Lemma nxmq_timedsend_immediate_witness :
  nxmq_timedsend pending_signals 71 false None None (Some (mk_ts 10 0)) (Some 41%positive) (Some [2; 3]) 2 7
    (Some (mk_ts 3 (-5))) (timed_mq demo_mq) =
  (st ← on_world (nxmq_send pending_signals false None (Some 41%positive) (Some [2; 3]) 2 7);
   mret (st, NULL)) (timed_mq demo_mq).
Proof.
  eapply (nxmq_timedsend_immediate pending_signals 71 None None (Some (mk_ts 10 0)) (Some (mk_ts 3 (-5)))
    (timed_mq demo_mq) 2 (demo_td 2 100 TSTATE_TASK_RUNNING 0) 41 demo_des 20 (demo_msgq 0) 31);
    vm_compute; reflexivity.
Defined.

(** The whole of a call that times out, evaluated: task 2 is pre-empted by nobody. *)
Example timedreceive_runs :
  ('(_, s) ← nxmq_timedreceive 72 None (Some (mk_ts 10 0)) (Some 41%positive) true 4 true
               (Some (mk_ts 10 30000000)) (timed_mq demo_mq);
   s ← Nat.iter 4 (λ o, o ≫= wd_timer (wdentry_mq 71 72 (λ _ _ _, None))) (Some s);
   fst <$> nxmq_timedreceive_resume 2 0 (Some 41%positive) 20 4 true s) = Some (Returns (- ETIMEDOUT, None)).
Proof. vm_compute. reflexivity. Qed.
