(* ===== verification/MqCases.v ===== *)
(** * MqCases: message queues in trouble

    What the code does when the heap fails a sender that was woken, when a task
    that waits is deleted, when [mq_notify] has no descriptor, and when a queue is
    created with a large limit. *)

From S2P Require Import Prelude Queue QueueRefine Wdog Sched SchedSpec SchedInv SchedOps SchedProps Semaphore SemSpec SemOps SemProps TimedWait MQueue MqSpec MqInv MqHist MqRun MqProps MqTimed MqTimedProps.
Local Open Scope Z_scope.

(** ** Deleting a task *)

Section delete.
Context `{Config} {S : Type} `{!TaskLists S}.

(** task_terminate.c, lines 119-163: the task is taken off its list, and its state
    forgotten, before [task_exithook] is called. *)
Definition terminate_unlist (pid : Z) : K (wd_state (mqsys S)) ptr :=
  dtcb ← on_world (on_sys (sched_gettcb pid));
  match dtcb with
  | Some a =>
      x ← on_task (tcb_get a);
      kassert (negb (bool_decide (task_state x = TSTATE_TASK_RUNNING)));;
      tasklist ← klift (TLIST_BLOCKED (task_state x));
      on_task (list_rem a tasklist);;
      on_task (tcb_set (set_task_state TSTATE_TASK_INVALID) a);;
      mret (Some a)
  | None => mret NULL
  end.

(** task_recover.c: what the task waits for is released. *)
Definition task_recover (tcb : addr) : K (wd_state (mqsys S)) unit :=
  t ← on_task (tcb_get tcb);
  wdog ← wd_recover (waitdog t);
  on_task (tcb_set (set_waitdog wdog) tcb);;
  on_world (on_sys (nxsem_recover tcb));;
  on_world (nxmq_recover tcb).

(** [task_terminate] as far as the call of [task_recover] in [task_exithook]. *)
Definition terminate_recover (pid : Z) : K (wd_state (mqsys S)) ptr :=
  dtcb ← terminate_unlist pid;
  match dtcb with
  | Some a => task_recover a;; mret dtcb
  | None => mret NULL
  end.
End delete.

(** ** Cases *)

#[local] Existing Instance MqProps.debug_config.
#[local] Existing Instance demo_mq_config.

Abbreviation run os := (mq_run 1 pending_signals ∅ os).

(** The counts of a queue: messages, tasks that wait for room, and for a message. *)
Definition counts (q : addr) (s : mqsys sched_s) : option (Z * Z * Z) :=
  (λ y, (nmsgs y, nwaitnotfull y, nwaitnotempty y)) <$> msgqs (mdata s) !! q.

(** A second queue, 21, with the descriptor 42. *)
Definition demo_mq2 : mqsys sched_s :=
  match open_new (Some 21%positive) demo_attr 50 (Z.lor O_RDOK O_WROK) demo_md with
  | Some (_, d) => mk_mq (msys demo_mq) d
  | None => demo_mq
  end.

(** Tasks 2 and 3 wait for room in queue 20; task 4 receives, which wakes task 2; an
    interrupt handler uses up the messages for queue 21, and the heap is empty. *)
Definition nomem_ops : list mq_op :=
  [MqSend None 41 (Some [1]) 1 0; MqSend None 41 (Some [2]) 1 0; MqSend None 41 (Some [3]) 1 0;
   MqSched (OpUnblock 4); MqReceive 41 true 4; MqIrqSend 42 (Some [8]) 1 0; MqIrqSend 42 (Some [9]) 1 0;
   MqSched (OpBlock TSTATE_WAIT_SEM); MqResume None].

(** Without the structures of the heap that [mq_no_lost_wakeup] asks for, a wake-up
    is lost: the sender that was woken fails with [ENOMEM] and wakes nobody else, so
    that task 3 waits on although the queue is empty. *)
Example wakeup_lost_without_memory :
  ('((conts, _), s) ← run nomem_ops demo_mq2; Some (map_to_list (places conts), counts 20 s)) =
    Some ([(3%positive, (NotFull, 20%positive))], Some (0, 1, 0)).
Proof. vm_compute. reflexivity. Qed.

(** Task 4 waits for a message and is deleted.  [nxmq_recover] finds it in no waiting
    state: the queue still counts a waiter, and the next sender looks for it in
    vain, which fails an assertion. *)
Definition waiting4 : option (mqsys sched_s) :=
  snd <$> run [MqSched (OpUnblock 4); MqReceive 41 true 8] demo_mq.

Definition first_waiting (k : tasklist) (s : mqsys sched_s) : ptr := dq_head (queues (ksched (msys s)) k).

Example deleted_waiter_is_counted :
  (s ← waiting4; Some (counts 20 s, first_waiting g_waitingformqnotempty s)) =
    Some (Some (0, 0, 1), Some 4%positive) ∧
  (s ← waiting4; '(_, s) ← terminate_recover 4 (timed_mq s);
   Some (counts 20 (world s), first_waiting g_waitingformqnotempty (world s))) =
    Some (Some (0, 0, 1), NULL) ∧
  (s ← waiting4; '(_, s) ← terminate_recover 4 (timed_mq s);
   nxmq_send pending_signals false None (Some 41%positive) (Some [1]) 1 0 (world s)) = None ∧
  (s ← waiting4; fst <$> nxmq_send pending_signals false None (Some 41%positive) (Some [1]) 1 0 s) =
    Some (Returns OK).
Proof. vm_compute. by split_and!. Qed.

(** Had the recovery come first, the count would be right. *)
Example recovery_first_is_right :
  (s ← waiting4; '(_, s) ← task_recover 4 (timed_mq s); '(_, s) ← terminate_unlist 4 s;
   Some (counts 20 (world s), first_waiting g_waitingformqnotempty (world s))) = Some (Some (0, 0, 0), NULL).
Proof. vm_compute. reflexivity. Qed.

(** The same with semaphores: task 4, the only one that waits for semaphore 9, is
    deleted; the count stays negative, and the next post panics. *)
Example deleted_waiter_fails_a_post :
  (λ r, sems (msys (world (snd r))) !! 9%positive) <$> terminate_recover 4 (timed_mq (mk_mq demo_sys demo_md)) =
    Some (Some (mk_sem (-1))) ∧
  ('(_, s) ← terminate_recover 4 (timed_mq (mk_mq demo_sys demo_md));
   nxsem_post (Some 9%positive) (msys (world s))) = None.
Proof. vm_compute. by split. Qed.

(** Without a descriptor [mq_notify] unlocks the scheduler, which its caller had
    locked. *)
Definition locks (s : mqsys sched_s) : option Z := lockcount ∘ td <$> tcbs (ksched (msys s)) !! 2%positive.

Example notify_drops_the_lock :
  (s ← snd <$> run [MqSched OpLock] demo_mq; '(ret, s') ← mq_notify NULL None s;
   Some (locks s, ret, locks s')) = Some (Some 1, -1, Some 0).
Proof. vm_compute. reflexivity. Qed.

(** A notification is sent for a message to a queue that is not empty. *)
Example notify_when_not_empty :
  (s ← snd <$> run [MqSend None 41 (Some [1]) 1 0] demo_mq;
   '(_, s) ← mq_notify (Some 41%positive) (Some (mk_ev SIGEV_SIGNAL 7 0)) s;
   '(_, s') ← nxmq_send pending_signals true None (Some 41%positive) (Some [2]) 1 0 s;
   Some (ntmqdes <$> msgqs (mdata s) !! 20%positive, ntmqdes <$> msgqs (mdata s') !! 20%positive)) =
    Some (Some (Some 41%positive), Some NULL).
Proof. vm_compute. reflexivity. Qed.

(** A notification that cannot be delivered, here to a task that does not exist, ends in
    the assertion of [nxmq_do_send], when there are assertions. *)
Definition send_noted `{Config} : option Z :=
  '(_, s) ← mq_notify (Some 41%positive) (Some (mk_ev SIGEV_SIGNAL 7 0))
              (mk_mq (mk_sys (ksched demo_sys) demo_sems (replicate 16 (mk_ph NULL (-1)))) demo_md);
  '(st, _) ← nxmq_send pending_signals true None (Some 41%positive) (Some [2]) 1 0 s;
  match st with Returns ret => Some ret | Blocks _ => None end.

Example notification_error_panics :
  send_noted = None ∧ send_noted (H := SchedProps.release_config) = Some OK.
Proof. vm_compute. by split. Qed.

(** A limit beyond 16 bits becomes negative: the first sender waits, for the queue is
    full while it is empty. *)
Example large_limit_blocks :
  ('(p, d) ← open_new (Some 21%positive) (mk_attr 40000 4 0 0) 50 (Z.lor O_RDOK O_WROK) demo_md;
   '(st, s) ← nxmq_send pending_signals false None p (Some [1]) 1 0 (mk_mq (msys demo_mq) d);
   Some (st, maxmsgs <$> msgqs d !! 21%positive, counts 21 s)) =
    Some (Blocks 0, Some (-25536), Some (0, 1, 0)).
Proof. vm_compute. reflexivity. Qed.
