(* ===== verification/MmHeap.v ===== *)
(** * MmHeap: the memory manager (mm/mm_heap)

    The heap is a region of memory that is divided into chunks, each with a header:
    its size and the size of the chunk before it, whose bit 31 says whether this
    chunk is allocated.  Free chunks are also on one doubly linked list, ordered by
    size, into which the array [mm_nodelist] provides entry points for the powers
    of two.

    The state is the memory itself, a map from addresses to 32-bit words; reading
    or writing outside of it is [None].  Modelled is the build for 32-bit pointers
    without [CONFIG_MM_SMALL] and with one region (the default).  The semaphore of
    the heap makes each operation atomic. *)

From S2P Require Import Prelude.
Local Open Scope Z_scope.

(** ** Data: include/nuttx/mm/mm.h *)

Definition MM_MIN_SHIFT : Z := 4.
Definition MM_MAX_SHIFT : Z := 22.
Definition MM_MIN_CHUNK : Z := Z.shiftl 1 MM_MIN_SHIFT.
Definition MM_MAX_CHUNK : Z := Z.shiftl 1 MM_MAX_SHIFT.
Definition MM_NNODES : Z := MM_MAX_SHIFT - MM_MIN_SHIFT + 1.
Definition MM_GRAN_MASK : Z := MM_MIN_CHUNK - 1.
(** The operations are those of size_t. *)
Definition MM_ALIGN_UP (a : Z) : Z := Z.land (u32 (a + MM_GRAN_MASK)) (Z.lnot MM_GRAN_MASK).
Definition MM_ALIGN_DOWN (a : Z) : Z := Z.land a (Z.lnot MM_GRAN_MASK).
Definition MM_ALLOC_BIT : Z := 2147483648.
Definition SIZEOF_MM_ALLOCNODE : Z := 8.
Definition SIZEOF_MM_FREENODE : Z := 16.

(** The fields of [struct mm_freenode_s], of which [struct mm_allocnode_s] has the
    first two, and where they are. *)
Inductive node_field := fsize | fpreceding | fflink | fblink.
#[global] Instance node_field_eq_dec : EqDecision node_field.
Proof. solve_decision. Defined.
Definition offset (f : node_field) : Z :=
  match f with fsize => 0 | fpreceding => 4 | fflink => 8 | fblink => 12 end.

(** [struct mm_heap_s] and the memory it manages; the nodes [mm_nodelist] are in
    memory too. *)
Record mm_heap_s := mk_heap {
  mm_heapsize : Z;
  mm_heapstart : Z;
  mm_heapend : Z;
  words : gmap Z Z;
}.

Definition set_words (m : gmap Z Z) (h : mm_heap_s) : mm_heap_s :=
  mk_heap (mm_heapsize h) (mm_heapstart h) (mm_heapend h) m.

(** The address 0 is NULL. *)
Definition load_word (a : Z) : K mm_heap_s Z := kget (λ h, words h !! a).
Definition store_word (a v : Z) : K mm_heap_s unit :=
  kput (λ h, _ ← words h !! a; Some (set_words (<[a := v]> (words h)) h)).
Definition get (n : Z) (f : node_field) : K mm_heap_s Z := load_word (n + offset f).
Definition put (n : Z) (f : node_field) (v : Z) : K mm_heap_s unit := store_word (n + offset f) v.
(** A bound for walks along the list. *)
Definition nwords : K mm_heap_s nat := kget (λ h, Some (size (words h))).

(** [(node->preceding & MM_ALLOC_BIT) == 0] *)
Definition is_free (n : Z) : K mm_heap_s bool :=
  p ← get n fpreceding; mret (Z.land p MM_ALLOC_BIT =? 0).

(** [n->preceding = size | (n->preceding & MM_ALLOC_BIT)] *)
Definition set_preceding (n size : Z) : K mm_heap_s unit :=
  p ← get n fpreceding; put n fpreceding (Z.lor size (Z.land p MM_ALLOC_BIT)).

(** memcpy and memset, which go upwards; all addresses here are those of words.
    [mm_realloc] copies whole words; [memset_zero] also clears the bytes that are left
    of a word (little endian). *)
Fixpoint memcpy (n : nat) (dst src : Z) : K mm_heap_s unit :=
  match n with
  | O => mret tt
  | S n => v ← load_word src; store_word dst v;; memcpy n (dst + 4) (src + 4)
  end.

Fixpoint memset_words (n : nat) (dst : Z) : K mm_heap_s unit :=
  match n with O => mret tt | S n => store_word dst 0;; memset_words n (dst + 4) end.

Definition memset_zero (dst size : Z) : K mm_heap_s unit :=
  memset_words (Z.to_nat (size / 4)) dst;;
  kwhen (negb (size mod 4 =? 0))
    (let a := dst + 4 * (size / 4) in
     v ← load_word a; store_word a (Z.land v (Z.lnot (2 ^ (8 * (size mod 4)) - 1)))).

(** mm_size2ndx.c *)
Fixpoint size2ndx_loop (fuel : nat) (size ndx : Z) : option Z :=
  if 1 <? size then
    match fuel with O => None | S fuel => size2ndx_loop fuel (Z.shiftr size 1) (ndx + 1) end
  else Some ndx.

Definition mm_size2ndx (size : Z) : option Z :=
  if MM_MAX_CHUNK <=? size then Some (MM_NNODES - 1)
  else size2ndx_loop 32 (Z.shiftr size MM_MIN_SHIFT) 0.

Section heap.
Context `{Config}.
(** The address of [heap->mm_nodelist]. *)
Context (mm_nodelist : Z).

Definition nodelist (i : Z) : Z := mm_nodelist + SIZEOF_MM_FREENODE * i.

(** mm_addfreechunk.c: the loop (lines 69-71) and the function. *)
Fixpoint addfreechunk_search (fuel : nat) (prev next size : Z) : K mm_heap_s (Z * Z) :=
  if next =? 0 then mret (prev, next)
  else
    s ← get next fsize;
    if negb (s =? 0) && (s <? size) then
      match fuel with
      | O => klift None
      | S fuel => next' ← get next fflink; addfreechunk_search fuel next next' size
      end
    else mret (prev, next).

Definition mm_addfreechunk (node : Z) : K mm_heap_s unit :=
  s ← get node fsize;
  ndx ← klift (mm_size2ndx s);
  first ← get (nodelist ndx) fflink;
  n ← nwords;
  '(prev, next) ← addfreechunk_search n (nodelist ndx) first s;
  put prev fflink node;;
  put node fblink prev;;
  put node fflink next;;
  kwhen (negb (next =? 0)) (put next fblink node).

(** "Remove the node.  There must be a predecessor, but there may not be a
    successor node." (mm_malloc.c and others) *)
Definition remove_node (node : Z) : K mm_heap_s unit :=
  b ← get node fblink;
  kassert (negb (b =? 0));;
  f ← get node fflink;
  put b fflink f;;
  f ← get node fflink;
  kwhen (negb (f =? 0)) (b ← get node fblink; put f fblink b).

(** mm_malloc.c: the search (lines 115-117) and the function. *)
Fixpoint malloc_search (fuel : nat) (node alignsize : Z) : K mm_heap_s Z :=
  if node =? 0 then mret 0
  else
    s ← get node fsize;
    if s <? alignsize then
      match fuel with
      | O => klift None
      | S fuel => next ← get node fflink; malloc_search fuel next alignsize
      end
    else mret node.

Definition mm_malloc (size : Z) : K mm_heap_s Z :=
  if size <? 1 then mret 0
  else
    let alignsize := MM_ALIGN_UP (u32 (size + SIZEOF_MM_ALLOCNODE)) in
    kassert (size <=? alignsize);;
    ndx ← klift (if MM_MAX_CHUNK <=? alignsize then Some (MM_NNODES - 1)
                 else mm_size2ndx alignsize);
    first ← get (nodelist ndx) fflink;
    n ← nwords;
    node ← malloc_search n first alignsize;
    if node =? 0 then mret 0
    else
      remove_node node;;
      s ← get node fsize;
      let remaining := u32 (s - alignsize) in
      kwhen (SIZEOF_MM_FREENODE <=? remaining)
        (s ← get node fsize;
         let next := node + s in
         let remainder := node + alignsize in
         put remainder fsize remaining;;
         put remainder fpreceding alignsize;;
         put node fsize alignsize;;
         set_preceding next remaining;;
         mm_addfreechunk remainder);;
      p ← get node fpreceding;
      put node fpreceding (Z.lor p MM_ALLOC_BIT);;
      mret (node + SIZEOF_MM_ALLOCNODE).

(** mm_free.c *)
Definition mm_free (mem : Z) : K mm_heap_s unit :=
  if mem =? 0 then mret tt
  else
    let node := mem - SIZEOF_MM_ALLOCNODE in
    p ← get node fpreceding;
    put node fpreceding (Z.land p (Z.lnot MM_ALLOC_BIT));;
    s ← get node fsize;
    let next := node + s in
    free ← is_free next;
    next ← (if (free : bool) then
              ns ← get next fsize;
              let andbeyond := next + ns in
              remove_node next;;
              s ← get node fsize;
              ns ← get next fsize;
              put node fsize (u32 (s + ns));;
              s ← get node fsize;
              set_preceding andbeyond s;;
              mret andbeyond
            else mret next);
    p ← get node fpreceding;
    let prev := node - p in
    free ← is_free prev;
    node ← (if (free : bool) then
              remove_node prev;;
              ps ← get prev fsize;
              s ← get node fsize;
              put prev fsize (u32 (ps + s));;
              ps ← get prev fsize;
              set_preceding next ps;;
              mret prev
            else mret node);
    mm_addfreechunk node.

(** mm_shrinkchunk.c *)
Definition mm_shrinkchunk (node size : Z) : K mm_heap_s unit :=
  kassert (Z.land size MM_GRAN_MASK =? 0);;
  s ← get node fsize;
  let next := node + s in
  free ← is_free next;
  let newnode := node + size in
  if (free : bool) then
    ns ← get next fsize;
    let andbeyond := next + ns in
    remove_node next;;
    ns ← get next fsize;
    s ← get node fsize;
    put newnode fsize (u32 (ns + s - size));;
    put newnode fpreceding size;;
    put node fsize size;;
    s' ← get newnode fsize;
    set_preceding andbeyond s';;
    mm_addfreechunk newnode
  else
    s ← get node fsize;
    kwhen (u32 (size + SIZEOF_MM_FREENODE) <=? s)
      (put newnode fsize (u32 (s - size));;
       put newnode fpreceding size;;
       put node fsize size;;
       s' ← get newnode fsize;
       put next fpreceding (Z.lor s' MM_ALLOC_BIT);;
       mm_addfreechunk newnode).

(** mm_realloc.c: how much to take from the neighbours (lines 149-206). *)
Definition realloc_take (nextsize prevsize needed : Z) : Z * Z :=
  let '(takeprev, takenext, needed) :=
    if (0 <? prevsize) && ((prevsize <=? nextsize) || (nextsize <? 1)) then
      if prevsize <? needed then (prevsize, u32 (needed - prevsize), 0) else (needed, 0, 0)
    else (0, 0, needed) in
  if (0 <? nextsize) && negb (needed =? 0) then
    if nextsize <? needed then (u32 (needed - nextsize), nextsize) else (0, needed)
  else (takeprev, takenext).

(** Lines 211-260: extend into the previous chunk; returns [oldnode], [oldsize] and
    [newmem].  Sizes are multiples of 4. *)
Definition realloc_extend_prev (oldmem oldnode oldsize prev next prevsize takeprev : Z)
  : K mm_heap_s (Z * Z * Z) :=
  remove_node prev;;
  let newnode := oldnode - takeprev in
  (if takeprev <? prevsize then
     ps ← get prev fsize;
     put prev fsize (u32 (ps - takeprev));;
     put newnode fsize (u32 (oldsize + takeprev));;
     ps ← get prev fsize;
     put newnode fpreceding (Z.lor ps MM_ALLOC_BIT);;
     ns ← get newnode fsize;
     set_preceding next ns;;
     mm_addfreechunk prev
   else
     ns ← get newnode fsize;
     put newnode fsize (u32 (ns + oldsize));;
     np ← get newnode fpreceding;
     put newnode fpreceding (Z.lor np MM_ALLOC_BIT);;
     ns ← get newnode fsize;
     set_preceding next ns);;
  oldsize ← get newnode fsize;
  let newmem := newnode + SIZEOF_MM_ALLOCNODE in
  memcpy (Z.to_nat ((oldsize - SIZEOF_MM_ALLOCNODE) / 4)) newmem oldmem;;
  mret (newnode, oldsize, newmem).

(** Lines 264-312: extend into the next chunk. *)
Definition realloc_extend_next (oldnode oldsize next nextsize takenext : Z) : K mm_heap_s unit :=
  let andbeyond := next + nextsize in
  remove_node next;;
  put oldnode fsize (u32 (oldsize + takenext));;
  s ← get oldnode fsize;
  let newnode := oldnode + s in
  if takenext <? nextsize then
    put newnode fsize (u32 (nextsize - takenext));;
    put newnode fpreceding s;;
    s' ← get newnode fsize;
    set_preceding andbeyond s';;
    mm_addfreechunk newnode
  else set_preceding andbeyond s.

Definition mm_realloc (oldmem size : Z) : K mm_heap_s Z :=
  if oldmem =? 0 then mm_malloc size
  else if size <? 1 then mm_free oldmem;; mret 0
  else
    let newsize := MM_ALIGN_UP (u32 (size + SIZEOF_MM_ALLOCNODE)) in
    let oldnode := oldmem - SIZEOF_MM_ALLOCNODE in
    oldsize ← get oldnode fsize;
    if newsize <=? oldsize then
      kwhen (newsize <? oldsize) (mm_shrinkchunk oldnode newsize);;
      mret oldmem
    else
      let next := oldnode + oldsize in
      free ← is_free next;
      nextsize ← (if (free : bool) then get next fsize else mret 0);
      p ← get oldnode fpreceding;
      let prev := oldnode - Z.land p (Z.lnot MM_ALLOC_BIT) in
      free ← is_free prev;
      prevsize ← (if (free : bool) then get prev fsize else mret 0);
      if newsize <=? u32 (nextsize + prevsize + oldsize) then
        let '(takeprev, takenext) := realloc_take nextsize prevsize (u32 (newsize - oldsize)) in
        '(oldnode, oldsize, newmem) ←
          (if negb (takeprev =? 0)
           then realloc_extend_prev oldmem oldnode oldsize prev next prevsize takeprev
           else mret (oldnode, oldsize, oldmem));
        kwhen (negb (takenext =? 0))
          (realloc_extend_next oldnode oldsize next nextsize takenext);;
        mret newmem
      else
        newmem ← mm_malloc size;
        kwhen (negb (newmem =? 0))
          (memcpy (Z.to_nat (oldsize / 4)) newmem oldmem;; mm_free oldmem);;
        mret newmem.

(** mm_memalign.c *)
Definition mm_memalign (alignment size : Z) : K mm_heap_s Z :=
  let mask := u32 (alignment - 1) in
  if alignment <=? MM_MIN_CHUNK then mm_malloc size
  else
    let size := MM_ALIGN_UP size in
    let allocsize := u32 (size + 2 * alignment) in
    rawchunk ← mm_malloc allocsize;
    if rawchunk =? 0 then mret 0
    else
      let node := rawchunk - SIZEOF_MM_ALLOCNODE in
      let alignedchunk := Z.land (u32 (rawchunk + mask)) (Z.lnot mask) in
      '(node, alignedchunk, allocsize) ←
        (if negb (alignedchunk =? rawchunk) then
           s ← get node fsize;
           let next := node + s in
           kassert (rawchunk + 8 <=? alignedchunk);;
           let newnode := alignedchunk - SIZEOF_MM_ALLOCNODE in
           let precedingsize := u32 (newnode - node) in
           let '(alignedchunk, newnode, precedingsize) :=
             if precedingsize <? SIZEOF_MM_FREENODE then
               let alignedchunk := u32 (alignedchunk + alignment) in
               let newnode := alignedchunk - SIZEOF_MM_ALLOCNODE in
               (alignedchunk, newnode, u32 (newnode - node))
             else (alignedchunk, newnode, precedingsize) in
           put newnode fsize (u32 (next - newnode));;
           put newnode fpreceding (Z.lor precedingsize MM_ALLOC_BIT);;
           put node fsize precedingsize;;
           p ← get node fpreceding;
           put node fpreceding (Z.land p (Z.lnot MM_ALLOC_BIT));;
           s ← get newnode fsize;
           set_preceding next s;;
           s ← get newnode fsize;
           mm_addfreechunk node;;
           mret (newnode, alignedchunk, u32 (s - SIZEOF_MM_ALLOCNODE))
         else mret (node, alignedchunk, allocsize));
      let size := MM_ALIGN_UP (u32 (size + SIZEOF_MM_ALLOCNODE)) in
      kwhen (size <? allocsize) (mm_shrinkchunk node size);;
      mret alignedchunk.

(** mm_zalloc.c, mm_calloc.c *)
Definition mm_zalloc (size : Z) : K mm_heap_s Z :=
  alloc ← mm_malloc size;
  kwhen (negb (alloc =? 0)) (memset_zero alloc size);;
  mret alloc.

Definition mm_calloc (n elem_size : Z) : K mm_heap_s Z :=
  if (0 <? n) && (0 <? elem_size) then mm_zalloc (u32 (n * elem_size)) else mret 0.

(** mm_initialize.c *)
Definition mm_addregion (heapstart heapsize : Z) : K mm_heap_s unit :=
  let heapbase := MM_ALIGN_UP heapstart in
  let heapend := MM_ALIGN_DOWN (u32 (heapstart + heapsize)) in
  let heapsize := u32 (heapend - heapbase) in
  kput (λ h, Some (mk_heap (u32 (mm_heapsize h + heapsize)) heapbase (mm_heapend h) (words h)));;
  put heapbase fsize SIZEOF_MM_ALLOCNODE;;
  put heapbase fpreceding MM_ALLOC_BIT;;
  let node := heapbase + SIZEOF_MM_ALLOCNODE in
  put node fsize (u32 (heapsize - 2 * SIZEOF_MM_ALLOCNODE));;
  put node fpreceding SIZEOF_MM_ALLOCNODE;;
  let tail := heapend - SIZEOF_MM_ALLOCNODE in
  kput (λ h, Some (mk_heap (mm_heapsize h) (mm_heapstart h) tail (words h)));;
  put tail fsize SIZEOF_MM_ALLOCNODE;;
  s ← get node fsize;
  put tail fpreceding (Z.lor s MM_ALLOC_BIT);;
  mm_addfreechunk node.

(** The loop of [mm_initialize] that links the array of nodes, from [i] on. *)
Fixpoint nodelist_link (n : nat) (i : Z) : K mm_heap_s unit :=
  match n with
  | O => mret tt
  | S n =>
      put (nodelist (i - 1)) fflink (nodelist i);;
      put (nodelist i) fblink (nodelist (i - 1));;
      nodelist_link n (i + 1)
  end.

Definition mm_initialize (heapstart heapsize : Z) : K mm_heap_s unit :=
  kput (λ h, Some (mk_heap 0 (mm_heapstart h) (mm_heapend h) (words h)));;
  memset_words (Z.to_nat (4 * MM_NNODES)) mm_nodelist;;
  nodelist_link (Z.to_nat (MM_NNODES - 1)) 1;;
  mm_addregion heapstart heapsize.

(** mm_extend.c; region 0 is the only one. *)
Definition MIN_EXTEND : Z := 2 * SIZEOF_MM_ALLOCNODE.

Definition mm_extend (mem size region : Z) : K mm_heap_s unit :=
  kassert (negb (mem =? 0));;
  kassert ((MIN_EXTEND <=? size) && (region =? 0));;
  let blockstart := mem in
  let blockend := u32 (blockstart + size) in
  kassert (MM_ALIGN_UP blockstart =? blockstart);;
  kassert (MM_ALIGN_DOWN blockend =? blockend);;
  oldnode ← kget (λ h, Some (mm_heapend h));
  kassert (oldnode + SIZEOF_MM_ALLOCNODE =? mem);;
  put oldnode fsize size;;
  p ← get oldnode fpreceding;
  kassert (negb (Z.land p MM_ALLOC_BIT =? 0));;
  let newnode := blockend - SIZEOF_MM_ALLOCNODE in
  put newnode fsize SIZEOF_MM_ALLOCNODE;;
  s ← get oldnode fsize;
  put newnode fpreceding (Z.lor s MM_ALLOC_BIT);;
  kput (λ h, Some (mk_heap (mm_heapsize h) (mm_heapstart h) newnode (words h)));;
  mm_free mem.

(** mm_mallinfo.c: the walk over the chunks and [struct mallinfo], whose fields are
    ints; while it counts, the totals are of type size_t. *)
Record mallinfo := mk_mallinfo {
  arena : Z; ordblks : Z; mxordblk : Z; uordblks : Z; fordblks : Z;
}.

Fixpoint mallinfo_walk (fuel : nat) (node heapend : Z) (i : mallinfo) : K mm_heap_s (Z * mallinfo) :=
  if node <? heapend then
    match fuel with
    | O => klift None
    | S fuel =>
        p ← get node fpreceding;
        s ← get node fsize;
        mallinfo_walk fuel (node + s) heapend
          (if negb (Z.land p MM_ALLOC_BIT =? 0)
           then mk_mallinfo (arena i) (ordblks i) (mxordblk i) (u32 (uordblks i + s)) (fordblks i)
           else mk_mallinfo (arena i) (ordblks i + 1) (if mxordblk i <? s then s else mxordblk i)
                  (uordblks i) (u32 (fordblks i + s)))
    end
  else mret (node, i).

Definition mm_mallinfo : K mm_heap_s mallinfo :=
  start ← kget (λ h, Some (mm_heapstart h));
  heapend ← kget (λ h, Some (mm_heapend h));
  n ← nwords;
  '(node, i) ← mallinfo_walk n start heapend (mk_mallinfo 0 0 0 0 0);
  kassert (node =? heapend);;
  let uordblks := u32 (uordblks i + SIZEOF_MM_ALLOCNODE) in
  heapsize ← kget (λ h, Some (mm_heapsize h));
  kassert (u32 (uordblks + fordblks i) =? heapsize);;
  mret (mk_mallinfo (s32 heapsize) (ordblks i) (s32 (mxordblk i)) (s32 uordblks) (s32 (fordblks i))).

(** mm_heapmember.c, mm_brkaddr.c *)
Definition mm_heapmember (mem : Z) (h : mm_heap_s) : bool :=
  (mm_heapstart h <? mem) && (mem <? mm_heapend h).

Definition mm_brkaddr (region : Z) : K mm_heap_s Z :=
  kassert (region =? 0);;
  brkaddr ← kget (λ h, Some (mm_heapend h));
  mret (if negb (brkaddr =? 0) then brkaddr + SIZEOF_MM_ALLOCNODE else 0).
End heap.
