(* ===== verification/MmHeapSpec.v ===== *)
(** * MmHeapSpec: the heap as a list of chunks

    Abstractly the region is a list [cs] of chunks (size, allocated?), the guards at
    both ends included, and the free list is a list [L] of nodes (address, size) in
    the order of the links, those of [mm_nodelist] included with size 0.
    [heap_ok] relates them to the words in memory.  The list operations write link
    words only and the rest of the code header words only, so that the two halves
    of the invariant can be treated one at a time. *)

From stdpp Require Import sorting.
From S2P Require Import Prelude MmHeap.
Local Open Scope Z_scope.

Abbreviation chunk := (Z * bool)%type.
Abbreviation node := (Z * Z)%type.

#[global] Arguments offset : simpl never.

(** ** Words *)

Section run.
Implicit Types (h : mm_heap_s).

Lemma get_Some h n f v : words h !! (n + offset f) = Some v → get n f h = Some (v, h).
Proof. intros Hv. unfold get, load_word, kget. by rewrite Hv. Qed.

Lemma put_Some h n f v :
  is_Some (words h !! (n + offset f)) →
  put n f v h = Some (tt, set_words (<[n + offset f := v]> (words h)) h).
Proof. intros [x Hx]. unfold put, store_word, kput. by rewrite Hx. Qed.

Lemma kassert_step `{Config} b A (k : K mm_heap_s A) h : b = true → (kassert b;; k) h = k h.
Proof.
  intros Hb. erewrite K_bind_Some; [done|]. unfold kassert, klift. by rewrite DEBUGASSERT_true.
Qed.
End run.

(** ** Arithmetic of headers *)

(** The word [preceding] of a chunk behind one of size [p]. *)
Definition prec (p : Z) (b : bool) : Z := if b then p + MM_ALLOC_BIT else p.

Section prec.
Context (p : Z) (Hp : 0 ≤ p < 2147483648).

Lemma bit31 i : Z.testbit p i && Z.testbit MM_ALLOC_BIT i = false.
Proof.
  destruct (decide (i < 0)); [by rewrite Z.testbit_neg_r|].
  change MM_ALLOC_BIT with (2 ^ 31). rewrite Z.pow2_bits_eqb by lia.
  destruct (Z.eqb_spec 31 i) as [<-|]; [|by rewrite andb_false_r].
  by rewrite (proj2 (Z.testbit_false p 31 ltac:(lia))) by (by rewrite Z.div_small by lia).
Qed.

Lemma land_alloc : Z.land p MM_ALLOC_BIT = 0.
Proof. apply Z.bits_inj'. intros i Hi. by rewrite Z.land_spec, Z.bits_0, bit31. Qed.

Lemma lor_alloc : Z.lor p MM_ALLOC_BIT = prec p true.
Proof. pose proof (Z.add_lor_land p MM_ALLOC_BIT) as Ha. rewrite land_alloc in Ha. simpl. lia. Qed.

Lemma land_prec b : Z.land (prec p b) MM_ALLOC_BIT = if b then MM_ALLOC_BIT else 0.
Proof.
  destruct b; [|apply land_alloc]. rewrite <- lor_alloc, Z.land_lor_distr_l, land_alloc. done.
Qed.

Lemma clear_prec b : Z.land (prec p b) (Z.lnot MM_ALLOC_BIT) = p.
Proof.
  assert (Z.land p (Z.lnot MM_ALLOC_BIT) = p) as Hc.
  { apply Z.bits_inj'. intros i Hi. rewrite Z.land_spec, Z.lnot_spec by done.
    pose proof (bit31 i). by destruct (Z.testbit p i), (Z.testbit MM_ALLOC_BIT i). }
  destruct b; [|done]. rewrite <- lor_alloc, Z.land_lor_distr_l, Hc. apply Z.lor_0_r.
Qed.

End prec.

Lemma lor_prec p q b :
  0 ≤ p < 2147483648 → 0 ≤ q < 2147483648 →
  Z.lor p (Z.land (prec q b) MM_ALLOC_BIT) = prec p b.
Proof.
  intros Hp Hq. rewrite (land_prec q Hq). destruct b; [by apply lor_alloc|apply Z.lor_0_r].
Qed.

(** ** The geometry of a heap *)

(** The region from [base] to [lim] and the array [nl] of list nodes, which is part
    of [struct mm_heap_s], not its first field, and not in the region. *)
Record geometry (nl base lim : Z) : Prop := {
  geo_base : 0 < base ∧ base mod 16 = 0;
  geo_lim : lim mod 16 = 0 ∧ lim ≤ 4294967296;
  geo_size : base + 32 ≤ lim < base + 2147483648;
  geo_nl : 0 < nl ∧ nl mod 4 = 0 ∧ (nl + 304 ≤ base ∨ lim + 8 ≤ nl);
}.

Section spec.
Context `{Config} (nl base lim : Z).
Implicit Types (h : mm_heap_s) (m : gmap Z Z) (cs : list chunk) (L : list node).

(** The nodes that have room for links. *)
Definition cell (n : Z) : Prop :=
  (n mod 16 = 8 ∧ base + 8 ≤ n ∧ n + 16 ≤ lim) ∨ (∃ i, 0 ≤ i < 19 ∧ n = nl + 16 * i).

Lemma cell_sep n n' :
  geometry nl base lim → cell n → cell n' → n ≠ n' → n + 16 ≤ n' ∨ n' + 16 ≤ n.
Proof.
  intros [Hb Hl Hs Hn] [Hc|(i & Hi & ->)] [Hc'|(i' & Hi' & ->)] Hne; [|lia..].
  Z.div_mod_to_equations. lia.
Qed.

Lemma cell_pos n : geometry nl base lim → cell n → 0 < n.
Proof. intros [Hb Hl Hs Hn] [Hc|(i & Hi & ->)]; lia. Qed.

(** ** Linked nodes *)

Definition first_or (z : Z) L : Z := match L with [] => z | (n, _) :: _ => n end.
Definition last_or (z : Z) L : Z := match last L with None => z | Some (n, _) => n end.

(** The nodes [L], linked between [prev] and [next]. *)
Fixpoint seg m (prev : Z) L (next : Z) : Prop :=
  match L with
  | [] => True
  | (n, _) :: L =>
      m !! (n + offset fblink) = Some prev ∧ m !! (n + offset fflink) = Some (first_or next L) ∧
      seg m n L next
  end.

Lemma first_or_app z L1 L2 : first_or z (L1 ++ L2) = first_or (first_or z L2) L1.
Proof. by destruct L1 as [|[]]. Qed.

Lemma last_node_app z L1 L2 : last_or z (L1 ++ L2) = last_or (last_or z L1) L2.
Proof. unfold last_or. rewrite last_app. by destruct (last L2). Qed.

Lemma last_or_cons z n s L : last_or z ((n, s) :: L) = last_or n L.
Proof. unfold last_or. rewrite last_cons. by destruct (last L). Qed.

Lemma seg_app m p L1 L2 q :
  seg m p (L1 ++ L2) q ↔ seg m p L1 (first_or q L2) ∧ seg m (last_or p L1) L2 q.
Proof.
  revert p. induction L1 as [|[n s] L1 IH]; intros p; simpl; [naive_solver|].
  rewrite IH, first_or_app, last_or_cons. naive_solver.
Qed.

Lemma seg_frame m m' p L q :
  (∀ n f, n ∈ L.*1 → f = fflink ∨ f = fblink → m' !! (n + offset f) = m !! (n + offset f)) →
  seg m p L q → seg m' p L q.
Proof.
  revert p. induction L as [|[n s] L IH]; intros p Hm; csimpl; [done|].
  intros (Hb & Hf & Hs). rewrite !Hm by (set_solver || by auto). split; [done|]. split; [done|].
  apply IH; [|done]. intros. apply Hm; [set_solver|done].
Qed.

Hypothesis geo : geometry nl base lim.

Lemma cell_inj n n' f f' : cell n → cell n' → n + offset f = n' + offset f' → n = n' ∧ f = f'.
Proof.
  intros Hn Hn' Heq. assert (0 ≤ offset f < 16 ∧ 0 ≤ offset f' < 16) by (by destruct f, f').
  destruct (decide (n = n')) as [->|Hne]; [|pose proof (cell_sep n n' geo Hn Hn' Hne); lia].
  split; [done|]. assert (offset f = offset f') by lia. by destruct f, f'.
Qed.

(** Only link words of [L] have changed. *)
Definition links_only L m m' : Prop :=
  dom m' = dom m ∧
  ∀ w, (∀ n f, n ∈ L.*1 → f = fflink ∨ f = fblink → w ≠ n + offset f) → m' !! w = m !! w.

Lemma links_only_insert L m m' n f v :
  links_only L m m' → n ∈ L.*1 → f = fflink ∨ f = fblink → is_Some (m !! (n + offset f)) →
  links_only L m (<[n + offset f := v]> m').
Proof.
  intros [Hd Hw] Hn Hf Hs. split.
  - rewrite dom_insert_lookup_L; [done|]. by rewrite <- elem_of_dom, Hd, elem_of_dom.
  - intros w Hne. rewrite lookup_insert_ne by (intros <-; by eapply Hne). by apply Hw.
Qed.

Lemma links_only_refl L m : links_only L m m.
Proof. by split. Qed.

Lemma seg_insert m p L q n f v :
  seg m p L q → Forall cell L.*1 → cell n → n ∉ L.*1 ∨ f = fsize ∨ f = fpreceding →
  seg (<[n + offset f := v]> m) p L q.
Proof.
  intros Hs Hc Hn Hor. eapply seg_frame; [|exact Hs]. intros n' f' Hn' Hf'.
  apply lookup_insert_ne. intros Heq. rewrite Forall_forall in Hc.
  apply cell_inj in Heq as [-> ->]; [|done|by apply Hc]. destruct Hor; [done|]. naive_solver.
Qed.

Lemma seg_first m p n s L q :
  seg m p ((n, s) :: L) q → Forall cell (n :: L.*1) → n ∉ L.*1 →
  ∀ v, seg (<[n + offset fblink := v]> m) v ((n, s) :: L) q.
Proof.
  intros (Hb & Hf & Hs) [Hn Hc]%Forall_cons Hni v. split; [by rewrite lookup_insert_eq|].
  split; [|by apply seg_insert; [..|left]].
  rewrite lookup_insert_ne; [done|]. intros [_ [=]]%cell_inj; done.
Qed.

Lemma seg_last m p n s L q :
  seg m p (L ++ [(n, s)]) q → Forall cell (L.*1 ++ [n]) → n ∉ L.*1 →
  ∀ v, seg (<[n + offset fflink := v]> m) p (L ++ [(n, s)]) v.
Proof.
  intros Hs Hc Hni v. apply seg_app in Hs as [Hs1 (Hb & Hf & _)].
  apply Forall_app in Hc as [Hc [Hn _]%Forall_cons]. apply seg_app. csimpl.
  split; [by apply seg_insert; [..|left]|]. split; [|by rewrite lookup_insert_eq].
  rewrite lookup_insert_ne; [done|]. intros [_ [=]]%cell_inj; done.
Qed.

(** The surroundings of a node [n] between [x] and [L2]. *)
Record around L1 (x sx n s : Z) L2 : Prop := {
  ar_last : last_or 0 (L1 ++ [(x, sx)]) = x;
  ar_cells : Forall cell (L1.*1 ++ [x]) ∧ cell x ∧ cell n ∧ Forall cell L2.*1;
  ar_x : (x ∉ L1.*1) ∧ n ≠ x ∧ x ∉ L2.*1;
  ar_n : (n ∉ L1.*1 ++ [x]) ∧ n ∉ L2.*1;
  ar_next : match L2 with
            | [] => True
            | (z, _) :: L2' => cell z ∧ Forall cell L2'.*1 ∧ (z ∉ L1.*1 ++ [x]) ∧ z ≠ n ∧ z ∉ L2'.*1
            end;
}.

Lemma around_ok L1 x sx n s L2 :
  Forall cell ((L1 ++ [(x, sx)]) ++ (n, s) :: L2).*1 →
  NoDup ((L1 ++ [(x, sx)]) ++ (n, s) :: L2).*1 → around L1 x sx n s L2.
Proof.
  rewrite !fmap_app. csimpl. intros [Hc1 [Hn Hc2]%Forall_cons]%Forall_app.
  intros (Hnd1 & Hd & [Hn2 Hnd2]%NoDup_cons)%NoDup_app.
  assert (∀ z, z ∈ L1.*1 ++ [x] → z ≠ n ∧ z ∉ L2.*1) as Hd'.
  { intros z Hz. by apply not_elem_of_cons, Hd. }
  assert (x ∈ L1.*1 ++ [x]) as Hx by (apply elem_of_app; right; left).
  destruct (Hd' x Hx) as [Hxn Hx2]. apply NoDup_app in Hnd1 as (_ & Hdx & _).
  split; [by rewrite last_node_app| | | |].
  - split; [done|]. split; [by apply Forall_app in Hc1 as [_ [? _]%Forall_cons]|done].
  - split; [|done]. intros Hin. apply (Hdx x Hin). left.
  - split; [|done]. intros Hin. by destruct (Hd' n Hin).
  - destruct L2 as [|[z sz] L2]; [done|]. csimpl in *. apply Forall_cons in Hc2 as [? ?].
    apply not_elem_of_cons in Hn2 as [? _]. apply NoDup_cons in Hnd2 as [? _].
    split_and!; [done|done| |done|done]. intros Hin. destruct (Hd' z Hin) as [_ []]. left.
Qed.

Lemma remove_node_ok h L1 x sx n s L2 :
  let L := L1 ++ [(x, sx)] in
  seg (words h) 0 (L ++ (n, s) :: L2) 0 → Forall cell (L ++ (n, s) :: L2).*1 →
  NoDup (L ++ (n, s) :: L2).*1 →
  ∃ m', remove_node n h = Some (tt, set_words m' h) ∧ seg m' 0 (L ++ L2) 0 ∧
        links_only (L ++ L2) (words h) m'.
Proof.
  intros L Hs Hc Hnd. apply seg_app in Hs as [Hs1 (Hb & Hf & Hs2)]. simpl in Hs1.
  destruct (around_ok L1 x sx n s L2 Hc Hnd)
    as [Hlast (Hc1 & Hcx & Hcn & Hc2) (Hx1 & Hnx & Hx2) _ Hz]. clear Hc Hnd.
  fold L in Hlast. rewrite Hlast in Hb.
  assert (is_Some (words h !! (x + offset fflink))) as Hxs.
  { apply seg_app in Hs1 as [_ (_ & Hx & _)]. by eexists. }
  unfold remove_node. erewrite K_bind_Some by (by apply get_Some).
  erewrite K_bind_Some; last first.
  { unfold kassert, klift. rewrite DEBUGASSERT_true; [reflexivity|].
    apply negb_true_iff, Z.eqb_neq. pose proof (cell_pos x geo Hcx). lia. }
  erewrite K_bind_Some by (by apply get_Some). erewrite K_bind_Some by (by apply put_Some).
  set (y := first_or 0 L2). set (m1 := <[x + offset fflink := y]> (words h)).
  assert (seg m1 0 L y) as Hs1' by (by apply (seg_last _ _ _ _ _ n)).
  assert (seg m1 n L2 0) as Hs2' by (by apply seg_insert; [..|left]).
  assert (x ∈ (L ++ L2).*1) as HxL by (unfold L; rewrite !fmap_app; set_solver).
  assert (links_only (L ++ L2) (words h) m1) as Hl1.
  { apply links_only_insert; [apply links_only_refl|done|by left|done]. }
  assert (∀ f v, words h !! (n + offset f) = Some v → m1 !! (n + offset f) = Some v) as Hn1.
  { intros f v Hv. unfold m1. rewrite lookup_insert_ne; [done|]. intros [? _]%cell_inj; by auto. }
  erewrite K_bind_Some by (apply get_Some, Hn1, Hf). fold y.
  destruct L2 as [|[z sz] L2].
  { simpl. exists m1. rewrite app_nil_r in *. by split. }
  destruct Hz as (Hcz & Hc2' & HzL & _ & Hz2).
  rewrite (proj2 (Z.eqb_neq y 0)) by (unfold y; simpl; pose proof (cell_pos z geo Hcz); lia).
  cbn [negb kwhen]. erewrite K_bind_Some by (apply get_Some, Hn1, Hb).
  pose proof Hs2' as (Hzb & Hzf & _).
  rewrite put_Some by (by eexists). exists (<[z + offset fblink := x]> m1). split; [done|]. split.
  - apply seg_app. simpl. rewrite Hlast. split.
    + unfold L. apply seg_insert; [done|by rewrite fmap_app|done|]. left. by rewrite fmap_app.
    + by apply (seg_first m1 n z sz L2 0); [|constructor|].
  - apply links_only_insert; [done|rewrite fmap_app; set_solver|by right|].
    rewrite <- elem_of_dom, <- (proj1 Hl1), elem_of_dom. by eexists.
Qed.

(** The nodes of [L] have their sizes in memory. *)
Definition sized m L : Prop := Forall (λ e, m !! (e.1 + offset fsize) = Some e.2) L.

(** Where [mm_addfreechunk] stops. *)
Definition stops (size : Z) L : Prop :=
  match L with [] => True | e :: _ => e.2 = 0 ∨ size ≤ e.2 end.

Lemma addfreechunk_search_ok fuel h prev L size :
  seg (words h) prev L 0 → Forall cell L.*1 → sized (words h) L → (length L ≤ fuel)%nat →
  ∃ L1 L2, L = L1 ++ L2 ∧ Forall (λ e, e.2 ≠ 0 ∧ e.2 < size) L1 ∧ stops size L2 ∧
    addfreechunk_search fuel prev (first_or 0 L) size h =
      Some ((last_or prev L1, first_or 0 L2), h).
Proof.
  revert fuel prev. induction L as [|[n s] L IH]; intros fuel prev Hs Hc Hz Hf.
  { exists [], []. by destruct fuel. }
  csimpl in Hc. apply Forall_cons in Hc as [Hn Hc]. apply Forall_cons in Hz as [Hsz Hz].
  destruct Hs as (Hb & Hfl & Hs). simpl in Hsz. pose proof (cell_pos n geo Hn) as Hpos.
  destruct (decide (s ≠ 0 ∧ s < size)) as [[Hs0 Hlt]|Hstop].
  - destruct fuel as [|fuel]; simpl in Hf; [lia|].
    destruct (IH fuel n Hs Hc Hz) as (L1 & L2 & -> & Hall & Hst & Hrun); [lia|].
    exists ((n, s) :: L1), L2. split; [done|]. split; [by constructor|]. split; [done|].
    simpl. rewrite (proj2 (Z.eqb_neq n 0)) by lia. erewrite K_bind_Some by (by apply get_Some).
    rewrite (proj2 (Z.eqb_neq s 0) Hs0), (proj2 (Z.ltb_lt s size) Hlt). cbn [negb andb].
    erewrite K_bind_Some by (by apply get_Some). by rewrite Hrun, last_or_cons.
  - exists [], ((n, s) :: L). split; [done|]. split; [done|]. split; [simpl; lia|].
    assert (negb (s =? 0) && (s <? size) = false) as Hb'.
    { destruct (Z.eqb_spec s 0), (Z.ltb_spec s size); simpl; done || lia. }
    destruct fuel; simpl; rewrite (proj2 (Z.eqb_neq n 0)) by lia;
      (erewrite K_bind_Some by (by apply get_Some)); by rewrite Hb'.
Qed.

(** Linking a node in behind [x]. *)
Definition link_node (prev next n : Z) : K mm_heap_s unit :=
  put prev fflink n;; put n fblink prev;; put n fflink next;;
  kwhen (negb (next =? 0)) (put next fblink n).

Lemma link_node_ok h L1 x sx n s L2 :
  let L := L1 ++ [(x, sx)] in
  seg (words h) 0 (L ++ L2) 0 → Forall cell (L ++ (n, s) :: L2).*1 →
  NoDup (L ++ (n, s) :: L2).*1 →
  is_Some (words h !! (n + offset fflink)) → is_Some (words h !! (n + offset fblink)) →
  ∃ m', link_node x (first_or 0 L2) n h = Some (tt, set_words m' h) ∧
        seg m' 0 (L ++ (n, s) :: L2) 0 ∧ links_only (L ++ (n, s) :: L2) (words h) m'.
Proof.
  intros L Hs Hc Hnd Hf Hb. apply seg_app in Hs as [Hs1 Hs2].
  destruct (around_ok L1 x sx n s L2 Hc Hnd)
    as [Hlast (Hc1 & Hcx & Hcn & Hc2) (Hx1 & Hnx & Hx2) (HnL & Hn2) Hz]. clear Hc Hnd.
  fold L in Hlast. rewrite Hlast in Hs2.
  assert (Forall cell L.*1 ∧ n ∉ L.*1) as [HcL HnL'] by (unfold L; by rewrite fmap_app).
  assert (x ∈ (L ++ (n, s) :: L2).*1 ∧ n ∈ (L ++ (n, s) :: L2).*1) as [HxM HnM].
  { unfold L. rewrite !fmap_app. split; set_solver. }
  set (y := first_or 0 L2) in *.
  set (m1 := <[x + offset fflink := n]> (words h)).
  set (m2 := <[n + offset fblink := x]> m1). set (m3 := <[n + offset fflink := y]> m2).
  assert (is_Some (words h !! (x + offset fflink))) as Hxs.
  { apply seg_app in Hs1 as [_ (_ & Hx & _)]. by eexists. }
  assert (links_only (L ++ (n, s) :: L2) (words h) m3) as Hl3.
  { unfold m3, m2, m1. repeat (apply links_only_insert; [|done|by auto|done]).
    apply links_only_refl. }
  assert (m3 !! (n + offset fblink) = Some x) as Hn3.
  { unfold m3. rewrite lookup_insert_ne by (by intros [_ [=]]%cell_inj).
    apply lookup_insert_eq. }
  assert (seg m3 0 L n) as Hs3.
  { unfold m3, m2. do 2 (apply seg_insert; [|done|done|by left]). by apply (seg_last _ _ _ _ _ y). }
  assert (seg m3 x L2 0) as Hs4.
  { unfold m3, m2, m1. by do 3 (apply seg_insert; [|done|done|by left]). }
  assert (link_node x y n h =
    kwhen (negb (y =? 0)) (put y fblink n) (set_words m3 h)) as ->.
  { unfold link_node. erewrite K_bind_Some by (by apply put_Some).
    erewrite K_bind_Some; last (apply put_Some; simpl; apply lookup_insert_is_Some'; by right).
    erewrite K_bind_Some; last (apply put_Some; simpl; do 2 (apply lookup_insert_is_Some'; right); done).
    done. }
  destruct L2 as [|[z sz] L2].
  { simpl. exists m3. split; [done|]. split; [|done]. apply seg_app. simpl. rewrite Hlast.
    split; [done|]. split; [done|]. split; [apply lookup_insert_eq|done]. }
  destruct Hz as (Hcz & Hc2' & HzL & Hzn & Hz2).
  change y with z. rewrite (proj2 (Z.eqb_neq z 0)) by (pose proof (cell_pos z geo Hcz); lia).
  cbn [negb kwhen]. pose proof Hs4 as (Hzb & _).
  rewrite put_Some by (by eexists). exists (<[z + offset fblink := n]> m3). split; [done|]. split.
  - apply seg_app. simpl. rewrite Hlast. split.
    + apply seg_insert; [done|done|done|]. left. unfold L. by rewrite fmap_app.
    + split; [rewrite lookup_insert_ne; [done|by intros [? _]%cell_inj]|].
      split; [|by apply (seg_first m3 x z sz L2 0); [|constructor|]].
      rewrite lookup_insert_ne; [apply lookup_insert_eq|by intros [? _]%cell_inj].
  - apply links_only_insert; [done|rewrite fmap_app; set_solver|by right|].
    rewrite <- elem_of_dom, <- (proj1 Hl3), elem_of_dom. by eexists.
Qed.

(** ** The buckets *)

Lemma size2ndx_loop_ok fuel z ndx :
  1 ≤ z < 2 ^ (Z.of_nat fuel + 1) → size2ndx_loop fuel z ndx = Some (ndx + Z.log2 z).
Proof.
  revert z ndx. induction fuel as [|fuel IH]; intros z ndx Hz; cbn [size2ndx_loop].
  { assert (z = 1) as -> by lia. cbn. f_equal. lia. }
  destruct (Z.ltb_spec 1 z) as [Hlt|]; [|assert (z = 1) as -> by lia; cbn; f_equal; lia].
  replace (Z.of_nat (S fuel) + 1) with (Z.succ (Z.of_nat fuel + 1)) in Hz by lia.
  rewrite Z.pow_succ_r in Hz by lia.
  assert (1 ≤ Z.shiftr z 1 < 2 ^ (Z.of_nat fuel + 1)) as Hs.
  { rewrite Z.shiftr_div_pow2 by lia. change (2 ^ 1) with 2. Z.div_mod_to_equations. lia. }
  rewrite IH by done. f_equal. rewrite Z.log2_shiftr by lia.
  pose proof (Z.log2_le_mono 2 z ltac:(lia)) as Hl. change (Z.log2 2) with 1 in Hl. lia.
Qed.

Lemma size2ndx_ok s :
  16 ≤ s → ∃ i, mm_size2ndx s = Some i ∧ 0 ≤ i < 19 ∧ 16 * 2 ^ i ≤ s ∧
                (i < 18 → s < 16 * 2 ^ (i + 1)).
Proof.
  intros Hs. unfold mm_size2ndx, MM_NNODES, MM_MIN_SHIFT. change MM_MAX_CHUNK with (2 ^ 22).
  destruct (Z.leb_spec (2 ^ 22) s) as [Hbig|Hsmall].
  { exists 18. split; [done|]. split; [lia|]. split; [exact Hbig|lia]. }
  assert (4 ≤ Z.log2 s < 22) as Hl.
  { split; [|apply Z.log2_lt_pow2; lia]. by apply (Z.log2_le_mono 16). }
  rewrite size2ndx_loop_ok; last first.
  { rewrite Z.shiftr_div_pow2 by lia. change (2 ^ 4) with 16. change (Z.of_nat 32 + 1) with 33.
    change (2 ^ 33) with 8589934592. change (2 ^ 22) with 4194304 in Hsmall.
    Z.div_mod_to_equations. lia. }
  eexists. split; [done|]. rewrite Z.log2_shiftr, Z.max_r by lia.
  pose proof (Z.log2_spec s ltac:(lia)) as Hspec. change 16 with (2 ^ 4).
  rewrite <- !Z.pow_add_r by lia. replace (4 + (0 + (Z.log2 s - 4))) with (Z.log2 s) by lia.
  replace (4 + (0 + (Z.log2 s - 4) + 1)) with (Z.succ (Z.log2 s)) by lia. lia.
Qed.

(** The nodes of [mm_nodelist]. *)
Definition sents : list node := (λ i, (nl + 16 * i, 0)) <$> seqZ 0 19.

(** The place of a node in the order: a node of the array comes before the sizes of
    its bucket. *)
Definition key (e : node) : Z := if e.2 =? 0 then 32 * 2 ^ ((e.1 - nl) / 16) - 1 else 2 * e.2.

Definition rcell (n : Z) : Prop := n mod 16 = 8 ∧ base + 8 ≤ n ∧ n + 16 ≤ lim.

(** The list [L] holds the free nodes [F]. *)
Record flist m L (F : list node) : Prop := {
  fl_seg : seg m 0 L 0;
  fl_perm : L ≡ₚ sents ++ F;
  fl_sorted : StronglySorted (λ e e', key e ≤ key e') L;
  fl_sized : sized m L;
  fl_nodup : NoDup F.*1;
  fl_nodes : Forall (λ e, rcell e.1 ∧ 16 ≤ e.2) F;
}.

Lemma elem_of_sents e : e ∈ sents ↔ ∃ i, 0 ≤ i < 19 ∧ e = (nl + 16 * i, 0).
Proof. unfold sents. rewrite list_elem_of_fmap. setoid_rewrite elem_of_seqZ. naive_solver. Qed.

Lemma key_sent i : 0 ≤ i → key (nl + 16 * i, 0) = 32 * 2 ^ i - 1.
Proof. intros Hi. unfold key. simpl. do 3 f_equal. Z.div_mod_to_equations. lia. Qed.

Lemma key_node n s : 16 ≤ s → key (n, s) = 2 * s.
Proof. intros Hs. unfold key. simpl. by rewrite (proj2 (Z.eqb_neq s 0)) by lia. Qed.

Lemma flist_cells m L F : flist m L F → Forall cell L.*1 ∧ NoDup L.*1.
Proof.
  intros [_ Hp _ _ Hnd Hn]. rewrite Hp, fmap_app. split.
  - apply Forall_app. split; apply Forall_fmap, Forall_forall.
    + intros e (i & Hi & ->)%elem_of_sents. right. by exists i.
    + intros e He. rewrite Forall_forall in Hn. left. by apply Hn.
  - apply NoDup_app. split; [|split; [|done]].
    + unfold sents. rewrite <- list_fmap_compose. apply NoDup_fmap_2_strong; [|apply NoDup_seqZ].
      simpl. intros; lia.
    + intros n ([? ?] & -> & (i & Hi & [= -> ->])%elem_of_sents)%list_elem_of_fmap.
      intros ([? ?] & Heq & He)%list_elem_of_fmap. simpl in Heq. subst.
      rewrite Forall_forall in Hn. destruct (Hn _ He) as [(Hr & Hr1 & Hr2) _]. simpl in *.
      destruct geo. lia.
Qed.

Lemma links_only_size L m m' n :
  links_only L m m' → Forall cell L.*1 → cell n →
  m' !! (n + offset fsize) = m !! (n + offset fsize).
Proof.
  intros [_ Hw] Hc Hn. apply Hw. intros n' f Hn' Hf Heq. rewrite Forall_forall in Hc.
  apply cell_inj in Heq as [_ <-]; [by destruct Hf|done|by apply Hc].
Qed.

Lemma links_only_sized L m m' L' :
  links_only L m m' → Forall cell L.*1 → Forall cell L'.*1 → sized m L' → sized m' L'.
Proof.
  intros Hl Hc Hc' Hz. unfold sized in *. rewrite Forall_forall in Hz |- *. intros e He.
  erewrite links_only_size; [by apply Hz|done|done|].
  rewrite Forall_fmap, Forall_forall in Hc'. by apply (Hc' e).
Qed.

(** The first node is that of the smallest bucket. *)
Lemma flist_behind m L F L1 n s L2 :
  flist m L F → L = L1 ++ (n, s) :: L2 → 16 ≤ s → ∃ L1' x sx, L1 = L1' ++ [(x, sx)].
Proof.
  intros Hfl -> Hs. destruct L1 as [|[x sx] L1' _] using rev_ind; [|eauto].
  assert ((nl, 0) ∈ (n, s) :: L2) as Hin.
  { change ((n, s) :: L2) with ([] ++ (n, s) :: L2). rewrite (fl_perm _ _ _ Hfl). apply elem_of_app.
    left. apply elem_of_sents. exists 0. split; [lia|]. f_equal. lia. }
  pose proof (fl_sorted _ _ _ Hfl) as Hsort. simpl in Hsort.
  apply StronglySorted_cons in Hsort as [Hall _]. rewrite Forall_forall in Hall.
  apply elem_of_cons in Hin as [[= <- <-]|Hin]; [lia|]. specialize (Hall _ Hin).
  rewrite key_node in Hall by done. pose proof (key_sent 0 ltac:(lia)) as Hk.
  rewrite Z.mul_0_r, Z.add_0_r in Hk. rewrite Hk in Hall. change (32 * 2 ^ 0 - 1) with 31 in Hall. lia.
Qed.

Lemma elem_of_middle a e L1 L2 : a ∈ (L1 ++ L2).*1 → a ∈ (L1 ++ e :: L2).*1.
Proof. rewrite !fmap_app. csimpl. rewrite !elem_of_app, elem_of_cons. tauto. Qed.

Lemma flist_remove h L F n s F' :
  flist (words h) L F → F ≡ₚ (n, s) :: F' →
  ∃ m' L', remove_node n h = Some (tt, set_words m' h) ∧ flist m' L' F' ∧
           links_only L (words h) m'.
Proof.
  intros Hfl HF. destruct (flist_cells _ _ _ Hfl) as [Hc Hnd].
  pose proof Hfl as [Hseg Hp Hsort Hz HndF Hn]. rewrite HF in Hp, HndF, Hn.
  apply Forall_cons in Hn as [[Hr Hs] Hn]. simpl in Hr, Hs. csimpl in HndF.
  apply NoDup_cons in HndF as [HnF HndF].
  assert ((n, s) ∈ L) as Hin by (rewrite Hp; apply elem_of_app; right; left).
  apply list_elem_of_split in Hin as (L1 & L2 & HL).
  destruct (flist_behind _ _ _ _ _ _ _ Hfl HL Hs) as (L1' & x & sx & ->). subst L.
  destruct (remove_node_ok h L1' x sx n s L2 Hseg Hc Hnd) as (m' & Hrun & Hseg' & Hl).
  set (L1 := L1' ++ [(x, sx)]) in *.
  assert (Forall cell (L1 ++ L2).*1) as Hc'.
  { rewrite fmap_app in *. csimpl in Hc. apply Forall_app in Hc as [? [? ?]%Forall_cons].
    by apply Forall_app. }
  exists m', (L1 ++ L2). split; [done|]. split.
  - split; [done| | | |done|done].
    + apply (Permutation_cons_inv (a := (n, s))). rewrite Permutation_middle, Hp.
      by rewrite Permutation_middle.
    + apply StronglySorted_app in Hsort as (Hlt & Hs1 & [_ Hs2]%StronglySorted_cons).
      apply StronglySorted_app_2; [|done..]. intros. apply Hlt; [done|by right].
    + eapply links_only_sized; [done..|]. unfold sized in *.
      apply Forall_app in Hz as [? [? ?]%Forall_cons]. by apply Forall_app.
  - destruct Hl as [Hd Hw]. split; [done|]. intros w Hne. apply Hw. intros n' f Hn'. apply Hne.
    by apply elem_of_middle.
Qed.

(** Sorted insertion, where [mm_addfreechunk] looks for the place. *)
Lemma bucket_insert L1 i L2 L3 n s :
  StronglySorted (λ e e', key e ≤ key e') (L1 ++ (nl + 16 * i, 0) :: L2 ++ L3) →
  0 ≤ i < 19 → 16 * 2 ^ i ≤ s → (i < 18 → s < 16 * 2 ^ (i + 1)) → 16 ≤ s →
  Forall (λ e, e.2 = 0 ∧ e ∈ sents ∨ 16 ≤ e.2) (L1 ++ (nl + 16 * i, 0) :: L2 ++ L3) →
  NoDup (L1 ++ (nl + 16 * i, 0) :: L2 ++ L3).*1 →
  Forall (λ e, e.2 ≠ 0 ∧ e.2 < s) L2 → stops s L3 →
  StronglySorted (λ e e', key e ≤ key e') (L1 ++ (nl + 16 * i, 0) :: L2 ++ (n, s) :: L3).
Proof.
  intros Hsort Hi Hs1 Hs2 Hs Hnode Hnd Hlow Hst.
  assert (∀ e, e ∈ L1 ++ (nl + 16 * i, 0) :: L2 → key e ≤ 2 * s) as Hbefore.
  { intros e [He|[->|He]%elem_of_cons]%elem_of_app.
    - rewrite StronglySorted_app in Hsort. destruct Hsort as (Hlt & _ & _).
      specialize (Hlt e (nl + 16 * i, 0) He ltac:(left)). rewrite key_sent in Hlt by lia. lia.
    - rewrite key_sent by lia. lia.
    - rewrite Forall_forall in Hlow. destruct (Hlow e He). unfold key.
      rewrite (proj2 (Z.eqb_neq e.2 0)) by done. lia. }
  assert (∀ e, e ∈ L3 → 2 * s ≤ key e) as Hafter.
  { destruct L3 as [|e0 L3]; [intros e He; inversion He|].
    assert (2 * s ≤ key e0) as H0.
    { destruct Hst as [H0|H0].
      - assert (e0 ∈ L1 ++ (nl + 16 * i, 0) :: L2 ++ e0 :: L3) as Hin.
        { clear. set_solver. }
        rewrite Forall_forall in Hnode. destruct (Hnode e0 Hin) as [[_ Hsent]|?]; [|lia].
        apply elem_of_sents in Hsent as (j & Hj & ->). rewrite key_sent by lia.
        assert (i < j) as Hij.
        { rewrite StronglySorted_app, StronglySorted_cons in Hsort.
          destruct Hsort as (_ & _ & Hall & _). rewrite Forall_forall in Hall.
          specialize (Hall (nl + 16 * j, 0) ltac:(apply elem_of_app; right; left)).
          rewrite !key_sent in Hall by lia. destruct (decide (j < i)) as [Hlt|].
          - pose proof (Z.pow_lt_mono_r 2 j i ltac:(lia) ltac:(lia) Hlt). lia.
          - destruct (decide (i = j)) as [->|]; [|lia]. rewrite fmap_app in Hnd.
            apply NoDup_app in Hnd as (_ & _ & Hnd). csimpl in Hnd.
            apply NoDup_cons in Hnd as [Hni _]. destruct Hni. rewrite fmap_app. clear. set_solver. }
        pose proof (Z.pow_le_mono_r 2 (i + 1) j ltac:(lia) ltac:(lia)). lia.
      - unfold key. rewrite (proj2 (Z.eqb_neq e0.2 0)) by lia. lia. }
    intros e [->|He]%elem_of_cons; [done|].
    rewrite app_comm_cons, app_assoc, StronglySorted_app, StronglySorted_cons in Hsort.
    destruct Hsort as (_ & _ & Hall & _). rewrite Forall_forall in Hall.
    specialize (Hall e He). lia. }
  rewrite app_comm_cons, app_assoc in Hsort |- *.
  apply StronglySorted_app in Hsort as (Hlt & Hsa & Hsb).
  apply StronglySorted_app_2; [|done|].
  - intros e e' He [->|He']%elem_of_cons; [rewrite key_node by done; by apply Hbefore|by apply Hlt].
  - apply StronglySorted_cons. split; [|done]. apply Forall_forall. intros e He.
    rewrite key_node by done. by apply Hafter.
Qed.

Lemma flist_length m L F : flist m L F → (length L ≤ size m)%nat.
Proof.
  intros Hfl. destruct (flist_cells _ _ _ Hfl) as [_ Hnd].
  pose proof (fl_sized _ _ _ Hfl) as Hz. rewrite <- (length_fmap fst L), <- size_dom.
  rewrite <- (size_list_to_set (C := gset Z) L.*1) by done. apply subseteq_size.
  intros n (e & -> & He)%elem_of_list_to_set%list_elem_of_fmap. unfold sized in Hz.
  rewrite Forall_forall in Hz. specialize (Hz e He). unfold offset in Hz.
  rewrite Z.add_0_r in Hz. by eapply elem_of_dom_2.
Qed.

Lemma flist_kinds m L F : flist m L F → Forall (λ e, e.2 = 0 ∧ e ∈ sents ∨ 16 ≤ e.2) L.
Proof.
  intros [_ Hp _ _ _ Hn]. rewrite Hp. apply Forall_app. split.
  - apply Forall_forall. intros e He. left. split; [|done].
    by apply elem_of_sents in He as (i & _ & ->).
  - eapply Forall_impl; [exact Hn|]. intros e [_ He]. by right.
Qed.

Lemma flist_sent m L F i :
  flist m L F → 0 ≤ i < 19 → ∃ L1 L2, L = L1 ++ (nodelist nl i, 0) :: L2.
Proof.
  intros Hfl Hi. apply list_elem_of_split. rewrite (fl_perm _ _ _ Hfl). apply elem_of_app. left.
  apply elem_of_sents. by exists i.
Qed.

(** A new node of the region. *)
Lemma flist_new m L F n s L' :
  flist m L F → rcell n → n ∉ F.*1 → 16 ≤ s → L' ≡ₚ (n, s) :: L →
  L' ≡ₚ sents ++ (n, s) :: F ∧ Forall cell L'.*1 ∧ NoDup L'.*1.
Proof.
  intros Hfl Hr HnF Hs HL'. destruct (flist_cells _ _ _ Hfl) as [Hc Hnd].
  destruct Hfl as [_ Hp _ _ _ _].
  assert (n ∉ L.*1) as HnL.
  { rewrite Hp, fmap_app, elem_of_app. intros [Hin|Hin]; [|done].
    apply list_elem_of_fmap in Hin as (e & -> & (i & Hi & ->)%elem_of_sents).
    destruct Hr as (Hr1 & Hr2 & Hr3), geo. simpl in *. lia. }
  split; [by rewrite HL', Hp, Permutation_middle|]. rewrite HL'. csimpl.
  split; [by constructor; [left|]|]. by apply NoDup_cons.
Qed.

Lemma flist_add h L F n s :
  flist (words h) L F → rcell n → n ∉ F.*1 → words h !! (n + offset fsize) = Some s → 16 ≤ s →
  is_Some (words h !! (n + offset fflink)) → is_Some (words h !! (n + offset fblink)) →
  ∃ m' L', mm_addfreechunk nl n h = Some (tt, set_words m' h) ∧ flist m' L' ((n, s) :: F) ∧
           links_only L' (words h) m'.
Proof.
  intros Hfl Hr HnF Hsz Hs Hf Hb. destruct (flist_cells _ _ _ Hfl) as [Hc Hnd].
  pose proof (flist_kinds _ _ _ Hfl) as Hkinds. pose proof (flist_length _ _ _ Hfl) as Hlen.
  destruct (size2ndx_ok s Hs) as (i & Hndx & Hi & Hlo & Hhi).
  destruct (flist_sent _ _ _ i Hfl Hi) as (L1 & L23 & HL).
  pose proof Hfl as [Hseg Hp Hsort Hz HndF Hn].
  assert (seg (words h) (nodelist nl i) L23 0 ∧
          words h !! (nodelist nl i + offset fflink) = Some (first_or 0 L23)) as [Hseg2 Hfst].
  { rewrite HL in Hseg. by apply seg_app in Hseg as [_ (_ & ? & ?)]. }
  assert (Forall cell L23.*1 ∧ sized (words h) L23 ∧ (length L23 ≤ size (words h))%nat)
    as (Hc2 & Hz2 & Hlen2).
  { rewrite HL in Hc, Hz, Hlen. rewrite fmap_app in Hc. csimpl in Hc.
    apply Forall_app in Hc as [_ [_ Hc]%Forall_cons].
    unfold sized in *. apply Forall_app in Hz as [_ [_ Hz]%Forall_cons].
    rewrite length_app in Hlen. simpl in Hlen. split; [done|]. split; [done|lia]. }
  destruct (addfreechunk_search_ok (size (words h)) h (nodelist nl i) L23 s Hseg2 Hc2 Hz2 Hlen2)
    as (L2 & L3 & -> & Hlow & Hst & Hsearch).
  destruct (exists_last (l := (nodelist nl i, 0) :: L2)) as (La & [x sx] & Hx); [done|].
  assert (last_or (nodelist nl i) L2 = x) as Hlast.
  { rewrite <- (last_or_cons 0 _ 0). rewrite Hx. by rewrite last_node_app. }
  assert (∀ M, L1 ++ (nodelist nl i, 0) :: L2 ++ M = ((L1 ++ La) ++ [(x, sx)]) ++ M) as HM.
  { intros M. by rewrite <- !app_assoc, (app_assoc La), <- Hx, app_comm_cons. }
  set (L' := ((L1 ++ La) ++ [(x, sx)]) ++ (n, s) :: L3).
  rewrite HM in HL. rewrite HL in Hseg.
  destruct (flist_new _ _ _ n s L' Hfl Hr HnF Hs) as (Hp' & Hc' & Hnd').
  { rewrite HL. unfold L'. by rewrite Permutation_middle. }
  destruct (link_node_ok h (L1 ++ La) x sx n s L3 Hseg Hc' Hnd' Hf Hb)
    as (m' & Hrun & Hseg' & Hl).
  exists m', L'. split; [|split; [split|done]].
  - unfold mm_addfreechunk. erewrite K_bind_Some by (by apply get_Some).
    erewrite K_bind_Some by (unfold klift; rewrite Hndx; reflexivity).
    erewrite K_bind_Some by (by apply get_Some). erewrite K_bind_Some by reflexivity.
    rewrite (K_bind_Some _ _ _ _ _ Hsearch), Hlast. exact Hrun.
  - exact Hseg'.
  - exact Hp'.
  - unfold L'. rewrite <- HM. rewrite <- HM in HL. rewrite HL in Hsort, Hkinds, Hnd.
    by apply bucket_insert.
  - eapply links_only_sized; [exact Hl|done|done|]. unfold sized, L' in *.
    rewrite HL in Hz. apply Forall_app in Hz as [? ?]. apply Forall_app. by split; [|constructor].
  - csimpl. by apply NoDup_cons.
  - by constructor.
Qed.

(** The search of [mm_malloc]. *)
Lemma malloc_search_walk fuel h prev L asize :
  seg (words h) prev L 0 → Forall cell L.*1 → sized (words h) L → (length L ≤ fuel)%nat →
  ∃ L1 L2, L = L1 ++ L2 ∧ Forall (λ e, e.2 < asize) L1 ∧
    match L2 with [] => True | e :: _ => asize ≤ e.2 end ∧
    malloc_search fuel (first_or 0 L) asize h = Some (first_or 0 L2, h).
Proof.
  revert fuel prev. induction L as [|[n s] L IH]; intros fuel prev Hs Hc Hz Hf.
  { exists [], []. by destruct fuel. }
  csimpl in Hc. apply Forall_cons in Hc as [Hn Hc]. apply Forall_cons in Hz as [Hsz Hz].
  destruct Hs as (Hb & Hfl & Hs). simpl in Hsz. pose proof (cell_pos n geo Hn) as Hpos.
  destruct (Z.ltb_spec s asize) as [Hlt|Hge].
  - destruct fuel as [|fuel]; simpl in Hf; [lia|].
    destruct (IH fuel n Hs Hc Hz) as (L1 & L2 & -> & Hall & Hst & Hrun); [lia|].
    exists ((n, s) :: L1), L2. split; [done|]. split; [by constructor|]. split; [done|].
    simpl. rewrite (proj2 (Z.eqb_neq n 0)) by lia. erewrite K_bind_Some by (by apply get_Some).
    rewrite (proj2 (Z.ltb_lt s asize) Hlt).
    erewrite K_bind_Some by (by apply get_Some). by rewrite Hrun.
  - exists [], ((n, s) :: L). split; [done|]. split; [done|]. split; [done|].
    destruct fuel; simpl; rewrite (proj2 (Z.eqb_neq n 0)) by lia;
      (erewrite K_bind_Some by (by apply get_Some)); by rewrite (proj2 (Z.ltb_ge s asize)).
Qed.

(** It finds the smallest free chunk that is large enough, if there is one. *)
Lemma malloc_search_ok h L F asize i :
  flist (words h) L F → 0 ≤ i < 19 → 16 * 2 ^ i ≤ asize →
  ∃ first node, get (nodelist nl i) fflink h = Some (first, h) ∧
    malloc_search (size (words h)) first asize h = Some (node, h) ∧
    (node = 0 ∧ Forall (λ e, e.2 < asize) F ∨
     ∃ s, (node, s) ∈ F ∧ node ≠ 0 ∧ asize ≤ s ∧ Forall (λ e, asize ≤ e.2 → s ≤ e.2) F).
Proof.
  intros Hfl Hi Hlo. destruct (flist_cells _ _ _ Hfl) as [Hc Hnd].
  pose proof (flist_kinds _ _ _ Hfl) as Hkinds. pose proof (flist_length _ _ _ Hfl) as Hlen.
  destruct (flist_sent _ _ _ i Hfl Hi) as (L1 & L23 & HL).
  pose proof Hfl as [Hseg Hp Hsort Hz HndF Hn].
  assert (16 ≤ asize) as Ha.
  { pose proof (Z.pow_pos_nonneg 2 i ltac:(lia) ltac:(lia)). lia. }
  assert (Forall (λ e, e.2 < asize) (L1 ++ [(nodelist nl i, 0)])) as Hbefore.
  { apply Forall_app. split; [|by constructor; [simpl; lia|]]. apply Forall_forall. intros e He.
    rewrite HL, StronglySorted_app in Hsort. destruct Hsort as (Hlt & _ & _).
    specialize (Hlt e _ He ltac:(left)). unfold nodelist, SIZEOF_MM_FREENODE in Hlt.
    rewrite key_sent in Hlt by lia. unfold key in Hlt.
    destruct (Z.eqb_spec e.2 0) as [->|]; lia. }
  rewrite HL in Hseg, Hc, Hz, Hlen. apply seg_app in Hseg as [_ (_ & Hfst & Hseg)].
  rewrite fmap_app in Hc. csimpl in Hc. apply Forall_app in Hc as [_ [_ Hc]%Forall_cons].
  unfold sized in Hz. apply Forall_app in Hz as [_ [_ Hz]%Forall_cons].
  rewrite length_app in Hlen. simpl in Hlen.
  destruct (malloc_search_walk (size (words h)) h (nodelist nl i) L23 asize Hseg Hc Hz)
    as (L2 & L3 & -> & Hlow & Hst & Hrun); [lia|].
  eexists _, _. split; [by apply get_Some|]. split; [exact Hrun|].
  assert (Forall (λ e, e.2 < asize) (L1 ++ (nodelist nl i, 0) :: L2)) as Hall.
  { rewrite (cons_middle (nodelist nl i, 0)), app_assoc. by apply Forall_app. }
  destruct L3 as [|[n s] L3].
  - left. split; [done|]. apply Forall_forall. intros e He. rewrite app_nil_r in HL.
    rewrite Forall_forall in Hall. apply Hall. rewrite <- HL, Hp. apply elem_of_app. by right.
  - right. exists s. simpl in Hst.
    assert ((n, s) ∈ L) as Hin by (rewrite HL; clear; set_solver).
    assert (s ≠ 0) as Hs0 by lia.
    assert ((n, s) ∈ F) as HinF.
    { rewrite Hp in Hin. apply elem_of_app in Hin as [(j & _ & [=])%elem_of_sents|]; done. }
    rewrite Forall_forall in Hn. destruct (Hn _ HinF) as [(_ & Hb & _) Hs]. simpl in Hb, Hs.
    split; [done|]. split; [simpl; destruct geo; lia|]. split; [done|]. apply Forall_forall. intros e He Hge.
    assert (e ∈ L) as HeL by (rewrite Hp; apply elem_of_app; by right).
    rewrite HL, app_comm_cons, app_assoc in HeL, Hsort. apply elem_of_app in HeL as [HeL|HeL].
    { rewrite Forall_forall in Hall. specialize (Hall e HeL). simpl in Hall. lia. }
    apply elem_of_cons in HeL as [->|HeL]; [done|].
    apply StronglySorted_app in Hsort as (_ & _ & [Hall3 _]%StronglySorted_cons).
    rewrite Forall_forall in Hall3. specialize (Hall3 e HeL). rewrite key_node in Hall3 by done.
    destruct e as [n' s']. destruct (Hn _ He) as [_ Hs']. simpl in *.
    rewrite key_node in Hall3 by done. lia.
Qed.

Lemma flist_frame m m' L F :
  flist m L F → (∀ n f, n ∈ L.*1 → f ≠ fpreceding → m' !! (n + offset f) = m !! (n + offset f)) →
  flist m' L F.
Proof.
  intros [Hseg Hp Hsort Hz HndF Hn] Hm. split; [|done|done| |done|done].
  - eapply seg_frame; [|exact Hseg]. intros n f Hin Hf. apply Hm; [done|]. by destruct Hf as [->| ->].
  - unfold sized in *. rewrite Forall_forall in Hz |- *. intros e He.
    rewrite Hm; [by apply Hz|by apply list_elem_of_fmap_2|done].
Qed.
End spec.
