(* ===== verification/MmHeapInv.v ===== *)
(** * MmHeapInv: the invariant of the heap

    The chunks of the region ([layout]), the free list, and how the code changes
    them: a node leaves or enters the free list, or the headers of neighbouring
    chunks are rewritten ([hp_splice]).  Every step says which words it changes, so
    that the contents of allocated chunks can be followed. *)

From stdpp Require Import sorting.
From S2P Require Import Prelude MmHeap MmHeapSpec.
Local Open Scope Z_scope.

Section layout.
Implicit Types (m : gmap Z Z) (cs : list chunk) (a p w : Z).

(** ** Chunks in memory *)

Fixpoint layout m a p cs : Prop :=
  match cs with
  | [] => True
  | (s, b) :: cs =>
      m !! (a + offset fsize) = Some s ∧ m !! (a + offset fpreceding) = Some (prec p b) ∧
      layout m (a + s) s cs
  end.

Fixpoint span cs : Z := match cs with [] => 0 | (s, _) :: cs => s + span cs end.
Definition last_size p cs : Z := match last cs with None => p | Some (s, _) => s end.
(** The header words. *)
Fixpoint hdrs a cs : list Z :=
  match cs with
  | [] => []
  | (s, _) :: cs => (a + offset fsize) :: (a + offset fpreceding) :: hdrs (a + s) cs
  end.
(** The free chunks. *)
Fixpoint free_of a cs : list node :=
  match cs with
  | [] => []
  | (s, b) :: cs => (if b then [] else [(a, s)]) ++ free_of (a + s) cs
  end.

Lemma span_app cs1 cs2 : span (cs1 ++ cs2) = span cs1 + span cs2.
Proof. induction cs1 as [|[s b] cs1 IH]; simpl; lia. Qed.

Lemma last_size_app p cs1 cs2 : last_size p (cs1 ++ cs2) = last_size (last_size p cs1) cs2.
Proof. unfold last_size. rewrite last_app. by destruct (last cs2). Qed.

Lemma last_size_cons p s b cs : last_size p ((s, b) :: cs) = last_size s cs.
Proof. unfold last_size. rewrite last_cons. by destruct (last cs). Qed.

Lemma layout_app m a p cs1 cs2 :
  layout m a p (cs1 ++ cs2) ↔
  layout m a p cs1 ∧ layout m (a + span cs1) (last_size p cs1) cs2.
Proof.
  revert a p. induction cs1 as [|[s b] cs1 IH]; intros a p; simpl.
  { rewrite Z.add_0_r. naive_solver. }
  rewrite IH, last_size_cons, Z.add_assoc. naive_solver.
Qed.

Lemma free_of_app a cs1 cs2 : free_of a (cs1 ++ cs2) = free_of a cs1 ++ free_of (a + span cs1) cs2.
Proof.
  revert a. induction cs1 as [|[s b] cs1 IH]; intros a; simpl; [by rewrite Z.add_0_r|].
  by rewrite IH, <- app_assoc, Z.add_assoc.
Qed.

Lemma layout_frame m m' a p cs :
  Forall (λ c, 8 ≤ c.1) cs → (∀ w, a ≤ w < a + span cs → m' !! w = m !! w) →
  layout m a p cs → layout m' a p cs.
Proof.
  revert a p. induction cs as [|[s b] cs IH]; intros a p Hs Hm; simpl; [done|].
  apply Forall_cons in Hs as [Hs Hss]. simpl in Hs, Hm.
  assert (0 ≤ span cs). { clear -Hss. induction Hss as [|[s b] cs]; simpl in *; lia. }
  intros (H1 & H2 & Hl). unfold offset in *.
  rewrite !Hm by lia. split; [done|]. split; [done|]. apply IH; [done| |done].
  intros w Hw. apply Hm. lia.
Qed.

(** [a] is the address of a chunk of size [s], [b] whether it is allocated. *)
Definition chunk_at a0 cs a s b : Prop :=
  ∃ cs1 cs2, cs = cs1 ++ (s, b) :: cs2 ∧ a = a0 + span cs1.

Lemma layout_chunk m a0 p cs a s b :
  layout m a0 p cs → chunk_at a0 cs a s b → m !! (a + offset fsize) = Some s.
Proof. intros Hl (cs1 & cs2 & -> & ->). by apply layout_app in Hl as (_ & ? & _). Qed.

Lemma elem_of_free_of a0 cs a s : (a, s) ∈ free_of a0 cs ↔ chunk_at a0 cs a s false.
Proof.
  revert a0. induction cs as [|[s' b'] cs IH]; intros a0; simpl.
  { split; [intros He; inversion He|]. by intros ([] & ? & ? & _). }
  rewrite elem_of_app, IH. split.
  - intros [He|(cs1 & cs2 & -> & ->)].
    + destruct b'; [inversion He|]. apply list_elem_of_singleton in He as [= -> ->].
      exists [], cs. split; [done|]. simpl. lia.
    + exists ((s', b') :: cs1), cs2. split; [done|]. simpl. lia.
  - intros (cs1 & cs2 & Heq & ->). destruct cs1 as [|[s1 b1] cs1]; simpl in Heq.
    + injection Heq as -> -> ->. left. simpl. apply list_elem_of_singleton. f_equal. lia.
    + injection Heq as -> -> ->. right. exists cs1, cs2. split; [done|]. simpl. lia.
Qed.

(** ** Contents *)

(** [w] is in the contents of an allocated chunk. *)
Definition data a0 cs w : Prop := ∃ a s, chunk_at a0 cs a s true ∧ a + 8 ≤ w < a + s.

Definition sizes_ok cs : Prop := Forall (λ c, 8 ≤ c.1) cs.

Lemma span_nonneg cs : sizes_ok cs → 0 ≤ span cs.
Proof. induction 1 as [|[s b] cs]; simpl in *; lia. Qed.

Lemma chunk_order a0 cs a s b a' s' b' :
  sizes_ok cs → chunk_at a0 cs a s b → chunk_at a0 cs a' s' b' →
  a = a' ∧ s = s' ∧ b = b' ∨ a + s ≤ a' ∨ a' + s' ≤ a.
Proof.
  intros Hs (c1 & c2 & -> & ->) (d1 & d2 & Heq & ->).
  revert a0 d1 Heq. induction c1 as [|[s1 b1] c1 IH]; intros a0 d1 Heq.
  - destruct d1 as [|[s2 b2] d1]; simpl in Heq; [injection Heq as -> -> ->; by left|].
    injection Heq as -> -> ->. right. left. simpl.
    apply Forall_cons in Hs as [_ Hs]. apply Forall_app in Hs as [Hs _].
    pose proof (span_nonneg _ Hs). lia.
  - apply Forall_cons in Hs as [Hs1 Hs]. destruct d1 as [|[s2 b2] d1]; simpl in Heq.
    + injection Heq as -> -> _. right. right. simpl.
      apply Forall_app in Hs as [Hs _]. pose proof (span_nonneg _ Hs). lia.
    + injection Heq as -> -> Heq. simpl.
      destruct (IH Hs (a0 + s2) d1 Heq) as [(? & -> & ->)|?]; [left; split; [lia|done]|right; lia].
Qed.

Lemma hdr_quiet a0 cs a s b w :
  sizes_ok cs → chunk_at a0 cs a s b → a ≤ w < a + 8 → ¬ data a0 cs w.
Proof.
  intros Hs Ha Hw (a' & s' & Ha' & Hw'). pose proof Ha as (c1 & c2 & -> & _).
  apply Forall_app in Hs as Hs'. destruct Hs' as [_ [Hs8 _]%Forall_cons]. simpl in Hs8.
  destruct (chunk_order _ _ _ _ _ _ _ _ Hs Ha Ha') as [(-> & -> & _)|[?|?]]; lia.
Qed.

Lemma free_quiet a0 cs a s w :
  sizes_ok cs → chunk_at a0 cs a s false → a ≤ w < a + s → ¬ data a0 cs w.
Proof.
  intros Hs Ha Hw (a' & s' & Ha' & Hw').
  destruct (chunk_order _ _ _ _ _ _ _ _ Hs Ha Ha') as [(_ & _ & [=])|[?|?]]; lia.
Qed.
End layout.

Lemma elem_of_hdrs a0 cs w :
  w ∈ hdrs a0 cs ↔ ∃ a s b, chunk_at a0 cs a s b ∧ (w = a + offset fsize ∨ w = a + offset fpreceding).
Proof.
  revert a0. induction cs as [|[s b] cs IH]; intros a0; simpl.
  { split; [intros He; inversion He|]. by intros (a & s & b & ([] & ? & ? & _) & _). }
  rewrite !elem_of_cons, IH. split.
  - intros [->|[->|(a & s' & b' & (c1 & c2 & -> & ->) & Hw)]].
    + exists a0, s, b. split; [|by left]. exists [], cs. split; [done|]. simpl. lia.
    + exists a0, s, b. split; [|by right]. exists [], cs. split; [done|]. simpl. lia.
    + eexists _, s', b'. split; [|exact Hw]. exists ((s, b) :: c1), c2. split; [done|]. simpl. lia.
  - intros (a & s' & b' & (c1 & c2 & Heq & ->) & Hw). destruct c1 as [|[s1 b1] c1]; simpl in Heq.
    + injection Heq as -> -> ->. simpl in Hw.
      destruct Hw as [Hw|Hw]; [left; lia|right; left; lia].
    + injection Heq as -> -> ->. right. right. simpl in Hw.
      exists (a0 + s1 + span c1), s', b'. rewrite Z.add_assoc in Hw. split; [|done]. by exists c1, c2.
Qed.

Lemma layout_hdrs m m' a p cs :
  (∀ w, w ∈ hdrs a cs → m' !! w = m !! w) → layout m a p cs → layout m' a p cs.
Proof.
  revert a p. induction cs as [|[s b] cs IH]; intros a p Hm; simpl; [done|].
  intros (H1 & H2 & Hl). simpl in Hm.
  rewrite !Hm by (rewrite !elem_of_cons; auto). split; [done|]. split; [done|].
  apply IH; [|done]. intros w Hw. apply Hm. rewrite !elem_of_cons. auto.
Qed.

Section inv.
Context `{Config} (nl base lim : Z) (geo : geometry nl base lim).
Implicit Types (h : mm_heap_s) (m : gmap Z Z) (cs : list chunk) (L F : list node).

Definition good (c : chunk) : Prop := 16 ≤ c.1 ∧ c.1 mod 16 = 0.

(** Between two guards, chunks of multiples of 16 bytes. *)
Definition shape cs : Prop :=
  ∃ inner, cs = (8, true) :: inner ++ [(8, true)] ∧ Forall good inner ∧ span cs = lim - base.

(** The words of the region exist. *)
Definition mapped m : Prop := ∀ w, base ≤ w < lim → w mod 4 = 0 → is_Some (m !! w).

Record hp h cs F : Prop := {
  hp_start : mm_heapstart h = base;
  hp_end : mm_heapend h = lim - 8;
  hp_layout : layout (words h) base 0 cs;
  hp_shape : shape cs;
  hp_list : ∃ L, flist nl base lim (words h) L F;
  hp_nodes : ∀ n s, (n, s) ∈ F → ∃ b, chunk_at base cs n s b;
  hp_map : mapped (words h);
}.

(** No two neighbours are free. *)
Fixpoint coalesced cs : Prop :=
  match cs with
  | c :: (c' :: _) as cs' => (c.2 = true ∨ c'.2 = true) ∧ coalesced cs'
  | _ => True
  end.

(** The invariant between operations: all free chunks are on the list. *)
Record heap_ok h cs : Prop := {
  ho_hp : hp h cs (free_of base cs);
  ho_coalesced : coalesced cs;
}.

(** *** Shapes *)

Lemma good_span l : Forall good l → span l mod 16 = 0 ∧ 0 ≤ span l.
Proof.
  induction 1 as [|[s b] l [H1 H2] _ IH]; simpl in *; [done|].
  split; [|lia]. Z.div_mod_to_equations. lia.
Qed.

Lemma shape_sizes cs : shape cs → sizes_ok cs.
Proof.
  intros (inner & -> & Hg & _). constructor; [done|]. apply Forall_app. split; [|by constructor].
  eapply Forall_impl; [exact Hg|]. intros c [? _]. lia.
Qed.

(** The chunk behind [cs1]. *)
Lemma shape_at cs1 s b cs2 :
  shape (cs1 ++ (s, b) :: cs2) → cs1 ≠ [] →
  let a := base + span cs1 in
  a mod 16 = 8 ∧ base + 8 ≤ a ∧ a + s ≤ lim ∧ 8 ≤ s ∧
  (cs2 = [] → s = 8 ∧ b = true ∧ a = lim - 8) ∧ (cs2 ≠ [] → good (s, b) ∧ a + s ≤ lim - 8).
Proof.
  intros (inner & Heq & Hg & Hsp) Hne a. destruct cs1 as [|c1 cs1]; [done|].
  injection Heq as -> Heq.
  assert (lim = a + s + span cs2) as Hlim.
  { rewrite span_app in Hsp. simpl in Hsp. unfold a. simpl. lia. }
  assert (Forall good cs1) as Hg1.
  { destruct cs2 as [|c2 cs2 _] using rev_ind.
    - apply app_inj_2 in Heq as [-> _]; done.
    - rewrite app_comm_cons, app_assoc in Heq. apply app_inj_2 in Heq as [<- _]; [|done].
      by apply Forall_app in Hg as [? _]. }
  pose proof (good_span _ Hg1). destruct geo as [Hb Hl _ _].
  assert (a mod 16 = 8 ∧ base + 8 ≤ a) as [Ha1 Ha2].
  { unfold a. simpl. Z.div_mod_to_equations. lia. }
  split; [done|]. split; [done|].
  destruct cs2 as [|c2 cs2 _] using rev_ind.
  - apply app_inj_2 in Heq as [_ [= -> ->]]; [|done]. simpl in Hlim. split_and!; [lia..| |done].
    intros _. split_and!; [done|done|lia].
  - rewrite app_comm_cons, app_assoc in Heq. apply app_inj_2 in Heq as [<- [= ->]]; [|done].
    apply Forall_app in Hg as [_ [Hg Hg2]%Forall_cons].
    pose proof (good_span _ Hg2). rewrite span_app in Hlim. simpl in Hlim.
    pose proof Hg as [Hs _]. simpl in Hs. split_and!; [lia|lia|by destruct cs2|].
    intros _. split; [done|lia].
Qed.

Lemma shape_hdr cs a s b :
  shape cs → chunk_at base cs a s b → a = base ∨ a mod 16 = 8 ∧ base + 8 ≤ a ≤ lim - 8.
Proof.
  intros Hsh (cs1 & cs2 & -> & ->). destruct cs1 as [|c cs1]; [left; simpl; lia|right].
  destruct (shape_at _ _ _ _ Hsh) as (? & ? & ? & ? & _); [done|]. lia.
Qed.

(** Header words are not link words. *)
Lemma hdr_not_link a n f g :
  a = base ∨ a mod 16 = 8 ∧ base + 8 ≤ a ≤ lim - 8 → cell nl base lim n →
  f = fsize ∨ f = fpreceding → g = fflink ∨ g = fblink → a + offset f ≠ n + offset g.
Proof.
  intros Ha Hn Hf Hg. destruct geo as [Hb Hl Hs Hnl].
  assert (offset f = 0 ∨ offset f = 4) by (destruct Hf as [->| ->]; [by left|by right]).
  assert (offset g = 8 ∨ offset g = 12) by (destruct Hg as [->| ->]; [by left|by right]).
  destruct Hn as [Hn|(i & Hi & ->)]; [|lia].
  Z.div_mod_to_equations. lia.
Qed.

(** *** Words that change *)

Definition touched (ks : list Z) m m' : Prop :=
  dom m' = dom m ∧ ∀ w, w ∉ ks → m' !! w = m !! w.

Definition links L : list Z := L ≫= λ e, [e.1 + offset fflink; e.1 + offset fblink].

Lemma elem_of_links L w :
  w ∈ links L ↔ ∃ n f, n ∈ L.*1 ∧ (f = fflink ∨ f = fblink) ∧ w = n + offset f.
Proof.
  unfold links. rewrite list_elem_of_bind. split.
  - intros (e & Hw & He). exists e.1. apply (list_elem_of_fmap_2 fst) in He.
    rewrite !elem_of_cons in Hw. destruct Hw as [->|[->|Hw]]; [eauto 10..|inversion Hw].
  - intros (n & f & Hn & Hf & ->). apply list_elem_of_fmap in Hn as (e & -> & He).
    exists e. split; [|done]. rewrite !elem_of_cons. destruct Hf as [->| ->]; auto.
Qed.

Lemma links_only_touched L m m' : links_only L m m' → touched (links L) m m'.
Proof.
  intros [Hd Hw]. split; [done|]. intros w Hni. apply Hw. intros n f Hn Hf ->.
  apply Hni, elem_of_links. eauto.
Qed.

Lemma touched_weaken ks ks' m m' : touched ks m m' → ks ⊆ ks' → touched ks' m m'.
Proof. intros [Hd Hw] Hs. split; [done|]. intros w Hni. apply Hw. by intros ?%Hs. Qed.

Lemma touched_trans ks ks' m1 m2 m3 :
  touched ks m1 m2 → touched ks' m2 m3 → touched (ks ++ ks') m1 m3.
Proof.
  intros [Hd1 Hw1] [Hd2 Hw2]. split; [congruence|]. intros w Hni.
  apply not_elem_of_app in Hni as [? ?]. by rewrite Hw2, Hw1.
Qed.

Lemma touched_insert ks m m' k v :
  touched ks m m' → is_Some (m !! k) → touched (ks ++ [k]) m (<[k := v]> m').
Proof.
  intros Ht Hk. eapply touched_trans; [exact Ht|]. destruct Ht as [Hd _]. split.
  - rewrite dom_insert_lookup_L; [done|]. by rewrite <- elem_of_dom, Hd, elem_of_dom.
  - intros w Hw. apply lookup_insert_ne. intros ->. apply Hw. left.
Qed.

Lemma touched_refl m : touched [] m m.
Proof. by split. Qed.

Lemma links_perm L L' : L ≡ₚ L' → links L ⊆ links L'.
Proof.
  intros Hp w (n & f & Hn & Hf & ->)%elem_of_links. apply elem_of_links.
  exists n, f. by rewrite <- Hp.
Qed.

(** *** Steps *)

Lemma hp_links h cs F L F' L' m' :
  hp h cs F → flist nl base lim m' L' F' → links_only L (words h) m' →
  Forall (cell nl base lim) L.*1 → (∀ n s, (n, s) ∈ F' → ∃ b, chunk_at base cs n s b) →
  hp (set_words m' h) cs F'.
Proof.
  intros [Hst Hen Hlay Hsh _ _ Hmap] Hfl Hl Hc Hat. pose proof Hl as [Hd Hw].
  split; simpl; [done|done| |done|by eexists|done|].
  - eapply layout_hdrs; [|exact Hlay]. intros w (a & s & b & Ha & Hwa)%elem_of_hdrs.
    apply Hw. intros n f Hn Hf. rewrite Forall_forall in Hc.
    pose proof (shape_hdr _ _ _ _ Hsh Ha) as Hab.
    destruct Hwa as [->| ->]; apply hdr_not_link; by auto.
  - intros w Hw1 Hw2. rewrite <- elem_of_dom, Hd, elem_of_dom. by apply Hmap.
Qed.

Lemma hp_remove h cs F n s F' :
  hp h cs F → F ≡ₚ (n, s) :: F' →
  ∃ m', remove_node n h = Some (tt, set_words m' h) ∧ hp (set_words m' h) cs F' ∧
        touched (links (sents nl ++ F)) (words h) m'.
Proof.
  intros Hhp HF. destruct (hp_list _ _ _ Hhp) as [L Hfl].
  destruct (flist_remove _ _ _ geo _ _ _ _ _ _ Hfl HF) as (m' & L' & Hrun & Hfl' & Hl).
  exists m'. split; [done|]. split.
  - eapply hp_links; [done..|by eapply flist_cells|]. intros n' s' Hin.
    apply (hp_nodes _ _ _ Hhp). rewrite HF. by right.
  - eapply touched_weaken; [by apply links_only_touched|]. apply links_perm, Hfl.
Qed.

Lemma hp_add h cs1 s b cs2 F :
  let n := base + span cs1 in
  hp h (cs1 ++ (s, b) :: cs2) F → cs1 ≠ [] → cs2 ≠ [] → n ∉ F.*1 →
  ∃ m', mm_addfreechunk nl n h = Some (tt, set_words m' h) ∧
        hp (set_words m' h) (cs1 ++ (s, b) :: cs2) ((n, s) :: F) ∧
        touched (links (sents nl ++ (n, s) :: F)) (words h) m'.
Proof.
  intros n Hhp H1 H2 HnF. destruct (hp_list _ _ _ Hhp) as [L Hfl].
  destruct (shape_at _ _ _ _ (hp_shape _ _ _ Hhp) H1) as (Ha & Hb & _ & _ & _ & Hin).
  destruct (Hin H2) as [[Hs _] Hlim]. simpl in Hs. fold n in Ha, Hb, Hlim.
  destruct (flist_add _ _ _ geo h L F n s Hfl) as (m' & L' & Hrun & Hfl' & Hl).
  - split; [done|lia].
  - done.
  - eapply layout_chunk; [apply Hhp|]. by exists cs1, cs2.
  - done.
  - apply (hp_map _ _ _ Hhp); unfold offset; [lia|]. Z.div_mod_to_equations. lia.
  - apply (hp_map _ _ _ Hhp); unfold offset; [lia|]. Z.div_mod_to_equations. lia.
  - exists m'. split; [done|]. split.
    + eapply hp_links; [done..|by eapply flist_cells|]. intros n' s' [[= -> ->]|Hin']%elem_of_cons.
      * exists b, cs1, cs2. by split.
      * by apply (hp_nodes _ _ _ Hhp).
    + eapply touched_weaken; [by apply links_only_touched|]. apply links_perm, Hfl'.
Qed.

(** *** Rewriting headers *)

Lemma shape_splice cs1 old c2 cs2 new :
  shape (cs1 ++ old ++ c2 :: cs2) → cs1 ≠ [] → Forall good new → span new = span old →
  shape (cs1 ++ new ++ c2 :: cs2).
Proof.
  intros (inner & Heq & Hg & Hsp) Hne Hnew Hspan.
  destruct cs1 as [|c1 cs1]; [done|]. injection Heq as -> Heq.
  destruct (exists_last (l := c2 :: cs2)) as (l & z & Hl); [done|]. rewrite Hl in *.
  rewrite !app_assoc in Heq. apply app_inj_2 in Heq as [<- [= ->]]; [|done].
  exists (cs1 ++ new ++ l). split; [by rewrite <- !app_assoc|]. split.
  - rewrite !Forall_app in *. naive_solver.
  - rewrite !span_app in *. lia.
Qed.

Lemma hdrs_range a cs w : sizes_ok cs → w ∈ hdrs a cs → a ≤ w < a + span cs.
Proof.
  intros Hs (a' & s & b & (c1 & c2 & -> & ->) & Hw)%elem_of_hdrs. rewrite span_app. simpl.
  apply Forall_app in Hs as [Hs1 [Hs8 Hs2]%Forall_cons]. simpl in Hs8.
  pose proof (span_nonneg _ Hs1). pose proof (span_nonneg _ Hs2).
  unfold offset in Hw. lia.
Qed.

Lemma chunk_at_middle cs1 cs cs2 a s b :
  chunk_at (base + span cs1) cs a s b → chunk_at base (cs1 ++ cs ++ cs2) a s b.
Proof.
  intros (c1 & c2 & -> & ->). exists (cs1 ++ c1), (c2 ++ cs2). split; [by rewrite <- !app_assoc|].
  rewrite span_app. lia.
Qed.

Lemma splice_touched cs1 old s2 b2 cs2 new w :
  let A := base + span cs1 in let B := A + span old in
  shape (cs1 ++ old ++ (s2, b2) :: cs2) → cs1 ≠ [] → Forall good new → span new = span old →
  w ∈ hdrs A old ++ hdrs A new ++ [B + offset fpreceding] →
  ∃ a f, w = a + offset f ∧ (f = fsize ∧ A ≤ a < B ∨ f = fpreceding ∧ A ≤ a ≤ B) ∧
         a mod 16 = 8 ∧ base + 8 ≤ a ≤ lim - 8.
Proof.
  intros A B Hsh Hne Hnew Hspan.
  pose proof (shape_splice _ _ _ _ _ Hsh Hne Hnew Hspan) as Hsh'.
  assert (base < A) as HA.
  { destruct (cs1) as [|[s1 b1] cs1']; [done|]. pose proof (shape_sizes _ Hsh) as Hz.
    apply Forall_app in Hz as [Hz _]. apply Forall_cons in Hz as [H8 Hz]. simpl in H8.
    pose proof (span_nonneg _ Hz). unfold A. simpl. lia. }
  assert (∀ cs, shape (cs1 ++ cs ++ (s2, b2) :: cs2) → w ∈ hdrs A cs → span cs = span old →
    ∃ a f, w = a + offset f ∧ (f = fsize ∧ A ≤ a < B ∨ f = fpreceding ∧ A ≤ a ≤ B) ∧
           a mod 16 = 8 ∧ base + 8 ≤ a ≤ lim - 8) as Hcs.
  { intros cs Hshc (a & s & b & Ha & Hw)%elem_of_hdrs Hsp.
    pose proof (shape_sizes _ Hshc) as Hz. apply Forall_app in Hz as [_ [Hz _]%Forall_app].
    assert (A ≤ a < B) as Hr.
    { apply (hdrs_range A cs (a + offset fsize)) in Hz; [unfold offset in Hz; lia|].
      apply elem_of_hdrs. exists a, s, b. by auto. }
    pose proof (shape_hdr _ _ _ _ Hshc (chunk_at_middle _ _ _ _ _ _ Ha)) as [?|?]; [lia|].
    destruct Hw as [->| ->]; eexists _, _; (split; [done|]; split; [|done]); [left|right]; auto with lia. }
  intros [Hw|[Hw|Hw]%elem_of_app]%elem_of_app; [by apply (Hcs old)|by apply (Hcs new)|].
  apply list_elem_of_singleton in Hw as ->. exists B, fpreceding. split; [done|].
  rewrite app_assoc in Hsh. destruct (shape_at _ _ _ _ Hsh) as (Hm & Hlo & Hhi & H8 & _).
  { by destruct cs1. }
  rewrite span_app, Z.add_assoc in Hm, Hlo, Hhi. fold A B in Hm, Hlo, Hhi.
  assert (0 ≤ span old).
  { rewrite <- app_assoc in Hsh. pose proof (shape_sizes _ Hsh) as Hz.
    apply Forall_app in Hz as [_ [Hz _]%Forall_app]. by apply span_nonneg. }
  split; [right; split; [done|]; unfold B; lia|]. split; [done|lia].
Qed.

Lemma splice_list cs1 old s2 b2 cs2 new m m' L F :
  let A := base + span cs1 in let B := A + span old in
  shape (cs1 ++ old ++ (s2, b2) :: cs2) → cs1 ≠ [] → Forall good new → span new = span old →
  (∀ n, n ∈ F.*1 → n < A ∨ B ≤ n) → flist nl base lim m L F →
  touched (hdrs A old ++ hdrs A new ++ [B + offset fpreceding]) m m' →
  flist nl base lim m' L F.
Proof.
  intros A B Hsh Hne Hnew Hspan HF Hfl [_ Hm]. eapply flist_frame; [exact Hfl|].
  intros n g Hn Hg. apply Hm. intros Hw.
  destruct (splice_touched _ _ _ _ _ _ _ Hsh Hne Hnew Hspan Hw) as (a & f & Heq & Hf & Ha & Hr).
  destruct (flist_cells _ _ _ geo _ _ _ Hfl) as [Hc _].
  pose proof (proj1 (Forall_forall _ _) Hc n Hn) as Hcn.
  destruct (decide (g = fflink ∨ g = fblink)) as [Hg'|Hg'].
  { apply (hdr_not_link a n f g); [by right|done|naive_solver|done|done]. }
  assert (g = fsize) as -> by (destruct g; naive_solver).
  rewrite (fl_perm _ _ _ _ _ _ Hfl), fmap_app in Hn. apply elem_of_app in Hn as [Hn|Hn].
  - apply list_elem_of_fmap in Hn as (e & -> & (i & Hi & ->)%elem_of_sents). simpl in Heq.
    destruct geo as [_ _ _ Hnl]. unfold offset in Heq. destruct Hf as [[-> _]|[-> _]]; lia.
  - destruct Hcn as [Hcn|(i & Hi & ->)]; [|destruct geo; unfold offset in Heq;
      destruct Hf as [[-> _]|[-> _]]; lia].
    specialize (HF n Hn). fold A B in HF. unfold offset in Heq.
    destruct Hf as [[-> Hf]|[-> Hf]]; [lia|]. Z.div_mod_to_equations. lia.
Qed.

Fixpoint addrs a cs : list Z := match cs with [] => [] | (s, _) :: cs => a :: addrs (a + s) cs end.

Lemma elem_of_addrs a0 cs a : a ∈ addrs a0 cs ↔ ∃ s b, chunk_at a0 cs a s b.
Proof.
  revert a0. induction cs as [|[s b] cs IH]; intros a0; simpl.
  { split; [intros He; inversion He|]. by intros (s & b & ([] & ? & ? & _)). }
  rewrite elem_of_cons, IH. split.
  - intros [->|(s' & b' & c1 & c2 & -> & ->)].
    + exists s, b, [], cs. split; [done|]. simpl. lia.
    + exists s', b', ((s, b) :: c1), c2. split; [done|]. simpl. lia.
  - intros (s' & b' & c1 & c2 & Heq & ->). destruct c1 as [|[s1 b1] c1]; simpl in Heq.
    + injection Heq as -> -> ->. left. simpl. lia.
    + injection Heq as -> -> ->. right. exists s', b', c1, c2. split; [done|]. simpl. lia.
Qed.

Lemma chunk_at_app a0 cs1 cs2 a s b :
  chunk_at a0 (cs1 ++ cs2) a s b ↔ chunk_at a0 cs1 a s b ∨ chunk_at (a0 + span cs1) cs2 a s b.
Proof.
  split.
  - intros (c1 & c2 & Heq & ->). apply app_eq_inv in Heq as [(k & -> & Hk)|(k & -> & Hk)].
    + destruct k as [|c k]; simpl in Hk.
      * right. exists [], c2. rewrite app_nil_r. split; [done|]. simpl. lia.
      * injection Hk as <- ->. left. by exists c1, k.
    + right. exists k, c2. split; [done|]. rewrite span_app. lia.
  - intros [(c1 & c2 & -> & ->)|(c1 & c2 & -> & ->)].
    + exists c1, (c2 ++ cs2). by rewrite <- app_assoc.
    + exists (cs1 ++ c1), c2. rewrite <- app_assoc, span_app. split; [done|lia].
Qed.

Lemma hp_splice h cs1 old s2 b2 cs2 new F m' :
  let A := base + span cs1 in let B := A + span old in
  hp h (cs1 ++ old ++ (s2, b2) :: cs2) F → cs1 ≠ [] → Forall good new → span new = span old →
  Forall (.∉ F.*1) (addrs A old) →
  touched (hdrs A old ++ hdrs A new ++ [B + offset fpreceding]) (words h) m' →
  layout m' A (last_size 0 cs1) new →
  m' !! (B + offset fpreceding) = Some (prec (last_size (last_size 0 cs1) new) b2) →
  hp (set_words m' h) (cs1 ++ new ++ (s2, b2) :: cs2) F.
Proof.
  intros A B [Hst Hen Hlay Hsh [L Hfl] Hat Hmap] Hne Hnew Hspan HF Htou Hnlay Hpre.
  assert (∀ n s, (n, s) ∈ F → ∃ b, chunk_at base cs1 n s b ∨ chunk_at B ((s2, b2) :: cs2) n s b)
    as Hout.
  { intros n s Hn. destruct (Hat n s Hn) as (b & Hb). exists b.
    apply chunk_at_app in Hb as [Hb|Hb]; [by left|].
    apply chunk_at_app in Hb as [Hb|Hb]; [|by right]. rewrite Forall_forall in HF.
    destruct (HF n); [|by apply (list_elem_of_fmap_2 fst) in Hn].
    apply elem_of_addrs. by exists s, b. }
  pose proof (shape_splice _ _ _ _ _ Hsh Hne Hnew Hspan) as Hsh'.
  pose proof Htou as [Hd Hw].
  split; simpl; [done|done| |done| | |].
  - pose proof (shape_sizes _ Hsh) as Hz.
    apply Forall_app in Hz as [Hz1 [Hzo [Hz8 Hz2]%Forall_cons]%Forall_app]. simpl in Hz8.
    pose proof (shape_sizes _ Hsh') as Hzn. apply Forall_app in Hzn as [_ [Hzn _]%Forall_app].
    assert (∀ w, w < A ∨ B + 8 ≤ w ∨ w = B → m' !! w = words h !! w) as Hout'.
    { intros w Hr. apply Hw. rewrite !elem_of_app, list_elem_of_singleton.
      pose proof (span_nonneg old Hzo). unfold offset, B in *.
      intros [Hin|[Hin|Hin]]; [apply hdrs_range in Hin; [lia|done]..|lia]. }
    apply layout_app in Hlay as [Hl1 Hl]. apply layout_app in Hl as [_ (Hs2 & Hp2 & Hl2)].
    apply layout_app. split.
    { eapply layout_frame; [done| |exact Hl1]. intros w Hw'. apply Hout'. unfold A. lia. }
    fold A. apply layout_app. split; [done|]. rewrite Hspan. fold A B in Hs2, Hl2 |- *. split.
    { rewrite Hout'; [done|]. unfold offset. lia. }
    split; [done|]. eapply layout_frame; [done| |exact Hl2]. intros w Hw'. apply Hout'. lia.
  - exists L. apply (splice_list cs1 old s2 b2 cs2 new (words h)); [done..| |done|done].
    intros n ([n' s] & -> & Hn)%list_elem_of_fmap. simpl. fold A B.
    pose proof (shape_sizes _ Hsh) as Hz.
    apply Forall_app in Hz as [Hz1 [Hzo [Hz8 Hz2]%Forall_cons]%Forall_app].
    destruct (Hout n' s Hn) as (b & [(c1 & c2 & -> & ->)|(c1 & c2 & Heq & ->)]).
    + left. unfold A. apply Forall_app in Hz1 as [_ [H8 Hz1]%Forall_cons]. simpl in H8.
      rewrite span_app. simpl. pose proof (span_nonneg _ Hz1). lia.
    + right. assert (sizes_ok ((s2, b2) :: cs2)) as Hz by (by constructor). rewrite Heq in Hz.
      apply Forall_app in Hz as [Hz _]. pose proof (span_nonneg _ Hz). lia.
  - intros n s Hn. destruct (Hout n s Hn) as (b & Hb). exists b. rewrite !chunk_at_app, Hspan.
    naive_solver.
  - intros w Hw1 Hw2. rewrite <- elem_of_dom, Hd, elem_of_dom. by apply Hmap.
Qed.

(** *** Reading headers *)

Lemma span_pos cs : shape cs → Forall (λ c, 8 ≤ c.1 < 2147483648) cs.
Proof.
  intros Hsh. pose proof (shape_sizes _ Hsh) as Hz. destruct Hsh as (inner & _ & _ & Hsp).
  apply Forall_forall. intros [s b] Hin. apply list_elem_of_split in Hin as (c1 & c2 & ->).
  rewrite span_app in Hsp. simpl in *.
  apply Forall_app in Hz as [Hz1 [H8 Hz2]%Forall_cons]. simpl in H8.
  pose proof (span_nonneg _ Hz1). pose proof (span_nonneg _ Hz2). destruct geo. lia.
Qed.

Lemma last_size_bound cs1 cs2 : shape (cs1 ++ cs2) → 0 ≤ last_size 0 cs1 < 2147483648.
Proof.
  intros Hsh. apply span_pos in Hsh. apply Forall_app in Hsh as [Hz _].
  destruct cs1 as [|[s b] cs1 _] using rev_ind; [done|]. rewrite last_size_app. cbn.
  apply Forall_app in Hz as [_ [Hz _]%Forall_cons]. simpl in Hz. lia.
Qed.

Section chunk.
Context h cs1 s b cs2 F (Hhp : hp h (cs1 ++ (s, b) :: cs2) F).
Abbreviation a := (base + span cs1).

Lemma hp_size : get a fsize h = Some (s, h).
Proof. apply get_Some. eapply layout_chunk; [apply Hhp|]. by exists cs1, cs2. Qed.

Lemma hp_prec : get a fpreceding h = Some (prec (last_size 0 cs1) b, h).
Proof. apply get_Some. pose proof (hp_layout _ _ _ Hhp) as Hl. by apply layout_app in Hl as (_ & _ & ? & _). Qed.

Lemma hp_is_free : is_free a h = Some (negb b, h).
Proof.
  unfold is_free. erewrite K_bind_Some by apply hp_prec.
  rewrite (land_prec _ (last_size_bound _ _ (hp_shape _ _ _ Hhp))). by destruct b.
Qed.
End chunk.

Lemma mapped_touched ks m m' : touched ks m m' → mapped m → mapped m'.
Proof.
  intros [Hd _] Hm w Hr Hw. rewrite <- elem_of_dom, Hd, elem_of_dom. by apply Hm.
Qed.

(** Change one word. *)
Lemma put_touched h ks m0 n f v :
  touched ks m0 (words h) → mapped m0 → base ≤ n + offset f < lim → n mod 4 = 0 →
  put n f v h = Some (tt, set_words (<[n + offset f := v]> (words h)) h) ∧
  touched (ks ++ [n + offset f]) m0 (<[n + offset f := v]> (words h)).
Proof.
  intros Ht Hm Hr Hn. assert ((n + offset f) mod 4 = 0) as H4.
  { destruct f; unfold offset; Z.div_mod_to_equations; lia. }
  split.
  - apply put_Some. by eapply mapped_touched.
  - apply touched_insert; [done|]. by apply Hm.
Qed.

Lemma hp_flag h cs1 s b c2 cs2 F b' :
  let a := base + span cs1 in
  hp h (cs1 ++ (s, b) :: c2 :: cs2) F → cs1 ≠ [] → a ∉ F.*1 →
  let m' := <[a + offset fpreceding := prec (last_size 0 cs1) b']> (words h) in
  put a fpreceding (prec (last_size 0 cs1) b') h = Some (tt, set_words m' h) ∧
  touched [a + offset fpreceding] (words h) m' ∧
  hp (set_words m' h) (cs1 ++ (s, b') :: c2 :: cs2) F.
Proof.
  intros a Hhp Hne HaF m'. pose proof (hp_shape _ _ _ Hhp) as Hsh.
  destruct (shape_at _ _ _ _ Hsh Hne) as (Ha & Hlo & _ & _ & _ & Hin). fold a in Ha, Hlo, Hin.
  destruct (Hin ltac:(done)) as [[Hs Hs16] Hhi]. simpl in Hs, Hs16.
  destruct (put_touched h [] (words h) a fpreceding (prec (last_size 0 cs1) b'))
    as [Hrun Htou]; [apply touched_refl|apply Hhp|unfold offset; lia|Z.div_mod_to_equations; lia|].
  split; [done|]. split; [done|]. destruct c2 as [s2 b2].
  pose proof (hp_layout _ _ _ Hhp) as Hl. apply layout_app in Hl as (_ & H1 & _ & _ & H4 & _).
  fold a in H1, H4.
  apply (hp_splice h cs1 [(s, b)] s2 b2 cs2 [(s, b')] F m'); fold a; simpl.
  - done.
  - done.
  - by constructor.
  - done.
  - by constructor.
  - eapply touched_weaken; [done|]. intros w Hw. simpl in Hw. set_solver.
  - split; [|split; [apply lookup_insert_eq|done]]. unfold m'. rewrite lookup_insert_ne; [done|].
    unfold offset. lia.
  - unfold m'. replace (a + (s + 0)) with (a + s) by lia. rewrite lookup_insert_ne; [done|].
    unfold offset. lia.
Qed.

Lemma hp_perm h cs F F' : F ≡ₚ F' → hp h cs F → hp h cs F'.
Proof.
  intros HF [Hst Hen Hlay Hsh [L [Hseg Hp Hsort Hz HndF Hn]] Hat Hmap]. split; [done..| | |done].
  - exists L. split; [done| |done|done| |]; by rewrite <- HF.
  - intros n s. rewrite <- HF. apply Hat.
Qed.
End inv.
