(* ===== verification/MmHeapOps.v ===== *)
(** * MmHeapOps: what the operations do to the list of chunks

    [mm_malloc] takes the smallest chunk that is large enough and splits it;
    [mm_free] merges a chunk with its free neighbours.  Each lemma gives the result,
    the chunks afterwards, and that the contents of the chunks that stay allocated
    are untouched. *)

From S2P Require Import Prelude MmHeap MmHeapSpec MmHeapInv.
Local Open Scope Z_scope.

(** A word of a memory written by a sequence of inserts. *)
Ltac look := rewrite ?lookup_insert_ne by (unfold offset; lia); first [apply lookup_insert_eq|eassumption].

(** ** Sizes *)

Lemma align_up_ok a : 0 ≤ a ≤ 4294967280 → MM_ALIGN_UP a = 16 * ((a + 15) / 16).
Proof.
  intros Ha. unfold MM_ALIGN_UP. change MM_GRAN_MASK with 15.
  rewrite (wrap_u_small 32) by (change (2 ^ 32) with 4294967296; lia).
  change (Z.lnot 15) with (Z.lnot (Z.ones 4)).
  rewrite <- Z.ldiff_land, Z.ldiff_ones_r, Z.shiftl_mul_pow2, Z.shiftr_div_pow2 by lia.
  change (2 ^ 4) with 16. lia.
Qed.

(** The size of the chunk for a request. *)
Definition chunk_size (size : Z) : Z := 16 * ((size + 23) / 16).

Lemma chunk_size_ok size :
  1 ≤ size ≤ 4294967272 →
  MM_ALIGN_UP (u32 (size + SIZEOF_MM_ALLOCNODE)) = chunk_size size ∧
  16 ≤ chunk_size size ∧ chunk_size size mod 16 = 0 ∧ size + 8 ≤ chunk_size size < size + 24.
Proof.
  intros Hs. unfold SIZEOF_MM_ALLOCNODE.
  rewrite (wrap_u_small 32) by (change (2 ^ 32) with 4294967296; lia).
  rewrite align_up_ok by lia. unfold chunk_size. replace (size + 8 + 15) with (size + 23) by lia.
  split; [done|]. Z.div_mod_to_equations. lia.
Qed.

Section ops.
Context `{Config} (nl base lim : Z) (geo : geometry nl base lim).
Implicit Types (h : mm_heap_s) (m : gmap Z Z) (cs : list chunk) (L F : list node).
Abbreviation hp := (hp nl base lim).
Abbreviation heap_ok := (heap_ok nl base lim).

(** ** Contents stay *)

Lemma data_range cs w : shape base lim cs → data base cs w → base ≤ w < lim.
Proof.
  intros Hsh (a & s & (c1 & c2 & -> & ->) & Hw). pose proof (shape_sizes _ _ _ Hsh) as Hz.
  destruct Hsh as (inner & _ & _ & Hsp). rewrite span_app in Hsp. simpl in Hsp.
  apply Forall_app in Hz as [Hz1 [_ Hz2]%Forall_cons].
  pose proof (span_nonneg _ Hz1). pose proof (span_nonneg _ Hz2). lia.
Qed.

(** Words that are not in the contents of an allocated chunk of [cs]. *)
Definition quiet cs (ks : list Z) : Prop := Forall (λ w, ¬ data base cs w) ks.

Lemma quiet_app cs ks ks' : quiet cs ks → quiet cs ks' → quiet cs (ks ++ ks').
Proof. intros. by apply Forall_app. Qed.

Lemma quiet_cons cs w ks : quiet cs [w] → quiet cs ks → quiet cs (w :: ks).
Proof. apply (quiet_app cs [w]). Qed.

Lemma touched_data cs ks m m' w :
  touched ks m m' → quiet cs ks → data base cs w → m' !! w = m !! w.
Proof. intros [_ Hw] Hq Hd. apply Hw. intros Hin. by apply (proj1 (Forall_forall _ _) Hq w). Qed.

Lemma quiet_hdr cs a s b f :
  shape base lim cs → chunk_at base cs a s b → f = fsize ∨ f = fpreceding →
  quiet cs [a + offset f].
Proof.
  intros Hsh Ha Hf. constructor; [|done]. eapply hdr_quiet; [by eapply shape_sizes|done|].
  destruct Hf as [->| ->]; unfold offset; lia.
Qed.

Lemma quiet_free cs a s w :
  shape base lim cs → chunk_at base cs a s false → a ≤ w < a + s → quiet cs [w].
Proof. intros Hsh Ha Hw. constructor; [|done]. eapply free_quiet; [by eapply shape_sizes|done..]. Qed.

(** The links of nodes that lie in free chunks. *)
Lemma quiet_links cs F :
  shape base lim cs →
  Forall (λ e, ∃ a s, chunk_at base cs a s false ∧ a ≤ e.1 ∧ e.1 + 16 ≤ a + s) F →
  quiet cs (links (sents nl ++ F)).
Proof.
  intros Hsh HF. apply Forall_forall. intros w (n & f & Hn & Hf & ->)%elem_of_links.
  assert (8 ≤ offset f ≤ 12) by (destruct Hf as [->| ->]; unfold offset; lia).
  rewrite fmap_app in Hn. apply elem_of_app in Hn as [Hn|Hn];
    apply list_elem_of_fmap in Hn as (e & -> & He).
  - apply elem_of_sents in He as (i & Hi & ->). intros Hd%data_range; [|done].
    destruct geo. simpl in Hd. lia.
  - rewrite Forall_forall in HF. destruct (HF e He) as (a & s & Ha & Hr).
    eapply free_quiet; [by eapply shape_sizes|done|lia].
Qed.

Lemma free_inside h cs F :
  hp h cs F → F ⊆ free_of base cs →
  Forall (λ e, ∃ a s, chunk_at base cs a s false ∧ a ≤ e.1 ∧ e.1 + 16 ≤ a + s) F.
Proof.
  intros Hhp Hsub. apply Forall_forall. intros [a s] He. exists a, s.
  split; [by apply elem_of_free_of, Hsub|]. destruct (hp_list _ _ _ _ _ _ Hhp) as [L Hfl].
  pose proof (fl_nodes _ _ _ _ _ _ Hfl) as Hn. rewrite Forall_forall in Hn.
  destruct (Hn _ He) as [_ Hs]. simpl in *. lia.
Qed.

(** ** Runs of header updates *)

Lemma set_preceding_ok h n p q b :
  words h !! (n + offset fpreceding) = Some (prec q b) →
  0 ≤ p < 2147483648 → 0 ≤ q < 2147483648 →
  set_preceding n p h =
    Some (tt, set_words (<[n + offset fpreceding := prec p b]> (words h)) h).
Proof.
  intros Hn Hp Hq. unfold set_preceding. erewrite K_bind_Some by (by apply get_Some).
  rewrite lor_prec by done. apply put_Some. by eexists.
Qed.

Lemma seq4 {S A} (a b c d : K S unit) (e : K S A) s s' :
  (a;; b;; c;; d) s = Some (tt, s') → (a;; b;; c;; d;; e) s = e s'.
Proof.
  unfold mbind, K_bind. destruct (a s) as [[[] s1]|]; simpl; [|done].
  destruct (b s1) as [[[] s2]|]; simpl; [|done]. destruct (c s2) as [[[] s3]|]; simpl; [|done].
  by intros ->.
Qed.

(** The headers at [A] and [A + x] when the bytes from [A] to the chunk behind
    [A + x + y] become two chunks, the second one allocated or not ([by']). *)
Definition split_mem (A x y : Z) (by' b2 : bool) m : gmap Z Z :=
  <[A + x + y + offset fpreceding := prec y b2]>
  (<[A + offset fsize := x]>
  (<[A + x + offset fpreceding := prec x by']> (<[A + x + offset fsize := y]> m))).

Definition split_words (A x y : Z) : list Z :=
  [A + x + offset fsize; A + x + offset fpreceding; A + offset fsize; A + x + y + offset fpreceding].

Section split.
Context h cs1 (s0 : Z) (bx : bool) (rest : list chunk) (s2 : Z) (b2 : bool) cs2 (x y : Z) (by' : bool) F.
Abbreviation A := (base + span cs1).
Context (Hhp : hp h (cs1 ++ ((s0, bx) :: rest) ++ (s2, b2) :: cs2) F) (Hne : cs1 ≠ [])
  (Hx : good (x, bx)) (Hy : good (y, by')) (Hxy : x + y = s0 + span rest).

Lemma split_range :
  A mod 16 = 8 ∧ base + 8 ≤ A ∧ 16 ≤ x ∧ 16 ≤ y ∧ (A + x) mod 16 = 8 ∧ A + x + y + 8 ≤ lim ∧
  ∃ q, 0 ≤ q < 2147483648 ∧ words h !! (A + x + y + offset fpreceding) = Some (prec q b2).
Proof using Hhp Hne Hx Hxy Hy geo.
  destruct Hx as [Hx1 Hx2], Hy as [Hy1 Hy2]. simpl in Hx1, Hx2, Hy1, Hy2.
  pose proof (hp_shape _ _ _ _ _ _ Hhp) as Hsh. pose proof Hsh as Hsh1.
  destruct (shape_at _ _ _ geo _ _ _ _ Hsh1 Hne) as (HA & Hlo & _).
  rewrite app_assoc in Hsh1.
  destruct (shape_at _ _ _ geo _ _ _ _ Hsh1) as (_ & _ & Hhi & Hs2 & _); [by destruct cs1|].
  rewrite span_app in Hhi. simpl in Hhi.
  pose proof (hp_layout _ _ _ _ _ _ Hhp) as Hlay.
  apply layout_app in Hlay as [_ Hlay]. apply layout_app in Hlay as [_ (_ & Hp2 & _)].
  simpl in Hp2. replace (A + (s0 + span rest)) with (A + x + y) in Hp2 by lia.
  split_and!; [done|done|done|done|Z.div_mod_to_equations; lia|lia|].
  eexists. split; [|exact Hp2]. rewrite <- last_size_app. by eapply last_size_bound.
Qed.

Lemma split_hp :
  Forall (.∉ F.*1) (addrs A ((s0, bx) :: rest)) →
  let m' := split_mem A x y by' b2 (words h) in
  hp (set_words m' h) (cs1 ++ (x, bx) :: (y, by') :: (s2, b2) :: cs2) F ∧
  touched (split_words A x y) (words h) m'.
Proof using Hhp Hne Hx Hxy Hy geo.
  intros HF m'. destruct split_range as (HA & Hlo & Hx16 & Hy16 & HAx & Hhi & q & Hq & Hp2).
  pose proof (hp_layout _ _ _ _ _ _ Hhp) as Hlay.
  apply layout_app in Hlay as [_ Hlay]. apply layout_app in Hlay as [(Hs0 & Hp0 & _) _].
  pose proof (hp_map _ _ _ _ _ _ Hhp) as Hmap.
  assert (touched (split_words A x y) (words h) m') as T4.
  { unfold m', split_mem. apply (touched_insert [_; _; _]); [|by eexists].
    apply (touched_insert [_; _]); [|by eexists].
    apply (touched_insert [_]); [apply (touched_insert []); [apply touched_refl|]|];
      apply Hmap; (unfold offset; lia || unfold offset; Z.div_mod_to_equations; lia). }
  split; [|done].
  apply (hp_splice _ _ _ geo h cs1 ((s0, bx) :: rest) s2 b2 cs2 [(x, bx); (y, by')] F m');
    simpl; [done|done|by apply Forall_cons; split; [|apply Forall_singleton]|lia|done| |split_and!|].
  + eapply touched_weaken; [exact T4|]. intros w. unfold split_words.
    rewrite !elem_of_cons, !elem_of_app, !elem_of_cons.
    replace (A + (s0 + span rest)) with (A + x + y) by lia. tauto.
  + unfold m', split_mem. look.
  + unfold m', split_mem. look.
  + unfold m', split_mem. look.
  + unfold m', split_mem. look.
  + done.
  + replace (A + (s0 + span rest)) with (A + x + y) by lia. apply lookup_insert_eq.
Qed.
End split.

(** A chunk is cut in two, as [mm_malloc] does it. *)
Lemma split_ok h cs1 s0 bx rest s2 b2 cs2 x y F :
  let A := base + span cs1 in
  hp h (cs1 ++ ((s0, bx) :: rest) ++ (s2, b2) :: cs2) F → cs1 ≠ [] →
  good (x, bx) → good (y, false) → x + y = s0 + span rest →
  Forall (.∉ F.*1) (addrs A ((s0, bx) :: rest)) →
  ∃ m', (put (A + x) fsize y;; put (A + x) fpreceding x;; put A fsize x;;
         set_preceding (A + x + y) y) h = Some (tt, set_words m' h) ∧
    hp (set_words m' h) (cs1 ++ (x, bx) :: (y, false) :: (s2, b2) :: cs2) F ∧
    touched (split_words A x y) (words h) m'.
Proof.
  intros A Hhp Hne Hx Hy Hxy HF.
  destruct (split_range _ _ _ _ _ _ _ _ _ _ _ _ Hhp Hne Hx Hy Hxy)
    as (HA & Hlo & Hx16 & Hy16 & HAx & Hhi & q & Hq & Hp2). fold A in HA, Hlo, HAx, Hhi, Hp2.
  exists (split_mem A x y false b2 (words h)).
  split; [|by apply (split_hp _ _ _ _ _ _ _ _ _ _ _ _ Hhp)].
  set (h1 := set_words (<[A + x + offset fsize := y]> (words h)) h).
  destruct (put_touched base lim h [] (words h) (A + x) fsize y) as [R1 T1];
    [apply touched_refl|apply Hhp|unfold offset; lia|Z.div_mod_to_equations; lia|].
  destruct (put_touched base lim h1 _ (words h) (A + x) fpreceding x T1) as [R2 T2];
    [apply Hhp|unfold offset; lia|Z.div_mod_to_equations; lia|].
  set (h2 := set_words (<[A + x + offset fpreceding := x]> (words h1)) h1) in *.
  destruct (put_touched base lim h2 _ (words h) A fsize x T2) as [R3 T3];
    [apply Hhp|unfold offset; lia|Z.div_mod_to_equations; lia|].
  set (h3 := set_words (<[A + offset fsize := x]> (words h2)) h2) in *.
  rewrite (K_bind_Some _ _ _ _ _ R1). fold h1. rewrite (K_bind_Some _ _ _ _ _ R2). fold h2.
  rewrite (K_bind_Some _ _ _ _ _ R3). fold h3.
  rewrite (set_preceding_ok h3 _ y q b2); [done| |destruct geo; lia|done].
  unfold h3, h2, h1. simpl. look.
Qed.

(** ** Coalesced lists *)

Definition meet (c c' : option chunk) : Prop :=
  match c, c' with Some c, Some c' => c.2 = true ∨ c'.2 = true | _, _ => True end.

Lemma coalesced_cons c cs : coalesced (c :: cs) ↔ meet (Some c) (head cs) ∧ coalesced cs.
Proof. destruct cs as [|c' cs]; simpl; tauto. Qed.

Lemma coalesced_app cs1 cs2 :
  coalesced (cs1 ++ cs2) ↔ coalesced cs1 ∧ coalesced cs2 ∧ meet (last cs1) (head cs2).
Proof.
  induction cs1 as [|c cs1 IH]; cbn [app]; [cbn; tauto|].
  rewrite !coalesced_cons, IH, last_cons. destruct cs1 as [|c' cs1]; cbn [app head last].
  - cbn. tauto.
  - destruct (last (c' :: cs1)) eqn:Hl; [tauto|]. by apply last_None in Hl.
Qed.

Lemma coalesced_alloc cs1 s cs2 s' r :
  coalesced (cs1 ++ (s, false) :: cs2) →
  coalesced (cs1 ++ (s', true) :: cs2) ∧ coalesced (cs1 ++ (s', true) :: (r, false) :: cs2).
Proof.
  rewrite !coalesced_app, !coalesced_cons. cbn [head]. unfold meet. cbn [snd].
  destruct (last cs1) as [[]|], (head cs2) as [[]|]; cbn; naive_solver.
Qed.

(** ** mm_malloc *)

(** What [mm_malloc] makes of a free chunk of size [s]. *)
Definition alloc_split (s asz : Z) : list chunk :=
  if 16 <=? s - asz then [(asz, true); (s - asz, false)] else [(s, true)].

Lemma malloc_ndx asz :
  16 ≤ asz →
  ∃ i, (if MM_MAX_CHUNK <=? asz then Some (MM_NNODES - 1) else mm_size2ndx asz) = Some i ∧
       0 ≤ i < 19 ∧ 16 * 2 ^ i ≤ asz.
Proof.
  intros Ha. destruct (size2ndx_ok asz Ha) as (i & Hi & Hr & Hlo & _). exists i.
  split; [|done]. rewrite <- Hi. unfold mm_size2ndx. by destruct (MM_MAX_CHUNK <=? asz).
Qed.

Lemma chunk_pos cs a s b : shape base lim cs → chunk_at base cs a s b → 8 ≤ s < 2147483648.
Proof.
  intros Hsh (c1 & c2 & -> & _). pose proof (span_pos _ _ _ geo _ Hsh) as Hp.
  apply Forall_app in Hp as [_ Hp]. by apply Forall_cons in Hp as [Hp _].
Qed.

(** No free node starts inside a chunk. *)
Lemma inside_notin h cs F a s b z :
  hp h cs F → chunk_at base cs a s b → a < z < a + s → z ∉ F.*1.
Proof.
  intros Hhp Ha Hz ([n sn] & -> & Hn)%list_elem_of_fmap. simpl in Hz.
  pose proof (hp_shape _ _ _ _ _ _ Hhp) as Hsh.
  destruct (hp_nodes _ _ _ _ _ _ Hhp _ _ Hn) as (b' & Hb').
  pose proof (chunk_pos _ _ _ _ Hsh Hb').
  destruct (chunk_order _ _ _ _ _ _ _ _ (shape_sizes _ _ _ Hsh) Ha Hb') as [?|[?|?]]; lia.
Qed.

(** The free chunk [(s, false)] behind [cs1], taken off the list. *)

Section take.
Context h cs1 (s : Z) (c2 : chunk) (cs2 : list chunk) F (asz : Z).
Abbreviation node := (base + span cs1).
Abbreviation cs := (cs1 ++ (s, false) :: c2 :: cs2).
Context (Hhp : hp h cs F) (Hne : cs1 ≠ []) (HnF : node ∉ F.*1).

(** It is marked as allocated. *)
Lemma malloc_mark :
  ∃ m', (p ← get node fpreceding; put node fpreceding (Z.lor p MM_ALLOC_BIT);;
         mret (node + SIZEOF_MM_ALLOCNODE)) h = Some (node + 8, set_words m' h) ∧
    hp (set_words m' h) (cs1 ++ (s, true) :: c2 :: cs2) F ∧
    touched [node + offset fpreceding] (words h) m'.
Proof using Hhp Hne HnF geo.
  pose proof (hp_shape _ _ _ _ _ _ Hhp) as Hsh.
  destruct (hp_flag _ _ _ geo _ cs1 s false c2 cs2 F true Hhp Hne HnF) as (Hrun & Ht & Hhp').
  eexists. split; [|by split].
  erewrite K_bind_Some by (by apply (hp_prec _ _ _ _ _ _ _ _ _ Hhp)).
  change (prec (last_size 0 cs1) false) with (last_size 0 cs1).
  rewrite lor_alloc by (by eapply last_size_bound). by rewrite (K_bind_Some _ _ _ _ _ Hrun).
Qed.

Context (Hasz : 16 ≤ asz) (Hasz16 : asz mod 16 = 0).

(** What is not needed of it becomes a free chunk. *)
Lemma malloc_cut :
  16 ≤ s - asz → F ⊆ free_of base cs →
  ∃ m', (put (node + asz) fsize (s - asz);; put (node + asz) fpreceding asz;; put node fsize asz;;
         set_preceding (node + s) (s - asz);; mm_addfreechunk nl (node + asz)) h =
      Some (tt, set_words m' h) ∧
    hp (set_words m' h) (cs1 ++ (asz, false) :: (s - asz, false) :: c2 :: cs2)
      ((node + asz, s - asz) :: F) ∧
    ∃ ks, touched ks (words h) m' ∧ quiet cs ks.
Proof using Hhp Hne HnF Hasz Hasz16 geo.
  intros Hsplit HsubF. pose proof (hp_shape _ _ _ _ _ _ Hhp) as Hsh.
  destruct (shape_at _ _ _ geo _ _ _ _ Hsh Hne) as (_ & _ & _ & _ & _ & Hin).
  destruct (Hin ltac:(done)) as [[Hs Hs16] _]. simpl in Hs, Hs16.
  assert (chunk_at base cs node s false) as Hat by (by exists cs1, (c2 :: cs2)).
  destruct c2 as [s2 b2].
  destruct (split_ok h cs1 s false [] s2 b2 cs2 asz (s - asz) F) as (m1 & Hrun1 & Hhp1 & Ht1);
    [done|done|done|split; simpl; [lia|Z.div_mod_to_equations; lia]|simpl; lia|by constructor|].
  unfold split_words in Ht1. replace (node + asz + (s - asz)) with (node + s) in Hrun1, Ht1 by lia.
  assert (node + asz = base + span (cs1 ++ [(asz, false)])) as Hrem by (rewrite span_app; simpl; lia).
  destruct (hp_add _ _ _ geo (set_words m1 h) (cs1 ++ [(asz, false)]) (s - asz) false
    ((s2, b2) :: cs2) F) as (m2 & Hrun2 & Hhp2 & Ht2); [by rewrite <- app_assoc|by destruct cs1|done| |].
  { rewrite <- Hrem. eapply inside_notin; [exact Hhp|exact Hat|lia]. }
  rewrite <- Hrem in Hrun2, Hhp2, Ht2. rewrite <- app_assoc in Hhp2. cbn [app] in Hhp2.
  exists m2. split; [|split; [done|]].
  - rewrite (seq4 _ _ _ _ _ _ _ Hrun1). exact Hrun2.
  - eexists. split; [eapply touched_trans; [exact Ht1|exact Ht2]|]. apply quiet_app.
    + apply quiet_cons; [|apply quiet_cons; [|apply quiet_cons]].
      * eapply quiet_free; [done|exact Hat|unfold offset; lia].
      * eapply quiet_free; [done|exact Hat|unfold offset; lia].
      * eapply quiet_hdr; [done|exact Hat|by left].
      * eapply (quiet_hdr _ (node + s) s2 b2); [done| |by right].
        exists (cs1 ++ [(s, false)]), cs2. split; [by rewrite <- app_assoc|].
        rewrite span_app. simpl. lia.
    + apply quiet_links; [done|]. constructor; [|by eapply free_inside].
      exists node, s. split; [done|]. simpl. lia.
Qed.
End take.

Lemma malloc_take h cs1 s c2 cs2 F asz :
  let node := base + span cs1 in
  hp h (cs1 ++ (s, false) :: c2 :: cs2) F → cs1 ≠ [] → node ∉ F.*1 →
  16 ≤ asz → asz mod 16 = 0 → asz ≤ s →
  F ⊆ free_of base (cs1 ++ (s, false) :: c2 :: cs2) →
  let cs := cs1 ++ (s, false) :: c2 :: cs2 in
  let cs' := cs1 ++ alloc_split s asz ++ c2 :: cs2 in
  ∃ m', (s ← get node fsize;
         let remaining := u32 (s - asz) in
         kwhen (SIZEOF_MM_FREENODE <=? remaining)
           (s ← get node fsize;
            let next := node + s in
            let remainder := node + asz in
            put remainder fsize remaining;;
            put remainder fpreceding asz;;
            put node fsize asz;;
            set_preceding next remaining;;
            mm_addfreechunk nl remainder);;
         p ← get node fpreceding;
         put node fpreceding (Z.lor p MM_ALLOC_BIT);;
         mret (node + SIZEOF_MM_ALLOCNODE)) h = Some (node + 8, set_words m' h) ∧
    hp (set_words m' h) cs' (free_of node (alloc_split s asz) ++ F) ∧
    ∃ ks, touched ks (words h) m' ∧ quiet cs ks.
Proof.
  intros node Hhp Hne HnF Hasz Hasz16 Hle HsubF cs cs'.
  pose proof (hp_shape _ _ _ _ _ _ Hhp) as Hsh.
  destruct (shape_at _ _ _ geo _ _ _ _ Hsh Hne) as (HA & Hlo & _ & _ & _ & Hin).
  fold node in HA, Hlo, Hin. destruct (Hin ltac:(done)) as [[Hs Hs16] Hhi]. simpl in Hs, Hs16.
  assert (quiet cs [node + offset fpreceding]) as Hq.
  { eapply (quiet_hdr _ node s false); [done|by exists cs1, (c2 :: cs2)|by right]. }
  assert (u32 (s - asz) = s - asz) as Hu.
  { apply wrap_u_small. change (2 ^ 32) with 4294967296. destruct geo. lia. }
  pose proof (hp_size _ _ _ _ _ _ _ _ _ Hhp) as Hsz. fold node in Hsz.
  rewrite (K_bind_Some _ _ _ _ _ Hsz). cbv zeta. rewrite Hu.
  change SIZEOF_MM_FREENODE with 16. unfold cs', alloc_split.
  destruct (Z.leb_spec 16 (s - asz)) as [Hsplit|Hsplit]; cbn [kwhen].
  - destruct (malloc_cut h cs1 s c2 cs2 F asz) as (m2 & Hrun2 & Hhp2 & ks & Ht2 & Hq2); [done..|].
    fold node in Hrun2, Hhp2. destruct (malloc_mark _ _ _ _ _ _ Hhp2 Hne) as (m3 & Hrun3 & Hhp3 & Ht3).
    { csimpl. apply not_elem_of_cons. split; [fold node; lia|done]. }
    exists m3. split; [|split; [exact Hhp3|]].
    + erewrite (K_bind_Some _ _ _ tt (set_words m2 h)); [exact Hrun3|].
      rewrite (K_bind_Some _ _ _ _ _ Hsz). exact Hrun2.
    + eexists. split; [eapply touched_trans; [exact Ht2|exact Ht3]|]. by apply quiet_app.
  - assert (asz = s) as -> by (Z.div_mod_to_equations; lia).
    destruct (malloc_mark _ _ _ _ _ _ Hhp Hne HnF) as (m3 & Hrun3 & Hhp3 & Ht3).
    exists m3. split; [exact Hrun3|]. split; [exact Hhp3|]. by exists [node + offset fpreceding].
Qed.

Lemma shape_free cs1 s cs2 : shape base lim (cs1 ++ (s, false) :: cs2) → cs1 ≠ [] ∧ cs2 ≠ [].
Proof.
  intros Hsh. assert (cs1 ≠ []) as Hne.
  { destruct Hsh as (inner & Heq & _). by destruct cs1. }
  split; [done|]. intros ->.
  destruct (shape_at _ _ _ geo _ _ _ _ Hsh Hne) as (_ & _ & _ & _ & Hend & _).
  by destruct (Hend eq_refl) as (_ & [=] & _).
Qed.

(** Taking a free chunk off the list of all free chunks. *)
Lemma free_of_middle cs1 s cs2 :
  let F' := free_of base cs1 ++ free_of (base + span cs1 + s) cs2 in
  free_of base (cs1 ++ (s, false) :: cs2) ≡ₚ (base + span cs1, s) :: F'.
Proof. rewrite free_of_app. simpl. by rewrite Permutation_middle. Qed.

Lemma free_node_notin h cs1 s cs2 :
  hp h (cs1 ++ (s, false) :: cs2) (free_of base (cs1 ++ (s, false) :: cs2)) →
  base + span cs1 ∉ (free_of base cs1 ++ free_of (base + span cs1 + s) cs2).*1.
Proof.
  intros Hhp. destruct (hp_list _ _ _ _ _ _ Hhp) as [L Hfl].
  pose proof (fl_nodup _ _ _ _ _ _ Hfl) as Hnd. rewrite free_of_middle in Hnd.
  csimpl in Hnd. by apply NoDup_cons in Hnd as [? _].
Qed.

Lemma malloc_ok h cs size :
  heap_ok h cs → 1 ≤ size ≤ 4294967272 →
  let asz := chunk_size size in
  (Forall (λ e, e.2 < asz) (free_of base cs) ∧ mm_malloc nl size h = Some (0, h)) ∨
  ∃ cs1 s cs2 m', cs = cs1 ++ (s, false) :: cs2 ∧ asz ≤ s ∧
    Forall (λ e, asz ≤ e.2 → s ≤ e.2) (free_of base cs) ∧
    mm_malloc nl size h = Some (base + span cs1 + 8, set_words m' h) ∧
    heap_ok (set_words m' h) (cs1 ++ alloc_split s asz ++ cs2) ∧
    ∀ w, data base cs w → m' !! w = words h !! w.
Proof.
  intros [Hhp Hco] Hsize asz. destruct (chunk_size_ok size Hsize) as (Hal & Ha & Ha16 & Hr).
  fold asz in Hal, Ha, Ha16, Hr. destruct (hp_list _ _ _ _ _ _ Hhp) as [L Hfl].
  destruct (malloc_ndx asz Ha) as (i & Hndx & Hi & Hlo).
  destruct (malloc_search_ok _ _ _ geo h L _ asz i Hfl Hi Hlo)
    as (first & node & Hfst & Hsearch & Hres).
  unfold mm_malloc. rewrite (proj2 (Z.ltb_ge size 1)) by lia. rewrite Hal. cbv zeta.
  rewrite kassert_step by (apply Z.leb_le; lia). erewrite K_bind_Some by (unfold klift; rewrite Hndx; reflexivity).
  rewrite (K_bind_Some _ _ _ _ _ Hfst). erewrite K_bind_Some by reflexivity.
  rewrite (K_bind_Some _ _ _ _ _ Hsearch).
  destruct Hres as [[-> Hall]|(s & Hin & Hn0 & Hle & Hbest)]; [by left|right].
  apply elem_of_free_of in Hin as (cs1 & cs2 & -> & ->).
  destruct (shape_free _ _ _ (hp_shape _ _ _ _ _ _ Hhp)) as [Hne1 Hne2].
  destruct cs2 as [|c2 cs2]; [done|].
  set (F' := free_of base cs1 ++ free_of (base + span cs1 + s) (c2 :: cs2)).
  destruct (hp_remove _ _ _ geo h _ _ _ _ F' Hhp (free_of_middle _ _ _)) as (m1 & Hrun1 & Hhp1 & Ht1).
  destruct (malloc_take (set_words m1 h) cs1 s c2 cs2 F' asz Hhp1 Hne1)
    as (m2 & Hrun2 & Hhp2 & ks & Ht2 & Hq2); [by eapply free_node_notin|done|done|done| |].
  { intros e He. rewrite free_of_middle. by right. }
  exists cs1, s, (c2 :: cs2), m2. do 3 (split; [done|]). split; [|split; [split|]].
  - rewrite (proj2 (Z.eqb_neq _ 0) Hn0). rewrite (K_bind_Some _ _ _ _ _ Hrun1). exact Hrun2.
  - eapply hp_perm; [|exact Hhp2]. rewrite !free_of_app. unfold F'.
    assert (span (alloc_split s asz) = s) as ->.
    { unfold alloc_split. destruct (16 <=? s - asz); simpl; lia. }
    apply Permutation_app_swap_app.
  - destruct (coalesced_alloc _ _ _ asz (s - asz) Hco) as [_ Hc2].
    destruct (coalesced_alloc _ _ _ s 0 Hco) as [Hc1 _].
    unfold alloc_split. by destruct (16 <=? s - asz).
  - intros w Hw. eapply touched_data; [eapply touched_trans; [exact Ht1|exact Ht2]| |exact Hw].
    apply quiet_app; [|done]. apply quiet_links; [apply Hhp|]. by eapply free_inside.
Qed.

(** ** mm_free *)

(** A chunk absorbs the next one, which is on no list any more. *)
Lemma absorb_ok h cs1 x bx y by' s2 b2 cs2 F :
  let A := base + span cs1 in
  hp h (cs1 ++ (x, bx) :: (y, by') :: (s2, b2) :: cs2) F → cs1 ≠ [] →
  A ∉ F.*1 → A + x ∉ F.*1 →
  ∃ m', (∀ C (k : K mm_heap_s C),
      (s ← get A fsize; ns ← get (A + x) fsize; put A fsize (u32 (s + ns));;
       s ← get A fsize; set_preceding (A + x + y) s;; k) h = k (set_words m' h)) ∧
    hp (set_words m' h) (cs1 ++ (x + y, bx) :: (s2, b2) :: cs2) F ∧
    touched [A + offset fsize; A + x + y + offset fpreceding] (words h) m'.
Proof.
  intros A Hhp Hne HAF HxF. pose proof (hp_shape _ _ _ _ _ _ Hhp) as Hsh.
  destruct (shape_at _ _ _ geo _ _ _ _ Hsh Hne) as (HA & Hlo & _ & _ & _ & Hx).
  fold A in HA, Hlo, Hx. destruct (Hx ltac:(done)) as [[Hx1 Hx2] Hxhi]. simpl in Hx1, Hx2.
  assert (hp h ((cs1 ++ [(x, bx)]) ++ (y, by') :: (s2, b2) :: cs2) F) as Hhp2.
  { by rewrite <- app_assoc. }
  pose proof (hp_shape _ _ _ _ _ _ Hhp2) as Hsh2.
  destruct (shape_at _ _ _ geo _ _ _ _ Hsh2) as (_ & _ & _ & _ & _ & Hy); [by destruct cs1|].
  assert (base + span (cs1 ++ [(x, bx)]) = A + x) as HAx.
  { rewrite span_app. simpl. unfold A. lia. }
  rewrite HAx in Hy. destruct (Hy ltac:(done)) as [[Hy1 Hy2] Hyhi]. simpl in Hy1, Hy2.
  assert (u32 (x + y) = x + y) as Hu.
  { apply wrap_u_small. change (2 ^ 32) with 4294967296. destruct geo. lia. }
  pose proof (hp_layout _ _ _ _ _ _ Hhp) as Hlay.
  apply layout_app in Hlay as [_ (Hsz & Hpr & Hysz & _ & _ & Hp2 & _)]. fold A in Hsz, Hpr, Hysz, Hp2.
  destruct (put_touched base lim h [] (words h) A fsize (x + y)) as [R1 T1];
    [apply touched_refl|apply Hhp|unfold offset; lia|Z.div_mod_to_equations; lia|].
  set (h1 := set_words (<[A + offset fsize := x + y]> (words h)) h) in *.
  set (m' := <[A + x + y + offset fpreceding := prec (x + y) b2]> (words h1)).
  assert (touched [A + offset fsize; A + x + y + offset fpreceding] (words h) m') as T2.
  { apply (touched_insert _ _ _ _ _ T1). by eexists. }
  exists m'. split; [|split; [|done]].
  - intros C k. erewrite K_bind_Some by (by apply get_Some).
    erewrite K_bind_Some by (by apply get_Some). rewrite Hu.
    rewrite (K_bind_Some _ _ _ _ _ R1). erewrite K_bind_Some by (apply get_Some, lookup_insert_eq).
    erewrite K_bind_Some; [reflexivity|]. apply (set_preceding_ok h1 _ _ y b2); [|destruct geo; lia..].
    unfold h1. simpl. look.
  - apply (hp_splice _ _ _ geo h cs1 [(x, bx); (y, by')] s2 b2 cs2 [(x + y, bx)] F m');
      fold A; simpl; [done|done| |lia|by repeat constructor| |split_and!|].
    + constructor; [|done]. split; simpl; [lia|]. Z.div_mod_to_equations. lia.
    + eapply touched_weaken; [exact T2|]. intros w. rewrite !elem_of_cons.
      replace (A + (x + (y + 0))) with (A + x + y) by lia. tauto.
    + unfold m', h1. simpl. look.
    + unfold m', h1. simpl. look.
    + done.
    + replace (A + (x + (y + 0))) with (A + x + y) by lia. apply lookup_insert_eq.
Qed.

(** The chunk is merged with a free chunk behind it. *)
Lemma free_next h cs1 s cs2 F :
  let node := base + span cs1 in
  hp h (cs1 ++ (s, false) :: cs2) F → cs1 ≠ [] → cs2 ≠ [] → node ∉ F.*1 →
  (∀ ns cs3, cs2 = (ns, false) :: cs3 → (node + s, ns) ∈ F) →
  ∃ n1 q2 m' F', cs2 = n1 ++ q2 ∧ q2 ≠ [] ∧ F ≡ₚ free_of (node + s) n1 ++ F' ∧
    (n1 = [] ∧ meet (Some (s, false)) (head q2) ∨ ∃ ns, n1 = [(ns, false)]) ∧
    (∀ C (k : Z → K mm_heap_s C),
      (s ← get node fsize;
       let next := node + s in
       free ← is_free next;
       next ← (if (free : bool) then
                 ns ← get next fsize;
                 let andbeyond := next + ns in
                 remove_node next;;
                 s ← get node fsize;
                 ns ← get next fsize;
                 put node fsize (u32 (s + ns));;
                 s ← get node fsize;
                 set_preceding andbeyond s;;
                 mret andbeyond
               else mret next);
       k next) h = k (node + s + span n1) (set_words m' h)) ∧
    hp (set_words m' h) (cs1 ++ (s + span n1, false) :: q2) F' ∧
    touched (links (sents nl ++ F) ++
      [node + offset fsize; node + s + span n1 + offset fpreceding]) (words h) m'.
Proof.
  intros node Hhp Hne1 Hne2 HnF Hfree. destruct cs2 as [|[ns nb] cs3]; [done|].
  assert (hp h ((cs1 ++ [(s, false)]) ++ (ns, nb) :: cs3) F) as Hhp'.
  { by rewrite <- app_assoc. }
  assert (base + span (cs1 ++ [(s, false)]) = node + s) as Hns.
  { rewrite span_app. simpl. unfold node. lia. }
  pose proof (hp_is_free _ _ _ geo _ _ _ _ _ _ Hhp') as Hisf. rewrite Hns in Hisf.
  pose proof (hp_size _ _ _ _ _ _ _ _ _ Hhp) as Hsize. fold node in Hsize.
  destruct nb.
  - exists [], ((ns, true) :: cs3), (words h), F. change (span []) with 0. rewrite !Z.add_0_r.
    split; [done|]. split; [done|]. split; [done|]. split; [left; by split; [|right]|]. split.
    + intros C k. erewrite K_bind_Some by (exact Hsize). cbv zeta.
      erewrite K_bind_Some by (exact Hisf). cbn [negb]. erewrite K_bind_Some by reflexivity.
      by destruct h.
    + split; [by destruct h|]. by split.
  - specialize (Hfree ns cs3 eq_refl). apply elem_of_Permutation in Hfree as [F' HF].
    destruct (shape_free _ _ _ (hp_shape _ _ _ _ _ _ Hhp')) as [_ Hne3].
    destruct cs3 as [|[s2 b2] cs3]; [done|].
    destruct (hp_remove _ _ _ geo h _ _ _ _ F' Hhp HF) as (m1 & Hrun1 & Hhp1 & Ht1).
    pose proof (hp_list _ _ _ _ _ _ Hhp) as [L Hfl].
    pose proof (fl_nodup _ _ _ _ _ _ Hfl) as Hnd. rewrite HF in Hnd, HnF. csimpl in Hnd. csimpl in HnF.
    apply NoDup_cons in Hnd as [HsF' _]. apply not_elem_of_cons in HnF as [_ HnF'].
    destruct (absorb_ok (set_words m1 h) cs1 s false ns false s2 b2 cs3 F' Hhp1 Hne1 HnF' HsF')
      as (m2 & Hrun2 & Hhp2 & Ht2). fold node in Hrun2, Ht2.
    exists [(ns, false)], ((s2, b2) :: cs3), m2, F'.
    change (span [(ns, false)]) with (ns + 0). rewrite Z.add_0_r.
    split; [done|]. split; [done|]. split; [done|]. split; [right; by eexists|]. split; [|split; [done|]].
    + intros C k. erewrite K_bind_Some by (exact Hsize). cbv zeta.
      erewrite K_bind_Some by (exact Hisf). cbn [negb].
      erewrite (K_bind_Some _ _ _ (node + s + ns) (set_words m2 h)); [done|].
      erewrite K_bind_Some; last first.
      { rewrite <- Hns. by apply (hp_size _ _ _ _ _ _ _ _ _ Hhp'). }
      rewrite (K_bind_Some _ _ _ _ _ Hrun1). by rewrite Hrun2.
    + eapply touched_trans; [exact Ht1|exact Ht2].
Qed.

(** The chunk is merged with a free chunk before it. *)
Lemma free_prev h cs1 s q2 F :
  let node := base + span cs1 in
  hp h (cs1 ++ (s, false) :: q2) F → cs1 ≠ [] → q2 ≠ [] → node ∉ F.*1 →
  (∀ ps c0, cs1 = c0 ++ [(ps, false)] → (base + span c0, ps) ∈ F) →
  ∃ q1 p1 m' F', cs1 = q1 ++ p1 ∧ q1 ≠ [] ∧ F ≡ₚ free_of (base + span q1) p1 ++ F' ∧
    (p1 = [] ∧ meet (last q1) (Some (s, false)) ∨ ∃ ps, p1 = [(ps, false)]) ∧
    (∀ C (k : Z → K mm_heap_s C),
      (p ← get node fpreceding;
       let prev := node - p in
       free ← is_free prev;
       node ← (if (free : bool) then
                 remove_node prev;;
                 ps ← get prev fsize;
                 s' ← get node fsize;
                 put prev fsize (u32 (ps + s'));;
                 ps ← get prev fsize;
                 set_preceding (node + s) ps;;
                 mret prev
               else mret node);
       k node) h = k (base + span q1) (set_words m' h)) ∧
    hp (set_words m' h) (q1 ++ (span p1 + s, false) :: q2) F' ∧
    touched (links (sents nl ++ F) ++
      [base + span q1 + offset fsize; node + s + offset fpreceding]) (words h) m'.
Proof.
  intros node Hhp Hne1 Hne2 HnF Hfree.
  destruct cs1 as [|[ps pb] c0 _] using rev_ind; [done|].
  assert (hp h (c0 ++ (ps, pb) :: (s, false) :: q2) F) as Hhp'.
  { by rewrite <- app_assoc in Hhp. }
  pose proof (hp_is_free _ _ _ geo _ _ _ _ _ _ Hhp') as Hisf.
  pose proof (hp_prec _ _ _ _ _ _ _ _ _ Hhp) as Hpre. rewrite last_size_app in Hpre. cbn in Hpre.
  fold node in Hpre.
  assert (node = base + span c0 + ps) as Hnode.
  { unfold node. rewrite span_app. simpl. lia. }
  assert (node - ps = base + span c0) as Hprev by lia.
  destruct pb.
  - exists (c0 ++ [(ps, true)]), [], (words h), F. change (span []) with 0. rewrite app_nil_r.
    split; [done|]. split; [done|]. split; [done|].
    split; [left; split; [done|]; rewrite last_snoc; by left|]. split.
    + intros C k. erewrite K_bind_Some by exact Hpre. cbv zeta. rewrite Hprev.
      erewrite K_bind_Some by exact Hisf. cbn [negb]. erewrite K_bind_Some by reflexivity.
      fold node. by destruct h.
    + split; [by destruct h|]. by split.
  - specialize (Hfree ps c0 eq_refl). apply elem_of_Permutation in Hfree as [F' HF].
    destruct (shape_free _ _ _ (hp_shape _ _ _ _ _ _ Hhp')) as [Hne0 _].
    destruct q2 as [|[s2 b2] q2]; [done|].
    destruct (hp_remove _ _ _ geo h _ _ _ _ F' Hhp' HF) as (m1 & Hrun1 & Hhp1 & Ht1).
    pose proof (hp_list _ _ _ _ _ _ Hhp) as [L Hfl].
    pose proof (fl_nodup _ _ _ _ _ _ Hfl) as Hnd. rewrite HF in Hnd, HnF. csimpl in Hnd. csimpl in HnF.
    apply NoDup_cons in Hnd as [HpF' _]. apply not_elem_of_cons in HnF as [_ HnF'].
    destruct (absorb_ok (set_words m1 h) c0 ps false s false s2 b2 q2 F' Hhp1 Hne0 HpF')
      as (m2 & Hrun2 & Hhp2 & Ht2); [by rewrite <- Hnode|]. rewrite <- Hnode in Hrun2, Ht2.
    exists c0, [(ps, false)], m2, F'.
    change (span [(ps, false)]) with (ps + 0). rewrite Z.add_0_r.
    split; [done|]. split; [done|]. split; [done|]. split; [right; by eexists|]. split; [|split; [done|]].
    + intros C k. erewrite K_bind_Some by exact Hpre. cbv zeta. rewrite Hprev.
      erewrite K_bind_Some by exact Hisf. cbn [negb].
      erewrite (K_bind_Some _ _ _ (base + span c0) (set_words m2 h)); [done|].
      rewrite (K_bind_Some _ _ _ _ _ Hrun1). by rewrite Hrun2.
    + eapply touched_trans; [exact Ht1|exact Ht2].
Qed.

(** Merging chunks. *)
Lemma inside_merge q1 mid q2 a s :
  sizes_ok mid → chunk_at base (q1 ++ mid ++ q2) a s false →
  ∃ a' s', chunk_at base (q1 ++ (span mid, false) :: q2) a' s' false ∧ a' ≤ a ∧ a + s ≤ a' + s'.
Proof.
  intros Hz [Ha|[Ha|Ha]%chunk_at_app]%chunk_at_app.
  - exists a, s. split; [|lia]. apply chunk_at_app. by left.
  - exists (base + span q1), (span mid). split; [by exists q1, q2|].
    destruct Ha as (c1 & c2 & -> & ->). rewrite span_app. simpl.
    apply Forall_app in Hz as [Hz1 [_ Hz2]%Forall_cons].
    pose proof (span_nonneg _ Hz1). pose proof (span_nonneg _ Hz2). lia.
  - exists a, s. split; [|lia]. destruct Ha as (c1 & c2 & -> & ->).
    exists (q1 ++ (span mid, false) :: c1), c2. split; [by rewrite <- app_assoc|].
    rewrite span_app. simpl. lia.
Qed.

Lemma free_of_two q1 p1 s n1 q2 :
  let A := base + span q1 in
  free_of base ((q1 ++ p1) ++ (s, true) :: n1 ++ q2) =
  (free_of base q1 ++ free_of A p1) ++
  free_of (A + span p1 + s) n1 ++ free_of (A + (span p1 + s + span n1)) q2.
Proof.
  intros A. rewrite !free_of_app. simpl. rewrite free_of_app, span_app. unfold A.
  f_equal. f_equal; f_equal; lia.
Qed.

Definition freed q1 p1 s n1 q2 : list chunk := q1 ++ (span p1 + s + span n1, false) :: q2.

Lemma coalesced_freed q1 p1 s n1 q2 :
  coalesced ((q1 ++ p1) ++ (s, true) :: n1 ++ q2) →
  (n1 = [] ∧ meet (Some (s, false)) (head q2) ∨ ∃ ns, n1 = [(ns, false)]) →
  (p1 = [] ∧ meet (last q1) (Some (s, false)) ∨ ∃ ps, p1 = [(ps, false)]) →
  coalesced (freed q1 p1 s n1 q2).
Proof.
  unfold freed. rewrite !coalesced_app, !coalesced_cons, !coalesced_app.
  intros ((Hq1 & _ & Hp) & (_ & _ & Hq2 & Hn) & _) Hn1 Hp1.
  split; [done|]. split; [split; [|done]|].
  - destruct Hn1 as [[-> Hm]|[ns ->]]; [done|]. by destruct (head q2).
  - destruct Hp1 as [[-> Hm]|[ps ->]]; [done|]. by destruct (last q1).
Qed.

Lemma alloc_notin cs a s :
  shape base lim cs → chunk_at base cs a s true → a ∉ (free_of base cs).*1.
Proof.
  intros Hsh Ha ([n sn] & Heq & Hin)%list_elem_of_fmap. simpl in Heq. subst n.
  apply elem_of_free_of in Hin.
  pose proof (chunk_pos _ _ _ _ Hsh Ha). pose proof (chunk_pos _ _ _ _ Hsh Hin).
  destruct (chunk_order _ _ _ _ _ _ _ _ (shape_sizes _ _ _ Hsh) Ha Hin) as [?|[?|?]]; [naive_solver|lia..].
Qed.

(** The words that [mm_free] writes. *)
Lemma freed_quiet q1 p1 s n1 q2 F :
  let A := base + span q1 in let nd := A + span p1 in let tot := span p1 + s + span n1 in
  let cs := (q1 ++ p1) ++ (s, true) :: n1 ++ q2 in
  let cs' := freed q1 p1 s n1 q2 in
  shape base lim cs → shape base lim cs' → q2 ≠ [] → F ⊆ free_of base cs →
  quiet cs' [nd + offset fpreceding; nd + offset fsize; A + offset fsize;
             A + tot + offset fpreceding] ∧
  quiet cs' (links (sents nl ++ F)) ∧ quiet cs' (links (sents nl ++ (A, tot) :: F)).
Proof.
  intros A nd tot cs cs' Hsh Hsh' Hq2 HF.
  assert (cs = q1 ++ (p1 ++ (s, true) :: n1) ++ q2) as Hcs.
  { unfold cs. by rewrite <- !app_assoc. }
  assert (span (p1 ++ (s, true) :: n1) = tot) as Htot by (rewrite span_app; simpl; unfold tot; lia).
  pose proof (shape_sizes _ _ _ Hsh) as Hz. rewrite Hcs in Hz.
  apply Forall_app in Hz as [_ [Hz _]%Forall_app].
  assert (chunk_at base cs' A tot false) as Hat by (by exists q1, q2).
  assert (Forall (λ e, ∃ a s, chunk_at base cs' a s false ∧ a ≤ e.1 ∧ e.1 + 16 ≤ a + s) F) as Hin.
  { apply Forall_forall. intros [a sa] He. apply HF, elem_of_free_of in He as Ha.
    assert (16 ≤ sa) as H16.
    { destruct Ha as (c1 & c2 & Heq & _). rewrite Heq in Hsh.
      destruct (shape_free _ _ _ Hsh) as [Hc1 Hc2].
      destruct (shape_at _ _ _ geo _ _ _ _ Hsh Hc1) as (_ & _ & _ & _ & _ & Hg).
      by destruct (Hg Hc2) as [[? _] _]. }
    rewrite Hcs in Ha. destruct (inside_merge _ _ _ _ _ Hz Ha) as (a' & s' & Ha' & ? & ?).
    rewrite Htot in Ha'. exists a', s'. split; [done|]. simpl. lia. }
  apply Forall_app in Hz as [Hzp [H8 Hzn]%Forall_cons]. simpl in H8.
  pose proof (span_nonneg _ Hzp). pose proof (span_nonneg _ Hzn).
  split; [|split].
  - apply quiet_cons; [|apply quiet_cons; [|apply quiet_cons]].
    1-3: eapply quiet_free; [done|exact Hat|unfold offset, nd, tot; lia].
    destruct q2 as [|[s2 b2] q2]; [done|].
    eapply (quiet_hdr _ (A + tot) s2 b2); [done| |by right].
    exists (q1 ++ [(tot, false)]), q2. unfold cs', freed. fold tot. split; [by rewrite <- app_assoc|].
    rewrite span_app. simpl. unfold A. lia.
  - by apply quiet_links.
  - apply quiet_links; [done|]. constructor; [|done]. exists A, tot. split; [done|]. simpl.
    destruct (shape_free _ _ _ Hsh') as [Hc1 Hc2].
    destruct (shape_at _ _ _ geo _ _ _ _ Hsh' Hc1) as (_ & _ & _ & _ & _ & Hg).
    destruct (Hg Hc2) as [[? _] _]. simpl in *. unfold tot. lia.
Qed.

(** What [mm_free] leaves alone. *)
Lemma freed_data q1 p1 s n1 q2 F1 F2 m m' :
  let A := base + span q1 in let nd := base + span (q1 ++ p1) in let tot := span p1 + s + span n1 in
  let cs := (q1 ++ p1) ++ (s, true) :: n1 ++ q2 in let cs' := freed q1 p1 s n1 q2 in
  let F := free_of base cs in
  shape base lim cs → shape base lim cs' → q2 ≠ [] → F1 ⊆ F → F2 ⊆ F1 →
  touched ([nd + offset fpreceding] ++
    (links (sents nl ++ F) ++ [nd + offset fsize; nd + s + span n1 + offset fpreceding]) ++
    (links (sents nl ++ F1) ++ [A + offset fsize; nd + (s + span n1) + offset fpreceding]) ++
    links (sents nl ++ (A, span p1 + (s + span n1)) :: F2)) m m' →
  ∀ w, data base cs' w → m' !! w = m !! w.
Proof.
  intros A nd tot cs cs' F Hsh Hsh' Hne HF1 HF2 Ht w Hw.
  assert (nd = A + span p1) as Hnd by (unfold nd, A; rewrite span_app; lia).
  destruct (freed_quiet q1 p1 s n1 q2 F Hsh Hsh' Hne) as (Hk & HkF & _); [done|].
  destruct (freed_quiet q1 p1 s n1 q2 F1 Hsh Hsh' Hne HF1) as (_ & HkF1 & _).
  destruct (freed_quiet q1 p1 s n1 q2 F2 Hsh Hsh' Hne) as (_ & _ & HkF2); [by etrans|].
  fold A in Hk, HkF2. rewrite <- Hnd in Hk.
  replace (A + (span p1 + s + span n1)) with (nd + s + span n1) in Hk by lia.
  apply Forall_cons in Hk as [Hk1 [Hk2 [Hk3 [Hk4 _]%Forall_cons]%Forall_cons]%Forall_cons].
  rewrite !Z.add_assoc in Ht. eapply touched_data; [exact Ht| |exact Hw].
  apply quiet_app; [by repeat constructor|].
  apply quiet_app; [apply quiet_app; [done|by repeat constructor]|].
  apply quiet_app; [apply quiet_app; [done|by repeat constructor]|done].
Qed.

(** Taking [n] off the free chunks [x ++ n ++ y] leaves [x ++ y]. *)
Lemma unlisted_perm (F F' x n y : list (Z * Z)) : F ≡ₚ n ++ F' → F ≡ₚ x ++ n ++ y → F' ≡ₚ x ++ y.
Proof. intros H1 H2. apply (Permutation_app_inv_l n). rewrite <- H1, H2. apply Permutation_app_swap_app. Qed.

(** At most one chunk is merged from each side. *)
Abbreviation single n1 := (n1 = [] ∨ ∃ ns : Z, n1 = [(ns, false)]).

Lemma single_free (n1 : list chunk) : single n1 → Forall (λ c, c.2 = false) n1.
Proof. intros [->|[ns ->]]; by repeat constructor. Qed.

(** The chunk that begins at the start of what was merged is no longer on the list. *)
Lemma merged_notin h cs F F' p1 A :
  hp h cs F → F ≡ₚ free_of A p1 ++ F' → single p1 → A + span p1 ∉ F.*1 → A ∉ F'.*1.
Proof.
  intros Hhp HF Hp1 Hn. destruct Hp1 as [->|[ps ->]].
  { simpl in Hn. rewrite Z.add_0_r, HF in Hn. exact Hn. }
  destruct (hp_list _ _ _ _ _ _ Hhp) as [L Hfl]. pose proof (fl_nodup _ _ _ _ _ _ Hfl) as Hnd.
  rewrite HF in Hnd. csimpl in Hnd. by apply NoDup_cons in Hnd as [? _].
Qed.

Lemma free_ok h cs1 s cs2 :
  heap_ok h (cs1 ++ (s, true) :: cs2) → cs1 ≠ [] → cs2 ≠ [] →
  ∃ q1 p1 n1 q2 m', cs1 = q1 ++ p1 ∧ cs2 = n1 ++ q2 ∧
    Forall (λ c, c.2 = false) (p1 ++ n1) ∧
    mm_free nl (base + span cs1 + 8) h = Some (tt, set_words m' h) ∧
    heap_ok (set_words m' h) (freed q1 p1 s n1 q2) ∧
    ∀ w, data base (freed q1 p1 s n1 q2) w → m' !! w = words h !! w.
Proof.
  intros [Hhp Hco] Hne1 Hne2. set (cs := cs1 ++ (s, true) :: cs2) in *.
  set (F := free_of base cs) in *. set (node := base + span cs1).
  pose proof (hp_shape _ _ _ _ _ _ Hhp) as Hsh.
  assert (node ∉ F.*1) as HnF by (eapply alloc_notin; [done|by exists cs1, cs2]).
  destruct cs2 as [|c2 cs2]; [done|].
  destruct (hp_flag _ _ _ geo _ _ _ _ _ _ _ false Hhp Hne1 HnF) as (Hrun0 & Ht0 & Hhp0).
  fold node in Hrun0, Ht0. set (m0 := <[_ := _]> (words h)) in *.
  assert (F = free_of base cs1 ++ free_of (node + s) (c2 :: cs2)) as HF.
  { unfold F, cs. rewrite free_of_app. done. }
  destruct (free_next (set_words m0 h) cs1 s (c2 :: cs2) F Hhp0 Hne1 Hne2 HnF)
    as (n1 & q2 & m1 & F1 & Hcs2 & Hneq2 & HF1 & Hn1 & Hrun1 & Hhp1 & Ht1).
  { intros ns cs3 Heq. rewrite HF, Heq. apply elem_of_app. right. simpl. left. }
  fold node in HF1, Hrun1, Ht1.
  assert (F1 ≡ₚ free_of base cs1 ++ free_of (node + s + span n1) q2) as HF1'.
  { apply (unlisted_perm _ _ _ _ _ HF1). by rewrite HF, Hcs2, free_of_app. }
  assert (node ∉ F1.*1) as HnF1.
  { rewrite HF1, fmap_app in HnF. by apply not_elem_of_app in HnF as [_ ?]. }
  destruct (free_prev (set_words m1 h) cs1 (s + span n1) q2 F1 Hhp1 Hne1 Hneq2 HnF1)
    as (q1 & p1 & m2 & F2 & Hcs1 & Hneq1 & HF2 & Hp1 & Hrun2 & Hhp2 & Ht2).
  { intros ps c0 Hc0. rewrite HF1', Hc0, free_of_app. simpl. rewrite !elem_of_app. left. right. left. }
  fold node in Hrun2, Ht2. set (A := base + span q1) in *.
  assert (node = A + span p1) as HnA by (unfold node, A; rewrite Hcs1, span_app; lia).
  assert (F2 ≡ₚ free_of base q1 ++ free_of (A + (span p1 + s + span n1)) q2) as HF2'.
  { apply (unlisted_perm _ _ _ _ _ HF2). rewrite HF1', Hcs1, free_of_app, <- app_assoc.
    by replace (A + (span p1 + s + span n1)) with (node + s + span n1) by lia. }
  destruct (hp_add _ _ _ geo (set_words m2 h) q1 _ false q2 F2 Hhp2 Hneq1 Hneq2)
    as (m3 & Hrun3 & Hhp3 & Ht3).
  { apply (merged_notin _ _ _ _ p1 _ Hhp1 HF2); [naive_solver|by rewrite <- HnA]. }
  rewrite Z.add_assoc in Hhp3.
  exists q1, p1, n1, q2, m3. split; [done|]. split; [done|]. split; [|split; [|split; [split|]]].
  - apply Forall_app. split; apply single_free; naive_solver.
  - destruct (shape_at _ _ _ geo _ _ _ _ Hsh Hne1) as (_ & Hlo & _). fold node in Hlo.
    unfold mm_free. rewrite (proj2 (Z.eqb_neq _ 0)) by (destruct geo; lia). cbv zeta.
    replace (node + 8 - SIZEOF_MM_ALLOCNODE) with node by (unfold SIZEOF_MM_ALLOCNODE; lia).
    erewrite K_bind_Some by (by apply (hp_prec _ _ _ _ _ _ _ _ _ Hhp)).
    rewrite clear_prec by (by eapply last_size_bound).
    rewrite (K_bind_Some _ _ _ _ _ Hrun0), Hrun1.
    replace (node + s + span n1) with (node + (s + span n1)) by lia.
    etrans; [apply (Hrun2 _ (mm_addfreechunk nl))|]. done.
  - eapply hp_perm; [|exact Hhp3]. unfold freed. rewrite free_of_app. simpl. fold A.
    rewrite HF2'. apply Permutation_middle.
  - apply coalesced_freed; [by rewrite <- Hcs1, <- Hcs2|exact Hn1|exact Hp1].
  - assert (cs = (q1 ++ p1) ++ (s, true) :: n1 ++ q2) as Hcs by (unfold cs; by rewrite Hcs1, Hcs2).
    apply (freed_data q1 p1 s n1 q2 F1 F2 (words h)); [by rewrite <- Hcs|apply Hhp3|done| | |].
    + rewrite <- Hcs. fold F. intros e He. rewrite HF1. apply elem_of_app. by right.
    + intros e He. rewrite HF2. apply elem_of_app. by right.
    + rewrite <- Hcs, <- Hcs1. fold node A F.
      exact (touched_trans _ _ _ _ _ Ht0 (touched_trans _ _ _ _ _ Ht1 (touched_trans _ _ _ _ _ Ht2 Ht3))).
Qed.

(** ** Stores into allocated chunks *)

Lemma heap_ok_data h cs ks m' :
  heap_ok h cs → touched ks (words h) m' → Forall (data base cs) ks → heap_ok (set_words m' h) cs.
Proof.
  intros [[Hst Hen Hlay Hsh [L Hfl] Hat Hmap] Hco] [Hd Ht] Hks. split; [|done].
  pose proof (shape_sizes _ _ _ Hsh) as Hz. rewrite Forall_forall in Hks.
  assert (∀ w, ¬ data base cs w → m' !! w = words h !! w) as Hq.
  { intros w Hw. apply Ht. intros Hin. by apply Hw, Hks. }
  split; simpl; [done|done| |done| |done|].
  - eapply layout_hdrs; [|exact Hlay]. intros x (a & s & b & Ha & Hx)%elem_of_hdrs. apply Hq.
    apply (hdr_quiet _ _ _ _ _ x Hz Ha). unfold offset in Hx. lia.
  - exists L. eapply flist_frame; [exact Hfl|]. intros n f Hn Hf. apply Hq.
    rewrite (fl_perm _ _ _ _ _ _ Hfl), fmap_app in Hn.
    apply elem_of_app in Hn as [Hn|Hn]; apply list_elem_of_fmap in Hn as (e & -> & He).
    + apply elem_of_sents in He as (i & Hi & ->). intros Hw%data_range; [|done].
      destruct geo. destruct f; unfold offset in Hw; simpl in Hw; lia.
    + destruct e as [a s]. simpl in *. pose proof (fl_nodes _ _ _ _ _ _ Hfl) as Hnn.
      rewrite Forall_forall in Hnn. destruct (Hnn _ He) as [_ H16]. simpl in H16.
      apply elem_of_free_of in He. apply (free_quiet _ _ _ _ (a + offset f) Hz He).
      destruct f; unfold offset; lia.
  - intros w Hw Hw4. rewrite <- elem_of_dom, Hd, elem_of_dom. by apply Hmap.
Qed.
End ops.
