(* ===== verification/MmHeapInit.v ===== *)
(** * MmHeapInit: initialising the heap, and counting its chunks

    [mm_initialize] builds the list of size classes and one free chunk between the
    two guards; [mm_mallinfo] walks the chunks and adds up their sizes; [mm_extend]
    adds memory at the end. *)

From stdpp Require Import sorting.
From S2P Require Import Prelude MmHeap MmHeapSpec MmHeapInv MmHeapOps.
Local Open Scope Z_scope.

(** ** Filling words *)

Section fill.
Context `{Config}.

Lemma store_word_Some h a v :
  is_Some (words h !! a) → store_word a v h = Some (tt, set_words (<[a := v]> (words h)) h).
Proof. intros [x Hx]. unfold store_word, kput. by rewrite Hx. Qed.

(** The words from [a] on, [n] of them. *)
Definition in_words (a : Z) (n : nat) (w : Z) : Prop :=
  a ≤ w < a + 4 * Z.of_nat n ∧ (w - a) mod 4 = 0.

Lemma memset_words_ok n a h :
  (∀ w, in_words a n w → is_Some (words h !! w)) →
  ∃ m', memset_words n a h = Some (tt, set_words m' h) ∧ dom m' = dom (words h) ∧
    (∀ w, in_words a n w → m' !! w = Some 0) ∧ (∀ w, ¬ in_words a n w → m' !! w = words h !! w).
Proof.
  revert a h. induction n as [|n IH]; intros a h Hm.
  { exists (words h). split; [by destruct h|]. split; [done|]. split; [|done].
    intros w [? _]. lia. }
  assert (in_words a (S n) a) as Ha by (split; [lia|by rewrite Z.sub_diag]).
  assert (∀ w, in_words (a + 4) n w ↔ in_words a (S n) w ∧ w ≠ a) as Hstep.
  { intros w. unfold in_words. split.
    - intros [? ?]. split; [split; [lia|]|lia]. Z.div_mod_to_equations. lia.
    - intros [[? ?] ?]. split; Z.div_mod_to_equations; lia. }
  pose proof (Hm a Ha) as Hsa.
  destruct (IH (a + 4) (set_words (<[a := 0]> (words h)) h)) as (m' & Hrun & Hd & H0 & Hk).
  { intros w [Hw Hne]%Hstep. simpl. rewrite lookup_insert_ne by done. by apply Hm. }
  exists m'. split; [|split; [|split]].
  - cbn [memset_words]. rewrite (K_bind_Some _ _ _ _ _ (store_word_Some h a 0 Hsa)). exact Hrun.
  - rewrite Hd. simpl. by apply dom_insert_lookup_L.
  - intros w Hw. destruct (decide (w = a)) as [->|Hne]; [|by apply H0, Hstep].
    rewrite Hk; [apply lookup_insert_eq|]. intros Hw'%Hstep. naive_solver.
  - intros w Hw. rewrite Hk; [|intros Hw'%Hstep; naive_solver]. simpl.
    apply lookup_insert_ne. intros ->. done.
Qed.
End fill.

(** ** The size classes *)

Section init.
Context `{Config} (nl base lim : Z) (geo : geometry nl base lim).
Implicit Types (h : mm_heap_s) (m : gmap Z Z).

Definition classes (n : Z) : list node := (λ i, (nl + 16 * i, 0)) <$> seqZ 0 n.

Lemma classes_S n : 0 ≤ n → classes (n + 1) = classes n ++ [(nl + 16 * n, 0)].
Proof. intros Hn. unfold classes. by rewrite seqZ_app, fmap_app by lia. Qed.

Lemma elem_of_classes n a : a ∈ (classes n).*1 ↔ ∃ i, 0 ≤ i < n ∧ a = nl + 16 * i.
Proof.
  unfold classes. rewrite <- list_fmap_compose, list_elem_of_fmap. setoid_rewrite elem_of_seqZ.
  simpl. naive_solver.
Qed.

(** [n] nodes are linked, the others have no successor. *)
Definition linked m (n : Z) : Prop :=
  seg m 0 (classes n) 0 ∧
  ∀ i, n ≤ i < 19 → m !! (nl + 16 * i + offset fflink) = Some 0 ∧
                    is_Some (m !! (nl + 16 * i + offset fblink)).

Lemma link_step h n :
  linked (words h) n → 1 ≤ n < 19 →
  let m' := <[nl + 16 * n + offset fblink := nl + 16 * (n - 1)]>
              (<[nl + 16 * (n - 1) + offset fflink := nl + 16 * n]> (words h)) in
  (∀ A (k : K mm_heap_s A),
     (put (nodelist nl (n - 1)) fflink (nodelist nl n);;
      put (nodelist nl n) fblink (nodelist nl (n - 1));; k) h = k (set_words m' h)) ∧
  linked m' (n + 1) ∧ links_only (sents nl) (words h) m'.
Proof.
  intros [Hseg Hrest] Hn m'.
  assert (classes n = classes (n - 1) ++ [(nl + 16 * (n - 1), 0)]) as Hcl.
  { rewrite <- classes_S by lia. f_equal. lia. }
  assert (is_Some (words h !! (nl + 16 * (n - 1) + offset fflink))) as Hs1.
  { rewrite Hcl in Hseg. apply seg_app in Hseg as [_ (_ & Hf & _)]. by eexists. }
  destruct (Hrest n) as [Hf Hb]; [lia|].
  assert (∀ i, 0 ≤ i < 19 → cell nl base lim (nl + 16 * i)) as Hcell by (intros i Hi; right; eauto).
  split; [|split; [split|]].
  - intros A k. unfold nodelist. change SIZEOF_MM_FREENODE with 16.
    rewrite (K_bind_Some _ _ _ _ _ (put_Some h _ fflink _ Hs1)).
    erewrite K_bind_Some; [reflexivity|]. etrans; [apply put_Some|done]. simpl.
    rewrite lookup_insert_ne; [done|unfold offset; lia].
  - rewrite classes_S by lia. apply seg_app. cbn [first_or last_or]. split.
    + apply (seg_insert nl base lim geo); [|apply Forall_forall|by apply Hcell; lia|left].
      * rewrite Hcl in Hseg |- *. apply (seg_last nl base lim geo _ _ _ _ _ _ Hseg).
        -- apply Forall_app. split; [|by constructor; [apply Hcell; lia|]].
           apply Forall_forall. intros a (i & Hi & ->)%elem_of_classes. apply Hcell. lia.
        -- rewrite elem_of_classes. intros (i & Hi & ?). lia.
      * intros a (i & Hi & ->)%elem_of_classes. apply Hcell. lia.
      * rewrite elem_of_classes. intros (i & Hi & ?). lia.
    + rewrite Hcl, last_node_app. cbn. split; [apply lookup_insert_eq|]. split; [|done].
      unfold m'. rewrite !lookup_insert_ne by (unfold offset; lia). exact Hf.
  - intros i Hi. unfold m'. rewrite !lookup_insert_ne by (unfold offset; lia). apply Hrest. lia.
  - assert (∀ i, 0 ≤ i < 19 → nl + 16 * i ∈ (sents nl).*1) as Hin.
    { intros i Hi. apply list_elem_of_fmap. exists (nl + 16 * i, 0). split; [done|].
      apply elem_of_sents. eauto. }
    apply links_only_insert; [apply links_only_insert; [apply links_only_refl|apply Hin; lia|by left|done]
                             |apply Hin; lia|by right|done].
Qed.

Lemma links_only_trans L m1 m2 m3 : links_only L m1 m2 → links_only L m2 m3 → links_only L m1 m3.
Proof. intros [Hd1 H1] [Hd2 H2]. split; [congruence|]. intros w Hw. by rewrite H2, H1. Qed.

Lemma nodelist_link_ok k h n :
  linked (words h) n → 1 ≤ n → n + Z.of_nat k ≤ 19 →
  ∃ m', nodelist_link nl k n h = Some (tt, set_words m' h) ∧ linked m' (n + Z.of_nat k) ∧
        links_only (sents nl) (words h) m'.
Proof.
  revert h n. induction k as [|k IH]; intros h n Hl Hn Hk.
  { exists (words h). rewrite Z.add_0_r. split; [by destruct h|]. split; [done|apply links_only_refl]. }
  destruct (link_step h n Hl) as (Hrun & Hl1 & Ho1); [lia|]. set (m1 := <[_ := _]> _) in *.
  destruct (IH (set_words m1 h) (n + 1) Hl1) as (m2 & Hrun2 & Hl2 & Ho2); [lia..|].
  exists m2. split; [|split].
  - cbn [nodelist_link]. rewrite Hrun. exact Hrun2.
  - by replace (n + Z.of_nat (S k)) with (n + 1 + Z.of_nat k) by lia.
  - by eapply links_only_trans.
Qed.

Lemma sents_sorted n :
  StronglySorted (λ e e', key nl e ≤ key nl e') ((λ i, (nl + 16 * i, 0)) <$> seqZ 0 n).
Proof.
  destruct (decide (0 ≤ n)) as [Hn|Hn]; [|by rewrite seqZ_nil by lia; constructor].
  revert n Hn. apply natlike_ind; [constructor|]. intros n Hn IH. unfold Z.succ.
  rewrite seqZ_app, fmap_app by lia. apply StronglySorted_app. split; [|split; [done|by repeat constructor]].
  intros e e' (i & -> & Hi)%list_elem_of_fmap (j & -> & Hj)%list_elem_of_fmap.
  apply elem_of_seqZ in Hi. apply elem_of_seqZ in Hj. rewrite !key_sent by lia.
  pose proof (Z.pow_le_mono_r 2 i j). lia.
Qed.

(** The array of nodes, cleared and linked, is the empty free list. *)
Lemma nodelist_init h :
  (∀ w, in_words nl 76 w → is_Some (words h !! w)) →
  ∃ m', (memset_words (Z.to_nat (4 * MM_NNODES)) nl;; nodelist_link nl (Z.to_nat (MM_NNODES - 1)) 1) h =
          Some (tt, set_words m' h) ∧
    flist nl base lim m' (sents nl) [] ∧ dom m' = dom (words h).
Proof.
  intros Hm. change (Z.to_nat (4 * MM_NNODES)) with 76%nat.
  change (Z.to_nat (MM_NNODES - 1)) with 18%nat.
  destruct (memset_words_ok 76 nl h Hm) as (m1 & Hrun1 & Hd1 & H0 & _).
  assert (∀ i f, 0 ≤ i < 19 → m1 !! (nl + 16 * i + offset f) = Some 0) as Hzero.
  { intros i f Hi. apply H0. destruct f; split; unfold offset; (lia || Z.div_mod_to_equations; lia). }
  assert (linked m1 1) as Hl1.
  { split; [|intros i Hi; split; [apply Hzero; lia|eexists; apply Hzero; lia]].
    pose proof (Hzero 0 fblink) as Hb. pose proof (Hzero 0 fflink) as Hf.
    change (classes 1) with [(nl + 16 * 0, 0)]. split; [apply Hb; lia|]. split; [apply Hf; lia|done]. }
  destruct (nodelist_link_ok 18 (set_words m1 h) 1 Hl1) as (m2 & Hrun2 & [Hseg _] & Ho); [lia..|].
  exists m2. rewrite (K_bind_Some _ _ _ _ _ Hrun1). split; [exact Hrun2|].
  split; [|by rewrite (proj1 Ho)].
  assert (Forall (cell nl base lim) (sents nl).*1) as Hc.
  { apply Forall_fmap, Forall_forall. intros e (i & Hi & ->)%elem_of_sents. right. by exists i. }
  split; [exact Hseg|by rewrite app_nil_r|apply sents_sorted| |constructor|constructor].
  eapply links_only_sized; [exact geo|exact Ho|done|done|]. apply Forall_forall.
  intros e (i & Hi & ->)%elem_of_sents. by apply Hzero.
Qed.

Lemma align_down_ok a : MM_ALIGN_DOWN a = 16 * (a / 16).
Proof.
  unfold MM_ALIGN_DOWN. change (Z.lnot MM_GRAN_MASK) with (Z.lnot (Z.ones 4)).
  rewrite <- Z.ldiff_land, Z.ldiff_ones_r, Z.shiftl_mul_pow2, Z.shiftr_div_pow2 by lia.
  change (2 ^ 4) with 16. lia.
Qed.

(** One free chunk between the guards. *)
Definition fresh : list chunk := [(8, true); (lim - base - 16, false); (8, true)].

Lemma fresh_shape : shape base lim fresh.
Proof.
  exists [(lim - base - 16, false)]. split; [done|]. destruct geo as [Hb Hl Hs _]. split.
  - constructor; [|done]. split; simpl; [lia|]. Z.div_mod_to_equations. lia.
  - simpl. lia.
Qed.

(** The headers that [mm_addregion] writes. *)
Definition headers m : gmap Z Z :=
  <[lim - 8 + offset fpreceding := prec (lim - base - 16) true]>
  (<[lim - 8 + offset fsize := 8]>
  (<[base + 8 + offset fpreceding := 8]>
  (<[base + 8 + offset fsize := lim - base - 16]>
  (<[base + offset fpreceding := MM_ALLOC_BIT]> (<[base + offset fsize := 8]> m))))).

Lemma headers_hp m sz :
  flist nl base lim m (sents nl) [] → mapped base lim m →
  hp nl base lim (mk_heap sz base (lim - 8) (headers m)) fresh [].
Proof.
  intros Hfl Hm. destruct geo as [Hb Hl Hs Hn].
  split; simpl; [done|done| |apply fresh_shape| |by intros n s Hin; inversion Hin|].
  - unfold headers. split_and!; [look|look|look|look| | |done].
    + replace (base + 8 + (lim - base - 16)) with (lim - 8) by lia. look.
    + replace (base + 8 + (lim - base - 16)) with (lim - 8) by lia. look.
  - exists (sents nl). eapply flist_frame; [exact Hfl|]. intros n f Hin Hf.
    apply list_elem_of_fmap in Hin as (e & -> & (i & Hi & ->)%elem_of_sents). unfold headers. simpl.
    rewrite !lookup_insert_ne; [done|..]; destruct f; unfold offset; lia.
  - intros w Hw H4. unfold headers. rewrite !lookup_insert_is_Some'. specialize (Hm w Hw H4). tauto.
Qed.

Lemma put_any h n f v :
  mapped base lim (words h) → base ≤ n + offset f < lim → n mod 4 = 0 →
  let m' := <[n + offset f := v]> (words h) in
  put n f v h = Some (tt, set_words m' h) ∧ mapped base lim m'.
Proof.
  intros Hm Hr Hn m'. assert ((n + offset f) mod 4 = 0) as H4.
  { destruct f; unfold offset; Z.div_mod_to_equations; lia. }
  split; [by apply put_Some, Hm|]. intros w Hw Hw4. apply lookup_insert_is_Some'. right. by apply Hm.
Qed.

(** The straight-line part of [mm_addregion]. *)
Lemma addregion_writes h e A (k : K mm_heap_s A) :
  mm_heapsize h = lim - base → mm_heapstart h = base → mm_heapend h = lim - 8 →
  mapped base lim (words h) →
  (put base fsize 8;; put base fpreceding MM_ALLOC_BIT;;
   put (base + 8) fsize (lim - base - 16);; put (base + 8) fpreceding 8;;
   kput (λ h, Some (mk_heap (mm_heapsize h) (mm_heapstart h) (lim - 8) (words h)));;
   put (lim - 8) fsize 8;;
   s ← get (base + 8) fsize; put (lim - 8) fpreceding (Z.lor s MM_ALLOC_BIT);; k)
    (mk_heap (lim - base) base e (words h)) = k (set_words (headers (words h)) h).
Proof.
  intros Hsz Hst Hen Hm. destruct geo as [Hb Hl Hs Hn].
  assert (base mod 4 = 0 ∧ (base + 8) mod 4 = 0 ∧ (lim - 8) mod 4 = 0) as (H1 & H2 & H3).
  { Z.div_mod_to_equations. lia. }
  set (h0 := mk_heap _ _ e _).
  destruct (put_any h0 base fsize 8) as [R1 M1]; [done|unfold offset; lia|done|].
  rewrite (K_bind_Some _ _ _ _ _ R1).
  destruct (put_any (set_words _ h0) base fpreceding MM_ALLOC_BIT M1) as [R2 M2]; [unfold offset; lia|done|].
  rewrite (K_bind_Some _ _ _ _ _ R2).
  destruct (put_any (set_words _ h0) (base + 8) fsize (lim - base - 16) M2) as [R3 M3];
    [unfold offset; lia|done|]. rewrite (K_bind_Some _ _ _ _ _ R3).
  destruct (put_any (set_words _ h0) (base + 8) fpreceding 8 M3) as [R4 M4];
    [unfold offset; lia|done|]. rewrite (K_bind_Some _ _ _ _ _ R4).
  erewrite K_bind_Some by reflexivity. simpl.
  destruct (put_any (mk_heap (lim - base) base (lim - 8) _) (lim - 8) fsize 8 M4) as [R5 M5];
    [unfold offset; lia|done|]. rewrite (K_bind_Some _ _ _ _ _ R5).
  erewrite K_bind_Some; last first.
  { apply get_Some. cbn [words set_words]. look. }
  rewrite lor_alloc by lia.
  destruct (put_any (mk_heap (lim - base) base (lim - 8) _) (lim - 8) fpreceding
    (prec (lim - base - 16) true) M5) as [R6 _]; [unfold offset; lia|done|].
  rewrite (K_bind_Some _ _ _ _ _ R6). destruct h. simpl in *. by subst.
Qed.

Lemma initialize_ok h heapstart heapsize :
  0 ≤ heapstart ≤ 4294967280 → 0 ≤ heapstart + heapsize < 4294967296 →
  base = MM_ALIGN_UP heapstart → lim = MM_ALIGN_DOWN (heapstart + heapsize) →
  mapped base lim (words h) → (∀ w, in_words nl 76 w → is_Some (words h !! w)) →
  ∃ h', mm_initialize nl heapstart heapsize h = Some (tt, h') ∧
        heap_ok nl base lim h' fresh ∧ mm_heapsize h' = lim - base.
Proof.
  intros Hst Hsz Hbase Hlim Hmap Hnl. unfold mm_initialize.
  set (h0 := mk_heap 0 (mm_heapstart h) (mm_heapend h) (words h)).
  erewrite (K_bind_Some _ _ _ tt h0) by done.
  destruct (nodelist_init h0 Hnl) as (m1 & Hrun1 & Hfl & Hd).
  assert (∀ A (a b : K mm_heap_s unit) (k : K mm_heap_s A) s s',
    (a;; b) s = Some (tt, s') → (a;; b;; k) s = k s') as Hseq.
  { intros A a b k s s'. unfold mbind, K_bind. destruct (a s) as [[[] s1]|]; simpl; [|done]. by intros ->. }
  rewrite (Hseq _ _ _ _ _ _ Hrun1). clear Hseq Hrun1.
  assert (mapped base lim m1) as Hm1.
  { intros w Hw H4. rewrite <- elem_of_dom, Hd, elem_of_dom. by apply Hmap. }
  unfold mm_addregion. rewrite (wrap_u_small 32) by (change (2 ^ 32) with 4294967296; lia).
  rewrite <- Hbase, <- Hlim. destruct geo as [Hb Hl Hs Hn]. cbv zeta.
  unfold SIZEOF_MM_ALLOCNODE. rewrite (u32_small (lim - base)) by lia.
  change (2 * 8) with 16. rewrite (u32_small (lim - base - 16)) by lia.
  set (h1 := mk_heap (lim - base) base (lim - 8) m1).
  erewrite (K_bind_Some _ _ _ tt (mk_heap (lim - base) base (mm_heapend h) m1)); last first.
  { unfold kput. cbn [mbind option_bind words mm_heapsize mm_heapend set_words h0]. rewrite Z.add_0_l.
    by rewrite (u32_small (lim - base)) by lia. }
  rewrite (addregion_writes h1 (mm_heapend h)); [|done..].
  destruct (hp_add _ _ _ geo (set_words (headers m1) h1) [(8, true)] (lim - base - 16) false [(8, true)] [])
    as (m2 & Hrun2 & Hhp2 & _); [by apply headers_hp|done|done|by apply not_elem_of_nil|].
  change (base + span [(8, true)]) with (base + (8 + 0)) in Hrun2, Hhp2. rewrite Z.add_0_r in Hrun2, Hhp2.
  eexists. split; [exact Hrun2|]. split; [|done]. split; [exact Hhp2|].
  cbn. naive_solver.
Qed.
End init.

(** ** Counting *)

Section count.
Context `{Config} (nl base lim : Z) (geo : geometry nl base lim).
Implicit Types (h : mm_heap_s) (cs : list chunk).

(** The bytes of the chunks that are allocated or not ([b]), headers included. *)
Fixpoint bytes (b : bool) cs : Z :=
  match cs with [] => 0 | (s, b') :: cs => (if eqb b b' then s else 0) + bytes b cs end.

Lemma bytes_span cs : bytes true cs + bytes false cs = span cs.
Proof. induction cs as [|[s []] cs IH]; simpl; lia. Qed.

Lemma bytes_nonneg b cs : sizes_ok cs → 0 ≤ bytes b cs.
Proof. induction 1 as [|[s []] cs]; destruct b; simpl in *; lia. Qed.

Lemma bytes_app b cs1 cs2 : bytes b (cs1 ++ cs2) = bytes b cs1 + bytes b cs2.
Proof. induction cs1 as [|[s b'] cs1 IH]; simpl; lia. Qed.

(** The largest free chunk. *)
Definition largest cs : Z := foldr Z.max 0 (free_of base cs).*2.

Lemma free_sizes a a' cs : (free_of a cs).*2 = (free_of a' cs).*2.
Proof.
  revert a a'. induction cs as [|[s b] cs IH]; intros a a'; [done|]. simpl. rewrite !fmap_app.
  f_equal; [by destruct b|apply IH].
Qed.

Lemma addrs_ge a cs x : sizes_ok cs → x ∈ addrs a cs → a ≤ x.
Proof.
  intros Hz (s & b & c1 & c2 & -> & ->)%elem_of_addrs. apply Forall_app in Hz as [Hz _].
  pose proof (span_nonneg _ Hz). lia.
Qed.

Lemma addrs_NoDup a cs : sizes_ok cs → NoDup (addrs a cs).
Proof.
  intros Hz. revert a. induction Hz as [|[s b] cs Hs Hz IH]; intros a; simpl; constructor; [|apply IH].
  intros Hin%addrs_ge; [|done]. simpl in Hs. lia.
Qed.

Lemma hp_count h cs F : hp nl base lim h cs F → (length cs ≤ size (words h))%nat.
Proof.
  intros Hhp. pose proof (shape_sizes _ _ _ (hp_shape _ _ _ _ _ _ Hhp)) as Hz.
  assert (length cs = length (addrs base cs)) as ->.
  { clear. generalize base. induction cs as [|[s b] cs IH]; intros a; simpl; [done|]. by rewrite <- IH. }
  rewrite <- (size_list_to_set (C := gset Z) (addrs base cs)) by (by apply addrs_NoDup).
  rewrite <- size_dom. apply subseteq_size. intros a (s & b & Ha)%elem_of_list_to_set%elem_of_addrs.
  pose proof (layout_chunk _ _ _ _ _ _ _ (hp_layout _ _ _ _ _ _ Hhp) Ha) as Hs.
  unfold offset in Hs. rewrite Z.add_0_r in Hs. by eapply elem_of_dom_2.
Qed.

Definition tally cs (i : mallinfo) : mallinfo :=
  mk_mallinfo (arena i) (ordblks i + Z.of_nat (length (free_of base cs)))
    (Z.max (mxordblk i) (largest cs)) (uordblks i + bytes true cs) (fordblks i + bytes false cs).

Lemma tally_cons s b cs i :
  sizes_ok ((s, b) :: cs) →
  tally cs (if b then mk_mallinfo (arena i) (ordblks i) (mxordblk i) (uordblks i + s) (fordblks i)
            else mk_mallinfo (arena i) (ordblks i + 1) (if mxordblk i <? s then s else mxordblk i)
                   (uordblks i) (fordblks i + s)) = tally ((s, b) :: cs) i.
Proof.
  intros [Hs Hz]%Forall_cons. unfold tally, largest. simpl in Hs.
  pose proof (f_equal length (free_sizes base (base + s) cs)) as Hlen. rewrite !length_fmap in Hlen.
  rewrite (free_sizes base (base + s) cs). csimpl. rewrite Hlen.
  destruct b; csimpl; f_equal; try lia.
  destruct (Z.ltb_spec (mxordblk i) s); lia.
Qed.

Lemma mallinfo_walk_ok h F cs2 cs1 fuel i :
  hp nl base lim h (cs1 ++ cs2 ++ [(8, true)]) F → (length cs2 ≤ fuel)%nat →
  0 ≤ mxordblk i → 0 ≤ uordblks i → 0 ≤ fordblks i →
  uordblks i + fordblks i + span cs2 < 4294967296 →
  mallinfo_walk fuel (base + span cs1) (lim - 8) i h = Some ((lim - 8, tally cs2 i), h).
Proof.
  revert cs1 fuel i. induction cs2 as [|[s b] cs2 IH]; intros cs1 fuel i Hhp Hf Hm Hu Hfo Hsp.
  - pose proof (hp_shape _ _ _ _ _ _ Hhp) as (inner & _ & _ & Hspan). rewrite span_app in Hspan.
    simpl in Hspan. assert (base + span cs1 = lim - 8) as -> by lia.
    assert (tally [] i = i) as ->.
    { unfold tally. destruct i; cbn in *. f_equal; lia. }
    destruct fuel; cbn [mallinfo_walk]; by rewrite Z.ltb_irrefl.
  - pose proof (hp_shape _ _ _ _ _ _ Hhp) as Hsh. pose proof (shape_sizes _ _ _ Hsh) as Hz.
    apply Forall_app in Hz as [_ [Hz _]%Forall_app]. pose proof Hz as [H8 Hz2]%Forall_cons.
    simpl in H8, Hsp. pose proof (span_nonneg _ Hz2).
    pose proof (last_size_bound _ _ _ geo _ _ Hsh) as Hls.
    assert (base + span cs1 < lim - 8) as Hlt.
    { destruct Hsh as (inner & _ & _ & Hspan). rewrite span_app in Hspan. cbn in Hspan.
      rewrite span_app in Hspan. cbn in Hspan. lia. }
    destruct fuel as [|fuel]; [simpl in Hf; lia|]. cbn [mallinfo_walk].
    rewrite (proj2 (Z.ltb_lt _ _) Hlt).
    erewrite K_bind_Some by (by apply (hp_prec _ _ _ _ _ _ _ _ _ Hhp)).
    erewrite K_bind_Some by (by apply (hp_size _ _ _ _ _ _ _ _ _ Hhp)).
    rewrite (land_prec _ Hls), <- (tally_cons s b cs2 i Hz).
    replace (base + span cs1 + s) with (base + span (cs1 ++ [(s, b)])) by (rewrite span_app; simpl; lia).
      destruct b; cbn [negb]; change (negb (MM_ALLOC_BIT =? 0)) with true; change (negb (0 =? 0)) with false;
      cbv match; rewrite u32_small by lia;
      (apply IH; [by rewrite <- app_assoc|simpl in Hf; lia| | | |]); cbn; try lia.
    destruct (Z.ltb_spec (mxordblk i) s); lia.
Qed.

Lemma largest_le a cs : sizes_ok cs → 0 ≤ foldr Z.max 0 (free_of a cs).*2 ≤ bytes false cs.
Proof.
  intros Hz. revert a. induction Hz as [|[s b] cs Hs Hz IH]; intros a; [done|].
  specialize (IH (a + s)). simpl in Hs. destruct b; csimpl; lia.
Qed.

(** What [mm_mallinfo] reports. *)
Lemma mallinfo_ok h cs :
  heap_ok nl base lim h cs → mm_heapsize h = lim - base →
  mm_mallinfo h = Some (mk_mallinfo (lim - base) (Z.of_nat (length (free_of base cs))) (largest cs)
                          (bytes true cs) (bytes false cs), h) ∧
  bytes true cs + bytes false cs = lim - base.
Proof.
  intros [Hhp _] Hsz. pose proof (hp_shape _ _ _ _ _ _ Hhp) as Hsh.
  assert (bytes true cs + bytes false cs = lim - base) as Hsum.
  { rewrite bytes_span. by destruct Hsh as (inner & _ & _ & ?). }
  split; [|done]. pose proof (hp_count _ _ _ Hhp) as Hcnt.
  assert (∃ ci, cs = [] ++ ci ++ [(8, true)]) as [ci Hci].
  { destruct Hsh as (inner & -> & _). by exists ((8, true) :: inner). }
  pose proof Hhp as Hhp'. rewrite Hci in Hhp'. rewrite Hci in Hsum. cbn [app] in Hsum.
  rewrite !bytes_app in Hsum. cbn in Hsum. pose proof (bytes_span ci) as Hbs.
  assert (∀ b, 0 ≤ bytes b ci) as Hb0.
  { intros b. apply bytes_nonneg. pose proof (shape_sizes _ _ _ Hsh) as Hz. rewrite Hci in Hz.
    rewrite app_nil_l in Hz. by apply Forall_app in Hz as [? _]. }
  pose proof (Hb0 true). pose proof (Hb0 false).
  unfold mm_mallinfo. erewrite K_bind_Some by (unfold kget; rewrite (hp_start _ _ _ _ _ _ Hhp); reflexivity).
  erewrite K_bind_Some by (unfold kget; rewrite (hp_end _ _ _ _ _ _ Hhp); reflexivity).
  erewrite K_bind_Some by reflexivity.
  replace base with (base + span []) at 1 by (simpl; lia).
  destruct geo as [_ _ Hgs _].
  erewrite K_bind_Some; last first.
  { apply (mallinfo_walk_ok h _ ci [] _ _ Hhp'); cbn; [|lia..]. rewrite Hci in Hcnt. cbn in Hcnt.
    rewrite length_app in Hcnt. lia. }
  cbv beta iota. rewrite kassert_step by apply Z.eqb_refl.
  erewrite K_bind_Some by (unfold kget; rewrite Hsz; reflexivity).
  cbn [tally uordblks fordblks ordblks mxordblk arena]. unfold SIZEOF_MM_ALLOCNODE. rewrite !Z.add_0_l.
  rewrite (u32_small (bytes true ci + 8)), (u32_small (_ + _ + bytes false ci)) by lia.
  rewrite kassert_step by (apply Z.eqb_eq; lia).
  rewrite Hci. cbn [app]. unfold largest. rewrite !bytes_app, !free_of_app.
  change (free_of _ [(8, true)]) with (@nil node). rewrite app_nil_r. cbn [bytes eqb].
  assert (0 ≤ foldr Z.max 0 (free_of base ci).*2 ≤ bytes false ci) as Hlg.
  { apply largest_le. pose proof (shape_sizes _ _ _ Hsh) as Hz. rewrite Hci in Hz.
    rewrite app_nil_l in Hz. by apply Forall_app in Hz as [? _]. }
  rewrite Z.max_r, !s32_small by lia. unfold mret, K_ret. do 2 f_equal. f_equal; lia.
Qed.
End count.

(** ** Growing the region *)

Section extend.
Context `{Config} (nl base lim size : Z) (geo : geometry nl base lim) (geo' : geometry nl base (lim + size)).
Implicit Types (h : mm_heap_s) (cs : list chunk).

Lemma flist_wider m L F : 0 ≤ size → flist nl base lim m L F → flist nl base (lim + size) m L F.
Proof.
  intros Hs [? ? ? ? ? Hn]. split; [done..|]. eapply Forall_impl; [exact Hn|].
  intros e [(? & ? & ?) ?]. split; [|done]. split; [done|]. lia.
Qed.

(** The old guard becomes a chunk of [size] bytes, a new guard is written. *)
Lemma extend_hp h front F :
  let m' := <[lim + size - 8 + offset fpreceding := prec size true]>
              (<[lim + size - 8 + offset fsize := 8]> (<[lim - 8 + offset fsize := size]> (words h))) in
  hp nl base lim h (front ++ [(8, true)]) F → front ≠ [] → 16 ≤ size → size mod 16 = 0 →
  mapped lim (lim + size) (words h) →
  hp nl base (lim + size) (mk_heap (mm_heapsize h) (mm_heapstart h) (lim + size - 8) m')
    (front ++ [(size, true); (8, true)]) F.
Proof.
  intros m' [Hst Hen Hlay Hsh [L Hfl] Hat Hmap] Hne Hs16 Hsm Hmap2.
  destruct (shape_at _ _ _ geo _ _ _ _ Hsh Hne) as (_ & _ & _ & _ & Hend & _).
  destruct (Hend eq_refl) as (_ & _ & HA). pose proof (shape_sizes _ _ _ Hsh) as [Hz _]%Forall_app.
  pose proof geo as [Hb Hl Hg Hn]. pose proof geo' as [_ Hl' _ Hn'].
  apply layout_app in Hlay as [Hl1 (_ & Hpr & _)]. rewrite HA in Hpr.
  split; simpl; [done|done| | | | |].
  - apply layout_app. split.
    + eapply layout_frame; [done| |exact Hl1]. intros w Hw. unfold m'.
      rewrite !lookup_insert_ne by (unfold offset; lia). done.
    + rewrite HA. unfold m'. replace (lim + size - 8) with (lim - 8 + size) by lia.
      cbn [layout]. split_and!; [look..|done].
  - destruct Hsh as (inner & Heq & Hgood & Hsp). destruct front as [|c front]; [done|]. injection Heq as -> Heq.
    apply app_inj_2 in Heq as [-> _]; [|done]. exists (inner ++ [(size, true)]).
    split; [by rewrite <- app_assoc|]. split.
    + apply Forall_app. split; [done|]. by apply Forall_singleton.
    + cbn [app span] in Hsp |- *. rewrite span_app in Hsp. rewrite !span_app. simpl in *. lia.
  - exists L. apply flist_wider; [lia|]. eapply flist_frame; [exact Hfl|]. intros n f Hin Hf. unfold m'.
    destruct (flist_cells _ _ _ geo _ _ _ Hfl) as [Hc _]. rewrite Forall_forall in Hc. specialize (Hc n Hin).
    assert (n + 16 ≤ lim - 8 ∨ (∃ i, 0 ≤ i < 19 ∧ n = nl + 16 * i)) as Hcase.
    { destruct Hc as [(? & ? & ?)|?]; [|by right]. left. Z.div_mod_to_equations. lia. }
    assert (0 ≤ offset f ≤ 12) by (destruct f; unfold offset; lia).
    rewrite !lookup_insert_ne; [done|..]; destruct Hcase as [?|(i & ? & ->)]; unfold offset at 1; lia.
  - intros n s Hin. destruct (Hat n s Hin) as (b & Hcb). exists b. pose proof (fl_nodes _ _ _ _ _ _ Hfl) as Hnn.
    rewrite Forall_forall in Hnn. destruct (Hnn _ Hin) as [_ H16]. simpl in H16.
    apply chunk_at_app in Hcb as [Hcb|(c1 & c2 & Heq & _)]; [apply chunk_at_app; by left|].
    destruct c1 as [|c c1]; [injection Heq as <- _ _; lia|]. by destruct c1.
  - intros w Hw Hw4. unfold m'. rewrite !lookup_insert_is_Some'. do 3 right.
    destruct (decide (w < lim)); [apply Hmap|apply Hmap2]; [lia|done|lia|done].
Qed.

(** The region [h] with the new chunk, not yet free, between the old chunks and the guard. *)
Abbreviation extended h :=
  (mk_heap (mm_heapsize h) (mm_heapstart h) (lim + size - 8)
   (<[lim + size - 8 + offset fpreceding := prec size true]>
      (<[lim + size - 8 + offset fsize := 8]> (<[lim - 8 + offset fsize := size]> (words h))))).

(** All of [mm_extend] but the release of the new chunk. *)
Lemma extend_run h front F :
  hp nl base lim h (front ++ [(8, true)]) F → front ≠ [] → 16 ≤ size → size mod 16 = 0 →
  lim + size < 4294967296 → mapped lim (lim + size) (words h) →
  mm_extend nl lim size 0 h = mm_free nl lim (extended h).
Proof using geo geo'.
  intros Hhp Hne Hs16 Hsm Hmax Hmap2. pose proof (hp_shape _ _ _ _ _ _ Hhp) as Hsh.
  destruct (shape_at _ _ _ geo _ _ _ _ Hsh Hne) as (_ & Hlo & _ & _ & Hend & _).
  destruct (Hend eq_refl) as (_ & _ & HA). pose proof geo as [Hb Hl Hg Hn].
  unfold mm_extend. rewrite kassert_step by (apply negb_true_iff, Z.eqb_neq; lia).
  rewrite kassert_step by (apply andb_true_iff; split; [by apply Z.leb_le|done]).
  cbv zeta. rewrite (u32_small (lim + size)) by lia.
  rewrite kassert_step by (apply Z.eqb_eq; rewrite align_up_ok by lia; Z.div_mod_to_equations; lia).
  rewrite kassert_step by (apply Z.eqb_eq; rewrite align_down_ok; Z.div_mod_to_equations; lia).
  erewrite K_bind_Some by (unfold kget; rewrite (hp_end _ _ _ _ _ _ Hhp); reflexivity).
  unfold SIZEOF_MM_ALLOCNODE. rewrite kassert_step by (apply Z.eqb_eq; lia).
  pose proof (hp_layout _ _ _ _ _ _ Hhp) as Hlay. apply layout_app in Hlay as [_ (Hsz & Hpr & _)].
  rewrite HA in Hsz, Hpr. pose proof (last_size_bound _ _ _ geo _ _ Hsh) as Hls.
  assert (∀ f, f = fsize ∨ f = fpreceding → is_Some (words h !! (lim + size - 8 + offset f))) as Hguard.
  { intros f [->| ->]; apply Hmap2; unfold offset; (lia || Z.div_mod_to_equations; lia). }
  erewrite (K_bind_Some (put (lim - 8) fsize _)) by (apply put_Some; by eexists).
  erewrite K_bind_Some by (apply get_Some; simpl; look).
  rewrite kassert_step by (by rewrite (land_prec _ Hls)).
  erewrite (K_bind_Some (put _ fsize _)) by (apply put_Some, lookup_insert_is_Some'; right; by apply Hguard; left).
  erewrite K_bind_Some by (apply get_Some; simpl; look).
  rewrite lor_alloc by (destruct geo'; lia).
  erewrite (K_bind_Some (put _ fpreceding _)); last first.
  { apply put_Some. simpl. rewrite !lookup_insert_is_Some'. do 2 right. apply Hguard. by right. }
  erewrite K_bind_Some by reflexivity. done.
Qed.

(** The words of other blocks are not touched by it. *)
Lemma extend_data h q1 p1 w :
  let cs := q1 ++ [(span p1 + size, false); (8, true)] in
  sizes_ok cs → 16 ≤ size → 0 ≤ span p1 → base + span q1 + span p1 = lim - 8 →
  data base cs w → words (extended h) !! w = words h !! w.
Proof.
  intros cs Hz Hs16 Hp0 HA' Hw.
  assert (chunk_at base cs (lim + size - 8) 8 true) as HatG.
  { exists (q1 ++ [(span p1 + size, false)]), []. rewrite <- app_assoc, span_app. split; [done|]. simpl. lia. }
  simpl. rewrite !lookup_insert_ne; [done|..]; intros <-.
  1: refine (free_quiet _ _ (base + span q1) (span p1 + size) _ Hz _ _ Hw);
     [by eexists q1, _|unfold offset; lia].
  all: refine (hdr_quiet _ _ (lim + size - 8) 8 true _ Hz HatG _ Hw); unfold offset; lia.
Qed.

Lemma extend_ok h front :
  heap_ok nl base lim h (front ++ [(8, true)]) → front ≠ [] → 16 ≤ size → size mod 16 = 0 →
  lim + size < 4294967296 → mapped lim (lim + size) (words h) →
  ∃ q1 p1 h', mm_extend nl lim size 0 h = Some (tt, h') ∧ front = q1 ++ p1 ∧
    Forall (λ c, c.2 = false) p1 ∧
    heap_ok nl base (lim + size) h' (q1 ++ [(span p1 + size, false); (8, true)]) ∧
    mm_heapsize h' = mm_heapsize h ∧ mm_heapend h' = lim + size - 8 ∧
    ∀ w, data base (q1 ++ [(span p1 + size, false); (8, true)]) w → words h' !! w = words h !! w.
Proof using geo geo'.
  intros [Hhp Hco] Hne Hs16 Hsm Hmax Hmap2. pose proof (hp_shape _ _ _ _ _ _ Hhp) as Hsh.
  destruct (shape_at _ _ _ geo _ _ _ _ Hsh Hne) as (_ & Hlo & _ & _ & Hend & _).
  destruct (Hend eq_refl) as (_ & _ & HA). pose proof geo as [Hb Hl Hg Hn].
  pose proof (extend_hp h front _ Hhp Hne Hs16 Hsm Hmap2) as Hhp1.
  set (m' := <[_ := _]> _) in Hhp1. set (h1 := mk_heap _ _ _ m') in Hhp1.
  assert (heap_ok nl base (lim + size) h1 (front ++ (size, true) :: [(8, true)])) as Hok1.
  { split.
    - eapply hp_perm; [|exact Hhp1]. by rewrite !free_of_app.
    - apply coalesced_app in Hco as (Hc & _ & _). apply coalesced_app. split; [done|]. split; [by split; [left|]|].
      by destruct (last front); [right|]. }
  destruct (free_ok nl base (lim + size) geo' h1 front size [(8, true)] Hok1 Hne)
    as (q1 & p1 & n1 & q2 & m2 & Hfr & Hnq & Hpn & Hrun & Hok2 & Hd2); [done|].
  apply Forall_app in Hpn as [Hp1 Hn1].
  assert (n1 = [] ∧ q2 = [(8, true)]) as [-> ->].
  { destruct n1 as [|c n1]; [done|]. injection Hnq as <- _. by apply Forall_cons in Hn1 as [[=] _]. }
  unfold freed in Hok2, Hd2. change (span []) with 0 in Hok2, Hd2. rewrite Z.add_0_r in Hok2, Hd2.
  exists q1, p1, (set_words m2 h1). split; [|do 5 (split; [done|])].
  - rewrite (extend_run _ _ _ Hhp) by done. replace lim with (base + span front + 8) at 1 by lia. exact Hrun.
  - intros w Hw. simpl. rewrite Hd2 by done.
    pose proof (shape_sizes _ _ _ (hp_shape _ _ _ _ _ _ (ho_hp _ _ _ _ _ Hok2))) as Hz.
    assert (base + span q1 + span p1 = lim - 8) as HA' by (rewrite Hfr, span_app in HA; lia).
    assert (0 ≤ span p1) as Hp0.
    { pose proof (shape_sizes _ _ _ Hsh) as [Hz0 _]%Forall_app. rewrite Hfr in Hz0.
      apply Forall_app in Hz0 as [_ Hz0]. by apply span_nonneg. }
    by eapply (extend_data h q1 p1).
Qed.
End extend.
