(* ===== verification/Alloc.v ===== *)
(** * Alloc: what a memory allocator promises

    The contract between the memory manager and its callers, as a class: the calls,
    an invariant that says which blocks are live, and the laws.  A caller is a
    sequence of calls; what it may rely on is proved here from the laws alone. *)

From S2P Require Import Prelude.
Local Open Scope Z_scope.

(** A block: its address and the number of bytes asked for. *)
Abbreviation block := (Z * Z)%type.

Definition disjoint_blocks (b b' : block) : Prop :=
  b.1 + b.2 ≤ b'.1 ∨ b'.1 + b'.2 ≤ b.1.

(** A whole word of a block. *)
Definition word_of (b : block) (w : Z) : Prop := ∃ i, 0 ≤ i ∧ 4 * i + 4 ≤ b.2 ∧ w = b.1 + 4 * i.

(** The calls, and how a caller reads and writes memory.  A block is given back with its
    size, which an allocator need not use. *)
Class Allocator (S : Type) := {
  al_malloc : Z → K S Z;
  al_free : block → K S unit;
  al_store : Z → Z → K S unit;
  al_load : S → Z → option Z;
}.

(** The laws, for requests up to [max] bytes; [inv] says which blocks are live. *)
Class AllocLaws (S : Type) `{Allocator S} (max : Z) (inv : S → list block → Prop) : Prop := {
  al_disjoint s B i j b b' :
    inv s B → B !! i = Some b → B !! j = Some b' → i ≠ j → disjoint_blocks b b';
  (** a request fails without effect or adds a live block; the others keep their
      contents *)
  al_malloc_law s B n :
    inv s B → 0 ≤ n ≤ max →
    ∃ p s', al_malloc n s = Some (p, s') ∧ (p = 0 ∧ s' = s ∨ p ≠ 0 ∧ inv s' ((p, n) :: B)) ∧
      ∀ b w, b ∈ B → word_of b w → al_load s' w = al_load s w;
  al_free_law s B k b :
    inv s B → B !! k = Some b →
    ∃ s', al_free b s = Some (tt, s') ∧ inv s' (delete k B) ∧
      ∀ b' w, b' ∈ delete k B → word_of b' w → al_load s' w = al_load s w;
  al_store_law s B b w v :
    inv s B → b ∈ B → word_of b w →
    ∃ s', al_store w v s = Some (tt, s') ∧ inv s' B ∧
      al_load s' w = Some v ∧ ∀ w', w' ≠ w → al_load s' w' = al_load s w';
}.

Section client.
Context {S : Type} `{Allocator S}.

(** ** A caller *)

Inductive alloc_op :=
  | OMalloc (n : Z)
  | OFree (k : nat)
  | OStore (k : nat) (i v : Z).

(** The caller's view: its blocks, and what it has stored into their words. *)
Abbreviation view := (list (block * gmap Z Z)).

Definition alloc_step (op : alloc_op) (st : S * view) : option (S * view) :=
  let '(s, bs) := st in
  match op with
  | OMalloc n =>
      '(p, s') ← al_malloc n s;
      Some (s', if p =? 0 then bs else ((p, n), ∅) :: bs)
  | OFree k =>
      match bs !! k with
      | Some (b, _) => '(_, s') ← al_free b s; Some (s', delete k bs)
      | None => Some st
      end
  | OStore k i v =>
      match bs !! k with
      | Some (b, c) =>
          if (0 <=? i) && (4 * i + 4 <=? b.2) then
            '(_, s') ← al_store (b.1 + 4 * i) v s; Some (s', <[k := (b, <[i := v]> c)]> bs)
          else Some st
      | None => Some st
      end
  end.

Fixpoint alloc_run (ops : list alloc_op) (st : S * view) : option (S * view) :=
  match ops with [] => Some st | op :: ops => st' ← alloc_step op st; alloc_run ops st' end.

(** Requests are sizes up to [max]. *)
Definition op_ok (max : Z) (op : alloc_op) : Prop :=
  match op with OMalloc n => 0 ≤ n ≤ max | _ => True end.

(** The blocks hold what was stored. *)
Definition holds (s : S) (bs : view) : Prop :=
  ∀ b c i v, (b, c) ∈ bs → c !! i = Some v → word_of b (b.1 + 4 * i) ∧ al_load s (b.1 + 4 * i) = Some v.

Context (max : Z) (inv : S → list block → Prop) `{!AllocLaws S max inv}.

Definition agrees (st : S * view) : Prop := inv st.1 st.2.*1 ∧ holds st.1 st.2.

Lemma holds_frame s s' bs bs' :
  bs' ⊆ bs → (∀ b w, b ∈ bs'.*1 → word_of b w → al_load s' w = al_load s w) →
  holds s bs → holds s' bs'.
Proof.
  intros Hsub Hw Hh b c i v Hin Hc. destruct (Hh b c i v (Hsub _ Hin) Hc) as [Hof Hl].
  split; [done|]. rewrite (Hw b); [done| |done]. by apply (list_elem_of_fmap_2 fst) in Hin.
Qed.

Lemma words_apart b b' w w' : disjoint_blocks b b' → word_of b w → word_of b' w' → w ≠ w'.
Proof. intros Hd (i & Hi & Hi' & ->) (j & Hj & Hj' & ->). unfold disjoint_blocks in Hd. lia. Qed.

Lemma alloc_step_ok op st :
  agrees st → op_ok max op → ∃ st', alloc_step op st = Some st' ∧ agrees st'.
Proof.
  destruct st as [s bs]. intros [Hinv Hh] Hop. simpl in Hinv, Hh. destruct op as [n|k|k i v]; simpl.
  - destruct (al_malloc_law s _ n Hinv Hop) as (p & s' & -> & Hor & Hw). simpl. eexists. split; [done|].
    destruct Hor as [[-> ->]|[Hp Hinv']]; [by split|]. rewrite (proj2 (Z.eqb_neq p 0) Hp).
    split; [done|]. intros b c i v [[= -> ->]|Hin]%elem_of_cons Hc; [by rewrite lookup_empty in Hc|].
    by eapply (holds_frame s s' bs bs).
  - destruct (bs !! k) as [[b c]|] eqn:Hk; [|by eexists].
    assert (bs.*1 !! k = Some b) as Hk1 by (by rewrite list_lookup_fmap, Hk).
    destruct (al_free_law s _ k b Hinv Hk1) as (s' & -> & Hinv' & Hw). simpl. eexists. split; [done|].
    assert (delete k bs.*1 = (delete k bs).*1) as Hd by (by rewrite <- list_fmap_delete).
    rewrite Hd in Hinv', Hw. split; [done|]. eapply holds_frame; [|exact Hw|exact Hh].
    apply (sublist_subseteq _ _), sublist_delete.
  - destruct (bs !! k) as [[b c]|] eqn:Hk; [|by eexists].
    destruct ((0 <=? i) && (4 * i + 4 <=? b.2)) eqn:Hg; [|by eexists].
    apply andb_true_iff in Hg as [Hi1%Z.leb_le Hi2%Z.leb_le].
    assert (bs.*1 !! k = Some b) as Hk1 by (by rewrite list_lookup_fmap, Hk).
    assert (word_of b (b.1 + 4 * i)) as Hof by (by exists i).
    destruct (al_store_law s _ b (b.1 + 4 * i) v Hinv (list_elem_of_lookup_2 _ _ _ Hk1) Hof)
      as (s' & -> & Hinv' & Hv & Hne). simpl. eexists. split; [done|]. split; simpl.
    { rewrite list_fmap_insert. simpl. by rewrite list_insert_id. }
    intros b' c' j u Hin Hj. apply list_elem_of_lookup in Hin as [k' Hk'].
    destruct (decide (k' = k)) as [->|Hkk].
    + rewrite list_lookup_insert_eq in Hk' by (by eapply lookup_lt_Some).
      injection Hk' as <- <-. destruct (decide (j = i)) as [->|Hji].
      * rewrite lookup_insert_eq in Hj. injection Hj as <-. done.
      * rewrite lookup_insert_ne in Hj by done.
        destruct (Hh b c j u (list_elem_of_lookup_2 _ _ _ Hk) Hj) as [? ?].
        split; [done|]. rewrite Hne; [done|lia].
    + rewrite list_lookup_insert_ne in Hk' by done.
      destruct (Hh b' c' j u (list_elem_of_lookup_2 _ _ _ Hk') Hj) as [Hof' Hl].
      split; [done|]. rewrite Hne; [done|]. eapply words_apart; [|done|done].
      eapply (al_disjoint s _ k' k); [done| |done|done]. by rewrite list_lookup_fmap, Hk'.
Qed.

(** The calls of any caller succeed, its blocks stay apart and keep their contents. *)
Lemma alloc_run_ok ops st :
  agrees st → Forall (op_ok max) ops → ∃ st', alloc_run ops st = Some st' ∧ agrees st'.
Proof.
  revert st. induction ops as [|op ops IH]; intros st Hst Hops; simpl; [by eexists|].
  apply Forall_cons in Hops as [Hop Hops].
  destruct (alloc_step_ok op st Hst Hop) as (st1 & -> & Hst1). simpl. by apply IH.
Qed.
End client.
