(* ===== verification/MmHeapAlloc.v ===== *)
(** * MmHeapAlloc: the heap keeps the contract of an allocator

    The live blocks of a heap are chunks that are allocated and are not guards;
    [mm_malloc], [mm_free] and stores into live blocks satisfy the laws of
    [AllocLaws]. *)

From S2P Require Import Prelude MmHeap MmHeapSpec MmHeapInv MmHeapOps Alloc.
Local Open Scope Z_scope.

#[global] Instance heap_ops `{Config} (nl : Z) : Allocator mm_heap_s := {|
  al_malloc := mm_malloc nl;
  al_free b := mm_free nl b.1;
  al_store := store_word;
  al_load h := λ w, words h !! w;
|}.

Section alloc.
Context `{Config} (nl base lim : Z) (geo : geometry nl base lim).
Implicit Types (h : mm_heap_s) (cs : list chunk) (B : list block) (b : block).

(** A block lies in an allocated chunk behind its header. *)
Definition live cs b : Prop :=
  0 < b.2 ∧ ∃ s, chunk_at base cs (b.1 - 8) s true ∧ b.2 + 8 ≤ s ∧
                 base < b.1 - 8 ∧ b.1 - 8 + s ≤ lim - 8.

Definition heap_inv h B : Prop :=
  ∃ cs, heap_ok nl base lim h cs ∧ NoDup B.*1 ∧ Forall (live cs) B.

Lemma live_aligned cs b : shape base lim cs → live cs b → b.1 mod 16 = 0 ∧ 0 < b.1.
Proof.
  intros Hsh (_ & s & (cs1 & cs2 & -> & Ha) & _ & Hlo & _).
  destruct (shape_at _ _ _ geo _ _ _ _ Hsh) as (Hm & Hb & _).
  { intros ->. simpl in Ha. lia. }
  destruct geo. Z.div_mod_to_equations. lia.
Qed.

Lemma live_data cs b w : live cs b → word_of b w → data base cs w.
Proof.
  intros (_ & s & Ha & Hs & _) (i & Hi & Hi' & ->). exists (b.1 - 8), s. split; [done|]. lia.
Qed.

Lemma live_disjoint cs b b' :
  shape base lim cs → live cs b → live cs b' → b.1 ≠ b'.1 → disjoint_blocks b b'.
Proof.
  intros Hsh (_ & s & Ha & Hs & _) (_ & s' & Ha' & Hs' & _) Hne.
  destruct (chunk_order _ _ _ _ _ _ _ _ (shape_sizes _ _ _ Hsh) Ha Ha') as [?|?]; [lia|].
  unfold disjoint_blocks. lia.
Qed.

(** Other chunks stay where they are when a run of chunks is rewritten. *)
Lemma live_splice cs1 old new cs2 b :
  span new = span old → live (cs1 ++ old ++ cs2) b →
  (∀ s, ¬ chunk_at (base + span cs1) old (b.1 - 8) s true) → live (cs1 ++ new ++ cs2) b.
Proof.
  intros Hsp (H0 & s & Ha & Hs) Hno. split; [done|]. exists s. split; [|done].
  rewrite !chunk_at_app in *. rewrite Hsp. naive_solver.
Qed.

Lemma alloc_split_span s asz : span (alloc_split s asz) = s.
Proof. unfold alloc_split. destruct (16 <=? s - asz); simpl; lia. Qed.

(** ** mm_malloc *)

Lemma heap_malloc_law h B n :
  heap_inv h B → 0 ≤ n ≤ 4294967272 →
  ∃ p h', mm_malloc nl n h = Some (p, h') ∧
    (p = 0 ∧ h' = h ∨ p ≠ 0 ∧ heap_inv h' ((p, n) :: B)) ∧
    ∀ b w, b ∈ B → word_of b w → words h' !! w = words h !! w.
Proof.
  intros (cs & Hok & Hnd & Hlive) Hn. destruct (decide (n = 0)) as [->|Hn0].
  { exists 0, h. split; [done|]. split; [by left|done]. }
  destruct (malloc_ok _ _ _ geo h cs n Hok) as [[_ Hrun]|Hres]; [lia| |].
  { exists 0, h. split; [done|]. split; [by left|done]. }
  destruct Hres as (cs1 & s & cs2 & m' & -> & Hle & _ & Hrun & Hok' & Hdata).
  destruct (chunk_size_ok n) as (_ & _ & _ & Hsz); [lia|].
  pose proof (hp_shape _ _ _ _ _ _ (ho_hp _ _ _ _ _ Hok)) as Hsh.
  destruct (shape_free _ _ _ geo _ _ _ Hsh) as [Hne1 Hne2].
  destruct (shape_at _ _ _ geo _ _ _ _ Hsh Hne1) as (_ & Hlo & _ & _ & _ & Hin).
  destruct (Hin Hne2) as [[Hs16 _] Hhi]. simpl in Hs16.
  assert (chunk_at base (cs1 ++ (s, false) :: cs2) (base + span cs1) s false) as Hfr by (by exists cs1, cs2).
  rewrite Forall_forall in Hlive.
  eexists _, _. split; [exact Hrun|]. split; [right; split; [destruct geo; lia|]|].
  - eexists. split; [exact Hok'|]. csimpl. split; [constructor; [|done]|constructor].
    + intros (b & Heq & Hb)%list_elem_of_fmap. destruct (Hlive b Hb) as (_ & s' & Ha & Hs' & _).
      rewrite <- Heq in Ha. replace (base + span cs1 + 8 - 8) with (base + span cs1) in Ha by lia.
      destruct (Hlive b Hb) as (H0 & _).
      destruct (chunk_order _ _ _ _ _ _ _ _ (shape_sizes _ _ _ Hsh) Hfr Ha) as [?|?]; [naive_solver|lia].
    + split; [simpl; lia|]. simpl. replace (base + span cs1 + 8 - 8) with (base + span cs1) by lia.
      unfold alloc_split. destruct (16 <=? s - chunk_size n); simpl.
      * exists (chunk_size n). split; [by eexists cs1, _|]. lia.
      * exists s. split; [by eexists cs1, _|]. lia.
    + apply Forall_forall. intros b Hb.
      apply (live_splice cs1 [(s, false)] (alloc_split s (chunk_size n)) cs2);
        [rewrite alloc_split_span; simpl; lia|by apply Hlive|].
      intros s' ([|c c1] & c2 & Heq & _); [done|]. by destruct c1.
  - intros b w Hb Hw. simpl. apply Hdata. eapply live_data; [by apply Hlive|done].
Qed.

(** ** mm_free *)

Lemma heap_free_law h B k b :
  heap_inv h B → B !! k = Some b →
  ∃ h', mm_free nl b.1 h = Some (tt, h') ∧ heap_inv h' (delete k B) ∧
    ∀ b' w, b' ∈ delete k B → word_of b' w → words h' !! w = words h !! w.
Proof.
  intros (cs & Hok & Hnd & Hlive) Hk. rewrite Forall_forall in Hlive.
  pose proof (hp_shape _ _ _ _ _ _ (ho_hp _ _ _ _ _ Hok)) as Hsh.
  destruct (Hlive b (list_elem_of_lookup_2 _ _ _ Hk)) as (H0 & s & (cs1 & cs2 & -> & Ha) & Hs & Hlo & Hhi).
  assert (cs1 ≠ []) as Hne1 by (intros ->; simpl in Ha; lia).
  assert (cs2 ≠ []) as Hne2.
  { intros ->. destruct (shape_at _ _ _ geo _ _ _ _ Hsh Hne1) as (_ & _ & _ & _ & He & _).
    destruct (He eq_refl) as (_ & _ & ?). lia. }
  destruct (free_ok _ _ _ geo h cs1 s cs2 Hok Hne1 Hne2)
    as (q1 & p1 & n1 & q2 & m' & -> & -> & Hpn & Hrun & Hok' & Hdata).
  replace (base + span (q1 ++ p1) + 8) with b.1 in Hrun by lia.
  assert (∀ b', b' ∈ delete k B → live (freed q1 p1 s n1 q2) b') as Hlive'.
  { intros b' Hb'. assert (b' ∈ B) as HbB by (by eapply sublist_subseteq; [apply sublist_delete|]).
    assert (b'.1 ≠ b.1) as Hne.
    { intros Heq. rewrite (delete_take_drop B k) in Hb'.
      rewrite <- (take_drop_middle B k b Hk), fmap_app in Hnd. csimpl in Hnd.
      apply NoDup_app in Hnd as (_ & Hd & [Hd2 _]%NoDup_cons).
      apply elem_of_app in Hb' as [Hb'|Hb']; apply (list_elem_of_fmap_2 fst) in Hb'; rewrite Heq in Hb'.
      - apply (Hd _ Hb'). by left.
      - done. }
    apply (live_splice q1 (p1 ++ (s, true) :: n1) [(span p1 + s + span n1, false)] q2).
    - rewrite span_app. simpl. lia.
    - pose proof (Hlive b' HbB) as Hl. by rewrite <- !app_assoc in Hl |- *.
    - intros s' [(c1 & c2 & -> & _)|([|c c1] & c2 & Heq & Hadd)]%chunk_at_app.
      + apply Forall_app in Hpn as [Hp _]. apply Forall_app in Hp as [_ [[=] _]%Forall_cons].
      + apply Hne. rewrite span_app in Ha. simpl in Hadd. lia.
      + injection Heq as _ ->. apply Forall_app in Hpn as [_ Hn].
        apply Forall_app in Hn as [_ [[=] _]%Forall_cons]. }
  eexists. split; [exact Hrun|]. split.
  - eexists. split; [exact Hok'|]. split; [|by apply Forall_forall].
    eapply sublist_NoDup; [exact Hnd|]. apply fmap_sublist, sublist_delete.
  - intros b' w Hb' Hw. simpl. apply Hdata. eapply live_data; [by apply Hlive'|done].
Qed.

(** ** Stores *)

Lemma heap_ok_store h cs w v :
  heap_ok nl base lim h cs → data base cs w → is_Some (words h !! w) →
  heap_ok nl base lim (set_words (<[w := v]> (words h)) h) cs.
Proof.
  intros Hok Hw Hs. eapply (heap_ok_data _ _ _ geo _ _ [w]); [done| |by constructor].
  by apply (touched_insert []); [apply touched_refl|].
Qed.

Lemma heap_store_law h B b w v :
  heap_inv h B → b ∈ B → word_of b w →
  ∃ h', store_word w v h = Some (tt, h') ∧ heap_inv h' B ∧
    words h' !! w = Some v ∧ ∀ w', w' ≠ w → words h' !! w' = words h !! w'.
Proof.
  intros (cs & Hok & Hnd & Hlive) Hb Hw. rewrite Forall_forall in Hlive.
  pose proof (hp_shape _ _ _ _ _ _ (ho_hp _ _ _ _ _ Hok)) as Hsh.
  pose proof (live_data _ _ _ (Hlive b Hb) Hw) as Hd.
  assert (is_Some (words h !! w)) as Hs.
  { apply (hp_map _ _ _ _ _ _ (ho_hp _ _ _ _ _ Hok)); [by apply (data_range _ _ cs)|].
    destruct (live_aligned _ _ Hsh (Hlive b Hb)) as [Ha _]. destruct Hw as (i & _ & _ & ->).
    Z.div_mod_to_equations. lia. }
  exists (set_words (<[w := v]> (words h)) h). split; [|split; [|split]].
  - destruct Hs as [x Hx]. unfold store_word, kput. by rewrite Hx.
  - exists cs. split; [by apply heap_ok_store|]. split; [done|by apply Forall_forall].
  - apply lookup_insert_eq.
  - intros w' Hne. by apply lookup_insert_ne.
Qed.

#[global] Instance heap_laws : @AllocLaws mm_heap_s (heap_ops nl) 4294967272 heap_inv.
Proof.
  split.
  - intros h B i j b b' (cs & Hok & Hnd & Hlive) Hi Hj Hij. rewrite Forall_forall in Hlive.
    apply (live_disjoint cs); [apply Hok|by eapply Hlive, list_elem_of_lookup_2..|].
    intros Heq. apply Hij. apply (NoDup_lookup _ i j b.1 Hnd).
    + by rewrite list_lookup_fmap, Hi.
    + by rewrite list_lookup_fmap, Hj, Heq.
  - apply heap_malloc_law.
  - apply heap_free_law.
  - apply heap_store_law.
Qed.
End alloc.
