(* ===== verification/MmHeapResize.v ===== *)
(** * MmHeapResize: mm_shrinkchunk

    How an allocated chunk gives the end of its memory back to the free list; what
    happens to its contents and to the other chunks. *)

From S2P Require Import Prelude MmHeap MmHeapSpec MmHeapInv MmHeapOps.
Local Open Scope Z_scope.

Section resize.
Context `{Config} (nl base lim : Z) (geo : geometry nl base lim).
Implicit Types (h : mm_heap_s) (m : gmap Z Z) (cs : list chunk) (F : list node).
Abbreviation hp := (hp nl base lim).
Abbreviation heap_ok := (heap_ok nl base lim).
Abbreviation shape := (shape base lim).

(** ** Words *)

Lemma put_ok h n f v :
  mapped base lim (words h) → base ≤ n + offset f < lim → n mod 4 = 0 →
  put n f v h = Some (tt, set_words (<[n + offset f := v]> (words h)) h) ∧
  mapped base lim (<[n + offset f := v]> (words h)).
Proof.
  intros Hm Hr Hn. assert ((n + offset f) mod 4 = 0) as H4.
  { destruct f; unfold offset; Z.div_mod_to_equations; lia. }
  split; [by apply put_Some, Hm|]. intros w Hw Hw4. apply lookup_insert_is_Some'. right. by apply Hm.
Qed.

(** An aligned word of the region. *)
Definition in_region (n : Z) (f : node_field) : Prop := base ≤ n + offset f < lim ∧ n mod 4 = 0.

Lemma puts3 h n1 f1 v1 n2 f2 v2 n3 f3 v3 A (k : K mm_heap_s A) :
  mapped base lim (words h) → in_region n1 f1 → in_region n2 f2 → in_region n3 f3 →
  (put n1 f1 v1;; put n2 f2 v2;; put n3 f3 v3;; k) h =
  k (set_words (<[n3 + offset f3 := v3]> (<[n2 + offset f2 := v2]>
                 (<[n1 + offset f1 := v1]> (words h)))) h).
Proof.
  intros Hm [Hr1 H1] [Hr2 H2] [Hr3 H3].
  destruct (put_ok h n1 f1 v1 Hm Hr1 H1) as [R1 M1]. rewrite (K_bind_Some _ _ _ _ _ R1).
  destruct (put_ok (set_words _ h) n2 f2 v2 M1 Hr2 H2) as [R2 M2]. rewrite (K_bind_Some _ _ _ _ _ R2).
  destruct (put_ok (set_words _ h) n3 f3 v3 M2 Hr3 H3) as [R3 M3]. by rewrite (K_bind_Some _ _ _ _ _ R3).
Qed.

(** Free chunks stay inside free chunks when a run of chunks is rewritten. *)
Lemma inside_splice cs1 old new cs2 F :
  span new = span old → Forall (λ e, 16 ≤ e.2) F →
  (∀ e, e ∈ F → chunk_at base (cs1 ++ old ++ cs2) e.1 e.2 false) →
  (∀ a s, chunk_at (base + span cs1) old a s false →
     ∃ a' s', chunk_at (base + span cs1) new a' s' false ∧ a' ≤ a ∧ a + s ≤ a' + s') →
  Forall (λ e, ∃ a s, chunk_at base (cs1 ++ new ++ cs2) a s false ∧ a ≤ e.1 ∧ e.1 + 16 ≤ a + s) F.
Proof.
  intros Hsp H16 HF Hold. apply Forall_forall. intros [a s] He.
  rewrite Forall_forall in H16. specialize (H16 _ He). specialize (HF _ He). simpl in *.
  rewrite !chunk_at_app in HF. setoid_rewrite chunk_at_app. setoid_rewrite chunk_at_app. rewrite Hsp.
  destruct HF as [HF|[HF|HF]].
  - exists a, s. split; [by left|lia].
  - destruct (Hold a s HF) as (a' & s' & ? & ? & ?). exists a', s'. split; [by right; left|lia].
  - exists a, s. split; [by right; right|lia].
Qed.

Lemma free_16 cs : shape cs → Forall (λ e, 16 ≤ e.2) (free_of base cs).
Proof.
  intros Hsh. apply Forall_forall. intros [a s] (c1 & c2 & -> & _)%elem_of_free_of.
  destruct (shape_free _ _ _ geo _ _ _ Hsh) as [Hc1 Hc2].
  destruct (shape_at _ _ _ geo _ _ _ _ Hsh Hc1) as (_ & _ & _ & _ & _ & Hg).
  by destruct (Hg Hc2) as [[? _] _].
Qed.

(** ** mm_shrinkchunk *)

(** The allocated chunk [(s, true)] and the free chunks [n1] behind it become an
    allocated chunk of size [x] and one free chunk. *)
Definition shrunk cs1 (s x : Z) n1 q2 : list chunk :=
  cs1 ++ (x, true) :: (s + span n1 - x, false) :: q2.

Lemma shrink_quiet cs1 s x n1 q2 F :
  let A := base + span cs1 in let y := s + span n1 - x in
  let cs' := shrunk cs1 s x n1 q2 in
  shape (cs1 ++ ((s, true) :: n1) ++ q2) → shape cs' → q2 ≠ [] → 16 ≤ x ≤ s → 16 ≤ y →
  F ⊆ free_of base (cs1 ++ ((s, true) :: n1) ++ q2) →
  quiet base cs' (split_words A x y) ∧ quiet base cs' (links (sents nl ++ F)) ∧
  quiet base cs' (links (sents nl ++ (A + x, y) :: F)).
Proof.
  intros A y cs' Hsh Hsh' Hne Hx Hy HF.
  assert (chunk_at base cs' (A + x) y false) as Hat.
  { exists (cs1 ++ [(x, true)]), q2. unfold cs', shrunk. fold y. rewrite <- app_assoc, span_app.
    split; [done|]. simpl. unfold A. lia. }
  assert (Forall (λ e, ∃ a s, chunk_at base cs' a s false ∧ a ≤ e.1 ∧ e.1 + 16 ≤ a + s) F) as Hin.
  { apply (inside_splice cs1 ((s, true) :: n1) [(x, true); (y, false)] q2).
    - simpl. unfold y. lia.
    - apply Forall_forall. intros e He. pose proof (free_16 _ Hsh) as H16. rewrite Forall_forall in H16.
      by apply H16, HF.
    - intros [a sa] He. by apply elem_of_free_of, HF.
    - intros a sa (c1 & c2 & Heq & ->). destruct c1 as [|c c1]; [done|]. injection Heq as <- ->.
      exists (A + x), y. split.
      + exists [(x, true)], []. split; [done|]. simpl. unfold A. lia.
      + pose proof (shape_sizes _ _ _ Hsh) as Hz.
        apply Forall_app in Hz as [_ [[_ Hz]%Forall_cons _]%Forall_app].
        apply Forall_app in Hz as [Hz1 [_ Hz2]%Forall_cons].
        pose proof (span_nonneg _ Hz1). pose proof (span_nonneg _ Hz2).
        unfold y, A. rewrite span_app. simpl. lia. }
  split; [|split; [by apply (quiet_links _ _ _ geo)|]].
  - unfold split_words. apply quiet_cons; [|apply quiet_cons; [|apply quiet_cons]].
    + eapply quiet_free; [done|exact Hat|unfold offset; lia].
    + eapply quiet_free; [done|exact Hat|unfold offset; lia].
    + eapply (quiet_hdr _ _ _ A x true); [done|by eexists cs1, _|by left].
    + destruct q2 as [|[s2 b2] q2]; [done|].
      eapply (quiet_hdr _ _ _ (A + x + y) s2 b2); [done| |by right].
      exists (cs1 ++ [(x, true); (y, false)]), q2. unfold cs', shrunk. fold y.
      rewrite <- app_assoc, span_app. split; [done|]. simpl. unfold A. lia.
  - apply (quiet_links _ _ _ geo); [done|]. constructor; [|done]. exists (A + x), y. split; [done|].
    simpl. lia.
Qed.

Section shrink.
Context h cs1 (s x : Z) (rest : list chunk) (s2 : Z) (b2 : bool) (q2 : list chunk) F.
Abbreviation A := (base + span cs1).
Abbreviation y := (s + span rest - x).
Context (Hhp : hp h (cs1 ++ ((s, true) :: rest) ++ (s2, b2) :: q2) F) (Hne : cs1 ≠ [])
  (Hx : good (x, true)) (Hy : good (y, false)).

Lemma shrink_writes C (k : Z → K mm_heap_s C) :
  (put (A + x) fsize y;; put (A + x) fpreceding x;; put A fsize x;;
   s' ← get (A + x) fsize; set_preceding (A + x + y) s';; k s') h =
  k y (set_words (split_mem A x y false b2 (words h)) h).
Proof using Hhp Hne Hx Hy geo.
  destruct (split_range _ _ _ geo _ _ _ _ _ _ _ _ _ y false _ Hhp Hne Hx Hy ltac:(lia))
    as (HA & Hlo & Hx16 & Hy16 & HAx & Hhi & q & Hq & Hp2).
  rewrite (puts3 h); [|apply Hhp|split; [unfold offset; lia|Z.div_mod_to_equations; lia]..].
  erewrite K_bind_Some by (apply get_Some; simpl; look).
  erewrite K_bind_Some; [reflexivity|].
  etrans; [apply (set_preceding_ok _ _ y q b2)|done]; [|destruct geo; lia|done]. simpl. look.
Qed.

(** When the chunk behind is allocated, the code does not read its flag. *)
Lemma shrink_writes_alloc C (k : K mm_heap_s C) :
  b2 = true →
  (put (A + x) fsize y;; put (A + x) fpreceding x;; put A fsize x;;
   s' ← get (A + x) fsize; put (A + x + y) fpreceding (Z.lor s' MM_ALLOC_BIT);; k) h =
  k (set_words (split_mem A x y false b2 (words h)) h).
Proof using Hhp Hne Hx Hy geo.
  intros ->.
  destruct (split_range _ _ _ geo _ _ _ _ _ _ _ _ _ y false _ Hhp Hne Hx Hy ltac:(lia))
    as (HA & Hlo & Hx16 & Hy16 & HAx & Hhi & q & Hq & Hp2).
  rewrite (puts3 h); [|apply Hhp|split; [unfold offset; lia|Z.div_mod_to_equations; lia]..].
  erewrite K_bind_Some by (apply get_Some; simpl; look).
  rewrite lor_alloc by (destruct geo; lia). erewrite K_bind_Some; [reflexivity|].
  etrans; [apply put_Some|done]. eexists. simpl. look.
Qed.

(** Both, and the free list. *)
Lemma shrink_hp :
  A + x ∉ F.*1 → Forall (.∉ F.*1) (addrs A ((s, true) :: rest)) →
  let h1 := set_words (split_mem A x y false b2 (words h)) h in
  ∃ m', mm_addfreechunk nl (A + x) h1 = Some (tt, set_words m' h) ∧
    hp (set_words m' h) (shrunk cs1 s x rest ((s2, b2) :: q2)) ((A + x, y) :: F) ∧
    touched (split_words A x y ++ links (sents nl ++ (A + x, y) :: F)) (words h) m'.
Proof using Hhp Hne Hx Hy geo.
  intros HxF HF h1.
  destruct (split_hp _ _ _ geo _ _ _ _ _ _ _ _ _ y false _ Hhp Hne Hx Hy ltac:(lia) HF) as [Hhp1 Ht1].
  assert (A + x = base + span (cs1 ++ [(x, true)])) as HAx.
  { rewrite span_app. simpl. lia. }
  destruct (hp_add _ _ _ geo h1 (cs1 ++ [(x, true)]) y false ((s2, b2) :: q2) F) as (m2 & Hrun2 & Hhp2 & Ht2).
  { by rewrite <- app_assoc. }
  { by destruct cs1. }
  { done. }
  { by rewrite <- HAx. }
  rewrite <- HAx in Hrun2, Hhp2, Ht2. rewrite <- app_assoc in Hhp2.
  exists m2. split; [exact Hrun2|]. split; [exact Hhp2|]. eapply touched_trans; [exact Ht1|exact Ht2].
Qed.
End shrink.

Lemma coalesced_shrunk cs1 s x n1 q2 :
  coalesced (cs1 ++ (s, true) :: n1 ++ q2) → (n1 = [] ∧ meet (Some (s, false)) (head q2) ∨
    ∃ ns, n1 = [(ns, false)]) → coalesced (shrunk cs1 s x n1 q2).
Proof.
  unfold shrunk. rewrite !coalesced_app, !coalesced_cons, coalesced_app.
  intros (Hc1 & (_ & _ & Hq2 & Hm) & _) Hn1. split; [done|]. cbn [head].
  split; [|by destruct (last cs1); [right|]]. split; [by left|]. split; [|done].
  destruct Hn1 as [[-> Hm']|[ns ->]]; [done|]. by destruct (head q2).
Qed.

Lemma shrink_end h m1 m' cs1 s x n1 q2 F F' :
  let A := base + span cs1 in let y := s + span n1 - x in let cs := cs1 ++ ((s, true) :: n1) ++ q2 in
  shape cs → q2 ≠ [] → 16 ≤ x < s → 16 ≤ y → coalesced (shrunk cs1 s x n1 q2) →
  F = free_of base cs → F ≡ₚ free_of (A + s) n1 ++ F' →
  hp (set_words m' h) (shrunk cs1 s x n1 q2) ((A + x, y) :: F') →
  touched (links (sents nl ++ F)) (words h) m1 →
  touched (split_words A x y ++ links (sents nl ++ (A + x, y) :: F')) m1 m' →
  heap_ok (set_words m' h) (shrunk cs1 s x n1 q2) ∧
  ∀ w, data base (shrunk cs1 s x n1 q2) w → m' !! w = words h !! w.
Proof.
  intros A y cs Hsh Hne Hx Hy Hco HFeq HF Hhp Ht1 Ht2.
  assert (F' ≡ₚ free_of base cs1 ++ free_of (A + s + span n1) q2) as HF'.
  { apply (Permutation_app_inv_l (free_of (A + s) n1)). rewrite <- HF, HFeq. unfold cs.
    rewrite !free_of_app. simpl. rewrite Z.add_assoc. apply Permutation_app_swap_app. }
  split; [split; [|done]|].
  - eapply hp_perm; [|exact Hhp]. unfold shrunk. rewrite free_of_app. simpl. fold A y.
    rewrite HF'. replace (A + x + y) with (A + s + span n1) by (unfold y; lia). apply Permutation_middle.
  - assert (F' ⊆ F) as HFF by (intros e He; rewrite HF; apply elem_of_app; by right).
    pose proof (hp_shape _ _ _ _ _ _ Hhp) as Hsh'. subst F.
    destruct (shrink_quiet cs1 s x n1 q2 (free_of base cs) Hsh Hsh' Hne) as (Hk1 & Hk2 & _); [lia|done|done|].
    destruct (shrink_quiet cs1 s x n1 q2 F' Hsh Hsh' Hne) as (_ & _ & Hk3); [lia|done|done|].
    intros w Hw. eapply touched_data; [eapply touched_trans; [exact Ht1|exact Ht2]| |exact Hw].
    by apply quiet_app; [|apply quiet_app].
Qed.

(** Three chunks in a row. *)
Lemma row_facts c x bx y by' z bz c3 :
  let cs := c ++ (x, bx) :: (y, by') :: (z, bz) :: c3 in let A := base + span c in
  shape cs → c ≠ [] →
  A mod 16 = 8 ∧ base + 8 ≤ A ∧ good (x, bx) ∧ good (y, by') ∧ A + x + y + 8 ≤ lim ∧
  chunk_at base cs A x bx ∧ chunk_at base cs (A + x) y by' ∧ chunk_at base cs (A + x + y) z bz.
Proof.
  intros cs A Hsh Hne. destruct (shape_at _ _ _ geo _ _ _ _ Hsh Hne) as (HA & Hlo & _ & _ & _ & Hin).
  destruct (Hin ltac:(done)) as [Hx Hhi].
  assert (shape ((c ++ [(x, bx)]) ++ (y, by') :: (z, bz) :: c3)) as Hsh2 by (by rewrite <- app_assoc).
  destruct (shape_at _ _ _ geo _ _ _ _ Hsh2) as (_ & _ & _ & _ & _ & Hin2); [by destruct c|].
  destruct (Hin2 ltac:(done)) as [Hy Hhi2]. rewrite span_app in Hhi2. simpl in Hhi2. unfold A.
  split_and!; [done|done|done|done|lia|by eexists c, _| |].
  - exists (c ++ [(x, bx)]), ((z, bz) :: c3). rewrite <- app_assoc, span_app. split; [done|]. simpl. lia.
  - exists (c ++ [(x, bx); (y, by')]), c3. rewrite <- app_assoc, span_app. split; [done|]. simpl. lia.
Qed.

(** An allocated chunk and the free chunk behind it. *)

Section next.
Context h cs1 (s ns : Z) (s2 : Z) (b2 : bool) (cs3 : list chunk).
Abbreviation A := (base + span cs1).
Abbreviation cs := (cs1 ++ (s, true) :: (ns, false) :: (s2, b2) :: cs3).
Context (Hok : heap_ok h cs) (Hne : cs1 ≠ []).

Lemma next_facts :
  A mod 16 = 8 ∧ base + 8 ≤ A ∧ 16 ≤ s ∧ s mod 16 = 0 ∧ ns mod 16 = 0 ∧ A + s + ns + 8 ≤ lim ∧
  chunk_at base cs A s true ∧ chunk_at base cs (A + s) ns false ∧ chunk_at base cs (A + s + ns) s2 b2.
Proof using Hok Hne geo.
  destruct (row_facts cs1 s true ns false s2 b2 cs3) as (? & ? & [? ?] & [_ ?] & ?); [apply Hok|done|].
  by simpl in *.
Qed.

(** Behind the removal of the next node. *)
Lemma next_removed :
  let F' := free_of base cs1 ++ free_of (A + s + ns) ((s2, b2) :: cs3) in
  ∃ m1, remove_node (A + s) h = Some (tt, set_words m1 h) ∧ hp (set_words m1 h) cs F' ∧
    (A ∉ F'.*1) ∧ (A + s ∉ F'.*1) ∧ F' ⊆ free_of base cs ∧
    touched (links (sents nl ++ free_of base cs)) (words h) m1.
Proof using Hok Hne geo.
  intros F'. destruct next_facts as (_ & _ & _ & _ & _ & _ & HatA & _).
  pose proof (ho_hp _ _ _ _ _ Hok) as Hhp.
  assert (free_of base cs ≡ₚ (A + s, ns) :: F') as HF.
  { unfold F'. rewrite free_of_app. simpl. symmetry. apply Permutation_middle. }
  destruct (hp_remove _ _ _ geo h _ _ _ _ F' Hhp HF) as (m1 & Hrun1 & Hhp1 & Ht1).
  pose proof (hp_list _ _ _ _ _ _ Hhp) as [L Hfl]. pose proof (fl_nodup _ _ _ _ _ _ Hfl) as Hnd.
  pose proof (alloc_notin _ _ _ geo _ _ _ (hp_shape _ _ _ _ _ _ Hhp) HatA) as HAF.
  rewrite HF in Hnd, HAF. csimpl in Hnd. csimpl in HAF.
  apply NoDup_cons in Hnd as [HsF _]. apply not_elem_of_cons in HAF as [_ HAF].
  exists m1. split_and!; [done|done|done|done| |done].
  intros e He. rewrite HF. by right.
Qed.

End next.

(** ** mm_shrinkchunk *)

Lemma hp_next_size h cs1 s b ns nb cs3 F :
  hp h (cs1 ++ (s, b) :: (ns, nb) :: cs3) F →
  get (base + span cs1 + s) fsize h = Some (ns, h).
Proof.
  intros Hhp. change (cs1 ++ ?c :: ?l) with (cs1 ++ [c] ++ l) in Hhp. rewrite app_assoc in Hhp.
  pose proof (hp_size _ _ _ _ _ _ _ _ _ Hhp) as Hs. rewrite span_app in Hs. simpl in Hs.
  by replace (base + span cs1 + s) with (base + (span cs1 + (s + 0))) by lia.
Qed.

Lemma hp_next_free h cs1 s b ns nb cs3 F :
  hp h (cs1 ++ (s, b) :: (ns, nb) :: cs3) F →
  is_free (base + span cs1 + s) h = Some (negb nb, h).
Proof.
  intros Hhp. change (cs1 ++ ?c :: ?l) with (cs1 ++ [c] ++ l) in Hhp. rewrite app_assoc in Hhp.
  pose proof (hp_is_free _ _ _ geo _ _ _ _ _ _ Hhp) as Hs. rewrite span_app in Hs. simpl in Hs.
  by replace (base + span cs1 + s) with (base + (span cs1 + (s + 0))) by lia.
Qed.

(** What [mm_shrinkchunk] reads before it branches. *)
Lemma shrink_opens h cs1 s x ns nb cs3 F :
  let A := base + span cs1 in
  hp h (cs1 ++ (s, true) :: (ns, nb) :: cs3) F → x mod 16 = 0 →
  mm_shrinkchunk nl A x h =
  (if negb nb then
     ns ← get (A + s) fsize; remove_node (A + s);; ns' ← get (A + s) fsize; s' ← get A fsize;
     put (A + x) fsize (u32 (ns' + s' - x));; put (A + x) fpreceding x;; put A fsize x;;
     s'' ← get (A + x) fsize; set_preceding (A + s + ns) s'';; mm_addfreechunk nl (A + x)
   else
     s' ← get A fsize;
     kwhen (u32 (x + SIZEOF_MM_FREENODE) <=? s')
       (put (A + x) fsize (u32 (s' - x));; put (A + x) fpreceding x;; put A fsize x;;
        s'' ← get (A + x) fsize; put (A + s) fpreceding (Z.lor s'' MM_ALLOC_BIT);;
        mm_addfreechunk nl (A + x))) h.
Proof.
  intros A Hhp Hx16. unfold mm_shrinkchunk. rewrite kassert_step; last first.
  { change MM_GRAN_MASK with (Z.ones 4). rewrite Z.land_ones by lia. apply Z.eqb_eq, Hx16. }
  rewrite (K_bind_Some _ _ _ _ _ (hp_size _ _ _ _ _ _ _ _ _ Hhp)). cbv zeta.
  by rewrite (K_bind_Some _ _ _ _ _ (hp_next_free _ _ _ _ _ _ _ _ Hhp)).
Qed.

(** The chunk behind is allocated: the memory becomes a chunk of its own. *)
Lemma shrink_alloc h cs1 s x ns cs3 :
  let cs := cs1 ++ (s, true) :: (ns, true) :: cs3 in let q2 := (ns, true) :: cs3 in
  heap_ok h cs → cs1 ≠ [] → 16 ≤ x < s → x mod 16 = 0 →
  ∃ m', mm_shrinkchunk nl (base + span cs1) x h = Some (tt, set_words m' h) ∧
    heap_ok (set_words m' h) (shrunk cs1 s x [] q2) ∧
    ∀ w, data base (shrunk cs1 s x [] q2) w → m' !! w = words h !! w.
Proof.
  intros cs q2 [Hhp Hco] Hne1 Hx Hx16. set (A := base + span cs1).
  pose proof (hp_shape _ _ _ _ _ _ Hhp) as Hsh.
  destruct (shape_at _ _ _ geo _ _ _ _ Hsh Hne1) as (HA & Hlo & _ & _ & _ & Hin).
  destruct (Hin ltac:(done)) as [[_ Hs16] Hhi]. simpl in Hs16. fold A in HA, Hlo, Hhi.
  unfold A. rewrite (shrink_opens h cs1 s x ns true cs3 _ Hhp Hx16). cbn [negb]. fold A.
  assert (A ∉ (free_of base cs).*1) as HAF by (eapply alloc_notin; [done|done|by eexists cs1, _]).
  pose proof (hp_size _ _ _ _ _ _ _ _ _ Hhp) as Hsize. fold A in Hsize.
  rewrite (K_bind_Some _ _ _ _ _ Hsize). unfold SIZEOF_MM_FREENODE.
  assert (0 ≤ s < 2147483648 ∧ 0 ≤ x) as Hsb by (destruct geo; lia).
  assert (good (x, true)) as Hgx by (split; [simpl; lia|done]).
  rewrite !u32_small by lia. rewrite (proj2 (Z.leb_le _ _)) by (Z.div_mod_to_equations; lia). cbn [kwhen].
  assert (good (s + span [] - x, false)) as Hy.
  { split; simpl; Z.div_mod_to_equations; lia. }
  replace (s - x) with (s + span [] - x) by (simpl; lia).
  replace (A + s) with (A + x + (s + span [] - x)) by (simpl; lia).
  destruct (shrink_hp h cs1 s x [] ns true cs3 (free_of base cs) Hhp Hne1) as (m' & Hrun & Hhp1 & Ht1);
    [done|done|apply (inside_notin _ _ _ geo _ _ _ A s true _ Hhp); [by eexists cs1, _|lia]|by constructor|].
  fold A in Hrun, Hhp1, Ht1. exists m'. split.
  { etrans; [apply (shrink_writes_alloc h cs1 s x [] ns true cs3 _ Hhp Hne1); done|]. exact Hrun. }
  apply (shrink_end h (words h) m' cs1 s x [] ((ns, true) :: cs3) (free_of base cs) (free_of base cs));
    [done|done|done|apply Hy| |done|done|done|by split|done].
  apply coalesced_shrunk; [done|left]. by split; [|right].
Qed.

(** The chunk behind is free: the memory joins it. *)
Lemma shrink_free h cs1 s x ns s2 b2 cs3 :
  let cs := cs1 ++ (s, true) :: (ns, false) :: (s2, b2) :: cs3 in let q2 := (s2, b2) :: cs3 in
  heap_ok h cs → cs1 ≠ [] → 16 ≤ x < s → x mod 16 = 0 →
  ∃ m', mm_shrinkchunk nl (base + span cs1) x h = Some (tt, set_words m' h) ∧
    heap_ok (set_words m' h) (shrunk cs1 s x [(ns, false)] q2) ∧
    ∀ w, data base (shrunk cs1 s x [(ns, false)] q2) w → m' !! w = words h !! w.
Proof.
  intros cs q2 Hok Hne1 Hx Hx16. set (A := base + span cs1).
  destruct (next_facts h cs1 s ns s2 b2 cs3 Hok Hne1) as (HA & Hlo & _ & Hs16 & Hns2 & Hhi & HatA & _).
  destruct (next_removed h cs1 s ns s2 b2 cs3 Hok Hne1) as (m1 & Hrun1 & Hhp1 & HAF & HsF & _ & Ht1).
  set (F' := free_of base cs1 ++ free_of (A + s + ns) ((s2, b2) :: cs3)).
  fold A in HA, Hlo, Hhi, HatA, Hrun1. fold A F' cs in Hhp1. fold cs in Ht1.
  assert (free_of base cs ≡ₚ (A + s, ns) :: F') as HF.
  { unfold cs, F'. rewrite free_of_app. simpl. symmetry. apply Permutation_middle. }
  destruct Hok as [Hhp Hco]. pose proof (hp_shape _ _ _ _ _ _ Hhp) as Hsh.
  unfold A. rewrite (shrink_opens h cs1 s x ns false _ _ Hhp Hx16). cbn [negb]. fold A.
  assert (good (x, true)) as Hgx by (split; [simpl; lia|done]).
  pose proof (free_16 _ Hsh) as H16. rewrite HF in H16. apply Forall_cons in H16 as [H16 _]. simpl in H16.
  assert (good (s + span [(ns, false)] - x, false)) as Hy.
  { split; simpl; [lia|]. Z.div_mod_to_equations. lia. }
  destruct (shrink_hp (set_words m1 h) cs1 s x [(ns, false)] s2 b2 cs3 F' Hhp1 Hne1)
    as (m' & Hrun & Hhp2 & Ht2);
    [done|done|apply (inside_notin _ _ _ geo _ _ _ A s true _ Hhp1); [by eexists cs1, _|lia]
    |apply Forall_cons; split; [done|by apply Forall_singleton]|].
  fold A in Hrun, Hhp2, Ht2. exists m'. split.
  { rewrite (K_bind_Some _ _ _ _ _ (hp_next_size _ _ _ _ _ _ _ _ Hhp)), (K_bind_Some _ _ _ _ _ Hrun1).
    rewrite (K_bind_Some _ _ _ _ _ (hp_next_size _ _ _ _ _ _ _ _ Hhp1)).
    erewrite K_bind_Some by (by apply (hp_size _ _ _ _ _ _ _ _ _ Hhp1)). fold A.
    rewrite u32_small by (destruct geo; lia).
    replace (ns + s - x) with (s + span [(ns, false)] - x) by (simpl; lia).
    replace (A + s + ns) with (A + x + (s + span [(ns, false)] - x)) by (simpl; lia).
    etrans; [apply (shrink_writes (set_words m1 h) cs1 s x [(ns, false)] s2 b2 cs3 _ Hhp1 Hne1 Hgx Hy _
      (λ _, mm_addfreechunk nl (A + x)))|]. exact Hrun. }
  apply (shrink_end h m1 m' cs1 s x [(ns, false)] ((s2, b2) :: cs3) (free_of base cs) F');
    [done|done|done|apply Hy| |done|done|done|done|done].
  apply coalesced_shrunk; [done|right]. by eexists.
Qed.

Lemma shrink_ok h cs1 s x cs2 :
  heap_ok h (cs1 ++ (s, true) :: cs2) → cs1 ≠ [] → cs2 ≠ [] → 16 ≤ x < s → x mod 16 = 0 →
  ∃ n1 q2 m', cs2 = n1 ++ q2 ∧ Forall (λ c, c.2 = false) n1 ∧
    mm_shrinkchunk nl (base + span cs1) x h = Some (tt, set_words m' h) ∧
    heap_ok (set_words m' h) (shrunk cs1 s x n1 q2) ∧
    ∀ w, data base (shrunk cs1 s x n1 q2) w → m' !! w = words h !! w.
Proof.
  intros Hok Hne1 Hne2 Hx Hx16. destruct cs2 as [|[ns nb] cs3]; [done|]. destruct nb.
  - destruct (shrink_alloc h cs1 s x ns cs3 Hok Hne1 Hx Hx16) as (m' & ?).
    by exists [], ((ns, true) :: cs3), m'.
  - assert (shape ((cs1 ++ [(s, true)]) ++ (ns, false) :: cs3)) as Hsh.
    { rewrite <- app_assoc. apply Hok. }
    destruct (shape_free _ _ _ geo _ _ _ Hsh) as [_ Hne3]. destruct cs3 as [|[s2 b2] cs3]; [done|].
    destruct (shrink_free h cs1 s x ns s2 b2 cs3 Hok Hne1 Hx Hx16) as (m' & ?).
    exists [(ns, false)], ((s2, b2) :: cs3), m'. split; [done|]. by split; [constructor|].
Qed.
End resize.
