(* ===== verification/MmHeapRealloc.v ===== *)
(** * MmHeapRealloc: mm_realloc

    A block grows into its free neighbours or moves; its contents come along. *)

From S2P Require Import Prelude MmHeap MmHeapSpec MmHeapInv MmHeapOps MmHeapResize.
Local Open Scope Z_scope.

(** ** memcpy *)

Section copy.
Context `{Config}.
Implicit Types (h : mm_heap_s).

Definition cells (a : Z) (n : nat) : list Z := (λ i, a + 4 * i) <$> seqZ 0 (Z.of_nat n).

Lemma elem_of_cells a n w : w ∈ cells a n ↔ ∃ i, 0 ≤ i < Z.of_nat n ∧ w = a + 4 * i.
Proof. unfold cells. rewrite list_elem_of_fmap. setoid_rewrite elem_of_seqZ. naive_solver. Qed.

Lemma cells_S a n w : w ∈ cells a (S n) ↔ w = a ∨ w ∈ cells (a + 4) n.
Proof.
  rewrite !elem_of_cells. split.
  - intros (i & Hi & ->). destruct (decide (i = 0)) as [->|]; [left; lia|right].
    exists (i - 1). lia.
  - intros [->|(i & Hi & ->)]; [exists 0; lia|exists (i + 1); lia].
Qed.

(** The copy is right when it does not overwrite what it has still to read. *)
Lemma memcpy_ok n dst src h :
  (∀ w, w ∈ cells dst n → is_Some (words h !! w)) → (∀ w, w ∈ cells src n → is_Some (words h !! w)) →
  dst ≤ src ∨ src + 4 * Z.of_nat n ≤ dst →
  ∃ m', memcpy n dst src h = Some (tt, set_words m' h) ∧ touched (cells dst n) (words h) m' ∧
    ∀ i, 0 ≤ i < Z.of_nat n → m' !! (dst + 4 * i) = words h !! (src + 4 * i).
Proof.
  revert dst src h. induction n as [|n IH]; intros dst src h Hd Hs Hor.
  { exists (words h). split; [by destruct h|]. split; [by split|]. intros i Hi. lia. }
  assert (is_Some (words h !! src)) as [v Hv] by (apply Hs, cells_S; by left).
  assert (is_Some (words h !! dst)) as Hdst by (apply Hd, cells_S; by left).
  set (m1 := <[dst := v]> (words h)).
  destruct (IH (dst + 4) (src + 4) (set_words m1 h)) as (m' & Hrun & [Hdom Ht] & Hc).
  { intros w Hw. simpl. apply lookup_insert_is_Some'. right. apply Hd, cells_S. by right. }
  { intros w Hw. simpl. apply lookup_insert_is_Some'. right. apply Hs, cells_S. by right. }
  { lia. }
  exists m'. split; [|split; [split|]].
  - cbn [memcpy]. rewrite (K_bind_Some _ _ _ v h) by (unfold load_word, kget; by rewrite Hv).
    rewrite (K_bind_Some _ _ _ tt (set_words m1 h)); [exact Hrun|].
    destruct Hdst as [x Hx]. unfold store_word, kput. by rewrite Hx.
  - rewrite Hdom. simpl. by apply dom_insert_lookup_L.
  - intros w Hw. rewrite cells_S in Hw. rewrite Ht by tauto. apply lookup_insert_ne. intros ->. tauto.
  - intros i Hi. destruct (decide (i = 0)) as [->|Hi0].
    + replace (dst + 4 * 0) with dst by lia. replace (src + 4 * 0) with src by lia.
      rewrite Ht; [simpl; unfold m1; by rewrite lookup_insert_eq|]. rewrite elem_of_cells. intros (j & Hj & ?). lia.
    + replace (dst + 4 * i) with (dst + 4 + 4 * (i - 1)) by lia. rewrite Hc by lia. simpl.
      replace (src + 4 + 4 * (i - 1)) with (src + 4 * i) by lia. apply lookup_insert_ne. lia.
Qed.
End copy.

Section realloc.
Context `{Config} (nl base lim : Z) (geo : geometry nl base lim).
Implicit Types (h : mm_heap_s) (m : gmap Z Z) (cs : list chunk) (F : list node).
Abbreviation hp := (hp nl base lim).
Abbreviation heap_ok := (heap_ok nl base lim).
Abbreviation shape := (shape base lim).

(** The headers of [split_mem] may be written in another order. *)
Lemma split_mem_alt A x y by' b2 m :
  x ≠ 0 → (A + x) ≠ A + 4 → A + x + 4 ≠ A →
  <[A + x + y + offset fpreceding := prec y b2]>
    (<[A + x + offset fpreceding := prec x by']>
      (<[A + x + offset fsize := y]> (<[A + offset fsize := x]> m))) = split_mem A x y by' b2 m.
Proof.
  intros H1 H2 H3. unfold split_mem. f_equal.
  rewrite (insert_insert_ne m (A + x + offset fsize)) by (unfold offset; lia).
  by rewrite insert_insert_ne by (unfold offset; lia).
Qed.

(** Only the flags count. *)
Lemma coalesced_flags cs cs' : cs.*2 = cs'.*2 → coalesced cs → coalesced cs'.
Proof.
  revert cs'. induction cs as [|[s b] cs IH]; intros [|[s' b'] cs'] Heq; csimpl in Heq; try done.
  injection Heq as -> Heq. rewrite !coalesced_cons. intros [Hm Hc]. split; [|by apply IH].
  destruct cs as [|[] cs], cs' as [|[] cs']; csimpl in Heq; try done. by injection Heq as ->.
Qed.

(** An allocated chunk takes the place of a free neighbour. *)
Lemma coalesced_take c1 mid x c2 :
  coalesced (c1 ++ mid ++ c2) → coalesced (c1 ++ (x, true) :: c2).
Proof.
  rewrite !coalesced_app, coalesced_cons. intros (? & (_ & ? & _) & _).
  split; [done|]. split; [split; [by destruct (head c2); [left|]|done]|]. by destruct (last c1); [right|].
Qed.

(** ** Into the next chunk *)

Section next.
Context h cs1 (s ns : Z) (s2 : Z) (b2 : bool) (cs3 : list chunk) (tn : Z).
Abbreviation A := (base + span cs1).
Abbreviation cs := (cs1 ++ (s, true) :: (ns, false) :: (s2, b2) :: cs3).
Context (Hok : heap_ok h cs) (Hne : cs1 ≠ []) (Htn : 16 ≤ tn ≤ ns) (Htn16 : tn mod 16 = 0).

(** Some of the next chunk is taken. *)
Lemma extend_next_part m1 F C (k : Z → K mm_heap_s C) :
  hp (set_words m1 h) cs F → tn < ns →
  (put A fsize (s + tn);; x ← get A fsize;
   put (A + x) fsize (ns - tn);; put (A + x) fpreceding x;; y ← get (A + x) fsize;
   set_preceding (A + s + ns) y;; k x) (set_words m1 h) =
  k (s + tn) (set_words (split_mem A (s + tn) (s + span [(ns, false)] - (s + tn)) false b2 m1) h).
Proof using Hok Hne Htn Htn16 geo.
  intros Hhp1 Hlt. destruct (next_facts _ _ _ geo h cs1 s ns s2 b2 cs3 Hok Hne) as (HA & Hlo & Hs & Hs16 &
    Hns16 & Hhi & _).
  assert (s + span [(ns, false)] - (s + tn) = ns - tn) as -> by (simpl; lia).
  assert (good (s + tn, true) ∧ good (ns - tn, false)) as [Hgx Hgy].
  { split; split; simpl; Z.div_mod_to_equations; lia. }
  destruct (split_range _ _ _ geo _ _ s true [(ns, false)] _ _ _ (s + tn) (ns - tn) false _ Hhp1 Hne Hgx Hgy)
    as (_ & _ & _ & _ & _ & _ & q & Hq & Hp2); [simpl; lia|].
  destruct (put_ok base lim (set_words m1 h) A fsize (s + tn)) as [R1 M1];
    [apply Hhp1|unfold offset; lia|Z.div_mod_to_equations; lia|].
  rewrite (K_bind_Some _ _ _ _ _ R1).
  erewrite K_bind_Some by (apply get_Some, lookup_insert_eq).
  destruct (put_ok base lim (set_words _ h) (A + (s + tn)) fsize (ns - tn) M1) as [R2 M2];
    [unfold offset; lia|Z.div_mod_to_equations; lia|]. rewrite (K_bind_Some _ _ _ _ _ R2).
  destruct (put_ok base lim (set_words _ h) (A + (s + tn)) fpreceding (s + tn) M2) as [R3 M3];
    [unfold offset; lia|Z.div_mod_to_equations; lia|]. rewrite (K_bind_Some _ _ _ _ _ R3).
  erewrite K_bind_Some by (apply get_Some; simpl; look).
  replace (A + s + ns) with (A + (s + tn) + (ns - tn)) by lia.
  erewrite K_bind_Some; [reflexivity|]. rewrite <- split_mem_alt by lia.
  etrans; [apply (set_preceding_ok _ _ (ns - tn) q b2)|done]; [|destruct geo; lia|done]. simpl. look.
Qed.

(** What remains of the next chunk goes back to the free list. *)
Lemma extend_next_split :
  tn < ns →
  ∃ m', realloc_extend_next nl A s (A + s) ns tn h = Some (tt, set_words m' h) ∧
    heap_ok (set_words m' h) (cs1 ++ alloc_split (s + ns) (s + tn) ++ (s2, b2) :: cs3) ∧
    ∀ w, data base cs w → m' !! w = words h !! w.
Proof using Hok Hne Htn Htn16 geo.
  intros Hlt. destruct (next_facts _ _ _ geo h cs1 s ns s2 b2 cs3 Hok Hne) as (HA & Hlo & Hs & Hs16 & Hns16 &
    Hhi & HatA & HatN & HatB).
  destruct (next_removed _ _ _ geo h cs1 s ns s2 b2 cs3 Hok Hne) as (m1 & Hrun1 & Hhp1 & HAF & HsF & HFF & Ht1).
  set (F' := free_of base cs1 ++ free_of (A + s + ns) ((s2, b2) :: cs3)) in *.
  pose proof (ho_hp _ _ _ _ _ Hok) as Hhp. pose proof (hp_shape _ _ _ _ _ _ Hhp) as Hsh.
  unfold realloc_extend_next. rewrite (K_bind_Some _ _ _ _ _ Hrun1).
  rewrite !u32_small by (destruct geo; lia). rewrite (proj2 (Z.ltb_lt tn ns) Hlt).
  set (y := s + span [(ns, false)] - (s + tn)).
  assert (y = ns - tn) as Hy by (unfold y; simpl; lia).
  assert (good (s + tn, true) ∧ good (y, false)) as [Hgx Hgy].
  { rewrite Hy. split; split; simpl; Z.div_mod_to_equations; lia. }
  pose proof Hgy as [Hy16 _]. simpl in Hy16.
  destruct (shrink_hp _ _ _ geo (set_words m1 h) cs1 s (s + tn) [(ns, false)] s2 b2 cs3 F' Hhp1 Hne Hgx Hgy)
    as (m' & Hrun2 & Hhp2 & Ht2).
  { apply (inside_notin _ _ _ geo _ _ _ (A + s) ns false _ Hhp1 HatN). lia. }
  { apply Forall_cons. split; [done|]. by apply Forall_singleton. }
  unfold shrunk in Hhp2. fold y in Hrun2, Hhp2, Ht2.
  exists m'. unfold alloc_split. rewrite (proj2 (Z.leb_le _ _)) by lia. split; [|split; [split|]].
  - etrans; [apply (extend_next_part m1 F' _ (λ x, mm_addfreechunk nl (A + x)) Hhp1 Hlt)|]. exact Hrun2.
  - replace (s + ns - (s + tn)) with y by lia. eapply hp_perm; [|exact Hhp2].
    rewrite free_of_app. simpl. replace (A + (s + tn) + y) with (A + s + ns) by lia.
    apply Permutation_middle.
  - eapply coalesced_flags; [|apply Hok]. by rewrite !fmap_app.
  - intros w Hw. eapply touched_data; [eapply touched_trans; [exact Ht1|exact Ht2]| |exact Hw].
    replace (A + (s + tn) + y) with (A + s + ns) by lia.
    apply quiet_app; [apply (quiet_links _ _ _ geo); [done|by eapply free_inside]|].
    apply quiet_app; [|apply (quiet_links _ _ _ geo); [done|]].
    + unfold split_words. replace (A + (s + tn) + y) with (A + s + ns) by lia.
      apply quiet_cons; [|apply quiet_cons; [|apply quiet_cons]].
      * eapply quiet_free; [done|exact HatN|unfold offset; lia].
      * eapply quiet_free; [done|exact HatN|unfold offset; lia].
      * eapply quiet_hdr; [done|exact HatA|by left].
      * eapply quiet_hdr; [done|exact HatB|by right].
    + constructor; [|by eapply free_inside]. exists (A + s), ns. split; [done|]. simpl. lia.
Qed.

(** All of the next chunk is taken. *)
Lemma extend_next_whole :
  tn = ns →
  ∃ m', realloc_extend_next nl A s (A + s) ns tn h = Some (tt, set_words m' h) ∧
    heap_ok (set_words m' h) (cs1 ++ alloc_split (s + ns) (s + tn) ++ (s2, b2) :: cs3) ∧
    ∀ w, data base cs w → m' !! w = words h !! w.
Proof using Hok Hne Htn Htn16 geo.
  intros ->. destruct (next_facts _ _ _ geo h cs1 s ns s2 b2 cs3 Hok Hne) as (HA & Hlo & Hs & Hs16 & Hns16 &
    Hhi & HatA & HatN & HatB).
  destruct (next_removed _ _ _ geo h cs1 s ns s2 b2 cs3 Hok Hne) as (m1 & Hrun1 & Hhp1 & HAF & HsF & HFF & Ht1).
  set (F' := free_of base cs1 ++ free_of (A + s + ns) ((s2, b2) :: cs3)) in *.
  pose proof (ho_hp _ _ _ _ _ Hok) as Hhp. pose proof (hp_shape _ _ _ _ _ _ Hhp) as Hsh.
  unfold realloc_extend_next. rewrite (K_bind_Some _ _ _ _ _ Hrun1).
  rewrite !u32_small by (destruct geo; lia). rewrite Z.ltb_irrefl.
  destruct (absorb_ok _ _ _ geo (set_words m1 h) cs1 s true ns false s2 b2 cs3 F' Hhp1 Hne HAF HsF)
    as (m2 & Hrun2 & Hhp2 & Ht2).
  exists m2. unfold alloc_split. rewrite (proj2 (Z.leb_gt _ _)) by lia. split; [|split; [split|]].
  - specialize (Hrun2 _ (mret tt)).
    assert (hp (set_words m1 h) ((cs1 ++ [(s, true)]) ++ (ns, false) :: (s2, b2) :: cs3) F') as Hhp1'
      by (by rewrite <- app_assoc).
    rewrite (K_bind_Some _ _ _ _ _ (hp_size _ _ _ _ _ _ _ _ _ Hhp1)) in Hrun2.
    pose proof (hp_size _ _ _ _ _ _ _ _ _ Hhp1') as Hsz.
    replace (base + span (cs1 ++ [(s, true)])) with (A + s) in Hsz by (rewrite span_app; simpl; lia).
    rewrite (K_bind_Some _ _ _ _ _ Hsz), u32_small in Hrun2 by (destruct geo; lia).
    apply K_bind_inv in Hrun2 as ([] & h2 & Hp & Hrun2). rewrite (K_bind_Some _ _ _ _ _ Hp).
    apply K_bind_inv in Hrun2 as (x & h3 & Hg & Hrun2). rewrite (K_bind_Some _ _ _ _ _ Hg).
    apply K_bind_inv in Hrun2 as ([] & h4 & Hq & Hrun2). rewrite Hq. exact Hrun2.
  - eapply hp_perm; [|exact Hhp2]. rewrite free_of_app. simpl. unfold F'. by rewrite Z.add_assoc.
  - apply (coalesced_take cs1 [(s, true); (ns, false)]), Hok.
  - intros w Hw. eapply touched_data; [eapply touched_trans; [exact Ht1|exact Ht2]| |exact Hw].
    apply quiet_app; [apply (quiet_links _ _ _ geo); [done|by eapply free_inside]|]. apply quiet_cons.
    + eapply quiet_hdr; [done|exact HatA|by left].
    + eapply quiet_hdr; [done|exact HatB|by right].
Qed.

Lemma extend_next_ok :
  ∃ m', realloc_extend_next nl A s (A + s) ns tn h = Some (tt, set_words m' h) ∧
    heap_ok (set_words m' h) (cs1 ++ alloc_split (s + ns) (s + tn) ++ (s2, b2) :: cs3) ∧
    ∀ w, data base cs w → m' !! w = words h !! w.
Proof using Hok Hne Htn Htn16 geo.
  destruct (decide (tn < ns)); [by apply extend_next_split|apply extend_next_whole; lia].
Qed.
End next.

(** ** Into the previous chunk *)

Section prev.
Context h (c0 : list chunk) (ps s : Z) (s2 : Z) (b2 : bool) (cs3 : list chunk) (tp : Z).
Abbreviation P := (base + span c0).
Abbreviation cs := (c0 ++ (ps, false) :: (s, true) :: (s2, b2) :: cs3).
Context (Hok : heap_ok h cs) (Hne : c0 ≠ []) (Htp : 16 ≤ tp ≤ ps) (Htp16 : tp mod 16 = 0).

Definition take_prev : list chunk :=
  if tp <? ps then [(ps - tp, false); (s + tp, true)] else [(ps + s, true)].

Lemma prev_facts :
  P mod 16 = 8 ∧ base + 8 ≤ P ∧ 16 ≤ s ∧ s mod 16 = 0 ∧ ps mod 16 = 0 ∧ P + ps + s + 8 ≤ lim ∧
  chunk_at base cs P ps false ∧ chunk_at base cs (P + ps) s true ∧ chunk_at base cs (P + ps + s) s2 b2.
Proof using Hok Hne geo.
  destruct (row_facts _ _ _ geo c0 ps false s true s2 b2 cs3) as (? & ? & [_ ?] & [? ?] & ?); [apply Hok|done|].
  by simpl in *.
Qed.

Lemma prev_removed :
  let F' := free_of base c0 ++ free_of (P + ps + s) ((s2, b2) :: cs3) in
  ∃ m1, remove_node P h = Some (tt, set_words m1 h) ∧ hp (set_words m1 h) cs F' ∧
    (P ∉ F'.*1) ∧ (P + ps ∉ F'.*1) ∧ F' ⊆ free_of base cs ∧
    touched (links (sents nl ++ free_of base cs)) (words h) m1.
Proof using Hok Hne geo.
  intros F'. destruct prev_facts as (_ & _ & _ & _ & _ & _ & _ & HatA & _).
  pose proof (ho_hp _ _ _ _ _ Hok) as Hhp.
  assert (free_of base cs ≡ₚ (P, ps) :: F') as HF.
  { unfold F'. rewrite free_of_app. simpl. symmetry. apply Permutation_middle. }
  destruct (hp_remove _ _ _ geo h _ _ _ _ F' Hhp HF) as (m1 & Hrun1 & Hhp1 & Ht1).
  pose proof (hp_list _ _ _ _ _ _ Hhp) as [L Hfl]. pose proof (fl_nodup _ _ _ _ _ _ Hfl) as Hnd.
  pose proof (alloc_notin _ _ _ geo _ _ _ (hp_shape _ _ _ _ _ _ Hhp) HatA) as HAF.
  rewrite HF in Hnd, HAF. csimpl in Hnd. csimpl in HAF.
  apply NoDup_cons in Hnd as [HsF _]. apply not_elem_of_cons in HAF as [_ HAF].
  exists m1. split_and!; [done|done|done|done| |done].
  intros e He. rewrite HF. by right.
Qed.

(** The headers: some or all of the previous chunk is taken. *)
Lemma extend_prev_part m1 F C (k : K mm_heap_s C) :
  hp (set_words m1 h) cs F → tp < ps →
  (q ← get P fsize; put P fsize (u32 (q - tp));;
   put (P + ps - tp) fsize (u32 (s + tp));; q ← get P fsize;
   put (P + ps - tp) fpreceding (Z.lor q MM_ALLOC_BIT);;
   n ← get (P + ps - tp) fsize; set_preceding (P + ps + s) n;; k) (set_words m1 h) =
  k (set_words (split_mem P (ps - tp) (s + tp) true b2 m1) h).
Proof using Hok Hne Htp Htp16 geo.
  intros Hhp1 Hlt. destruct prev_facts as (HA & Hlo & Hs & Hs16 & Hns16 & Hhi & _).
  assert (good (ps - tp, false) ∧ good (s + tp, true)) as [Hgx Hgy].
  { split; split; simpl; Z.div_mod_to_equations; lia. }
  pose proof Hgx as [Hx16 _]. simpl in Hx16.
  destruct (split_range _ _ _ geo _ _ ps false [(s, true)] _ _ _ (ps - tp) (s + tp) true _ Hhp1 Hne Hgx Hgy)
    as (_ & _ & _ & _ & _ & _ & q & Hq & Hp2); [simpl; lia|].
  erewrite K_bind_Some by (by apply (hp_size _ _ _ _ _ _ _ _ _ Hhp1)).
  rewrite !u32_small by (destruct geo; lia). replace (P + ps - tp) with (P + (ps - tp)) by lia.
  destruct (put_ok base lim (set_words m1 h) P fsize (ps - tp)) as [R1 M1];
    [apply Hhp1|unfold offset; lia|Z.div_mod_to_equations; lia|]. rewrite (K_bind_Some _ _ _ _ _ R1).
  destruct (put_ok base lim (set_words _ h) (P + (ps - tp)) fsize (s + tp) M1) as [R2 M2];
    [unfold offset; lia|Z.div_mod_to_equations; lia|]. rewrite (K_bind_Some _ _ _ _ _ R2).
  erewrite K_bind_Some by (apply get_Some; simpl; look). rewrite lor_alloc by (destruct geo; lia).
  destruct (put_ok base lim (set_words _ h) (P + (ps - tp)) fpreceding (prec (ps - tp) true) M2) as [R3 M3];
    [unfold offset; lia|Z.div_mod_to_equations; lia|]. rewrite (K_bind_Some _ _ _ _ _ R3).
  erewrite K_bind_Some by (apply get_Some; simpl; look).
  replace (P + ps + s) with (P + (ps - tp) + (s + tp)) by lia.
  erewrite K_bind_Some; [reflexivity|]. rewrite <- split_mem_alt by lia.
  etrans; [apply (set_preceding_ok _ _ (s + tp) q b2)|done]; [|destruct geo; lia|done]. simpl. look.
Qed.

Lemma extend_prev_whole m1 F :
  hp (set_words m1 h) cs F → (P ∉ F.*1) → P + ps ∉ F.*1 → tp = ps →
  ∃ m2, (n ← get P fsize; put P fsize (u32 (n + s));; q ← get P fpreceding;
         put P fpreceding (Z.lor q MM_ALLOC_BIT);; n ← get P fsize;
         set_preceding (P + ps + s) n) (set_words m1 h) = Some (tt, set_words m2 h) ∧
    hp (set_words m2 h) (c0 ++ (ps + s, true) :: (s2, b2) :: cs3) F ∧
    touched [P + offset fsize; P + offset fpreceding; P + ps + s + offset fpreceding] m1 m2.
Proof using Hok Hne Htp Htp16 geo.
  intros Hhp1 HPF HAF ->. destruct prev_facts as (HA & Hlo & Hs & Hs16 & Hns16 & Hhi & _).
  pose proof (hp_shape _ _ _ _ _ _ Hhp1) as Hsh.
  pose proof (last_size_bound _ _ _ geo _ _ Hsh) as Hls.
  pose proof (hp_layout _ _ _ _ _ _ Hhp1) as Hlay.
  apply layout_app in Hlay as [_ (Hsz & Hpr & _ & _ & _ & Hp2 & _)].
  set (m2 := <[P + ps + s + offset fpreceding := prec (ps + s) b2]>
    (<[P + offset fpreceding := prec (last_size 0 c0) true]> (<[P + offset fsize := ps + s]> m1))).
  assert (touched [P + offset fsize; P + offset fpreceding; P + ps + s + offset fpreceding] m1 m2) as T.
  { apply (touched_insert [_; _]); [|by eexists]. apply (touched_insert [_]); [|by eexists].
    apply (touched_insert []); [apply touched_refl|by eexists]. }
  exists m2. split; [|split; [|done]].
  - erewrite K_bind_Some by (by apply (hp_size _ _ _ _ _ _ _ _ _ Hhp1)).
    rewrite u32_small by (destruct geo; lia).
    erewrite (K_bind_Some (put P fsize _)) by (apply put_Some; by eexists).
    erewrite K_bind_Some by (apply get_Some; simpl; look).
    change (prec (last_size 0 c0) false) with (last_size 0 c0). rewrite lor_alloc by done.
    erewrite (K_bind_Some (put P fpreceding _)) by (apply put_Some; simpl; eexists; look).
    erewrite K_bind_Some by (apply get_Some; simpl; look).
    etrans; [apply (set_preceding_ok _ _ (ps + s) s b2)|done]; [|destruct geo; lia..]. simpl. look.
  - apply (hp_splice _ _ _ geo (set_words m1 h) c0 [(ps, false); (s, true)] s2 b2 cs3 [(ps + s, true)] F m2);
      simpl; [done|done| |lia|by repeat constructor| |split_and!|].
    + constructor; [|done]. split; simpl; [lia|]. Z.div_mod_to_equations. lia.
    + eapply touched_weaken; [exact T|]. intros w. rewrite !elem_of_cons.
      replace (P + (ps + (s + 0))) with (P + ps + s) by lia. tauto.
    + unfold m2. look.
    + unfold m2. look.
    + done.
    + replace (P + (ps + (s + 0))) with (P + ps + s) by lia. apply lookup_insert_eq.
Qed.

Lemma extend_prev_headers :
  ∃ m', (∀ C (k : K mm_heap_s C),
    (remove_node P;;
     (if tp <? ps then
        q ← get P fsize; put P fsize (u32 (q - tp));;
        put (P + ps - tp) fsize (u32 (s + tp));; q ← get P fsize;
        put (P + ps - tp) fpreceding (Z.lor q MM_ALLOC_BIT);;
        n ← get (P + ps - tp) fsize; set_preceding (P + ps + s) n;; mm_addfreechunk nl P
      else
        n ← get (P + ps - tp) fsize; put (P + ps - tp) fsize (u32 (n + s));;
        q ← get (P + ps - tp) fpreceding; put (P + ps - tp) fpreceding (Z.lor q MM_ALLOC_BIT);;
        n ← get (P + ps - tp) fsize; set_preceding (P + ps + s) n);; k) h = k (set_words m' h)) ∧
    heap_ok (set_words m' h) (c0 ++ take_prev ++ (s2, b2) :: cs3) ∧
    dom m' = dom (words h) ∧ ∀ w, data base cs w → m' !! w = words h !! w.
Proof using Hok Hne Htp Htp16 geo.
  destruct prev_facts as (HA & Hlo & Hs & Hs16 & Hps16 & Hhi & HatP & HatA & HatB).
  destruct prev_removed as (m1 & Hrun1 & Hhp1 & HPF & HAF & HFF & Ht1).
  set (F' := free_of base c0 ++ free_of (P + ps + s) ((s2, b2) :: cs3)) in *.
  pose proof (ho_hp _ _ _ _ _ Hok) as Hhp. pose proof (hp_shape _ _ _ _ _ _ Hhp) as Hsh.
  assert (quiet base cs (links (sents nl ++ free_of base cs))) as Q1.
  { apply (quiet_links _ _ _ geo); [done|]. by eapply free_inside. }
  unfold take_prev. destruct (Z.ltb_spec tp ps) as [Hlt|Hge].
  - assert (good (ps - tp, false) ∧ good (s + tp, true)) as [Hgx Hgy].
    { split; split; simpl; Z.div_mod_to_equations; lia. }
    pose proof Hgx as [Hx16 _]. simpl in Hx16.
    destruct (split_hp _ _ _ geo _ _ ps false [(s, true)] _ _ _ (ps - tp) (s + tp) true _ Hhp1 Hne Hgx Hgy)
      as [Hhp2 Ht2]; [simpl; lia|by apply Forall_cons; split; [|apply Forall_singleton]|].
    destruct (hp_add _ _ _ geo _ c0 (ps - tp) false _ F' Hhp2 Hne) as (m3 & Hrun3 & Hhp3 & Ht3); [done|done|].
    pose proof (touched_trans _ _ _ _ _ Ht1 (touched_trans _ _ _ _ _ Ht2 Ht3)) as Ht.
    exists m3. split; [|split; [split|split; [apply Ht|]]].
    + intros C k. rewrite (K_bind_Some _ _ _ _ _ Hrun1). erewrite K_bind_Some; [reflexivity|].
      etrans; [apply (extend_prev_part m1 F' _ (mm_addfreechunk nl P) Hhp1 Hlt)|]. exact Hrun3.
    + eapply hp_perm; [|exact Hhp3]. rewrite free_of_app. simpl.
      replace (P + (ps - tp) + (s + tp)) with (P + ps + s) by lia. unfold F'. apply Permutation_middle.
    + eapply coalesced_flags; [|apply Hok]. by rewrite !fmap_app.
    + intros w Hw. eapply touched_data; [exact Ht| |exact Hw].
      apply quiet_app; [done|]. apply quiet_app.
      * unfold split_words. apply quiet_cons; [|apply quiet_cons; [|apply quiet_cons]].
        1-3: eapply quiet_free; [done|exact HatP|unfold offset; lia].
        replace (P + (ps - tp) + (s + tp)) with (P + ps + s) by lia.
        eapply quiet_hdr; [done|exact HatB|by right].
      * apply (quiet_links _ _ _ geo); [done|]. constructor; [|by eapply free_inside].
        exists P, ps. split; [done|]. simpl. lia.
  - assert (tp = ps) as Heq by lia.
    destruct (extend_prev_whole m1 F' Hhp1 HPF HAF Heq) as (m2 & Hrun2 & Hhp2 & Ht2).
    pose proof (touched_trans _ _ _ _ _ Ht1 Ht2) as Ht.
    exists m2. split; [|split; [split|split; [apply Ht|]]].
    + intros C k. rewrite (K_bind_Some _ _ _ _ _ Hrun1). erewrite K_bind_Some; [reflexivity|].
      replace (P + ps - tp) with P by lia. exact Hrun2.
    + eapply hp_perm; [|exact Hhp2]. rewrite free_of_app. simpl. unfold F'. by rewrite Z.add_assoc.
    + apply (coalesced_take c0 [(ps, false); (s, true)]), Hok.
    + intros w Hw. eapply touched_data; [exact Ht| |exact Hw].
      apply quiet_app; [done|]. apply quiet_cons; [|apply quiet_cons].
      1-2: eapply quiet_free; [done|exact HatP|unfold offset; lia].
      eapply quiet_hdr; [done|exact HatB|by right].
Qed.

(** What is left of the previous chunk. *)
Definition prev_front : list chunk := c0 ++ (if tp <? ps then [(ps - tp, false)] else []).

Lemma prev_front_span : base + span prev_front = P + ps - tp.
Proof using Htp.
  unfold prev_front. rewrite span_app. destruct (Z.ltb_spec tp ps); simpl; lia.
Qed.

Lemma take_prev_front c : c0 ++ take_prev ++ c = prev_front ++ (s + tp, true) :: c.
Proof using Htp.
  unfold take_prev, prev_front. rewrite <- app_assoc. f_equal. destruct (Z.ltb_spec tp ps); [done|].
  simpl. do 2 f_equal. lia.
Qed.

(** The copy reads as many bytes as the chunk has afterwards, [tp] more than it had. *)
Lemma extend_prev_ok :
  (∀ w, lim ≤ w < P + ps + s + tp → w mod 4 = 0 → is_Some (words h !! w)) →
  ∃ m', realloc_extend_prev nl (P + ps + 8) (P + ps) s P (P + ps + s) ps tp h =
          Some ((P + ps - tp, s + tp, P + ps - tp + 8), set_words m' h) ∧
    heap_ok (set_words m' h) (prev_front ++ (s + tp, true) :: (s2, b2) :: cs3) ∧
    (∀ i, 0 ≤ i → 4 * i + 4 ≤ s - 8 → m' !! (P + ps - tp + 8 + 4 * i) = words h !! (P + ps + 8 + 4 * i)) ∧
    (∀ a sz w, chunk_at base cs a sz true → a ≠ P + ps → a + 8 ≤ w < a + sz → m' !! w = words h !! w).
Proof using Hok Hne Htp Htp16 geo.
  intros Hbehind. destruct prev_facts as (HA & Hlo & Hs & Hs16 & Hps16 & Hhi & HatP & HatA & HatB).
  assert (∀ w, base ≤ w < P + ps + s + tp → w mod 4 = 0 → is_Some (words h !! w)) as Hread.
  { intros w Hw Hw4. destruct (decide (w < lim)); [|apply Hbehind; [lia|done]].
    apply (hp_map _ _ _ _ _ _ (ho_hp _ _ _ _ _ Hok)); [lia|done]. }
  destruct extend_prev_headers as (m1 & Hrun1 & Hok1 & Hd1 & Hdata1). rewrite take_prev_front in Hok1.
  pose proof (shape_sizes _ _ _ (hp_shape _ _ _ _ _ _ (ho_hp _ _ _ _ _ Hok))) as Hz.
  set (n := Z.to_nat ((s + tp - 8) / 4)). set (d := P + ps - tp + 8).
  assert (4 * Z.of_nat n = s + tp - 8) as Hn by (unfold n; Z.div_mod_to_equations; lia).
  destruct (memcpy_ok n d (P + ps + 8) (set_words m1 h)) as (m2 & Hrun2 & Ht2 & Hcopy).
  { intros w (i & Hi & ->)%elem_of_cells. simpl. rewrite <- elem_of_dom, Hd1, elem_of_dom.
    apply Hread; unfold d; [lia|]. Z.div_mod_to_equations. lia. }
  { intros w (i & Hi & ->)%elem_of_cells. simpl. rewrite <- elem_of_dom, Hd1, elem_of_dom.
    apply Hread; [lia|]. Z.div_mod_to_equations. lia. }
  { unfold d. lia. }
  exists m2. split; [|split; [|split]].
  - unfold realloc_extend_prev. cbv zeta. rewrite Hrun1.
    pose proof (hp_size _ _ _ _ _ _ _ _ _ (ho_hp _ _ _ _ _ Hok1)) as Hsz. rewrite prev_front_span in Hsz.
    rewrite (K_bind_Some _ _ _ _ _ Hsz). unfold SIZEOF_MM_ALLOCNODE. fold n d.
    by rewrite (K_bind_Some _ _ _ _ _ Hrun2).
  - eapply (heap_ok_data _ _ _ geo (set_words m1 h)); [exact Hok1|exact Ht2|].
    apply Forall_forall. intros w (i & Hi & ->)%elem_of_cells. exists (P + ps - tp), (s + tp).
    split; [by eexists prev_front, _; rewrite prev_front_span|]. unfold d. lia.
  - intros i Hi Hi'. fold d. rewrite (Hcopy i) by lia. simpl. apply Hdata1.
    exists (P + ps), s. split; [done|]. lia.
  - intros a sz w Ha Hne' Hw. destruct Ht2 as [_ Ht2]. rewrite Ht2; [apply Hdata1; by exists a, sz|].
    intros (i & Hi & ->)%elem_of_cells. unfold d in Hw.
    destruct (chunk_order _ _ _ _ _ _ _ _ Hz Ha HatA) as [?|?]; [naive_solver|].
    destruct (chunk_order _ _ _ _ _ _ _ _ Hz Ha HatP) as [?|?]; [naive_solver|]. lia.
Qed.
End prev.

(** ** A block moves *)

(** Allocated chunks stay where they are when a run of other chunks is rewritten. *)
Lemma chunk_splice cs1 old new cs2 a sz :
  span new = span old → chunk_at base (cs1 ++ old ++ cs2) a sz true →
  (∀ s, ¬ chunk_at (base + span cs1) old a s true) → chunk_at base (cs1 ++ new ++ cs2) a sz true.
Proof. intros Hsp Ha Hno. rewrite !chunk_at_app in *. rewrite Hsp. naive_solver. Qed.

Lemma free_no_alloc cs P ps a sz :
  shape cs → chunk_at base cs P ps false → P ≤ a < P + ps → ¬ chunk_at base cs a sz true.
Proof.
  intros Hsh HP Ha Hc. pose proof (chunk_pos _ _ _ geo _ _ _ _ Hsh Hc).
  destruct (chunk_order _ _ _ _ _ _ _ _ (shape_sizes _ _ _ Hsh) HP Hc) as [?|?]; [naive_solver|lia].
Qed.

(** The allocated chunks with their addresses. *)
Fixpoint alloc_of a cs : list node :=
  match cs with
  | [] => []
  | (s, b) :: cs => (if b then [(a, s)] else []) ++ alloc_of (a + s) cs
  end.

Lemma alloc_of_app a cs1 cs2 : alloc_of a (cs1 ++ cs2) = alloc_of a cs1 ++ alloc_of (a + span cs1) cs2.
Proof.
  revert a. induction cs1 as [|[s b] cs1 IH]; intros a; simpl; [by rewrite Z.add_0_r|].
  by rewrite IH, <- app_assoc, Z.add_assoc.
Qed.

Lemma alloc_of_free a cs : Forall (λ c, c.2 = false) cs → alloc_of a cs = [].
Proof.
  intros Hf. revert a. induction Hf as [|[s b] cs Hb _ IH]; intros a; simpl in *; [done|]. by rewrite Hb, IH.
Qed.

Lemma elem_of_alloc_of a0 cs a s : (a, s) ∈ alloc_of a0 cs ↔ chunk_at a0 cs a s true.
Proof.
  revert a0. induction cs as [|[s1 b1] cs IH]; intros a0; simpl.
  - split; [set_solver|]. by intros ([|??] & ? & [=] & _).
  - rewrite elem_of_app, IH. change ((s1, b1) :: cs) with ([(s1, b1)] ++ cs). rewrite chunk_at_app. simpl.
    rewrite Z.add_0_r. assert (chunk_at a0 [(s1, b1)] a s true ↔ (a, s) ∈ (if b1 then [(a0, s1)] else [])) as ->;
      [|done]. split.
    + intros ([|c1 [|??]] & c2 & [=] & ->); subst. simpl. rewrite Z.add_0_r. set_solver.
    + destruct b1; [|set_solver]. intros [= -> ->]%list_elem_of_singleton. exists [], []. simpl. by rewrite Z.add_0_r.
Qed.

(** One allocated chunk takes the place of another. *)
Definition swapped cs cs' (A s A' y : Z) : Prop :=
  ∃ R, alloc_of base cs ≡ₚ (A, s) :: R ∧ alloc_of base cs' ≡ₚ (A', y) :: R.

Lemma swapped_trans cs cs1 cs2 A s A1 y1 A2 y2 :
  swapped cs cs1 A s A1 y1 → swapped cs1 cs2 A1 y1 A2 y2 → swapped cs cs2 A s A2 y2.
Proof.
  intros (R & H1 & H2) (R' & H3 & H4). exists R. split; [done|]. rewrite H4. f_equiv.
  rewrite H2 in H3. by apply Permutation_cons_inv in H3.
Qed.

(** Inside a list only some chunks change. *)
Lemma swapped_at c1 old new c2 A s A' y :
  let P := base + span c1 in
  span new = span old → alloc_of P old = [(A, s)] → alloc_of P new = [(A', y)] →
  swapped (c1 ++ old ++ c2) (c1 ++ new ++ c2) A s A' y.
Proof.
  intros P Hsp Ho Hn. exists (alloc_of base c1 ++ alloc_of (P + span old) c2).
  rewrite !alloc_of_app. fold P. rewrite Ho, Hn, Hsp. simpl. by split; rewrite <- Permutation_middle.
Qed.

(** The allocated chunk of size [s] at [A] is now of size [y] at [A']: what fits of
    its contents came along, all other allocated chunks are as before, and there are
    no more. *)
Definition moved cs cs' m m' (A s A' y : Z) : Prop :=
  chunk_at base cs' A' y true ∧
  (∀ i, 0 ≤ i → 4 * i + 4 ≤ s - 8 → 4 * i + 4 ≤ y - 8 → m' !! (A' + 8 + 4 * i) = m !! (A + 8 + 4 * i)) ∧
  (∀ a sz, chunk_at base cs a sz true → a ≠ A → a ≠ A' ∧ chunk_at base cs' a sz true ∧
     ∀ w, a + 8 ≤ w < a + sz → m' !! w = m !! w) ∧
  swapped cs cs' A s A' y.

Lemma moved_trans cs cs1 cs2 m m1 m2 A s A1 y1 A2 y2 :
  s ≤ y1 → moved cs cs1 m m1 A s A1 y1 → moved cs1 cs2 m1 m2 A1 y1 A2 y2 →
  moved cs cs2 m m2 A s A2 y2.
Proof.
  intros Hle (Hc1 & Hi1 & Ho1 & Hs1) (Hc2 & Hi2 & Ho2 & Hs2).
  split; [done|]. split; [|split; [|by eapply swapped_trans]].
  - intros i H0 Hs Hy. rewrite Hi2, Hi1 by lia. done.
  - intros a sz Ha HaA. destruct (Ho1 a sz Ha HaA) as (HaA1 & Ha1 & Hw1).
    destruct (Ho2 a sz Ha1 HaA1) as (? & Ha2 & Hw2). split; [done|]. split; [done|].
    intros w Hw. by rewrite Hw2, Hw1.
Qed.

(** A chunk resized in place. *)
Lemma moved_in_place cs1 old new cs2 m m' s y :
  let A := base + span cs1 in let cs := cs1 ++ old ++ cs2 in let cs' := cs1 ++ new ++ cs2 in
  span new = span old → chunk_at base cs A s true → chunk_at base cs' A y true →
  alloc_of A old = [(A, s)] → alloc_of A new = [(A, y)] →
  (∀ w, data base cs w → data base cs' w → m' !! w = m !! w) → moved cs cs' m m' A s A y.
Proof.
  intros A cs cs' Hsp HA HA' Hold Hnew Hw. split; [done|]. split; [|split; [|by apply swapped_at]].
  - intros i H0 Hs Hy. apply Hw; eexists A, _; (split; [done|lia]).
  - intros a sz Ha Hne. split; [done|].
    assert (chunk_at base cs' a sz true) as Ha'.
    { eapply chunk_splice; [done|exact Ha|]. intros s' Hs'%elem_of_alloc_of. fold A in Hs'. rewrite Hold in Hs'.
      apply list_elem_of_singleton in Hs'. congruence. }
    split; [done|]. intros w Hr. apply Hw; by exists a, sz.
Qed.

(** How much to take from each side. *)
Lemma realloc_take_ok ns ps nd :
  0 ≤ ns < 2147483648 → 0 ≤ ps < 2147483648 → ns mod 16 = 0 → ps mod 16 = 0 →
  0 < nd ≤ ns + ps → nd mod 16 = 0 →
  let '(tp, tn) := realloc_take ns ps nd in
  0 ≤ tp ≤ ps ∧ 0 ≤ tn ≤ ns ∧ tp + tn = nd ∧ tp mod 16 = 0 ∧ tn mod 16 = 0.
Proof.
  intros Hns Hps Hns16 Hps16 Hnd Hnd16. unfold realloc_take.
  destruct (Z.ltb_spec 0 ps), (Z.leb_spec ps ns), (Z.ltb_spec ns 1), (Z.ltb_spec ps nd); simpl;
    destruct (Z.ltb_spec 0 ns), (Z.eqb_spec nd 0); simpl; try lia; destruct (Z.ltb_spec ns nd);
    rewrite ?u32_small by lia; split_and!; try done; try lia; Z.div_mod_to_equations; lia.
Qed.

Lemma moved_refl cs m cs1 s cs2 :
  cs = cs1 ++ (s, true) :: cs2 → moved cs cs m m (base + span cs1) s (base + span cs1) s.
Proof.
  intros ->. split; [by exists cs1, cs2|]. do 2 (split; [done|]).
  apply (swapped_at cs1 [(s, true)] [(s, true)]); done.
Qed.

(** The size of the free chunk at the end of [cs]. *)
Definition free_last cs : Z := match last cs with Some (s, false) => s | _ => 0 end.

(** Memory behind the heap can be read up to [e]. *)
Definition readable (e : Z) m : Prop := ∀ w, lim ≤ w < e → w mod 4 = 0 → is_Some (m !! w).

Lemma readable_le e e' m : e ≤ e' → readable e' m → readable e m.
Proof. intros He Hr w Hw. apply Hr. lia. Qed.

Lemma grow_prev h cs1 s c2 cs3 c0 psz pb tp :
  let A := base + span cs1 in let cs := cs1 ++ (s, true) :: c2 :: cs3 in
  heap_ok h cs → cs1 = c0 ++ [(psz, pb)] → readable (A + s + tp) (words h) →
  0 ≤ tp ≤ (if pb then 0 else psz) → tp mod 16 = 0 →
  ∃ m' front, (if negb (tp =? 0)
     then realloc_extend_prev nl (A + 8) A s (A - psz) (A + s) (if pb then 0 else psz) tp
     else mret (A, s, A + 8)) h = Some ((A - tp, s + tp, A - tp + 8), set_words m' h) ∧
    front ≠ [] ∧ base + span front = A - tp ∧
    heap_ok (set_words m' h) (front ++ (s + tp, true) :: c2 :: cs3) ∧
    moved cs (front ++ (s + tp, true) :: c2 :: cs3) (words h) m' A s (A - tp) (s + tp).
Proof.
  intros A cs Hok Hcs1 Hread Htp Htp16. destruct (Z.eqb_spec tp 0) as [->|Htp0]; cbn [negb].
  { exists (words h), cs1. rewrite Z.sub_0_r, Z.add_0_r. split; [by destruct h|]. split; [by subst cs1; destruct c0|].
    split; [done|]. split; [by destruct h|]. by eapply moved_refl. }
  destruct pb; [lia|]. destruct c2 as [s2 b2].
  assert (heap_ok h (c0 ++ (psz, false) :: (s, true) :: (s2, b2) :: cs3)) as Hok'.
  { unfold cs in Hok. by rewrite Hcs1, <- app_assoc in Hok. }
  assert (c0 ≠ []) as Hne.
  { by destruct (shape_free _ _ _ geo _ _ _ (hp_shape _ _ _ _ _ _ (ho_hp _ _ _ _ _ Hok'))). }
  assert (16 ≤ tp) as Htp1 by (Z.div_mod_to_equations; lia).
  assert (A = base + span c0 + psz) as HA by (unfold A; rewrite Hcs1, span_app; simpl; lia).
  destruct (prev_facts h c0 psz s s2 b2 cs3 Hok' Hne) as (HP & Hlo & Hs & _ & _ & Hhi & HatP & HatA & _).
  destruct (extend_prev_ok h c0 psz s s2 b2 cs3 tp Hok' Hne) as (m' & Hrun & Hok2 & Hcont & Hoth); [lia|done| |].
  { intros w Hw Hw4. apply Hread; [lia|done]. }
  rewrite <- HA in Hrun, Hcont, Hoth, HatA, Hhi.
  assert (cs = c0 ++ (psz, false) :: (s, true) :: (s2, b2) :: cs3) as Hcs.
  { unfold cs. by rewrite Hcs1, <- app_assoc. }
  pose proof (prev_front_span c0 psz tp ltac:(lia)) as Hfs. rewrite <- HA in Hfs.
  exists m', (prev_front c0 psz tp). split; [|split; [|split; [|split]]].
  - replace (A - psz) with (base + span c0) by lia. exact Hrun.
  - unfold prev_front. by destruct c0.
  - done.
  - done.
  - split; [by exists (prev_front c0 psz tp), ((s2, b2) :: cs3)|]. split; [|split].
    + intros i H0 Hi _. by apply Hcont.
    + intros a sz Ha HaA. rewrite Hcs in Ha.
      pose proof (hp_shape _ _ _ _ _ _ (ho_hp _ _ _ _ _ Hok')) as Hsh.
      split; [intros ->; eapply (free_no_alloc _ _ _ _ _ Hsh HatP); [|exact Ha]; lia|].
      split; [|intros w Hw; by eapply Hoth].
      rewrite <- (take_prev_front c0 psz s tp) by lia.
      apply (chunk_splice c0 [(psz, false); (s, true)]); [|done|].
      * unfold take_prev. destruct (Z.ltb_spec tp psz); simpl; lia.
      * intros s' ([|c d1] & d2 & Heq & Hadd); [done|]. destruct d1 as [|c' d1]; [|by destruct d1].
        injection Heq as <- <- _. simpl in Hadd. lia.
    + rewrite Hcs, <- (take_prev_front c0 psz s tp) by lia.
      apply (swapped_at c0 [(psz, false); (s, true)]); unfold take_prev; destruct (Z.ltb_spec tp psz); simpl.
      all: first [lia|f_equal; apply pair_equal_spec; lia].
Qed.

Lemma grow_next h front s ns nb cs3 tn :
  let A := base + span front in let cs := front ++ (s, true) :: (ns, nb) :: cs3 in
  heap_ok h cs → front ≠ [] → 0 ≤ tn ≤ (if nb then 0 else ns) → tn mod 16 = 0 →
  ∃ m' cs', kwhen (negb (tn =? 0)) (realloc_extend_next nl A s (A + s) (if nb then 0 else ns) tn) h =
      Some (tt, set_words m' h) ∧
    heap_ok (set_words m' h) cs' ∧ moved cs cs' (words h) m' A s A (s + tn).
Proof.
  intros A cs Hok Hne Htn Htn16. destruct (Z.eqb_spec tn 0) as [->|Htn0]; cbn [negb kwhen].
  { exists (words h), cs. rewrite Z.add_0_r. split; [by destruct h|]. split; [by destruct h|].
    by eapply moved_refl. }
  destruct nb; [lia|]. assert (16 ≤ tn) as Htn1 by (Z.div_mod_to_equations; lia).
  pose proof (hp_shape _ _ _ _ _ _ (ho_hp _ _ _ _ _ Hok)) as Hsh.
  assert (cs3 ≠ []) as Hne3.
  { assert (shape ((front ++ [(s, true)]) ++ (ns, false) :: cs3)) as Hsh2 by (by rewrite <- app_assoc).
    by destruct (shape_free _ _ _ geo _ _ _ Hsh2). }
  destruct cs3 as [|[s2 b2] cs3]; [done|].
  destruct (next_facts _ _ _ geo h front s ns s2 b2 cs3 Hok Hne) as (_ & _ & Hs & Hs16 & Hns16 & _ & HatA & _).
  destruct (extend_next_ok h front s ns s2 b2 cs3 tn Hok Hne) as (m' & Hrun & Hok2 & Hd); [lia|done|].
  exists m', (front ++ alloc_split (s + ns) (s + tn) ++ (s2, b2) :: cs3).
  split; [done|]. split; [done|].
  apply (moved_in_place front [(s, true); (ns, false)]); [|exact HatA| | | |].
  - unfold alloc_split. destruct (16 <=? s + ns - (s + tn)); simpl; lia.
  - unfold alloc_split. destruct (Z.leb_spec 16 (s + ns - (s + tn))).
    + by eexists front, _.
    + assert (tn = ns) as -> by (Z.div_mod_to_equations; lia). by eexists front, _.
  - done.
  - unfold alloc_split. destruct (Z.leb_spec 16 (s + ns - (s + tn))); [done|].
    assert (tn = ns) as -> by (Z.div_mod_to_equations; lia). done.
  - intros w Hw _. by apply Hd.
Qed.

(** ** A new chunk *)

Lemma not_guard cs a s b : shape cs → chunk_at base cs a s b → 16 ≤ s → base < a ∧ a + s ≤ lim - 8.
Proof.
  intros Hsh (c1 & c2 & -> & ->) Hs. assert (c1 ≠ []) as Hne.
  { intros ->. destruct Hsh as (inner & Heq & _). injection Heq as -> _. lia. }
  destruct (shape_at _ _ _ geo _ _ _ _ Hsh Hne) as (_ & ? & _ & _ & He & Hin).
  destruct (decide (c2 = [])) as [->|Hne2]; [destruct (He eq_refl); lia|].
  destruct (Hin Hne2). lia.
Qed.

(** [mm_free] keeps the other allocated chunks. *)
Lemma freed_keeps q1 p1 s n1 q2 a sz :
  Forall (λ c, c.2 = false) (p1 ++ n1) →
  chunk_at base ((q1 ++ p1) ++ (s, true) :: n1 ++ q2) a sz true → a ≠ base + span (q1 ++ p1) →
  chunk_at base (freed q1 p1 s n1 q2) a sz true.
Proof.
  intros Hpn Ha Hne. apply Forall_app in Hpn as [Hp Hn].
  apply (chunk_splice q1 (p1 ++ (s, true) :: n1) [(span p1 + s + span n1, false)] q2).
  - rewrite span_app. simpl. lia.
  - by rewrite <- !app_assoc in Ha |- *.
  - intros s' [(c1 & c2 & -> & _)|([|c c1] & c2 & Heq & Hadd)]%chunk_at_app.
    + by apply Forall_app in Hp as [_ [[=] _]%Forall_cons].
    + apply Hne. rewrite span_app. simpl in Hadd. lia.
    + injection Heq as _ ->. by apply Forall_app in Hn as [_ [[=] _]%Forall_cons].
Qed.

(** It takes the chunk off the allocated ones. *)
Lemma freed_alloc q1 p1 s n1 q2 :
  Forall (λ c, c.2 = false) (p1 ++ n1) →
  alloc_of base ((q1 ++ p1) ++ (s, true) :: n1 ++ q2) ≡ₚ
    (base + span (q1 ++ p1), s) :: alloc_of base (freed q1 p1 s n1 q2).
Proof.
  intros [Hp Hn]%Forall_app. unfold freed. rewrite !alloc_of_app. simpl.
  rewrite alloc_of_app, (alloc_of_free _ p1), (alloc_of_free _ n1), app_nil_r by done.
  rewrite <- Permutation_middle, span_app. simpl.
  by replace (base + (span q1 + span p1) + s + span n1) with (base + span q1 + (span p1 + s + span n1)) by lia.
Qed.

(** A new chunk, of size [y] behind [c1]; the chunk before it is allocated. *)
Lemma malloc_new h cs size :
  heap_ok h cs → 1 ≤ size ≤ 4294967272 →
  (Forall (λ e, e.2 < chunk_size size) (free_of base cs) ∧ mm_malloc nl size h = Some (0, h)) ∨
  ∃ c1 y c2 m', let N := base + span c1 in let cs' := c1 ++ (y, true) :: c2 in
    mm_malloc nl size h = Some (N + 8, set_words m' h) ∧ N + 8 ≠ 0 ∧
    heap_ok (set_words m' h) cs' ∧ c1 ≠ [] ∧ c2 ≠ [] ∧ meet (last c1) (Some (y, false)) ∧
    y = chunk_size size ∧ alloc_of base cs' ≡ₚ (N, y) :: alloc_of base cs ∧
    (∀ a sz, chunk_at base cs a sz true → a ≠ N ∧ chunk_at base cs' a sz true) ∧
    ∀ w, data base cs w → m' !! w = words h !! w.
Proof.
  intros Hok Hs. destruct (malloc_ok _ _ _ geo h cs size Hok Hs) as [?|Hres]; [by left|right].
  destruct Hres as (cs1 & s & cs2 & m' & -> & Hle & _ & Hrun & Hok' & Hd).
  pose proof (hp_shape _ _ _ _ _ _ (ho_hp _ _ _ _ _ Hok)) as Hsh.
  destruct (shape_free _ _ _ geo _ _ _ Hsh) as [Hne1 Hne2].
  destruct (shape_at _ _ _ geo _ _ _ _ Hsh Hne1) as (_ & Hlo & _ & H8 & _ & Hin).
  destruct (Hin Hne2) as [[_ Hs16] _]. simpl in Hs16. destruct (chunk_size_ok size Hs) as (_ & _ & Ha16 & _).
  pose proof (ho_coalesced _ _ _ _ _ Hok) as Hco. apply coalesced_app in Hco as (_ & _ & Hm).
  assert (∃ tl, alloc_split s (chunk_size size) = (chunk_size size, true) :: tl ∧ Forall (λ c, c.2 = false) tl)
    as (tl & Hsp & Htl).
  { unfold alloc_split. destruct (Z.leb_spec 16 (s - chunk_size size)) as [?|?].
    - exists [(s - chunk_size size, false)]. split; [done|]. by apply Forall_singleton.
    - exists []. split; [|done]. do 2 f_equal. Z.div_mod_to_equations. lia. }
  assert (span (alloc_split s (chunk_size size)) = s) as Hspan.
  { unfold alloc_split. destruct (16 <=? s - chunk_size size); simpl; lia. }
  rewrite Hsp in Hok', Hspan. set (y := chunk_size size) in *. exists cs1, y, (tl ++ cs2), m'. cbv zeta.
  split; [done|]. split; [destruct geo; lia|]. split; [done|]. split; [done|].
  split; [by destruct tl|]. split; [exact Hm|]. split; [done|]. split; [|split; [|done]].
  { rewrite !alloc_of_app. simpl. rewrite alloc_of_app, (alloc_of_free _ tl) by done.
    rewrite <- Permutation_middle. simpl in Hspan |- *. by replace (base + span cs1 + y + span tl)
      with (base + span cs1 + s) by lia. }
  intros a sz Ha. split.
  - intros ->. eapply (free_no_alloc _ (base + span cs1) s); [done|by eexists cs1, _| |exact Ha]. lia.
  - apply (chunk_splice cs1 [(s, false)] ((y, true) :: tl)); [simpl in *; lia|done|].
    intros s' ([|c d1] & d2 & Heq & _); [done|]. by destruct d1.
Qed.

(** The contents of a block, copied to a larger one: the heap stays, and so do other blocks. *)
Lemma copy_block h cs A s N y :
  heap_ok h cs → chunk_at base cs A s true → chunk_at base cs N y true → A ≠ N →
  A mod 16 = 8 → s mod 16 = 0 → 16 ≤ s → s + 16 ≤ y →
  ∃ m', memcpy (Z.to_nat (s / 4)) (N + 8) (A + 8) h = Some (tt, set_words m' h) ∧
    heap_ok (set_words m' h) cs ∧
    (∀ i, 0 ≤ i → 4 * i + 4 ≤ s → m' !! (N + 8 + 4 * i) = words h !! (A + 8 + 4 * i)) ∧
    ∀ a sz w, chunk_at base cs a sz true → a ≠ N → a + 8 ≤ w < a + sz → m' !! w = words h !! w.
Proof.
  intros Hok HatA HatN HAN HA16 Hs16 Hs Hgap.
  pose proof (hp_shape _ _ _ _ _ _ (ho_hp _ _ _ _ _ Hok)) as Hsh. pose proof (shape_sizes _ _ _ Hsh) as Hz.
  pose proof (chunk_order _ _ _ _ _ _ _ _ Hz HatA HatN) as Hord.
  destruct (not_guard _ _ _ _ Hsh HatN) as [HNlo HNhi]; [lia|].
  destruct (not_guard _ _ _ _ Hsh HatA) as [HAlo HAhi]; [lia|].
  assert (N mod 16 = 8) as HN16 by (destruct (shape_hdr _ _ _ geo _ _ _ _ Hsh HatN) as [?|?]; lia).
  set (n := Z.to_nat (s / 4)). assert (4 * Z.of_nat n = s) as Hn by (unfold n; Z.div_mod_to_equations; lia).
  destruct (memcpy_ok n (N + 8) (A + 8) h) as (m2 & Hrun2 & Ht2 & Hcopy).
  1-2: intros w (i & Hi & ->)%elem_of_cells; apply (hp_map _ _ _ _ _ _ (ho_hp _ _ _ _ _ Hok)); [lia|];
    Z.div_mod_to_equations; lia.
  { destruct Hord as [?|?]; [naive_solver|lia]. }
  exists m2. split; [done|]. split; [|split].
  - eapply (heap_ok_data _ _ _ geo h); [exact Hok|exact Ht2|].
    apply Forall_forall. intros w (i & Hi & ->)%elem_of_cells. exists N, y. split; [done|lia].
  - intros i H0 Hi. apply Hcopy. lia.
  - intros a sz w Ha HaN Hw. destruct Ht2 as [_ Ht2]. apply Ht2. intros (i & Hi & ->)%elem_of_cells.
    destruct (chunk_order _ _ _ _ _ _ _ _ Hz Ha HatN) as [?|?]; [naive_solver|lia].
Qed.

Lemma move_ok h cs1 s cs2 size :
  let A := base + span cs1 in let cs := cs1 ++ (s, true) :: cs2 in
  heap_ok h cs → cs1 ≠ [] → cs2 ≠ [] → 1 ≤ size ≤ 4294967272 → s < chunk_size size →
  let run := (p ← mm_malloc nl size;
              kwhen (negb (p =? 0)) (memcpy (Z.to_nat (s / 4)) p (A + 8);; mm_free nl (A + 8));; mret p) h in
  (Forall (λ e, e.2 < chunk_size size) (free_of base cs) ∧ run = Some (0, h)) ∨
  ∃ A' y cs' m', run = Some (A' + 8, set_words m' h) ∧ A' + 8 ≠ 0 ∧ heap_ok (set_words m' h) cs' ∧
    y = chunk_size size ∧ moved cs cs' (words h) m' A s A' y.
Proof.
  intros A cs Hok Hne1 Hne2 Hsize Hlt run.
  pose proof (hp_shape _ _ _ _ _ _ (ho_hp _ _ _ _ _ Hok)) as Hsh.
  destruct (shape_at _ _ _ geo _ _ _ _ Hsh Hne1) as (HA & Hlo & _ & _ & _ & Hin).
  destruct (Hin Hne2) as [[Hs Hs16] Hhi]. simpl in Hs, Hs16. fold A in HA, Hlo, Hhi.
  destruct (chunk_size_ok size Hsize) as (_ & _ & Hasz16 & _).
  destruct (malloc_new h cs size Hok Hsize) as [[Hall Hrun]|Hres]; [left; split; [done|]|right].
  { unfold run. by rewrite (K_bind_Some _ _ _ _ _ Hrun). }
  destruct Hres as (f1 & y & f2 & m1 & Hrun1 & HN0 & Hok1 & _ & _ & _ & Hy & Hal & Hkeep & Hd1).
  set (cs' := f1 ++ (y, true) :: f2) in *. set (N := base + span f1) in *.
  assert (chunk_at base cs' N y true) as HatN by (by exists f1, f2).
  assert (chunk_at base cs A s true) as HatA by (by exists cs1, cs2).
  destruct (Hkeep A s HatA) as [HAN HatA1]. pose proof (hp_shape _ _ _ _ _ _ (ho_hp _ _ _ _ _ Hok1)) as Hsh1.
  assert (s + 16 ≤ y) as Hgap by (Z.div_mod_to_equations; lia).
  destruct (copy_block _ _ _ _ _ _ Hok1 HatA1 HatN) as (m2 & Hrun2 & Hok2 & Hcopy & Ht2); [done..|].
  destruct HatA1 as (e1 & e2 & Hcs' & HAe). rewrite Hcs' in Hok2, Hsh1, HatN, Hkeep, Hal.
  assert (e1 ≠ []) as Hne3 by (intros ->; simpl in HAe; lia).
  assert (e2 ≠ []) as Hne4.
  { intros ->. destruct (shape_at _ _ _ geo _ _ _ _ Hsh1 Hne3) as (_ & _ & _ & _ & He & _).
    destruct (He eq_refl) as (_ & _ & ?). lia. }
  destruct (free_ok _ _ _ geo _ e1 s e2 Hok2 Hne3 Hne4)
    as (q1 & p1 & n1 & q2 & m3 & -> & -> & Hpn & Hrun3 & Hok3 & Hd3). rewrite <- HAe in Hrun3.
  assert (∀ a sz, chunk_at base ((q1 ++ p1) ++ (s, true) :: n1 ++ q2) a sz true → a ≠ A →
    chunk_at base (freed q1 p1 s n1 q2) a sz true) as Hkeep2.
  { intros a sz Ha HaA. apply freed_keeps; [done|done|]. by rewrite <- HAe. }
  pose proof (Hkeep2 N y HatN (not_eq_sym HAN)) as HatN3.
  exists N, y, (freed q1 p1 s n1 q2), m3. split; [|split; [done|split; [done|split; [done|]]]].
  - unfold run. rewrite (K_bind_Some _ _ _ _ _ Hrun1). rewrite (proj2 (Z.eqb_neq _ _) HN0). cbn [negb kwhen].
    erewrite (K_bind_Some _ _ _ tt (set_words m3 h)); [done|].
    rewrite (K_bind_Some _ _ _ _ _ Hrun2). exact Hrun3.
  - split; [done|]. split; [|split].
    + intros i H0 Hi _. rewrite Hd3 by (exists N, y; split; [done|lia]). simpl. rewrite Hcopy by lia. simpl.
      apply Hd1. exists A, s. split; [done|lia].
    + intros a sz Ha HaA. destruct (Hkeep a sz Ha) as [HaN Ha1]. split; [done|].
      pose proof (Hkeep2 a sz Ha1 HaA) as Ha3. split; [done|]. intros w Hw.
      rewrite Hd3 by (by exists a, sz). simpl. rewrite (Ht2 a sz) by (by rewrite ?Hcs'). apply Hd1. by exists a, sz.
    + rewrite (freed_alloc q1 p1 s n1 q2 Hpn), <- HAe in Hal.
      exists (alloc_of base cs1 ++ alloc_of (A + s) cs2).
      assert (alloc_of base cs ≡ₚ (A, s) :: alloc_of base cs1 ++ alloc_of (A + s) cs2) as Hcs.
      { unfold cs. rewrite alloc_of_app. simpl. fold A. by rewrite <- Permutation_middle. }
      split; [done|]. rewrite Hcs in Hal. apply (Permutation_cons_inv (a := (A, s))). rewrite Hal. constructor.
Qed.

(** ** mm_realloc *)

(** The sizes of free neighbours. *)
Lemma free_size cs1 s b cs2 :
  shape (cs1 ++ (s, b) :: cs2) →
  let z := if b then 0 else s in 0 ≤ z < 2147483648 ∧ z mod 16 = 0.
Proof.
  intros Hsh. destruct b; [done|]. simpl.
  pose proof (chunk_pos _ _ _ geo _ (base + span cs1) s false Hsh ltac:(by eexists cs1, _)).
  destruct (shape_free _ _ _ geo _ _ _ Hsh) as [Hc1 Hc2].
  destruct (shape_at _ _ _ geo _ _ _ _ Hsh Hc1) as (_ & _ & _ & _ & _ & Hg).
  destruct (Hg Hc2) as [[? ?] _]. simpl in *. lia.
Qed.

(** The chunk is large enough: it stays, and gives back what it does not need. *)
Lemma realloc_in_place h cs1 s cs2 asz :
  let A := base + span cs1 in let cs := cs1 ++ (s, true) :: cs2 in
  heap_ok h cs → cs1 ≠ [] → cs2 ≠ [] → 16 ≤ asz ≤ s → asz mod 16 = 0 →
  ∃ y cs' m', kwhen (asz <? s) (mm_shrinkchunk nl A asz) h = Some (tt, set_words m' h) ∧
    heap_ok (set_words m' h) cs' ∧ y = asz ∧ moved cs cs' (words h) m' A s A y.
Proof.
  intros A cs Hok Hne1 Hne2 Ha Ha16. assert (chunk_at base cs A s true) as HatA by (by exists cs1, cs2).
  destruct (Z.ltb_spec asz s) as [Hlt|Hge]; cbn [kwhen].
  - destruct (shrink_ok _ _ _ geo h cs1 s asz cs2 Hok Hne1 Hne2) as (n1 & q2 & m' & -> & Hn1 & Hrun & Hok' & Hd);
      [lia|done|].
    exists asz, (shrunk cs1 s asz n1 q2), m'. split; [done|]. split; [done|]. split; [done|].
    apply (moved_in_place cs1 ((s, true) :: n1) [(asz, true); (s + span n1 - asz, false)] q2);
      [simpl; lia|done|by eexists cs1, _|simpl; by rewrite alloc_of_free|done|intros w _ Hw; by apply Hd].
  - exists s, cs, (words h). split; [by destruct h|]. split; [by destruct h|].
    split; [lia|]. by eapply moved_refl.
Qed.

Section grow.
Context h (c0 : list chunk) (psz : Z) (pb : bool) (s ns : Z) (nb : bool) (cs3 : list chunk).
Abbreviation cs1 := (c0 ++ [(psz, pb)]).
Abbreviation A := (base + span cs1).
Abbreviation cs := (cs1 ++ (s, true) :: (ns, nb) :: cs3).
Abbreviation nsz := (if nb then 0 else ns).
Abbreviation pz := (if pb then 0 else psz).
Context (Hok : heap_ok h cs).

(** How much the neighbours have. *)
Lemma neighbour_sizes :
  (0 ≤ nsz < 2147483648 ∧ nsz mod 16 = 0) ∧ (0 ≤ pz < 2147483648 ∧ pz mod 16 = 0) ∧
  0 ≤ psz < 2147483648 ∧ nsz + pz + s ≤ lim - base ∧ base ≤ A - pz.
Proof using Hok geo.
  pose proof (hp_shape _ _ _ _ _ _ (ho_hp _ _ _ _ _ Hok)) as Hsh.
  assert (shape ((cs1 ++ [(s, true)]) ++ (ns, nb) :: cs3)) as HshN by (by rewrite <- (app_assoc _ [(s, true)])).
  rewrite <- app_assoc in Hsh. split; [by apply (free_size _ _ _ _ HshN)|].
  split; [by apply (free_size _ _ _ _ Hsh)|].
  pose proof (chunk_pos _ _ _ geo _ (base + span c0) psz pb Hsh ltac:(by eexists c0, _)).
  pose proof (shape_sizes _ _ _ Hsh) as Hz. destruct Hsh as (inner & _ & _ & Hsp).
  rewrite !span_app in *. simpl in Hsp |- *.
  apply Forall_app in Hz as [Hz0 [_ [_ [Hns8 Hz3]%Forall_cons]%Forall_cons]%Forall_cons]. simpl in Hns8.
  pose proof (span_nonneg _ Hz0). pose proof (span_nonneg _ Hz3). split; [lia|]. destruct nb, pb; lia.
Qed.

(** What [mm_realloc] reads of them. *)
Lemma neighbour_reads C (k : Z → Z → Z → K mm_heap_s C) :
  (free ← is_free (A + s); nextsize ← (if (free : bool) then get (A + s) fsize else mret 0);
   p ← get A fpreceding;
   free ← is_free (A - Z.land p (Z.lnot MM_ALLOC_BIT));
   prevsize ← (if (free : bool) then get (A - Z.land p (Z.lnot MM_ALLOC_BIT)) fsize else mret 0);
   k nextsize p prevsize) h = k nsz (prec psz true) pz h.
Proof using Hok geo.
  pose proof (ho_hp _ _ _ _ _ Hok) as Hhp. destruct neighbour_sizes as (_ & _ & Hpsz & _).
  rewrite (K_bind_Some _ _ _ _ _ (hp_next_free _ _ _ geo _ _ _ _ _ _ _ _ Hhp)).
  pose proof (hp_next_size _ _ _ _ _ _ _ _ _ _ _ Hhp) as HsN.
  pose proof (hp_prec _ _ _ _ _ _ _ _ _ Hhp) as Hpre.
  rewrite last_size_app in Hpre. change (last_size _ [(psz, pb)]) with psz in Hpre.
  rewrite (K_bind_Some _ _ _ nsz h) by (by destruct nb). rewrite (K_bind_Some _ _ _ _ _ Hpre).
  rewrite clear_prec by done. replace (A - psz) with (base + span c0) by (rewrite span_app; simpl; lia).
  set (F := free_of base cs) in Hhp. rewrite <- app_assoc in Hhp.
  rewrite (K_bind_Some _ _ _ _ _ (hp_is_free _ _ _ geo _ _ _ _ _ _ Hhp)).
  pose proof (hp_size _ _ _ _ _ _ _ _ _ Hhp) as HsP.
  by rewrite (K_bind_Some _ _ _ pz h) by (by destruct pb).
Qed.

(** The chunk grows into them. *)
Lemma realloc_grows asz tp tn :
  readable (A + s + pz) (words h) → realloc_take nsz pz (asz - s) = (tp, tn) →
  s < asz ≤ nsz + pz + s → s mod 16 = 0 → asz mod 16 = 0 →
  ∃ cs' m',
    ('(oldnode, oldsize, newmem) ←
       (if negb (tp =? 0) then realloc_extend_prev nl (A + 8) A s (A - psz) (A + s) pz tp
        else mret (A, s, A + 8));
     kwhen (negb (tn =? 0)) (realloc_extend_next nl oldnode oldsize (A + s) nsz tn);; mret newmem) h =
      Some (A - tp + 8, set_words m' h) ∧ A - tp + 8 ≠ 0 ∧
    heap_ok (set_words m' h) cs' ∧ s + tp + tn = asz ∧ moved cs cs' (words h) m' A s (A - tp) (s + tp + tn).
Proof using Hok geo.
  intros Hread Htake Hasz Hs16 Ha16. destruct neighbour_sizes as ([HbN H16N] & [HbP H16P] & _ & _ & HlowP).
  pose proof (realloc_take_ok nsz pz (asz - s) HbN HbP H16N H16P ltac:(lia)) as Htk. rewrite Htake in Htk.
  destruct Htk as (Htp & Htn & Hsum & Htp16 & Htn16); [Z.div_mod_to_equations; lia|].
  assert (readable (A + s + tp) (words h)) as Hread' by (eapply readable_le; [|exact Hread]; lia).
  destruct (grow_prev h cs1 s (ns, nb) cs3 c0 psz pb tp Hok eq_refl Hread' Htp Htp16)
    as (m1 & front & Hrun1 & Hnef & Hfs & Hok1 & Hmv1).
  destruct (grow_next (set_words m1 h) front (s + tp) ns nb cs3 tn Hok1 Hnef Htn Htn16)
    as (m2 & cs' & Hrun2 & Hok2 & Hmv2). rewrite Hfs in Hrun2, Hmv2.
  exists cs', m2. split; [|split; [destruct geo; lia|split; [done|split; [lia|]]]].
  - rewrite (K_bind_Some _ _ _ _ _ Hrun1). cbv beta iota.
    replace (A - tp + (s + tp)) with (A + s) in Hrun2 by lia. by rewrite (K_bind_Some _ _ _ _ _ Hrun2).
  - eapply moved_trans; [|exact Hmv1|exact Hmv2]. lia.
Qed.
End grow.

Lemma realloc_ok h cs1 s cs2 size :
  let A := base + span cs1 in let cs := cs1 ++ (s, true) :: cs2 in
  heap_ok h cs → cs1 ≠ [] → cs2 ≠ [] → readable (A + s + free_last cs1) (words h) →
  1 ≤ size ≤ 4294967272 →
  (Forall (λ e, e.2 < chunk_size size) (free_of base cs) ∧ mm_realloc nl (A + 8) size h = Some (0, h)) ∨
  ∃ A' y cs' m', mm_realloc nl (A + 8) size h = Some (A' + 8, set_words m' h) ∧ A' + 8 ≠ 0 ∧
    heap_ok (set_words m' h) cs' ∧ y = chunk_size size ∧ moved cs cs' (words h) m' A s A' y.
Proof.
  intros A cs Hok Hne1 Hne2 Hread Hsize. pose proof (ho_hp _ _ _ _ _ Hok) as Hhp.
  destruct (shape_at _ _ _ geo _ _ _ _ (hp_shape _ _ _ _ _ _ Hhp) Hne1) as (_ & Hlo & _ & _ & _ & Hin).
  destruct (Hin Hne2) as [[Hs Hs16] Hhi]. simpl in Hs, Hs16. fold A in Hlo, Hhi.
  destruct (chunk_size_ok size Hsize) as (Hal & Ha & Ha16 & Hr). set (asz := chunk_size size) in *.
  assert (0 < A) as HA0 by (destruct geo; lia).
  unfold mm_realloc. rewrite (proj2 (Z.eqb_neq (A + 8) 0)), (proj2 (Z.ltb_ge size 1)) by lia.
  rewrite Hal. cbv zeta. replace (A + 8 - SIZEOF_MM_ALLOCNODE) with A by (unfold SIZEOF_MM_ALLOCNODE; lia).
  erewrite K_bind_Some by (by apply (hp_size _ _ _ _ _ _ _ _ _ Hhp)).
  destruct (Z.leb_spec asz s) as [Hle|Hgt]; [right|].
  { destruct (realloc_in_place h cs1 s cs2 asz Hok Hne1 Hne2) as (y & cs' & m' & Hrun & Hres); [lia|done|].
    exists A, y, cs', m'. rewrite (K_bind_Some _ _ _ _ _ Hrun). split; [done|]. by split; [lia|]. }
  destruct cs2 as [|[ns nb] cs3]; [done|].
  destruct cs1 as [|[psz pb] c0 _] using rev_ind; [done|].
  unfold free_last in Hread. rewrite last_snoc in Hread.
  destruct (neighbour_sizes h c0 psz pb s ns nb cs3 Hok) as ([HbN _] & [HbP _] & Hpsz & Htot & _).
  rewrite !(neighbour_reads h c0 psz pb s ns nb cs3 Hok), clear_prec, !u32_small by (destruct geo; lia).
  destruct (Z.leb_spec asz ((if nb then 0 else ns) + (if pb then 0 else psz) + s)) as [Hfit|Hno]; [right|].
  - destruct (realloc_take _ _ _) as [tp tn] eqn:Htake.
    destruct (realloc_grows h c0 psz pb s ns nb cs3 Hok asz tp tn) as (cs' & m' & Hres);
      [by destruct pb|done|lia|done|done|].
    by exists (A - tp), (s + tp + tn), cs', m'.
  - apply (move_ok h (c0 ++ [(psz, pb)]) s ((ns, nb) :: cs3) size Hok Hne1 Hne2 Hsize Hgt).
Qed.
End realloc.
