(* ===== verification/MmHeapAlign.v ===== *)
(** * MmHeapAlign: mm_memalign

    A larger chunk is requested; the part before the aligned address becomes a free
    chunk, and what is behind the block is given back. *)

From S2P Require Import Prelude MmHeap MmHeapSpec MmHeapInv MmHeapOps MmHeapResize MmHeapRealloc.
Local Open Scope Z_scope.

Section align.
Context `{Config} (nl base lim : Z) (geo : geometry nl base lim).
Implicit Types (h : mm_heap_s) (m : gmap Z Z) (cs : list chunk) (F : list node).
Abbreviation hp := (hp nl base lim).
Abbreviation heap_ok := (heap_ok nl base lim).
Abbreviation shape := (shape base lim).

(** The allocated chunks of [cs] and their contents are still there, and are not at
    [A]. *)
Definition kept cs cs' m m' (A : Z) : Prop :=
  ∀ a sz, chunk_at base cs a sz true → a ≠ A ∧ chunk_at base cs' a sz true ∧
    ∀ w, a + 8 ≤ w < a + sz → m' !! w = m !! w.

(** ** The front of a chunk is given back *)

Section front.
Context h (c1 : list chunk) (y : Z) (s2 : Z) (b2 : bool) (c2 : list chunk) (x : Z).
Abbreviation N := (base + span c1).
Abbreviation cs := (c1 ++ (y, true) :: (s2, b2) :: c2).
Abbreviation cs' := (c1 ++ (x, false) :: (y - x, true) :: (s2, b2) :: c2).

(** The words that are written. *)
Lemma front_quiet h' :
  hp h' cs' ((N, x) :: free_of base cs) →
  quiet base cs' (split_words N x (y - x) ++ [N + offset fpreceding] ++
    links (sents nl ++ (N, x) :: free_of base cs)).
Proof using geo.
  intros Hhp3. pose proof (hp_shape _ _ _ _ _ _ Hhp3) as Hsh3.
  assert (chunk_at base cs' N x false) as HatN by (by eexists c1, _).
  assert (chunk_at base cs' (N + x) (y - x) true) as HatX.
  { exists (c1 ++ [(x, false)]), ((s2, b2) :: c2). rewrite <- app_assoc, span_app. split; [done|]. simpl. lia. }
  apply quiet_app; [|apply quiet_app].
  - unfold split_words. apply quiet_cons; [|apply quiet_cons; [|apply quiet_cons]].
    + eapply quiet_hdr; [done|exact HatX|by left].
    + eapply quiet_hdr; [done|exact HatX|by right].
    + eapply quiet_hdr; [done|exact HatN|by left].
    + eapply (quiet_hdr _ _ _ (N + x + (y - x)) s2 b2); [done| |by right].
      exists (c1 ++ [(x, false); (y - x, true)]), c2. rewrite <- app_assoc, span_app. split; [done|]. simpl. lia.
  - eapply quiet_hdr; [done|exact HatN|by right].
  - apply (quiet_links _ _ _ geo); [done|]. eapply free_inside; [exact Hhp3|].
    intros e. rewrite !free_of_app. simpl. replace (N + x + (y - x)) with (N + y) by lia. set_solver.
Qed.

Context (Hok : heap_ok h cs) (Hne : c1 ≠ []) (Hm : meet (last c1) (Some (y, false)))
  (Hx : good (x, true)) (Hy : good (y - x, true)).

Lemma front_ok C (k : Z → K mm_heap_s C) :
  ∃ m', (put (N + x) fsize (y - x);; put (N + x) fpreceding (Z.lor x MM_ALLOC_BIT);; put N fsize x;;
         p ← get N fpreceding; put N fpreceding (Z.land p (Z.lnot MM_ALLOC_BIT));;
         s ← get (N + x) fsize; set_preceding (N + y) s;; s ← get (N + x) fsize;
         mm_addfreechunk nl N;; k s) h = k (y - x) (set_words m' h) ∧
    heap_ok (set_words m' h) cs' ∧ ∀ w, data base cs' w → m' !! w = words h !! w.
Proof using Hok Hne Hm Hx Hy geo.
  pose proof (ho_hp _ _ _ _ _ Hok) as Hhp. pose proof (hp_shape _ _ _ _ _ _ Hhp) as Hsh.
  set (F := free_of base cs) in *.
  assert (N ∉ F.*1) as HNF by (eapply alloc_notin; [done|done|by eexists c1, _]).
  destruct (split_range _ _ _ geo h c1 y true [] s2 b2 c2 x (y - x) true F Hhp Hne Hx Hy ltac:(simpl; lia))
    as (HA & Hlo & Hx16 & Hy16 & HAx & Hhi & q & Hq & Hp2).
  destruct (split_hp _ _ _ geo h c1 y true [] s2 b2 c2 x (y - x) true F Hhp Hne Hx Hy ltac:(simpl; lia))
    as [Hhp1 Ht1]; [by constructor|].
  destruct (hp_flag _ _ _ geo _ _ _ _ _ _ _ false Hhp1 Hne HNF) as (_ & Ht2 & Hhp2).
  set (m2 := <[_ := _]> _) in Ht2, Hhp2.
  destruct (hp_add _ _ _ geo _ c1 x false _ F Hhp2 Hne) as (m3 & Hrun3 & Hhp3 & Ht3); [done|done|].
  pose proof (last_size_bound _ _ _ geo _ _ Hsh) as Hls.
  pose proof (hp_layout _ _ _ _ _ _ Hhp) as Hlay. apply layout_app in Hlay as [_ (_ & Hpr & _)].
  exists m3. split; [|split; [split|]].
  - rewrite lor_alloc by (destruct geo; lia).
    rewrite (puts3 base lim h); [|apply Hhp|split; [unfold offset; lia|Z.div_mod_to_equations; lia]..].
    erewrite K_bind_Some by (apply get_Some; simpl; look). rewrite clear_prec by done.
    erewrite (K_bind_Some (put N fpreceding _)) by (apply put_Some; simpl; eexists; look).
    erewrite K_bind_Some by (apply get_Some; simpl; look).
    replace (N + y) with (N + x + (y - x)) by lia.
    erewrite (K_bind_Some (set_preceding _ _)); last first.
    { apply (set_preceding_ok _ _ (y - x) q b2); [|destruct geo; lia|done]. simpl. look. }
    erewrite K_bind_Some by (apply get_Some; simpl; look).
    erewrite K_bind_Some; [reflexivity|].
    etrans; [|exact Hrun3]. f_equal. unfold set_words. simpl. f_equal. unfold m2, split_mem. simpl.
    by rewrite insert_insert_ne by (unfold offset; lia).
  - eapply hp_perm; [|exact Hhp3]. rewrite free_of_app. unfold F. rewrite free_of_app. simpl.
    replace (N + x + (y - x)) with (N + y) by lia. apply Permutation_middle.
  - pose proof (ho_coalesced _ _ _ _ _ Hok) as Hco. rewrite !coalesced_app, !coalesced_cons in *.
    destruct Hco as (Hc1 & (_ & Hc2) & _). cbn [head]. split; [done|]. split; [|exact Hm].
    split; [by right|]. split; [by left|done].
  - intros w Hw. pose proof (touched_trans _ _ _ _ _ Ht1 (touched_trans _ _ _ _ _ Ht2 Ht3)) as Ht.
    eapply touched_data; [exact Ht| |exact Hw]. by eapply front_quiet.
Qed.
End front.

(** ** The rest is given back *)

Lemma tail_ok h c1 y c2 x :
  heap_ok h (c1 ++ (y, true) :: c2) → c1 ≠ [] → c2 ≠ [] → 16 ≤ x < y → x mod 16 = 0 →
  ∃ m' cs', mm_shrinkchunk nl (base + span c1) x h = Some (tt, set_words m' h) ∧
    heap_ok (set_words m' h) cs' ∧ chunk_at base cs' (base + span c1) x true ∧
    swapped base (c1 ++ (y, true) :: c2) cs' (base + span c1) y (base + span c1) x ∧
    ∀ a sz, chunk_at base (c1 ++ (y, true) :: c2) a sz true → a ≠ base + span c1 →
      chunk_at base cs' a sz true ∧ ∀ w, a + 8 ≤ w < a + sz → m' !! w = words h !! w.
Proof.
  intros Hok H1 H2 Hx Hx16.
  destruct (shrink_ok _ _ _ geo h c1 y x c2 Hok H1 H2 Hx Hx16) as (n1 & q2 & m' & -> & Hn1 & Hrun & Hok' & Hd).
  exists m', (shrunk c1 y x n1 q2). split; [done|]. split; [done|]. split; [by eexists c1, _|].
  split.
  { apply (swapped_at base c1 ((y, true) :: n1) [(x, true); (y + span n1 - x, false)] q2); [simpl; lia| |done].
    simpl. by rewrite alloc_of_free. }
  intros a sz Ha Hne. assert (chunk_at base (shrunk c1 y x n1 q2) a sz true) as Ha'.
  { apply (chunk_splice base c1 ((y, true) :: n1) [(x, true); (y + span n1 - x, false)] q2); [simpl; lia|done|].
    intros s' ([|c d1] & d2 & Heq & Hadd); [simpl in Hadd; lia|].
    injection Heq as _ ->. by apply Forall_app in Hn1 as [_ [[=] _]%Forall_cons]. }
  split; [done|]. intros w Hw. apply Hd. by exists a, sz.
Qed.

(** ** The aligned address *)

Lemma aligned_ok k N :
  let al := 2 ^ k in let ac := al * ((N + 8 + al - 1) / al) in
  5 ≤ k → 32 ≤ al ∧ N + 8 ≤ ac < N + 8 + al ∧ ac mod al = 0 ∧ ac mod 16 = 0.
Proof.
  intros al ac Hk. assert (2 ^ 5 ≤ al) as Hal5 by (apply Z.pow_le_mono_r; lia). change (2 ^ 5) with 32 in Hal5.
  assert (al mod 16 = 0) as Hal16.
  { unfold al. replace k with (4 + (k - 4)) by lia. rewrite Z.pow_add_r by lia. change (2 ^ 4) with 16.
    rewrite Z.mul_comm. apply Z.mod_mul. lia. }
  split; [done|]. split; [|split].
  - unfold ac. pose proof (Z.div_mod (N + 8 + al - 1) al ltac:(lia)).
    pose proof (Z.mod_pos_bound (N + 8 + al - 1) al ltac:(lia)). lia.
  - unfold ac. rewrite Z.mul_comm. apply Z.mod_mul. lia.
  - apply Z.mod_divide; [lia|]. apply Z.divide_mul_l. by apply Z.mod_divide.
Qed.

(** The chunk of [mm_malloc] is made to start at the aligned address. *)
Lemma align_front h c1 y s2 b2 c2 al ac asz X :
  let N := base + span c1 in let cs := c1 ++ (y, true) :: (s2, b2) :: c2 in
  heap_ok h cs → c1 ≠ [] → meet (last c1) (Some (y, false)) →
  N + 8 ≤ ac < N + 8 + al → ac mod 16 = 0 → X + al + 8 ≤ y → 16 ≤ X < asz →
  ∃ f y' sz' m',
    (if negb (ac =? N + 8) then
       s ← get N fsize;
       kassert (N + 8 + 8 <=? ac);;
       let '(alignedchunk, newnode, precedingsize) :=
         if u32 (ac - 8 - N) <? SIZEOF_MM_FREENODE
         then (u32 (ac + al), u32 (ac + al) - 8, u32 (u32 (ac + al) - 8 - N))
         else (ac, ac - 8, u32 (ac - 8 - N)) in
       put newnode fsize (u32 (N + s - newnode));;
       put newnode fpreceding (Z.lor precedingsize MM_ALLOC_BIT);;
       put N fsize precedingsize;;
       p ← get N fpreceding;
       put N fpreceding (Z.land p (Z.lnot MM_ALLOC_BIT));;
       s0 ← get newnode fsize;
       set_preceding (N + s) s0;;
       s0 ← get newnode fsize;
       mm_addfreechunk nl N;;
       mret (newnode, alignedchunk, u32 (s0 - 8))
     else mret (N, ac, asz)) h = Some ((ac - 8, ac, sz'), set_words m' h) ∧
    let cs' := f ++ (y', true) :: (s2, b2) :: c2 in
    f ≠ [] ∧ base + span f = ac - 8 ∧ heap_ok (set_words m' h) cs' ∧ X < y' ∧ X < sz' ∧
    swapped base cs cs' N y (ac - 8) y' ∧
    ∀ a sz, chunk_at base cs a sz true → a ≠ N → a ≠ ac - 8 ∧ chunk_at base cs' a sz true ∧
      ∀ w, a + 8 ≤ w < a + sz → m' !! w = words h !! w.
Proof.
  intros N cs Hok Hne1 Hmeet Hac Hac16 HXy HX. pose proof (ho_hp _ _ _ _ _ Hok) as Hhp.
  pose proof (hp_shape _ _ _ _ _ _ Hhp) as Hsh.
  destruct (shape_at _ _ _ geo _ _ _ _ Hsh Hne1) as (HN & Hlo & _ & _ & _ & Hin).
  destruct (Hin ltac:(done)) as [[_ Hy16] Hhi]. simpl in Hy16. fold N in HN, Hlo, Hhi.
  destruct (Z.eqb_spec ac (N + 8)) as [->|Hne]; cbn [negb].
  { exists c1, y, asz, (words h). replace (N + 8 - 8) with N by lia.
    split; [by destruct h|]. split; [done|]. split; [done|]. split; [by destruct h|]. split; [lia|].
    split; [lia|]. split; [|done]. by apply (swapped_at base c1 [(y, true)] [(y, true)]). }
  set (pre := ac - (N + 8)).
  assert (16 ≤ pre < al ∧ pre mod 16 = 0) as [Hpre Hpre16] by (unfold pre; Z.div_mod_to_equations; lia).
  assert (good (pre, true) ∧ good (y - pre, true)) as [Hgx Hgy].
  { split; split; simpl; [lia|done|lia|]. Z.div_mod_to_equations. lia. }
  assert (ac - 8 = N + pre) as -> by (unfold pre; lia).
  destruct (front_ok h c1 y s2 b2 c2 pre Hok Hne1 Hmeet Hgx Hgy _
    (λ s, mret (N + pre, ac, u32 (s - 8)))) as (m2 & Hrun2 & Hok2 & Hd2). fold N in Hrun2.
  exists (c1 ++ [(pre, false)]), (y - pre), (u32 (y - pre - 8)), m2.
  rewrite <- app_assoc, span_app. simpl. rewrite (u32_small (y - pre - 8)) by (destruct geo; lia).
  split; [|split; [by destruct c1|split; [unfold N; lia|split; [done|split; [lia|split; [lia|split]]]]]].
  - rewrite (K_bind_Some _ _ _ _ _ (hp_size _ _ _ _ _ _ _ _ _ Hhp)), kassert_step by (apply Z.leb_le; lia).
    replace (N + pre - N) with pre by lia. rewrite (u32_small pre) by (destruct geo; lia).
    change SIZEOF_MM_FREENODE with 16. rewrite (proj2 (Z.ltb_ge pre 16)) by lia. cbv beta iota.
    replace (N + y - (N + pre)) with (y - pre) by lia. rewrite (u32_small (y - pre)) by (destruct geo; lia).
    rewrite Hrun2. by rewrite u32_small by (destruct geo; lia).
  - apply (swapped_at base c1 [(y, true)] [(pre, false); (y - pre, true)]); [simpl; lia|done|done].
  - intros a sz Ha HaN.
    destruct (chunk_order _ _ _ _ _ _ _ _ (shape_sizes _ _ _ Hsh) Ha ltac:(by eexists c1, _)) as [?|Hap];
      [naive_solver|]. fold N in Hap. pose proof (chunk_pos _ _ _ geo _ _ _ _ Hsh Ha). split; [lia|].
    assert (chunk_at base (c1 ++ (pre, false) :: (y - pre, true) :: (s2, b2) :: c2) a sz true) as Ha2.
    { apply (chunk_splice base c1 [(y, true)] [(pre, false); (y - pre, true)]); [simpl; lia|done|].
      intros s' ([|c d1] & d2 & Heq & Hadd); [simpl in Hadd; unfold N in HaN; lia|]. by destruct d1. }
    split; [done|]. intros w Hw. apply Hd2. by exists a, sz.
Qed.

(** ** mm_memalign *)

Lemma memalign_ok h cs k size :
  let al := 2 ^ k in
  heap_ok h cs → 5 ≤ k ≤ 30 → 0 ≤ size → size + 2 * al ≤ 4294967240 →
  (Forall (λ e, e.2 < chunk_size (16 * ((size + 15) / 16) + 2 * al)) (free_of base cs) ∧
   mm_memalign nl al size h = Some (0, h)) ∨
  ∃ A y cs' m', mm_memalign nl al size h = Some (A + 8, set_words m' h) ∧ A + 8 ≠ 0 ∧
    (A + 8) mod al = 0 ∧ heap_ok (set_words m' h) cs' ∧ chunk_at base cs' A y true ∧
    size + 8 ≤ y < size + 32 ∧ alloc_of base cs' ≡ₚ (A, y) :: alloc_of base cs ∧
    kept cs cs' (words h) m' A.
Proof.
  intros al Hok Hk Hsize Hmax. destruct (aligned_ok k 0) as (Hal5 & _); [lia|]. fold al in Hal5.
  set (sz := 16 * ((size + 15) / 16)).
  assert (size ≤ sz < size + 16 ∧ sz mod 16 = 0) as [Hsz Hsz16] by (unfold sz; Z.div_mod_to_equations; lia).
  unfold mm_memalign. change MM_MIN_CHUNK with 16. rewrite (proj2 (Z.leb_gt al 16)) by lia.
  rewrite (align_up_ok size) by lia. fold sz. cbv zeta. rewrite (u32_small (sz + 2 * al)) by lia.
  destruct (malloc_new _ _ _ geo h cs (sz + 2 * al) Hok ltac:(lia)) as [[Hall Hrun]|Hres]; [left|right].
  { split; [done|]. by rewrite (K_bind_Some _ _ _ _ _ Hrun). }
  destruct Hres as (c1 & y & c2 & m1 & Hrun1 & HN0 & Hok1 & Hne1 & Hne2 & Hmeet & Hy & Halloc & Hkeep & Hd1).
  rewrite (K_bind_Some _ _ _ _ _ Hrun1), (proj2 (Z.eqb_neq _ _) HN0).
  destruct (chunk_size_ok (sz + 2 * al)) as (_ & _ & _ & Hcs); [lia|]. set (N := base + span c1) in *.
  destruct (shape_at _ _ _ geo _ _ _ _ (hp_shape _ _ _ _ _ _ (ho_hp _ _ _ _ _ Hok1)) Hne1)
    as (_ & Hlo & _ & _ & _ & Hin). destruct (Hin Hne2) as [_ Hhi]. fold N in Hlo, Hhi.
  replace (N + 8 - SIZEOF_MM_ALLOCNODE) with N by (unfold SIZEOF_MM_ALLOCNODE; lia).
  destruct c2 as [|[s2 b2] c2]; [done|].
  rewrite (u32_small (al - 1)), (u32_small (N + 8 + (al - 1))) by (destruct geo; lia).
  destruct (aligned_ok k N) as (_ & Hac & Hacal & Hac16); [lia|]. fold al in Hac, Hacal, Hac16.
  set (ac := al * ((N + 8 + al - 1) / al)) in *.
  assert (Z.land (N + 8 + (al - 1)) (Z.lnot (al - 1)) = ac) as -> by (apply round_up; lia).
  unfold SIZEOF_MM_ALLOCNODE. rewrite (u32_small (sz + 8)), (align_up_ok (sz + 8)) by lia.
  assert (16 * ((sz + 8 + 15) / 16) = sz + 16) as -> by (Z.div_mod_to_equations; lia).
  destruct (align_front (set_words m1 h) c1 y s2 b2 c2 al ac (sz + 2 * al) (sz + 16) Hok1 Hne1 Hmeet)
    as (f & y' & sz' & m2 & Hrun2 & Hnef & Hf & Hok2 & Hy' & Hsz' & Hsw2 & Hkeep2); [done|done|lia|lia|].
  destruct (tail_ok _ _ _ _ (sz + 16) Hok2 Hnef) as (m3 & cs3 & Hrun3 & Hok3 & Hat3 & Hsw3 & Hkeep3);
    [done|lia|Z.div_mod_to_equations; lia|]. rewrite Hf in Hrun3, Hat3, Hsw3, Hkeep3.
  exists (ac - 8), (sz + 16), cs3, m3. replace (ac - 8 + 8) with ac by lia.
  split; [|split; [destruct geo; lia|split; [done|split; [done|split; [done|split; [lia|split]]]]]].
  - erewrite K_bind_Some; [|exact Hrun2]. cbv beta iota. rewrite (proj2 (Z.ltb_lt _ _)) by lia. cbn [kwhen].
    by rewrite (K_bind_Some _ _ _ _ _ Hrun3).
  - destruct (swapped_trans _ _ _ _ _ _ _ _ _ _ Hsw2 Hsw3) as (R & HR & ->). f_equiv. rewrite Halloc in HR.
    symmetry. by apply Permutation_cons_inv in HR.
  - intros a szz Ha. destruct (Hkeep a szz Ha) as [HaN Ha1]. destruct (Hkeep2 a szz Ha1 HaN) as (HaA & Ha2 & Hw2).
    destruct (Hkeep3 a szz Ha2 HaA) as [Ha3 Hw3]. split; [done|]. split; [done|].
    intros w Hw. rewrite Hw3 by done. simpl. rewrite Hw2 by done. apply Hd1. by exists a, szz.
Qed.
End align.
