(* ===== verification/MmHeapZero.v ===== *)
(** * MmHeapZero: mm_zalloc and mm_calloc

    The block is cleared to its last byte, and nothing else. *)

From S2P Require Import Prelude MmHeap MmHeapSpec MmHeapInv MmHeapOps MmHeapInit MmHeapRealloc MmHeapAlign.
Local Open Scope Z_scope.

Section zero.
Context `{Config} (nl base lim : Z) (geo : geometry nl base lim).
Implicit Types (h : mm_heap_s) (m : gmap Z Z) (cs : list chunk).
Abbreviation heap_ok := (heap_ok nl base lim).

(** The first [size] bytes at [a] are zero. *)
Definition zeroed m (a size : Z) : Prop :=
  (∀ i, 0 ≤ i → 4 * i + 4 ≤ size → m !! (a + 4 * i) = Some 0) ∧
  (size mod 4 ≠ 0 → ∃ v, m !! (a + 4 * (size / 4)) = Some v ∧ v mod 2 ^ (8 * (size mod 4)) = 0).

Lemma memset_zero_ok h a size :
  0 ≤ size → (∀ i, 0 ≤ i → 4 * i < size → is_Some (words h !! (a + 4 * i))) →
  ∃ m', memset_zero a size h = Some (tt, set_words m' h) ∧ zeroed m' a size ∧
    dom m' = dom (words h) ∧ ∀ w, ¬ (a ≤ w < a + size ∧ (w - a) mod 4 = 0) → m' !! w = words h !! w.
Proof.
  intros Hs Hm. unfold memset_zero. set (n := Z.to_nat (size / 4)).
  assert (Z.of_nat n = size / 4) as Hn by (unfold n; Z.div_mod_to_equations; lia).
  assert (4 * (size / 4) + size mod 4 = size ∧ 0 ≤ size mod 4 < 4) as [Hdm Hr] by (Z.div_mod_to_equations; lia).
  destruct (memset_words_ok n a h) as (m1 & Hrun1 & Hd1 & H0 & Hk).
  { intros w [Hw Hw4]. replace w with (a + 4 * ((w - a) / 4)) by (Z.div_mod_to_equations; lia).
    apply Hm; Z.div_mod_to_equations; lia. }
  assert (∀ i, 0 ≤ i → 4 * i + 4 ≤ size → m1 !! (a + 4 * i) = Some 0) as Hz.
  { intros i Hi Hi'. apply H0. split; Z.div_mod_to_equations; lia. }
  rewrite (K_bind_Some _ _ _ _ _ Hrun1). destruct (Z.eqb_spec (size mod 4) 0) as [Hr0|Hr0]; cbn [negb kwhen].
  - exists m1. split; [done|]. split; [by split|]. split; [done|]. intros w Hw. apply Hk.
    intros [Hw1 Hw2]. apply Hw. split; [lia|done].
  - set (z := a + 4 * (size / 4)). destruct (Hm (size / 4)) as [v Hv]; [Z.div_mod_to_equations; lia|lia|].
    fold z in Hv. assert (m1 !! z = Some v) as Hv1.
    { rewrite Hk; [done|]. intros [Hw _]. unfold z in Hw. lia. }
    set (v' := Z.land v (Z.lnot (2 ^ (8 * (size mod 4)) - 1))).
    exists (<[z := v']> m1). split; [|split; [split|split]].
    + erewrite K_bind_Some by (unfold load_word, kget; simpl; rewrite Hv1; reflexivity).
      unfold store_word, kput. simpl. by rewrite Hv1.
    + intros i Hi Hi'. rewrite lookup_insert_ne; [by apply Hz|]. unfold z. lia.
    + intros _. exists v'. split; [apply lookup_insert_eq|]. unfold v'.
      change (2 ^ (8 * (size mod 4)) - 1) with (Z.pred (2 ^ (8 * (size mod 4)))).
      rewrite <- Z.ones_equiv, <- Z.ldiff_land, Z.ldiff_ones_r, Z.shiftl_mul_pow2 by lia.
      apply Z.mod_mul. lia.
    + rewrite dom_insert_lookup_L by (by eexists). done.
    + intros w Hw. rewrite lookup_insert_ne.
      * apply Hk. intros [Hw1 Hw2]. apply Hw. split; [lia|done].
      * intros <-. apply Hw. unfold z. split; [lia|].
        replace (a + 4 * (size / 4) - a) with (size / 4 * 4) by lia. apply Z.mod_mul. lia.
Qed.

Lemma zalloc_ok h cs size :
  heap_ok h cs → 1 ≤ size ≤ 4294967272 →
  (Forall (λ e, e.2 < chunk_size size) (free_of base cs) ∧ mm_zalloc nl size h = Some (0, h)) ∨
  ∃ A y cs' m', mm_zalloc nl size h = Some (A + 8, set_words m' h) ∧ A + 8 ≠ 0 ∧
    heap_ok (set_words m' h) cs' ∧ chunk_at base cs' A y true ∧ size + 8 ≤ y ∧
    zeroed m' (A + 8) size ∧ kept base cs cs' (words h) m' A.
Proof.
  intros Hok Hs. unfold mm_zalloc.
  destruct (malloc_new _ _ _ geo h cs size Hok Hs) as [[Hall Hrun]|Hres]; [left|right].
  { split; [done|]. by rewrite (K_bind_Some _ _ _ _ _ Hrun). }
  destruct Hres as (c1 & y & c2 & m1 & Hrun1 & HN0 & Hok1 & Hne1 & Hne2 & _ & Hy & _ & Hkeep & Hd1).
  set (N := base + span c1) in *. set (cs' := c1 ++ (y, true) :: c2) in *.
  pose proof (hp_shape _ _ _ _ _ _ (ho_hp _ _ _ _ _ Hok1)) as Hsh1.
  destruct (shape_at _ _ _ geo _ _ _ _ Hsh1 Hne1) as (HN & Hlo & Hhi & _). fold N in HN, Hlo, Hhi.
  destruct (chunk_size_ok size Hs) as (_ & _ & _ & Hcs).
  assert (chunk_at base cs' N y true) as HatN by (by exists c1, c2).
  destruct (memset_zero_ok (set_words m1 h) (N + 8) size) as (m2 & Hrun2 & Hz & Hd2 & Hk2); [lia| |].
  { intros i Hi Hi'. apply (hp_map _ _ _ _ _ _ (ho_hp _ _ _ _ _ Hok1)); [lia|].
    Z.div_mod_to_equations. lia. }
  exists N, y, cs', m2. split; [|split; [done|split; [|split; [done|split; [lia|split; [done|]]]]]].
  - rewrite (K_bind_Some _ _ _ _ _ Hrun1), (proj2 (Z.eqb_neq _ _) HN0). cbn [negb kwhen].
    by rewrite (K_bind_Some _ _ _ _ _ Hrun2).
  - eapply (heap_ok_data _ _ _ geo (set_words m1 h) _ (cells (N + 8) (Z.to_nat ((size + 3) / 4)))); [done| |].
    + split; [done|]. intros w Hw. apply Hk2. intros [Hw1 Hw2]. apply Hw, elem_of_cells.
      exists ((w - (N + 8)) / 4). split; Z.div_mod_to_equations; lia.
    + apply Forall_forall. intros w (i & Hi & ->)%elem_of_cells. exists N, y. split; [done|].
      Z.div_mod_to_equations. lia.
  - intros a sz Ha. destruct (Hkeep a sz Ha) as [HaN Ha1]. split; [done|]. split; [done|].
    intros w Hw. rewrite Hk2; [apply Hd1; by exists a, sz|]. intros [Hw1 _].
    destruct (chunk_order _ _ _ _ _ _ _ _ (shape_sizes _ _ _ Hsh1) Ha1 HatN) as [?|?]; [naive_solver|lia].
Qed.
End zero.
