(* ===== verification/MmHeapProps.v ===== *)
(** * MmHeapProps: the properties of the memory manager *)

From S2P Require Import Prelude MmHeap MmHeapSpec MmHeapInv MmHeapOps MmHeapInit Alloc MmHeapAlloc MmHeapResize MmHeapRealloc MmHeapAlign MmHeapZero.
Local Open Scope Z_scope.

(** ** A small memory for the witnesses *)

Definition ram (a : Z) (n : nat) : gmap Z Z :=
  list_to_map ((λ i, (a + 4 * i, 7)) <$> seqZ 0 (Z.of_nat n)).

Lemma ram_mapped a n w : in_words a n w → is_Some (ram a n !! w).
Proof.
  intros [Hr H4]. exists 7. unfold ram. apply elem_of_list_to_map.
  - rewrite <- list_fmap_compose. apply NoDup_fmap_2_strong; [|apply NoDup_seqZ]. simpl. lia.
  - apply list_elem_of_fmap. exists ((w - a) / 4). split.
    + f_equal. Z.div_mod_to_equations. lia.
    + apply elem_of_seqZ. Z.div_mod_to_equations. lia.
Qed.

(** The nodes at 1024, the region from 4100 on. *)
Definition demo : mm_heap_s := mk_heap 0 0 0 (ram 1024 76 ∪ ram 4096 256).

Lemma demo_mapped w : in_words 1024 76 w ∨ in_words 4096 256 w → is_Some (words demo !! w).
Proof.
  intros [Hw|Hw]; simpl; [by apply lookup_union_is_Some; left; apply ram_mapped|].
  apply lookup_union_is_Some. right. by apply ram_mapped.
Qed.

(** What [mm_initialize] needs: a region of between 32 bytes and 2 GB, apart from
    the array of nodes; both are memory. *)
Record startable (nl heapstart heapsize : Z) (h : mm_heap_s) : Prop := {
  st_range : 0 ≤ heapstart ≤ 4294967280 ∧ 0 ≤ heapstart + heapsize < 4294967296;
  st_geo : geometry nl (MM_ALIGN_UP heapstart) (MM_ALIGN_DOWN (heapstart + heapsize));
  st_map : mapped (MM_ALIGN_UP heapstart) (MM_ALIGN_DOWN (heapstart + heapsize)) (words h);
  st_nl : ∀ w, in_words nl 76 w → is_Some (words h !! w);
}.

Lemma demo_startable : startable 1024 4100 500 demo.
Proof.
  split; [lia| | |intros; apply demo_mapped; by left].
  - change (MM_ALIGN_UP 4100) with 4112. change (MM_ALIGN_DOWN (4100 + 500)) with 4592.
    split; split_and?; (done || lia).
  - intros w Hw H4. apply demo_mapped. right. change (MM_ALIGN_UP 4100) with 4112 in Hw.
    change (MM_ALIGN_DOWN (4100 + 500)) with 4592 in Hw. split; [lia|]. Z.div_mod_to_equations. lia.
Qed.

(** ** Neighbours of a free chunk *)

Lemma no_free_next s n1 q2 :
  Forall (λ c : chunk, c.2 = false) n1 → meet (Some (s, false)) (head (n1 ++ q2)) → n1 = [].
Proof. intros Hn. destruct Hn as [|c n1 Hc _]; [done|]. simpl. rewrite Hc. by intros [|]. Qed.

Lemma no_free_prev s q1 p1 :
  Forall (λ c : chunk, c.2 = false) p1 → meet (last (q1 ++ p1)) (Some (s, false)) → p1 = [].
Proof.
  intros Hp. destruct p1 as [|c p1 _] using rev_ind; [done|]. rewrite app_assoc, last_snoc. simpl.
  apply Forall_app in Hp as [_ [Hc _]%Forall_cons]. rewrite Hc. by intros [|].
Qed.

(** Freeing what was split off a free chunk gives that chunk back. *)
Lemma freed_split cs1 s asz cs2 s1 tl q1 p1 n1 q2 :
  coalesced (cs1 ++ (s, false) :: cs2) → alloc_split s asz = (s1, true) :: tl →
  cs1 = q1 ++ p1 → tl ++ cs2 = n1 ++ q2 → Forall (λ c : chunk, c.2 = false) (p1 ++ n1) →
  coalesced (freed q1 p1 s1 n1 q2) → freed q1 p1 s1 n1 q2 = cs1 ++ (s, false) :: cs2.
Proof.
  intros Hco Hsp -> Hn Hall Hco'. apply Forall_app in Hall as [Hp Hall].
  apply coalesced_app in Hco as (_ & [Hnext _]%coalesced_cons & Hprev). cbn [head] in Hprev.
  assert (p1 = []) as -> by (by eapply no_free_prev). rewrite app_nil_r. unfold freed in *.
  unfold alloc_split in Hsp. destruct (16 <=? s - asz); injection Hsp as <- <-.
  - destruct n1 as [|c n1]; simpl in Hn.
    + subst q2. apply coalesced_app in Hco' as (_ & [Hm _]%coalesced_cons & _).
      simpl in Hm. by destruct Hm.
    + injection Hn as <- ->. apply Forall_cons in Hall as [_ Hall].
      assert (n1 = []) as -> by (by eapply no_free_next). simpl. do 3 f_equal. lia.
  - simpl in Hn. subst cs2. assert (n1 = []) as -> by (by eapply no_free_next).
    simpl. do 3 f_equal. lia.
Qed.

Section props.
Context `{Config}.
Implicit Types (h : mm_heap_s) (cs : list chunk).

(** C14: The safety of the heap: after [mm_initialize], whatever sequence of
    requests, releases and stores a caller makes, every call succeeds, the blocks
    that it holds do not overlap, are aligned to 16 bytes and lie in the region, and
    each block still holds what the caller stored there; the structures of the heap
    are intact.  Proved from the laws of the interface [AllocLaws]. *)
Theorem heap_history_safe nl heapstart heapsize h ops :
  startable nl heapstart heapsize h → Forall (op_ok 4294967272) ops →
  let base := MM_ALIGN_UP heapstart in
  let lim := MM_ALIGN_DOWN (heapstart + heapsize) in
  let A := heap_ops nl in
  ∃ h1 h2 bs, mm_initialize nl heapstart heapsize h = Some (tt, h1) ∧
    alloc_run ops (h1, []) = Some (h2, bs) ∧
    (∀ i j b b', bs.*1 !! i = Some b → bs.*1 !! j = Some b' → i ≠ j → disjoint_blocks b b') ∧
    (∀ b c, (b, c) ∈ bs → b.1 mod 16 = 0 ∧ base ≤ b.1 ∧ b.1 + b.2 ≤ lim ∧
       ∀ i v, c !! i = Some v → words h2 !! (b.1 + 4 * i) = Some v) ∧
    ∃ cs, heap_ok nl base lim h2 cs.
Proof.
  intros [[Hst Hsz] geo Hmap Hnl] Hops base lim A.
  destruct (initialize_ok _ _ _ geo h heapstart heapsize Hst Hsz eq_refl eq_refl Hmap Hnl)
    as (h1 & Hrun1 & Hok1 & _).
  pose proof (heap_laws nl base lim geo) as Hlaws.
  destruct (alloc_run_ok 4294967272 (heap_inv nl base lim) ops (h1, [])) as ([h2 bs] & Hrun2 & Hinv & Hh);
    [|done|].
  { split; [|by intros b c i v Hin; inversion Hin]. eexists. split; [exact Hok1|]. by repeat constructor. }
  exists h1, h2, bs. split; [done|]. split; [done|]. split; [|split].
  - intros i j b b' Hi Hj Hij. by apply (al_disjoint h2 bs.*1 i j).
  - intros b c Hin. destruct Hinv as (cs & Hok & _ & Hlive). simpl in Hok.
    rewrite Forall_forall in Hlive. pose proof (list_elem_of_fmap_2 fst _ _ Hin) as Hb. simpl in Hb.
    pose proof (hp_shape _ _ _ _ _ _ (ho_hp _ _ _ _ _ Hok)) as Hsh.
    destruct (live_aligned _ _ _ geo _ _ Hsh (Hlive b Hb)) as [? _]. split; [done|].
    destruct (Hlive b Hb) as (_ & s & _ & Hs & Hlo & Hhi). split; [unfold base; lia|].
    split; [unfold lim; lia|]. intros i v Hv. by destruct (Hh b c i v Hin Hv).
  - destruct Hinv as (cs & Hok & _). by exists cs.
Qed.

(** C15: [mm_malloc] is best fit and complete: it returns NULL, without effect, only
    if every free chunk is smaller than the request with its header, rounded up to
    16 bytes; otherwise it takes a smallest chunk that is large enough, splits off
    what is left when that can be a chunk, and leaves the contents of all allocated
    chunks alone. *)
Theorem mm_malloc_best_fit nl base lim h cs size :
  geometry nl base lim → heap_ok nl base lim h cs → 1 ≤ size ≤ 4294967272 →
  let asz := chunk_size size in
  (Forall (λ e, e.2 < asz) (free_of base cs) ∧ mm_malloc nl size h = Some (0, h)) ∨
  ∃ cs1 s cs2 h', cs = cs1 ++ (s, false) :: cs2 ∧ asz ≤ s ∧
    Forall (λ e, asz ≤ e.2 → s ≤ e.2) (free_of base cs) ∧
    mm_malloc nl size h = Some (base + span cs1 + 8, h') ∧
    heap_ok nl base lim h' (cs1 ++ alloc_split s asz ++ cs2) ∧
    ∀ w, data base cs w → words h' !! w = words h !! w.
Proof.
  intros geo Hok Hs asz. destruct (malloc_ok _ _ _ geo h cs size Hok Hs) as [?|Hres]; [by left|right].
  destruct Hres as (cs1 & s & cs2 & m' & -> & Hle & Hall & Hrun & Hok' & Hd).
  by exists cs1, s, cs2, (set_words m' h).
Qed.

(** C36: Releasing what was just requested undoes the request: the heap has the same
    chunks as before, and the contents of the other blocks are unchanged. *)
Theorem mm_malloc_free_roundtrip nl base lim h cs size p h1 :
  geometry nl base lim → heap_ok nl base lim h cs → 1 ≤ size ≤ 4294967272 →
  mm_malloc nl size h = Some (p, h1) → p ≠ 0 →
  ∃ h2, mm_free nl p h1 = Some (tt, h2) ∧ heap_ok nl base lim h2 cs ∧
    ∀ w, data base cs w → words h2 !! w = words h !! w.
Proof.
  intros geo Hok Hs Hm Hp. destruct (malloc_ok _ _ _ geo h cs size Hok Hs) as [[_ Hrun]|Hres]; [congruence|].
  destruct Hres as (cs1 & s & cs2 & m1 & -> & Hle & _ & Hrun & Hok1 & Hd1).
  rewrite Hm in Hrun. injection Hrun as -> ->.
  destruct (shape_free _ _ _ geo _ _ _ (hp_shape _ _ _ _ _ _ (ho_hp _ _ _ _ _ Hok))) as [Hne1 Hne2].
  destruct (alloc_split s (chunk_size size)) as [|[s1 b1] tl] eqn:Hsp.
  { unfold alloc_split in Hsp. by destruct (16 <=? s - chunk_size size). }
  assert (b1 = true) as ->.
  { unfold alloc_split in Hsp. by destruct (16 <=? s - chunk_size size); injection Hsp. }
  destruct (free_ok _ _ _ geo _ cs1 s1 (tl ++ cs2) Hok1 Hne1)
    as (q1 & p1 & n1 & q2 & m2 & Hcs1 & Hcs2 & Hall & Hrun2 & Hok2 & Hd2); [by destruct tl|].
  assert (freed q1 p1 s1 n1 q2 = cs1 ++ (s, false) :: cs2) as Heq.
  { eapply freed_split; [apply Hok|exact Hsp|done..|apply Hok2]. }
  rewrite Heq in Hok2, Hd2. exists (set_words m2 h). split; [exact Hrun2|]. split; [exact Hok2|].
  intros w Hw. simpl. rewrite (Hd2 w Hw). by apply Hd1.
Qed.

(** C38: [mm_mallinfo] terminates, its assertions hold, and it reports the number of
    free chunks, the largest of them and the bytes in allocated and in free chunks,
    which add up to the size of the heap, when [mm_heapsize] is the size of the
    region (after [mm_extend] it is not: [mm_extend_mallinfo]). *)
Theorem mm_mallinfo_accounts nl base lim h cs :
  geometry nl base lim → heap_ok nl base lim h cs → mm_heapsize h = lim - base →
  ∃ i, mm_mallinfo h = Some (i, h) ∧ arena i = mm_heapsize h ∧ uordblks i + fordblks i = arena i ∧
    ordblks i = Z.of_nat (length (free_of base cs)) ∧ mxordblk i = foldr Z.max 0 (free_of base cs).*2 ∧
    fordblks i = bytes false cs ∧ uordblks i = bytes true cs.
Proof.
  intros geo Hok Hsz. destruct (mallinfo_ok _ _ _ geo h cs Hok Hsz) as [Hrun Hsum].
  eexists. split; [exact Hrun|]. simpl. by rewrite Hsz.
Qed.

(** C16: [mm_realloc] of a block to [size] bytes, on each of its paths (shrinking in
    place, growing into the next, the previous or both free neighbours, moving):
    either it returns NULL without effect, and then no free chunk is large enough,
    or it returns a block in a chunk of exactly the size that [mm_malloc] would use,
    which holds the old contents as far as they fit, while every other allocated
    chunk stays where it is with its contents.  The new chunk takes the place of the
    old one among the allocated chunks and nothing else is allocated: the old block
    is given back, and no part of it leaks.  A condition on the memory: when the chunk
    before the block is free and as large as the distance of the end of the block to
    the end of the heap, the words behind the heap up to that size have to be readable
    ([readable], no condition otherwise), since the copy into the previous chunk reads
    beyond the end of the old block; without it the call can fail, as
    [mm_realloc_overreads] below shows. *)
Theorem mm_realloc_moves nl base lim h cs1 s cs2 size :
  let A := base + span cs1 in let cs := cs1 ++ (s, true) :: cs2 in
  geometry nl base lim → heap_ok nl base lim h cs → cs1 ≠ [] → cs2 ≠ [] →
  readable lim (A + s + free_last cs1) (words h) → 1 ≤ size ≤ 4294967272 →
  (Forall (λ e, e.2 < chunk_size size) (free_of base cs) ∧
   mm_realloc nl (A + 8) size h = Some (0, h)) ∨
  ∃ A' y cs' h', mm_realloc nl (A + 8) size h = Some (A' + 8, h') ∧ A' + 8 ≠ 0 ∧
    heap_ok nl base lim h' cs' ∧ size + 8 ≤ y ∧ y = chunk_size size ∧ chunk_at base cs' A' y true ∧
    (∃ R, alloc_of base cs ≡ₚ (A, s) :: R ∧ alloc_of base cs' ≡ₚ (A', y) :: R) ∧
    (∀ i, 0 ≤ i → 4 * i + 4 ≤ s - 8 → 4 * i + 4 ≤ y - 8 →
       words h' !! (A' + 8 + 4 * i) = words h !! (A + 8 + 4 * i)) ∧
    (∀ a sz, chunk_at base cs a sz true → a ≠ A → a ≠ A' ∧ chunk_at base cs' a sz true ∧
       ∀ w, a + 8 ≤ w < a + sz → words h' !! w = words h !! w).
Proof.
  intros A cs geo Hok H1 H2 Hread Hs.
  destruct (realloc_ok _ _ _ geo h cs1 s cs2 size Hok H1 H2 Hread Hs) as [?|Hres]; [by left|right].
  destruct Hres as (A' & y & cs' & m' & Hrun & Hn0 & Hok' & Hy & Hc & Hcont & Hoth & Hsw).
  destruct (chunk_size_ok size Hs) as (_ & _ & _ & Hcs).
  exists A', y, cs', (set_words m' h). split_and!; [done|done|done|lia|done|done|done|done|done].
Qed.

(** C37: [mm_memalign] for an alignment of 32 bytes or more (a power of two): it
    returns NULL without effect, and then no free chunk holds the request enlarged by
    twice the alignment, or a block of at least [size] bytes at a multiple of the
    alignment; every allocated chunk stays where it is with its contents.  What was
    requested in excess is given back: the chunk of the block is less than 32 bytes
    larger than [size], and it is the only chunk allocated in addition. *)
Theorem mm_memalign_aligns nl base lim h cs k size :
  geometry nl base lim → heap_ok nl base lim h cs → 5 ≤ k ≤ 30 → 0 ≤ size →
  size + 2 * 2 ^ k ≤ 4294967240 →
  (Forall (λ e, e.2 < chunk_size (16 * ((size + 15) / 16) + 2 * 2 ^ k)) (free_of base cs) ∧
   mm_memalign nl (2 ^ k) size h = Some (0, h)) ∨
  ∃ A y cs' h', mm_memalign nl (2 ^ k) size h = Some (A + 8, h') ∧ A + 8 ≠ 0 ∧
    (A + 8) mod 2 ^ k = 0 ∧ heap_ok nl base lim h' cs' ∧ chunk_at base cs' A y true ∧
    size + 8 ≤ y < size + 32 ∧ alloc_of base cs' ≡ₚ (A, y) :: alloc_of base cs ∧
    (∀ a sz, chunk_at base cs a sz true → a ≠ A ∧ chunk_at base cs' a sz true ∧
       ∀ w, a + 8 ≤ w < a + sz → words h' !! w = words h !! w).
Proof.
  intros geo Hok Hk Hs Hmax.
  destruct (memalign_ok _ _ _ geo h cs k size Hok Hk Hs Hmax) as [?|Hres]; [by left|right].
  destruct Hres as (A & y & cs' & m' & ? & ? & ? & ? & ? & ? & ? & ?).
  by exists A, y, cs', (set_words m' h).
Qed.

(** [mm_calloc] returns NULL without effect when no free chunk is large enough,
    and otherwise a block for [n * elem_size] bytes all of which are zero, the last
    word included, without touching other chunks. *)
Theorem mm_calloc_zeroes nl base lim h cs n elem_size :
  let size := n * elem_size in
  geometry nl base lim → heap_ok nl base lim h cs → 1 ≤ n → 1 ≤ elem_size → size ≤ 4294967272 →
  (Forall (λ e, e.2 < chunk_size size) (free_of base cs) ∧ mm_calloc nl n elem_size h = Some (0, h)) ∨
  ∃ A y cs' h', mm_calloc nl n elem_size h = Some (A + 8, h') ∧ A + 8 ≠ 0 ∧
    heap_ok nl base lim h' cs' ∧ chunk_at base cs' A y true ∧ size + 8 ≤ y ∧
    (∀ i, 0 ≤ i → 4 * i + 4 ≤ size → words h' !! (A + 8 + 4 * i) = Some 0) ∧
    (size mod 4 ≠ 0 → ∃ v, words h' !! (A + 8 + 4 * (size / 4)) = Some v ∧ v mod 2 ^ (8 * (size mod 4)) = 0) ∧
    (∀ a sz, chunk_at base cs a sz true → a ≠ A ∧ chunk_at base cs' a sz true ∧
       ∀ w, a + 8 ≤ w < a + sz → words h' !! w = words h !! w).
Proof.
  intros size geo Hok Hn He Hmax. assert (1 ≤ size) as H1 by (unfold size; nia).
  unfold mm_calloc. rewrite (proj2 (Z.ltb_lt 0 n)), (proj2 (Z.ltb_lt 0 elem_size)) by lia. cbn [andb].
  fold size. rewrite (wrap_u_small 32 size) by (change (2 ^ 32) with 4294967296; lia).
  destruct (zalloc_ok _ _ _ geo h cs size Hok ltac:(lia)) as [?|Hres]; [by left|right].
  destruct Hres as (A & y & cs' & m' & ? & ? & ? & ? & ? & [? ?] & ?).
  by exists A, y, cs', (set_words m' h).
Qed.

(** [mm_extend] with the memory right behind the heap: its assertions hold, the
    old guard and the new memory, together with a free chunk before them, become one
    free chunk in front of the new guard, and the heap is well formed in the larger
    region; all other chunks and contents are unchanged. *)
Theorem mm_extend_grows nl base lim h front size :
  geometry nl base lim → geometry nl base (lim + size) →
  heap_ok nl base lim h (front ++ [(8, true)]) → front ≠ [] → 16 ≤ size → size mod 16 = 0 →
  lim + size < 4294967296 → mapped lim (lim + size) (words h) →
  ∃ q1 p1 h', mm_extend nl lim size 0 h = Some (tt, h') ∧ front = q1 ++ p1 ∧
    Forall (λ c, c.2 = false) p1 ∧
    heap_ok nl base (lim + size) h' (q1 ++ [(span p1 + size, false); (8, true)]) ∧
    mm_heapend h' = lim + size - 8 ∧
    ∀ w, data base (q1 ++ [(span p1 + size, false); (8, true)]) w → words h' !! w = words h !! w.
Proof.
  intros geo geo' Hok Hne Hs Hs16 Hmax Hmap.
  destruct (extend_ok nl base lim size geo geo' h front Hok Hne Hs Hs16 Hmax Hmap)
    as (q1 & p1 & h' & ? & ? & ? & ? & _ & ? & ?). by exists q1, p1, h'.
Qed.
End props.

(** ** Witnesses *)

#[local] Instance demo_config : Config := {|
  CONFIG_DEBUG_ASSERTIONS := true; CONFIG_DEBUG_FEATURES := true;
  CONFIG_SCHED_TICKLESS_ALARM := false; CONFIG_MAX_WDOGPARMS := 4;
  CONFIG_PREALLOC_WDOGS := 32; CONFIG_WDOG_INTRESERVE := 4;
  CONFIG_RR_INTERVAL := 200; CONFIG_USEC_PER_TICK := 10000;
  CONFIG_MAX_TASKS := 16;
|}.

#[local] Definition release_config : Config := {|
  CONFIG_DEBUG_ASSERTIONS := false; CONFIG_DEBUG_FEATURES := false;
  CONFIG_SCHED_TICKLESS_ALARM := false; CONFIG_MAX_WDOGPARMS := 4;
  CONFIG_PREALLOC_WDOGS := 32; CONFIG_WDOG_INTRESERVE := 4;
  CONFIG_RR_INTERVAL := 200; CONFIG_USEC_PER_TICK := 10000;
  CONFIG_MAX_TASKS := 16;
|}.

Definition demo_heap : mm_heap_s :=
  match mm_initialize 1024 4100 500 demo with Some (_, h) => h | None => demo end.
Definition demo_busy : mm_heap_s :=
  match mm_malloc 1024 40 demo_heap with Some (_, h) => h | None => demo end.

Lemma demo_geo : geometry 1024 4112 4592.
Proof. split; split_and?; (done || lia). Qed.

Lemma demo_heap_ok :
  heap_ok 1024 4112 4592 demo_heap [(8, true); (464, false); (8, true)] ∧ mm_heapsize demo_heap = 480.
Proof.
  destruct demo_startable as [[Hst Hsz] geo Hmap Hnl].
  destruct (initialize_ok _ _ _ geo demo 4100 500 Hst Hsz eq_refl eq_refl Hmap Hnl) as (h1 & Hrun & Hok & Hs).
  unfold demo_heap. rewrite Hrun. by split.
Qed.

Lemma demo_split cs1 s cs2 :
  [(8, true); (464, false); (8, true)] = cs1 ++ (s, false) :: cs2 →
  cs1 = [(8, true)] ∧ s = 464 ∧ cs2 = [(8, true)].
Proof.
  intros Heq. destruct cs1 as [|c1 cs1]; [done|]. injection Heq as <- Heq.
  destruct cs1 as [|c2 cs1]; [by injection Heq as -> ->|]. injection Heq as _ Heq.
  destruct cs1 as [|c3 cs1]; [done|]. injection Heq as _ Heq. by destruct cs1.
Qed.

Lemma demo_busy_ok :
  heap_ok 1024 4112 4592 demo_busy [(8, true); (48, true); (416, false); (8, true)].
Proof.
  destruct (malloc_ok _ _ _ demo_geo demo_heap _ 40 (proj1 demo_heap_ok) ltac:(lia)) as [[Hall _]|Hres].
  { apply Forall_cons in Hall as [Hall _]. by vm_compute in Hall. }
  destruct Hres as (cs1 & s & cs2 & m' & Heq & _ & _ & Hrun & Hok & _).
  unfold demo_busy. rewrite Hrun. apply demo_split in Heq as (-> & -> & ->). exact Hok.
Qed.

Lemma demo_busy_behind : mapped 4592 4656 (words demo_busy).
Proof.
  assert (Forall (λ i, is_Some (words demo_busy !! (4592 + 4 * i))) (seqZ 0 16)) as Hall by by_decide.
  intros w Hw Hw4. rewrite Forall_forall in Hall.
  replace w with (4592 + 4 * ((w - 4592) / 4)) by (Z.div_mod_to_equations; lia).
  apply Hall, elem_of_seqZ. Z.div_mod_to_equations. lia.
Qed.

(** Two blocks, the first of which is free again. *)
Definition demo_two : mm_heap_s :=
  match mm_malloc 1024 40 demo_busy with Some (_, h) => h | None => demo end.
Definition demo_gap : mm_heap_s :=
  match mm_free 1024 4128 demo_two with Some (_, h) => h | None => demo end.

Lemma demo_split2 cs1 s cs2 :
  [(8, true); (48, true); (416, false); (8, true)] = cs1 ++ (s, false) :: cs2 →
  cs1 = [(8, true); (48, true)] ∧ s = 416 ∧ cs2 = [(8, true)].
Proof.
  intros Heq. destruct cs1 as [|c1 cs1]; [done|]. injection Heq as <- Heq.
  destruct cs1 as [|c2 cs1]; [done|]. injection Heq as <- Heq.
  destruct cs1 as [|c3 cs1]; [by injection Heq as -> ->|]. injection Heq as _ Heq.
  destruct cs1 as [|c4 cs1]; [done|]. injection Heq as _ Heq. by destruct cs1.
Qed.

Lemma demo_two_ok :
  heap_ok 1024 4112 4592 demo_two [(8, true); (48, true); (48, true); (368, false); (8, true)].
Proof.
  destruct (malloc_ok _ _ _ demo_geo demo_busy _ 40 demo_busy_ok ltac:(lia)) as [[Hall _]|Hres].
  { apply Forall_cons in Hall as [Hall _]. by vm_compute in Hall. }
  destruct Hres as (cs1 & s & cs2 & m' & Heq & _ & _ & Hrun & Hok & _).
  unfold demo_two. rewrite Hrun. apply demo_split2 in Heq as (-> & -> & ->). exact Hok.
Qed.

(** The neighbours of the first block are allocated. *)
Lemma demo_joins q1 p1 n1 q2 :
  [(8, true)] = q1 ++ p1 → [(48, true); (368, false); (8, true)] = n1 ++ q2 →
  Forall (λ c : chunk, c.2 = false) (p1 ++ n1) →
  q1 = [(8, true)] ∧ p1 = [] ∧ n1 = [] ∧ q2 = [(48, true); (368, false); (8, true)].
Proof.
  intros Hf Hb [Hp Hn]%Forall_app.
  destruct n1 as [|c n1]; [|injection Hb as <- _; by apply Forall_cons in Hn as [[=] _]].
  destruct q1 as [|c q1]; [simpl in Hf; subst p1; by apply Forall_cons in Hp as [[=] _]|].
  injection Hf as <- Hf. symmetry in Hf. by apply app_eq_nil in Hf as [-> ->].
Qed.

Lemma demo_gap_ok :
  heap_ok 1024 4112 4592 demo_gap [(8, true); (48, false); (48, true); (368, false); (8, true)].
Proof.
  destruct (free_ok _ _ _ demo_geo demo_two [(8, true)] 48 [(48, true); (368, false); (8, true)] demo_two_ok)
    as (q1 & p1 & n1 & q2 & m' & Hf & Hb & Hpn & Hrun & Hok & _); [discriminate..|].
  change (4112 + span [(8, true)] + 8) with 4128 in Hrun. unfold demo_gap. rewrite Hrun.
  destruct (demo_joins _ _ _ _ Hf Hb Hpn) as (-> & -> & -> & ->). exact Hok.
Qed.

Definition demo_ops : list alloc_op :=
  [OMalloc 40; OMalloc 60; OStore 0 2 77; OStore 1 0 88; OFree 1; OMalloc 10; OMalloc 4000].

Lemma heap_history_safe_witness :
  ∃ h1 h2 bs, mm_initialize 1024 4100 500 demo = Some (tt, h1) ∧
    alloc_run (H := heap_ops 1024) demo_ops (h1, []) = Some (h2, bs) ∧
    (∀ i j b b', bs.*1 !! i = Some b → bs.*1 !! j = Some b' → i ≠ j → disjoint_blocks b b') ∧
    (∀ b c, (b, c) ∈ bs → b.1 mod 16 = 0 ∧ 4112 ≤ b.1 ∧ b.1 + b.2 ≤ 4592 ∧
       ∀ i v, c !! i = Some v → words h2 !! (b.1 + 4 * i) = Some v) ∧
    ∃ cs, heap_ok 1024 4112 4592 h2 cs.
Proof.
  apply (heap_history_safe 1024 4100 500 demo demo_ops); [apply demo_startable|].
  repeat (apply Forall_cons; split; [simpl; lia || done|]). by constructor.
Defined.

Lemma mm_malloc_best_fit_witness :
  (Forall (λ e, e.2 < 48) (free_of 4112 [(8, true); (464, false); (8, true)]) ∧
   mm_malloc 1024 40 demo_heap = Some (0, demo_heap)) ∨
  ∃ cs1 s cs2 h', [(8, true); (464, false); (8, true)] = cs1 ++ (s, false) :: cs2 ∧ 48 ≤ s ∧
    Forall (λ e, 48 ≤ e.2 → s ≤ e.2) (free_of 4112 [(8, true); (464, false); (8, true)]) ∧
    mm_malloc 1024 40 demo_heap = Some (4112 + span cs1 + 8, h') ∧
    heap_ok 1024 4112 4592 h' (cs1 ++ alloc_split s 48 ++ cs2) ∧
    ∀ w, data 4112 [(8, true); (464, false); (8, true)] w → words h' !! w = words demo_heap !! w.
Proof.
  apply (mm_malloc_best_fit 1024 4112 4592 demo_heap _ 40 demo_geo (proj1 demo_heap_ok)). lia.
Defined.

Lemma mm_malloc_free_roundtrip_witness :
  ∃ h2, mm_free 1024 4128 demo_busy = Some (tt, h2) ∧
    heap_ok 1024 4112 4592 h2 [(8, true); (464, false); (8, true)] ∧
    ∀ w, data 4112 [(8, true); (464, false); (8, true)] w → words h2 !! w = words demo_heap !! w.
Proof.
  apply (mm_malloc_free_roundtrip 1024 4112 4592 demo_heap _ 40 4128 demo_busy demo_geo (proj1 demo_heap_ok));
    [lia|by vm_compute|lia].
Defined.

Lemma mm_mallinfo_accounts_witness :
  ∃ i, mm_mallinfo demo_heap = Some (i, demo_heap) ∧ arena i = mm_heapsize demo_heap ∧
    uordblks i + fordblks i = arena i ∧ ordblks i = 1 ∧ mxordblk i = 464 ∧ fordblks i = 464 ∧ uordblks i = 16.
Proof.
  apply (mm_mallinfo_accounts 1024 4112 4592 demo_heap _ demo_geo (proj1 demo_heap_ok)). by vm_compute.
Defined.

Lemma mm_realloc_moves_witness :
  let cs := [(8, true); (48, false); (48, true); (368, false); (8, true)] in
  (Forall (λ e, e.2 < chunk_size 440) (free_of 4112 cs) ∧ mm_realloc 1024 4176 440 demo_gap = Some (0, demo_gap)) ∨
  ∃ A' y cs' h', mm_realloc 1024 4176 440 demo_gap = Some (A' + 8, h') ∧ A' + 8 ≠ 0 ∧
    heap_ok 1024 4112 4592 h' cs' ∧ 440 + 8 ≤ y ∧ y = 448 ∧ chunk_at 4112 cs' A' y true ∧
    (∃ R, alloc_of 4112 cs ≡ₚ (4168, 48) :: R ∧ alloc_of 4112 cs' ≡ₚ (A', y) :: R) ∧
    (∀ i, 0 ≤ i → 4 * i + 4 ≤ 48 - 8 → 4 * i + 4 ≤ y - 8 →
       words h' !! (A' + 8 + 4 * i) = words demo_gap !! (4168 + 8 + 4 * i)) ∧
    (∀ a sz, chunk_at 4112 cs a sz true → a ≠ 4168 → a ≠ A' ∧ chunk_at 4112 cs' a sz true ∧
       ∀ w, a + 8 ≤ w < a + sz → words h' !! w = words demo_gap !! w).
Proof.
  apply (mm_realloc_moves 1024 4112 4592 demo_gap [(8, true); (48, false)] 48 [(368, false); (8, true)] 440
    demo_geo demo_gap_ok); [done|done|intros w [Hlo Hhi]; change (w < 4264) in Hhi; lia|lia].
Defined.

(** There the block grows into both neighbours. *)
Example mm_realloc_both : fst <$> mm_realloc 1024 4176 440 demo_gap = Some 4128.
Proof. by vm_compute. Qed.

Lemma mm_memalign_aligns_witness :
  let cs := [(8, true); (48, true); (416, false); (8, true)] in
  (Forall (λ e, e.2 < chunk_size (16 * ((24 + 15) / 16) + 2 * 64)) (free_of 4112 cs) ∧
   mm_memalign 1024 64 24 demo_busy = Some (0, demo_busy)) ∨
  ∃ A y cs' h', mm_memalign 1024 64 24 demo_busy = Some (A + 8, h') ∧ A + 8 ≠ 0 ∧
    (A + 8) mod 64 = 0 ∧ heap_ok 1024 4112 4592 h' cs' ∧ chunk_at 4112 cs' A y true ∧
    24 + 8 ≤ y < 24 + 32 ∧ alloc_of 4112 cs' ≡ₚ (A, y) :: alloc_of 4112 cs ∧
    (∀ a sz, chunk_at 4112 cs a sz true → a ≠ A ∧ chunk_at 4112 cs' a sz true ∧
       ∀ w, a + 8 ≤ w < a + sz → words h' !! w = words demo_busy !! w).
Proof.
  apply (mm_memalign_aligns 1024 4112 4592 demo_busy _ 6 24 demo_geo demo_busy_ok); lia.
Defined.

Lemma mm_calloc_zeroes_witness :
  let cs := [(8, true); (48, true); (416, false); (8, true)] in
  (Forall (λ e, e.2 < chunk_size (7 * 3)) (free_of 4112 cs) ∧ mm_calloc 1024 7 3 demo_busy = Some (0, demo_busy)) ∨
  ∃ A y cs' h', mm_calloc 1024 7 3 demo_busy = Some (A + 8, h') ∧ A + 8 ≠ 0 ∧
    heap_ok 1024 4112 4592 h' cs' ∧ chunk_at 4112 cs' A y true ∧ 7 * 3 + 8 ≤ y ∧
    (∀ i, 0 ≤ i → 4 * i + 4 ≤ 7 * 3 → words h' !! (A + 8 + 4 * i) = Some 0) ∧
    ((7 * 3) mod 4 ≠ 0 → ∃ v, words h' !! (A + 8 + 4 * (7 * 3 / 4)) = Some v ∧
       v mod 2 ^ (8 * ((7 * 3) mod 4)) = 0) ∧
    (∀ a sz, chunk_at 4112 cs a sz true → a ≠ A ∧ chunk_at 4112 cs' a sz true ∧
       ∀ w, a + 8 ≤ w < a + sz → words h' !! w = words demo_busy !! w).
Proof.
  apply (mm_calloc_zeroes 1024 4112 4592 demo_busy _ 7 3 demo_geo demo_busy_ok); lia.
Defined.

Lemma mm_extend_grows_witness :
  ∃ q1 p1 h', mm_extend 1024 4592 64 0 demo_busy = Some (tt, h') ∧
    [(8, true); (48, true); (416, false)] = q1 ++ p1 ∧ Forall (λ c, c.2 = false) p1 ∧
    heap_ok 1024 4112 (4592 + 64) h' (q1 ++ [(span p1 + 64, false); (8, true)]) ∧
    mm_heapend h' = 4592 + 64 - 8 ∧
    ∀ w, data 4112 (q1 ++ [(span p1 + 64, false); (8, true)]) w → words h' !! w = words demo_busy !! w.
Proof.
  apply (mm_extend_grows 1024 4112 4592 demo_busy [(8, true); (48, true); (416, false)] 64 demo_geo);
    [split; split_and?; (done || lia)|apply demo_busy_ok|done|lia|done|lia|].
  apply demo_busy_behind.
Defined.

(** ** Flaws *)

(** A request near the largest size_t wraps around: without assertions it gets a
    block of 8 bytes; so does mm_calloc when the product overflows. *)
Example mm_malloc_wraps :
  let c := release_config in
  fst <$> mm_malloc 1024 4294967295 demo_heap = Some 4128 ∧
  fst <$> (p ← mm_malloc 1024 4294967295; get (p - 8) fsize) demo_heap = Some 16 ∧
  fst <$> (p ← mm_calloc 1024 268435457 16; get (p - 8) fsize) demo_heap = Some 32.
Proof. by vm_compute. Qed.

(** After mm_extend the total of the heap is out of date, and the assertion of
    mm_mallinfo fails. *)
Example mm_extend_mallinfo :
  (mm_extend 1024 4592 64 0;; mm_mallinfo) demo_heap = None ∧
  fst <$> mm_extend 1024 4592 64 0 demo_heap = Some tt.
Proof. by vm_compute. Qed.

(** Growing into the previous chunk reads behind the end of the heap. *)
Definition tight (n : nat) : mm_heap_s := mk_heap 0 0 0 (ram 1024 76 ∪ ram 4112 n).

Example mm_realloc_overreads :
  let run n size := (mm_initialize 1024 4112 480;; a ← mm_malloc 1024 200; b ← mm_malloc 1024 248;
                     mm_free 1024 a;; mm_realloc 1024 b size) (tight n) in
  fst <$> run 120%nat 248 = Some 4336 ∧ run 120%nat 250 = None ∧ fst <$> run 124%nat 250 = Some 4320.
Proof. by vm_compute. Qed.
