(* ===== verification/Gran.v ===== *)
(** * Gran: the granule and page allocators (mm/mm_gran)

    Memory is divided into granules of equal size; a table of words, the GAT, has one
    bit per granule, set when the granule is allocated.  Requests are of up to 32
    consecutive granules, which may lie in two words of the table.  The page allocator
    is a granule allocator whose granules are pages.

    The state is the handle: NULL or the structure with its table.  Reading or writing
    outside of the table is [None], but for the one read behind the end of the table that
    [gran_alloc] makes: it finds [behind].  The integers are those of a 32-bit machine; a
    shift by 32 or more is undefined and [None].  The critical section of each operation
    (mm_grancritical.c) makes it atomic. *)

From S2P Require Import Prelude.
Local Open Scope Z_scope.

(** ** Data: mm_gran.h *)

Definition SIZEOF_GAT (n : Z) : Z := Z.shiftr (u32 (n + 31)) 5.

(** [behind] is not a member of the structure: it is the word of memory behind it. *)
Record gran_s := mk_gran {
  log2gran : Z;
  gs_ngranules : Z;
  heapstart : Z;
  gat : list Z;
  behind : Z;
}.

Abbreviation GRAN_HANDLE := (option gran_s).

Definition set_gat (l : list Z) (g : gran_s) : gran_s :=
  mk_gran (log2gran g) (gs_ngranules g) (heapstart g) l (behind g).

Definition ALL_ONES : Z := 4294967295.

(** [0xffffffff >> n] *)
Definition ones_shr (n : Z) : option Z :=
  if (0 <=? n) && (n <? 32) then Some (Z.shiftr ALL_ONES n) else None.

(** [priv->...]; the handle must not be NULL. *)
Definition priv : K GRAN_HANDLE gran_s := kget (λ h, h).
Definition gat_get (i : Z) : K GRAN_HANDLE Z := kget (λ h, g ← h; gat g !! Z.to_nat i).
Definition gat_put (i v : Z) : K GRAN_HANDLE unit :=
  kput (λ h, g ← h; _ ← gat g !! Z.to_nat i; Some (Some (set_gat (<[Z.to_nat i := v]> (gat g)) g))).

(** The largest request, for the assertions. *)
Definition max_request (g : gran_s) : Z := u32 (32 * Z.shiftl 1 (log2gran g)).

(** The number of granules that [size] bytes need. *)
Definition granules_of (g : gran_s) (size : Z) : Z :=
  let mask := u32 (Z.shiftl 1 (log2gran g) - 1) in
  Z.shiftr (u32 (size + mask)) (log2gran g).

Section gran.
Context `{Config}.

(** ** Operations *)

(** mm_granmark.c *)
Definition gran_mark_allocated (alloc ngranules : Z) : K GRAN_HANDLE unit :=
  g ← priv;
  let granno := Z.shiftr (u32 (alloc - heapstart g)) (log2gran g) in
  let gatidx := Z.shiftr granno 5 in
  let gatbit := Z.land granno 31 in
  let avail := 32 - gatbit in
  if avail <? ngranules then
    let gatmask := u32 (Z.shiftl ALL_ONES gatbit) in
    v ← gat_get gatidx;
    kassert (Z.land v gatmask =? 0);;
    gat_put gatidx (Z.lor v gatmask);;
    let ngranules := ngranules - avail in
    gatmask ← klift (ones_shr (32 - ngranules));
    v ← gat_get (gatidx + 1);
    kassert (Z.land v gatmask =? 0);;
    gat_put (gatidx + 1) (Z.lor v gatmask)
  else
    gatmask ← klift (ones_shr (32 - ngranules));
    let gatmask := u32 (Z.shiftl gatmask gatbit) in
    v ← gat_get gatidx;
    kassert (Z.land v gatmask =? 0);;
    gat_put gatidx (Z.lor v gatmask).

(** mm_granfree.c *)
Definition gran_free (memory size : Z) : K GRAN_HANDLE unit :=
  h ← kget Some;
  kassert (match h with Some g => negb (memory =? 0) && (size <=? max_request g) | None => false end);;
  g ← priv;
  let granno := Z.shiftr (u32 (memory - heapstart g)) (log2gran g) in
  let gatidx := Z.shiftr granno 5 in
  let gatbit := Z.land granno 31 in
  let ngranules := granules_of g size in
  let avail := 32 - gatbit in
  if avail <? ngranules then
    let gatmask := u32 (Z.shiftl ALL_ONES gatbit) in
    v ← gat_get gatidx;
    kassert (Z.land v gatmask =? gatmask);;
    gat_put gatidx (Z.land v (Z.lnot gatmask));;
    let ngranules := ngranules - avail in
    gatmask ← klift (ones_shr (32 - ngranules));
    v ← gat_get (gatidx + 1);
    kassert (Z.land v gatmask =? gatmask);;
    gat_put (gatidx + 1) (Z.land v (Z.lnot gatmask))
  else
    gatmask ← klift (ones_shr (32 - ngranules));
    let gatmask := u32 (Z.shiftl gatmask gatbit) in
    v ← gat_get gatidx;
    kassert (Z.land v gatmask =? gatmask);;
    gat_put gatidx (Z.land v (Z.lnot gatmask)).

(** mm_granalloc.c: the loop over the bits of one entry (lines 150-248).  The result is
    whether the granules at [alloc] are free; when they are not, [alloc] is where the
    loop has got to. *)
Fixpoint gran_scan (fuel : nat) (g : gran_s) (ngranules mask granidx alloc curr next bitidx : Z)
    : option (bool * Z) :=
  match fuel with
  | O => None
  | S fuel =>
      let shift_by shift :=
        gran_scan fuel g ngranules mask granidx (u32 (alloc + Z.shiftl shift (log2gran g)))
          (Z.lor (Z.shiftr curr shift) (u32 (Z.shiftl next (32 - shift))))
          (Z.shiftr next shift) (bitidx + shift) in
      if (bitidx <? 32) && (u32 (granidx + bitidx + ngranules) <=? gs_ngranules g) then
        if curr =? ALL_ONES then Some (false, alloc)
        else if Z.land curr 65535 =? 65535 then shift_by 16
        else if Z.land curr 255 =? 255 then shift_by 8
        else if Z.land curr 15 =? 15 then shift_by 4
        else if Z.land curr 3 =? 3 then shift_by 2
        else if Z.land curr mask =? 0 then Some (true, alloc)
        else shift_by 1
      else Some (false, alloc)
  end.

(** The loop over the entries (lines 110-249).  The second test of [granidx] is the one
    of the loop again, so that the entry behind the last one is read. *)
Fixpoint gran_search (fuel : nat) (g : gran_s) (ngranules mask granidx alloc : Z)
    : option (option Z) :=
  match fuel with
  | O => None
  | S fuel =>
      if granidx <? gs_ngranules g then
        let gatidx := Z.shiftr granidx 5 in
        curr ← gat g !! Z.to_nat gatidx;
        if curr =? ALL_ONES then
          gran_search fuel g ngranules mask (granidx + 32) (u32 (alloc + Z.shiftl 32 (log2gran g)))
        else
          next ← (if granidx <? gs_ngranules g
                  then (gat g ++ [behind g]) !! Z.to_nat (gatidx + 1) else Some ALL_ONES);
          '(found, alloc) ← gran_scan 33 g ngranules mask granidx alloc curr next 0;
          if (found : bool) then Some (Some alloc)
          else gran_search fuel g ngranules mask (granidx + 32) alloc
      else Some None
  end.

Definition gran_alloc (size : Z) : K GRAN_HANDLE Z :=
  h ← kget Some;
  kassert (match h with Some g => size <=? max_request g | None => false end);;
  match h with
  | Some g =>
      if 0 <? size then
        let ngranules := granules_of g size in
        kassert (ngranules <=? 32);;
        mask ← klift (ones_shr (32 - ngranules));
        r ← klift (gran_search (S (length (gat g))) g ngranules mask 0 (heapstart g));
        match r with
        | Some alloc => gran_mark_allocated alloc ngranules;; mret alloc
        | None => mret 0
        end
      else mret 0
  | None => mret 0
  end.

(** mm_granreserve.c *)
Definition gran_reserve (start size : Z) : K GRAN_HANDLE unit :=
  h ← kget Some;
  kassert (bool_decide (is_Some h));;
  kwhen (0 <? size)
    (g ← priv;
     let mask := u32 (Z.shiftl 1 (log2gran g) - 1) in
     let end_ := u32 (start + size - 1) in
     let start := Z.land start (Z.lnot mask) in
     let end_ := Z.land (u32 (end_ + mask)) (Z.lnot mask) in
     let ngranules := Z.shiftr (u32 (end_ - start)) (log2gran g) + 1 in
     gran_mark_allocated start ngranules).

(** mm_graninit.c.  [zalloc] says whether [kmm_zalloc] has memory of that size, and what
    the word behind it is. *)
Definition gran_initialize (zalloc : Z → option Z) (start heapsize log2gran log2align : Z)
    : option GRAN_HANDLE :=
  DEBUGASSERT (negb (start =? 0) && (0 <? heapsize) && (0 <? log2gran) && (log2gran <? 32) &&
               (log2align <=? log2gran));;
  let mask := u32 (Z.shiftl 1 log2align - 1) in
  let alignedstart := Z.land (u32 (start + mask)) (Z.lnot mask) in
  let mask := u32 (Z.shiftl 1 log2gran - 1) in
  let heapend := u32 (start + heapsize) in
  let alignedsize := Z.land (u32 (heapend - alignedstart)) (Z.lnot mask) in
  let ngranules := Z.shiftr alignedsize log2gran in
  match zalloc (16 + 4 * (SIZEOF_GAT ngranules - 1)) with
  | Some b => Some (Some (mk_gran log2gran (u16 ngranules) alignedstart
                            (replicate (Z.to_nat (SIZEOF_GAT ngranules)) 0) b))
  | None => Some None
  end.

(** ** What is free: mm_graninfo.c *)

(** [struct nibble_info_s] and [struct valinfo_s] have the same members. *)
Record valinfo_s := mk_valinfo { nfree : Z; nlsfree : Z; nmsfree : Z; mxfree : Z }.

Definition g_0bit_info : list valinfo_s := [mk_valinfo 0 0 0 0].
Definition g_1bit_info : list valinfo_s := [mk_valinfo 1 1 0 1; mk_valinfo 0 0 0 0].
Definition g_2bit_info : list valinfo_s :=
  [mk_valinfo 2 2 0 0; mk_valinfo 1 0 1 0; mk_valinfo 1 1 0 0; mk_valinfo 0 0 0 0].
Definition g_3bit_info : list valinfo_s :=
  [mk_valinfo 3 3 0 0; mk_valinfo 2 0 2 0; mk_valinfo 2 1 1 0; mk_valinfo 1 0 1 0;
   mk_valinfo 2 2 0 0; mk_valinfo 1 0 0 1; mk_valinfo 1 1 0 0; mk_valinfo 0 0 0 0].
Definition g_4bit_info : list valinfo_s :=
  [mk_valinfo 4 4 0 0; mk_valinfo 3 0 3 0; mk_valinfo 3 1 2 0; mk_valinfo 2 0 2 0;
   mk_valinfo 3 2 1 0; mk_valinfo 2 0 1 1; mk_valinfo 2 1 1 0; mk_valinfo 1 0 1 0;
   mk_valinfo 3 3 0 0; mk_valinfo 2 0 0 2; mk_valinfo 2 1 0 1; mk_valinfo 1 0 0 1;
   mk_valinfo 2 2 0 0; mk_valinfo 1 0 0 1; mk_valinfo 1 1 0 0; mk_valinfo 0 0 0 0].
Definition g_info_table : list (list valinfo_s) :=
  [g_0bit_info; g_1bit_info; g_2bit_info; g_3bit_info; g_4bit_info].

Definition gran_nibble_info (value nbits : Z) : option valinfo_s :=
  table ← g_info_table !! Z.to_nat nbits;
  let mask := u8 (Z.shiftl 1 nbits - 1) in
  table !! Z.to_nat (Z.land value mask).

(** The result is the new contents of [lsinfo]; its members are bytes. *)
Definition gran_info_combine (msinfo : valinfo_s) (msbits : Z) (lsinfo : valinfo_s) (lsbits : Z)
    : valinfo_s :=
  let midfree :=
    if (nlsfree lsinfo <? lsbits) && (nlsfree msinfo <? msbits)
    then nmsfree lsinfo + nlsfree msinfo else 0 in
  let nmsfree' :=
    if nlsfree msinfo =? msbits then
      if nlsfree lsinfo =? lsbits then 0 else u8 (nmsfree lsinfo + msbits)
    else nmsfree msinfo in
  let nlsfree' :=
    if nlsfree lsinfo =? lsbits then u8 (nlsfree lsinfo + nlsfree msinfo) else nlsfree lsinfo in
  let mx := if mxfree lsinfo <? midfree then u8 midfree else mxfree lsinfo in
  let mx := if mx <? mxfree msinfo then mxfree msinfo else mx in
  mk_valinfo (u8 (nfree lsinfo + nfree msinfo)) nlsfree' nmsfree' mx.

Definition gran_byte_info (value nbits : Z) : option valinfo_s :=
  let '(mask, value) :=
    if nbits <? 8 then let mask := u16 (Z.shiftl 1 nbits - 1) in (mask, Z.land value mask)
    else (255, value) in
  if value =? 0 then Some (mk_valinfo (u8 nbits) (u8 nbits) 0 0)
  else if value =? mask then Some (mk_valinfo 0 0 0 0)
  else
    info ← gran_nibble_info (Z.land value 15) (if 4 <? nbits then 4 else nbits);
    if 4 <? nbits then
      let msbits := nbits - 4 in
      msinfo ← gran_nibble_info (Z.shiftr value 4) msbits;
      Some (gran_info_combine msinfo msbits info 4)
    else Some info.

Definition gran_hword_info (value nbits : Z) : option valinfo_s :=
  let '(mask, value) :=
    if nbits <? 16 then let mask := u16 (Z.shiftl 1 nbits - 1) in (mask, Z.land value mask)
    else (65535, value) in
  if value =? 0 then Some (mk_valinfo (u8 nbits) (u8 nbits) 0 0)
  else if value =? mask then Some (mk_valinfo 0 0 0 0)
  else
    info ← gran_byte_info (Z.land value 255) (if 8 <? nbits then 8 else nbits);
    if 8 <? nbits then
      let msbits := nbits - 8 in
      msinfo ← gran_byte_info (u8 (Z.shiftr value 8)) msbits;
      Some (gran_info_combine msinfo msbits info 8)
    else Some info.

(** gran.h: [struct graninfo_s] *)
Record graninfo_s := mk_graninfo { gi_log2gran : Z; gi_ngranules : Z; gi_nfree : Z; gi_mxfree : Z }.

(** One entry of the table (lines 481-557): the number of free granules, the longest
    sequence so far and the one that may go on in the next entry. *)
Definition gran_info_entry (value mask nbits : Z) (nf mx run : Z) : option (Z * Z * Z) :=
  if value =? mask then Some (nf, if mx <? run then run else mx, 0)
  else if value =? 0 then Some (u16 (nf + nbits), mx, u16 (run + nbits))
  else
    hwinfo ← gran_hword_info (Z.land value 65535) (if 16 <? nbits then 16 else nbits);
    hwinfo ← (if 16 <? nbits then
                let msbits := nbits - 16 in
                msinfo ← gran_hword_info (u16 (Z.shiftr value 16)) msbits;
                Some (gran_info_combine msinfo msbits hwinfo 16)
              else Some hwinfo);
    let run := if 0 <? nlsfree hwinfo then u16 (run + nlsfree hwinfo) else run in
    let '(mx, run) :=
      if nlsfree hwinfo <? nbits then
        let run := if run <? mxfree hwinfo then mxfree hwinfo else run in
        (if mx <? run then run else mx, nmsfree hwinfo)
      else (mx, run) in
    Some (u16 (nf + nfree hwinfo), mx, run).

Fixpoint gran_info_loop (fuel : nat) (g : gran_s) (granidx nf mx run : Z) : option (Z * Z * Z) :=
  match fuel with
  | O => None
  | S fuel =>
      if granidx <? gs_ngranules g then
        value ← gat g !! Z.to_nat (Z.shiftr granidx 5);
        '(nbits, mask, value) ←
          (if gs_ngranules g <=? granidx + 32 then
             let nbits := gs_ngranules g - granidx in
             if nbits <? 32 then
               let mask := u32 (Z.shiftl 1 nbits - 1) in Some (nbits, mask, Z.land value mask)
             else None
           else Some (32, ALL_ONES, value));
        '(nf, mx, run) ← gran_info_entry value mask nbits nf mx run;
        gran_info_loop fuel g (granidx + 32) nf mx run
      else Some (nf, mx, run)
  end.

Definition gran_info : K GRAN_HANDLE graninfo_s :=
  h ← kget Some;
  kassert (bool_decide (is_Some h));;
  g ← priv;
  '(nf, mx, run) ← klift (gran_info_loop (S (length (gat g))) g 0 0 0 0);
  mret (mk_graninfo (log2gran g) (gs_ngranules g) nf (if mx <? run then run else mx)).

(** ** Pages: mm_pgalloc.c *)

Context (MM_PGSHIFT : Z).

(** The assertion names a variable that does not exist, so that this is the code that
    compiles without assertions; the state is [g_pgalloc]. *)
Definition mm_pginitialize (zalloc : Z → option Z) (heap_start heap_size : Z) : K GRAN_HANDLE unit :=
  h ← klift (gran_initialize zalloc heap_start heap_size MM_PGSHIFT MM_PGSHIFT);
  kput (λ _, Some h).

Definition mm_pgreserve (start size : Z) : K GRAN_HANDLE unit := gran_reserve start size.

(** The number of pages is not used. *)
Definition mm_pgalloc (npages : Z) : K GRAN_HANDLE Z := gran_alloc (Z.shiftl 1 MM_PGSHIFT).

Definition mm_pgfree (paddr npages : Z) : K GRAN_HANDLE unit :=
  gran_free paddr (u32 (Z.shiftl npages MM_PGSHIFT)).

(** pgalloc.h: [struct pginfo_s] *)
Record pginfo_s := mk_pginfo { ntotal : Z; pg_nfree : Z; pg_mxfree : Z }.

Definition mm_pginfo : K GRAN_HANDLE pginfo_s :=
  info ← gran_info;
  mret (mk_pginfo (gi_ngranules info) (gi_nfree info) (gi_mxfree info)).
End gran.
