(* ===== verification/GranSpec.v ===== *)
(** * GranSpec: granules as bits

    The granule allocation table as one sequence of bits; well-formed allocators; what
    marking and clearing a range of granules does to the bits. *)

From S2P Require Import Prelude Gran.
Local Open Scope Z_scope.

(** ** Bits of the table *)

(** Granule [j]; [true] is allocated. *)
Definition bit (l : list Z) (j : Z) : bool :=
  Z.testbit (default 0 (l !! Z.to_nat (j / 32))) (j mod 32).

(** All granules. *)
Definition granules (g : gran_s) : list bool := bit (gat g) <$> seqZ 0 (gs_ngranules g).

Definition u32_ok (w : Z) : Prop := 0 ≤ w < 4294967296.

(** The size of a granule. *)
Abbreviation gsize g := (2 ^ log2gran g).

Record gran_ok (g : gran_s) : Prop := {
  go_log2 : 0 ≤ log2gran g ≤ 26;
  go_ngranules : 0 ≤ gs_ngranules g < 65536;
  go_gat : Z.of_nat (length (gat g)) = (gs_ngranules g + 31) / 32;
  go_words : Forall u32_ok (gat g);
  go_behind : u32_ok (behind g);
  go_start : 0 < heapstart g < 4294967296;
  go_end : heapstart g + gs_ngranules g * gsize g ≤ 4294967296;
}.

Lemma testbit_high w k : u32_ok w → 32 ≤ k → Z.testbit w k = false.
Proof.
  intros [H0 H1] Hk. destruct (decide (w = 0)) as [->|]; [apply Z.bits_0|].
  apply Z.bits_above_log2; [lia|]. apply Z.log2_lt_pow2; [lia|].
  eapply Z.lt_le_trans; [exact H1|]. change 4294967296 with (2 ^ 32). by apply Z.pow_le_mono_r.
Qed.

(** Words are equal when their bits are. *)
Lemma word_ext v w :
  u32_ok v → u32_ok w → (∀ k, 0 ≤ k < 32 → Z.testbit v k = Z.testbit w k) → v = w.
Proof.
  intros Hv Hw Hk. apply Z.bits_inj'. intros k H0.
  destruct (decide (k < 32)); [apply Hk; lia|]. by rewrite !testbit_high by (done || lia).
Qed.

Lemma u32_bits x k : 0 ≤ k → Z.testbit (u32 x) k = (k <? 32) && Z.testbit x k.
Proof.
  intros H0. unfold wrap_u. destruct (Z.ltb_spec k 32) as [Hk|Hk].
  - by rewrite Z.mod_pow2_bits_low.
  - by rewrite Z.mod_pow2_bits_high by lia.
Qed.

Lemma u32_u32_ok x : u32_ok (u32 x).
Proof. unfold u32_ok, wrap_u. apply (Z.mod_pos_bound x (2 ^ 32)). lia. Qed.

Lemma u32_ok_bound w : 0 ≤ w → (∀ k, 32 ≤ k → Z.testbit w k = false) → u32_ok w.
Proof.
  intros H0 Hk. split; [done|]. destruct (decide (w = 0)) as [->|Hne]; [lia|].
  change 4294967296 with (2 ^ 32). apply Z.log2_lt_pow2; [lia|].
  destruct (decide (Z.log2 w < 32)); [done|]. exfalso.
  specialize (Hk (Z.log2 w) ltac:(lia)). rewrite Z.bit_log2 in Hk by lia. done.
Qed.

Lemma lor_u32_ok v w : u32_ok v → u32_ok w → u32_ok (Z.lor v w).
Proof.
  intros Hv Hw. apply u32_ok_bound; [apply Z.lor_nonneg; split; [apply Hv|apply Hw]|].
  intros k Hk. by rewrite Z.lor_spec, !testbit_high by done.
Qed.

Lemma land_u32_ok v w : u32_ok v → u32_ok (Z.land v w).
Proof.
  intros Hv. apply u32_ok_bound; [apply Z.land_nonneg; left; apply Hv|].
  intros k Hk. by rewrite Z.land_spec, testbit_high by done.
Qed.

Lemma shiftr_u32_ok v s : u32_ok v → 0 ≤ s → u32_ok (Z.shiftr v s).
Proof.
  intros Hv Hs. apply u32_ok_bound; [apply Z.shiftr_nonneg, Hv|].
  intros k Hk. rewrite Z.shiftr_spec by lia. apply testbit_high; [done|lia].
Qed.

Lemma land_eq_0 v m : Z.land v m = 0 ↔ ∀ k, 0 ≤ k → Z.testbit m k = true → Z.testbit v k = false.
Proof.
  split.
  - intros Heq k Hk Hm. apply (f_equal (λ z, Z.testbit z k)) in Heq.
    by rewrite Z.land_spec, Hm, Z.bits_0, andb_true_r in Heq.
  - intros Hk. apply Z.bits_inj'. intros k H0. rewrite Z.land_spec, Z.bits_0.
    destruct (Z.testbit m k) eqn:Hm; [by rewrite Hk|by rewrite andb_false_r].
Qed.

Lemma land_eq_mask v m : Z.land v m = m ↔ ∀ k, 0 ≤ k → Z.testbit m k = true → Z.testbit v k = true.
Proof.
  split.
  - intros Heq k Hk Hm. apply (f_equal (λ z, Z.testbit z k)) in Heq.
    by rewrite Z.land_spec, Hm, andb_true_r in Heq.
  - intros Hk. apply Z.bits_inj'. intros k H0. rewrite Z.land_spec.
    destruct (Z.testbit m k) eqn:Hm; [by rewrite Hk|by rewrite andb_false_r].
Qed.

Lemma ones_bits n k : 0 ≤ n → 0 ≤ k → Z.testbit (Z.ones n) k = (k <? n).
Proof.
  intros Hn Hk. destruct (Z.ltb_spec k n).
  - by apply Z.ones_spec_low.
  - by apply Z.ones_spec_high.
Qed.

Lemma ones_u32_ok n : 0 ≤ n ≤ 32 → u32_ok (Z.ones n).
Proof.
  intros Hn. apply u32_ok_bound; [rewrite Z.ones_equiv; pose proof (Z.pow_pos_nonneg 2 n); lia|].
  intros k Hk. rewrite ones_bits by lia. apply Z.ltb_ge. lia.
Qed.

Lemma all_ones_bits k : 0 ≤ k → Z.testbit ALL_ONES k = (k <? 32).
Proof. intros. change ALL_ONES with (Z.ones 32). by apply ones_bits. Qed.

Lemma ones_shr_ok n : 1 ≤ n ≤ 32 → ones_shr (32 - n) = Some (Z.ones n).
Proof.
  intros Hn. unfold ones_shr. rewrite (proj2 (Z.leb_le _ _)), (proj2 (Z.ltb_lt _ _)) by lia. simpl. f_equal.
  apply Z.bits_inj'. intros k Hk. rewrite Z.shiftr_spec, all_ones_bits, ones_bits by lia.
  destruct (Z.ltb_spec (k + (32 - n)) 32), (Z.ltb_spec k n); lia || done.
Qed.

(** The bits of the words with an entry replaced. *)
Lemma bit_insert l i v j :
  0 ≤ i < Z.of_nat (length l) → 0 ≤ j →
  bit (<[Z.to_nat i := v]> l) j = if j / 32 =? i then Z.testbit v (j mod 32) else bit l j.
Proof.
  intros Hi Hj. unfold bit. assert (0 ≤ j / 32) by (apply Z.div_pos; lia).
  destruct (Z.eqb_spec (j / 32) i) as [->|Hne].
  - by rewrite list_lookup_insert_eq by lia.
  - by rewrite list_lookup_insert_ne by lia.
Qed.

(** ** Ranges *)

Definition in_range (i n j : Z) : bool := (i <=? j) && (j <? i + n).

Lemma in_range_spec i n j : in_range i n j = true ↔ i ≤ j < i + n.
Proof. unfold in_range. rewrite andb_true_iff, Z.leb_le, Z.ltb_lt. done. Qed.

Lemma in_range_out i n j : in_range i n j = false ↔ j < i ∨ i + n ≤ j.
Proof. unfold in_range. rewrite andb_false_iff, Z.leb_gt, Z.ltb_ge. done. Qed.

(** Words of which the granules [i], ..., [i + n - 1] have become [b]. *)
Definition ranged (i n : Z) (b : bool) (l l' : list Z) : Prop :=
  length l' = length l ∧ Forall u32_ok l' ∧
  ∀ j, 0 ≤ j → bit l' j = if in_range i n j then b else bit l j.

(** *** Marking and clearing

    [gran_mark_allocated] and [gran_free] do the same with different bits: [op] changes
    the bits of a word under a mask, [chk] is the assertion. *)

Section mark.
Context `{Config} (op : Z → Z → Z) (chk : Z → Z → bool) (val : bool).
Context (op_ok : ∀ v m, u32_ok v → u32_ok m → u32_ok (op v m) ∧
  ∀ k, 0 ≤ k → Z.testbit (op v m) k = if Z.testbit m k then val else Z.testbit v k).
Context (chk_ok : ∀ v m, (∀ k, 0 ≤ k → Z.testbit m k = true → Z.testbit v k = negb val) →
  chk v m = true).

Definition mark_body (granno ngranules : Z) : K GRAN_HANDLE unit :=
  let gatidx := Z.shiftr granno 5 in
  let gatbit := Z.land granno 31 in
  let avail := 32 - gatbit in
  if avail <? ngranules then
    let gatmask := u32 (Z.shiftl ALL_ONES gatbit) in
    v ← gat_get gatidx;
    kassert (chk v gatmask);;
    gat_put gatidx (op v gatmask);;
    let ngranules := ngranules - avail in
    gatmask ← klift (ones_shr (32 - ngranules));
    v ← gat_get (gatidx + 1);
    kassert (chk v gatmask);;
    gat_put (gatidx + 1) (op v gatmask)
  else
    gatmask ← klift (ones_shr (32 - ngranules));
    let gatmask := u32 (Z.shiftl gatmask gatbit) in
    v ← gat_get gatidx;
    kassert (chk v gatmask);;
    gat_put gatidx (op v gatmask).

(** One word, under the mask of a range. *)
Lemma mark_word {C} g i m lo n (k : K GRAN_HANDLE C) :
  0 ≤ i < Z.of_nat (length (gat g)) → Forall u32_ok (gat g) →
  u32_ok m → (∀ j, 0 ≤ j → Z.testbit m j = in_range lo n j) → 0 ≤ lo → lo + n ≤ 32 →
  (∀ j, 32 * i + lo ≤ j < 32 * i + lo + n → bit (gat g) j = negb val) →
  ∃ l, ranged (32 * i + lo) n val (gat g) l ∧
    (v ← gat_get i; kassert (chk v m);; gat_put i (op v m);; k) (Some g) = k (Some (set_gat l g)).
Proof using op_ok chk_ok.
  intros Hi Hw Hmok Hm Hlo Hn Hfree.
  destruct (lookup_lt_is_Some_2 (gat g) (Z.to_nat i)) as [v Hv]; [lia|].
  pose proof (proj1 (Forall_forall _ _) Hw v (list_elem_of_lookup_2 _ _ _ Hv)) as Hvok.
  destruct (op_ok v m Hvok Hmok) as [Hok Hbits].
  exists (<[Z.to_nat i := op v m]> (gat g)). split; [split; [|split]|].
  - apply length_insert.
  - by apply Forall_insert.
  - intros j Hj. rewrite bit_insert by done. destruct (Z.eqb_spec (j / 32) i) as [Heq|Hne].
    + pose proof (Z.mod_pos_bound j 32 ltac:(lia)) as Hb. rewrite Hbits, Hm by lia.
      assert (in_range lo n (j mod 32) = in_range (32 * i + lo) n j) as ->.
      { pose proof (Z.div_mod j 32 ltac:(lia)). unfold in_range. f_equal; apply Bool.eq_iff_eq_true.
        - rewrite !Z.leb_le. lia.
        - rewrite !Z.ltb_lt. lia. }
      destruct (in_range _ n j); [done|]. unfold bit. by rewrite Heq, Hv.
    + rewrite (proj2 (in_range_out _ _ _)); [done|]. Z.div_mod_to_equations. lia.
  - unfold gat_get, gat_put. rewrite (K_bind_Some _ _ _ v (Some g)); last first.
    { unfold kget. simpl. by rewrite Hv. }
    rewrite (K_bind_Some _ _ _ tt (Some g)); last first.
    { unfold kassert. rewrite DEBUGASSERT_true; [done|]. apply chk_ok. intros j Hj Ht. rewrite Hm in Ht by done.
      apply in_range_spec in Ht. specialize (Hfree (32 * i + j) ltac:(lia)). unfold bit in Hfree.
      replace ((32 * i + j) / 32) with i in Hfree by (Z.div_mod_to_equations; lia).
      replace ((32 * i + j) mod 32) with j in Hfree by (Z.div_mod_to_equations; lia). by rewrite Hv in Hfree. }
    erewrite K_bind_Some; [done|]. unfold kput. simpl. by rewrite Hv.
Qed.

Lemma mask_bits n b j :
  0 ≤ n → 0 ≤ b → b + n ≤ 32 → 0 ≤ j → Z.testbit (u32 (Z.shiftl (Z.ones n) b)) j = in_range b n j.
Proof.
  intros Hn Hb Hbn Hj. rewrite u32_bits, Z.shiftl_spec by done. unfold in_range.
  destruct (Z.leb_spec b j); simpl.
  - rewrite ones_bits by lia. destruct (Z.ltb_spec j 32), (Z.ltb_spec (j - b) n), (Z.ltb_spec j (b + n)); lia || done.
  - rewrite Z.testbit_neg_r by lia. by rewrite andb_false_r.
Qed.

Lemma mask_bits_first b j :
  0 ≤ b < 32 → 0 ≤ j → Z.testbit (u32 (Z.shiftl ALL_ONES b)) j = in_range b (32 - b) j.
Proof.
  intros Hb Hj. rewrite u32_bits, Z.shiftl_spec by done. unfold in_range.
  destruct (Z.leb_spec b j); simpl.
  - rewrite all_ones_bits by lia. replace (b + (32 - b)) with 32 by lia.
    destruct (Z.ltb_spec j 32), (Z.ltb_spec (j - b) 32); lia || done.
  - rewrite Z.testbit_neg_r by lia. by rewrite andb_false_r.
Qed.

Lemma ranged_app l l1 l2 i n m :
  0 ≤ n → 0 ≤ m → ranged i n val l l1 → ranged (i + n) m val l1 l2 → ranged i (n + m) val l l2.
Proof.
  intros Hn Hm (Hl1 & Hw1 & Hb1) (Hl2 & Hw2 & Hb2). split; [congruence|]. split; [done|].
  intros j Hj. rewrite Hb2, Hb1 by done.
  destruct (in_range (i + n) m j) eqn:H1; [|destruct (in_range i n j) eqn:H2].
  - apply in_range_spec in H1. by rewrite (proj2 (in_range_spec i (n + m) j)) by lia.
  - apply in_range_spec in H2. by rewrite (proj2 (in_range_spec i (n + m) j)) by lia.
  - apply in_range_out in H1, H2. by rewrite (proj2 (in_range_out i (n + m) j)) by lia.
Qed.

(** The granules of the range, which lie in one word or in two. *)
Lemma mark_body_ok g i n :
  Forall u32_ok (gat g) → 0 ≤ i → 1 ≤ n ≤ 32 → i + n ≤ 32 * Z.of_nat (length (gat g)) →
  (∀ j, i ≤ j < i + n → bit (gat g) j = negb val) →
  ∃ l, mark_body i n (Some g) = Some (tt, Some (set_gat l g)) ∧ ranged i n val (gat g) l.
Proof using op_ok chk_ok.
  intros Hw Hi Hn Hlen Hfree. unfold mark_body. cbv zeta.
  rewrite Z.shiftr_div_pow2 by lia. change (2 ^ 5) with 32. change 31 with (Z.ones 5).
  rewrite Z.land_ones by lia. change (2 ^ 5) with 32.
  set (q := i / 32). set (b := i mod 32).
  assert (i = 32 * q + b ∧ 0 ≤ b < 32 ∧ 0 ≤ q) as (Hqb & Hb & Hq) by (unfold q, b; Z.div_mod_to_equations; lia).
  destruct (Z.ltb_spec (32 - b) n) as [Htwo|Hone].
  - destruct (mark_word g q (u32 (Z.shiftl ALL_ONES b)) b (32 - b)
      (gatmask ← klift (ones_shr (32 - (n - (32 - b)))); v ← gat_get (q + 1);
       kassert (chk v gatmask);; gat_put (q + 1) (op v gatmask)))
      as (l1 & Hl1 & ->); [lia|done|apply u32_u32_ok|intros; by apply mask_bits_first|lia|lia|intros j Hj;
        apply Hfree; lia|].
    destruct Hl1 as (Hlen1 & Hw1 & Hb1).
    rewrite ones_shr_ok by lia.
    destruct (mark_word (set_gat l1 g) (q + 1) (Z.ones (n - (32 - b))) 0 (n - (32 - b)) (mret tt))
      as (l2 & Hl2 & Hrun); [simpl; lia|done|apply ones_u32_ok; lia| |lia|lia| |].
    { intros j Hj. rewrite ones_bits by lia. unfold in_range. by rewrite (proj2 (Z.leb_le 0 j) Hj). }
    { intros j Hj. simpl. rewrite Hb1 by lia. rewrite (proj2 (in_range_out _ _ _)) by lia. apply Hfree. lia. }
    simpl in Hl2. exists l2. split.
    + etrans; [|exact Hrun]. unfold klift, mbind, K_bind. simpl.
      destruct (gat_get _ _) as [[? ?]|]; [|done]. simpl. destruct (kassert _ _) as [[? ?]|]; [|done]. simpl.
      by destruct (gat_put _ _ _) as [[[] ?]|].
    + replace n with ((32 - b) + (n - (32 - b))) by lia. rewrite Hqb.
      eapply ranged_app; [lia|lia|by split; [|split]|].
      by replace (32 * q + b + (32 - b)) with (32 * (q + 1) + 0) by lia.
  - rewrite ones_shr_ok by lia.
    destruct (mark_word g q (u32 (Z.shiftl (Z.ones n) b)) b n (mret tt)) as (l1 & Hl1 & Hrun);
      [lia|done|apply u32_u32_ok|intros; apply mask_bits; lia|lia|lia|intros j Hj; apply Hfree; lia|].
    exists l1. rewrite Hqb. split; [|done]. etrans; [|exact Hrun]. unfold klift, mbind, K_bind. simpl.
    destruct (gat_get _ _) as [[? ?]|]; [|done]. simpl. destruct (kassert _ _) as [[? ?]|]; [|done]. simpl.
    by destruct (gat_put _ _ _) as [[[] ?]|].
Qed.
End mark.
