(* ===== verification/GranSearch.v ===== *)
(** * GranSearch: gran_alloc finds the first free granules

    The search of [gran_alloc] against a reference, which tries one position after the
    other. *)

From S2P Require Import Prelude Gran GranSpec.
Local Open Scope Z_scope.

(** ** The reference *)

Definition fits (n : nat) (l : list bool) : bool :=
  bool_decide (n ≤ length l)%nat && forallb negb (take n l).

(** The first position from which [n] granules are free. *)
Fixpoint first_fit (n : nat) (l : list bool) : option nat :=
  if fits n l then Some O
  else match l with [] => None | _ :: l => S <$> first_fit n l end.

Definition run_at (l : list bool) (n i : nat) : Prop :=
  (i + n ≤ length l)%nat ∧ ∀ k, (k < n)%nat → l !! (i + k)%nat = Some false.

Lemma fits_run n l : fits n l = true ↔ run_at l n 0.
Proof.
  unfold fits, run_at. rewrite andb_true_iff, bool_decide_eq_true, forallb_forall. simpl. split.
  - intros [Hn Hall]. split; [done|]. intros k Hk.
    destruct (lookup_lt_is_Some_2 l k) as [b Hb]; [lia|]. rewrite Hb. f_equal.
    apply negb_true_iff, Hall, list_elem_of_In, (list_elem_of_lookup_2 _ k).
    by rewrite lookup_take_lt.
  - intros [Hn Hk]. split; [done|]. intros b Hb%list_elem_of_In.
    apply list_elem_of_lookup in Hb as (k & Hb). apply lookup_take_Some in Hb as [Hb Hlt].
    rewrite Hk in Hb by done. by injection Hb as <-.
Qed.

Lemma run_at_cons b l n i : run_at (b :: l) n (S i) ↔ run_at l n i.
Proof. unfold run_at. simpl. split; intros [? ?]; (split; [lia|done]). Qed.

Lemma first_fit_Some n l i :
  first_fit n l = Some i → run_at l n i ∧ ∀ j, (j < i)%nat → ¬ run_at l n j.
Proof.
  revert i. induction l as [|b l IH]; intros i; simpl; destruct (fits n _) eqn:Hf.
  - intros [= <-]. split; [by apply fits_run|lia].
  - done.
  - intros [= <-]. split; [by apply fits_run|lia].
  - destruct (first_fit n l) as [k|]; [|done]. intros [= <-]. destruct (IH k eq_refl) as [Hr Hn].
    split; [by apply run_at_cons|]. intros [|j] Hj Hrun.
    + apply fits_run in Hrun. congruence.
    + apply run_at_cons in Hrun. eapply Hn; [|exact Hrun]. lia.
Qed.

Lemma first_fit_None n l : first_fit n l = None → ∀ i, ¬ run_at l n i.
Proof.
  induction l as [|b l IH]; simpl; destruct (fits n _) eqn:Hf; [done| |done|].
  - intros _ i Hr. assert (i = O) as -> by (destruct Hr as [Hr _]; simpl in Hr; lia).
    apply fits_run in Hr. congruence.
  - intros Hl [|i] Hr.
    + apply fits_run in Hr. congruence.
    + apply run_at_cons in Hr. destruct (first_fit n l); [done|]. by eapply IH.
Qed.

(** ** The search *)

Section search.
Context (g : gran_s) (n : Z) (Hok : gran_ok g) (Hn : 1 ≤ n ≤ 32).
Abbreviation ng := (gs_ngranules g).
Abbreviation G := (gsize g).

(** The table as the search reads it. *)
Abbreviation wide := (gat g ++ [behind g]).

(** [n] granules from [i] on are free. *)
Definition free_at (i : Z) : Prop := i + n ≤ ng ∧ ∀ j, i ≤ j < i + n → bit (gat g) j = false.

Lemma wide_bit j : 0 ≤ j < ng → bit wide j = bit (gat g) j.
Proof using Hok.
  intros Hj. unfold bit. rewrite lookup_app_l; [done|].
  pose proof (go_gat _ Hok) as Hl. Z.div_mod_to_equations. lia.
Qed.

(** The two words of the loop over the bits, at position [p] of the table. *)
Record window (granidx p curr next : Z) : Prop := {
  wi_curr : u32_ok curr;
  wi_next : u32_ok next;
  wi_low k : 0 ≤ k < 32 → Z.testbit curr k = bit wide (p + k);
  wi_high k : 0 ≤ k → p + 32 + k < granidx + 64 → Z.testbit next k = bit wide (p + 32 + k);
}.

Lemma window_shift granidx p curr next s :
  granidx ≤ p → 1 ≤ s ≤ 16 → p + s < granidx + 32 → window granidx p curr next →
  window granidx (p + s) (Z.lor (Z.shiftr curr s) (u32 (Z.shiftl next (32 - s)))) (Z.shiftr next s).
Proof using.
  intros Hp Hs Hps [Hc Hx Hlow Hhigh]. split.
  - apply lor_u32_ok; [apply shiftr_u32_ok; [done|lia]|apply u32_u32_ok].
  - apply shiftr_u32_ok; [done|lia].
  - intros k Hk. rewrite Z.lor_spec, Z.shiftr_spec, u32_bits, Z.shiftl_spec by lia.
    rewrite (proj2 (Z.ltb_lt k 32)) by lia. destruct (decide (k + s < 32)).
    + rewrite (Z.testbit_neg_r next), orb_false_r, Hlow by lia. f_equal. lia.
    + rewrite testbit_high by (done || lia). rewrite Hhigh by lia. simpl. f_equal. lia.
  - intros k Hk Hlt. rewrite Z.shiftr_spec, Hhigh by lia. f_equal. lia.
Qed.

(** A granule that is allocated is not the first of a free sequence. *)
Lemma not_free_at i : 0 ≤ i → bit wide i = true → ¬ free_at i.
Proof using Hok Hn.
  intros H0 Hb [Hle Hf]. rewrite wide_bit in Hb by lia. rewrite Hf in Hb by lia. done.
Qed.

Lemma mask_test p curr next granidx :
  window granidx p curr next → 0 ≤ p → p + n ≤ ng → (Z.land curr (Z.ones n) = 0 ↔ free_at p).
Proof using Hok Hn.
  intros [_ _ Hlow _] Hp Hle. rewrite land_eq_0. split.
  - intros Hz. split; [done|]. intros j Hj. rewrite <- wide_bit by lia.
    replace j with (p + (j - p)) by lia. rewrite <- Hlow by lia. apply Hz; [lia|].
    rewrite ones_bits by lia. apply Z.ltb_lt. lia.
  - intros [_ Hf] k Hk Ht. rewrite ones_bits in Ht by lia. apply Z.ltb_lt in Ht.
    rewrite Hlow, wide_bit by lia. apply Hf. lia.
Qed.

(** The low bits are all set. *)
Lemma ones_test p curr next granidx s :
  window granidx p curr next → 0 ≤ p → 0 ≤ s ≤ 32 → Z.land curr (Z.ones s) = Z.ones s →
  ∀ i, p ≤ i < p + s → ¬ free_at i.
Proof using Hok Hn.
  intros Hwin Hp Hs Hall i Hi. apply not_free_at; [lia|]. rewrite land_eq_mask in Hall.
  replace i with (p + (i - p)) by lia. rewrite <- (wi_low _ _ _ _ Hwin) by lia. apply Hall; [lia|].
  rewrite ones_bits by lia. apply Z.ltb_lt. lia.
Qed.

(** What the loop over the bits finds, from position [p] on. *)
Definition scan_result (granidx p alloc : Z) (r : bool * Z) : Prop :=
  if r.1 then ∃ i, p ≤ i < granidx + 32 ∧ free_at i ∧ (∀ j, p ≤ j < i → ¬ free_at j) ∧
                   r.2 = u32 (alloc + (i - p) * G)
  else u32_ok r.2 ∧ ∀ i, p ≤ i < granidx + 32 → ¬ free_at i.

Lemma scan_result_shift granidx p s alloc r :
  0 ≤ s → (∀ i, p ≤ i < p + s → ¬ free_at i) →
  scan_result granidx (p + s) (u32 (alloc + s * G)) r → scan_result granidx p alloc r.
Proof using.
  intros Hs Hno. unfold scan_result. destruct (r.1).
  - intros (i & Hi & Hf & Hfirst & Hr). exists i. split; [lia|]. split; [done|]. split.
    + intros j Hj. destruct (decide (j < p + s)); [apply Hno; lia|apply Hfirst; lia].
    + rewrite Hr, wrap_u_idemp. f_equal. lia.
  - intros [Hr Hres]. split; [done|]. intros i Hi.
    destruct (decide (i < p + s)); [apply Hno; lia|apply Hres; lia].
Qed.

Lemma gran_scan_ok fuel granidx alloc curr next bitidx :
  0 ≤ granidx < ng → 0 ≤ bitidx → 33 - bitidx ≤ Z.of_nat fuel → (0 < fuel)%nat → u32_ok alloc →
  (bitidx < 32 → window granidx (granidx + bitidx) curr next) →
  ∃ r, gran_scan fuel g n (Z.ones n) granidx alloc curr next bitidx = Some r ∧
       scan_result granidx (granidx + bitidx) alloc r.
Proof using Hok Hn.
  revert alloc curr next bitidx. induction fuel as [|fuel IH];
    intros alloc curr next bitidx Hg Hb Hf Hpos Ha Hwin; [lia|].
  cbn [gran_scan]. pose proof (go_ngranules _ Hok).
  destruct (Z.ltb_spec bitidx 32) as [Hlt|Hge]; cbn [andb].
  2: { eexists. split; [done|]. split; [done|]. intros i Hi. lia. }
  rewrite u32_small by lia. destruct (Z.leb_spec (granidx + bitidx + n) ng) as [Hle|Hgt].
  2: { eexists. split; [done|]. split; [done|]. intros i Hi [Hle _]. lia. }
  specialize (Hwin Hlt).
  assert (∀ s, 1 ≤ s ≤ 16 → (∀ i, granidx + bitidx ≤ i < granidx + bitidx + s → ¬ free_at i) →
    ∃ r, gran_scan fuel g n (Z.ones n) granidx (u32 (alloc + Z.shiftl s (log2gran g)))
           (Z.lor (Z.shiftr curr s) (u32 (Z.shiftl next (32 - s)))) (Z.shiftr next s) (bitidx + s) = Some r ∧
         scan_result granidx (granidx + bitidx) alloc r) as Hstep.
  { intros s Hs Hno. rewrite Z.shiftl_mul_pow2 by apply (go_log2 _ Hok).
    destruct (IH (u32 (alloc + s * G)) (Z.lor (Z.shiftr curr s) (u32 (Z.shiftl next (32 - s))))
      (Z.shiftr next s) (bitidx + s)) as (r & Hr & Hres); [done|lia|lia|lia|apply u32_u32_ok| |].
    { intros Hlt'. replace (granidx + (bitidx + s)) with (granidx + bitidx + s) by lia.
      apply window_shift; (lia || done). }
    exists r. split; [exact Hr|]. apply (scan_result_shift granidx (granidx + bitidx) s); [lia|done|].
    by replace (granidx + bitidx + s) with (granidx + (bitidx + s)) by lia. }
  destruct (Z.eqb_spec curr ALL_ONES) as [->|_].
  { eexists. split; [done|]. split; [done|]. intros i Hi. eapply (ones_test _ _ _ _ 32); [done|lia|lia|done|lia]. }
  destruct (Z.eqb_spec (Z.land curr 65535) 65535) as [H16|_].
  { apply Hstep; [lia|]. by eapply (ones_test _ _ _ _ 16); [|lia|lia|]. }
  destruct (Z.eqb_spec (Z.land curr 255) 255) as [H8|_].
  { apply Hstep; [lia|]. by eapply (ones_test _ _ _ _ 8); [|lia|lia|]. }
  destruct (Z.eqb_spec (Z.land curr 15) 15) as [H4|_].
  { apply Hstep; [lia|]. by eapply (ones_test _ _ _ _ 4); [|lia|lia|]. }
  destruct (Z.eqb_spec (Z.land curr 3) 3) as [H2|_].
  { apply Hstep; [lia|]. by eapply (ones_test _ _ _ _ 2); [|lia|lia|]. }
  destruct (Z.eqb_spec (Z.land curr (Z.ones n)) 0) as [Hz|Hnz].
  - exists (true, alloc). split; [done|]. exists (granidx + bitidx). split; [lia|].
    split; [by apply (mask_test _ _ _ _ Hwin); [lia| |]|]. split; [intros j Hj; lia|]. simpl.
    by rewrite Z.sub_diag, Z.add_0_r, u32_small.
  - apply Hstep; [lia|]. intros i Hi. assert (i = granidx + bitidx) as -> by lia.
    by rewrite <- (mask_test _ _ _ _ Hwin) by lia.
Qed.

(** What the loop over the entries finds, from granule [granidx] on: the first position;
    its address is right if the entries before it are full. *)
Definition search_result (granidx alloc : Z) (r : option Z) : Prop :=
  match r with
  | Some a => ∃ i, granidx ≤ i ∧ free_at i ∧ (∀ j, granidx ≤ j < i → ¬ free_at j) ∧
      ((∀ j, granidx ≤ j < 32 * (i / 32) → bit (gat g) j = true) → a = u32 (alloc + (i - granidx) * G))
  | None => ∀ i, granidx ≤ i → ¬ free_at i
  end.

Lemma window_start granidx curr next :
  0 ≤ granidx → granidx mod 32 = 0 →
  gat g !! Z.to_nat (granidx / 32) = Some curr → wide !! Z.to_nat (granidx / 32 + 1) = Some next →
  window granidx (granidx + 0) curr next.
Proof using Hok.
  intros H0 Hm Hc Hx. pose proof (go_words _ Hok) as Hw. rewrite Forall_forall in Hw.
  assert (wide !! Z.to_nat (granidx / 32) = Some curr) as Hc'.
  { rewrite lookup_app_l; [done|]. by apply lookup_lt_Some in Hc. }
  assert (Forall u32_ok wide) as Hww.
  { apply Forall_app. split; [apply Hok|]. apply Forall_singleton, Hok. }
  rewrite Forall_forall in Hww. rewrite Z.add_0_r. split.
  - by eapply Hww, list_elem_of_lookup_2.
  - by eapply Hww, list_elem_of_lookup_2.
  - intros k Hk. unfold bit. replace ((granidx + k) / 32) with (granidx / 32) by (Z.div_mod_to_equations; lia).
    replace ((granidx + k) mod 32) with k by (Z.div_mod_to_equations; lia). by rewrite Hc'.
  - intros k Hk Hlt. unfold bit.
    replace ((granidx + 32 + k) / 32) with (granidx / 32 + 1) by (Z.div_mod_to_equations; lia).
    replace ((granidx + 32 + k) mod 32) with k by (Z.div_mod_to_equations; lia). by rewrite Hx.
Qed.

(** A full entry. *)
Lemma full_entry granidx :
  0 ≤ granidx → granidx mod 32 = 0 → gat g !! Z.to_nat (granidx / 32) = Some ALL_ONES →
  ∀ j, granidx ≤ j < granidx + 32 → bit (gat g) j = true.
Proof using.
  intros H0 Hm Hc j Hj. unfold bit. replace (j / 32) with (granidx / 32) by (Z.div_mod_to_equations; lia).
  rewrite Hc. simpl. rewrite all_ones_bits by (Z.div_mod_to_equations; lia).
  apply Z.ltb_lt. Z.div_mod_to_equations. lia.
Qed.

Lemma entry_full granidx curr :
  0 ≤ granidx → granidx mod 32 = 0 → gat g !! Z.to_nat (granidx / 32) = Some curr →
  (∀ j, granidx ≤ j < granidx + 32 → bit (gat g) j = true) → curr = ALL_ONES.
Proof using Hok.
  intros H0 Hm Hc Hall. pose proof (go_words _ Hok) as Hw. rewrite Forall_forall in Hw.
  apply word_ext; [by eapply Hw, list_elem_of_lookup_2|done|]. intros k Hk.
  rewrite all_ones_bits by lia. rewrite (proj2 (Z.ltb_lt k 32)) by lia.
  specialize (Hall (granidx + k) ltac:(lia)). unfold bit in Hall.
  replace ((granidx + k) / 32) with (granidx / 32) in Hall by (Z.div_mod_to_equations; lia).
  replace ((granidx + k) mod 32) with k in Hall by (Z.div_mod_to_equations; lia). by rewrite Hc in Hall.
Qed.

Lemma gran_search_ok fuel granidx alloc :
  0 ≤ granidx → granidx mod 32 = 0 → ng ≤ granidx + 32 * (Z.of_nat fuel - 1) → (0 < fuel)%nat → u32_ok alloc →
  ∃ r, gran_search fuel g n (Z.ones n) granidx alloc = Some r ∧ search_result granidx alloc r.
Proof using Hok Hn.
  revert granidx alloc. induction fuel as [|fuel IH]; intros granidx alloc H0 Hm Hf Hpos Ha; [lia|].
  cbn [gran_search]. destruct (Z.ltb_spec granidx ng) as [Hlt|Hge].
  2: { eexists. split; [done|]. intros i Hi [Hle _]. lia. }
  rewrite Z.shiftr_div_pow2 by lia. change (2 ^ 5) with 32.
  pose proof (go_gat _ Hok) as Hlen.
  destruct (lookup_lt_is_Some_2 (gat g) (Z.to_nat (granidx / 32))) as [curr Hc].
  { Z.div_mod_to_equations. lia. }
  destruct (lookup_lt_is_Some_2 wide (Z.to_nat (granidx / 32 + 1))) as [next Hx].
  { rewrite length_app. simpl. Z.div_mod_to_equations. lia. }
  rewrite (option_bind_eq _ _ _ Hc). destruct (Z.eqb_spec curr ALL_ONES) as [->|Hne].
  - rewrite Z.shiftl_mul_pow2 by apply (go_log2 _ Hok).
    destruct (IH (granidx + 32) (u32 (alloc + 32 * G))) as (r & Hr & Hres);
      [lia|Z.div_mod_to_equations; lia|lia|lia|apply u32_u32_ok|].
    pose proof (full_entry _ H0 Hm Hc) as Hfull.
    assert (∀ i, granidx ≤ i < granidx + 32 → ¬ free_at i) as Hno.
    { intros i Hi [Hle Hfr]. specialize (Hfull i Hi). rewrite Hfr in Hfull by lia. done. }
    exists r. split; [done|]. destruct r as [a|].
    + destruct Hres as (i & Hi & Hfr & Hfirst & Haddr). exists i. split; [lia|]. split; [done|]. split.
      * intros j Hj. destruct (decide (j < granidx + 32)); [apply Hno; lia|apply Hfirst; lia].
      * intros Hall. rewrite Haddr, wrap_u_idemp by (intros j Hj; apply Hall; lia). f_equal. lia.
    + intros i Hi. destruct (decide (i < granidx + 32)); [apply Hno; lia|apply Hres; lia].
  - rewrite (option_bind_eq _ _ _ Hx).
    destruct (gran_scan_ok 33 granidx alloc curr next 0) as ([found a] & Hr & Hres); [lia|lia|lia|lia|done| |].
    { intros _. by apply window_start. }
    rewrite (option_bind_eq _ _ _ Hr). rewrite Z.add_0_r in Hres. unfold scan_result in Hres. cbn [fst snd] in Hres.
    destruct found.
    + destruct Hres as (i & Hi & Hfr & Hfirst & ->). eexists. split; [done|]. exists i. by split; [lia|].
    + destruct Hres as [Ha' Hres].
      destruct (IH (granidx + 32) a) as (r & Hr' & Hres');
        [lia|Z.div_mod_to_equations; lia|lia|lia|done|].
      exists r. split; [done|]. destruct r as [b|].
      * destruct Hres' as (i & Hi & Hfr & Hfirst & _). exists i. split; [lia|]. split; [done|]. split.
        { intros j Hj. destruct (decide (j < granidx + 32)); [apply Hres; lia|apply Hfirst; lia]. }
        intros Hall. exfalso. apply Hne.
        apply (entry_full granidx); [done|done|done|]. intros j Hj. apply Hall. Z.div_mod_to_equations. lia.
      * intros i Hi. destruct (decide (i < granidx + 32)); [apply Hres; lia|apply Hres'; lia].
Qed.
End search.
