(* ===== verification/GranAlloc.v ===== *)
(** * GranAlloc: gran_alloc, gran_free and gran_initialize

    What the operations do to the granules; the granule allocator implements the interface
    [Alloc], which the memory manager implements too. *)

From S2P Require Import Prelude Gran GranSpec GranSearch Alloc.
Local Open Scope Z_scope.

Section ops.
Context `{Config}.
Implicit Types (g : gran_s) (n i : Z).

(** ** Sizes and addresses *)

(** The number of granules of [size] bytes. *)
Definition ngran (g : gran_s) (size : Z) : Z := (size + gsize g - 1) / gsize g.

Lemma gsize_bounds g : gran_ok g → 1 ≤ gsize g ≤ 67108864.
Proof.
  intros Hok. pose proof (go_log2 _ Hok) as Hl. change 67108864 with (2 ^ 26).
  pose proof (Z.pow_pos_nonneg 2 (log2gran g)). pose proof (Z.pow_le_mono_r 2 (log2gran g) 26). lia.
Qed.

Lemma granules_of_ok g size :
  gran_ok g → 0 < size ≤ 32 * gsize g →
  granules_of g size = ngran g size ∧ 1 ≤ ngran g size ≤ 32 ∧
  size ≤ ngran g size * gsize g < size + gsize g.
Proof.
  intros Hok Hs. pose proof (gsize_bounds _ Hok) as HG. unfold granules_of, ngran.
  rewrite Z.shiftl_mul_pow2, Z.mul_1_l by apply Hok. rewrite !u32_small by (rewrite ?u32_small; lia).
  rewrite Z.shiftr_div_pow2 by apply Hok. split; [f_equal; lia|].
  pose proof (Z.div_mod (size + gsize g - 1) (gsize g) ltac:(lia)).
  pose proof (Z.mod_pos_bound (size + gsize g - 1) (gsize g) ltac:(lia)). nia.
Qed.

Lemma max_request_ok g : gran_ok g → max_request g = 32 * gsize g.
Proof.
  intros Hok. pose proof (gsize_bounds _ Hok). unfold max_request.
  rewrite Z.shiftl_mul_pow2, Z.mul_1_l by apply Hok. apply u32_small. lia.
Qed.

(** The address of granule [i]. *)
Abbreviation gaddr g i := (heapstart g + i * gsize g).

Lemma granno_ok g i :
  gran_ok g → 0 ≤ i < gs_ngranules g → Z.shiftr (u32 (gaddr g i - heapstart g)) (log2gran g) = i.
Proof.
  intros Hok Hi. pose proof (gsize_bounds _ Hok) as HG. pose proof (go_end _ Hok). pose proof (go_start _ Hok).
  replace (gaddr g i - heapstart g) with (i * gsize g) by lia.
  rewrite u32_small by nia. rewrite Z.shiftr_div_pow2 by apply Hok. apply Z.div_mul. lia.
Qed.

Lemma set_gat_ok g l : gran_ok g → length l = length (gat g) → Forall u32_ok l → gran_ok (set_gat l g).
Proof. intros [] Hl Hw. split; simpl; [done|done|by rewrite Hl|done..]. Qed.

(** ** Marking and clearing *)

Lemma mark_ok g i n :
  gran_ok g → 1 ≤ n ≤ 32 → 0 ≤ i → free_at g n i →
  ∃ l, gran_mark_allocated (gaddr g i) n (Some g) = Some (tt, Some (set_gat l g)) ∧
       ranged i n true (gat g) l.
Proof.
  intros Hok Hn Hi [Hle Hf].
  destruct (mark_body_ok Z.lor (λ v m, Z.land v m =? 0) true) with (g := g) (i := i) (n := n)
    as (l & Hrun & Hr); [| |apply Hok|done|done| |exact Hf|].
  - intros v m Hv Hm. split; [by apply lor_u32_ok|].
    intros k Hk. rewrite Z.lor_spec. destruct (Z.testbit m k); [by rewrite orb_true_r|by rewrite orb_false_r].
  - intros v m Hk. by apply Z.eqb_eq, land_eq_0.
  - pose proof (go_gat _ Hok). Z.div_mod_to_equations. lia.
  - exists l. split; [|done]. etrans; [|exact Hrun].
    unfold gran_mark_allocated. rewrite (K_bind_Some _ _ _ g (Some g)) by done.
    rewrite granno_ok by (done || lia). done.
Qed.

Lemma gran_free_ok g i size :
  let n := ngran g size in
  gran_ok g → 0 < size ≤ 32 * gsize g → 0 ≤ i → i + n ≤ gs_ngranules g →
  (∀ j, i ≤ j < i + n → bit (gat g) j = true) →
  ∃ l, gran_free (gaddr g i) size (Some g) = Some (tt, Some (set_gat l g)) ∧
       ranged i n false (gat g) l.
Proof.
  intros n Hok Hs Hi Hle Hall. destruct (granules_of_ok g size Hok Hs) as (Hng & Hn & _). fold n in Hng, Hn.
  destruct (mark_body_ok (λ v m, Z.land v (Z.lnot m)) (λ v m, Z.land v m =? m) false)
    with (g := g) (i := i) (n := n) as (l & Hrun & Hr); [| |apply Hok|done|done| |exact Hall|].
  - intros v m Hv _. split; [by apply land_u32_ok|]. intros k Hk. rewrite Z.land_spec, Z.lnot_spec by done.
    destruct (Z.testbit m k); [by rewrite andb_false_r|by rewrite andb_true_r].
  - intros v m Hk. by apply Z.eqb_eq, land_eq_mask.
  - pose proof (go_gat _ Hok). Z.div_mod_to_equations. lia.
  - exists l. split; [|done]. etrans; [|exact Hrun].
    unfold gran_free. rewrite (K_bind_Some _ _ _ (Some g) (Some g)) by done.
    pose proof (gsize_bounds _ Hok). pose proof (go_start _ Hok).
    rewrite (K_bind_Some _ _ _ tt (Some g)); last first.
    { unfold kassert. rewrite DEBUGASSERT_true; [done|]. rewrite max_request_ok by done.
      apply andb_true_iff. split; [apply negb_true_iff, Z.eqb_neq; nia|apply Z.leb_le; lia]. }
    rewrite (K_bind_Some _ _ _ g (Some g)) by done. rewrite Hng, granno_ok by (done || lia). done.
Qed.

(** ** gran_alloc *)

(** A request is a search, then what follows from its result. *)
Lemma alloc_opens g size r :
  let n := ngran g size in
  gran_ok g → 0 < size ≤ 32 * gsize g →
  gran_search (S (length (gat g))) g n (Z.ones n) 0 (heapstart g) = Some r →
  gran_alloc size (Some g) =
    match r with Some alloc => gran_mark_allocated alloc n;; mret alloc | None => mret 0 end (Some g).
Proof.
  intros n Hok Hs Hr. destruct (granules_of_ok g size Hok Hs) as (Hng & Hn & _). fold n in Hng, Hn.
  unfold gran_alloc. rewrite (K_bind_Some _ _ _ (Some g) (Some g)) by done.
  rewrite (K_bind_Some _ _ _ tt (Some g)); last first.
  { unfold kassert. rewrite DEBUGASSERT_true; [done|]. rewrite max_request_ok by done. apply Z.leb_le. lia. }
  rewrite (proj2 (Z.ltb_lt 0 size)), Hng by lia. rewrite (K_bind_Some _ _ _ tt (Some g)); last first.
  { unfold kassert. rewrite DEBUGASSERT_true; [done|]. apply Z.leb_le. lia. }
  rewrite (K_bind_Some _ _ _ (Z.ones n) (Some g)) by (unfold klift; by rewrite ones_shr_ok).
  by rewrite (K_bind_Some _ _ _ r (Some g)) by (unfold klift; by rewrite Hr).
Qed.

Lemma alloc_ok g size :
  let n := ngran g size in
  gran_ok g → 0 < size ≤ 32 * gsize g →
  (gran_alloc size (Some g) = Some (0, Some g) ∧ ∀ i, 0 ≤ i → ¬ free_at g n i) ∨
  ∃ i, 0 ≤ i ∧ free_at g n i ∧ (∀ j, 0 ≤ j < i → ¬ free_at g n j) ∧
    (∃ a, gran_search (S (length (gat g))) g n (Z.ones n) 0 (heapstart g) = Some (Some a) ∧
       gran_alloc size (Some g) = (gran_mark_allocated a n;; mret a) (Some g)) ∧
    ((∀ j, 0 ≤ j < 32 * (i / 32) → bit (gat g) j = true) →
     ∃ l, gran_alloc size (Some g) = Some (gaddr g i, Some (set_gat l g)) ∧ ranged i n true (gat g) l).
Proof.
  intros n Hok Hs. destruct (granules_of_ok g size Hok Hs) as (_ & Hn & _). fold n in Hn.
  pose proof (go_start _ Hok) as Hst. pose proof (go_gat _ Hok) as Hlen.
  destruct (gran_search_ok g n Hok Hn (S (length (gat g))) 0 (heapstart g)) as (r & Hr & Hres);
    [lia|done|Z.div_mod_to_equations; lia|lia|split; lia|].
  pose proof (alloc_opens g size r Hok Hs Hr) as Hrun0. fold n in Hrun0. rewrite Hrun0.
  destruct r as [a|]; [right|by left].
  destruct Hres as (i & Hi & Hf & Hfirst & Haddr). exists i. split; [done|]. split; [done|]. split; [done|].
  split; [by exists a|]. intros Hfull. specialize (Haddr Hfull). pose proof (gsize_bounds _ Hok). pose proof (go_end _ Hok).
  assert (i < gs_ngranules g) as Hlt by (destruct Hf; lia).
  assert (a = gaddr g i) as -> by (rewrite Haddr, u32_small by nia; lia).
  destruct (mark_ok g i n Hok Hn Hi Hf) as (l & Hrun & Hl). exists l. split; [|done].
  by rewrite (K_bind_Some _ _ _ _ _ Hrun).
Qed.

(** In one word, or for one granule, the address is always right. *)
Lemma alloc_simple g size :
  let n := ngran g size in
  gran_ok g → 0 < size ≤ 32 * gsize g → gs_ngranules g ≤ 32 ∨ n = 1 →
  (gran_alloc size (Some g) = Some (0, Some g) ∧ ∀ i, 0 ≤ i → ¬ free_at g n i) ∨
  ∃ i l, 0 ≤ i ∧ free_at g n i ∧ (∀ j, 0 ≤ j < i → ¬ free_at g n j) ∧
    gran_alloc size (Some g) = Some (gaddr g i, Some (set_gat l g)) ∧ ranged i n true (gat g) l.
Proof.
  intros n Hok Hs Hsimple. destruct (granules_of_ok g size Hok Hs) as (_ & Hn & _). fold n in Hn.
  destruct (alloc_ok g size Hok Hs) as [?|(i & Hi & Hf & Hfirst & _ & Hres)]; [by left|right].
  fold n in Hf, Hfirst, Hres. destruct Hres as (l & Hrun & Hl).
  - intros j Hj. destruct Hsimple as [Hng|Hn1].
    + destruct Hf as [Hle _]. Z.div_mod_to_equations. lia.
    + destruct (bit (gat g) j) eqn:Hb; [done|]. exfalso. apply (Hfirst j); [Z.div_mod_to_equations; lia|].
      split; [destruct Hf; Z.div_mod_to_equations; lia|]. intros j' Hj'. by replace j' with j by lia.
  - by exists i, l.
Qed.

(** ** gran_initialize *)

Lemma gran_initialize_ok zalloc start heapsize lg la b :
  let al := 2 ^ la * ((start + 2 ^ la - 1) / 2 ^ la) in
  let n := (start + heapsize - al) / 2 ^ lg in
  0 < start → 0 < heapsize → start + heapsize < 4294967296 → 0 < lg ≤ 26 → 0 ≤ la ≤ lg →
  al ≤ start + heapsize → n < 65536 → u32_ok b → zalloc (16 + 4 * ((n + 31) / 32 - 1)) = Some b →
  ∃ g, gran_initialize zalloc start heapsize lg la = Some (Some g) ∧ gran_ok g ∧
    log2gran g = lg ∧ gs_ngranules g = n ∧ heapstart g = al ∧ ∀ j, bit (gat g) j = false.
Proof.
  intros al n H1 H2 H3 Hlg Hla Hal Hn Hb Hz.
  pose proof (Z.pow_pos_nonneg 2 la ltac:(lia) ltac:(lia)) as Hpa.
  pose proof (Z.pow_le_mono_r 2 la 26 ltac:(lia) ltac:(lia)) as Hpa'. change (2 ^ 26) with 67108864 in Hpa'.
  pose proof (Z.pow_pos_nonneg 2 lg ltac:(lia) ltac:(lia)) as Hpg.
  pose proof (Z.pow_le_mono_r 2 lg 26 ltac:(lia) ltac:(lia)) as Hpg'. change (2 ^ 26) with 67108864 in Hpg'.
  assert (start ≤ al) as Hlo.
  { unfold al. pose proof (Z.div_mod (start + 2 ^ la - 1) (2 ^ la) ltac:(lia)).
    pose proof (Z.mod_pos_bound (start + 2 ^ la - 1) (2 ^ la) ltac:(lia)). lia. }
  assert (n * 2 ^ lg ≤ start + heapsize - al) as Hend.
  { unfold n. rewrite Z.mul_comm. apply Z.mul_div_le. lia. }
  assert (0 ≤ n) as Hn0 by (apply Z.div_pos; lia).
  unfold gran_initialize. rewrite DEBUGASSERT_true; last first.
  { rewrite !andb_true_iff, negb_true_iff, Z.eqb_neq, !Z.ltb_lt, Z.leb_le. lia. }
  cbn [mbind option_bind]. rewrite !Z.shiftl_mul_pow2, !Z.mul_1_l by lia.
  assert (start + 2 ^ la - 1 < 4294967296) as Hwrap.
  { destruct (decide (start + 2 ^ la - 1 < 4294967296)); [done|]. exfalso.
    assert (2 ^ (32 - la) ≤ (start + 2 ^ la - 1) / 2 ^ la) as Hd.
    { apply Z.div_le_lower_bound; [lia|]. rewrite <- Z.pow_add_r by lia.
      replace (la + (32 - la)) with 32 by lia. change (2 ^ 32) with 4294967296. lia. }
    assert (2 ^ la * 2 ^ (32 - la) = 4294967296) as Hm.
    { rewrite <- Z.pow_add_r by lia. by replace (la + (32 - la)) with 32 by lia. }
    unfold al in Hal. nia. }
  rewrite (u32_small (2 ^ la - 1)), (u32_small (2 ^ lg - 1)), (u32_small (start + (2 ^ la - 1))),
    (u32_small (start + heapsize)) by lia.
  rewrite round_up by lia. fold al. rewrite (u32_small (start + heapsize - al)) by lia.
  rewrite round_down, Z.shiftr_div_pow2 by lia. fold n. rewrite (Z.mul_comm (2 ^ lg)), Z.div_mul by lia.
  assert (SIZEOF_GAT n = (n + 31) / 32) as HG.
  { unfold SIZEOF_GAT. by rewrite u32_small, Z.shiftr_div_pow2 by lia. }
  rewrite HG, Hz. rewrite (wrap_u_small 16) by (change (2 ^ 16) with 65536; lia).
  eexists. split; [done|]. assert (0 ≤ (n + 31) / 32) by (apply Z.div_pos; lia).
  split; [split; simpl|split_and!; [done..|]].
  - lia.
  - lia.
  - rewrite length_replicate. lia.
  - apply Forall_replicate. split; lia.
  - done.
  - lia.
  - lia.
  - intros j. unfold bit. simpl. destruct (replicate _ 0 !! _) as [x|] eqn:Hx; [|apply Z.bits_0].
    apply lookup_replicate in Hx as [-> _]. apply Z.bits_0.
Qed.
End ops.

(** ** The interface

    The state of a caller is the allocator and the memory that it manages, in which
    neither [gran_alloc] nor [gran_free] writes. *)

#[global] Instance gran_ops `{Config} : Allocator (GRAN_HANDLE * gmap Z Z) := {|
  al_malloc n := λ '(h, m), '(p, h) ← gran_alloc n h; Some (p, (h, m));
  al_free b := λ '(h, m), '(u, h) ← gran_free b.1 b.2 h; Some (u, (h, m));
  al_store w v := λ '(h, m), _ ← m !! w; Some (tt, (h, <[w := v]> m));
  al_load s := λ w, s.2 !! w;
|}.

Section laws.
Context `{Config} (lg ng hs max : Z).
(** Requests are of up to 32 granules from a table of one word, or of one granule. *)
Context (Hmax : ng ≤ 32 ∧ max = 32 * 2 ^ lg ∨ max = 2 ^ lg).
Implicit Types (g : gran_s) (m : gmap Z Z) (b : block) (B : list block).

(** The granules of a block. *)
Definition covers b (j : Z) : bool :=
  in_range ((b.1 - hs) / 2 ^ lg) ((b.2 + 2 ^ lg - 1) / 2 ^ lg) j.

(** A block that was handed out. *)
Definition live_block b : Prop :=
  ∃ i, b.1 = hs + i * 2 ^ lg ∧ 0 ≤ i ∧ 0 < b.2 ≤ max ∧ i + (b.2 + 2 ^ lg - 1) / 2 ^ lg ≤ ng.

(** No granule belongs to two blocks. *)
Definition apart B : Prop :=
  ∀ i j b b' k, B !! i = Some b → B !! j = Some b' → covers b k = true → covers b' k = true → i = j.

Definition gran_inv (s : GRAN_HANDLE * gmap Z Z) B : Prop :=
  ∃ g, s.1 = Some g ∧ gran_ok g ∧ log2gran g = lg ∧ gs_ngranules g = ng ∧ heapstart g = hs ∧
    (∀ w, hs ≤ w < hs + ng * 2 ^ lg → is_Some (s.2 !! w)) ∧
    Forall live_block B ∧ apart B ∧
    ∀ j, 0 ≤ j < ng → (bit (gat g) j = true ↔ ∃ b, b ∈ B ∧ covers b j = true).

Lemma covers_at b i j :
  0 ≤ lg → b.1 = hs + i * 2 ^ lg →
  covers b j = true ↔ i ≤ j < i + (b.2 + 2 ^ lg - 1) / 2 ^ lg.
Proof using.
  intros Hlg Hb. unfold covers. rewrite in_range_spec, Hb.
  replace (hs + i * 2 ^ lg - hs) with (i * 2 ^ lg) by lia.
  by rewrite Z.div_mul by (pose proof (Z.pow_pos_nonneg 2 lg); lia).
Qed.

Lemma block_size g b :
  gran_ok g → log2gran g = lg → 0 < b.2 ≤ max →
  let n := (b.2 + 2 ^ lg - 1) / 2 ^ lg in
  b.2 ≤ 32 * gsize g ∧ ngran g b.2 = n ∧ 1 ≤ n ∧ b.2 ≤ n * 2 ^ lg ∧ (ng ≤ 32 ∨ n = 1).
Proof using Hmax.
  intros Hok Hlg Hb n. pose proof (gsize_bounds _ Hok) as HG. rewrite Hlg in HG.
  assert (b.2 ≤ 32 * gsize g) as Hle by (rewrite Hlg; lia).
  destruct (granules_of_ok g b.2 Hok ltac:(lia)) as (_ & Hn & Hs). unfold ngran in Hn, Hs |- *.
  rewrite Hlg in Hn, Hs |- *. fold n in Hn, Hs |- *. split_and!; [by rewrite <- Hlg|done|lia|lia|].
  destruct Hmax as [[? _]|Hm]; [by left|right]. nia.
Qed.

Lemma gran_disjoint s B i j b b' :
  gran_inv s B → B !! i = Some b → B !! j = Some b' → i ≠ j → disjoint_blocks b b'.
Proof using Hmax.
  intros (g & _ & Hok & Hlg & _ & _ & _ & Hlive & Hap & _) Hi Hj Hij.
  rewrite Forall_forall in Hlive. pose proof (go_log2 _ Hok).
  destruct (Hlive b (list_elem_of_lookup_2 _ _ _ Hi)) as (p & Hp & Hp0 & Hb & _).
  destruct (Hlive b' (list_elem_of_lookup_2 _ _ _ Hj)) as (p' & Hp' & Hp0' & Hb' & _).
  destruct (block_size g b Hok Hlg Hb) as (_ & _ & Hn & Hs & _).
  destruct (block_size g b' Hok Hlg Hb') as (_ & _ & Hn' & Hs' & _).
  set (n := (b.2 + 2 ^ lg - 1) / 2 ^ lg) in *. set (n' := (b'.2 + 2 ^ lg - 1) / 2 ^ lg) in *.
  assert (p + n ≤ p' ∨ p' + n' ≤ p) as Hor.
  { destruct (decide (p + n ≤ p' ∨ p' + n' ≤ p)); [done|]. exfalso. apply Hij.
    apply (Hap i j b b' (p `max` p') Hi Hj).
    - apply (covers_at b p); [lia|done|]. fold n. lia.
    - apply (covers_at b' p'); [lia|done|]. fold n'. lia. }
  pose proof (gsize_bounds _ Hok) as HG. rewrite Hlg in HG. unfold disjoint_blocks. rewrite Hp, Hp'. nia.
Qed.

Lemma gran_malloc_law s B n :
  gran_inv s B → 0 ≤ n ≤ max →
  ∃ p s', al_malloc n s = Some (p, s') ∧ (p = 0 ∧ s' = s ∨ p ≠ 0 ∧ gran_inv s' ((p, n) :: B)) ∧
    ∀ b w, b ∈ B → word_of b w → al_load s' w = al_load s w.
Proof using Hmax.
  destruct s as [h m]. intros (g & Hh & Hok & Hlg & Hng & Hhs & Hmap & Hlive & Hap & Hbits) Hn.
  simpl in *. subst h. destruct (decide (n = 0)) as [->|Hn0].
  { exists 0, (Some g, m). split; [|split; [by left|done]]. unfold gran_alloc.
    rewrite (K_bind_Some _ _ _ (Some g) (Some g)) by done. rewrite (K_bind_Some _ _ _ tt (Some g)); [done|].
    pose proof (gsize_bounds _ Hok). unfold kassert. rewrite DEBUGASSERT_true; [done|].
    rewrite max_request_ok by done. apply Z.leb_le. lia. }
  destruct (block_size g (0, n) Hok Hlg ltac:(simpl; lia)) as (Hle & Hnn & Hn1 & Hs & Hsimple). simpl in *.
  destruct (alloc_simple g n Hok) as [[Hrun _]|(i & l & Hi & Hf & _ & Hrun & Hl)]; [lia|by rewrite Hnn, Hng|..].
  { exists 0, (Some g, m). rewrite Hrun. simpl. split; [done|]. split; [by left|done]. }
  rewrite Hnn in Hf, Hl. set (k := (n + 2 ^ lg - 1) / 2 ^ lg) in *.
  exists (heapstart g + i * gsize g), (Some (set_gat l g), m). rewrite Hrun. simpl. split; [done|].
  split; [right|done]. rewrite Hhs, Hlg. pose proof (go_start _ Hok). pose proof (gsize_bounds _ Hok) as HG.
  rewrite Hlg in HG. split; [nia|]. destruct Hl as (Hlen & Hw & Hb). destruct Hf as [Hfle Hfree].
  exists (set_gat l g). simpl. split_and!; [done|by apply set_gat_ok|done..|done| | |].
  - constructor; [|done]. exists i. simpl. rewrite <- Hng. split_and!; [done|done|lia|lia|done].
  - assert (∀ j b, b ∈ B → covers (hs + i * 2 ^ lg, n) j = true → covers b j = true → False) as Hno.
    { intros j b Hin Hc Hcb. pose proof (go_log2 _ Hok).
      apply (covers_at _ i) in Hc; [|lia|done]. simpl in Hc. fold k in Hc.
      assert (bit (gat g) j = true) as Ht by (apply Hbits; [lia|by exists b]).
      rewrite Hfree in Ht by lia. done. }
    intros [|x] [|y] b b' j Hx Hy Hcx Hcy; simpl in Hx, Hy; [done| | |f_equal; by eapply Hap].
    + injection Hx as <-. exfalso. eapply Hno; [by eapply list_elem_of_lookup_2|done..].
    + injection Hy as <-. exfalso. eapply Hno; [by eapply list_elem_of_lookup_2|done..].
  - intros j Hj. rewrite Hb by lia. pose proof (go_log2 _ Hok).
    pose proof (covers_at (hs + i * 2 ^ lg, n) i j ltac:(lia) eq_refl) as Hc. simpl in Hc. fold k in Hc.
    destruct (in_range i k j) eqn:Hr.
    + split; [intros _|done]. exists (hs + i * 2 ^ lg, n). split; [by left|]. by apply Hc, in_range_spec.
    + rewrite Hbits by lia. split.
      * intros (b & Hin & Hcb). exists b. split; [by right|done].
      * intros (b & [->|Hin]%elem_of_cons & Hcb); [|by exists b].
        apply in_range_out in Hr. apply Hc in Hcb. lia.
Qed.

Lemma gran_free_law s B k b :
  gran_inv s B → B !! k = Some b →
  ∃ s', al_free b s = Some (tt, s') ∧ gran_inv s' (delete k B) ∧
    ∀ b' w, b' ∈ delete k B → word_of b' w → al_load s' w = al_load s w.
Proof using Hmax.
  destruct s as [h m]. intros (g & Hh & Hok & Hlg & Hng & Hhs & Hmap & Hlive & Hap & Hbits) Hk.
  simpl in *. subst h. pose proof (go_log2 _ Hok). rewrite Forall_forall in Hlive.
  pose proof (list_elem_of_lookup_2 _ _ _ Hk) as HbB.
  destruct (Hlive b HbB) as (i & Hi & Hi0 & Hb & Hle).
  destruct (block_size g b Hok Hlg Hb) as (Hmx & Hnn & _).
  pose proof (λ j, covers_at b i j ltac:(lia) Hi) as Hc.
  destruct (gran_free_ok g i b.2 Hok) as (l & Hrun & Hlen & Hw & Hbit); [lia|done|by rewrite Hnn, Hng| |].
  { rewrite Hnn. intros j Hj. apply Hbits; [lia|]. exists b. split; [done|]. by apply Hc. }
  rewrite Hnn in Hbit. rewrite Hhs, Hlg, <- Hi in Hrun.
  exists (Some (set_gat l g), m). rewrite Hrun. simpl. split; [done|]. split; [|done].
  exists (set_gat l g). simpl. split_and!; [done|by apply set_gat_ok|done..|done| | |].
  - apply Forall_forall. intros b' Hb'. apply Hlive. eapply (sublist_subseteq _ _); [apply sublist_delete|done].
  - intros x y b1 b2 j Hx Hy Hc1 Hc2. rewrite list_lookup_delete in Hx, Hy.
    pose proof (Hap _ _ _ _ _ Hx Hy Hc1 Hc2) as Heq. repeat case_decide; lia.
  - intros j Hj. rewrite Hbit by lia. destruct (in_range i _ j) eqn:Hr.
    + split; [done|]. intros (b' & Hin & Hcb). exfalso.
      apply list_elem_of_lookup in Hin as (x & Hx). rewrite list_lookup_delete in Hx.
      assert (covers b j = true) as Hcj by (by apply Hc, in_range_spec).
      pose proof (Hap _ _ _ _ _ Hx Hk Hcb Hcj). repeat case_decide; lia.
    + rewrite Hbits by lia. split; intros (b' & Hin & Hcb).
      * exists b'. split; [|done]. apply list_elem_of_lookup in Hin as (x & Hx).
        destruct (decide (x = k)) as [->|Hxk].
        { assert (b' = b) as -> by congruence. apply in_range_out in Hr. apply Hc in Hcb. lia. }
        apply list_elem_of_lookup. destruct (decide (x < k)%nat).
        -- exists x. by rewrite list_lookup_delete_lt.
        -- exists (x - 1)%nat. rewrite list_lookup_delete_ge by lia. by replace (S (x - 1)) with x by lia.
      * exists b'. split; [|done]. eapply (sublist_subseteq _ _); [apply sublist_delete|done].
Qed.

Lemma gran_store_law s B b w v :
  gran_inv s B → b ∈ B → word_of b w →
  ∃ s', al_store w v s = Some (tt, s') ∧ gran_inv s' B ∧
    al_load s' w = Some v ∧ ∀ w', w' ≠ w → al_load s' w' = al_load s w'.
Proof using Hmax.
  destruct s as [h m]. intros (g & Hh & Hok & Hlg & Hng & Hhs & Hmap & Hlive & Hap & Hbits) Hb (i & Hi & Hi4 & ->).
  simpl in *. rewrite Forall_forall in Hlive. destruct (Hlive b Hb) as (p & Hp & Hp0 & Hsz & Hle).
  destruct (block_size g b Hok Hlg Hsz) as (_ & _ & _ & Hs & _).
  pose proof (gsize_bounds _ Hok) as HG. rewrite Hlg in HG.
  destruct (Hmap (b.1 + 4 * i)) as [x Hx]; [rewrite Hp in *; nia|]. rewrite Hx. simpl.
  eexists. split; [done|]. split; [|split].
  - exists g. simpl. split_and!; [done..| |by apply Forall_forall|done|done].
    intros w Hw. apply lookup_insert_is_Some'. right. by apply Hmap.
  - simpl. apply lookup_insert_eq.
  - intros w' Hw'. simpl. by apply lookup_insert_ne.
Qed.

#[global] Instance gran_laws : AllocLaws (GRAN_HANDLE * gmap Z Z) max gran_inv.
Proof using Hmax.
  split; [apply gran_disjoint|apply gran_malloc_law|apply gran_free_law|apply gran_store_law].
Qed.
End laws.
