(* ===== verification/GranInfo.v ===== *)
(** * GranInfo: gran_info counts the free granules

    [gran_info] looks up the bits of the table four at a time and combines the results;
    the reference counts one granule after the other. *)

From S2P Require Import Prelude Gran GranSpec.
Local Open Scope Z_scope.

(** ** The reference *)

Definition count_free (l : list bool) : Z := Z.of_nat (length (filter (.= false) l)).

(** The number of free granules at the front. *)
Fixpoint lead (l : list bool) : Z :=
  match l with false :: l => 1 + lead l | _ => 0 end.

(** The longest sequence of free granules. *)
Fixpoint longest (l : list bool) : Z :=
  match l with [] => 0 | _ :: l' => Z.max (lead l) (longest l') end.

Definition trail (l : list bool) : Z := lead (reverse l).

Abbreviation len l := (Z.of_nat (length l)).

Lemma count_free_app l1 l2 : count_free (l1 ++ l2) = count_free l1 + count_free l2.
Proof. unfold count_free. rewrite filter_app, length_app. lia. Qed.

Lemma count_free_bound l : 0 ≤ count_free l ≤ len l.
Proof. unfold count_free. pose proof (length_filter (.= false) l). lia. Qed.

Lemma lead_bound l : 0 ≤ lead l ≤ len l.
Proof. induction l as [|[] l IH]; simpl; lia. Qed.

Lemma lead_app l1 l2 : lead (l1 ++ l2) = if lead l1 =? len l1 then len l1 + lead l2 else lead l1.
Proof.
  induction l1 as [|[] l1 IH]; simpl; [done| |].
  - by destruct (Z.eqb_spec 0 (Z.of_nat (S (length l1)))); [lia|].
  - rewrite IH. destruct (Z.eqb_spec (lead l1) (len l1)), (Z.eqb_spec (1 + lead l1) (Z.of_nat (S (length l1)))); lia.
Qed.

Lemma lead_reverse l : lead l = len l → trail l = len l.
Proof.
  unfold trail. induction l as [|[] l IH]; simpl; [done|pose proof (lead_bound l); lia|].
  intros Hl. rewrite reverse_cons, lead_app, length_reverse. rewrite IH by lia.
  rewrite Z.eqb_refl. simpl. lia.
Qed.

Lemma trail_full l : trail l = len l ↔ lead l = len l.
Proof.
  split; [|apply lead_reverse]. intros Ht. rewrite <- (reverse_involutive l) at 1.
  rewrite <- (length_reverse l). apply lead_reverse. unfold trail in Ht. by rewrite length_reverse.
Qed.

Lemma trail_bound l : 0 ≤ trail l ≤ len l.
Proof. unfold trail. rewrite <- (length_reverse l). apply lead_bound. Qed.

Lemma trail_app l1 l2 : trail (l1 ++ l2) = if lead l2 =? len l2 then len l2 + trail l1 else trail l2.
Proof.
  unfold trail. rewrite reverse_app, lead_app, length_reverse. fold (trail l2).
  destruct (Z.eqb_spec (trail l2) (len l2)) as [Ht|Ht]; rewrite trail_full in Ht.
  - by rewrite (proj2 (Z.eqb_eq _ _) Ht).
  - by rewrite (proj2 (Z.eqb_neq _ _) Ht).
Qed.

Lemma longest_lead l : lead l ≤ longest l.
Proof. destruct l; simpl; lia. Qed.

Lemma longest_nonneg l : 0 ≤ longest l.
Proof. pose proof (longest_lead l). pose proof (lead_bound l). lia. Qed.

Lemma longest_bound l : longest l ≤ len l.
Proof. induction l as [|b l IH]; [done|]. cbn [longest length]. pose proof (lead_bound (b :: l)). simpl in *.
lia. Qed.

Lemma longest_app l1 l2 :
  longest (l1 ++ l2) = Z.max (longest l1) (Z.max (longest l2) (trail l1 + lead l2)).
Proof.
  induction l1 as [|b l1 IH].
  { change (trail []) with 0. simpl. pose proof (longest_lead l2). pose proof (longest_nonneg l2). lia. }
  change (b :: l1) with ([b] ++ l1) at 3. rewrite trail_app.
  cbn [app longest]. rewrite IH.
  assert (lead (b :: l1 ++ l2) = if lead (b :: l1) =? len (b :: l1) then len (b :: l1) + lead l2 else lead (b
    :: l1)) as ->
    by apply (lead_app (b :: l1)).
  pose proof (lead_bound l1). pose proof (lead_bound l2). pose proof (longest_lead l1). pose proof (longest_lead l2).
  pose proof (trail_full l1). pose proof (trail_bound l1). destruct b; simpl.
  - change (trail [true]) with 0.
    destruct (Z.eqb_spec (lead l1) (len l1)), (Z.eqb_spec 0 (Z.of_nat (S (length l1)))); lia.
  - change (trail [false]) with 1.
    destruct (Z.eqb_spec (lead l1) (len l1)), (Z.eqb_spec (1 + lead l1) (Z.of_nat (S (length l1)))); lia.
Qed.

(** ** A part of a word *)

(** What [struct valinfo_s] says about the bits [l]; [mxfree] may count more than the
    sequences inside, which is all that its description has. *)
Record info_ok (l : list bool) (v : valinfo_s) : Prop := {
  io_nfree : nfree v = count_free l;
  io_nlsfree : nlsfree v = lead l;
  io_nmsfree : nmsfree v = if lead l =? len l then 0 else trail l;
  io_longest z : longest l ≤ z ↔ lead l ≤ z ∧ nmsfree v ≤ z ∧ mxfree v ≤ z;
  io_mxfree : 0 ≤ mxfree v;
}.

Lemma if_max_le a b z : (if a <? b then b else a) ≤ z ↔ a ≤ z ∧ b ≤ z.
Proof. z_cases; lia. Qed.

Lemma combine_ok l1 l2 ls ms :
  info_ok l1 ls → info_ok l2 ms → len l1 + len l2 ≤ 255 →
  info_ok (l1 ++ l2) (gran_info_combine ms (len l2) ls (len l1)).
Proof.
  intros [Hf1 Hl1 Hm1 Hg1 H01] [Hf2 Hl2 Hm2 Hg2 H02] Hlen.
  pose proof (count_free_bound l1). pose proof (count_free_bound l2).
  pose proof (lead_bound l1). pose proof (lead_bound l2). pose proof (trail_bound l1). pose proof (trail_bound l2).
  pose proof (trail_full l1) as Ht1. pose proof (trail_full l2) as Ht2.
  unfold gran_info_combine. rewrite Hl1, Hl2.
  split; cbn [nfree nlsfree nmsfree mxfree]; rewrite ?longest_app, ?count_free_app, ?lead_app, ?trail_app,
    ?length_app.
  - rewrite u8_small by lia. lia.
  - z_cases; [|done]. rewrite u8_small by lia. lia.
  - destruct (Z.eqb_spec (lead l1) (len l1)), (Z.eqb_spec (lead l2) (len l2)); rewrite ?u8_small by lia; z_cases; lia.
  - intros z. rewrite !Z.max_lub_iff, Hg1, Hg2, !if_max_le. clear Hg1 Hg2.
    destruct (Z.eqb_spec (lead l1) (len l1)), (Z.eqb_spec (lead l2) (len l2)),
      (Z.ltb_spec (lead l1) (len l1)), (Z.ltb_spec (lead l2) (len l2)); try lia; cbn [andb];
      rewrite ?u8_small by lia; rewrite ?if_max_le; lia.
  - clear Hg1 Hg2. destruct (Z.ltb_spec (lead l1) (len l1)), (Z.ltb_spec (lead l2) (len l2)); cbn [andb].
    all: rewrite ?u8_small by lia; z_cases; lia.
Qed.

(** ** The bits of a value *)

Definition vbits (n v : Z) : list bool := Z.testbit v <$> seqZ 0 n.

Lemma vbits_len n v : 0 ≤ n → len (vbits n v) = n.
Proof. intros. unfold vbits. rewrite length_fmap, length_seqZ. lia. Qed.

Lemma vbits_split a b v : 0 ≤ a → 0 ≤ b → vbits (a + b) v = vbits a v ++ vbits b (Z.shiftr v a).
Proof.
  intros Ha Hb. unfold vbits. rewrite seqZ_app, fmap_app by done. f_equal.
  rewrite Z.add_0_l. rewrite <- (Z.add_0_r a) at 1. rewrite <- fmap_add_seqZ, <- list_fmap_compose.
  apply list_fmap_ext. intros i k Hk. apply list_elem_of_lookup_2, elem_of_seqZ in Hk. simpl.
  rewrite Z.shiftr_spec by lia. f_equal. lia.
Qed.

Lemma vbits_ext n v w : (∀ k, 0 ≤ k < n → Z.testbit v k = Z.testbit w k) → vbits n v = vbits n w.
Proof.
  intros Hvw. apply list_fmap_ext. intros i k Hk. apply list_elem_of_lookup_2, elem_of_seqZ in Hk.
  apply Hvw. lia.
Qed.

Lemma vbits_land n v m : 0 ≤ n ≤ m → vbits n (Z.land v (Z.ones m)) = vbits n v.
Proof.
  intros Hn. apply vbits_ext. intros k Hk. rewrite Z.land_spec, ones_bits by lia.
  by rewrite (proj2 (Z.ltb_lt _ _)), andb_true_r by lia.
Qed.

Lemma vbits_const n v b : (∀ k, 0 ≤ k < n → Z.testbit v k = b) → vbits n v = replicate (Z.to_nat n) b.
Proof.
  intros Hb. apply list_eq. intros i. unfold vbits. rewrite list_lookup_fmap.
  destruct (decide (i < Z.to_nat n)%nat).
  - rewrite lookup_seqZ_lt, lookup_replicate_2 by lia. simpl. f_equal. apply Hb. lia.
  - rewrite lookup_seqZ_ge by lia. simpl. symmetry. apply lookup_replicate_None. lia.
Qed.

Lemma all_free_facts k :
  let l := replicate k false in
  lead l = Z.of_nat k ∧ longest l = Z.of_nat k ∧ count_free l = Z.of_nat k.
Proof.
  induction k as [|k (IH1 & IH2 & IH3)]; [done|]. cbv zeta.
  change (replicate (S k) false) with ([false] ++ replicate k false).
  rewrite count_free_app, IH3. cbn [app lead longest]. rewrite IH1, IH2.
  change (count_free [false]) with 1. lia.
Qed.

Lemma all_used_facts k :
  let l := replicate k true in
  lead l = 0 ∧ trail l = 0 ∧ longest l = 0 ∧ count_free l = 0.
Proof.
  cbv zeta. unfold trail. rewrite reverse_replicate. induction k as [|k (_ & _ & IH2 & IH3)]; [done|].
  change (replicate (S k) true) with ([true] ++ replicate k true).
  rewrite count_free_app, IH3. cbn [app lead longest]. by rewrite IH2.
Qed.

Lemma info_all_free n v :
  0 ≤ n ≤ 255 → Z.land v (Z.ones n) = 0 → info_ok (vbits n v) (mk_valinfo (u8 n) (u8 n) 0 0).
Proof.
  intros Hn Hv. rewrite land_eq_0 in Hv. rewrite (vbits_const _ _ false); last first.
  { intros k Hk. apply Hv; [lia|]. rewrite ones_bits by lia. apply Z.ltb_lt. lia. }
  rewrite u8_small by lia. destruct (all_free_facts (Z.to_nat n)) as (H1 & H2 & H3).
  split; cbn [nfree nlsfree nmsfree mxfree]; rewrite ?H1, ?H2, ?H3, ?length_replicate; [lia|lia| |intros z; lia|lia].
  by rewrite Z.eqb_refl.
Qed.

Lemma info_all_used n v :
  1 ≤ n → Z.land v (Z.ones n) = Z.ones n → info_ok (vbits n v) (mk_valinfo 0 0 0 0).
Proof.
  intros Hn Hv. rewrite land_eq_mask in Hv. rewrite (vbits_const _ _ true); last first.
  { intros k Hk. apply Hv; [lia|]. rewrite ones_bits by lia. apply Z.ltb_lt. lia. }
  destruct (all_used_facts (Z.to_nat n)) as (H1 & H2 & H3 & H4).
  split; cbn [nfree nlsfree nmsfree mxfree]; rewrite ?H1, ?H2, ?H3, ?H4; [done|done| |intros z; lia|done].
  by case_match.
Qed.

(** Two parts of a value. *)
Lemma info_combine n h v ls ms :
  0 ≤ h ≤ n → n ≤ 255 → info_ok (vbits h v) ls → info_ok (vbits (n - h) (Z.shiftr v h)) ms →
  info_ok (vbits n v) (gran_info_combine ms (n - h) ls h).
Proof.
  intros Hh Hn Hls Hms. replace n with (h + (n - h)) at 1 by lia. rewrite vbits_split by lia.
  pose proof (combine_ok _ _ _ _ Hls Hms) as Hc. rewrite !vbits_len in Hc by lia. apply Hc. lia.
Qed.

(** ** Nibbles, bytes and half words *)

Lemma ones_shift n : 0 ≤ n → Z.shiftl 1 n - 1 = Z.ones n.
Proof. intros. rewrite Z.ones_equiv, Z.shiftl_1_l. lia. Qed.

Definition info_okb (l : list bool) (v : valinfo_s) : bool :=
  (nfree v =? count_free l) && (nlsfree v =? lead l) &&
  (nmsfree v =? (if lead l =? len l then 0 else trail l)) &&
  (longest l =? Z.max (lead l) (Z.max (nmsfree v) (mxfree v))) && (0 <=? mxfree v).

Lemma info_okb_ok l v : info_okb l v = true → info_ok l v.
Proof.
  unfold info_okb. rewrite !andb_true_iff, !Z.eqb_eq, Z.leb_le. intros [[[[? ?] ?] ?] ?].
  split; [done..| |done]. intros z. lia.
Qed.

(** All entries of the tables. *)
Lemma nibble_table :
  Forall (λ n, Forall (λ x, from_option (info_okb (vbits n x)) false (gran_nibble_info x n) = true)
                      (seqZ 0 (2 ^ n))) (seqZ 0 5).
Proof. by_decide. Qed.

Lemma nibble_ok v n :
  0 ≤ n ≤ 4 → ∃ i, gran_nibble_info v n = Some i ∧ info_ok (vbits n v) i.
Proof.
  intros Hn. set (x := Z.land v (Z.ones n)).
  assert (0 ≤ x < 2 ^ n) as Hx by (unfold x; rewrite Z.land_ones by lia; apply Z.mod_pos_bound,
    Z.pow_pos_nonneg; lia).
  assert (gran_nibble_info v n = gran_nibble_info x n) as ->.
  { unfold gran_nibble_info. rewrite ones_shift by lia.
    assert (u8 (Z.ones n) = Z.ones n) as ->.
    { apply u8_small. rewrite Z.ones_equiv. pose proof (Z.pow_pos_nonneg 2 n).
      pose proof (Z.pow_le_mono_r 2 n 4). change (2 ^ 4) with 16 in *. lia. }
    unfold x. by rewrite <- Z.land_assoc, Z.land_diag. }
  rewrite <- (vbits_land n v n) by lia. fold x.
  pose proof nibble_table as Ht. rewrite Forall_forall in Ht. specialize (Ht n ltac:(apply elem_of_seqZ; lia)).
  rewrite Forall_forall in Ht. specialize (Ht x ltac:(apply elem_of_seqZ; lia)).
  destruct (gran_nibble_info x n) as [i|]; [|done]. exists i. split; [done|]. by apply info_okb_ok.
Qed.

(** The cases that bytes, half words and words share: all free, all allocated, or two
    parts. *)
Section part.
Context (f : Z → Z → option valinfo_s) (h : Z).
Context (f_ok : ∀ v n, 0 ≤ v < 2 ^ h → 1 ≤ n ≤ h → ∃ i, f v n = Some i ∧ info_ok (vbits n v) i).

Lemma part_ok v n :
  0 ≤ h ≤ 127 → 0 ≤ v → v < 2 ^ n → 1 ≤ n ≤ 2 * h →
  ∃ i, (if v =? 0 then Some (mk_valinfo (u8 n) (u8 n) 0 0)
        else if v =? Z.ones n then Some (mk_valinfo 0 0 0 0)
        else
          info ← f (Z.land v (Z.ones h)) (if h <? n then h else n);
          if h <? n then
            msinfo ← f (Z.shiftr v h) (n - h); Some (gran_info_combine msinfo (n - h) info h)
          else Some info) = Some i ∧ info_ok (vbits n v) i.
Proof using f_ok.
  intros Hh H0 Hv Hn. destruct (Z.eqb_spec v 0) as [->|_].
  { eexists. split; [done|]. by apply info_all_free; [lia|]. }
  destruct (Z.eqb_spec v (Z.ones n)) as [->|_].
  { eexists. split; [done|]. apply info_all_used; [lia|]. apply Z.land_diag. }
  assert (0 ≤ Z.land v (Z.ones h) < 2 ^ h) as Hl.
  { rewrite Z.land_ones by lia. apply Z.mod_pos_bound, Z.pow_pos_nonneg; lia. }
  destruct (Z.ltb_spec h n) as [Hlt|Hge].
  - destruct (f_ok (Z.land v (Z.ones h)) h) as (i & -> & Hi); [done|lia|].
    destruct (f_ok (Z.shiftr v h) (n - h)) as (j & Hj & Hj'); [|lia|].
    { rewrite Z.shiftr_div_pow2 by lia. split; [apply Z.div_pos; [lia|apply Z.pow_pos_nonneg; lia]|].
      apply Z.div_lt_upper_bound; [apply Z.pow_pos_nonneg; lia|]. rewrite <- Z.pow_add_r by lia.
      eapply Z.lt_le_trans; [exact Hv|]. apply Z.pow_le_mono_r; lia. }
    simpl. rewrite Hj. simpl. eexists. split; [done|]. apply info_combine; [lia|lia| |done].
    by rewrite vbits_land in Hi by lia.
  - destruct (f_ok (Z.land v (Z.ones h)) n) as (i & -> & Hi); [done|lia|]. simpl.
    eexists. split; [done|]. by rewrite vbits_land in Hi by lia.
Qed.
End part.

Lemma masked v n : 1 ≤ n → 0 ≤ Z.land v (Z.ones n) ∧ Z.land v (Z.ones n) < 2 ^ n.
Proof. intros. rewrite Z.land_ones by lia. apply Z.mod_pos_bound, Z.pow_pos_nonneg; lia. Qed.

Lemma ones_u16 n : 0 ≤ n ≤ 16 → u16 (Z.shiftl 1 n - 1) = Z.ones n.
Proof.
  intros Hn. rewrite ones_shift by lia. apply u16_small. rewrite Z.ones_equiv.
  pose proof (Z.pow_pos_nonneg 2 n). pose proof (Z.pow_le_mono_r 2 n 16). change (2 ^ 16) with 65536 in *. lia.
Qed.

Lemma byte_ok v n :
  0 ≤ v < 2 ^ 8 → 1 ≤ n ≤ 8 → ∃ i, gran_byte_info v n = Some i ∧ info_ok (vbits n v) i.
Proof.
  intros Hv Hn. unfold gran_byte_info.
  rewrite ones_u16 by lia.
  assert ((if n <? 8 then (Z.ones n, Z.land v (Z.ones n)) else (255, v)) = (Z.ones n, Z.land v (Z.ones n))) as ->.
  { destruct (Z.ltb_spec n 8); [done|]. replace n with 8 by lia.
    by rewrite Z.land_ones, Z.mod_small by lia. }
  rewrite <- (vbits_land n v n) by lia. destruct (masked v n) as [H0 Hlt]; [lia|].
  apply (part_ok gran_nibble_info 4); [|lia|done|done|lia]. intros. apply nibble_ok. lia.
Qed.

Lemma hword_ok v n :
  0 ≤ v < 2 ^ 16 → 1 ≤ n ≤ 16 → ∃ i, gran_hword_info v n = Some i ∧ info_ok (vbits n v) i.
Proof.
  intros Hv Hn. unfold gran_hword_info.
  rewrite ones_u16 by lia.
  assert ((if n <? 16 then (Z.ones n, Z.land v (Z.ones n)) else (65535, v)) = (Z.ones n, Z.land v (Z.ones n))) as ->.
  { destruct (Z.ltb_spec n 16); [done|]. replace n with 16 by lia.
    by rewrite Z.land_ones, Z.mod_small by lia. }
  rewrite <- (vbits_land n v n) by lia. destruct (masked v n) as [H0 Hlt]; [lia|].
  cbv beta iota zeta. set (x := Z.land v (Z.ones n)) in *.
  assert (x < 2 ^ 16) as Hx16 by (eapply Z.lt_le_trans; [exact Hlt|apply Z.pow_le_mono_r; lia]).
  rewrite (u8_small (Z.shiftr x 8)).
  - apply (part_ok gran_byte_info 8); [|lia|done|done|lia]. intros. by apply byte_ok.
  - rewrite Z.shiftr_div_pow2 by lia. change (2 ^ 16) with 65536 in *. change (2 ^ 8) with 256.
    Z.div_mod_to_equations. lia.
Qed.

(** ** The table *)

(** What is known behind the granules [l]. *)
Record seen (l : list bool) (nf mx run : Z) : Prop := {
  sn_nfree : nf = count_free l;
  sn_run : run = trail l;
  sn_longest z : longest l ≤ z ↔ mx ≤ z ∧ run ≤ z;
  sn_mx : 0 ≤ mx;
}.

Lemma entry_info v n :
  0 ≤ v < 2 ^ n → 1 ≤ n ≤ 32 →
  ∃ i, (hwinfo ← gran_hword_info (Z.land v 65535) (if 16 <? n then 16 else n);
        (if 16 <? n then
           msinfo ← gran_hword_info (u16 (Z.shiftr v 16)) (n - 16);
           Some (gran_info_combine msinfo (n - 16) hwinfo 16)
         else Some hwinfo)) = Some i ∧ info_ok (vbits n v) i.
Proof.
  intros Hv Hn. destruct (masked v 16) as [Hl0 Hl1]; [lia|]. change 65535 with (Z.ones 16).
  destruct (Z.ltb_spec 16 n) as [Hlt|Hge].
  - destruct (hword_ok (Z.land v (Z.ones 16)) 16) as (i & -> & Hi); [done|lia|].
    assert (0 ≤ Z.shiftr v 16 < 2 ^ 16) as Hs.
    { assert (v < 2 ^ 32) by (eapply Z.lt_le_trans; [apply Hv|apply Z.pow_le_mono_r; lia]).
      rewrite Z.shiftr_div_pow2 by lia. change (2 ^ 32) with 4294967296 in *. change (2 ^ 16) with 65536.
      Z.div_mod_to_equations. lia. }
    rewrite u16_small by exact Hs.
    destruct (hword_ok (Z.shiftr v 16) (n - 16)) as (j & Hj & Hj'); [done|lia|].
    simpl. rewrite Hj. simpl. eexists. split; [done|]. apply info_combine; [lia|lia| |done].
    by rewrite vbits_land in Hi by lia.
  - destruct (hword_ok (Z.land v (Z.ones 16)) n) as (i & -> & Hi); [done|lia|]. simpl.
    eexists. split; [done|]. by rewrite vbits_land in Hi by lia.
Qed.

Lemma entry_ok l v n nf mx run :
  seen l nf mx run → 0 ≤ v < 2 ^ n → 1 ≤ n ≤ 32 → len l + n ≤ 65535 →
  ∃ nf' mx' run', gran_info_entry v (Z.ones n) n nf mx run = Some (nf', mx', run') ∧
    seen (l ++ vbits n v) nf' mx' run'.
Proof.
  intros [Hnf Hrun Hlong Hmx] Hv Hn Hlen. unfold gran_info_entry.
  pose proof (count_free_bound l). pose proof (trail_bound l).
  pose proof (longest_nonneg l). pose proof (vbits_len n v ltac:(lia)) as Hvl.
  destruct (Z.eqb_spec v (Z.ones n)) as [->|Hnm]; [|destruct (Z.eqb_spec v 0) as [->|Hn0]].
  - destruct (info_all_used n (Z.ones n)) as [Hf Hl Hm Hg _]; [lia|apply Z.land_diag|]. cbn in Hf, Hl, Hm, Hg.
    pose proof (trail_full (vbits n (Z.ones n))).
    do 3 eexists. split; [done|]. split.
    + rewrite count_free_app. lia.
    + rewrite trail_app. z_cases; [lia|]. rewrite Hvl, <- Hl in *. destruct (Z.eqb_spec 0 n); lia.
    + intros z. rewrite longest_app, !Z.max_lub_iff, Hlong, Hg, if_max_le. lia.
    + z_cases; lia.
  - destruct (info_all_free n 0) as [Hf Hl Hm Hg _]; [lia|done|]. cbn [nfree nlsfree nmsfree mxfree] in *.
    rewrite u8_small in Hf, Hl by lia. do 3 eexists. split; [done|]. rewrite !u16_small by lia. split.
    + rewrite count_free_app. lia.
    + rewrite trail_app, <- Hl, Hvl, Z.eqb_refl. lia.
    + intros z. rewrite longest_app, !Z.max_lub_iff, Hlong, Hg. lia.
    + done.
  - destruct (entry_info v n Hv Hn) as (i & Hi & [Hf Hl Hm Hg Hx]).
    pose proof (count_free_bound (vbits n v)). pose proof (lead_bound (vbits n v)).
    pose proof (trail_bound (vbits n v)). pose proof (trail_full (vbits n v)).
    rewrite Hvl in *.
    match type of Hi with (?a ≫= ?f) = _ => set (A := a) in *; set (B := f) in * end.
    assert (∀ C (k : valinfo_s → option C), (A ≫= λ h, B h ≫= k) = k i) as ->.
    { intros C k. rewrite <- (option_bind_eq _ k i Hi). by rewrite option_bind_assoc. }
    assert ((if 0 <? nlsfree i then u16 (run + nlsfree i) else run) = run + lead (vbits n v)) as ->.
    { rewrite Hl. z_cases; [|lia]. rewrite u16_small; lia. }
    rewrite u16_small by lia. rewrite Hl, Hf. destruct (Z.ltb_spec (lead (vbits n v)) n) as [Hlt|Hge].
    + rewrite (proj2 (Z.eqb_neq _ _)) in Hm by lia. do 3 eexists. split; [done|]. split.
      * rewrite count_free_app. lia.
      * rewrite trail_app, Hvl, (proj2 (Z.eqb_neq _ _)) by lia. lia.
      * intros z. rewrite longest_app, !Z.max_lub_iff, Hlong, Hg, !if_max_le. lia.
      * z_cases; lia.
    + pose proof (proj1 (Hg (longest (vbits n v))) ltac:(lia)). pose proof (longest_bound (vbits n v)).
      rewrite (proj2 (Z.eqb_eq _ _)) in Hm by lia. do 3 eexists. split; [done|]. split.
      * rewrite count_free_app. lia.
      * rewrite trail_app, Hvl, (proj2 (Z.eqb_eq _ _)) by lia. lia.
      * intros z. rewrite longest_app, !Z.max_lub_iff, Hlong, Hg. lia.
      * done.
Qed.

Section info.
Context `{Config} (g : gran_s) (Hok : gran_ok g).

(** The granules before [k]. *)
Abbreviation before k := (bit (gat g) <$> seqZ 0 k).

Lemma before_entry k n v :
  0 ≤ k → k mod 32 = 0 → 0 ≤ n ≤ 32 → gat g !! Z.to_nat (k / 32) = Some v →
  before (k + n) = before k ++ vbits n v.
Proof using.
  intros Hk Hm Hn Hv. rewrite seqZ_app, fmap_app, Z.add_0_l by lia. f_equal.
  rewrite <- (Z.add_0_r k) at 1. rewrite <- fmap_add_seqZ, <- list_fmap_compose.
  apply list_fmap_ext. intros i j Hj. apply list_elem_of_lookup_2, elem_of_seqZ in Hj. simpl. unfold bit.
  replace ((k + j) / 32) with (k / 32) by (Z.div_mod_to_equations; lia).
  replace ((k + j) mod 32) with j by (Z.div_mod_to_equations; lia). by rewrite Hv.
Qed.

Lemma info_loop_ok fuel k nf mx run :
  gs_ngranules g mod 32 ≠ 0 →
  0 ≤ k → k mod 32 = 0 → k < gs_ngranules g + 32 → gs_ngranules g ≤ k + 32 * (Z.of_nat fuel - 1) → (0 < fuel)%nat →
  seen (before (k `min` gs_ngranules g)) nf mx run →
  ∃ nf' mx' run', gran_info_loop fuel g k nf mx run = Some (nf', mx', run') ∧ seen (granules g) nf' mx' run'.
Proof using Hok.
  intros Hng. revert k nf mx run. induction fuel as [|fuel IH]; intros k nf mx run Hk Hm Hk' Hf Hpos Hseen; [lia|].
  cbn [gran_info_loop]. destruct (Z.ltb_spec k (gs_ngranules g)) as [Hlt|Hge].
  2: { do 3 eexists. split; [done|]. by rewrite Z.min_r in Hseen by lia. }
  rewrite Z.min_l in Hseen by lia. rewrite Z.shiftr_div_pow2 by lia. change (2 ^ 5) with 32.
  pose proof (go_gat _ Hok) as Hlen. pose proof (go_ngranules _ Hok) as Hb.
  destruct (lookup_lt_is_Some_2 (gat g) (Z.to_nat (k / 32))) as [v Hv]; [Z.div_mod_to_equations; lia|].
  rewrite (option_bind_eq _ _ _ Hv). pose proof (go_words _ Hok) as Hw. rewrite Forall_forall in Hw.
  specialize (Hw v (list_elem_of_lookup_2 _ _ _ Hv)).
  assert (len (before k) = k) as Hbl by (rewrite length_fmap, length_seqZ; lia).
  destruct (Z.leb_spec (gs_ngranules g) (k + 32)) as [Hlast|Hmore].
  - set (n := gs_ngranules g - k). assert (1 ≤ n < 32) as Hn by (unfold n; Z.div_mod_to_equations; lia).
    rewrite (proj2 (Z.ltb_lt n 32)) by lia. cbn [mbind option_bind].
    rewrite ones_shift, u32_small by (pose proof (ones_u32_ok n); unfold u32_ok in *; lia).
    destruct (masked v n) as [Hv0 Hv1]; [lia|].
    destruct (entry_ok (before k) (Z.land v (Z.ones n)) n nf mx run Hseen) as (nf1 & mx1 & run1 & -> & Hs1);
      [lia|lia|lia|]. cbn [mbind option_bind]. apply IH; [lia|Z.div_mod_to_equations; lia|lia|lia|lia|].
    rewrite Z.min_r by lia. replace (gs_ngranules g) with (k + n) by (unfold n; lia).
    rewrite (before_entry k n v) by (done || lia). by rewrite vbits_land in Hs1 by lia.
  - cbn [mbind option_bind]. change ALL_ONES with (Z.ones 32).
    destruct (entry_ok (before k) v 32 nf mx run Hseen) as (nf1 & mx1 & run1 & -> & Hs1);
      [exact Hw|lia|lia|]. cbn [mbind option_bind]. apply IH; [lia|Z.div_mod_to_equations; lia|lia|lia|lia|].
    rewrite Z.min_l by lia. by rewrite (before_entry k 32 v) by (done || lia).
Qed.

Lemma info_ok' :
  gs_ngranules g mod 32 ≠ 0 →
  gran_info (Some g) = Some (mk_graninfo (log2gran g) (gs_ngranules g) (count_free (granules g))
                               (longest (granules g)), Some g).
Proof using Hok.
  intros Hng. pose proof (go_gat _ Hok). pose proof (go_ngranules _ Hok).
  destruct (info_loop_ok (S (length (gat g))) 0 0 0 0 Hng) as (nf & mx & run & Hloop & [-> _ Hlong Hmx]);
    [lia|done|lia|Z.div_mod_to_equations; lia|lia| |].
  { rewrite Z.min_l by lia. split; [done|done| |done]. intros z. simpl. lia. }
  unfold gran_info. rewrite (K_bind_Some _ _ _ (Some g) (Some g)) by done.
  rewrite (K_bind_Some _ _ _ tt (Some g)) by (unfold kassert; by rewrite DEBUGASSERT_true).
  rewrite (K_bind_Some _ _ _ g (Some g)) by done.
  rewrite (K_bind_Some _ _ _ (count_free (granules g), mx, run) (Some g)) by (unfold klift; by rewrite Hloop).
  unfold mret, K_ret. do 3 f_equal. pose proof (proj1 (Hlong (longest (granules g))) ltac:(lia)).
  pose proof (Hlong (Z.max mx run)). z_cases; lia.
Qed.
End info.
