(* ===== verification/GranProps.v ===== *)
(** * GranProps: the granule and page allocators

    The properties of mm/mm_gran, and what does not hold of it. *)

From S2P Require Import Prelude Gran GranSpec GranSearch GranAlloc GranInfo Alloc.
Local Open Scope Z_scope.

(** ** Positions in the list of granules *)

Section positions.
Context (g : gran_s) (Hok : gran_ok g).

Lemma granules_length : Z.of_nat (length (granules g)) = gs_ngranules g.
Proof using Hok. unfold granules. rewrite length_fmap, length_seqZ. pose proof (go_ngranules _ Hok). lia. Qed.

Lemma granules_lookup j : 0 ≤ j < gs_ngranules g → granules g !! Z.to_nat j = Some (bit (gat g) j).
Proof using. intros Hj. unfold granules. rewrite list_lookup_fmap, lookup_seqZ_lt by lia. simpl. do 2 f_equal.
lia. Qed.

Lemma run_at_free n i :
  0 ≤ n → 0 ≤ i → run_at (granules g) (Z.to_nat n) (Z.to_nat i) ↔ free_at g n i.
Proof using Hok.
  intros Hn Hi. unfold run_at, free_at. pose proof granules_length as Hl. split.
  - intros [Hle Hk]. split; [lia|]. intros j Hj. specialize (Hk (Z.to_nat (j - i)) ltac:(lia)).
    replace (Z.to_nat i + Z.to_nat (j - i))%nat with (Z.to_nat j) in Hk by lia.
    rewrite granules_lookup in Hk by lia. by injection Hk.
  - intros [Hle Hk]. split; [lia|]. intros k Hkn.
    replace (Z.to_nat i + k)%nat with (Z.to_nat (i + Z.of_nat k)) by lia.
    rewrite granules_lookup by lia. f_equal. apply Hk. lia.
Qed.

Lemma first_fit_least n i :
  0 ≤ n → 0 ≤ i → free_at g n i → (∀ j, 0 ≤ j < i → ¬ free_at g n j) →
  first_fit (Z.to_nat n) (granules g) = Some (Z.to_nat i).
Proof using Hok.
  intros Hn Hi Hf Hfirst. pose proof (run_at_free n) as Hrun. apply (Hrun i Hn Hi) in Hf.
  destruct (first_fit _ _) as [i'|] eqn:Hff; [|exfalso; by eapply first_fit_None].
  apply first_fit_Some in Hff as [Hat' Hfirst']. f_equal.
  destruct (Nat.lt_trichotomy (Z.to_nat i) i') as [Hlt|[?|Hgt]]; [exfalso; by eapply Hfirst'|done|].
  exfalso. apply (Hfirst (Z.of_nat i')); [lia|]. apply Hrun; [done|lia|]. by rewrite Nat2Z.id.
Qed.

Lemma first_fit_no n :
  0 ≤ n → (∀ i, 0 ≤ i → ¬ free_at g n i) → first_fit (Z.to_nat n) (granules g) = None.
Proof using Hok.
  intros Hn Hno. destruct (first_fit _ _) as [i|] eqn:Hff; [|done]. exfalso.
  apply first_fit_Some in Hff as [Hat _]. apply (Hno (Z.of_nat i)); [lia|]. apply run_at_free; [done|lia|].
  by rewrite Nat2Z.id.
Qed.

(** The granules after a range has changed. *)
Lemma granules_ranged i n b l :
  0 ≤ i → 0 ≤ n → i + n ≤ gs_ngranules g → ranged i n b (gat g) l →
  granules (set_gat l g) =
    take (Z.to_nat i) (granules g) ++ replicate (Z.to_nat n) b ++ drop (Z.to_nat (i + n)) (granules g).
Proof using Hok.
  intros Hi Hn Hle (_ & _ & Hb). pose proof granules_length as Hl. apply list_eq. intros k.
  destruct (decide (Z.of_nat k < gs_ngranules g)) as [Hk|Hk].
  - transitivity (Some (bit l (Z.of_nat k))).
    { unfold granules. simpl. by rewrite list_lookup_fmap, lookup_seqZ_lt by lia. }
    rewrite Hb by lia. pose proof (granules_lookup (Z.of_nat k) ltac:(lia)) as Hgk. rewrite Nat2Z.id in Hgk.
    destruct (in_range i n (Z.of_nat k)) eqn:Hr.
    + apply in_range_spec in Hr. rewrite lookup_app_r, length_take by (rewrite length_take; lia).
      rewrite lookup_app_l by (rewrite length_replicate; lia). by rewrite lookup_replicate_2 by lia.
    + apply in_range_out in Hr as [Hr|Hr].
      * rewrite lookup_app_l by (rewrite length_take; lia). by rewrite lookup_take_lt by lia.
      * rewrite lookup_app_r, length_take by (rewrite length_take; lia).
        rewrite lookup_app_r, length_replicate by (rewrite length_replicate; lia).
        rewrite lookup_drop. rewrite <- Hgk. f_equal. lia.
  - rewrite !lookup_ge_None_2; [done| |].
    + rewrite !length_app, length_take, length_replicate, length_drop. lia.
    + unfold granules. simpl. rewrite length_fmap, length_seqZ. lia.
Qed.
End positions.

Section props.
Context `{Config}.


(** C25: The safety of the granule allocator, from the laws of the interface [AllocLaws]:
    after [gran_initialize], whatever sequence of requests, releases and stores a caller
    makes, every call succeeds, the blocks that it holds do not overlap, lie in the heap
    at granules, and hold what was stored there.  The heap has up to 32 granules, or the
    requests are of one granule each. *)
Theorem gran_history_safe zalloc start heapsize lg la b max m ops :
  let al := 2 ^ la * ((start + 2 ^ la - 1) / 2 ^ la) in
  let n := (start + heapsize - al) / 2 ^ lg in
  0 < start → 0 < heapsize → start + heapsize < 4294967296 → 0 < lg ≤ 26 → 0 ≤ la ≤ lg →
  al ≤ start + heapsize → n < 65536 → u32_ok b → zalloc (16 + 4 * ((n + 31) / 32 - 1)) = Some b →
  n ≤ 32 ∧ max = 32 * 2 ^ lg ∨ max = 2 ^ lg →
  (∀ w, al ≤ w < al + n * 2 ^ lg → is_Some (m !! w)) → Forall (op_ok max) ops →
  ∃ h h' m' bs, gran_initialize zalloc start heapsize lg la = Some h ∧
    alloc_run ops ((h, m), []) = Some ((h', m'), bs) ∧
    (∀ i j b b', bs.*1 !! i = Some b → bs.*1 !! j = Some b' → i ≠ j → disjoint_blocks b b') ∧
    (∀ b c, (b, c) ∈ bs → (b.1 - al) mod 2 ^ lg = 0 ∧ start ≤ b.1 ∧ b.1 + b.2 ≤ start + heapsize ∧
       ∀ i v, c !! i = Some v → m' !! (b.1 + 4 * i) = Some v).
Proof.
  intros al n H1 H2 H3 H4 H5 H6 H7 H8 H9 Hmax Hmap Hops.
  destruct (gran_initialize_ok zalloc start heapsize lg la b H1 H2 H3 H4 H5 H6 H7 H8 H9)
    as (g & Hinit & Hok & Hlg & Hng & Hst & Hbits). fold al in Hst. fold al n in Hng.
  pose proof (gran_laws lg n al max Hmax) as Hlaws.
  destruct (alloc_run_ok max (gran_inv lg n al max) ops ((Some g, m), [])) as ([[h' m'] bs] & Hrun & Hinv & Hh);
    [|done|].
  { split; [|by intros ? ? ? ? Hin; inversion Hin]. exists g. split_and!; [done..| |].
    - intros i j b1 b2 k Hi. by destruct i.
    - intros j Hj. rewrite Hbits. split; [done|]. intros (b' & Hin & _). inversion Hin. }
  exists (Some g), h', m', bs. split; [done|]. split; [done|]. split.
  - intros i j b1 b2 Hi Hj Hij. by apply (al_disjoint (h', m') bs.*1 i j).
  - intros b1 c Hin. destruct Hinv as (g' & _ & Hok' & Hlg' & _ & _ & _ & Hlive & _).
    rewrite Forall_forall in Hlive. pose proof (list_elem_of_fmap_2 fst _ _ Hin) as Hb. simpl in Hb.
    destruct (Hlive b1 Hb) as (p & Hp & Hp0 & Hsz & Hle).
    destruct (block_size lg n max Hmax g' b1 Hok' Hlg' Hsz) as (_ & _ & _ & Hs & _).
    pose proof (Z.pow_pos_nonneg 2 lg ltac:(lia) ltac:(lia)) as Hpg.
    assert (start ≤ al) as Hlo.
    { unfold al. pose proof (Z.pow_pos_nonneg 2 la ltac:(lia) ltac:(lia)).
      pose proof (Z.div_mod (start + 2 ^ la - 1) (2 ^ la) ltac:(lia)).
      pose proof (Z.mod_pos_bound (start + 2 ^ la - 1) (2 ^ la) ltac:(lia)). lia. }
    assert (n * 2 ^ lg ≤ start + heapsize - al) as Hend by (unfold n; rewrite Z.mul_comm; apply Z.mul_div_le; lia).
    split; [|split; [nia|split; [nia|]]].
    + rewrite Hp. replace (al + p * 2 ^ lg - al) with (p * 2 ^ lg) by lia. apply Z.mod_mul. lia.
    + intros i v Hv. by destruct (Hh b1 c i v Hin Hv).
Qed.

(** [gran_info], which looks the table up four bits at a time, reports what counting
    reports: the number of free granules and the longest sequence of them.  The number of
    granules is not a multiple of 32: for those the mask of the last entry is [1 << 32],
    which C does not define. *)
Theorem gran_info_counts g :
  gran_ok g → gs_ngranules g mod 32 ≠ 0 →
  gran_info (Some g) =
    Some (mk_graninfo (log2gran g) (gs_ngranules g) (count_free (granules g)) (longest (granules g)), Some g).
Proof. intros Hok Hng. by apply info_ok'. Qed.

(** [mm_pgalloc] takes the lowest free page, and no other, whatever number of pages it
    is asked for and however large the heap is; it fails, without effect, exactly when
    there is no free page; and freeing that page restores the table. *)
Theorem mm_pgalloc_lowest_page shift npages g :
  gran_ok g → log2gran g = shift →
  match first_fit 1 (granules g) with
  | None => mm_pgalloc shift npages (Some g) = Some (0, Some g)
  | Some i =>
      let page := heapstart g + Z.of_nat i * 2 ^ shift in
      ∃ g' g'', mm_pgalloc shift npages (Some g) = Some (page, Some g') ∧ gran_ok g' ∧
        granules g' = take i (granules g) ++ [true] ++ drop (S i) (granules g) ∧
        mm_pgfree shift page 1 (Some g') = Some (tt, Some g'') ∧ granules g'' = granules g
  end.
Proof.
  intros Hok Hsh. pose proof (gsize_bounds _ Hok) as HG.
  assert (0 ≤ shift) as Hs0 by (rewrite <- Hsh; apply Hok). rewrite <- Hsh in *. clear Hsh.
  assert (ngran g (gsize g) = 1) as Hn1.
  { unfold ngran. symmetry. apply Z.div_unique with (gsize g - 1); lia. }
  unfold mm_pgalloc, mm_pgfree. rewrite !Z.shiftl_mul_pow2, !Z.mul_1_l by done. rewrite u32_small by lia.
  change 1%nat with (Z.to_nat 1). rewrite <- Hn1.
  destruct (alloc_simple g (gsize g) Hok) as [[Hres Hno]|(i & l & Hi & Hf & Hfirst & Hres & Hl)]; [lia|by right|..].
  { by rewrite first_fit_no by (done || lia). }
  rewrite (first_fit_least g Hok _ i) by (done || lia). rewrite Hn1 in Hf, Hl. cbv zeta. rewrite Z2Nat.id by done.
  destruct Hf as [Hle Hfree]. assert (gran_ok (set_gat l g)) as Hok' by (apply set_gat_ok; [done|apply Hl..]).
  destruct (gran_free_ok (set_gat l g) i (gsize g) Hok') as (l' & Hrun' & Hl').
  { simpl. lia. }
  { lia. }
  { simpl. change (ngran (set_gat l g) (gsize g)) with (ngran g (gsize g)). by rewrite Hn1. }
  { change (ngran (set_gat l g) (gsize g)) with (ngran g (gsize g)). rewrite Hn1. simpl. intros j Hj.
    destruct Hl as (_ & _ & Hb). rewrite Hb by lia. by rewrite (proj2 (in_range_spec _ _ _) Hj). }
  change (ngran (set_gat l g) (gsize g)) with (ngran g (gsize g)) in Hl'. rewrite Hn1 in Hl'. simpl in Hl'.
  exists (set_gat l g), (set_gat l' g). split; [done|]. split; [done|]. split; [|split; [exact Hrun'|]].
  - rewrite (granules_ranged g Hok i 1 true l) by (done || lia).
    by replace (Z.to_nat (i + 1)) with (S (Z.to_nat i)) by lia.
  - unfold granules. apply list_fmap_ext. intros k j Hj. apply list_elem_of_lookup_2, elem_of_seqZ in Hj.
    simpl in Hj |- *.
    destruct Hl as (_ & _ & Hb), Hl' as (_ & _ & Hb'). rewrite Hb', Hb by lia.
    destruct (in_range i 1 j) eqn:Hr; [|done]. apply in_range_spec in Hr. symmetry. apply Hfree. lia.
Qed.

(** ** What does not hold *)

(** [gran_reserve] of [k] whole granules reserves [k + 1]: the end of the region, which is
    in the last granule, is rounded up to the granule behind it, and that one is counted
    too. *)
Lemma gran_reserve_one_more g i k :
  gran_ok g → heapstart g mod gsize g = 0 → 0 ≤ i → 1 ≤ k ≤ 31 → free_at g (k + 1) i → 2 ≤ gsize g →
  ∃ g', gran_reserve (heapstart g + i * gsize g) (k * gsize g) (Some g) = Some (tt, Some g') ∧
    granules g' = take (Z.to_nat i) (granules g) ++ replicate (Z.to_nat (k + 1)) true ++
                  drop (Z.to_nat (i + (k + 1))) (granules g).
Proof.
  intros Hok Hal Hi Hk Hf HG. pose proof (gsize_bounds _ Hok). pose proof (go_end _ Hok). pose proof (go_start _ Hok).
  destruct (mark_ok g i (k + 1) Hok ltac:(lia) Hi Hf) as (l & Hrun & Hl). destruct Hf as [Hle Hf].
  exists (set_gat l g). split; [|by apply granules_ranged; (done || lia)].
  unfold gran_reserve. rewrite (K_bind_Some _ _ _ (Some g) (Some g)) by done.
  rewrite (K_bind_Some _ _ _ tt (Some g)) by (unfold kassert; by rewrite DEBUGASSERT_true).
  rewrite (proj2 (Z.ltb_lt 0 _)) by lia. cbn [kwhen]. rewrite (K_bind_Some _ _ _ g (Some g)) by done.
  cbv zeta. rewrite Z.shiftl_mul_pow2, Z.mul_1_l by apply Hok. set (G := gsize g) in *.
  set (s := heapstart g + i * G) in *. rewrite (u32_small (G - 1)) by lia.
  assert (s mod G = 0) as Hs by (unfold s; rewrite Z.mod_add by lia; done).
  assert (s + k * G + G ≤ 4294967296) as Hmax by (unfold s; nia).
  assert (0 < s) by (unfold s; nia).
  assert (s = G * (s / G)) as Hsd by (apply Z.div_exact; lia).
  assert (Z.land s (Z.lnot (G - 1)) = s) as ->.
  { unfold G. rewrite round_down by apply Hok. by fold G. }
  rewrite (u32_small (s + k * G - 1)), (u32_small (s + k * G - 1 + (G - 1))) by nia.
  assert (Z.land (s + k * G - 1 + (G - 1)) (Z.lnot (G - 1)) = G * (s / G + k)) as ->.
  { unfold G. rewrite round_up by apply Hok. fold G. f_equal. symmetry. apply Z.div_unique with (G - 2); lia. }
  replace (G * (s / G + k) - s) with (k * G) by lia. rewrite u32_small by nia.
  rewrite Z.shiftr_div_pow2 by apply Hok. fold G. by rewrite Z.div_mul by lia.
Qed.
End props.

(** ** Witnesses *)

#[local] Instance demo_config : Config := {|
  CONFIG_DEBUG_ASSERTIONS := true; CONFIG_DEBUG_FEATURES := true;
  CONFIG_SCHED_TICKLESS_ALARM := false; CONFIG_MAX_WDOGPARMS := 4;
  CONFIG_PREALLOC_WDOGS := 32; CONFIG_WDOG_INTRESERVE := 4;
  CONFIG_RR_INTERVAL := 200; CONFIG_USEC_PER_TICK := 10000;
  CONFIG_MAX_TASKS := 16;
|}.

#[local] Definition release_config : Config := {|
  CONFIG_DEBUG_ASSERTIONS := false; CONFIG_DEBUG_FEATURES := false;
  CONFIG_SCHED_TICKLESS_ALARM := false; CONFIG_MAX_WDOGPARMS := 4;
  CONFIG_PREALLOC_WDOGS := 32; CONFIG_WDOG_INTRESERVE := 4;
  CONFIG_RR_INTERVAL := 200; CONFIG_USEC_PER_TICK := 10000;
  CONFIG_MAX_TASKS := 16;
|}.

(** 70 granules of 64 bytes; the first free sequence of 5 is in the second entry. *)
Definition demo_gran : gran_s := mk_gran 6 70 4096 [4294967295; 50334463; 0] 77.

Lemma demo_gran_ok : gran_ok demo_gran.
Proof. split; simpl; [lia|lia|done| | | |lia]; repeat constructor; simpl; lia. Qed.


Definition demo_mem : gmap Z Z := list_to_map ((λ w, (w, 0)) <$> seqZ 4096 1280).

(** 20 granules of 64 bytes. *)
Lemma gran_history_safe_witness :
  ∃ h h' m' bs, gran_initialize (λ _, Some 77) 4090 1290 6 4 = Some h ∧
    alloc_run [OMalloc 100; OMalloc 500; OStore 0 3 8; OFree 1; OMalloc 2000; OMalloc 64] ((h, demo_mem), []) =
      Some ((h', m'), bs) ∧
    (∀ i j b b', bs.*1 !! i = Some b → bs.*1 !! j = Some b' → i ≠ j → disjoint_blocks b b') ∧
    (∀ b c, (b, c) ∈ bs → (b.1 - 4096) mod 2 ^ 6 = 0 ∧ 4090 ≤ b.1 ∧ b.1 + b.2 ≤ 4090 + 1290 ∧
       ∀ i v, c !! i = Some v → m' !! (b.1 + 4 * i) = Some v).
Proof.
  apply (gran_history_safe (λ _, Some 77) 4090 1290 6 4 77 (32 * 2 ^ 6) demo_mem);
    [lia|lia|lia|lia|lia|by vm_compute|by vm_compute|split; lia|done|left; split; [by vm_compute|done]| |].
  - intros w Hw.
    assert (Forall (λ w, is_Some (demo_mem !! w)) (seqZ 4096 1280)) as Hall by by_decide.
    rewrite Forall_forall in Hall. apply Hall, elem_of_seqZ.
    change (2 ^ 4 * ((4090 + 2 ^ 4 - 1) / 2 ^ 4)) with 4096 in Hw.
    change ((4090 + 1290 - 4096) / 2 ^ 6 * 2 ^ 6) with 1280 in Hw. lia.
  - repeat (apply Forall_cons; split; [simpl; lia || done|]). by constructor.
Defined.

Lemma gran_info_counts_witness :
  gran_info (Some demo_gran) = Some (mk_graninfo 6 70 26 12, Some demo_gran).
Proof.
  rewrite (gran_info_counts demo_gran demo_gran_ok) by (by vm_compute). by vm_compute.
Defined.

Lemma mm_pgalloc_lowest_page_witness :
  first_fit 1 (granules demo_gran) = Some 40%nat ∧
  ∃ g' g'', mm_pgalloc 6 4 (Some demo_gran) = Some (6656, Some g') ∧ gran_ok g' ∧
    granules g' = take 40 (granules demo_gran) ++ [true] ++ drop 41 (granules demo_gran) ∧
    mm_pgfree 6 6656 1 (Some g') = Some (tt, Some g'') ∧ granules g'' = granules demo_gran.
Proof.
  assert (first_fit 1 (granules demo_gran) = Some 40%nat) as Hff by by_decide. split; [exact Hff|].
  pose proof (mm_pgalloc_lowest_page 6 4 demo_gran demo_gran_ok eq_refl) as Hres. rewrite Hff in Hres. exact Hres.
Defined.

(** ** Counterexamples *)

(** 96 granules of 64 bytes.  A caller takes 1, 31 and 32 granules, gives the first one
    back and asks for two: the granules 64 and 65 are free, but when the search leaves the
    first entry its address has moved by one granule only instead of 32.  The block that is
    returned, at granule 33, is part of the third block. *)
Lemma gran_alloc_drifts :
  ∃ h g m bs,
    gran_initialize (λ _, Some 0) 4096 6144 6 6 = Some h ∧
    alloc_run (H := @gran_ops release_config) [OMalloc 64; OMalloc 1984; OMalloc 2048; OFree 2; OMalloc 128]
      ((h, ∅), []) = Some ((Some g, m), bs) ∧
    bs.*1 = [(6208, 128); (6144, 2048); (4160, 1984)] ∧
    ¬ disjoint_blocks (6208, 128) (6144, 2048) ∧ granules g !! 64%nat = Some false.
Proof.
  do 4 eexists. split; [by vm_compute|]. split; [vm_compute; reflexivity|]. split; [done|].
  split; [unfold disjoint_blocks; simpl; lia|]. by vm_compute.
Qed.

(** With assertions the same request stops in [gran_mark_allocated]. *)
Lemma gran_alloc_asserts :
  gran_alloc 128 (Some (mk_gran 6 96 4096 [4294967294; 4294967295; 0] 0)) = None.
Proof. by vm_compute. Qed.

(** For 32 granules [gran_info] depends on a shift by 32. *)
Lemma gran_info_undefined : gran_info (Some (mk_gran 6 32 4096 [0] 0)) = None.
Proof. by vm_compute. Qed.

(** [mm_pgalloc] of two pages returns one, so that giving both back clears a page that
    another caller holds. *)
Lemma mm_pgfree_clears_other_page :
  ∃ g g', mm_pgalloc 12 2 (Some (mk_gran 12 8 65536 [2] 0)) = Some (65536, Some g) ∧
    mm_pgfree 12 65536 2 (Some g) = Some (tt, Some g') ∧
    granules g !! 1%nat = Some true ∧ granules g' !! 1%nat = Some false.
Proof. do 2 eexists. split; [by vm_compute|]. split; [by vm_compute|]. by vm_compute. Qed.
