(* ===== verification/IobChain.v ===== *)
(** * IobChain: cells that are linked to chains

    The buffers and the containers of mm/iob are cells of a memory, linked by one of their
    members: [links] gives the addresses along the links, [chain] the contents too, and
    [rest] the cells that are not in a chain. *)

From S2P Require Import Prelude.

(** Run the first step of the code by the equation [H]. *)
Tactic Notation "run" constr(H) := rewrite (K_bind_Some _ _ _ _ _ H).

Lemma K_bind_assoc {S A B C} (c : K S A) (f : A → K S B) (g : B → K S C) s :
  (c ≫= (λ a, f a ≫= g)) s = ((c ≫= f) ≫= g) s.
Proof. unfold mbind, K_bind. by destruct (c s) as [[a s1]|]. Qed.

Lemma K_bind_twice {S A B} (c : K S A) (w : A → K S unit) (k : A → K S B) s a s' :
  (x ← c; w x;; mret x) s = Some (a, s') → (x ← c; w x;; k x) s = k a s'.
Proof.
  intros (x & s1 & Hc & (u & s2 & Hw & [= -> ->])%K_bind_inv)%K_bind_inv. run Hc. by run Hw.
Qed.

Lemma K_bind_ext {S A B} (c d : K S A) (f : A → K S B) s : c s = d s → (c ≫= f) s = (d ≫= f) s.
Proof. intros Hcd. unfold mbind, K_bind. by rewrite Hcd. Qed.

(** ** Chains *)

Section chains.
Context {A : Type} (link : A → ptr).

Fixpoint links (m : mem A) (p : ptr) (l : list addr) : Prop :=
  match l with
  | [] => p = NULL
  | a :: l => p = Some a ∧ ∃ x, m !! a = Some x ∧ links m (link x) l
  end.

Fixpoint chain (O : mem A) (p : ptr) (l : list (addr * A)) : Prop :=
  match l with
  | [] => p = NULL
  | (a, x) :: l => p = Some a ∧ O !! a = Some x ∧ chain O (link x) l
  end.

(** The first part of a chain, up to the buffer at [q]. *)
Fixpoint segment (O : mem A) (p : ptr) (l : list (addr * A)) (q : ptr) : Prop :=
  match l with
  | [] => p = q
  | (a, x) :: l => p = Some a ∧ O !! a = Some x ∧ segment O (link x) l q
  end.

(** The buffers that are not those of a packet. *)
Definition rest (O : mem A) (L : list addr) : mem A := filter (λ kv, kv.1 ∉ L) O.

Implicit Types (O m : mem A) (p q : ptr) (l : list (addr * A)) (L : list addr).

Lemma chain_app O p l1 l2 : chain O p (l1 ++ l2) ↔ ∃ q, segment O p l1 q ∧ chain O q l2.
Proof.
  revert p. induction l1 as [|[a x] l1 IH]; intros p; simpl; [naive_solver|].
  rewrite IH. naive_solver.
Qed.

Lemma chain_lookup O p l a x : chain O p l → (a, x) ∈ l → O !! a = Some x.
Proof.
  revert p. induction l as [|[b y] l IH]; intros p Hc; [by intros ?%elem_of_nil|].
  destruct Hc as (-> & Hy & Hc). intros [[= -> ->]|Hin]%elem_of_cons; [done|]. by eapply IH.
Qed.

Lemma chain_same O p l l' : chain O p l → chain O p l' → l = l'.
Proof.
  revert p l'. induction l as [|[a x] l IH]; intros p [|[b y] l']; simpl.
  - done.
  - by intros -> (? & _).
  - by intros (-> & _) ?.
  - intros (-> & Hx & Hc) ([= <-] & Hy & Hc'). simplify_eq. f_equal. by eapply IH.
Qed.

(** A chain that ends has no cycle. *)
Lemma chain_NoDup O p l : chain O p l → NoDup l.*1.
Proof.
  revert p. induction l as [|[a x] l IH]; intros p Hc; [constructor|].
  simpl. constructor; [|destruct Hc as (_ & _ & Hc); by eapply IH].
  intros Hin. apply list_elem_of_fmap in Hin as ([b y] & -> & Hin). simpl in *.
  destruct Hc as (-> & Hx & Hc).
  apply list_elem_of_split in Hin as (l1 & l2 & ->).
  pose proof Hc as Hc'. apply chain_app in Hc' as (q & _ & Hq). destruct Hq as (-> & Hy & Hq). simplify_eq.
  pose proof (chain_same _ _ _ _ Hc Hq) as Heq. apply (f_equal length) in Heq.
  rewrite length_app in Heq. simpl in Heq. lia.
Qed.

Lemma chain_agree O O' p l :
  chain O p l → (∀ a, a ∈ l.*1 → O' !! a = O !! a) → chain O' p l.
Proof.
  revert p. induction l as [|[a x] l IH]; intros p Hc Hag; [done|]. destruct Hc as (-> & Hx & Hc).
  split_and!; [done| |].
  - rewrite Hag by set_solver. done.
  - apply IH; [done|]. intros b Hb. apply Hag. set_solver.
Qed.

Lemma chain_mono O O' p l : chain O p l → O ⊆ O' → chain O' p l.
Proof.
  intros Hc Hs. eapply chain_agree; [done|]. intros a ([b x] & -> & Hin)%list_elem_of_fmap. simpl.
  pose proof (chain_lookup _ _ _ _ _ Hc Hin) as Hx. rewrite Hx. by eapply lookup_weaken.
Qed.

Lemma segment_agree O O' p l q :
  segment O p l q → (∀ a, a ∈ l.*1 → O' !! a = O !! a) → segment O' p l q.
Proof.
  revert p. induction l as [|[a x] l IH]; intros p Hc Hag; [done|]. destruct Hc as (-> & Hx & Hc).
  split_and!; [done| |].
  - rewrite Hag by set_solver. done.
  - apply IH; [done|]. intros b Hb. apply Hag. set_solver.
Qed.

Lemma links_agree m m' p L :
  links m p L → (∀ a, a ∈ L → m' !! a = m !! a) → links m' p L.
Proof.
  revert p. induction L as [|a L IH]; intros p Hc Hag; [done|]. destruct Hc as (-> & x & Hx & Hc).
  split; [done|]. exists x. split; [rewrite Hag by set_solver; done|].
  apply IH; [done|]. intros b Hb. apply Hag. set_solver.
Qed.

Lemma links_lookup m p L a : links m p L → a ∈ L → is_Some (m !! a).
Proof.
  revert p. induction L as [|b L IH]; intros p Hc; [by intros ?%elem_of_nil|].
  destruct Hc as (-> & x & Hx & Hc). intros [->|Hin]%elem_of_cons; [eauto|]. by eapply IH.
Qed.

Lemma rest_lookup O L a : rest O L !! a = if decide (a ∈ L) then None else O !! a.
Proof.
  unfold rest. destruct (decide (a ∈ L)) as [Ha|Ha].
  - apply map_lookup_filter_None. right. intros x _ Hn. by apply Hn.
  - destruct (O !! a) as [x|] eqn:Hx.
    + by apply map_lookup_filter_Some.
    + apply map_lookup_filter_None. by left.
Qed.

Lemma rest_nil O : rest O [] = O.
Proof. apply map_eq. intros a. by rewrite rest_lookup, decide_False by set_solver. Qed.

Lemma rest_cons O a L : rest O (a :: L) = rest (delete a O) L.
Proof. apply map_eq. intros b. rewrite !rest_lookup, lookup_delete. repeat case_decide; set_solver. Qed.

Lemma rest_subseteq O L : rest O L ⊆ O.
Proof. apply map_filter_subseteq. Qed.
End chains.

#[global] Arguments chain_mono {A link} O O' p l _ _.
#[global] Arguments chain_app {A link} O p l1 l2.
#[global] Arguments chain_lookup {A link} O p l a x _ _.
#[global] Arguments chain_same {A link} O p l l' _ _.
#[global] Arguments chain_NoDup {A link} O p l _.
#[global] Arguments chain_agree {A link} O O' p l _ _.
#[global] Arguments segment_agree {A link} O O' p l q _ _.
#[global] Arguments links_agree {A link} m m' p L _ _.
#[global] Arguments links_lookup {A link} m p L a _ _.

(** The two maps have the same buffers off the packet. *)
Ltac rest_eq :=
  apply map_eq; intros ?; rewrite !rest_lookup, ?lookup_insert, ?lookup_delete, ?lookup_insert;
  repeat case_decide; subst; first [done|set_solver].

(** The chains of a map of which one cell changed. *)
Ltac same_cells :=
  let b := fresh "b" in let Hb := fresh "Hb" in
  intros b Hb; repeat first [rewrite lookup_insert_ne by set_solver|rewrite lookup_delete_ne by set_solver]; try done.
