(* ===== verification/Iob.v ===== *)
(** * Iob: I/O buffers (mm/iob)

    Packets are kept in chains of buffers of a fixed size, which come from a pool.  The
    buffers that are not in use are in a free list; a buffer that is freed while a task
    waits for one goes to the committed list, from which only that task takes it.  Queues
    of packets are lists of containers, which come from a second pool.

    The state has the buffers and the containers as memories, the heads of the lists and
    the counts of the semaphores.  A task that waits gives the CPU away: what happens
    until [nxsem_wait] returns is a parameter, of [IobEnv].  Critical sections make the
    operations on the lists atomic. *)

From S2P Require Import Prelude.
Local Open Scope Z_scope.

(** ** Configuration *)

Class IobConfig := {
  CONFIG_IOB_BUFSIZE : Z;
  CONFIG_IOB_NBUFFERS : nat;
  CONFIG_IOB_NCHAINS : nat;
  CONFIG_IOB_THROTTLE : Z;
}.

Definition ESPIPE : Z := 29.
Definition ENOSPC : Z := 28.
Definition IOB_SEM_MAX : Z := 32767.

(** ** Data: include/nuttx/mm/iob.h *)

Record iob_s := mk_iob {
  io_flink : ptr;
  io_len : Z;
  io_offset : Z;
  io_pktlen : Z;
  io_data : list Z;
}.

Record iob_qentry_s := mk_qentry { qe_flink : ptr; qe_head : ptr }.
Record iob_queue_s := mk_iob_queue { qh_head : ptr; qh_tail : ptr }.

(** The pools, the lists of iob.h and the counts of the semaphores. *)
Record iob_st := mk_iob_st {
  iobs : mem iob_s;
  qents : mem iob_qentry_s;
  g_iob_freelist : ptr;
  g_iob_committed : ptr;
  g_iob_freeqlist : ptr;
  g_iob_qcommitted : ptr;
  g_iob_sem : Z;
  g_throttle_sem : Z;
  g_qentry_sem : Z;
}.

Inductive iob_sem := SemIob | SemThrottle | SemQentry.

Definition set_io_flink (p : ptr) (x : iob_s) := mk_iob p (io_len x) (io_offset x) (io_pktlen x) (io_data x).
Definition set_io_len (n : Z) (x : iob_s) := mk_iob (io_flink x) n (io_offset x) (io_pktlen x) (io_data x).
Definition set_io_offset (n : Z) (x : iob_s) := mk_iob (io_flink x) (io_len x) n (io_pktlen x) (io_data x).
Definition set_io_pktlen (n : Z) (x : iob_s) := mk_iob (io_flink x) (io_len x) (io_offset x) n (io_data x).
Definition set_io_data (d : list Z) (x : iob_s) := mk_iob (io_flink x) (io_len x) (io_offset x) (io_pktlen x) d.
Definition set_qe_flink (p : ptr) (x : iob_qentry_s) := mk_qentry p (qe_head x).
Definition set_qe_head (p : ptr) (x : iob_qentry_s) := mk_qentry (qe_flink x) p.

Definition set_iobs m s :=
  mk_iob_st m (qents s) (g_iob_freelist s) (g_iob_committed s) (g_iob_freeqlist s) (g_iob_qcommitted s)
    (g_iob_sem s) (g_throttle_sem s) (g_qentry_sem s).
Definition set_qents m s :=
  mk_iob_st (iobs s) m (g_iob_freelist s) (g_iob_committed s) (g_iob_freeqlist s) (g_iob_qcommitted s)
    (g_iob_sem s) (g_throttle_sem s) (g_qentry_sem s).
Definition set_freelist p s :=
  mk_iob_st (iobs s) (qents s) p (g_iob_committed s) (g_iob_freeqlist s) (g_iob_qcommitted s)
    (g_iob_sem s) (g_throttle_sem s) (g_qentry_sem s).
Definition set_committed p s :=
  mk_iob_st (iobs s) (qents s) (g_iob_freelist s) p (g_iob_freeqlist s) (g_iob_qcommitted s)
    (g_iob_sem s) (g_throttle_sem s) (g_qentry_sem s).
Definition set_freeqlist p s :=
  mk_iob_st (iobs s) (qents s) (g_iob_freelist s) (g_iob_committed s) p (g_iob_qcommitted s)
    (g_iob_sem s) (g_throttle_sem s) (g_qentry_sem s).
Definition set_qcommitted p s :=
  mk_iob_st (iobs s) (qents s) (g_iob_freelist s) (g_iob_committed s) (g_iob_freeqlist s) p
    (g_iob_sem s) (g_throttle_sem s) (g_qentry_sem s).
Definition sem_count (i : iob_sem) (s : iob_st) : Z :=
  match i with SemIob => g_iob_sem s | SemThrottle => g_throttle_sem s | SemQentry => g_qentry_sem s end.
Definition set_sem_count (i : iob_sem) (c : Z) (s : iob_st) : iob_st :=
  mk_iob_st (iobs s) (qents s) (g_iob_freelist s) (g_iob_committed s) (g_iob_freeqlist s) (g_iob_qcommitted s)
    (if i is SemIob then c else g_iob_sem s) (if i is SemThrottle then c else g_throttle_sem s)
    (if i is SemQentry then c else g_qentry_sem s).

(** The context of a call, and what happens while a task waits for a semaphore. *)
Class IobEnv := {
  up_interrupt_context : bool;
  sched_idletask : bool;
  nxsem_wait : iob_sem → K iob_st Z;
}.

(** ** Memory *)

Definition iob_get (p : ptr) : K iob_st iob_s := kget (λ s, deref p (iobs s)).
Definition iob_set (f : iob_s → iob_s) (p : ptr) : K iob_st unit :=
  kput (λ s, m ← store p f (iobs s); Some (set_iobs m s)).
Definition qentry_get (p : ptr) : K iob_st iob_qentry_s := kget (λ s, deref p (qents s)).
Definition qentry_set (f : iob_qentry_s → iob_qentry_s) (p : ptr) : K iob_st unit :=
  kput (λ s, m ← store p f (qents s); Some (set_qents m s)).
Definition st_get {A} (f : iob_st → A) : K iob_st A := kget (λ s, Some (f s)).
Definition st_set (f : iob_st → iob_st) : K iob_st unit := kput (λ s, Some (f s)).
(** A bound for walks along a chain. *)
Definition iob_count : K iob_st nat := st_get (λ s, size (iobs s)).

Definition is_null (p : ptr) : bool := bool_decide (p = NULL).

Section iob.
Context `{Config, IobConfig}.

(** The members [io_len] and [io_offset] have 8 or 16 bits. *)
Definition wlen (z : Z) : Z := if CONFIG_IOB_BUFSIZE <? 256 then u8 z else u16 z.

(** [memcpy] from and to [io_data]; it copies upwards byte by byte, so that the areas may
    overlap when the destination is below. *)
Definition read_data (x : iob_s) (pos n : Z) : option (list Z) :=
  if (0 <=? pos) && (0 <=? n) && (pos + n <=? Z.of_nat (length (io_data x)))
  then Some (take (Z.to_nat n) (drop (Z.to_nat pos) (io_data x))) else None.
Definition write_data (x : iob_s) (pos : Z) (l : list Z) : option iob_s :=
  if (0 <=? pos) && (pos + Z.of_nat (length l) <=? Z.of_nat (length (io_data x)))
  then Some (set_io_data (take (Z.to_nat pos) (io_data x) ++ l ++
                          drop (Z.to_nat pos + length l) (io_data x)) x) else None.
Definition iob_read (p : ptr) (pos n : Z) : K iob_st (list Z) :=
  x ← iob_get p; klift (read_data x pos n).
Definition iob_write (p : ptr) (pos : Z) (l : list Z) : K iob_st unit :=
  x ← iob_get p; x' ← klift (write_data x pos l); iob_set (λ _, x') p.

(** What [nxsem_post] does to the count. *)
Definition iob_post (i : iob_sem) : K iob_st unit :=
  c ← st_get (sem_count i);
  kassert (c <? IOB_SEM_MAX);;
  st_set (set_sem_count i (c + 1)).

(** ** The pool *)

(** iob_initialize.c: the buffers are at the addresses 1, 2, ...; the last one is the
    head of the list. *)
Fixpoint iob_pool (n : nat) : mem iob_s :=
  match n with
  | O => ∅
  | S n => <[Pos.of_succ_nat n :=
             mk_iob (match n with O => NULL | S k => Some (Pos.of_succ_nat k) end)
               0 0 0 (replicate (Z.to_nat CONFIG_IOB_BUFSIZE) 0)]> (iob_pool n)
  end.
Fixpoint iob_qpool (n : nat) : mem iob_qentry_s :=
  match n with
  | O => ∅
  | S n => <[Pos.of_succ_nat n :=
             mk_qentry (match n with O => NULL | S k => Some (Pos.of_succ_nat k) end) NULL]> (iob_qpool n)
  end.
Definition pool_head (n : nat) : ptr := match n with O => NULL | S k => Some (Pos.of_succ_nat k) end.

Definition iob_initialize : iob_st :=
  mk_iob_st (iob_pool CONFIG_IOB_NBUFFERS) (iob_qpool CONFIG_IOB_NCHAINS)
    (pool_head CONFIG_IOB_NBUFFERS) NULL (pool_head CONFIG_IOB_NCHAINS) NULL
    (Z.of_nat CONFIG_IOB_NBUFFERS) (Z.of_nat CONFIG_IOB_NBUFFERS - CONFIG_IOB_THROTTLE)
    (Z.of_nat CONFIG_IOB_NCHAINS).

(** iob_alloc.c *)
Definition iob_clear (iob : ptr) : K iob_st unit :=
  iob_set (set_io_flink NULL) iob;; iob_set (set_io_len 0) iob;;
  iob_set (set_io_offset 0) iob;; iob_set (set_io_pktlen 0) iob.

Definition iob_alloc_committed : K iob_st ptr :=
  iob ← st_get g_iob_committed;
  kwhen (negb (is_null iob))
    (x ← iob_get iob; st_set (set_committed (io_flink x));; iob_clear iob);;
  mret iob.

Definition throttle_sem (throttled : bool) : iob_sem :=
  if (0 <? CONFIG_IOB_THROTTLE) && throttled then SemThrottle else SemIob.

Definition iob_tryalloc (throttled : bool) : K iob_st ptr :=
  c ← st_get (sem_count (throttle_sem throttled));
  if (CONFIG_IOB_THROTTLE <=? 0) || (0 <? c) then
    iob ← st_get g_iob_freelist;
    if negb (is_null iob) then
      x ← iob_get iob;
      st_set (set_freelist (io_flink x));;
      c ← st_get g_iob_sem; st_set (set_sem_count SemIob (c - 1));;
      kassert (0 <=? c - 1);;
      kwhen (0 <? CONFIG_IOB_THROTTLE)
        (c ← st_get g_throttle_sem; st_set (set_sem_count SemThrottle (c - 1));;
         kassert (- CONFIG_IOB_THROTTLE <=? c - 1));;
      iob_clear iob;;
      mret iob
    else mret NULL
  else mret NULL.

Context `{IobEnv}.

(** The loop of [iob_allocwait], lines 135-189; [fuel] bounds the interruptions. *)
Fixpoint iob_allocwait_loop (fuel : nat) (throttled : bool) : K iob_st ptr :=
  match fuel with
  | O => λ _, None
  | S fuel =>
      ret ← nxsem_wait (throttle_sem throttled);
      if ret <? 0 then
        if ret =? - EINTR then iob_allocwait_loop fuel throttled else mret NULL
      else
        iob ← iob_alloc_committed;
        kassert (negb (is_null iob));;
        iob ← (if is_null iob then
                 iob_post (throttle_sem throttled);; iob_tryalloc throttled
               else mret iob);
        if is_null iob then iob_allocwait_loop fuel throttled else mret iob
  end.

Definition iob_allocwait (fuel : nat) (throttled : bool) : K iob_st ptr :=
  iob ← iob_tryalloc throttled;
  if is_null iob then iob_allocwait_loop fuel throttled else mret iob.

Definition iob_alloc (fuel : nat) (throttled : bool) : K iob_st ptr :=
  if up_interrupt_context || sched_idletask then iob_tryalloc throttled
  else iob_allocwait fuel throttled.

(** iob_free.c *)
Definition iob_free (iob : ptr) : K iob_st ptr :=
  x ← iob_get iob;
  let next := io_flink x in
  kwhen (negb (is_null next))
    (if io_len x <? io_pktlen x then
       iob_set (set_io_pktlen (u16 (io_pktlen x - io_len x))) next;;
       y ← iob_get next;
       kassert (io_len y <=? io_pktlen y)
     else
       iob_set (set_io_pktlen 0) next;;
       y ← iob_get next;
       kassert ((io_len y =? 0) && is_null (io_flink y)));;
  c ← st_get g_iob_sem;
  (if c <? 0 then
     p ← st_get g_iob_committed;
     iob_set (set_io_flink p) iob;; st_set (set_committed iob)
   else
     p ← st_get g_iob_freelist;
     iob_set (set_io_flink p) iob;; st_set (set_freelist iob));;
  iob_post SemIob;;
  kwhen (0 <? CONFIG_IOB_THROTTLE) (iob_post SemThrottle);;
  mret next.

(** iob_free_chain.c *)
Fixpoint free_chain_loop (fuel : nat) (iob : ptr) : K iob_st unit :=
  match fuel with
  | O => λ _, None
  | S fuel =>
      if is_null iob then mret tt
      else next ← iob_free iob; free_chain_loop fuel next
  end.

Definition iob_free_chain (iob : ptr) : K iob_st unit :=
  n ← iob_count; free_chain_loop (S n) iob.

(** iob_navail.c *)
Definition iob_navail : K iob_st Z :=
  if bool_decide (0 < CONFIG_IOB_NCHAINS)%nat then st_get g_qentry_sem else mret 0.

(** ** Packets *)

(** iob_trimhead.c *)
Fixpoint trimhead_loop (fuel : nat) (iob : ptr) (trimlen pktlen : Z) : K iob_st (ptr * Z) :=
  match fuel with
  | O => λ _, None
  | S fuel =>
      if (0 <? trimlen) && negb (is_null iob) then
        x ← iob_get iob;
        if io_len x <=? trimlen then
          let pktlen := u16 (pktlen - io_len x) in
          let trimlen := trimlen - io_len x in
          let next := io_flink x in
          if is_null next then
            kassert (pktlen =? 0);;
            iob_set (set_io_len 0) iob;; iob_set (set_io_offset 0) iob;;
            mret (iob, pktlen)
          else
            _ ← iob_free iob;
            trimhead_loop fuel next trimlen pktlen
        else
          let pktlen := u16 (pktlen - trimlen) in
          iob_set (set_io_len (wlen (io_len x - trimlen))) iob;;
          iob_set (set_io_offset (wlen (io_offset x + trimlen))) iob;;
          trimhead_loop fuel iob 0 pktlen
      else mret (iob, pktlen)
  end.

Definition iob_trimhead (iob : ptr) (trimlen : Z) : K iob_st ptr :=
  if negb (is_null iob) && (0 <? trimlen) then
    x ← iob_get iob;
    n ← iob_count;
    '(iob, pktlen) ← trimhead_loop (n + 2) iob trimlen (io_pktlen x);
    iob_set (set_io_pktlen pktlen) iob;;
    mret iob
  else mret iob.

(** iob_trimtail.c: the last buffer of a chain and the one before it (lines 82-91). *)
Fixpoint trimtail_last (fuel : nat) (penultimate last entry : ptr) : K iob_st (ptr * ptr) :=
  match fuel with
  | O => λ _, None
  | S fuel =>
      if is_null entry then mret (penultimate, last)
      else x ← iob_get entry; trimtail_last fuel last entry (io_flink x)
  end.

Fixpoint trimtail_loop (fuel : nat) (iob : ptr) (len : Z) : K iob_st ptr :=
  match fuel with
  | O => λ _, None
  | S fuel =>
      if 0 <? len then
        n ← iob_count;
        '(penultimate, last) ← trimtail_last (S n) NULL NULL iob;
        x ← iob_get last;
        if io_len x <=? len then
          h ← iob_get iob;
          iob_set (set_io_pktlen (u16 (io_pktlen h - io_len x))) iob;;
          let len := len - io_len x in
          iob_set (set_io_len 0) last;;
          _ ← iob_free last;
          if is_null penultimate then mret NULL
          else
            iob_set (set_io_flink NULL) penultimate;;
            trimtail_loop fuel iob len
        else
          h ← iob_get iob;
          iob_set (set_io_pktlen (u16 (io_pktlen h - len))) iob;;
          iob_set (set_io_len (wlen (io_len x - len))) last;;
          trimtail_loop fuel iob 0
      else mret iob
  end.

(** [len] is an int. *)
Definition iob_trimtail (iob : ptr) (trimlen : Z) : K iob_st ptr :=
  if negb (is_null iob) && (0 <? trimlen) then
    n ← iob_count; trimtail_loop (n + 2) iob (s32 trimlen)
  else mret iob.

(** iob_copyout.c *)
Fixpoint copyout_skip (fuel : nat) (iob : ptr) (offset : Z) : K iob_st (ptr * Z) :=
  match fuel with
  | O => λ _, None
  | S fuel =>
      x ← iob_get iob;
      if io_len x <=? offset then
        if is_null (io_flink x) then mret (NULL, 0)
        else copyout_skip fuel (io_flink x) (offset - io_len x)
      else mret (iob, offset)
  end.

Fixpoint copyout_loop (fuel : nat) (iob : ptr) (offset remaining : Z) (dest : list Z) : K iob_st (list Z) :=
  match fuel with
  | O => λ _, None
  | S fuel =>
      if negb (is_null iob) && (0 <? remaining) then
        x ← iob_get iob;
        let ncopy := Z.min (io_len x - offset) remaining in
        l ← iob_read iob (io_offset x + offset) ncopy;
        copyout_loop fuel (io_flink x) 0 (remaining - ncopy) (dest ++ l)
      else mret dest
  end.

(** The result is what was copied to the buffer of the caller; its length is returned. *)
Definition iob_copyout (iob : ptr) (len offset : Z) : K iob_st (list Z) :=
  n ← iob_count;
  '(iob, offset) ← copyout_skip (S n) iob offset;
  if is_null iob then mret [] else copyout_loop (S (S n)) iob offset len [].

(** iob_copyin.c *)
Fixpoint copyin_skip (fuel : nat) (iob : ptr) (offset : Z) : K iob_st (ptr * Z) :=
  match fuel with
  | O => λ _, None
  | S fuel =>
      x ← iob_get iob;
      if io_len x <? offset then copyin_skip fuel (io_flink x) (offset - io_len x)
      else mret (iob, offset)
  end.

(** The number of bytes that go to the buffer [x]; the last one is extended (lines 132-178). *)
Definition copyin_ncopy (head iob : ptr) (x : iob_s) (len offset : Z) : K iob_st Z :=
  let avail := io_len x - offset in
  if avail <? len then
    if negb (is_null (io_flink x)) then mret avail
    else
      let maxlen := CONFIG_IOB_BUFSIZE - io_offset x in
      let newlen := len + offset in
      let newlen := if maxlen <? newlen then maxlen else newlen in
      h ← iob_get head;
      iob_set (set_io_pktlen (u16 (io_pktlen h + (newlen - io_len x)))) head;;
      iob_set (set_io_len (wlen newlen)) iob;;
      mret (newlen - offset)
  else mret len.

(** The loop of lines 115-228; [src] is what is left to copy, its length is [len]. *)
Fixpoint copyin_loop (fuel wfuel : nat) (head iob : ptr) (src : list Z) (total offset : Z)
    (throttled can_block : bool) : K iob_st Z :=
  match fuel with
  | O => λ _, None
  | S fuel =>
      let len := Z.of_nat (length src) in
      if 0 <? len then
        x ← iob_get iob;
        let next := io_flink x in
        ncopy ← copyin_ncopy head iob x len offset;
        iob_write iob (io_offset x + offset) (take (Z.to_nat ncopy) src);;
        let src := drop (Z.to_nat ncopy) src in
        let len := len - ncopy in
        if (0 <? len) && is_null next then
          next ← (if negb can_block || (len <? total) then iob_tryalloc throttled
                  else iob_alloc wfuel throttled);
          if is_null next then mret len
          else
            iob_set (set_io_flink next) iob;;
            copyin_loop fuel wfuel head next src total 0 throttled can_block
        else copyin_loop fuel wfuel head next src total 0 throttled can_block
      else mret 0
  end.

Definition iob_copyin_internal (wfuel : nat) (iob : ptr) (src : list Z) (offset : Z)
    (throttled can_block : bool) : K iob_st Z :=
  kassert (negb (is_null iob));;
  x ← iob_get iob;
  if io_pktlen x <? offset then mret (- ESPIPE)
  else
    n ← iob_count;
    '(p, offset) ← copyin_skip (S n) iob offset;
    copyin_loop (S (S n)) wfuel iob p src (Z.of_nat (length src)) offset throttled can_block.

Definition iob_copyin (wfuel : nat) (iob : ptr) (src : list Z) (offset : Z) (throttled : bool) : K iob_st Z :=
  r ← iob_copyin_internal wfuel iob src offset throttled true;
  mret (Z.of_nat (length src) - r).

Definition iob_trycopyin (iob : ptr) (src : list Z) (offset : Z) (throttled : bool) : K iob_st Z :=
  r ← iob_copyin_internal 0 iob src offset throttled false;
  mret (if r =? 0 then Z.of_nat (length src) else - ENOMEM).

(** iob_pack.c *)
Fixpoint pack_skip (fuel : nat) (iob : ptr) : K iob_st ptr :=
  match fuel with
  | O => λ _, None
  | S fuel =>
      x ← iob_get iob;
      if io_len x <=? 0 then iob ← iob_free iob; pack_skip fuel iob else mret iob
  end.

(** The data is moved to the front of the buffer. *)
Definition iob_unoffset (iob : ptr) : K iob_st unit :=
  x ← iob_get iob;
  kwhen (0 <? io_offset x)
    (l ← iob_read iob (io_offset x) (io_len x); iob_write iob 0 l;; iob_set (set_io_offset 0) iob).

(** [ncopy] bytes are taken from the next buffer. *)
Definition iob_take (iob next : ptr) (ncopy : Z) : K iob_st unit :=
  x ← iob_get iob;
  y ← iob_get next;
  l ← iob_read next (io_offset y) ncopy;
  iob_write iob (io_len x) l;;
  iob_set (set_io_len (wlen (io_len x + ncopy))) iob;;
  iob_set (set_io_len (wlen (io_len y - ncopy))) next;;
  iob_set (set_io_offset (wlen (io_offset y + ncopy))) next.

(** Lines 106-141: [x] takes what it can from [y], which is freed if it is empty. *)
Definition pack_turn (iob next : ptr) (x y : iob_s) : K iob_st ptr :=
  let ncopy := Z.min (io_len y) (CONFIG_IOB_BUFSIZE - io_len x) in
  kwhen (0 <? ncopy) (iob_take iob next ncopy);;
  y ← iob_get next;
  if io_len y <=? 0 then next ← iob_free next; iob_set (set_io_flink next) iob;; mret next
  else mret next.

Fixpoint pack_loop (fuel : nat) (iob : ptr) : K iob_st unit :=
  match fuel with
  | O => λ _, None
  | S fuel =>
      if is_null iob then mret tt
      else
        x ← iob_get iob;
        let next := io_flink x in
        iob_unoffset iob;;
        if is_null next then mret tt
        else
          y ← iob_get next;
          next ← pack_turn iob next x y;
          pack_loop fuel next
  end.

Definition iob_pack (iob : ptr) : K iob_st ptr :=
  n ← iob_count;
  head ← pack_skip (S n) iob;
  pack_loop (S (S n)) head;;
  mret head.

(** iob_contig.c *)
Fixpoint contig_loop (fuel : nat) (iob : ptr) (len : Z) : K iob_st unit :=
  match fuel with
  | O => λ _, None
  | S fuel =>
      x ← iob_get iob;
      let next := io_flink x in
      y ← iob_get next;
      kassert (0 <? io_len y);;
      let ncopy := Z.min (len - io_len x) (io_len y) in
      iob_take iob next ncopy;;
      y ← iob_get next;
      kwhen (io_len y =? 0) (next ← iob_free next; iob_set (set_io_flink next) iob);;
      x ← iob_get iob;
      if io_len x <? len then contig_loop fuel iob len else mret tt
  end.

Definition iob_contig (iob : ptr) (len : Z) : K iob_st Z :=
  kassert (len <=? CONFIG_IOB_BUFSIZE);;
  x ← iob_get iob;
  if len <=? io_len x then mret 0
  else if len <=? io_pktlen x then
    iob_unoffset iob;;
    n ← iob_count;
    contig_loop (S n) iob len;;
    mret 0
  else mret (- ENOSPC).

(** iob_concat.c *)
Fixpoint concat_last (fuel : nat) (iob : ptr) : K iob_st ptr :=
  match fuel with
  | O => λ _, None
  | S fuel =>
      x ← iob_get iob;
      if is_null (io_flink x) then mret iob else concat_last fuel (io_flink x)
  end.

Definition iob_concat (iob1 iob2 : ptr) : K iob_st unit :=
  n ← iob_count;
  iob1 ← concat_last (S n) iob1;
  iob_set (set_io_flink iob2) iob1;;
  x ← iob_get iob1;
  y ← iob_get iob2;
  iob_set (set_io_pktlen (u16 (io_pktlen x + io_pktlen y))) iob1.

(** iob_clone.c *)
Fixpoint clone_skip (fuel : nat) (iob : ptr) : K iob_st ptr :=
  match fuel with
  | O => λ _, None
  | S fuel =>
      if is_null iob then mret NULL
      else x ← iob_get iob; if io_len x <=? 0 then clone_skip fuel (io_flink x) else mret iob
  end.

Fixpoint clone_loop (fuel wfuel : nat) (iob1 iob2 : ptr) (offset1 offset2 : Z) (throttled : bool) : K iob_st Z :=
  match fuel with
  | O => λ _, None
  | S fuel =>
      if is_null iob1 then mret 0
      else
        n ← iob_count;
        x ← iob_get iob1;
        let avail1 := io_len x - offset1 in
        let avail2 := CONFIG_IOB_BUFSIZE - offset2 in
        let ncopy := Z.min avail1 avail2 in
        l ← iob_read iob1 (io_offset x + offset1) ncopy;
        iob_write iob2 offset2 l;;
        let offset1 := offset1 + ncopy in
        let offset2 := offset2 + ncopy in
        '(iob1, offset1) ←
          (if io_len x <=? offset1 then p ← clone_skip (S n) (io_flink x); mret (p, 0)
           else mret (iob1, offset1));
        if (CONFIG_IOB_BUFSIZE <=? offset2) && negb (is_null iob1) then
          next ← iob_alloc wfuel throttled;
          if is_null next then mret (- ENOMEM)
          else
            iob_set (set_io_flink next) iob2;;
            clone_loop fuel wfuel iob1 next offset1 0 throttled
        else clone_loop fuel wfuel iob1 iob2 offset1 offset2 throttled
  end.

(** Lines 92-95: the buffers at the front that are empty; there must be one that is not. *)
Fixpoint clone_first (fuel : nat) (iob : ptr) : K iob_st ptr :=
  match fuel with
  | O => λ _, None
  | S fuel => x ← iob_get iob; if io_len x <=? 0 then clone_first fuel (io_flink x) else mret iob
  end.

Definition iob_clone (wfuel : nat) (iob1 iob2 : ptr) (throttled : bool) : K iob_st Z :=
  y ← iob_get iob2;
  kassert ((io_len y =? 0) && (io_offset y =? 0) && (io_pktlen y =? 0) && is_null (io_flink y));;
  x ← iob_get iob1;
  iob_set (set_io_pktlen (io_pktlen x)) iob2;;
  n ← iob_count;
  iob1 ← clone_first (S n) iob1;
  clone_loop (2 * n + 2) wfuel iob1 iob2 0 0 throttled.

(** ** Queues *)

(** iob_alloc_qentry.c *)
Definition iob_alloc_qcommitted : K iob_st ptr :=
  iobq ← st_get g_iob_qcommitted;
  kwhen (negb (is_null iobq))
    (x ← qentry_get iobq; st_set (set_qcommitted (qe_flink x));; qentry_set (set_qe_head NULL) iobq);;
  mret iobq.

Definition iob_tryalloc_qentry : K iob_st ptr :=
  iobq ← st_get g_iob_freeqlist;
  kwhen (negb (is_null iobq))
    (x ← qentry_get iobq;
     st_set (set_freeqlist (qe_flink x));;
     c ← st_get g_qentry_sem; st_set (set_sem_count SemQentry (c - 1));;
     kassert (0 <=? c - 1);;
     qentry_set (set_qe_head NULL) iobq);;
  mret iobq.

Fixpoint iob_allocwait_qentry_loop (fuel : nat) : K iob_st ptr :=
  match fuel with
  | O => λ _, None
  | S fuel =>
      ret ← nxsem_wait SemQentry;
      if ret <? 0 then
        if ret =? - EINTR then iob_allocwait_qentry_loop fuel else mret NULL
      else
        iobq ← iob_alloc_qcommitted;
        kassert (negb (is_null iobq));;
        iobq ← (if is_null iobq then iob_post SemQentry;; iob_tryalloc_qentry else mret iobq);
        if is_null iobq then iob_allocwait_qentry_loop fuel else mret iobq
  end.

Definition iob_allocwait_qentry (fuel : nat) : K iob_st ptr :=
  iobq ← iob_tryalloc_qentry;
  if is_null iobq then iob_allocwait_qentry_loop fuel else mret iobq.

Definition iob_alloc_qentry (fuel : nat) : K iob_st ptr :=
  if up_interrupt_context then iob_tryalloc_qentry else iob_allocwait_qentry fuel.

(** iob_free_qentry.c: the count that is tested is that of the buffers. *)
Definition iob_free_qentry (iobq : ptr) : K iob_st ptr :=
  x ← qentry_get iobq;
  let nextq := qe_flink x in
  c ← st_get g_iob_sem;
  (if c <? 0 then
     p ← st_get g_iob_qcommitted;
     qentry_set (set_qe_flink p) iobq;; st_set (set_qcommitted iobq)
   else
     p ← st_get g_iob_freeqlist;
     qentry_set (set_qe_flink p) iobq;; st_set (set_freeqlist iobq));;
  iob_post SemQentry;;
  mret nextq.

(** iob_add_queue.c; a queue header is passed by value and returned. *)
Definition iob_add_queue_internal (iob : ptr) (iobq : iob_queue_s) (qentry : ptr)
    : K iob_st (Z * iob_queue_s) :=
  qentry_set (set_qe_head iob) qentry;;
  qentry_set (set_qe_flink NULL) qentry;;
  if is_null (qh_head iobq) then mret (0, mk_iob_queue qentry qentry)
  else
    kassert (negb (is_null (qh_tail iobq)));;
    qentry_set (set_qe_flink qentry) (qh_tail iobq);;
    mret (0, mk_iob_queue (qh_head iobq) qentry).

Definition iob_add_queue (fuel : nat) (iob : ptr) (iobq : iob_queue_s) : K iob_st (Z * iob_queue_s) :=
  qentry ← iob_alloc_qentry fuel;
  if is_null qentry then mret (- ENOMEM, iobq) else iob_add_queue_internal iob iobq qentry.

Definition iob_tryadd_queue (iob : ptr) (iobq : iob_queue_s) : K iob_st (Z * iob_queue_s) :=
  qentry ← iob_tryalloc_qentry;
  if is_null qentry then mret (- ENOMEM, iobq) else iob_add_queue_internal iob iobq qentry.

(** iob_remove_queue.c *)
Definition iob_remove_queue (iobq : iob_queue_s) : K iob_st (ptr * iob_queue_s) :=
  let qentry := qh_head iobq in
  if is_null qentry then mret (NULL, iobq)
  else
    x ← qentry_get qentry;
    let iobq := mk_iob_queue (qe_flink x) (if is_null (qe_flink x) then NULL else qh_tail iobq) in
    let iob := qe_head x in
    _ ← iob_free_qentry qentry;
    mret (iob, iobq).

(** iob_peek_queue.c *)
Definition iob_peek_queue (iobq : iob_queue_s) : K iob_st ptr :=
  if is_null (qh_head iobq) then mret NULL
  else x ← qentry_get (qh_head iobq); mret (qe_head x).

(** iob_trimhead_queue.c *)
Definition iob_trimhead_queue (qhead : iob_queue_s) (trimlen : Z) : K iob_st ptr :=
  let qentry := qh_head qhead in
  if is_null qentry then mret NULL
  else
    x ← qentry_get qentry;
    let iob := qe_head x in
    if is_null iob then mret iob
    else iob ← iob_trimhead iob trimlen; qentry_set (set_qe_head iob) qentry;; mret iob.

(** iob_free_queue.c *)
Fixpoint free_queue_loop (fuel : nat) (iobq : ptr) : K iob_st unit :=
  match fuel with
  | O => λ _, None
  | S fuel =>
      if is_null iobq then mret tt
      else
        x ← qentry_get iobq;
        kassert (negb (is_null (qe_head x)));;
        let nextq := qe_flink x in
        _ ← iob_free_qentry iobq;
        iob_free_chain (qe_head x);;
        free_queue_loop fuel nextq
  end.

Definition iob_free_queue (qhead : iob_queue_s) : K iob_st iob_queue_s :=
  n ← st_get (λ s, size (qents s));
  free_queue_loop (S n) (qh_head qhead);;
  mret (mk_iob_queue NULL (qh_tail qhead)).
End iob.
