(* ===== verification/IobSpec.v ===== *)
(** * IobSpec: the pool, the packets and the steps of their operations

    [pool s P O] relates the state to the lists [P] of the buffers that are not in use
    and to the map [O] of the buffers that are; every buffer is in one of the two.  A
    packet is a [chain] of buffers of [O]; [holds s P R p l] says that the buffers [l] are
    the chain at [p] and that [R] are the other buffers in use.  The rules of this file
    say what the accesses to a buffer, [iob_free] and [iob_tryalloc] do to [holds]; none
    of them changes [R]. *)

From S2P Require Import Prelude IobChain Iob.
Local Open Scope Z_scope.

(** ** Chains of buffers *)

Abbreviation links := (links io_flink).
Abbreviation chain := (chain io_flink).
Abbreviation segment := (segment io_flink).

(** ** Packets *)

Section packets.
Context `{IobConfig}.
Implicit Types (x : iob_s) (l : list (addr * iob_s)).

Definition payload x : list Z := take (Z.to_nat (io_len x)) (drop (Z.to_nat (io_offset x)) (io_data x)).
Definition bytes l : list Z := concat (payload <$> l.*2).

Record buf_ok x : Prop := {
  bo_offset : 0 ≤ io_offset x < CONFIG_IOB_BUFSIZE;
  bo_len : 0 ≤ io_len x;
  bo_end : io_offset x + io_len x ≤ CONFIG_IOB_BUFSIZE;
  bo_data : Z.of_nat (length (io_data x)) = CONFIG_IOB_BUFSIZE;
}.

Definition used x : Prop := 0 < io_len x.

(** The buffers of a chain hold data, but for the head when it is the only one. *)
Definition bufs_ok l : Prop :=
  Forall buf_ok l.*2 ∧ Forall used (tail l.*2) ∧ (tail l = [] ∨ Forall used l.*2).

(** A packet: its length is kept in the head. *)
Definition packet_ok l : Prop :=
  bufs_ok l ∧
  match l with
  | [] => False
  | (_, x) :: _ => io_pktlen x = Z.of_nat (length (bytes l)) ∧ io_pktlen x < 65536
  end.

Lemma packet_bytes_app l1 l2 : bytes (l1 ++ l2) = bytes l1 ++ bytes l2.
Proof. unfold bytes. by rewrite !fmap_app, concat_app. Qed.
Lemma bytes_cons a x l : bytes ((a, x) :: l) = payload x ++ bytes l.
Proof. done. Qed.
Lemma bytes_nil : bytes [] = [].
Proof. done. Qed.
Lemma bytes_one a x : bytes [(a, x)] = payload x.
Proof. unfold bytes. simpl. apply app_nil_r. Qed.

Lemma payload_length x : buf_ok x → Z.of_nat (length (payload x)) = io_len x.
Proof. intros []. unfold payload. rewrite length_take, length_drop. lia. Qed.

Lemma payload_len0 x : io_len x = 0 → payload x = [].
Proof. intros Hx. unfold payload. by rewrite Hx. Qed.

(** The payload depends on the position and the data only. *)
Lemma payload_eq x y :
  io_len x = io_len y → io_offset x = io_offset y → io_data x = io_data y → payload x = payload y.
Proof. unfold payload. by intros -> -> ->. Qed.

Lemma payload_trim_head x n :
  0 ≤ n ≤ io_len x → 0 ≤ io_offset x → payload (set_io_offset (io_offset x + n) (set_io_len (io_len x - n) x)) =
    drop (Z.to_nat n) (payload x).
Proof.
  intros Hn Ho. unfold payload. simpl.
  rewrite skipn_firstn_comm, drop_drop. f_equal; [lia|]. f_equal. lia.
Qed.

Lemma payload_trim_tail x n :
  0 ≤ n ≤ io_len x → payload (set_io_len n x) = take (Z.to_nat n) (payload x).
Proof. intros Hn. unfold payload. simpl. rewrite take_take. f_equal. lia. Qed.

Lemma bytes_pos l : Forall buf_ok l.*2 → Forall used l.*2 → l ≠ [] → (0 < length (bytes l))%nat.
Proof.
  destruct l as [|[a x] l]; [done|]. intros [Hx _]%Forall_cons [Hu _]%Forall_cons _.
  rewrite bytes_cons, length_app. pose proof (payload_length _ Hx). unfold used in Hu. simpl in *. lia.
Qed.
End packets.

(** ** The pool *)

(** The free list, the committed list and the number of tasks that wait for a buffer. *)
Record lists := mk_lists { free_bufs : list addr; committed_bufs : list addr; waiters : nat }.

(** A buffer that is freed goes to a task that waits, if there is one. *)
Definition give (a : addr) (P : lists) : lists :=
  match waiters P with
  | O => mk_lists (a :: free_bufs P) (committed_bufs P) 0
  | S w => mk_lists (free_bufs P) (a :: committed_bufs P) w
  end.

Lemma elem_of_give a b P :
  b ∈ free_bufs (give a P) ++ committed_bufs (give a P) ↔ b = a ∨ b ∈ free_bufs P ++ committed_bufs P.
Proof. unfold give. destruct (waiters P); simpl; set_solver. Qed.

Lemma give_NoDup a P :
  NoDup (free_bufs P ++ committed_bufs P) → a ∉ free_bufs P ++ committed_bufs P →
  NoDup (free_bufs (give a P) ++ committed_bufs (give a P)).
Proof. unfold give. destruct (waiters P); simpl; intros; solve_nodup. Qed.

Section pool.
Context `{Config, IobConfig}.
Implicit Types (s : iob_st) (P : lists) (O R : mem iob_s) (l : list (addr * iob_s)).

Record pool s P O : Prop := {
  pool_free : links (iobs s) (g_iob_freelist s) (free_bufs P);
  pool_committed : links (iobs s) (g_iob_committed s) (committed_bufs P);
  pool_owned : O ⊆ iobs s;
  pool_nodup : NoDup (free_bufs P ++ committed_bufs P);
  pool_disjoint a : a ∈ free_bufs P ++ committed_bufs P → O !! a = None;
  pool_all a : is_Some (iobs s !! a) → a ∈ free_bufs P ++ committed_bufs P ∨ is_Some (O !! a);
  pool_data a x : iobs s !! a = Some x → Z.of_nat (length (io_data x)) = CONFIG_IOB_BUFSIZE;
  pool_sem : g_iob_sem s = Z.of_nat (length (free_bufs P)) - Z.of_nat (waiters P);
  pool_waiters : waiters P = 0%nat ∨ free_bufs P = [];
  pool_size : Z.of_nat (size (iobs s)) ≤ IOB_SEM_MAX;
  pool_throttle : 0 < CONFIG_IOB_THROTTLE →
    Z.of_nat (length (free_bufs P)) - CONFIG_IOB_THROTTLE ≤ g_throttle_sem s ≤
      IOB_SEM_MAX - Z.of_nat (size O);
}.

Definition holds s P R p l : Prop := ∃ O, pool s P O ∧ chain O p l ∧ rest O l.*1 = R.

(** The lengths of the lists are bounded by the number of buffers. *)
Lemma lookups_length {A} (m : mem A) (l : list addr) :
  NoDup l → (∀ a, a ∈ l → is_Some (m !! a)) → (length l ≤ size m)%nat.
Proof.
  intros Hd Hl. rewrite <- (size_list_to_set (C := gset addr) l Hd), <- (size_dom m).
  apply subseteq_size. intros a Ha. apply elem_of_dom, Hl. by apply elem_of_list_to_set in Ha.
Qed.

Lemma pool_chain_length s P O p l : pool s P O → chain O p l → (length l ≤ size (iobs s))%nat.
Proof.
  intros Hp Hc. rewrite <- (length_fmap fst). apply lookups_length; [by eapply chain_NoDup|].
  intros a Ha. apply list_elem_of_fmap in Ha as ([b x] & -> & Hx). simpl.
  pose proof (chain_lookup _ _ _ _ _ Hc Hx) as HO.
  eapply lookup_weaken_is_Some; [by eexists|apply (pool_owned _ _ _ Hp)].
Qed.

Lemma pool_lookup s P O a x : pool s P O → O !! a = Some x → iobs s !! a = Some x.
Proof. intros Hp HO. by eapply lookup_weaken, pool_owned. Qed.

Lemma pool_notin s P O a x : pool s P O → O !! a = Some x → a ∉ free_bufs P ++ committed_bufs P.
Proof. intros Hp HO Hin. by rewrite (pool_disjoint _ _ _ Hp _ Hin) in HO. Qed.

(** ** Accesses to the buffers in use *)

Lemma pool_get s P O a x : pool s P O → O !! a = Some x → iob_get (Some a) s = Some (x, s).
Proof. intros Hp HO. unfold iob_get, kget. simpl. by rewrite (pool_lookup _ _ _ _ _ Hp HO). Qed.

Lemma iob_set_run s a x f :
  iobs s !! a = Some x → iob_set f (Some a) s = Some (tt, set_iobs (<[a := f x]> (iobs s)) s).
Proof. intros Hx. unfold iob_set, kput. by rewrite (store_Some _ _ _ _ Hx). Qed.

Lemma pool_set s P O a x f :
  pool s P O → O !! a = Some x → length (io_data (f x)) = length (io_data x) →
  ∃ s', iob_set f (Some a) s = Some (tt, s') ∧ pool s' P (<[a := f x]> O).
Proof.
  intros Hp HO Hlen. pose proof (pool_lookup _ _ _ _ _ Hp HO) as Hx.
  pose proof (pool_notin _ _ _ _ _ Hp HO) as Hn. eexists. split; [by apply iob_set_run|].
  assert (∀ b, b ∈ free_bufs P ++ committed_bufs P → <[a := f x]> (iobs s) !! b = iobs s !! b) as Hsame.
  { intros b Hb. rewrite lookup_insert_ne; [done|]. by intros ->. }
  destruct Hp. split; simpl; try done.
  - eapply links_agree; [done|]. intros b Hb. apply Hsame. set_solver.
  - eapply links_agree; [done|]. intros b Hb. apply Hsame. set_solver.
  - by apply insert_mono.
  - intros b Hb. rewrite lookup_insert_ne; [auto|]. by intros ->.
  - intros b Hb. destruct (decide (a = b)) as [->|]; [right; by rewrite lookup_insert_eq|].
    rewrite lookup_insert_ne in Hb |- * by done. auto.
  - intros b y. destruct (decide (a = b)) as [->|].
    + rewrite lookup_insert_eq. intros [= <-]. rewrite Hlen. eauto.
    + rewrite lookup_insert_ne by done. eauto.
  - by rewrite map_size_insert_Some.
  - by rewrite map_size_insert_Some.
Qed.

Lemma holds_get s P R p l a x : holds s P R p l → (a, x) ∈ l → iob_get (Some a) s = Some (x, s).
Proof. intros (O & Hp & Hc & _) Hin. eapply pool_get; [done|]. by eapply chain_lookup. Qed.

Lemma holds_count s P R p l : holds s P R p l → iob_count s = Some (size (iobs s),
  s) ∧ (length l ≤ size (iobs s))%nat.
Proof. intros (O & Hp & Hc & _). split; [done|]. by eapply pool_chain_length. Qed.

Lemma holds_null s P R p l : holds s P R p l → is_null p = bool_decide (l = []).
Proof. intros (O & _ & Hc & _). destruct l as [|[a x] l]; [by rewrite Hc|]. by destruct Hc as (-> & _). Qed.

(** The chain after a change of the cell between two of its parts. *)
Lemma chain_insert O p l1 a x y l2 :
  chain O p (l1 ++ (a, x) :: l2) → io_flink y = io_flink x →
  chain (<[a := y]> O) p (l1 ++ (a, y) :: l2).
Proof.
  intros Hc Hf. pose proof (chain_NoDup _ _ _ Hc) as Hd. rewrite fmap_app in Hd. simpl in Hd.
  apply chain_app in Hc as (q & Hs & -> & Hx & Hc). apply chain_app. exists (Some a). nodup_facts. split.
  - eapply segment_agree; [done|]. same_cells.
  - split_and!; [done|by rewrite lookup_insert_eq|]. rewrite Hf. eapply chain_agree; [done|]. same_cells.
Qed.

Lemma holds_set s P R p l1 a x l2 f :
  holds s P R p (l1 ++ (a, x) :: l2) → io_flink (f x) = io_flink x →
  length (io_data (f x)) = length (io_data x) →
  ∃ s', iob_set f (Some a) s = Some (tt, s') ∧ holds s' P R p (l1 ++ (a, f x) :: l2).
Proof.
  intros (O & Hp & Hc & HR) Hf Hlen.
  destruct (pool_set s P O a x f) as (s' & Hrun & Hp'); [done| |done|].
  { eapply chain_lookup; [done|]. set_solver. }
  exists s'. split; [done|]. eexists. split_and!; [done|by eapply chain_insert|].
  rewrite <- HR, !fmap_app. simpl. rest_eq.
Qed.

(** ** [iob_free] *)

Lemma kassert_ok (b : bool) s : b = true → kassert b s = Some (tt, s).
Proof. intros Hb. unfold kassert, klift. by rewrite DEBUGASSERT_true. Qed.

Lemma post_run i s :
  sem_count i s < IOB_SEM_MAX → iob_post i s = Some (tt, set_sem_count i (sem_count i s + 1) s).
Proof.
  intros Hc. unfold iob_post. erewrite K_bind_Some by done.
  rewrite (K_bind_Some _ _ s tt s); [done|]. apply kassert_ok. by apply Z.ltb_lt.
Qed.

(** The buffer [a] at the front of the list that [iob_free] chooses. *)
Definition pushed (a : addr) (x : iob_s) s : iob_st :=
  if g_iob_sem s <? 0
  then set_committed (Some a) (set_iobs (<[a := set_io_flink (g_iob_committed s) x]> (iobs s)) s)
  else set_freelist (Some a) (set_iobs (<[a := set_io_flink (g_iob_freelist s) x]> (iobs s)) s).

Definition posted s : iob_st :=
  let s := set_sem_count SemIob (g_iob_sem s + 1) s in
  if 0 <? CONFIG_IOB_THROTTLE then set_sem_count SemThrottle (g_throttle_sem s + 1) s else s.

Lemma iobs_pushed a x s b : b ≠ a → iobs (pushed a x s) !! b = iobs s !! b.
Proof. intros Hb. unfold pushed. destruct (g_iob_sem s <? 0); simpl; by rewrite lookup_insert_ne. Qed.

Lemma iobs_pushed_eq a x s : ∃ p, iobs (pushed a x s) = <[a := set_io_flink p x]> (iobs s).
Proof. unfold pushed. destruct (g_iob_sem s <? 0); eauto. Qed.

Lemma pool_counts s P O a x :
  pool s P O → O !! a = Some x →
  Z.of_nat (length (free_bufs P)) < IOB_SEM_MAX ∧ (0 < CONFIG_IOB_THROTTLE → g_throttle_sem s < IOB_SEM_MAX).
Proof.
  intros Hp HO. split.
  - assert (length (a :: free_bufs P) ≤ size (iobs s))%nat as Hle.
    { apply lookups_length.
      - pose proof (pool_notin _ _ _ _ _ Hp HO). pose proof (pool_nodup _ _ _ Hp). solve_nodup.
      - intros b [->|Hb]%elem_of_cons; [by eexists; eapply pool_lookup|].
        eapply links_lookup; [apply (pool_free _ _ _ Hp)|done]. }
    pose proof (pool_size _ _ _ Hp). simpl in Hle. lia.
  - intros Ht. pose proof (pool_throttle _ _ _ Hp Ht).
    assert (size O ≠ 0)%nat by (intros ->%map_size_empty_inv; by rewrite lookup_empty in HO). lia.
Qed.

Lemma pushed_links s P O a x :
  pool s P O → O !! a = Some x →
  links (iobs (pushed a x s)) (g_iob_freelist (pushed a x s)) (free_bufs (give a P)) ∧
  links (iobs (pushed a x s)) (g_iob_committed (pushed a x s)) (committed_bufs (give a P)).
Proof.
  intros Hp HO. pose proof (pool_notin _ _ _ _ _ Hp HO) as Hn.
  assert (∀ A p, links (iobs s) p A → a ∉ A → links (iobs (pushed a x s)) p A) as Hsame.
  { intros A p Hl Ha. eapply links_agree; [done|]. intros b Hb. apply iobs_pushed. by intros ->. }
  pose proof (Hsame _ _ (pool_free _ _ _ Hp)) as Hf. pose proof (Hsame _ _ (pool_committed _ _ _ Hp)) as Hc.
  pose proof (pool_sem _ _ _ Hp) as Hsem. pose proof (pool_waiters _ _ _ Hp) as Hw.
  rewrite not_elem_of_app in Hn. destruct Hn as [Hnf Hnc]. specialize (Hf Hnf). specialize (Hc Hnc).
  unfold give, pushed in *. destruct (waiters P) as [|w]; destruct (Z.ltb_spec (g_iob_sem s) 0); simpl in *.
  - lia.
  - split; [|done]. split; [done|]. eexists. split; [apply lookup_insert_eq|done].
  - split; [done|]. split; [done|]. eexists. split; [apply lookup_insert_eq|done].
  - destruct Hw as [|Hw]; [done|]. rewrite Hw in Hsem. simpl in Hsem. lia.
Qed.

Lemma pool_pushed s P O a x :
  pool s P O → O !! a = Some x → pool (posted (pushed a x s)) (give a P) (delete a O).
Proof.
  intros Hp HO. destruct (pushed_links _ _ _ _ _ Hp HO) as [Hf Hc].
  pose proof (pool_notin _ _ _ _ _ Hp HO) as Hn. pose proof (pool_counts _ _ _ _ _ Hp HO) as [_ Ht].
  pose proof (pool_lookup _ _ _ _ _ Hp HO) as Hx. destruct (iobs_pushed_eq a x s) as [q Hq].
  assert (iobs (posted (pushed a x s)) = iobs (pushed a x s)) as Hi.
  { unfold posted. by destruct (0 <? CONFIG_IOB_THROTTLE). }
  destruct Hp. split; rewrite ?Hi, ?Hq.
  - unfold posted. rewrite <- Hq. by destruct (0 <? CONFIG_IOB_THROTTLE).
  - unfold posted. rewrite <- Hq. by destruct (0 <? CONFIG_IOB_THROTTLE).
  - apply map_subseteq_spec. intros b y Hb%lookup_delete_Some. destruct Hb as [Hb Hy].
    rewrite lookup_insert_ne by done. by eapply lookup_weaken.
  - by apply give_NoDup.
  - intros b [->|Hb]%elem_of_give; [apply lookup_delete_eq|]. rewrite lookup_delete_ne; [auto|]. by intros ->.
  - intros b Hb. rewrite elem_of_give. destruct (decide (a = b)) as [->|]; [by left; left|].
    rewrite lookup_insert_ne in Hb by done. rewrite lookup_delete_ne by done. destruct (pool_all0 _ Hb); auto.
  - intros b y. destruct (decide (a = b)) as [->|].
    + rewrite lookup_insert_eq. intros [= <-]. simpl. eauto.
    + rewrite lookup_insert_ne by done. eauto.
  - transitivity (g_iob_sem s + 1).
    { unfold posted, pushed. destruct (g_iob_sem s <? 0), (0 <? CONFIG_IOB_THROTTLE); done. }
    rewrite pool_sem0. unfold give. destruct (waiters P); simpl; lia.
  - unfold give. destruct (waiters P) eqn:Hw; simpl; [by left|]. destruct pool_waiters0; [done|by right].
  - by rewrite map_size_insert_Some.
  - intros Hthr. specialize (pool_throttle0 Hthr).
    assert (g_throttle_sem (posted (pushed a x s)) = g_throttle_sem s + 1) as ->.
    { unfold posted, pushed. destruct (Z.ltb_spec 0 CONFIG_IOB_THROTTLE); [|lia]. by destruct (g_iob_sem s <? 0). }
    rewrite map_size_delete_Some by done.
    assert (size O ≠ 0)%nat by (intros ->%map_size_empty_inv; by rewrite lookup_empty in HO).
    unfold give. destruct (waiters P); simpl; lia.
Qed.

(** [iob_free], after the part that passes the length of the packet on. *)
Lemma free_run s s1 P O a x y :
  iob_get (Some a) s = Some (x, s) →
  kwhen (negb (is_null (io_flink x)))
    (if io_len x <? io_pktlen x then
       iob_set (set_io_pktlen (u16 (io_pktlen x - io_len x))) (io_flink x);;
       y ← iob_get (io_flink x);
       kassert (io_len y <=? io_pktlen y)
     else
       iob_set (set_io_pktlen 0) (io_flink x);;
       y ← iob_get (io_flink x);
       kassert ((io_len y =? 0) && is_null (io_flink y))) s = Some (tt, s1) →
  pool s1 P O → O !! a = Some y →
  ∃ s', iob_free (Some a) s = Some (io_flink x, s') ∧ pool s' (give a P) (delete a O).
Proof.
  intros Hx Hpart Hp HO. exists (posted (pushed a y s1)). split; [|by eapply pool_pushed].
  pose proof (pool_lookup _ _ _ _ _ Hp HO) as Hy. pose proof (pool_counts _ _ _ _ _ Hp HO) as [Hf Ht].
  pose proof (pool_sem _ _ _ Hp) as Hsem.
  unfold iob_free. rewrite (K_bind_Some _ _ _ _ _ Hx). cbv zeta. rewrite (K_bind_Some _ _ _ _ _ Hpart).
  erewrite K_bind_Some by done. rewrite (K_bind_Some _ _ _ tt (pushed a y s1)).
  2:{ unfold pushed. destruct (g_iob_sem s1 <? 0); erewrite K_bind_Some by done;
      by rewrite (K_bind_Some _ _ _ _ _ (iob_set_run _ _ _ _ Hy)). }
  assert (g_iob_sem (pushed a y s1) = g_iob_sem s1 ∧ g_throttle_sem (pushed a y s1) = g_throttle_sem s1) as [Hi Hth].
  { unfold pushed. by destruct (g_iob_sem s1 <? 0). }
  rewrite (K_bind_Some _ _ _ _ _ (post_run SemIob (pushed a y s1) ltac:(simpl; lia))).
  unfold posted, kwhen. destruct (Z.ltb_spec 0 CONFIG_IOB_THROTTLE); [|done].
  erewrite K_bind_Some; [done|]. apply post_run. simpl. rewrite Hth. auto.
Qed.

Lemma pool_free_end s P O a x :
  pool s P O → O !! a = Some x → io_flink x = NULL →
  ∃ s', iob_free (Some a) s = Some (NULL, s') ∧ pool s' (give a P) (delete a O).
Proof.
  intros Hp HO Hf. rewrite <- Hf. eapply free_run; [by eapply pool_get| |done|done]. by rewrite Hf.
Qed.

(** Whether the assertions of [iob_free] hold for a buffer [x] followed by [y]. *)
Definition may_free (x y : iob_s) : Prop :=
  CONFIG_DEBUG_ASSERTIONS = false ∨
  io_len x < io_pktlen x ∧ io_len y ≤ u16 (io_pktlen x - io_len x).

Definition passed_on (x : iob_s) : Z :=
  if io_len x <? io_pktlen x then u16 (io_pktlen x - io_len x) else 0.

Lemma kassert_may (b : bool) s : CONFIG_DEBUG_ASSERTIONS = false ∨ b = true → kassert b s = Some (tt, s).
Proof.
  intros [Hb|Hb]; [|by apply kassert_ok]. unfold kassert, klift, DEBUGASSERT. by rewrite Hb.
Qed.

Lemma pool_free_next s P O a x b y :
  pool s P O → O !! a = Some x → io_flink x = Some b → O !! b = Some y → a ≠ b → may_free x y →
  ∃ s', iob_free (Some a) s = Some (Some b, s') ∧
    pool s' (give a P) (delete a (<[b := set_io_pktlen (passed_on x) y]> O)).
Proof.
  intros Hp Ha Hf Hb Hne Hmay. rewrite <- Hf.
  destruct (pool_set s P O b y (set_io_pktlen (passed_on x))) as (s1 & Hset & Hp1); [done..|].
  eapply free_run; [by eapply pool_get| |done|by rewrite lookup_insert_ne].
  rewrite Hf. simpl. unfold passed_on in *. destruct (Z.ltb_spec (io_len x) (io_pktlen x)).
  - rewrite (K_bind_Some _ _ _ _ _ Hset).
    rewrite (K_bind_Some _ _ _ _ _ (pool_get _ _ _ _ _ Hp1 (lookup_insert_eq _ _ _))).
    apply kassert_may. simpl. destruct Hmay as [?|[_ ?]]; [by left|right]. by apply Z.leb_le.
  - rewrite (K_bind_Some _ _ _ _ _ Hset).
    rewrite (K_bind_Some _ _ _ _ _ (pool_get _ _ _ _ _ Hp1 (lookup_insert_eq _ _ _))).
    apply kassert_may. destruct Hmay as [?|[? _]]; [by left|lia].
Qed.

Lemma holds_free_only s P R p a x :
  holds s P R p [(a, x)] → ∃ s', iob_free (Some a) s = Some (NULL, s') ∧ holds s' (give a P) R NULL [].
Proof.
  intros (O & Hp & (-> & Hx & Hf) & HR).
  destruct (pool_free_end s P O a x) as (s' & Hrun & Hp'); [done..|].
  exists s'. split; [done|]. exists (delete a O). split_and!; [done|done|]. rewrite <- HR. rest_eq.
Qed.

Lemma holds_free_head s P R p a x b y l :
  holds s P R p ((a, x) :: (b, y) :: l) → may_free x y →
  ∃ s', iob_free (Some a) s = Some (Some b, s') ∧
    holds s' (give a P) R (Some b) ((b, set_io_pktlen (passed_on x) y) :: l).
Proof.
  intros (O & Hp & Hc & HR) Hmay. pose proof (chain_NoDup _ _ _ Hc) as Hd. simpl in Hd.
  destruct Hc as (-> & Hx & Hf & Hy & Hc). nodup_facts.
  destruct (pool_free_next s P O a x b y) as (s' & Hrun & Hp'); [done..|].
  exists s'. split; [done|]. eexists. split_and!; [done| |].
  - split_and!; [done|by rewrite lookup_delete_ne, lookup_insert_eq|].
    eapply chain_agree; [done|]. same_cells.
  - rewrite <- HR. simpl. rest_eq.
Qed.

Definition repkt (v : Z) l : list (addr * iob_s) :=
  match l with [] => [] | (a, x) :: l => (a, set_io_pktlen v x) :: l end.

Lemma repkt_addrs v l : (repkt v l).*1 = l.*1.
Proof. by destruct l as [|[]]. Qed.

(** [iob_free] of the head of a chain changes that chain only. *)
Lemma pool_free_chain s P O a x l :
  pool s P O → chain O (Some a) ((a, x) :: l) → l = [] ∨ CONFIG_DEBUG_ASSERTIONS = false →
  ∃ s' O', iob_free (Some a) s = Some (io_flink x, s') ∧ pool s' (give a P) O' ∧
    (∀ c, c ∉ a :: l.*1 → O' !! c = O !! c) ∧ O' !! a = None ∧
    chain O' (io_flink x) (repkt (passed_on x) l).
Proof.
  intros Hp Hc Hmay. pose proof (chain_NoDup _ _ _ Hc) as Hd. destruct Hc as (_ & Hx & Hc).
  destruct l as [|[c z] l]; simpl in Hd.
  - destruct (pool_free_end s P O a x) as (s' & Hrun & Hp'); [done..|]. simpl in Hc. rewrite Hc in *.
    exists s', (delete a O). split_and!; [done..| |apply lookup_delete_eq|done]. intros c Hin.
    rewrite lookup_delete_ne; [done|]. set_solver.
  - destruct Hmay as [|Hmay]; [done|]. destruct Hc as (Hf & Hz & Hc). nodup_facts.
    destruct (pool_free_next s P O a x c z) as (s' & Hrun & Hp'); [done..|by left|].
    rewrite Hf. exists s', (delete a (<[c := set_io_pktlen (passed_on x) z]> O)).
    split_and!; [done..| |apply lookup_delete_eq|].
    + intros e He. simpl in He. rewrite lookup_delete_ne, lookup_insert_ne by set_solver. done.
    + split_and!; [done|by rewrite lookup_delete_ne, lookup_insert_eq by set_solver|].
      eapply chain_agree; [done|]. same_cells.
Qed.

(** A buffer is freed behind [b], whose link is then set to what [iob_free] returns. *)
Lemma holds_free_next s P R p l1 b y a x l2 :
  holds s P R p (l1 ++ (b, y) :: (a, x) :: l2) → l2 = [] ∨ CONFIG_DEBUG_ASSERTIONS = false →
  ∃ s1 s2, iob_free (Some a) s = Some (io_flink x, s1) ∧
    iob_set (set_io_flink (io_flink x)) (Some b) s1 = Some (tt, s2) ∧
    holds s2 (give a P) R p (l1 ++ (b, set_io_flink (io_flink x) y) :: repkt (passed_on x) l2).
Proof.
  intros (O & Hp & Hc & HR) Hmay. pose proof (chain_NoDup _ _ _ Hc) as Hd. rewrite fmap_app in Hd, HR.
  apply chain_app in Hc as (q & Hs & -> & Hy & Hc). pose proof Hc as (Hf & Hx & _). rewrite Hf in Hc.
  destruct (pool_free_chain s P O a x l2) as (s1 & O1 & Hrun & Hp1 & Hsame & Ha & Hc1); [done..|].
  exists s1. simpl in Hd. nodup_facts.
  destruct (pool_set s1 (give a P) O1 b y (set_io_flink (io_flink x))) as (s2 & Hset & Hp2); [done| |done|].
  { by rewrite Hsame by set_solver. }
  exists s2. split_and!; [done..|]. eexists. split_and!; [done| |].
  - apply chain_app. exists (Some b). split.
    + eapply segment_agree; [done|]. intros c Hin. rewrite lookup_insert_ne by set_solver. apply Hsame. set_solver.
    + split_and!; [done|by rewrite lookup_insert_eq|]. eapply chain_agree; [done|].
      intros c Hin. rewrite repkt_addrs in Hin. by rewrite lookup_insert_ne by set_solver.
  - rewrite <- HR, fmap_app, fmap_cons, repkt_addrs. simpl. apply map_eq. intros i.
    rewrite !rest_lookup, lookup_insert. destruct (decide (i = a)) as [->|].
    + rewrite Ha. repeat case_decide; set_solver.
    + repeat case_decide; subst; first [done|set_solver|apply Hsame; set_solver].
Qed.

(** ** [iob_tryalloc] *)

(** No buffer is left, or none for a caller that is throttled. *)
Definition refused s P (throttled : bool) : Prop :=
  free_bufs P = [] ∨ 0 < CONFIG_IOB_THROTTLE ∧ throttled = true ∧ g_throttle_sem s ≤ 0.

Definition fresh (d : list Z) : iob_s := mk_iob NULL 0 0 0 d.

Definition taken (F : list addr) P : lists := mk_lists F (committed_bufs P) (waiters P).

Lemma clear_run s a x :
  iobs s !! a = Some x → iob_clear (Some a) s = Some (tt, set_iobs (<[a := fresh (io_data x)]> (iobs s)) s).
Proof.
  intros Hx. unfold iob_clear.
  rewrite (K_bind_Some _ _ _ _ _ (iob_set_run _ _ _ _ Hx)).
  do 2 (erewrite K_bind_Some by (apply iob_set_run; simpl; apply lookup_insert_eq)).
  erewrite iob_set_run by (simpl; apply lookup_insert_eq). simpl. unfold set_iobs. simpl.
  by rewrite !insert_insert_eq.
Qed.

(** The state after [iob_tryalloc] has taken [a]. *)
Definition after_take (a : addr) (x : iob_s) s : iob_st :=
  let s := set_sem_count SemIob (g_iob_sem s - 1) (set_freelist (io_flink x) s) in
  let s := if 0 <? CONFIG_IOB_THROTTLE then set_sem_count SemThrottle (g_throttle_sem s - 1) s else s in
  set_iobs (<[a := fresh (io_data x)]> (iobs s)) s.

Lemma tryalloc_run s P O thr a F x :
  pool s P O → free_bufs P = a :: F → iobs s !! a = Some x → ¬ refused s P thr →
  iob_tryalloc thr s = Some (Some a, after_take a x s).
Proof.
  intros Hp HF Hx Hr. unfold iob_tryalloc. erewrite K_bind_Some by done.
  pose proof (pool_sem _ _ _ Hp) as Hsem. pose proof (pool_throttle _ _ _ Hp) as Hthr.
  pose proof (pool_free _ _ _ Hp) as Hf. rewrite HF in *. destruct Hf as [Hf _]. simpl in Hsem, Hthr.
  destruct (pool_waiters _ _ _ Hp) as [Hw|Hw]; [|congruence]. rewrite Hw in Hsem.
  replace ((CONFIG_IOB_THROTTLE <=? 0) || (0 <? sem_count (throttle_sem thr) s)) with true.
  2:{ symmetry. unfold refused in Hr. rewrite HF in Hr. unfold throttle_sem. apply orb_true_iff.
      rewrite Z.leb_le, Z.ltb_lt. destruct (Z.ltb_spec 0 CONFIG_IOB_THROTTLE), thr; simpl; lia || naive_solver lia. }
  erewrite K_bind_Some by done. rewrite Hf. simpl.
  rewrite (K_bind_Some _ _ s x s) by (unfold iob_get, kget; simpl; by rewrite Hx).
  do 3 (erewrite K_bind_Some by done). erewrite K_bind_Some by (apply kassert_ok, Z.leb_le; simpl; lia).
  unfold after_take, kwhen. destruct (Z.ltb_spec 0 CONFIG_IOB_THROTTLE).
  - rewrite (K_bind_Some _ _ _ tt (set_sem_count SemThrottle (g_throttle_sem s - 1)
      (set_sem_count SemIob (g_iob_sem s - 1) (set_freelist (io_flink x) s)))).
    2:{ do 2 (erewrite K_bind_Some by done). apply kassert_ok. apply Z.leb_le. simpl. lia. }
    erewrite K_bind_Some; [done|]. by apply clear_run.
  - erewrite K_bind_Some by done. erewrite K_bind_Some; [done|]. by apply clear_run.
Qed.

Lemma tryalloc_refused s P O thr :
  pool s P O → refused s P thr → iob_tryalloc thr s = Some (NULL, s).
Proof.
  intros Hp Hr. unfold iob_tryalloc. erewrite K_bind_Some by done.
  pose proof (pool_free _ _ _ Hp) as Hf. destruct Hr as [Hr|(Ht & -> & Hc)].
  - rewrite Hr in Hf. case_match; [|done]. erewrite K_bind_Some by done. by rewrite Hf.
  - unfold throttle_sem. destruct (Z.ltb_spec 0 CONFIG_IOB_THROTTLE); [|lia]. simpl.
    destruct (Z.leb_spec CONFIG_IOB_THROTTLE 0), (Z.ltb_spec 0 (g_throttle_sem s)); simpl; lia || done.
Qed.

Lemma pool_taken s P O a F x :
  pool s P O → free_bufs P = a :: F → iobs s !! a = Some x →
  pool (after_take a x s) (taken F P) (<[a := fresh (io_data x)]> O).
Proof.
  intros Hp HF Hx. destruct Hp. rewrite HF in *. simpl in *.
  assert (O !! a = None) as Ha by (apply pool_disjoint0; set_solver).
  assert (iobs (after_take a x s) = <[a := fresh (io_data x)]> (iobs s) ∧
    g_iob_freelist (after_take a x s) = io_flink x ∧
    g_iob_committed (after_take a x s) = g_iob_committed s) as (Hi & Hfl & Hcm).
  { unfold after_take. by destruct (0 <? CONFIG_IOB_THROTTLE). }
  destruct pool_free0 as (Hh & x' & Hx' & Hl). replace x' with x in Hl by congruence. nodup_facts.
  split; rewrite ?Hi, ?Hfl, ?Hcm; simpl.
  - apply (links_agree _ _ _ _ Hl). same_cells.
  - apply (links_agree _ _ _ _ pool_committed0). same_cells.
  - by apply insert_mono.
  - solve_nodup.
  - intros b Hb. rewrite lookup_insert_ne; [set_solver|]. intros ->. set_solver.
  - intros b. rewrite !lookup_insert. case_decide; [right; eauto|]. intros Hb.
    destruct (pool_all0 b Hb) as [[->|]%elem_of_cons|]; [done|by left|by right].
  - intros b y. rewrite lookup_insert. case_decide; [intros [= <-]; simpl; subst; eauto|eauto].
  - destruct pool_waiters0 as [Hw|]; [|done]. transitivity (g_iob_sem s - 1); [|lia].
    unfold after_take. by destruct (0 <? CONFIG_IOB_THROTTLE).
  - destruct pool_waiters0; [by left|done].
  - by rewrite map_size_insert_Some.
  - intros Ht. specialize (pool_throttle0 Ht). rewrite map_size_insert_None by done.
    unfold after_take. destruct (Z.ltb_spec 0 CONFIG_IOB_THROTTLE); [simpl; lia|lia].
Qed.

Lemma pool_tryalloc s P O thr :
  pool s P O →
  iob_tryalloc thr s = Some (NULL, s) ∧ refused s P thr ∨
  ¬ refused s P thr ∧ ∃ a F x, free_bufs P = a :: F ∧ O !! a = None ∧
    iob_tryalloc thr s = Some (Some a, after_take a x s) ∧
    pool (after_take a x s) (taken F P) (<[a := fresh (io_data x)]> O) ∧
    Z.of_nat (length (io_data x)) = CONFIG_IOB_BUFSIZE.
Proof.
  intros Hp. assert (Decision (refused s P thr)) as Hdec by (unfold refused; apply _).
  destruct Hdec as [Hr|Hr]; [left; split; [by eapply tryalloc_refused|done]|right]. split; [done|].
  pose proof (pool_free _ _ _ Hp) as Hf. destruct (free_bufs P) as [|a F] eqn:HF; [by destruct Hr; left|].
  destruct Hf as (_ & x & Hx & _). exists a, F, x.
  split_and!; [done| |by eapply tryalloc_run|by eapply pool_taken|by eapply pool_data].
  eapply pool_disjoint; [done|]. rewrite HF. set_solver.
Qed.

(** A buffer is allocated and linked behind the last one of a chain. *)
Lemma holds_extend s P R p l b y thr :
  holds s P R p (l ++ [(b, y)]) →
  iob_tryalloc thr s = Some (NULL, s) ∧ refused s P thr ∨
  ¬ refused s P thr ∧ ∃ a F s1 s2 d, free_bufs P = a :: F ∧
    iob_tryalloc thr s = Some (Some a, s1) ∧ iob_set (set_io_flink (Some a)) (Some b) s1 = Some (tt, s2) ∧
    holds s2 (taken F P) R p (l ++ [(b, set_io_flink (Some a) y); (a, fresh d)]) ∧
    Z.of_nat (length d) = CONFIG_IOB_BUFSIZE.
Proof.
  intros (O & Hp & Hc & HR). destruct (pool_tryalloc s P O thr Hp) as [?|(Hr & a & F & x & HF & Ha & Hrun & Hp1
    & Hlen)];
    [by left|right]. split; [done|]. pose proof (chain_NoDup _ _ _ Hc) as Hd.
  pose proof (chain_lookup _ _ _ b y Hc ltac:(set_solver)) as Hy.
  assert (a ∉ (l ++ [(b, y)]).*1) as Hn.
  { intros ([c z] & -> & Hin)%list_elem_of_fmap. pose proof (chain_lookup _ _ _ _ _ Hc Hin); simpl in *; congruence. }
  rewrite fmap_app in Hn, Hd, HR. simpl in Hn, Hd, HR. nodup_facts.
  destruct (pool_set _ _ _ b y (set_io_flink (Some a)) Hp1) as (s2 & Hset & Hp2); [|done|].
  { by rewrite lookup_insert_ne. }
  exists a, F, (after_take a x s), s2, (io_data x). split_and!; [done..| |done].
  eexists. split_and!; [done| |].
  - apply chain_app in Hc as (q & Hs & -> & _ & _). apply chain_app. exists (Some b). split.
    + eapply segment_agree; [done|]. same_cells.
    + simpl. rewrite lookup_insert_eq, lookup_insert_ne, lookup_insert_eq by done. done.
  - rewrite <- HR, fmap_app. simpl. rest_eq.
Qed.
End pool.
