(* ===== verification/IobOps.v ===== *)
(** * IobOps: what the operations on packets do

    Each operation is followed along the list of the buffers of the packet; the result is
    again a packet, with the bytes that the operation says, and no other buffer in use
    changes. *)

From S2P Require Import Prelude IobChain Iob IobSpec.
Local Open Scope Z_scope.
Set Default Proof Using "Type".

Section ops.
Context `{Config, IobConfig}.
Context (Hbuf : 0 < CONFIG_IOB_BUFSIZE < 65536).
Implicit Types (s : iob_st) (P : lists) (R : mem iob_s) (l : list (addr * iob_s)).

Lemma wlen_small z : 0 ≤ z ≤ CONFIG_IOB_BUFSIZE → wlen z = z.
Proof using Type Hbuf.
  intros Hz. unfold wlen. destruct (Z.ltb_spec CONFIG_IOB_BUFSIZE 256); apply wrap_u_small.
  - change (2 ^ 8) with 256. lia.
  - change (2 ^ 16) with 65536. lia.
Qed.

(** ** Packets *)

Lemma bufs_ok_cons a x b y l :
  bufs_ok ((a, x) :: (b, y) :: l) → buf_ok x ∧ used x ∧ bufs_ok ((b, y) :: l) ∧ Forall used (((b, y) :: l).*2).
Proof.
  intros (Hb & Ht & [?|Hu]); [done|]. simpl in *. apply Forall_cons in Hb as [Hx Hb].
  apply Forall_cons in Hu as [Hux Hu]. apply Forall_cons in Ht as [_ Ht].
  split; [done|]. split; [done|]. split; [|done]. unfold bufs_ok. simpl. auto.
Qed.

Lemma bufs_ok_head a x l : bufs_ok ((a, x) :: l) → buf_ok x.
Proof. intros (Hb & _). by apply Forall_cons in Hb as [? _]. Qed.

Lemma bufs_ok_one a x : buf_ok x → bufs_ok [(a, x)].
Proof. intros. unfold bufs_ok. simpl. auto. Qed.

(** The parts of a buffer that its data depends on. *)
Definition same_buf (x y : iob_s) : Prop :=
  io_len x = io_len y ∧ io_offset x = io_offset y ∧ io_data x = io_data y.

Lemma same_buf_payload x y : same_buf x y → payload x = payload y.
Proof. intros (? & ? & ?). by apply payload_eq. Qed.

Lemma same_buf_ok x y : same_buf x y → buf_ok x → buf_ok y.
Proof. intros (Hl & Ho & Hd) []. split; rewrite <- ?Hl, <- ?Ho, <- ?Hd; done. Qed.

Lemma same_pktlen v x : same_buf x (set_io_pktlen v x).
Proof. by split_and!. Qed.
Lemma same_flink q x : same_buf x (set_io_flink q x).
Proof. by split_and!. Qed.

(** Lists of buffers with the same data. *)
Definition same_bufs l l' : Prop := Forall2 same_buf l.*2 l'.*2.

Lemma same_bufs_bytes l l' : same_bufs l l' → bytes l = bytes l'.
Proof.
  unfold same_bufs, bytes. generalize l.*2 l'.*2. intros xs ys. induction 1 as [|x y xs ys Hxy _ IH]; [done|].
  rewrite !fmap_cons. cbn [concat]. by rewrite IH, (same_buf_payload _ _ Hxy).
Qed.

Lemma same_bufs_Forall (Q : iob_s → Prop) xs ys :
  (∀ x y, same_buf x y → Q x → Q y) → Forall2 same_buf xs ys → Forall Q xs → Forall Q ys.
Proof. intros HQ. induction 1; [done|]. intros [? ?]%Forall_cons. constructor; eauto. Qed.

Lemma same_bufs_ok l l' : same_bufs l l' → bufs_ok l → bufs_ok l'.
Proof.
  intros Hs (Hb & Ht & Hu). assert (∀ x y, same_buf x y → used x → used y) as Hused.
  { intros x y (Hl & _). unfold used. by rewrite Hl. }
  unfold bufs_ok. split_and!.
  - eapply same_bufs_Forall; [apply same_buf_ok|done|done].
  - eapply same_bufs_Forall; [done| |done]. unfold same_bufs in Hs. by destruct Hs.
  - destruct Hu as [Hu|Hu]; [left|right; by eapply same_bufs_Forall].
    pose proof (Forall2_length _ _ _ Hs) as Hlen. rewrite !length_fmap in Hlen.
    destruct l as [|? [|]], l' as [|? [|]]; done.
Qed.

#[global] Instance same_buf_refl : Reflexive same_buf.
Proof. intros x. by split_and!. Qed.
#[global] Instance same_bufs_refl : Reflexive same_bufs.
Proof. intros l. unfold same_bufs. reflexivity. Qed.

Lemma same_bufs_cons a x b y l : same_buf x y → same_bufs ((a, x) :: l) ((b, y) :: l).
Proof. intros. by constructor. Qed.

Lemma packet_ok_head a x l :
  bufs_ok ((a, x) :: l) → Z.of_nat (length (bytes ((a, x) :: l))) < 65536 →
  packet_ok ((a, set_io_pktlen (Z.of_nat (length (bytes ((a, x) :: l)))) x) :: l).
Proof.
  intros Hb Hlt. pose proof (same_bufs_cons a x a _ l (same_pktlen (Z.of_nat (length (bytes ((a,
    x) :: l)))) x)) as Hs. split.
  - by eapply same_bufs_ok.
  - rewrite <- (same_bufs_bytes _ _ Hs). done.
Qed.

Lemma packet_length a x l :
  packet_ok ((a, x) :: l) → io_pktlen x = io_len x + Z.of_nat (length (bytes l)) ∧ 0 ≤ io_len x ≤ io_pktlen x ∧
    io_pktlen x < 65536.
Proof.
  intros (Hb & Hp & Hlt). apply bufs_ok_head in Hb. rewrite bytes_cons, length_app in Hp.
  pose proof (payload_length _ Hb). pose proof (bo_len _ Hb). lia.
Qed.

(** When the head of a packet is freed, the rest is a packet. *)
Lemma packet_tail a x b y l :
  packet_ok ((a, x) :: (b, y) :: l) →
  may_free x y ∧ passed_on x = Z.of_nat (length (bytes ((b, y) :: l))) ∧
  packet_ok ((b, set_io_pktlen (passed_on x) y) :: l).
Proof.
  intros Hp. pose proof (packet_length _ _ _ Hp) as (Hl & Hx & Hlt).
  destruct Hp as [Hb _]. apply bufs_ok_cons in Hb as (_ & _ & Hb & Hu).
  pose proof (bytes_pos ((b, y) :: l) (proj1 Hb) Hu ltac:(done)) as Hpos.
  assert (passed_on x = Z.of_nat (length (bytes ((b, y) :: l)))) as Hpo.
  { unfold passed_on. destruct (Z.ltb_spec (io_len x) (io_pktlen x)); [|lia]. rewrite u16_small; lia. }
  split_and!; [|done|rewrite Hpo; apply packet_ok_head; [done|lia]].
  right. split; [lia|]. rewrite u16_small by lia. replace (io_pktlen x - io_len x) with
    (Z.of_nat (length (bytes ((b, y) :: l)))) by lia. rewrite bytes_cons, length_app.
  pose proof (payload_length _ (bufs_ok_head _ _ _ Hb)). lia.
Qed.

(** ** [iob_free_chain] *)

Definition gives (A : list addr) P : lists := foldl (flip give) P A.

Lemma free_chain_loop_ok fuel s P R p l :
  holds s P R p l → packet_ok l ∨ l = [] → (length l < fuel)%nat →
  ∃ s', free_chain_loop fuel p s = Some (tt, s') ∧ holds s' (gives l.*1 P) R NULL [].
Proof.
  revert s P p l. induction fuel as [|fuel IH]; intros s P p l Hh Hl Hf; [lia|]. simpl.
  rewrite (holds_null _ _ _ _ _ Hh). destruct l as [|[a x] l]; [exists s; split; [done|]|].
  { destruct Hh as (O & Hp & Hc & HR). exists O. split_and!; try done. }
  destruct Hl as [Hl|]; [|done]. simpl. assert (p = Some a) as -> by (by destruct Hh as (O & _ & (? & _) & _)).
  destruct l as [|[b y] l].
  - destruct (holds_free_only _ _ _ _ _ _ Hh) as (s1 & Hrun & Hh1).
    rewrite (K_bind_Some _ _ _ _ _ Hrun). apply (IH s1 (give a P) NULL []); [done|by right|simpl in *; lia].
  - destruct (packet_tail _ _ _ _ _ Hl) as (Hmay & _ & Hl').
    destruct (holds_free_head _ _ _ _ _ _ _ _ _ Hh Hmay) as (s1 & Hrun & Hh1).
    rewrite (K_bind_Some _ _ _ _ _ Hrun).
    apply (IH s1 (give a P) (Some b) ((b, set_io_pktlen (passed_on x) y) :: l)); [done|by left|simpl in *; lia].
Qed.

Lemma iob_free_chain_ok s P R p l :
  holds s P R p l → packet_ok l ∨ l = [] →
  ∃ s', iob_free_chain p s = Some (tt, s') ∧ holds s' (gives l.*1 P) R NULL [].
Proof.
  intros Hh Hl. destruct (holds_count _ _ _ _ _ Hh) as [Hc Hlen]. unfold iob_free_chain.
  rewrite (K_bind_Some _ _ _ _ _ Hc). apply free_chain_loop_ok; [done..|lia].
Qed.

Lemma holds_head s P R p a x l : holds s P R p ((a, x) :: l) → p = Some a.
Proof. by intros (O & _ & (? & _) & _). Qed.

(** The fields of the first buffer. *)
Lemma holds_set_head s P R a x l f :
  holds s P R (Some a) ((a, x) :: l) → io_flink (f x) = io_flink x → io_data (f x) = io_data x →
  ∃ s', iob_set f (Some a) s = Some (tt, s') ∧ holds s' P R (Some a) ((a, f x) :: l).
Proof. intros Hh Hf Hd. apply (holds_set _ _ _ _ [] _ _ _ _ Hh Hf). by rewrite Hd. Qed.

(** ** [iob_trimhead] *)

Definition cut_head (n : Z) (x : iob_s) : iob_s := set_io_offset (io_offset x + n) (set_io_len (io_len x - n) x).

Lemma cut_head_ok n x : buf_ok x → 0 ≤ n < io_len x → buf_ok (cut_head n x) ∧ used (cut_head n x).
Proof. intros [] Hn. unfold used. split; [split; simpl; lia|simpl; lia]. Qed.

Lemma bufs_ok_change a x y l :
  bufs_ok ((a, x) :: l) → buf_ok y → used y → bufs_ok ((a, y) :: l).
Proof.
  intros (Hb & Ht & _) Hy Hu. simpl in *. apply Forall_cons in Hb as [_ Hb].
  split; [by constructor|]. split; [done|]. right. by constructor.
Qed.

Lemma holds_link s P R p a x l : holds s P R p ((a, x) :: l) → is_null (io_flink x) = bool_decide (l = []).
Proof. intros (O & _ & (_ & _ & Hc) & _). destruct l as [|[b y] l]; [by rewrite Hc|]. by destruct Hc as (-> & _). Qed.

Lemma holds_next s P R p a x b y l : holds s P R p ((a, x) :: (b, y) :: l) → io_flink x = Some b.
Proof. by intros (O & _ & (_ & _ & ? & _) & _). Qed.

(** The last buffer is emptied and stays. *)
Lemma empty_last s P R a x :
  holds s P R (Some a) [(a, x)] →
  ∃ s' y, (iob_set (set_io_len 0) (Some a);; iob_set (set_io_offset 0) (Some a)) s = Some (tt, s') ∧
    holds s' P R (Some a) [(a, y)] ∧ (buf_ok x → buf_ok y) ∧ bytes [(a, y)] = [].
Proof using Type Hbuf.
  intros Hh. destruct (holds_set_head _ _ _ _ _ _ (set_io_len 0) Hh) as (s1 & Hr1 & Hh1); [done..|].
  destruct (holds_set_head _ _ _ _ _ _ (set_io_offset 0) Hh1) as (s2 & Hr2 & Hh2); [done..|].
  eexists s2, _. split_and!; [by run Hr1|done| |].
  - intros []. split; simpl; lia.
  - rewrite bytes_one. by apply payload_len0.
Qed.

(** A part of the first buffer is removed. *)
Lemma cut_first s P R a x l n :
  holds s P R (Some a) ((a, x) :: l) → buf_ok x → 0 ≤ n < io_len x →
  ∃ s', (iob_set (set_io_len (wlen (io_len x - n))) (Some a);;
         iob_set (set_io_offset (wlen (io_offset x + n))) (Some a)) s = Some (tt, s') ∧
    holds s' P R (Some a) ((a, cut_head n x) :: l) ∧
    bytes ((a, cut_head n x) :: l) = drop (Z.to_nat n) (bytes ((a, x) :: l)).
Proof using Type Hbuf.
  intros Hh Hx Hn. pose proof (payload_length _ Hx). destruct Hx.
  destruct (holds_set_head _ _ _ _ _ _ (set_io_len (wlen (io_len x - n))) Hh) as (s1 & Hr1 & Hh1); [done..|].
  destruct (holds_set_head _ _ _ _ _ _ (set_io_offset (wlen (io_offset x + n))) Hh1) as (s2 & Hr2 & Hh2); [done..|].
  rewrite !wlen_small in Hh2 by lia. exists s2. split_and!; [by run Hr1|done|].
  rewrite !bytes_cons. unfold cut_head. by rewrite payload_trim_head, drop_app_le by lia.
Qed.

Lemma trimhead_loop_ok fuel s P R p l n :
  holds s P R p l → packet_ok l → 0 ≤ n → (length l + 1 < fuel)%nat →
  ∃ s' P' q l', trimhead_loop fuel p n (Z.of_nat (length (bytes l))) s = Some ((q,
    Z.of_nat (length (bytes l'))), s') ∧
    holds s' P' R q l' ∧ bufs_ok l' ∧ l' ≠ [] ∧ bytes l' = drop (Z.to_nat n) (bytes l).
Proof using Type Hbuf.
  revert s P p l n. induction fuel as [|fuel IH]; intros s P p l n Hh Hl Hn Hf; [lia|]. cbn [trimhead_loop].
  rewrite (holds_null _ _ _ _ _ Hh). destruct l as [|[a x] l]; [by destruct Hl|].
  rewrite bool_decide_eq_false_2 by done. destruct (Z.ltb_spec 0 n); cbn [negb andb].
  2:{ exists s, P, p, ((a, x) :: l). replace n with 0 by lia. split_and!; try done. by destruct Hl. }
  pose proof (holds_head _ _ _ _ _ _ _ Hh) as ->. run (holds_get _ _ _ _ _ a x Hh ltac:(set_solver)).
  destruct (packet_length _ _ _ Hl) as (Hpk & Hx & Hlt). pose proof (bufs_ok_head _ _ _ (proj1 Hl)) as Hbx.
  pose proof (payload_length _ Hbx) as Hpay. pose proof (holds_link _ _ _ _ _ _ _ Hh) as Hlink.
  destruct (Z.leb_spec (io_len x) n); [destruct l as [|[b y] l]; cbv zeta; rewrite Hlink|].
  - rewrite bytes_one, Hpay, Z.sub_diag. simpl. run (kassert_ok (u16 0 =? 0) s eq_refl).
    destruct (empty_last _ _ _ _ _ Hh) as (s1 & y & Hr & Hh1 & Hy & Hnil). rewrite K_bind_assoc. run Hr.
    exists s1, P, (Some a), [(a, y)]. rewrite Hnil. split_and!; [done|done|by apply bufs_ok_one, Hy|done|].
    symmetry. apply drop_ge. lia.
  - destruct (packet_tail _ _ _ _ _ Hl) as (Hmay & Hpo & Hl'). simpl.
    destruct (holds_free_head _ _ _ _ _ _ _ _ _ Hh Hmay) as (s1 & Hrun & Hh1). run Hrun.
    pose proof (same_bufs_bytes _ _ (same_bufs_cons b y b _ l (same_pktlen (passed_on x) y))) as Hb.
    destruct (IH s1 _ _ _ (n - io_len x) Hh1 Hl') as (s' & P' & q & l' & Hr & Hh' & Hok & Hne & Hbs);
      [lia|simpl in *; lia|].
    rewrite (holds_next _ _ _ _ _ _ _ _ _ Hh). exists s', P', q, l'. split_and!; [|done..|].
    + rewrite <- Hr, <- Hb. f_equal. rewrite (bytes_cons a), length_app. rewrite u16_small; lia.
    + rewrite Hbs, <- Hb, (bytes_cons a), drop_app_ge by lia. f_equal. lia.
  - destruct (cut_first _ _ _ _ _ _ n Hh Hbx) as (s1 & Hr & Hh1 & Hbs); [lia|]. rewrite K_bind_assoc. run Hr.
    destruct fuel as [|fuel]; [simpl in *; lia|]. destruct (cut_head_ok n x) as [Hc Hu]; [done|lia|].
    exists s1, P, (Some a), ((a, cut_head n x) :: l). split_and!; [|done| |done|done].
    + rewrite Hbs, length_drop, bytes_cons, length_app, u16_small by lia.
      cbn. unfold mret, K_ret. do 3 f_equal. lia.
    + eapply bufs_ok_change; [apply Hl|done..].
Qed.

Lemma iob_trimhead_ok s P R p l n :
  holds s P R p l → packet_ok l → 0 ≤ n →
  ∃ s' P' q l', iob_trimhead p n s = Some (q, s') ∧ holds s' P' R q l' ∧ packet_ok l' ∧
    bytes l' = drop (Z.to_nat n) (bytes l).
Proof using Type Hbuf.
  intros Hh Hl Hn. unfold iob_trimhead. rewrite (holds_null _ _ _ _ _ Hh).
  destruct l as [|[a x] l]; [by destruct Hl|]. simpl. pose proof (holds_head _ _ _ _ _ _ _ Hh) as ->.
  destruct (Z.ltb_spec 0 n).
  2:{ exists s, P, (Some a), ((a, x) :: l). replace n with 0 by lia. by split_and!. }
  run (holds_get _ _ _ _ _ a x Hh ltac:(set_solver)).
  destruct (holds_count _ _ _ _ _ Hh) as [Hc Hlen]. run Hc.
  destruct (trimhead_loop_ok (size (iobs s) + 2) _ _ _ _ _ n Hh Hl) as (s1 & P1 & q & l1 & Hr & Hh1 & Hok & Hne & Hb);
    [lia..|].
  pose proof Hl as (_ & Hpk & Hlt). rewrite Hpk. run Hr. destruct l1 as [|[b y] l1]; [done|].
  pose proof (holds_head _ _ _ _ _ _ _ Hh1) as ->.
  destruct (holds_set_head _ _ _ _ _ _ (set_io_pktlen (Z.of_nat (length (bytes ((b, y) :: l1))))) Hh1)
    as (s2 & Hr2 & Hh2); [done..|]. run Hr2.
  eexists s2, P1, (Some b), _. split_and!; [done|done| |].
  - apply packet_ok_head; [done|]. rewrite Hb, length_drop. lia.
  - rewrite <- Hb. symmetry. apply same_bufs_bytes, same_bufs_cons, same_pktlen.
Qed.

(** ** [iob_trimtail] *)

Definition hd_pktlen l : Z := match l with [] => 0 | (_, x) :: _ => io_pktlen x end.

Lemma packet_ok_alt l :
  packet_ok l ↔ l ≠ [] ∧ bufs_ok l ∧ hd_pktlen l = Z.of_nat (length (bytes l)) ∧ hd_pktlen l < 65536.
Proof. clear Hbuf. unfold packet_ok. destruct l as [|[a x] l]; naive_solver. Qed.

Lemma packet_ok_same l l' : same_bufs l l' → hd_pktlen l' = hd_pktlen l → packet_ok l → packet_ok l'.
Proof. clear Hbuf.
  intros Hs Hp (Hne & Hb & Hl & Hlt)%packet_ok_alt. apply packet_ok_alt. rewrite Hp, <- (same_bufs_bytes _ _ Hs).
  split_and!; [|by eapply same_bufs_ok|done|done]. intros ->. by apply Forall2_nil_inv_r, fmap_nil_inv in Hs.
Qed.

Lemma same_repkt v l : same_bufs l (repkt v l).
Proof. destruct l as [|[a x] l]; [done|]. apply same_bufs_cons, same_pktlen. Qed.

Lemma same_bufs_app l1 l1' l2 l2' : same_bufs l1 l1' → same_bufs l2 l2' → same_bufs (l1 ++ l2) (l1' ++ l2').
Proof. unfold same_bufs. rewrite !fmap_app. by apply Forall2_app. Qed.

Lemma repkt_app v l1 l2 : l1 ≠ [] → repkt v (l1 ++ l2) = repkt v l1 ++ l2.
Proof. by destruct l1 as [|[]]. Qed.

(** The last buffer of a chain whose head changed. *)
Lemma repkt_snoc v l b y :
  ∃ l' y', repkt v (l ++ [(b, y)]) = l' ++ [(b, y')] ∧ same_bufs l l' ∧ same_buf y y' ∧
    hd_pktlen (l' ++ [(b, y')]) = v ∧ (l ≠ [] → hd_pktlen l' = v).
Proof.
  destruct l as [|[a x] l].
  - exists [], (set_io_pktlen v y). by split_and!.
  - exists ((a, set_io_pktlen v x) :: l), y. split_and!; [done|apply same_bufs_cons, same_pktlen|done..].
Qed.

Lemma packet_ok_repkt l :
  l ≠ [] → bufs_ok l → Z.of_nat (length (bytes l)) < 65536 → packet_ok (repkt (Z.of_nat (length (bytes l))) l).
Proof. destruct l as [|[a x] l]; [done|]. intros _. apply packet_ok_head. Qed.

Lemma bufs_ok_prefix l1 l2 : bufs_ok (l1 ++ l2) → bufs_ok l1.
Proof.
  intros (Hb & Ht & Hu). unfold bufs_ok. rewrite fmap_app in *. apply Forall_app in Hb as [Hb _].
  destruct l1 as [|x l1]; [by auto|]. simpl in *. apply Forall_app in Ht as [Ht _].
  split_and!; [done..|]. destruct Hu as [Hu|Hu]; [left|right].
  - by apply app_eq_nil in Hu as [? _].
  - rewrite Forall_cons, Forall_app in Hu. constructor; apply Hu.
Qed.

Lemma bufs_ok_last l a x : bufs_ok (l ++ [(a, x)]) → buf_ok x.
Proof. intros (Hb & _). rewrite fmap_app, Forall_app in Hb. destruct Hb as [_ Hb].
by apply Forall_cons in Hb as [? _]. Qed.

Lemma bufs_ok_change_last l a x y :
  bufs_ok (l ++ [(a, x)]) → buf_ok y → used y → bufs_ok (l ++ [(a, y)]).
Proof.
  intros (Hb & Ht & Hu) Hy Huy. unfold bufs_ok. rewrite !fmap_app in *. apply Forall_app in Hb as [Hb _].
  split; [apply Forall_app; split; [done|by constructor]|].
  destruct l as [|z l]; simpl in *; [by auto|]. apply Forall_app in Ht as [Ht _].
  split; [apply Forall_app; split; [done|by constructor]|right].
  destruct Hu as [Hu|Hu]; [by destruct l|]. apply Forall_cons in Hu as [Hz Hu].
  apply Forall_app in Hu as [Hu _]. constructor; [done|]. apply Forall_app. split; [done|by constructor].
Qed.

Lemma bufs_ok_used l a x : bufs_ok (l ++ [(a, x)]) → l ≠ [] → Forall used (l ++ [(a, x)]).*2 ∧ buf_ok x.
Proof.
  intros (Hb & _ & Hu) Hne. split.
  - destruct Hu as [Hu|]; [|done]. destruct l as [|? [|]]; by try discriminate Hu.
  - rewrite fmap_app, Forall_app in Hb. destruct Hb as [_ Hb]. by apply Forall_cons in Hb as [? _].
Qed.

Lemma holds_set_pktlen s P R p l v :
  holds s P R p l → l ≠ [] →
  (∃ x, iob_get p s = Some (x, s) ∧ io_pktlen x = hd_pktlen l) ∧
  ∃ s', iob_set (set_io_pktlen v) p s = Some (tt, s') ∧ holds s' P R p (repkt v l).
Proof. clear Hbuf.
  destruct l as [|[a x] l]; [done|]. intros Hh _. pose proof (holds_head _ _ _ _ _ _ _ Hh) as ->. split.
  - exists x. split; [|done]. eapply holds_get; [done|]. set_solver.
  - by apply (holds_set_head _ _ _ _ _ _ (set_io_pktlen v) Hh).
Qed.

(** The buffer before the last one and the last one. *)
Fixpoint ends (penultimate last : ptr) l : ptr * ptr :=
  match l with [] => (penultimate, last) | (a, _) :: l => ends last (Some a) l end.

Lemma trimtail_last_ok fuel s P O p l u v :
  pool s P O → chain O p l → (length l < fuel)%nat → trimtail_last fuel u v p s = Some (ends u v l, s).
Proof.
  intros Hp. revert p l u v. induction fuel as [|fuel IH]; intros p l u v Hc Hf; [lia|].
  destruct l as [|[a x] l]; simpl.
  - by rewrite Hc.
  - destruct Hc as (-> & Hx & Hc). simpl. run (pool_get _ _ _ _ _ Hp Hx). apply IH; [done|simpl in Hf; lia].
Qed.

Lemma ends_snoc u v l a x :
  ends u v (l ++ [(a, x)]) = (match last l with None => v | Some (b, _) => Some b end, Some a).
Proof. revert u v. induction l as [|[c z] l IH]; intros u v; [done|]. simpl ends. rewrite IH, last_cons.
by destruct (last l) as [[]|]. Qed.

Lemma holds_ends s P R p l fuel :
  holds s P R p l → (length l < fuel)%nat → trimtail_last fuel NULL NULL p s = Some (ends NULL NULL l, s).
Proof. intros (O & Hp & Hc & _) Hf. by eapply trimtail_last_ok. Qed.

(** The last of several buffers is removed. *)
Lemma drop_last s P R p l b y a x :
  let l0 := (l ++ [(b, y)]) ++ [(a, x)] in
  let v := u16 (hd_pktlen l0 - io_len x) in
  holds s P R p l0 → packet_ok l0 →
  ∃ s1 s2 s3 s4 l', iob_set (set_io_pktlen v) p s = Some (tt, s1) ∧
    iob_set (set_io_len 0) (Some a) s1 = Some (tt, s2) ∧ iob_free (Some a) s2 = Some (NULL, s3) ∧
    iob_set (set_io_flink NULL) (Some b) s3 = Some (tt, s4) ∧
    holds s4 (give a P) R p l' ∧ packet_ok l' ∧ bytes l' = bytes (l ++ [(b, y)]) ∧
    length l' = length (l ++ [(b, y)]).
Proof using Type Hbuf.
  intros l0 v Hh (Hne & Hok & Hpk & Hlt)%packet_ok_alt.
  destruct (holds_set_pktlen _ _ _ _ _ v Hh Hne) as (_ & s1 & Hr1 & Hh1).
  unfold l0 in Hh1. rewrite repkt_app in Hh1 by (by destruct l).
  destruct (repkt_snoc v l b y) as (l' & y' & Heq & Hsl & Hsy & Hv & _). rewrite Heq in Hh1.
  destruct (holds_set _ _ _ _ _ _ _ _ (set_io_len 0) Hh1) as (s2 & Hr2 & Hh2); [done..|].
  rewrite <- (assoc_L (++)) in Hh2.
  destruct (holds_free_next _ _ _ _ _ _ _ _ _ _ Hh2) as (s3 & s4 & Hr3 & Hr4 & Hh4); [by left|].
  assert (io_flink x = NULL) as Hnull.
  { destruct Hh as (O & _ & Hc & _). by apply chain_app in Hc as (q & _ & _ & _ & Hc). }
  simpl in Hr3, Hr4, Hh4. rewrite Hnull in Hr3, Hr4, Hh4. exists s1, s2, s3, s4, (l' ++ [(b, set_io_flink NULL y')]).
  assert (same_bufs (l ++ [(b, y)]) (l' ++ [(b, set_io_flink NULL y')])) as Hs.
  { apply same_bufs_app; [done|]. by constructor. }
  split_and!; [done..| |symmetry; by apply same_bufs_bytes|].
  - apply bufs_ok_used in Hok as Hu; [|by destruct l]. destruct Hu as [_ Hbx].
    unfold l0 at 2 in Hpk. rewrite packet_bytes_app, length_app, bytes_one in Hpk. pose proof (payload_length _ Hbx).
    assert (v = Z.of_nat (length (bytes (l ++ [(b, y)])))) as Hveq.
    { unfold v. rewrite u16_small by (pose proof (bo_len _ Hbx); lia). lia. }
    apply packet_ok_alt. rewrite <- (same_bufs_bytes _ _ Hs), <- Hveq.
    replace (hd_pktlen (l' ++ [(b, set_io_flink NULL y')])) with v by (rewrite <- Hv; by destruct l' as [|[]]).
    pose proof (bo_len _ Hbx). split_and!; [by destruct l'| |done|lia].
    eapply same_bufs_ok; [done|]. by eapply bufs_ok_prefix.
  - rewrite <- (length_fmap snd (_ ++ _)), <- (length_fmap snd (l ++ _)). symmetry. by eapply Forall2_length.
Qed.

(** A part of the last buffer is removed. *)
Lemma cut_last s P R p l a x n :
  holds s P R p (l ++ [(a, x)]) → packet_ok (l ++ [(a, x)]) → 0 < n < io_len x →
  let v := u16 (hd_pktlen (l ++ [(a, x)]) - n) in
  ∃ s1 s2 l', iob_set (set_io_pktlen v) p s = Some (tt, s1) ∧
    iob_set (set_io_len (wlen (io_len x - n))) (Some a) s1 = Some (tt, s2) ∧
    holds s2 P R p l' ∧ packet_ok l' ∧
    bytes l' = take (length (bytes (l ++ [(a, x)])) - Z.to_nat n) (bytes (l ++ [(a, x)])).
Proof using Type Hbuf.
  intros Hh (Hne & Hok & Hpk & Hlt)%packet_ok_alt Hn v.
  destruct (holds_set_pktlen _ _ _ _ _ v Hh Hne) as (_ & s1 & Hr1 & Hh1).
  destruct (repkt_snoc v l a x) as (l' & x' & Heq & Hsl & Hsx & Hv & _). rewrite Heq in Hh1.
  destruct (holds_set _ _ _ _ _ _ _ _ (set_io_len (wlen (io_len x - n))) Hh1) as (s2 & Hr2 & Hh2); [done..|].
  pose proof (bufs_ok_last _ _ _ Hok) as Hbx.
  pose proof (payload_length _ Hbx) as Hpay. pose proof (same_buf_ok _ _ Hsx Hbx) as Hbx'.
  pose proof Hsx as (Hlx & _).
  rewrite wlen_small in Hh2 by (destruct Hbx; lia).
  assert (bytes (l' ++ [(a, set_io_len (io_len x - n) x')]) =
    take (length (bytes (l ++ [(a, x)])) - Z.to_nat n) (bytes (l ++ [(a, x)]))) as Hbs.
  { rewrite !packet_bytes_app, !bytes_one, length_app, take_app_ge by lia. rewrite <- (same_bufs_bytes _ _ Hsl).
    rewrite payload_trim_tail by lia. rewrite <- (same_buf_payload _ _ Hsx). do 2 f_equal. lia. }
  eexists s1, s2, _. split_and!; [done|done|done| |done]. destruct Hbx'.
  apply packet_ok_alt. rewrite Hbs, length_take.
  replace (hd_pktlen (l' ++ [(a, set_io_len (io_len x - n) x')])) with v by (rewrite <- Hv; by destruct l' as [|[]]).
  rewrite packet_bytes_app, length_app, bytes_one in *. unfold v. rewrite u16_small by lia.
  split_and!; [by destruct l'| |lia|lia].
  apply (bufs_ok_change_last _ _ x'); [|split; simpl; lia|unfold used; simpl; lia].
  eapply same_bufs_ok; [|done]. apply same_bufs_app; [done|]. by constructor.
Qed.

Lemma trimtail_loop_ok fuel s P R p l n :
  holds s P R p l → packet_ok l → 0 ≤ n → (length l + 1 < fuel)%nat →
  ∃ s' P' q l', trimtail_loop fuel p n s = Some (q, s') ∧ holds s' P' R q l' ∧
    bytes l' = take (length (bytes l) - Z.to_nat n) (bytes l) ∧ (l' = [] ∨ packet_ok l' ∧ q = p) ∧
    (l' = [] ↔ 0 < n ∧ Z.of_nat (length (bytes l)) ≤ n).
Proof using Type Hbuf.
  revert s P p l n. induction fuel as [|fuel IH]; intros s P p l n Hh Hl Hn Hf; [lia|]. cbn [trimtail_loop].
  pose proof Hl as (Hne & Hok & Hpk & Hlt)%packet_ok_alt.
  destruct (Z.ltb_spec 0 n).
  2:{ exists s, P, p, l. rewrite take_ge by lia. split_and!; [done..|by right|]. split; [done|lia]. }
  destruct (holds_count _ _ _ _ _ Hh) as [Hc Hlen]. run Hc. run (holds_ends _ _ _ _ _ (S (size (iobs s))) Hh
    ltac:(lia)).
  destruct (exists_last Hne) as (l1 & [a x] & ->).
  pose proof (payload_length _ (bufs_ok_last _ _ _ Hok)) as Hpay. pose proof (bo_len _ (bufs_ok_last _ _ _ Hok)).
  pose proof (bo_len _ (bufs_ok_last _ _ _ Hok)) as Hx0. destruct (holds_set_pktlen _ _ _ _ _ 0 Hh Hne) as ((h
    & Hget & Hhd) & _).
  rewrite ends_snoc. run (holds_get _ _ _ _ _ a x Hh ltac:(set_solver)).
  destruct (Z.leb_spec (io_len x) n) as [Hle|Hgt]; run Hget; rewrite Hhd.
  - destruct (decide (l1 = [])) as [->|Hne1]; [|destruct (exists_last Hne1) as (l2 & [b y] & ->)].
    + destruct (holds_set_pktlen _ _ _ _ _ (u16 (hd_pktlen [(a, x)] - io_len x)) Hh Hne) as (_ & s1 & Hr1 & Hh1).
      pose proof (holds_head _ _ _ _ _ _ _ Hh) as ->. run Hr1.
      destruct (holds_set_head _ _ _ _ _ _ (set_io_len 0) Hh1) as (s2 & Hr2 & Hh2); [done..|]. run Hr2.
      destruct (holds_free_only _ _ _ _ _ _ Hh2) as (s3 & Hr3 & Hh3). run Hr3.
      exists s3, (give a P), NULL, []. simpl app. rewrite bytes_one.
      replace (length (payload x) - Z.to_nat n)%nat with O by lia. split_and!; [done..|by left|split; [lia|done]].
    + destruct (drop_last _ _ _ _ _ _ _ _ _ Hh Hl) as (s1 & s2 & s3 & s4 & l' & Hr1 & Hr2 & Hr3 & Hr4 & Hh' &
        Hl' & Hb & Hlen').
      run Hr1. run Hr2. run Hr3. rewrite last_snoc. simpl. run Hr4.
      destruct (IH s4 _ _ _ (n - io_len x) Hh' Hl') as (s' & P' & q & l'' & Hr & Hh'' & Hb'' & Hok'' & Hnil);
        [lia| |].
      { rewrite Hlen'. rewrite length_app in Hf. simpl in Hf. lia. }
      apply bufs_ok_used in Hok as Hu; [|done]. destruct Hu as [Hu _]. rewrite fmap_app, Forall_app in Hu.
      pose proof (bytes_pos (l2 ++ [(b, y)]) (proj1 (bufs_ok_prefix _ _ Hok)) (proj1 Hu) Hne1) as Hpos.
      exists s', P', q, l''. rewrite Hb in Hb'', Hnil. rewrite (packet_bytes_app (_ ++ _)), bytes_one, length_app.
      split_and!; [done|done| |done|].
      * rewrite Hb'', take_app_le by lia. f_equal. lia.
      * rewrite Hnil. lia.
  - destruct (cut_last _ _ _ _ _ _ _ n Hh Hl) as (s1 & s2 & l' & Hr1 & Hr2 & Hh' & Hl' & Hb); [lia|].
    run Hr1. run Hr2. destruct fuel as [|fuel]; [rewrite length_app in Hf; simpl in Hf; lia|].
    exists s2, P, p, l'. split_and!; [done|done|done|by right|].
    rewrite packet_bytes_app, length_app, bytes_one. split; [|lia]. intros ->. by apply packet_ok_alt in Hl' as [? _].
Qed.

Lemma iob_trimtail_ok s P R p l n :
  holds s P R p l → packet_ok l → 0 ≤ n ≤ INT32_MAX →
  ∃ s' P' q l', iob_trimtail p n s = Some (q, s') ∧ holds s' P' R q l' ∧
    bytes l' = take (length (bytes l) - Z.to_nat n) (bytes l) ∧ (l' = [] ∨ packet_ok l' ∧ q = p) ∧
    (l' = [] ↔ 0 < n ∧ Z.of_nat (length (bytes l)) ≤ n).
Proof using Type Hbuf.
  intros Hh Hl Hn. unfold iob_trimtail. rewrite (holds_null _ _ _ _ _ Hh).
  pose proof Hl as (Hne & _)%packet_ok_alt. rewrite bool_decide_eq_false_2 by done. simpl.
  destruct (Z.ltb_spec 0 n).
  - destruct (holds_count _ _ _ _ _ Hh) as [Hc Hlen]. run Hc. rewrite s32_small by lia.
    apply (trimtail_loop_ok _ _ _ _ _ _ _ Hh Hl); lia.
  - exists s, P, p, l. rewrite take_ge by lia. split_and!; [done..|by right|]. split; [done|lia].
Qed.

(** ** [iob_copyout] *)

Lemma payload_read x off n :
  buf_ok x → 0 ≤ off → 0 ≤ n → off + n ≤ io_len x →
  read_data x (io_offset x + off) n = Some (take (Z.to_nat n) (drop (Z.to_nat off) (payload x))).
Proof.
  intros [] Ho Hn Hle. unfold read_data.
  rewrite (proj2 (Z.leb_le 0 (io_offset x + off))), (proj2 (Z.leb_le 0 n)),
    (proj2 (Z.leb_le (io_offset x + off + n) _)) by lia. simpl. f_equal. unfold payload.
  rewrite skipn_firstn_comm, drop_drop, take_take. f_equal; [lia|]. f_equal. lia.
Qed.

Lemma read_run s P O a x pos n d :
  pool s P O → O !! a = Some x → read_data x pos n = Some d → iob_read (Some a) pos n s = Some (d, s).
Proof. intros Hp Hx Hd. unfold iob_read. run (pool_get _ _ _ _ _ Hp Hx). unfold klift. by rewrite Hd. Qed.

Lemma copyout_skip_ok fuel s P O p l off :
  pool s P O → chain O p l → Forall buf_ok l.*2 → l ≠ [] → 0 ≤ off → (length l ≤ fuel)%nat →
  ∃ q off' l', copyout_skip fuel p off s = Some ((q, off'), s) ∧ chain O q l' ∧ Forall buf_ok l'.*2 ∧
    drop (Z.to_nat off') (bytes l') = drop (Z.to_nat off) (bytes l) ∧ (length l' ≤ length l)%nat ∧
    match l' with [] => True | (_, x) :: _ => 0 ≤ off' < io_len x end.
Proof.
  intros Hp. revert p l off. induction fuel as [|fuel IH]; intros p l off Hc Hb Hne Ho Hf; [by destruct l;
    simpl in Hf; [|lia]|].
  destruct l as [|[a x] l]; [done|]. destruct Hc as (-> & Hx & Hc). pose proof Hb as [Hbx Hbl]%Forall_cons.
  simpl in Hbx.
  pose proof (payload_length _ Hbx) as Hpay. pose proof (bo_len _ Hbx) as Hlen.
  cbn [copyout_skip]. run (pool_get _ _ _ _ _ Hp Hx). destruct (Z.leb_spec (io_len x) off).
  - destruct l as [|[b y] l]; [rewrite Hc; simpl|].
    + exists NULL, 0, []. split_and!; [done|done|done| |simpl; lia|done]. rewrite bytes_one. symmetry.
      apply drop_ge. lia.
    + destruct Hc as (Hfl & Hc). rewrite Hfl. simpl is_null. cbv iota.
      destruct (IH (Some b) ((b, y) :: l) (off - io_len x)) as (q & off' & l' & Hr & Hc' & Hb' & Hd & Hle & Hoff);
        [done|done|done|lia|simpl in *; lia|].
      exists q, off', l'. split_and!; [done|done|done| |simpl in *; lia|done].
      rewrite Hd, (bytes_cons a), drop_app_ge by lia. f_equal. lia.
  - exists (Some a), off, ((a, x) :: l). by split_and!.
Qed.

Lemma copyout_loop_ok fuel s P O p l off rem dest :
  pool s P O → chain O p l → Forall buf_ok l.*2 → 0 ≤ rem → (length l < fuel)%nat →
  match l with [] => True | (_, x) :: _ => 0 ≤ off ≤ io_len x end →
  copyout_loop fuel p off rem dest s = Some (dest ++ take (Z.to_nat rem) (drop (Z.to_nat off) (bytes l)), s).
Proof.
  intros Hp. revert p l off rem dest. induction fuel as [|fuel IH]; intros p l off rem dest Hc Hb Hr Hf Ho; [lia|].
  cbn [copyout_loop]. destruct l as [|[a x] l].
  { rewrite Hc. simpl. by rewrite bytes_nil, drop_nil, take_nil, app_nil_r. }
  destruct Hc as (-> & Hx & Hc). destruct (Z.ltb_spec 0 rem); simpl.
  2:{ replace rem with 0 by lia. by rewrite take_0, app_nil_r. }
  run (pool_get _ _ _ _ _ Hp Hx). pose proof Hb as [Hbx Hbl]%Forall_cons. simpl in Hbx.
  pose proof (payload_length _ Hbx) as Hpay. set (n := Z.min (io_len x - off) rem).
  run (read_run _ _ _ _ _ _ _ _ Hp Hx (payload_read x off n Hbx ltac:(lia) ltac:(lia) ltac:(lia))).
  rewrite (IH _ l); [|done|done|lia|simpl in Hf; lia|].
  2:{ destruct l as [|[b y] l]; [done|]. apply Forall_cons in Hbl as [Hby _]. pose proof (bo_len _ Hby).
  simpl in *; lia. }
  do 2 f_equal. rewrite <- (assoc_L (++)). f_equal. rewrite bytes_cons, drop_app_le by lia.
  rewrite drop_0. unfold n. destruct (Z.min_spec (io_len x - off) rem) as [[? ->]|[? ->]].
  - rewrite take_app_ge by (rewrite length_drop; lia). rewrite length_drop. f_equal; [|f_equal; lia].
    apply take_ge. rewrite length_drop. lia.
  - rewrite Z.sub_diag, take_0, app_nil_r. symmetry. apply take_app_le. rewrite length_drop. lia.
Qed.

Lemma iob_copyout_ok s P R p l len off :
  holds s P R p l → packet_ok l → 0 ≤ len → 0 ≤ off →
  iob_copyout p len off s = Some (take (Z.to_nat len) (drop (Z.to_nat off) (bytes l)), s).
Proof. clear Hbuf.
  intros Hh (Hne & (Hb & _) & _)%packet_ok_alt Hl Ho. destruct (holds_count _ _ _ _ _ Hh) as [Hc Hlen].
  destruct Hh as (O & Hp & Hch & _). unfold iob_copyout. run Hc.
  destruct (copyout_skip_ok (S (size (iobs s))) s P O p l off) as (q & off' & l' & Hr & Hc' & Hb' & Hd & Hle & Hoff);
    [done..|lia|]. run Hr. rewrite <- Hd. destruct l' as [|[a x] l'].
  - rewrite Hc'. simpl. by rewrite bytes_nil, drop_nil, take_nil.
  - assert (is_null q = false) as -> by (by destruct Hc' as (-> & _)).
    rewrite (copyout_loop_ok _ s P O q ((a, x) :: l')); [done..|lia|lia].
Qed.
End ops.
