(* ===== verification/IobCopyin.v ===== *)
(** * IobCopyin: data that is copied into a packet

    [iob_copyin_internal] overwrites the data at an offset of a packet and extends the
    packet, with new buffers when those it has are full.  Each turn of its loop is a
    [splice] of the bytes of the packet. *)

From S2P Require Import Prelude IobChain Iob IobSpec IobOps.
Local Open Scope Z_scope.
Set Default Proof Using "Type".

(** [d] replaces what is at position [i] of [B]. *)
Definition splice (B : list Z) (i : nat) (d : list Z) : list Z := take i B ++ d ++ drop (i + length d) B.

Section splice.
Implicit Types (B d : list Z) (i : nat).

Lemma splice_length B i d : (i ≤ length B)%nat → length (splice B i d) = Nat.max (length B) (i + length d).
Proof. intros Hi. unfold splice. rewrite !length_app, length_take, length_drop. lia. Qed.

Lemma splice_nil B i : splice B i [] = B.
Proof. unfold splice. simpl. by rewrite Nat.add_0_r, take_drop. Qed.

Lemma splice_splice B i d1 d2 :
  (i ≤ length B)%nat → splice (splice B i d1) (i + length d1) d2 = splice B i (d1 ++ d2).
Proof.
  intros Hi. unfold splice at 1. unfold splice at 1 2.
  rewrite take_app_ge, drop_app_ge by (rewrite length_take; lia). rewrite length_take.
  replace (i + length d1 - i `min` length B)%nat with (length d1) by lia.
  rewrite take_app_length, drop_app_ge by lia. unfold splice.
  rewrite drop_drop, <- !(assoc_L (++)), length_app. do 4 f_equal. lia.
Qed.

Lemma splice_app B1 B2 B i d :
  (i ≤ length B)%nat → (i + length d ≤ length B)%nat ∨ B2 = [] →
  splice (B1 ++ B ++ B2) (length B1 + i) d = B1 ++ splice B i d ++ B2.
Proof.
  intros Hi Hd. unfold splice. rewrite take_app_add, <- !(assoc_L (++)), take_app_le by done.
  do 3 f_equal. rewrite <- Nat.add_assoc, drop_app_add. destruct Hd as [Hd| ->].
  - by rewrite drop_app_le by lia.
  - by rewrite !app_nil_r.
Qed.

(** What was copied can be read back. *)
Lemma splice_read B i d : (i ≤ length B)%nat → take (length d) (drop i (splice B i d)) = d.
Proof.
  intros Hi. unfold splice. rewrite drop_app_ge by (rewrite length_take; lia). rewrite length_take.
  replace (i - i `min` length B)%nat with O by lia. apply take_app_length.
Qed.
End splice.

Section copyin.
Context `{Config, IobConfig}.
Context (Hbuf : 0 < CONFIG_IOB_BUFSIZE < 65536).
Implicit Types (s : iob_st) (P : lists) (R : mem iob_s) (l : list (addr * iob_s)).

(** ** Data is written to a buffer *)

Definition put_data (x : iob_s) (pos : Z) (d : list Z) : iob_s :=
  set_io_data (take (Z.to_nat pos) (io_data x) ++ d ++ drop (Z.to_nat pos + length d) (io_data x)) x.

Lemma put_data_length x pos d :
  0 ≤ pos → pos + Z.of_nat (length d) ≤ Z.of_nat (length (io_data x)) →
  length (io_data (put_data x pos d)) = length (io_data x).
Proof. intros Hp Hd. simpl. rewrite !length_app, length_take, length_drop. lia. Qed.

Lemma holds_write s P R p l1 a x l2 pos d :
  holds s P R p (l1 ++ (a, x) :: l2) → 0 ≤ pos → pos + Z.of_nat (length d) ≤ Z.of_nat (length (io_data x)) →
  ∃ s', iob_write (Some a) pos d s = Some (tt, s') ∧ holds s' P R p (l1 ++ (a, put_data x pos d) :: l2).
Proof. clear Hbuf.
  intros Hh Hp Hd. unfold iob_write. run (holds_get _ _ _ _ _ a x Hh ltac:(set_solver)).
  unfold write_data. rewrite (proj2 (Z.leb_le 0 pos)), (proj2 (Z.leb_le (pos + _) _)) by done.
  erewrite K_bind_Some by done. apply (holds_set _ _ _ _ _ _ _ _ (λ _, put_data x pos d) Hh); [done|].
  by apply put_data_length.
Qed.

(** The buffer [x] with [d] at [off] of its data, and longer if need be. *)
Definition filled (x : iob_s) (off : Z) (d : list Z) : iob_s :=
  set_io_len (Z.max (io_len x) (off + Z.of_nat (length d))) (put_data x (io_offset x + off) d).

Lemma filled_ok x off d :
  buf_ok x → 0 ≤ off ≤ io_len x → io_offset x + off + Z.of_nat (length d) ≤ CONFIG_IOB_BUFSIZE →
  buf_ok (filled x off d).
Proof. clear Hbuf.
  intros [] Ho Hd. split; simpl; [lia..|]. rewrite !length_app, length_take, length_drop. lia.
Qed.

Lemma filled_payload x off d :
  buf_ok x → 0 ≤ off ≤ io_len x → io_offset x + off + Z.of_nat (length d) ≤ CONFIG_IOB_BUFSIZE →
  payload (filled x off d) = splice (payload x) (Z.to_nat off) d.
Proof. clear Hbuf.
  intros Hx Ho Hd. pose proof (payload_length _ Hx). destruct Hx.
  unfold payload, splice. cbn [filled put_data io_len io_offset io_data set_io_len set_io_data].
  rewrite drop_app_le by (rewrite length_take; lia).
  rewrite skipn_firstn_comm, take_app_ge by (rewrite length_take, length_drop; lia).
  rewrite take_app_ge by (rewrite length_take, length_drop; lia). rewrite take_take. f_equal.
  { f_equal. lia. }
  f_equal. rewrite skipn_firstn_comm, !drop_drop, length_take, length_drop. f_equal; [lia|]. f_equal. lia.
Qed.

(** ** One turn of the loop *)

Lemma holds_link_mid s P R p l1 a x l2 :
  holds s P R p (l1 ++ (a, x) :: l2) → is_null (io_flink x) = bool_decide (l2 = []).
Proof.
  intros (O & _ & Hc & _). apply chain_app in Hc as (q & _ & _ & _ & Hc).
  destruct l2 as [|[b y] l2]; [by rewrite Hc|]. by destruct Hc as (-> & _).
Qed.

(** How many bytes one turn copies. *)
Definition turn (x : iob_s) l2 (len off : Z) : Z :=
  Z.min len ((if decide (l2 = []) then CONFIG_IOB_BUFSIZE - io_offset x else io_len x) - off).

Definition lengths_ok l : Prop := hd_pktlen l = Z.of_nat (length (bytes l)) ∧ hd_pktlen l < 65536.

Lemma hd_pktlen_snoc l a x y :
  io_pktlen x = io_pktlen y → hd_pktlen (l ++ [(a, x)]) = hd_pktlen (l ++ [(a, y)]).
Proof. by destruct l as [|[]]. Qed.

Lemma hd_pktlen_mid l a x y l2 :
  io_pktlen x = io_pktlen y → hd_pktlen (l ++ (a, x) :: l2) = hd_pktlen (l ++ (a, y) :: l2).
Proof. by destruct l as [|[]]. Qed.

Lemma bytes_filled l1 a x l2 off d :
  buf_ok x → 0 ≤ off ≤ io_len x → io_offset x + off + Z.of_nat (length d) ≤ CONFIG_IOB_BUFSIZE →
  l2 = [] ∨ off + Z.of_nat (length d) ≤ io_len x →
  bytes (l1 ++ (a, filled x off d) :: l2) = splice (bytes (l1 ++ (a, x) :: l2)) (length (bytes l1) + Z.to_nat off) d.
Proof. clear Hbuf.
  intros Hx Ho Hd Hl2. rewrite !packet_bytes_app, !bytes_cons, filled_payload by done.
  pose proof (payload_length _ Hx). symmetry. apply splice_app; [lia|].
  destruct Hl2 as [->|]; [by right|left; lia].
Qed.

(** The data fits into what the buffer has. *)
Lemma turn_inside s P R p l1 a x l2 src off :
  holds s P R p (l1 ++ (a, x) :: l2) → buf_ok x → 0 ≤ off ≤ io_len x →
  l2 ≠ [] ∨ Z.of_nat (length src) ≤ io_len x - off →
  let n := Z.to_nat (turn x l2 (Z.of_nat (length src)) off) in
  lengths_ok (l1 ++ (a, x) :: l2) →
  ∃ s', (n ← copyin_ncopy p (Some a) x (Z.of_nat (length src)) off;
         iob_write (Some a) (io_offset x + off) (take (Z.to_nat n) src);; mret n) s = Some (Z.of_nat n, s') ∧
    holds s' P R p (l1 ++ (a, filled x off (take n src)) :: l2) ∧
    lengths_ok (l1 ++ (a, filled x off (take n src)) :: l2).
Proof. clear Hbuf.
  intros Hh Hx Ho Hl2 n Hlen. pose proof Hx as []. unfold copyin_ncopy.
  assert (Z.of_nat n = Z.min (Z.of_nat (length src)) (io_len x - off)) as Hn.
  { unfold n, turn. case_decide; destruct Hl2; try done; lia. }
  assert (off + Z.of_nat (length (take n src)) ≤ io_len x) as Hle by (rewrite length_take; lia).
  erewrite (K_bind_Some _ _ s (Z.of_nat n) s).
  2:{ destruct (Z.ltb_spec (io_len x - off) (Z.of_nat (length src))); [|unfold mret, K_ret; do 2 f_equal; lia].
      destruct Hl2 as [Hl2|]; [|lia]. assert (is_null (io_flink x) = false) as ->.
      { destruct Hh as (O & _ & Hc & _). apply chain_app in Hc as (q & _ & _ & _ & Hc).
        destruct l2 as [|[]]; [done|]. by destruct Hc as (-> & _). }
      simpl. unfold mret, K_ret. do 2 f_equal. lia. }
  rewrite Nat2Z.id.
  destruct (holds_write _ _ _ _ _ _ _ _ (io_offset x + off) (take n src) Hh) as (s' & Hr & Hh'); [lia|lia|].
  run Hr. exists s'.
  assert (put_data x (io_offset x + off) (take n src) = filled x off (take n src)) as Heq.
  { unfold filled. rewrite Z.max_l by done. by destruct x. }
  rewrite Heq in Hh'.
  split; [done|]. split; [done|]. unfold lengths_ok.
  rewrite bytes_filled, splice_length by (done || lia || (rewrite packet_bytes_app, bytes_cons, !length_app;
    pose proof (payload_length _ Hx); lia)).
  rewrite (hd_pktlen_mid _ _ _ x) by done. destruct Hlen as [Hl ?]. split; [|done].
  rewrite packet_bytes_app, bytes_cons, !length_app in *. pose proof (payload_length _ Hx). lia.
Qed.

(** The last buffer is extended. *)
Lemma turn_extend s P R p l1 a x src off :
  holds s P R p (l1 ++ [(a, x)]) → buf_ok x → 0 ≤ off ≤ io_len x → io_len x - off < Z.of_nat (length src) →
  Z.of_nat (length (bytes l1)) + off + Z.of_nat (length src) < 65536 →
  let n := Z.to_nat (turn x [] (Z.of_nat (length src)) off) in
  lengths_ok (l1 ++ [(a, x)]) →
  ∃ s' l1' x', (n ← copyin_ncopy p (Some a) x (Z.of_nat (length src)) off;
         iob_write (Some a) (io_offset x + off) (take (Z.to_nat n) src);; mret n) s = Some (Z.of_nat n, s') ∧
    same_bufs l1 l1' ∧ same_buf x x' ∧ holds s' P R p (l1' ++ [(a, filled x' off (take n src))]) ∧
    lengths_ok (l1' ++ [(a, filled x' off (take n src))]).
Proof using Type Hbuf.
  intros Hh Hx Ho Hav Hlt n [Hpk Hpl]. pose proof Hx as []. pose proof (payload_length _ Hx) as Hpay.
  unfold copyin_ncopy.
  assert (Z.of_nat n = Z.min (Z.of_nat (length src)) (CONFIG_IOB_BUFSIZE - io_offset x - off)) as Hn.
  { unfold n, turn. rewrite decide_True by done. lia. }
  assert (is_null (io_flink x) = true) as Hnull.
  { destruct Hh as (O & _ & Hc & _). by apply chain_app in Hc as (q & _ & _ & _ & ->). }
  rewrite (proj2 (Z.ltb_lt _ _) Hav), Hnull. cbv zeta. cbn [negb].
  replace (if CONFIG_IOB_BUFSIZE - io_offset x <? Z.of_nat (length src) + off then CONFIG_IOB_BUFSIZE - io_offset x
    else Z.of_nat (length src) + off) with (off + Z.of_nat n) by (z_cases; lia).
  set (v := u16 (hd_pktlen (l1 ++ [(a, x)]) + (off + Z.of_nat n - io_len x))).
  destruct (holds_set_pktlen _ _ _ _ _ v Hh) as ((h & Hget & Hhd) & s1 & Hr1 & Hh1); [by destruct l1|].
  destruct (repkt_snoc v l1 a x) as (l1' & x' & Heq & Hsl & Hsx & Hv & _). rewrite Heq in Hh1.
  destruct (holds_set _ _ _ _ _ _ _ _ (set_io_len (wlen (off + Z.of_nat n))) Hh1) as (s2 & Hr2 & Hh2); [done..|].
  rewrite (wlen_small Hbuf) in Hh2 by lia. pose proof Hsx as (Hlx & Hox & Hdx).
  assert (length (take n src) = n) as Hln by (rewrite length_take; lia).
  destruct (holds_write _ _ _ _ _ _ _ _ (io_offset x + off) (take n src) Hh2) as (s' & Hr & Hh');
    [lia|simpl; rewrite <- Hdx; lia|].
  exists s', l1', x'. split; [|split; [done|]; split; [done|]].
  { rewrite (K_bind_Some _ _ s (Z.of_nat n) s2).
    - rewrite Nat2Z.id. by run Hr.
    - run Hget. rewrite Hhd. fold v. run Hr1. run Hr2. unfold mret, K_ret. do 2 f_equal. lia. }
  assert (put_data (set_io_len (off + Z.of_nat n) x') (io_offset x + off) (take n src) = filled x' off (take n
    src)) as Hf.
  { unfold filled. rewrite Hln, Z.max_r, Hox by lia. by destruct x'. }
  rewrite Hf in Hh'. split; [done|]. unfold lengths_ok. rewrite (hd_pktlen_snoc _ _ _ x'), Hv by done.
  assert (Z.of_nat (length (bytes (l1' ++ [(a, filled x' off (take n src))]))) =
    Z.of_nat (length (bytes l1)) + off + Z.of_nat n) as ->.
  { rewrite packet_bytes_app, bytes_one, length_app, <- (same_bufs_bytes _ _ Hsl).
    rewrite Nat2Z.inj_add, payload_length by (apply filled_ok; [by eapply same_buf_ok|lia..]). simpl. lia. }
  rewrite packet_bytes_app, bytes_one, length_app in Hpk. unfold v. rewrite u16_small; lia.
Qed.

(** ** The loop *)

Lemma turn_ok s P R p l1 a x l2 src off :
  holds s P R p (l1 ++ (a, x) :: l2) → buf_ok x → 0 ≤ off ≤ io_len x →
  Z.of_nat (length (bytes l1)) + off + Z.of_nat (length src) < 65536 →
  let n := Z.to_nat (turn x l2 (Z.of_nat (length src)) off) in
  lengths_ok (l1 ++ (a, x) :: l2) →
  ∃ s' l1' x', (n ← copyin_ncopy p (Some a) x (Z.of_nat (length src)) off;
         iob_write (Some a) (io_offset x + off) (take (Z.to_nat n) src);; mret n) s = Some (Z.of_nat n, s') ∧
    same_bufs l1 l1' ∧ same_buf x x' ∧ holds s' P R p (l1' ++ (a, filled x' off (take n src)) :: l2) ∧
    lengths_ok (l1' ++ (a, filled x' off (take n src)) :: l2).
Proof using Type Hbuf.
  intros Hh Hx Ho Hlt n Hlen.
  assert (Decision (l2 = [])) as Hdec by (destruct l2; [by left|by right]).
  destruct (decide (l2 ≠ [] ∨ Z.of_nat (length src) ≤ io_len x - off)) as [Hin|Hin].
  - destruct (turn_inside _ _ _ _ _ _ _ _ _ _ Hh Hx Ho Hin Hlen) as (s' & Hr & Hh' & Hl').
    exists s', l1, x. by split_and!.
  - assert (l2 = []) as -> by (destruct Hdec; [done|tauto]). apply turn_extend; [done..| |done|done]. lia.
Qed.

Context `{IobEnv}.

(** The allocation of the loop does not wait. *)
Lemma alloc_try wfuel s thr q :
  up_interrupt_context || sched_idletask = true ∨ q ≠ NULL → ∀ s', iob_tryalloc thr s = Some (q, s') →
  iob_alloc wfuel thr s = iob_tryalloc thr s.
Proof.
  intros Hq s' Hr. unfold iob_alloc. destruct (up_interrupt_context || sched_idletask); [done|].
  destruct Hq as [|Hq]; [done|]. unfold iob_allocwait. run Hr. rewrite Hr. by destruct q.
Qed.

Definition no_wait P (x : iob_s) l2 (len total off : Z) (throttled can_block : bool) : Prop :=
  can_block = false ∨ up_interrupt_context || sched_idletask = true ∨ len < total ∨
  (l2 = [] → 0 < CONFIG_IOB_BUFSIZE - io_offset x - off) ∨ throttled = false ∧ free_bufs P ≠ [].

Definition room (x : iob_s) l2 (off : Z) : Z :=
  if decide (l2 = []) then CONFIG_IOB_BUFSIZE - io_offset x - off else 0.

(** What a copy of [src] at position [i] of the packet [l] ends with; [r] bytes are left. *)
Definition copied (s : iob_st) P R p l (src : list Z) (i : nat) (thr : bool) (spare r : Z) (s' : iob_st) : Prop :=
  ∃ P' l', holds s' P' R p l' ∧ packet_ok l' ∧ 0 ≤ r ≤ Z.of_nat (length src) ∧
    bytes l' = splice (bytes l) i (take (length src - Z.to_nat r) src) ∧
    (0 < r → refused s' P' thr ∧
      spare + CONFIG_IOB_BUFSIZE * (Z.of_nat (length (free_bufs P)) - Z.of_nat (length (free_bufs P'))) + r ≤
        Z.of_nat (length src)).

Lemma packet_intro l :
  l ≠ [] → Forall buf_ok l.*2 → Forall used l.*2 ∨ tail l = [] → lengths_ok l → packet_ok l.
Proof.
  intros Hne Hb Hu [Hl1 Hl2]. apply packet_ok_alt. split; [done|]. split; [|done]. split; [done|].
  split; [|by destruct Hu; [right|left]]. destruct l as [|z l]; [done|].
  destruct Hu as [Hu|Hu]; simpl in *; [by apply Forall_cons in Hu as [_ ?]|by rewrite Hu].
Qed.

(** One turn and what the rest of the loop does. *)
Lemma copied_step s P R p l src i thr spare r s' s1 P1 l1 spare1 (n : nat) :
  copied s1 P1 R p l1 (drop n src) (i + n) thr spare1 r s' →
  bytes l1 = splice (bytes l) i (take n src) → (n ≤ length src)%nat → (i ≤ length (bytes l))%nat →
  spare + CONFIG_IOB_BUFSIZE * (Z.of_nat (length (free_bufs P)) - Z.of_nat (length (free_bufs P1))) ≤
    Z.of_nat n + spare1 →
  copied s P R p l src i thr spare r s'.
Proof.
  intros (P' & l' & Hh & Hp & Hr & Hb & Hleft) Hl1 Hn Hi Hsp. rewrite length_drop in *.
  exists P', l'. split_and!; [done|done|lia|lia| |].
  - rewrite Hb, Hl1. replace (i + n)%nat with (i + length (take n src))%nat by (rewrite length_take; lia).
    rewrite splice_splice by done. rewrite take_take_drop. do 2 f_equal. lia.
  - intros H0r. destruct (Hleft H0r) as [? Hle]. split; [done|]. lia.
Qed.

(** The conditions under which the loop runs, at the buffer [x] between [l1] and [l2]. *)
Record copying l1 a x l2 (src : list Z) (off : Z) : Prop := {
  cp_ok1 : Forall buf_ok l1.*2;
  cp_ok : buf_ok x;
  cp_ok2 : Forall buf_ok l2.*2;
  cp_lengths : lengths_ok (l1 ++ (a, x) :: l2);
  cp_off : 0 ≤ off ≤ io_len x;
  cp_used1 : Forall used l1.*2;
  cp_used : used x ∨ l2 = [] ∧ (src ≠ [] ∨ l1 = []);
  cp_used2 : Forall used l2.*2;
  cp_max : Z.of_nat (length (bytes l1)) + off + Z.of_nat (length src) < 65536;
}.

Lemma copying_done l1 a x l2 off : copying l1 a x l2 [] off → packet_ok (l1 ++ (a, x) :: l2).
Proof.
  intros []. apply packet_intro; [by destruct l1| | |done].
  - rewrite fmap_app, Forall_app, fmap_cons, Forall_cons. auto.
  - rewrite fmap_app, Forall_app, fmap_cons, Forall_cons. destruct cp_used0 as [?|[-> [?| ->]]]; [by left;
      auto|done|by right].
Qed.

Lemma turn_bounds l1 a x l2 src off :
  copying l1 a x l2 src off → src ≠ [] →
  let n := turn x l2 (Z.of_nat (length src)) off in
  0 ≤ n ≤ Z.of_nat (length src) ∧ io_offset x + off + n ≤ CONFIG_IOB_BUFSIZE ∧ (l2 = [] ∨ off + n ≤ io_len x) ∧
  (0 < io_len x ∨ 0 < n) ∧
  (n < Z.of_nat (length src) → l2 = [] ∧ n = room x l2 off ∨ l2 ≠ [] ∧ n = io_len x - off).
Proof.
  intros [] Hne n. assert (0 < length src)%nat by (destruct src; simpl; [done|lia]). destruct cp_ok0.
  unfold used in *. unfold n, turn, room. case_decide as Hd; split_and!; try lia; try (by left).
  - intros ?. left. split; [done|lia].
  - destruct cp_used0 as [?|[? _]]; [lia|done].
  - intros ?. right. split; [done|lia].
Qed.

(** The conditions for the next buffer, and for the end of the copy. *)
Lemma copying_filled l1 a x l2 src off l1' x' (n : nat) :
  copying l1 a x l2 src off → src ≠ [] → Z.of_nat n = turn x l2 (Z.of_nat (length src)) off →
  same_bufs l1 l1' → same_buf x x' → lengths_ok (l1' ++ (a, filled x' off (take n src)) :: l2) →
  let x1 := filled x' off (take n src) in
  (∀ q, copying l1' a (set_io_flink q x1) l2 [] 0) ∧ used x1 ∧
  io_len x1 = Z.max (io_len x) (off + Z.of_nat n) ∧
  bytes (l1' ++ (a, x1) :: l2) = splice (bytes (l1 ++ (a, x) :: l2)) (length (bytes l1) + Z.to_nat off) (take n src).
Proof.
  intros Hc Hne Hn Hsl Hsx Hlen x1. destruct (turn_bounds _ _ _ _ _ _ Hc Hne) as (Hb0 & Hb1 & Hb2 & Hb3 & _).
  rewrite <- Hn in *. destruct Hc. pose proof (same_buf_ok _ _ Hsx cp_ok0) as Hx'. pose proof Hsx as (Hlx & Hox & _).
  assert (length (take n src) = n) as Hln by (rewrite length_take; lia).
  assert (io_len x1 = Z.max (io_len x) (off + Z.of_nat n)) as Hl1 by (simpl; by rewrite Hln, Hlx).
  assert (used x1) as Hu1 by (unfold used; lia).
  assert (buf_ok x1) as Hx1 by (apply filled_ok; [done|lia|lia]).
  split_and!; [|done|done|].
  - intros q. pose proof (same_flink q x1) as Hq. split; try done.
    + by eapply same_bufs_Forall; [apply same_buf_ok| |].
    + by eapply same_buf_ok.
    + unfold lengths_ok. rewrite (hd_pktlen_mid _ _ _ x1) by done.
      rewrite <- (same_bufs_bytes (l1' ++ (a, x1) :: l2)); [done|].
      apply same_bufs_app; [done|]. by apply same_bufs_cons.
    + simpl. lia.
    + eapply same_bufs_Forall; [|done|done]. intros y z (Hyz & _). unfold used. by rewrite Hyz.
    + by left.
    + rewrite <- (same_bufs_bytes _ _ Hsl). simpl. lia.
  - unfold x1. rewrite bytes_filled by (done || lia || (destruct Hb2; [by left|right; lia])).
    rewrite <- (same_bufs_bytes _ _ Hsl). f_equal. symmetry. apply same_bufs_bytes.
    apply same_bufs_app; [done|]. by apply same_bufs_cons.
Qed.

Lemma copied_here s s' P R p l l0 src i thr spare r :
  holds s' P R p l → packet_ok l → 0 ≤ r ≤ Z.of_nat (length src) →
  bytes l = splice (bytes l0) i (take (length src - Z.to_nat r) src) →
  (0 < r → refused s' P thr ∧ spare + r ≤ Z.of_nat (length src)) → copied s P R p l0 src i thr spare r s'.
Proof.
  intros Hh Hp Hr Hb Hleft. exists P, l. split_and!; [done|done|lia|lia|done|]. intros H0r.
  destruct (Hleft H0r). split; [done|lia].
Qed.

(** A new buffer holds no data yet. *)
Lemma fresh_behind l a x q c d :
  bytes (l ++ [(a, set_io_flink q x); (c, fresh d)]) = bytes (l ++ [(a, x)]) ∧
  (lengths_ok (l ++ [(a, x)]) → lengths_ok (l ++ [(a, set_io_flink q x); (c, fresh d)])).
Proof.
  assert (bytes (l ++ [(a, set_io_flink q x); (c, fresh d)]) = bytes (l ++ [(a, x)])) as Hb.
  { rewrite !packet_bytes_app, bytes_cons, !bytes_one, (payload_len0 (fresh d)), app_nil_r by done. done. }
  split; [done|]. unfold lengths_ok. rewrite Hb. by destruct l as [|[]].
Qed.

(** The loop goes on to the next buffer. *)
Lemma copying_next l1 a x l b y l2 src :
  copying l1 a x l [] 0 → used x → buf_ok y → Forall buf_ok l2.*2 → Forall used l2.*2 →
  used y ∨ l2 = [] ∧ src ≠ [] → lengths_ok (l1 ++ (a, x) :: (b, y) :: l2) →
  Z.of_nat (length (bytes l1)) + io_len x + Z.of_nat (length src) < 65536 →
  copying (l1 ++ [(a, x)]) b y l2 src 0 ∧
  Z.of_nat (length (bytes (l1 ++ [(a, x)]))) = Z.of_nat (length (bytes l1)) + io_len x.
Proof. clear Hbuf.
  intros [] Hu Hy Hb2 Hu2 Huy Hlen Hmax.
  assert (Z.of_nat (length (bytes (l1 ++ [(a, x)]))) = Z.of_nat (length (bytes l1)) + io_len x) as Hl.
  { rewrite packet_bytes_app, bytes_one, length_app. pose proof (payload_length _ cp_ok0). lia. }
  split; [|done]. split; try done.
  - rewrite fmap_app, Forall_app. split; [done|]. by constructor.
  - by rewrite <- (assoc_L (++)).
  - pose proof (bo_len _ Hy). lia.
  - rewrite fmap_app, Forall_app. split; [done|]. by constructor.
  - naive_solver.
  - rewrite Hl. lia.
Qed.

(** The allocation of line 205-212 is [iob_tryalloc]. *)
Lemma alloc_now wfuel s1 P P1 R p l x l2 thr (can_block : bool) (len total off n : Z) :
  no_wait P x l2 len total off thr can_block → len ≤ total → l2 = [] → n = room x l2 off → 0 ≤ n < len → P1 = P →
  holds s1 P1 R p l →
  (if negb can_block || (len - n <? total) then iob_tryalloc thr else iob_alloc wfuel thr) s1 = iob_tryalloc thr s1.
Proof. clear Hbuf.
  intros Hnw Htot Hl2 Hn Hlt -> (O & Hp & _). unfold room in Hn. rewrite decide_True in Hn by done.
  destruct can_block; [simpl|done]. destruct (Z.ltb_spec (len - n) total); [done|].
  destruct Hnw as [?|[Hctx|[?|[?|[-> HF]]]]]; [done| |lia|naive_solver lia|].
  - unfold iob_alloc. by rewrite Hctx.
  - destruct (pool_tryalloc _ _ _ false Hp) as [[_ [?|(_ & ? & _)]]|(_ & a & F & y & _ & _ & Hr & _)]; [done|done|].
    eapply (alloc_try _ _ _ (Some a)); [by right|done].
Qed.

Definition loop_ok (fuel wfuel : nat) R p (total : Z) (thr can_block : bool) : Prop :=
  ∀ s P l1 a x l2 src off,
  holds s P R p (l1 ++ (a, x) :: l2) → copying l1 a x l2 src off → Z.of_nat (length src) ≤ total →
  no_wait P x l2 (Z.of_nat (length src)) total off thr can_block →
  (length l2 + length (free_bufs P) + 1 < fuel)%nat →
  ∃ s' r, copyin_loop fuel wfuel p (Some a) src total off thr can_block s = Some (r, s') ∧
    copied s P R p (l1 ++ (a, x) :: l2) src (length (bytes l1) + Z.to_nat off) thr (room x l2 off) r s'.

Lemma loop_goes_on fuel wfuel R p total thr can_block s P l src i spare s1 P1 l1 a x lx b y l2 (n : nat) :
  loop_ok fuel wfuel R p total thr can_block →
  copying l1 a x lx [] 0 → used x → buf_ok y → Forall buf_ok l2.*2 → Forall used l2.*2 → used y ∨ l2 = [] →
  lengths_ok (l1 ++ (a, x) :: (b, y) :: l2) → holds s1 P1 R p (l1 ++ (a, x) :: (b, y) :: l2) →
  (n < length src)%nat → Z.of_nat (i + n) = Z.of_nat (length (bytes l1)) + io_len x →
  Z.of_nat (i + length src) < 65536 → Z.of_nat (length src) ≤ total →
  bytes (l1 ++ (a, x) :: (b, y) :: l2) = splice (bytes l) i (take n src) → (i ≤ length (bytes l))%nat →
  (length l2 + length (free_bufs P1) + 1 < fuel)%nat →
  spare + CONFIG_IOB_BUFSIZE * (Z.of_nat (length (free_bufs P)) - Z.of_nat (length (free_bufs P1))) ≤
    Z.of_nat n + room y l2 0 →
  ∃ s' r, copyin_loop fuel wfuel p (Some b) (drop n src) total 0 thr can_block s1 = Some (r, s') ∧
    copied s P R p l src i thr spare r s'.
Proof. clear Hbuf.
  intros IH Hc Hu Hy Hb2 Hu2 Huy Hlen Hh Hn Hin Hmax Htot Hbs Hi Hf Hsp.
  assert (drop n src ≠ []) as Hne by (intros Hnil; apply (f_equal length) in Hnil; rewrite length_drop in Hnil;
    simpl in *; lia).
  assert (length (drop n src) = length src - n)%nat as Hld by apply length_drop.
  destruct (copying_next _ _ _ _ b y l2 (drop n src) Hc Hu Hy Hb2 Hu2) as [Hc' Hl]; [naive_solver|done|lia|].
  change ((a, x) :: (b, y) :: l2) with ([(a, x)] ++ (b, y) :: l2) in Hh, Hbs. rewrite (assoc_L (++)) in Hh, Hbs.
  destruct (IH _ _ _ _ _ _ _ _ Hh Hc') as (s' & r & Hr & Hcp); [lia| |lia|].
  { right. right. right. left. intros _. destruct Hy. lia. }
  exists s', r. split; [done|]. eapply (copied_step _ _ _ _ _ _ _ _ _ _ _ s1 P1 _ _ n); [|done|lia|done|done].
  by replace (i + n)%nat with (length (bytes (l1 ++ [(a, x)])) + Z.to_nat 0)%nat by lia.
Qed.

Lemma copyin_loop_ok fuel wfuel R p total thr can_block : loop_ok fuel wfuel R p total thr can_block.
Proof using Type Hbuf.
  induction fuel as [|fuel IH]; intros s P l1 a x l2 src off Hh Hc Htot Hnw Hf; [lia|].
  cbn [copyin_loop]. destruct (decide (src = [])) as [->|Hne].
  { exists s, 0. split; [done|]. eapply copied_here; [done|by eapply copying_done|simpl;
      lia|by rewrite splice_nil|lia]. }
  assert (0 < length src)%nat as Hpos by (destruct src; simpl; [done|lia]).
  rewrite (proj2 (Z.ltb_lt 0 _)) by lia. run (holds_get _ _ _ _ _ a x Hh ltac:(set_solver)).
  destruct (turn_ok _ _ _ _ _ _ _ _ _ _ Hh (cp_ok _ _ _ _ _ _ Hc) (cp_off _ _ _ _ _ _ Hc)
    (cp_max _ _ _ _ _ _ Hc) (cp_lengths _ _ _ _ _ _ Hc)) as (s1 & l1' & x' & Hr & Hsl & Hsx & Hh1 & Hlen1).
  set (n := Z.to_nat (turn x l2 (Z.of_nat (length src)) off)) in *.
  destruct (turn_bounds _ _ _ _ _ _ Hc Hne) as (Hb0 & Hb1 & Hb2 & Hb3 & Hb4).
  assert (Z.of_nat n = turn x l2 (Z.of_nat (length src)) off) as Hn by (unfold n; lia). rewrite <- Hn in *.
  destruct (copying_filled _ _ _ _ _ _ _ _ _ Hc Hne Hn Hsl Hsx Hlen1) as (Hc1 & Hu1 & Hl1 & Hbs).
  set (x1 := filled x' off (take n src)) in *. rewrite (K_bind_twice _ _ _ _ _ _ Hr), Nat2Z.id.
  assert (copying l1' a x1 l2 [] 0) as Hc0 by (specialize (Hc1 (io_flink x1)); by destruct x1).
  assert (length (bytes l1) + Z.to_nat off ≤ length (bytes (l1 ++ (a, x) :: l2)))%nat as Hi.
  { rewrite packet_bytes_app, bytes_cons, !length_app. pose proof (payload_length _ (cp_ok _ _ _ _ _ _ Hc)).
    pose proof (cp_off _ _ _ _ _ _ Hc). lia. }
  pose proof (holds_link_mid _ _ _ _ _ _ _ _ Hh) as Hlink.
  destruct (decide (n = length src)) as [Hall|Hpart]; [|destruct Hb4 as [[-> Hroom]|[Hl2 Havail]]; [lia|..]].
  - rewrite Hall, Z.sub_diag, drop_ge by lia. destruct fuel as [|fuel]; [lia|]. exists s1, 0. split; [done|].
    eapply copied_here; [done|by eapply copying_done|lia| |lia]. rewrite Hbs. do 2 f_equal. lia.
  - rewrite (proj2 (Z.ltb_lt 0 _)), Hlink by lia. simpl.
    rewrite (K_bind_ext _ (iob_tryalloc thr)) by (eapply alloc_now; done || lia).
    destruct (holds_extend _ _ _ _ _ _ _ thr Hh1) as [[Hr1 Href]|(Href & c & F & s2 & s3 & d & HF & Hr1 & Hr2 &
      Hh2 & Hd)].
    + run Hr1. exists s1, (Z.of_nat (length src) - Z.of_nat n). split; [done|].
      eapply copied_here; [done|by eapply copying_done|lia|rewrite Hbs; do 2 f_equal; lia|]. intros _.
      split; [done|lia].
    + run Hr1. simpl. run Hr2. destruct Hc. destruct (fresh_behind l1' a x1 (Some c) c d) as [Hfb Hfl].
      destruct cp_ok0.
      unfold room in Hroom. rewrite decide_True in Hroom by done.
      eapply (loop_goes_on _ _ _ _ _ _ _ _ _ _ _ _ _ _ (taken F P) l1' a _ _ c (fresh d) [] n IH (Hc1 (Some c)));
        rewrite ?Hfb, ?HF; try done; try lia; [by split; simpl; lia|by right|by apply Hfl|..].
      * rewrite <- (same_bufs_bytes _ _ Hsl). change (io_len (set_io_flink (Some c) x1)) with (io_len x1). lia.
      * rewrite HF in Hf. simpl in *. lia.
      * unfold room. rewrite !decide_True by done. simpl. lia.
  - destruct l2 as [|[b y] l2]; [done|].
    assert (io_flink x = Some b) as Hfl.
    { destruct Hh as (O & _ & Hch & _). by apply chain_app in Hch as (q & _ & _ & _ & ? & _). }
    rewrite Hlink, andb_false_r, Hfl. destruct Hc. apply Forall_cons in cp_ok4 as [Hy Hok2].
    apply Forall_cons in cp_used4 as [Huy Hu2].
    eapply (loop_goes_on _ _ _ _ _ _ _ _ _ _ _ _ _ _ _ l1' a x1 _ b y l2 n IH Hc0); try done; try lia; [by left|..].
    + rewrite <- (same_bufs_bytes _ _ Hsl). lia.
    + simpl in Hf. lia.
    + unfold room. rewrite decide_False by done. simpl in Hy. destruct Hy. case_decide; lia.
Qed.

(** ** [iob_copyin_internal] *)

Lemma copyin_skip_ok fuel s P O p l off :
  pool s P O → chain O p l → Forall buf_ok l.*2 → l ≠ [] → 0 ≤ off ≤ Z.of_nat (length (bytes l)) →
  (length l ≤ fuel)%nat →
  ∃ l1 a x l2 off', l = l1 ++ (a, x) :: l2 ∧ copyin_skip fuel p off s = Some ((Some a, off'), s) ∧
    0 ≤ off' ≤ io_len x ∧ off = Z.of_nat (length (bytes l1)) + off'.
Proof. clear Hbuf.
  intros Hp. revert p l off. induction fuel as [|fuel IH]; intros p l off Hc Hb Hne Ho Hf.
  { by destruct l; simpl in Hf; [|lia]. }
  destruct l as [|[a x] l]; [done|]. destruct Hc as (-> & Hx & Hc). pose proof Hb as [Hbx Hbl]%Forall_cons.
  simpl in Hbx.
  pose proof (payload_length _ Hbx) as Hpay. cbn [copyin_skip]. run (pool_get _ _ _ _ _ Hp Hx).
  rewrite bytes_cons, length_app in Ho. destruct (Z.ltb_spec (io_len x) off).
  - destruct (IH (io_flink x) l (off - io_len x)) as (l1 & b & y & l2 & off' & -> & Hr & Ho' & Hoff);
      [done|done| |lia|simpl in Hf; lia|].
    { intros ->. rewrite bytes_nil in Ho. simpl in Ho. lia. }
    exists ((a, x) :: l1), b, y, l2, off'. split_and!; [done|done|lia|lia|]. rewrite bytes_cons, length_app. lia.
  - exists [], a, x, l, off. rewrite bytes_nil. split_and!; [done|done|lia|lia|simpl; lia].
Qed.

Lemma holds_sizes s P R p l : holds s P R p l → (length l + length (free_bufs P) ≤ size (iobs s))%nat.
Proof. clear Hbuf.
  intros (O & Hp & Hc & _). rewrite <- (length_fmap fst l), <- length_app. apply lookups_length.
  - apply NoDup_app. split_and!; [by eapply chain_NoDup| |].
    + intros a ([b x] & -> & Hin)%list_elem_of_fmap Hf. simpl in Hf. pose proof (chain_lookup _ _ _ _ _ Hc Hin) as Hx.
      eapply (pool_notin _ _ _ _ _ Hp Hx). set_solver.
    + pose proof (pool_nodup _ _ _ Hp). by nodup_facts.
  - intros a [([b x] & -> & Hin)%list_elem_of_fmap|Hf]%elem_of_app.
    + eexists. eapply pool_lookup; [done|]. by eapply chain_lookup.
    + eapply links_lookup; [apply (pool_free _ _ _ Hp)|done].
Qed.

Lemma copied_weaken s P R p l src i thr spare spare' r s' :
  copied s P R p l src i thr spare r s' → spare' ≤ spare → copied s P R p l src i thr spare' r s'.
Proof.
  intros (P' & l' & Hh & Hp & Hr & Hb & Hleft) Hle. exists P', l'. split_and!; [done|done|lia|lia|done|].
  intros H0r. destruct (Hleft H0r). split; [done|lia].
Qed.

(** When [iob_copyin_internal] need not wait for a buffer. *)
Definition need_not_wait P (throttled can_block : bool) : Prop :=
  can_block = false ∨ up_interrupt_context || sched_idletask = true ∨ throttled = false ∧ free_bufs P ≠ [].

Lemma copying_start l1 a x l2 src off :
  packet_ok (l1 ++ (a, x) :: l2) → 0 ≤ off ≤ io_len x →
  Z.of_nat (length (bytes l1)) + off + Z.of_nat (length src) < 65536 → copying l1 a x l2 src off.
Proof. clear Hbuf.
  intros (Hne & (Hb & Ht & Hu) & Hl)%packet_ok_alt Ho Hmax.
  rewrite fmap_app, Forall_app, fmap_cons, Forall_cons in Hb. destruct Hb as (Hb1 & Hbx & Hb2).
  assert (l1 = [] ∧ l2 = [] ∨ Forall used (l1 ++ (a, x) :: l2).*2) as Hall.
  { destruct Hu as [Hu|]; [left|by right]. destruct l1 as [|? [|]]; by simplify_eq/=. }
  destruct Hall as [[-> ->]|Hall]; [split; by auto|].
  rewrite fmap_app, Forall_app, fmap_cons, Forall_cons in Hall. split; naive_solver.
Qed.

Lemma copyin_internal_ok wfuel s P R p l src off thr can_block :
  holds s P R p l → packet_ok l → 0 ≤ off ≤ Z.of_nat (length (bytes l)) → off + Z.of_nat (length src) < 65536 →
  need_not_wait P thr can_block →
  ∃ s' r, iob_copyin_internal wfuel p src off thr can_block s = Some (r, s') ∧
    copied s P R p l src (Z.to_nat off) thr 0 r s'.
Proof using Type Hbuf.
  intros Hh Hl Ho Hmax Hnw. pose proof Hl as (Hne & (Hb & _) & Hpk & _)%packet_ok_alt. unfold iob_copyin_internal.
  assert (is_null p = false) as Hnull by (by rewrite (holds_null _ _ _ _ _ Hh), bool_decide_eq_false_2).
  run (kassert_ok (negb (is_null p)) s ltac:(by rewrite Hnull)).
  destruct (holds_set_pktlen _ _ _ _ _ 0 Hh Hne) as ((h & Hget & Hhd) & _). run Hget. rewrite Hhd, Hpk.
  rewrite (proj2 (Z.ltb_ge _ _)) by lia. destruct (holds_count _ _ _ _ _ Hh) as [Hc Hlen]. run Hc.
  pose proof Hh as (O & Hp & Hch & _).
  destruct (copyin_skip_ok (S (size (iobs s))) s P O p l off) as (l1 & a & x & l2 & off' & -> & Hr & Ho' &
    Hoff); [done..|lia|].
  run Hr. pose proof (holds_sizes _ _ _ _ _ Hh) as Hsz. rewrite length_app in Hsz. simpl in Hsz.
  destruct (copyin_loop_ok (S (S (size (iobs s)))) wfuel R p (Z.of_nat (length src)) thr can_block
    s P l1 a x l2 src off' Hh) as (s' & r & Hrun & Hcp); [by apply copying_start; [|lia|lia]|done| |lia|].
  { unfold need_not_wait, no_wait in *. naive_solver. }
  exists s', r. split; [done|]. replace (Z.to_nat off) with (length (bytes l1) + Z.to_nat off')%nat by lia.
  eapply copied_weaken; [done|]. rewrite fmap_app, Forall_app, fmap_cons, Forall_cons in Hb.
  destruct Hb as (_ & [] & _). simpl in *. unfold room. case_decide; lia.
Qed.
End copyin.
