(* ===== verification/IobPack.v ===== *)
(** * IobPack: data that moves between the buffers of a packet

    [iob_pack] and [iob_contig] move data towards the head and free the buffers that
    become empty; the bytes of the packet stay the same. *)

From S2P Require Import Prelude IobChain Iob IobSpec IobOps IobCopyin.
Local Open Scope Z_scope.
Set Default Proof Using "Type".

Section pack.
Context `{Config, IobConfig}.
Context (Hbuf : 0 < CONFIG_IOB_BUFSIZE < 65536).
Implicit Types (s : iob_st) (P : lists) (R : mem iob_s) (l : list (addr * iob_s)).

(** ** The steps *)

(** The data of [x] moved to the front of the buffer. *)
Definition unoffset (x : iob_s) : iob_s :=
  if 0 <? io_offset x then set_io_offset 0 (put_data x 0 (payload x)) else x.

Lemma unoffset_spec x :
  buf_ok x →
  buf_ok (unoffset x) ∧ payload (unoffset x) = payload x ∧ io_len (unoffset x) = io_len x ∧
  io_offset (unoffset x) = 0 ∧ io_pktlen (unoffset x) = io_pktlen x ∧ io_flink (unoffset x) = io_flink x.
Proof. clear Hbuf.
  intros Hx. pose proof (payload_length _ Hx) as Hpay. unfold unoffset. destruct (Z.ltb_spec 0 (io_offset x)).
  - destruct Hx. split_and!; [split; simpl; [lia|lia|lia|]| |done|done|done|done].
    + rewrite length_app, length_drop. lia.
    + unfold payload at 1. simpl. apply take_app_length'. lia.
  - destruct Hx. split_and!; [by split|done|done|lia|done|done].
Qed.

Lemma unoffset_run s P R p l1 a x l2 :
  holds s P R p (l1 ++ (a, x) :: l2) → buf_ok x →
  ∃ s', iob_unoffset (Some a) s = Some (tt, s') ∧ holds s' P R p (l1 ++ (a, unoffset x) :: l2).
Proof. clear Hbuf.
  intros Hh Hx. pose proof (payload_length _ Hx) as Hpay. unfold iob_unoffset, unoffset.
  pose proof (holds_get _ _ _ _ _ a x Hh ltac:(set_solver)) as Hget. run Hget.
  destruct (Z.ltb_spec 0 (io_offset x)); simpl; [|eauto].
  pose proof (payload_read x 0 (io_len x) Hx ltac:(lia) (bo_len _ Hx) ltac:(lia)) as Hrd.
  rewrite Z.add_0_r, drop_0, take_ge in Hrd by lia.
  rewrite (K_bind_Some _ _ s (payload x) s) by (unfold iob_read; run Hget; unfold klift; by rewrite Hrd).
  destruct Hx. destruct (holds_write _ _ _ _ _ _ _ _ 0 (payload x) Hh) as (s1 & Hr1 & Hh1); [done|lia|]. run Hr1.
  by apply (holds_set _ _ _ _ _ _ _ _ (set_io_offset 0) Hh1).
Qed.

(** [n] bytes move from [y] to [x]. *)
Definition grown (x y : iob_s) (n : Z) : iob_s := filled x (io_len x) (take (Z.to_nat n) (payload y)).

Lemma grown_spec x y n :
  buf_ok x → buf_ok y → 0 ≤ n ≤ io_len y → io_offset x = 0 → io_len x + n ≤ CONFIG_IOB_BUFSIZE →
  buf_ok (grown x y n) ∧ payload (grown x y n) = payload x ++ take (Z.to_nat n) (payload y) ∧
  io_len (grown x y n) = io_len x + n ∧ io_offset (grown x y n) = 0.
Proof. clear Hbuf.
  intros Hx Hy Hn Ho Hle. pose proof (payload_length _ Hx). pose proof (payload_length _ Hy).
  assert (Z.of_nat (length (take (Z.to_nat n) (payload y))) = n) as Hl by (rewrite length_take; lia).
  pose proof (bo_len _ Hx). unfold grown. split_and!; [apply filled_ok; [done|lia|lia]| |simpl; lia|done].
  rewrite filled_payload by (done || lia). unfold splice.
  by rewrite take_ge, drop_ge, app_nil_r by lia.
Qed.

Lemma take_run s P R p l1 a x b y l2 n :
  holds s P R p (l1 ++ (a, x) :: (b, y) :: l2) → buf_ok x → buf_ok y → 0 ≤ n ≤ io_len y → io_offset x = 0 →
  io_len x + n ≤ CONFIG_IOB_BUFSIZE →
  ∃ s', iob_take (Some a) (Some b) n s = Some (tt, s') ∧
    holds s' P R p (l1 ++ (a, grown x y n) :: (b, cut_head n y) :: l2).
Proof using Type Hbuf.
  intros Hh Hx Hy Hn Ho Hle. unfold iob_take.
  run (holds_get _ _ _ _ _ a x Hh ltac:(set_solver)).
  pose proof (holds_get _ _ _ _ _ b y Hh ltac:(set_solver)) as Hgy. run Hgy.
  pose proof (payload_read y 0 n Hy ltac:(lia) ltac:(lia) ltac:(lia)) as Hrd. rewrite Z.add_0_r, drop_0 in Hrd.
  set (d := take (Z.to_nat n) (payload y)) in *.
  assert (Z.of_nat (length d) = n) as Hd by (unfold d; pose proof (payload_length _ Hy); rewrite length_take; lia).
  rewrite (K_bind_Some _ _ s d s) by (unfold iob_read; run Hgy; unfold klift; by rewrite Hrd).
  pose proof Hx as []. pose proof Hy as [].
  destruct (holds_write _ _ _ _ _ _ _ _ (io_len x) d Hh) as (s1 & Hr1 & Hh1); [lia|lia|]. run Hr1.
  destruct (holds_set _ _ _ _ _ _ _ _ (set_io_len (wlen (io_len x + n))) Hh1) as (s2 & Hr2 & Hh2); [done..|]. run Hr2.
  set (x' := set_io_len _ _) in Hh2. change ((a, x') :: (b, y) :: l2) with ([(a, x')] ++ (b, y) :: l2) in Hh2.
  rewrite (assoc_L (++)) in Hh2.
  destruct (holds_set _ _ _ _ _ _ _ _ (set_io_len (wlen (io_len y - n))) Hh2) as (s3 & Hr3 & Hh3); [done..|]. run Hr3.
  destruct (holds_set _ _ _ _ _ _ _ _ (set_io_offset (wlen (io_offset y + n))) Hh3) as (s4 & Hr4 & Hh4); [done..|].
  exists s4. split; [done|]. rewrite <- (assoc_L (++)) in Hh4. unfold x' in Hh4. simpl app in Hh4.
  rewrite !(wlen_small Hbuf) in Hh4 by lia. unfold grown, filled. fold d. by rewrite Ho, Hd, Z.max_r by lia.
Qed.

Lemma repkt_Forall (Q : iob_s → Prop) v l :
  (∀ x y, same_buf x y → Q x → Q y) → Forall Q l.*2 → Forall Q (repkt v l).*2.
Proof. intros HQ. apply same_bufs_Forall; [done|apply same_repkt]. Qed.

Lemma used_same x y : same_buf x y → used x → used y.
Proof. intros (Hl & _). unfold used. by rewrite Hl. Qed.

(** The data that moved is still there. *)
Lemma moved_bytes x y n :
  buf_ok x → buf_ok y → 0 ≤ n ≤ io_len y → io_offset x = 0 → io_len x + n ≤ CONFIG_IOB_BUFSIZE →
  payload (grown x y n) ++ payload (cut_head n y) = payload x ++ payload y.
Proof. clear Hbuf.
  intros Hx Hy Hn Ho Hle. destruct (grown_spec x y n) as (_ & -> & _); [done..|].
  unfold cut_head. rewrite payload_trim_head by (destruct Hy; lia). by rewrite <- (assoc_L (++)), take_drop.
Qed.

(** The buffers behind [x] and [x] itself, when data has moved to [x]: the buffer that it
    came from is freed if it is empty. *)
Record moved R p l1 a (x : iob_s) b (y : iob_s) l2 (n : Z) s2 (x' : iob_s) l2' : Prop := {
  mv_holds : ∃ P', holds s2 P' R p (l1 ++ (a, x') :: l2');
  mv_ok : buf_ok x';
  mv_len : io_len x' = io_len x + n;
  mv_offset : io_offset x' = 0;
  mv_pktlen : io_pktlen x' = io_pktlen x;
  mv_oks : Forall buf_ok l2'.*2;
  mv_useds : Forall used l2'.*2;
  mv_bytes : payload x' ++ bytes l2' = payload x ++ bytes ((b, y) :: l2);
  mv_length : length l2' = if decide (n = io_len y) then length l2 else S (length l2);
}.

Lemma move_step s P R p l1 a x b y l2 n :
  holds s P R p (l1 ++ (a, x) :: (b, y) :: l2) → buf_ok x → io_offset x = 0 →
  Forall buf_ok ((b, y) :: l2).*2 → Forall used ((b, y) :: l2).*2 →
  0 ≤ n ≤ io_len y → io_len x + n ≤ CONFIG_IOB_BUFSIZE → l2 = [] ∨ CONFIG_DEBUG_ASSERTIONS = false →
  ∃ s1 s2 x' l2', iob_take (Some a) (Some b) n s = Some (tt, s1) ∧
    iob_get (Some b) s1 = Some (cut_head n y, s1) ∧ moved R p l1 a x b y l2 n s2 x' l2' ∧
    (n = io_len y ∧ (∃ s3, iob_free (Some b) s1 = Some (io_flink x', s3) ∧
                           iob_set (set_io_flink (io_flink x')) (Some a) s3 = Some (tt, s2)) ∨
     n < io_len y ∧ s2 = s1 ∧ io_flink x' = Some b).
Proof using Type Hbuf.
  intros Hh Hx Ho [Hy Hb]%Forall_cons [Hyu Hu]%Forall_cons Hn Hle Has. change ((b, y).2) with y in *.
  destruct (take_run s P R p l1 a x b y l2 n) as (s1 & Hr1 & Hh1); [done..|].
  destruct (grown_spec x y n) as (Hgx & _ & Hgl & Hgo); [done..|].
  pose proof (moved_bytes x y n Hx Hy Hn Ho Hle) as Hmv.
  pose proof (holds_get _ _ _ _ _ b (cut_head n y) Hh1 ltac:(set_solver)) as Hgy.
  destruct (decide (n = io_len y)) as [Hall|Hpart].
  - destruct (holds_free_next _ _ _ _ _ _ _ _ _ _ Hh1 Has) as (s3 & s2 & Hr2 & Hr3 & Hh2).
    change (io_flink (cut_head n y)) with (io_flink y) in *. set (v := passed_on (cut_head n y)) in *.
    exists s1, s2, (set_io_flink (io_flink y) (grown x y n)), (repkt v l2). split_and!; [done|done| |left; eauto].
    pose proof (same_flink (io_flink y) (grown x y n)) as Hs. split; try done.
    + by eexists.
    + by eapply same_buf_ok.
    + by apply repkt_Forall; [apply same_buf_ok|].
    + by apply repkt_Forall; [apply used_same|].
    + rewrite <- (same_buf_payload _ _ Hs), <- (same_bufs_bytes _ _ (same_repkt v l2)), (bytes_cons b).
      rewrite (assoc_L (++)), <- Hmv, (payload_len0 (cut_head n y)), app_nil_r by (simpl; lia). done.
    + rewrite decide_True by done. by destruct l2 as [|[]].
  - destruct (cut_head_ok n y) as [Hcy Huy]; [done|lia|].
    exists s1, s1, (grown x y n), ((b, cut_head n y) :: l2). split_and!; [done|done| |right].
    + split; try done; [by eexists|by constructor|by constructor| |by rewrite decide_False].
      by rewrite !(bytes_cons b), !(assoc_L (++)), Hmv.
    + split_and!; [lia|done|]. destruct Hh1 as (O & _ & Hch & _).
      by apply chain_app in Hch as (q & _ & _ & _ & ? & _).
Qed.

(** ** [iob_contig] *)

Lemma contig_loop_ok fuel s P R a x l len :
  holds s P R (Some a) ((a, x) :: l) → buf_ok x → io_offset x = 0 → Forall buf_ok l.*2 → Forall used l.*2 →
  io_len x < len ≤ CONFIG_IOB_BUFSIZE → len ≤ io_len x + Z.of_nat (length (bytes l)) →
  CONFIG_DEBUG_ASSERTIONS = false ∨ (length l ≤ 1)%nat → (length l ≤ fuel)%nat →
  ∃ s' P' x' l', contig_loop fuel (Some a) len s = Some (tt, s') ∧ holds s' P' R (Some a) ((a, x') :: l') ∧
    buf_ok x' ∧ io_len x' = len ∧ io_pktlen x' = io_pktlen x ∧ Forall buf_ok l'.*2 ∧ Forall used l'.*2 ∧
    bytes ((a, x') :: l') = bytes ((a, x) :: l).
Proof using Type Hbuf.
  revert s P x l. induction fuel as [|fuel IH]; intros s P x l Hh Hx Ho Hb Hu Hlen Htot Has Hf.
  { destruct l; [rewrite bytes_nil in Htot; simpl in Htot; lia|simpl in Hf; lia]. }
  destruct l as [|[b y] l]; [rewrite bytes_nil in Htot; simpl in Htot; lia|]. cbn [contig_loop].
  run (holds_get _ _ _ _ _ a x Hh ltac:(set_solver)). cbv zeta. rewrite (holds_next _ _ _ _ _ _ _ _ _ Hh).
  run (holds_get _ _ _ _ _ b y Hh ltac:(set_solver)).
  pose proof Hb as [Hy _]%Forall_cons. pose proof Hu as [Huy _]%Forall_cons. change ((b, y).2) with y in *.
  unfold used in Huy.
  run (kassert_ok (0 <? io_len y) s (proj2 (Z.ltb_lt _ _) Huy)).
  set (n := Z.min (len - io_len x) (io_len y)).
  destruct (move_step s P R _ [] a x b y l n Hh Hx Ho Hb Hu) as (s1 & s2 & x' & l' & Hr1 & Hgy & Hm & Hor);
    [lia|lia| |].
  { destruct Has as [|Hl1]; [by right|left]. destruct l; [done|simpl in Hl1; lia]. }
  run Hr1. run Hgy. destruct Hm as [[P' Hh'] ? ? ? ? ? ? Hbs Hl']. simpl app in Hh'.
  rewrite (K_bind_Some _ _ s1 tt s2).
  2:{ simpl (io_len (cut_head n y)). destruct Hor as [[Heq (s3 & Hr2 & Hr3)]|(Hlt & -> & _)].
      - rewrite (proj2 (Z.eqb_eq _ _)) by lia. simpl. by run Hr2.
      - rewrite (proj2 (Z.eqb_neq _ _)) by lia. done. }
  run (holds_get _ _ _ _ _ a x' Hh' ltac:(set_solver)). rewrite !(bytes_cons a), <- Hbs.
  destruct (Z.ltb_spec (io_len x') len).
  - rewrite decide_True in Hl' by lia. apply (f_equal length) in Hbs as Hlb. rewrite !length_app in Hlb.
    pose proof (payload_length x). pose proof (payload_length x').
    destruct (IH s2 P' x' l' Hh') as (s' & P'' & x'' & l'' & Hr & Hh'' & ? & ? & Hpk & ? & ? & Hbs'');
      [done..|lia|naive_solver lia|rewrite Hl'; simpl in *; naive_solver lia|simpl in *; lia|].
    exists s', P'', x'', l''. split_and!; try done. by rewrite Hpk.
  - exists s2, P', x', l'. split_and!; try done. lia.
Qed.

Lemma packet_cons a x l :
  buf_ok x → used x → Forall buf_ok l.*2 → Forall used l.*2 →
  io_pktlen x = Z.of_nat (length (bytes ((a, x) :: l))) → io_pktlen x < 65536 → packet_ok ((a, x) :: l).
Proof. intros Hx Hux Hb Hu Hl Hlt. apply packet_intro; [done|by constructor|left; by constructor|done]. Qed.

Lemma packet_cons_inv a x l :
  packet_ok ((a, x) :: l) → buf_ok x ∧ Forall buf_ok l.*2 ∧ Forall used l.*2 ∧ (l = [] ∨ used x).
Proof.
  intros (_ & (Hb & Ht & Hu) & _)%packet_ok_alt. apply Forall_cons in Hb as [? ?]. simpl in *.
  split_and!; [done..|]. destruct Hu as [?|[? ?]%Forall_cons]; by auto.
Qed.

Lemma iob_contig_ok s P R p a x l len :
  holds s P R p ((a, x) :: l) → packet_ok ((a, x) :: l) → 0 ≤ len ≤ CONFIG_IOB_BUFSIZE →
  CONFIG_DEBUG_ASSERTIONS = false ∨ (length l ≤ 1)%nat →
  if len <=? Z.of_nat (length (bytes ((a, x) :: l))) then
    ∃ s' P' x' l', iob_contig p len s = Some (0, s') ∧ holds s' P' R p ((a, x') :: l') ∧ packet_ok ((a, x') :: l') ∧
      len ≤ io_len x' ∧ bytes ((a, x') :: l') = bytes ((a, x) :: l)
  else iob_contig p len s = Some (- ENOSPC, s).
Proof using Type Hbuf.
  intros Hh Hl Hlen Has. pose proof (holds_head _ _ _ _ _ _ _ Hh) as ->. unfold iob_contig.
  run (kassert_ok (len <=? CONFIG_IOB_BUFSIZE) s (proj2 (Z.leb_le len _) (proj2 Hlen))).
  run (holds_get _ _ _ _ _ a x Hh ltac:(set_solver)). pose proof Hl as (_ & Hpk & Hlt).
  destruct (packet_length _ _ _ Hl) as (Hpk' & Hx0 & _). destruct (packet_cons_inv _ _ _ Hl) as (Hx & Hb & Hu & Hux).
  rewrite <- Hpk. destruct (Z.leb_spec len (io_len x)).
  { rewrite (proj2 (Z.leb_le len _)) by lia. exists s, P, x, l. split_and!; try done; lia. }
  destruct (Z.leb_spec len (io_pktlen x)); [|done].
  destruct (unoffset_run _ _ _ _ [] _ _ _ Hh Hx) as (s1 & Hr1 & Hh1). run Hr1. simpl in Hh1.
  destruct (unoffset_spec x Hx) as (Hox & Hop & Hol & Hoo & Hopk & Hof).
  destruct (holds_count _ _ _ _ _ Hh1) as [Hc Hsz]. run Hc. simpl in Hsz.
  destruct (contig_loop_ok (S (size (iobs s1))) s1 P R a (unoffset x) l len)
    as (s' & P' & x' & l' & Hr & Hh' & Hx' & Hl' & Hpk2 & Hb' & Hu' & Hbs); [done..|lia|lia|done|lia|].
  run Hr. exists s', P', x', l'.
  assert (bytes ((a, x') :: l') = bytes ((a, x) :: l)) as Hbs' by (rewrite Hbs, !bytes_cons; by rewrite Hop).
  split_and!; [done|done| |lia|done]. apply packet_cons; try done.
  - unfold used. lia.
  - rewrite Hpk2, Hopk, Hbs'. done.
  - rewrite Hpk2, Hopk. done.
Qed.

(** ** [iob_pack] *)

Lemma packet_mid l1 a x l2 x' l2' :
  packet_ok (l1 ++ (a, x) :: l2) → Forall used l1.*2 → buf_ok x' → used x' → Forall buf_ok l2'.*2 →
  Forall used l2'.*2 → io_pktlen x' = io_pktlen x → bytes (l1 ++ (a, x') :: l2') = bytes (l1 ++ (a, x) :: l2) →
  packet_ok (l1 ++ (a, x') :: l2').
Proof. clear Hbuf.
  intros (_ & (Hb & _) & Hl)%packet_ok_alt Hu1 Hx' Hux Hb2 Hu2 Hpk Hbs. rewrite fmap_app, Forall_app in Hb.
  apply packet_intro; [by destruct l1| |left|].
  - rewrite fmap_app, Forall_app. split; [apply Hb|by constructor].
  - rewrite fmap_app, Forall_app. split; [done|by constructor].
  - unfold lengths_ok. rewrite Hbs. replace (hd_pktlen (l1 ++ (a, x') :: l2')) with (hd_pktlen (l1 ++ (a, x) :: l2));
      [done|]. by destruct l1 as [|[]].
Qed.

(** One turn of the loop of [iob_pack]. *)
Lemma pack_step s P R p l1 a x b y l2 :
  holds s P R p (l1 ++ (a, x) :: (b, y) :: l2) → buf_ok x → io_offset x = 0 →
  Forall buf_ok ((b, y) :: l2).*2 → Forall used ((b, y) :: l2).*2 → l2 = [] ∨ CONFIG_DEBUG_ASSERTIONS = false →
  ∃ s2 x' l2', pack_turn (Some a) (Some b) x y s = Some (io_flink x', s2) ∧
    moved R p l1 a x b y l2 (Z.min (io_len y) (CONFIG_IOB_BUFSIZE - io_len x)) s2 x' l2'.
Proof using Type Hbuf.
  intros Hh Hx Ho Hb Hu Has. pose proof Hb as [Hy _]%Forall_cons. pose proof Hu as [Huy _]%Forall_cons.
  change ((b, y).2) with y in *. unfold used in Huy. pose proof (bo_end _ Hx). pose proof (bo_len _ Hx).
  unfold pack_turn.
  set (n := Z.min (io_len y) (CONFIG_IOB_BUFSIZE - io_len x)). destruct (Z.ltb_spec 0 n); simpl kwhen.
  - destruct (move_step s P R p l1 a x b y l2 n) as (s1 & s2 & x' & l2' & Hr1 & Hgy & Hm & Hor); [try done; lia..|].
    exists s2, x', l2'. split; [|done]. run Hr1. run Hgy. change (io_len (cut_head n y)) with (io_len y - n).
    destruct Hor as [[Heq (s3 & Hr2 & Hr3)]|(Hlt & -> & Hf)].
    + rewrite (proj2 (Z.leb_le _ _)) by lia. run Hr2. by run Hr3.
    + rewrite (proj2 (Z.leb_gt _ _)) by lia. by rewrite Hf.
  - exists s, x, ((b, y) :: l2). split.
    + erewrite K_bind_Some by done. run (holds_get _ _ _ _ _ b y Hh ltac:(set_solver)).
      rewrite (proj2 (Z.leb_gt _ _)) by lia. destruct Hh as (O & _ & Hch & _).
      apply chain_app in Hch as (q & _ & _ & _ & -> & _). done.
    + split; try done; [by eexists|lia|]. rewrite decide_False by lia. done.
Qed.

Lemma pack_loop_ok fuel s P R p l1 a x l2 :
  holds s P R p (l1 ++ (a, x) :: l2) → packet_ok (l1 ++ (a, x) :: l2) → Forall used (l1 ++ (a, x) :: l2).*2 →
  l2 = [] ∨ CONFIG_DEBUG_ASSERTIONS = false → (length l2 + 1 < fuel)%nat →
  ∃ s' P' l', pack_loop fuel (Some a) s = Some (tt, s') ∧ holds s' P' R p (l1 ++ l') ∧ packet_ok (l1 ++ l') ∧
    bytes (l1 ++ l') = bytes (l1 ++ (a, x) :: l2) ∧ Forall (λ y, io_offset y = 0) l'.*2 ∧
    (length l' ≤ S (length l2))%nat.
Proof using Type Hbuf.
  revert s P l1 a x l2. induction fuel as [|fuel IH]; intros s P l1 a x l2 Hh Hl Hall Has Hf; [lia|]. cbn [pack_loop].
  change (is_null (Some a)) with false. cbv iota. run (holds_get _ _ _ _ _ a x Hh ltac:(set_solver)).
  pose proof Hl as (_ & (Hb & _) & Hlens)%packet_ok_alt. rewrite fmap_app, Forall_app, fmap_cons,
    Forall_cons in Hb, Hall.
  destruct Hb as (Hb1 & Hx & Hb2). destruct Hall as (Hu1 & Hux & Hu2).
  destruct (unoffset_run _ _ _ _ _ _ _ _ Hh Hx) as (s1 & Hr1 & Hh1). run Hr1.
  destruct (unoffset_spec x Hx) as (Hox & Hop & Hol & Hoo & Hopk & Hof).
  pose proof (holds_link_mid _ _ _ _ _ _ _ _ Hh) as Hlink.
  destruct l2 as [|[b y] l2]; rewrite Hlink.
  { exists s1, P, [(a, unoffset x)]. assert (bytes (l1 ++ [(a, unoffset x)]) = bytes (l1 ++ [(a, x)])) as Hbs
      by (by rewrite !packet_bytes_app, !bytes_one, Hop).
    split_and!; [done|done| |done|by constructor|simpl; lia]. eapply packet_mid; try done. unfold used.
    by rewrite Hol. }
  rewrite bool_decide_eq_false_2 by done.
  assert (io_flink x = Some b) as Hfl by (destruct Hh as (O & _ & Hch & _);
    by apply chain_app in Hch as (q & _ & _ & _ & ? & _)).
  rewrite Hfl. run (holds_get _ _ _ _ _ b y Hh1 ltac:(set_solver)).
  destruct (pack_step s1 P R p l1 a (unoffset x) b y l2) as (s2 & x' & l' & Hr2 & Hm); [done..| |].
  { destruct Has as [|]; [done|by right]. }
  unfold pack_turn in Hr2 |- *. rewrite Hol in Hr2. run Hr2. destruct Hm as [[P' Hh'] Hx' Hlx ? Hpx Hbl' Hul'
    Hbs' Hll'].
  assert (used x') as Hux'.
  { pose proof (bo_end _ Hox). apply Forall_cons in Hu2 as [Huy _]. unfold used in *. simpl in Huy, Hux. lia. }
  assert (bytes (l1 ++ (a, x') :: l') = bytes (l1 ++ (a, x) :: (b, y) :: l2)) as Hbs2.
  { by rewrite !packet_bytes_app, !(bytes_cons a), Hbs', Hop. }
  assert (packet_ok (l1 ++ (a, x') :: l')) as Hl' by (eapply packet_mid; try done; by rewrite Hpx).
  assert (length l' ≤ S (length l2))%nat as Hle by (case_decide; lia). rewrite <- Hbs2.
  destruct l' as [|[c z] l'].
  { pose proof (holds_link_mid _ _ _ _ _ _ _ _ Hh') as Hnull. destruct fuel as [|fuel]; [simpl in Hf; lia|].
    cbn [pack_loop]. rewrite Hnull. exists s2, P', [(a, x')]. split_and!; [done..|by constructor|simpl; lia]. }
  assert (io_flink x' = Some c) as -> by (destruct Hh' as (O & _ & Hch & _);
    by apply chain_app in Hch as (q & _ & _ & _ & ? & _)).
  change ((a, x') :: (c, z) :: l') with ([(a, x')] ++ (c, z) :: l') in *. rewrite (assoc_L (++)) in Hh', Hl' |- *.
  destruct (IH s2 P' (l1 ++ [(a, x')]) c z l' Hh' Hl') as (s' & P'' & l'' & Hr & Hh'' & Hl'' & Hbs'' & Hoff & Hlen'').
  - rewrite !fmap_app, !Forall_app. split; [|done]. split; [done|by constructor].
  - destruct Has; [done|by right].
  - simpl in *. lia.
  - exists s', P'', ((a, x') :: l''). rewrite <- (assoc_L (++)) in Hh'', Hl'', Hbs''. simpl in Hh'', Hl'', Hbs''.
    do 4 (split; [done|]). split; [by constructor|simpl in *; lia].
Qed.

Lemma iob_pack_ok s P R p l :
  holds s P R p l → packet_ok l → bytes l ≠ [] → CONFIG_DEBUG_ASSERTIONS = false ∨ (length l ≤ 1)%nat →
  ∃ s' P' l', iob_pack p s = Some (p, s') ∧ holds s' P' R p l' ∧ packet_ok l' ∧ bytes l' = bytes l ∧
    Forall (λ y, io_offset y = 0) l'.*2 ∧ (length l' ≤ length l)%nat.
Proof using Type Hbuf.
  intros Hh Hl Hne Has. destruct l as [|[a x] l]; [by destruct Hl|]. pose proof (holds_head _ _ _ _ _ _ _ Hh) as ->.
  destruct (packet_cons_inv _ _ _ Hl) as (Hx & Hb & Hu & Hux).
  assert (used x) as Hused.
  { destruct Hux as [->|]; [|done]. rewrite bytes_one in Hne. pose proof (payload_length _ Hx). unfold used.
    destruct (payload x); [done|simpl in *; lia]. }
  unfold iob_pack. destruct (holds_count _ _ _ _ _ Hh) as [Hc Hsz]. run Hc. simpl in Hsz.
  rewrite (K_bind_Some _ _ s (Some a) s).
  2:{ cbn [pack_skip]. run (holds_get _ _ _ _ _ a x Hh ltac:(set_solver)).
  by rewrite (proj2 (Z.leb_gt _ _)) by done. }
  destruct (pack_loop_ok (S (S (size (iobs s)))) s P R (Some a) [] a x l) as (s' & P' & l' & Hr & Hh' & Hl' &
    Hbs & Hoff & Hlen); [done|done|by constructor| |lia|].
  { destruct Has as [|Hle]; [by right|]. left. destruct l; [done|simpl in Hle; lia]. }
  run Hr. exists s', P', l'. by split_and!.
Qed.
End pack.
