(* ===== verification/IobStore.v ===== *)
(** * IobStore: histories of packets

    The packets that the callers hold, as a map from their heads to their bytes.  Every
    operation of a history does to this map what its specification [step] says, and the
    pool stays well-formed: each buffer is in one of the lists or in one packet. *)

From S2P Require Import Prelude IobChain Iob IobSpec IobOps IobCopyin IobPack.
Local Open Scope Z_scope.
Set Default Proof Using "Type".

(** ** The pool after [iob_initialize] *)

Fixpoint pool_list (n : nat) : list addr :=
  match n with O => [] | S n => Pos.of_succ_nat n :: pool_list n end.

Lemma elem_of_pool_list n a : a ∈ pool_list n ↔ (Pos.to_nat a ≤ n)%nat.
Proof.
  induction n as [|n IH]; simpl.
  - rewrite elem_of_nil. pose proof (Pos2Nat.is_pos a). lia.
  - rewrite elem_of_cons, IH. split; [intros [->|]; lia|]. intros Ha.
    destruct (decide (Pos.to_nat a = S n)) as [Heq|]; [left|right; lia]. apply Pos2Nat.inj. lia.
Qed.

Lemma pool_list_NoDup n : NoDup (pool_list n).
Proof.
  induction n as [|n IH]; simpl; constructor; [|done]. rewrite elem_of_pool_list. lia.
Qed.

Lemma pool_list_length n : length (pool_list n) = n.
Proof. induction n; simpl; congruence. Qed.

Section init.
Context `{Config, IobConfig}.

Lemma iob_pool_lookup n a x :
  iob_pool n !! a = Some x → a ∈ pool_list n ∧ io_data x = replicate (Z.to_nat CONFIG_IOB_BUFSIZE) 0.
Proof.
  induction n as [|n IH]; simpl; [done|]. rewrite lookup_insert. case_decide as Ha.
  - intros [= <-]. subst. simpl. set_solver.
  - intros [? ?]%IH. set_solver.
Qed.

Lemma iob_pool_links n m :
  (∀ a, a ∈ pool_list n → m !! a = iob_pool n !! a) → links m (pool_head n) (pool_list n).
Proof.
  revert m. induction n as [|n IH]; intros m Hm; [done|]. simpl. split; [done|].
  eexists. split; [rewrite Hm by set_solver; simpl; apply lookup_insert_eq|]. simpl.
  change (match n with O => NULL | S k => Some (Pos.of_succ_nat k) end) with (pool_head n).
  apply IH. intros a Ha. rewrite Hm by set_solver. simpl. rewrite lookup_insert_ne; [done|].
  intros <-. apply elem_of_pool_list in Ha. lia.
Qed.

Lemma iob_pool_size n : size (iob_pool n) = n.
Proof.
  induction n as [|n IH]; [done|]. simpl. rewrite map_size_insert_None; [by rewrite IH|].
  destruct (iob_pool n !! Pos.of_succ_nat n) eqn:Hx; [|done].
  apply iob_pool_lookup in Hx as [Hx _]. apply elem_of_pool_list in Hx. lia.
Qed.

Definition all_free : lists := mk_lists (pool_list CONFIG_IOB_NBUFFERS) [] 0.

Lemma pool_initialize :
  0 ≤ CONFIG_IOB_BUFSIZE → Z.of_nat CONFIG_IOB_NBUFFERS ≤ IOB_SEM_MAX → pool iob_initialize all_free ∅.
Proof.
  intros Hb Hn. split; simpl.
  - by apply iob_pool_links.
  - done.
  - apply map_empty_subseteq.
  - rewrite app_nil_r. apply pool_list_NoDup.
  - intros a _. apply lookup_empty.
  - intros a [x Hx]. left. rewrite app_nil_r. by apply iob_pool_lookup in Hx as [? _].
  - intros a x [_ ->]%iob_pool_lookup. rewrite length_replicate. lia.
  - rewrite pool_list_length. lia.
  - by left.
  - by rewrite iob_pool_size.
  - intros Ht. rewrite pool_list_length, map_size_empty. lia.
Qed.
End init.

(** ** The packets of the callers *)

Section store.
Context `{Config, IobConfig}.
Implicit Types (O : mem iob_s) (M : gmap addr (list Z)) (l : list (addr * iob_s)).

Record store_ok O M : Prop := {
  so_packet h b : M !! h = Some b → ∃ l, chain O (Some h) l ∧ packet_ok l ∧ bytes l = b;
  so_apart h1 h2 l1 l2 : is_Some (M !! h1) → is_Some (M !! h2) → h1 ≠ h2 →
    chain O (Some h1) l1 → chain O (Some h2) l2 → ∀ a, a ∈ l1.*1 → a ∉ l2.*1;
  so_all a : is_Some (O !! a) → ∃ h l, is_Some (M !! h) ∧ chain O (Some h) l ∧ a ∈ l.*1;
}.

Lemma store_empty : store_ok ∅ ∅.
Proof. split; [done|by intros ??????%is_Some_None|by intros a []%lookup_empty_is_Some]. Qed.

Lemma chain_head O h l : chain O (Some h) l → h ∈ l.*1.
Proof. destruct l as [|[a x] l]; [done|]. intros ([= <-] & _). set_solver. Qed.

(** A packet is taken out. *)
Lemma store_drop O M h l :
  store_ok O M → is_Some (M !! h) → chain O (Some h) l → store_ok (rest O l.*1) (delete h M).
Proof.
  intros Hs Hh Hl. pose proof (rest_subseteq O l.*1) as Hsub. split.
  - intros h2 b [Hne Hb]%lookup_delete_Some. destruct (so_packet _ _ Hs _ _ Hb) as (k & Hk & Hok & Hbs).
    exists k. split; [|done]. eapply chain_agree; [done|]. intros a Ha. rewrite rest_lookup, decide_False; [done|].
    by eapply (so_apart _ _ Hs h2 h k l).
  - intros h1 h2 l1 l2 [? [_ ?]%lookup_delete_Some] [? [_ ?]%lookup_delete_Some] Hne Hc1 Hc2.
    apply (so_apart _ _ Hs h1 h2); [by eexists..|done| |]; by eapply chain_mono.
  - intros a [x Hx]. rewrite rest_lookup in Hx. case_decide as Ha; [done|].
    destruct (so_all _ _ Hs a) as (h2 & k & Hh2 & Hk & Hak); [by eexists|].
    assert (h ≠ h2) as Hne by (intros <-; by rewrite (chain_same _ _ _ _ Hk Hl) in Hak).
    exists h2, k. split_and!; [by rewrite lookup_delete_ne| |done].
    eapply chain_agree; [done|]. intros c Hc. rewrite rest_lookup, decide_False; [done|].
    by eapply (so_apart _ _ Hs h2 h k l).
Qed.

(** A packet is put in. *)
Lemma store_add O M h l :
  store_ok (rest O l.*1) M → chain O (Some h) l → packet_ok l → store_ok O (<[h := bytes l]> M) ∧ M !! h = None.
Proof.
  intros Hs Hl Hok. pose proof (rest_subseteq O l.*1) as Hsub.
  assert (∀ h2 b, M !! h2 = Some b → ∃ k, chain O (Some h2) k ∧ packet_ok k ∧ bytes k = b ∧
    chain (rest O l.*1) (Some h2) k ∧ ∀ a, a ∈ k.*1 → a ∉ l.*1) as Hothers.
  { intros h2 b Hb. destruct (so_packet _ _ Hs _ _ Hb) as (k & Hk & Hok2 & Hbs). exists k.
    split_and!; [by eapply chain_mono|done..|]. intros a ([c x] & -> & Hin)%list_elem_of_fmap Ha.
    pose proof (chain_lookup _ _ _ _ _ Hk Hin) as Hx. rewrite rest_lookup in Hx. by case_decide. }
  assert (M !! h = None) as Hnone.
  { destruct (M !! h) as [b|] eqn:Hb; [|done]. destruct (Hothers _ _ Hb) as (k & Hk & _ & _ & _ & Hd).
    by destruct (Hd h (chain_head _ _ _ Hk) (chain_head _ _ _ Hl)). }
  split; [|done]. split.
  - intros h2 b. rewrite lookup_insert. case_decide as Heq; [intros [= <-]; subst; eauto|]. intros Hb.
    destruct (Hothers _ _ Hb) as (k & ? & ? & ? & _). eauto.
  - intros h1 h2 l1 l2 Hm1 Hm2 Hne Hl1 Hl2 a Ha1 Ha2. rewrite lookup_insert in Hm1, Hm2.
    repeat case_decide; subst; try done.
    + destruct Hm1 as [b Hb]. destruct (Hothers _ _ Hb) as (k & Hk & _ & _ & _ & Hd).
      rewrite (chain_same _ _ _ _ Hl1 Hk) in Ha1. rewrite (chain_same _ _ _ _ Hl2 Hl) in Ha2. by apply (Hd a).
    + destruct Hm2 as [b Hb]. destruct (Hothers _ _ Hb) as (k & Hk & _ & _ & _ & Hd).
      rewrite (chain_same _ _ _ _ Hl2 Hk) in Ha2. rewrite (chain_same _ _ _ _ Hl1 Hl) in Ha1. by apply (Hd a).
    + destruct Hm1 as [b1 Hb1], Hm2 as [b2 Hb2].
      destruct (Hothers _ _ Hb1) as (k1 & Hk1 & _ & _ & Hr1 & _), (Hothers _ _ Hb2) as (k2 & Hk2 & _ & _ & Hr2 & _).
      rewrite (chain_same _ _ _ _ Hl1 Hk1) in Ha1. rewrite (chain_same _ _ _ _ Hl2 Hk2) in Ha2.
      by apply (so_apart _ _ Hs h1 h2 k1 k2 ltac:(by eexists) ltac:(by eexists) Hne Hr1 Hr2 a).
  - intros a [x Hx]. destruct (decide (a ∈ l.*1)) as [Ha|Ha].
    + exists h, l. split_and!; [by rewrite lookup_insert_eq|done|done].
    + destruct (so_all _ _ Hs a) as (h2 & k & Hh2 & Hk & Hak); [rewrite rest_lookup, decide_False by done;
        by eexists|].
      assert (h2 ≠ h) as Hne by (intros ->; rewrite Hnone in Hh2; by apply is_Some_None in Hh2).
      exists h2, k. split_and!; [by rewrite lookup_insert_ne|by eapply chain_mono|done].
Qed.
End store.

(** ** Histories *)

Inductive iob_op :=
  | OpAlloc (throttled : bool)
  | OpFree (h : addr)
  | OpTrimhead (h : addr) (n : Z)
  | OpTrimtail (h : addr) (n : Z)
  | OpCopyin (h : addr) (src : list Z) (off : Z) (throttled : bool)
  | OpCopyout (h : addr) (len off : Z)
  | OpContig (h : addr) (len : Z)
  | OpPack (h : addr).

Inductive iob_res := RPtr (p : ptr) | RInt (z : Z) | RBytes (d : list Z) | RNone.

Section history.
Context `{Config, IobConfig, IobEnv}.
Context (Hbuf : 0 < CONFIG_IOB_BUFSIZE < 65536).
Implicit Types (s : iob_st) (M : gmap addr (list Z)).

Definition exec (op : iob_op) : K iob_st iob_res :=
  match op with
  | OpAlloc thr => p ← iob_tryalloc thr; mret (RPtr p)
  | OpFree h => iob_free_chain (Some h);; mret RNone
  | OpTrimhead h n => p ← iob_trimhead (Some h) n; mret (RPtr p)
  | OpTrimtail h n => p ← iob_trimtail (Some h) n; mret (RPtr p)
  | OpCopyin h src off thr => n ← iob_copyin 0 (Some h) src off thr; mret (RInt n)
  | OpCopyout h len off => d ← iob_copyout (Some h) len off; mret (RBytes d)
  | OpContig h len => r ← iob_contig (Some h) len; mret (RInt r)
  | OpPack h => p ← iob_pack (Some h); mret (RPtr p)
  end.

(** What a caller may ask for: of a packet that it holds, and within the range of the
    16-bit length of a packet. *)
Definition allowed M (op : iob_op) : Prop :=
  match op with
  | OpAlloc _ => True
  | OpFree h => is_Some (M !! h)
  | OpTrimhead h n => is_Some (M !! h) ∧ 0 ≤ n
  | OpTrimtail h n => is_Some (M !! h) ∧ 0 ≤ n ≤ INT32_MAX
  | OpCopyin h src off _ =>
      ∃ b, M !! h = Some b ∧ 0 ≤ off ≤ Z.of_nat (length b) ∧ off + Z.of_nat (length src) < 65536
  | OpCopyout h len off => is_Some (M !! h) ∧ 0 ≤ len ∧ 0 ≤ off
  | OpContig h len => is_Some (M !! h) ∧ 0 ≤ len ≤ CONFIG_IOB_BUFSIZE ∧ CONFIG_DEBUG_ASSERTIONS = false
  | OpPack h => (∃ b, M !! h = Some b ∧ b ≠ []) ∧ CONFIG_DEBUG_ASSERTIONS = false
  end.

(** The specification: the result, and the packets afterwards. *)
Inductive step M : iob_op → iob_res → gmap addr (list Z) → Prop :=
  | step_alloc thr h : M !! h = None → step M (OpAlloc thr) (RPtr (Some h)) (<[h := []]> M)
  | step_alloc_none thr : step M (OpAlloc thr) (RPtr NULL) M
  | step_free h b : M !! h = Some b → step M (OpFree h) RNone (delete h M)
  | step_trimhead h n b h' :
      M !! h = Some b → delete h M !! h' = None →
      step M (OpTrimhead h n) (RPtr (Some h')) (<[h' := drop (Z.to_nat n) b]> (delete h M))
  | step_trimtail h n b :
      M !! h = Some b → n = 0 ∨ n < Z.of_nat (length b) →
      step M (OpTrimtail h n) (RPtr (Some h)) (<[h := take (length b - Z.to_nat n) b]> (delete h M))
  | step_trimtail_all h n b :
      M !! h = Some b → 0 < n → Z.of_nat (length b) ≤ n → step M (OpTrimtail h n) (RPtr NULL) (delete h M)
  | step_copyin h src off thr b (n : nat) :
      M !! h = Some b → (n ≤ length src)%nat →
      step M (OpCopyin h src off thr) (RInt (Z.of_nat n)) (<[h := splice b (Z.to_nat off) (take n src)]> (delete h M))
  | step_copyout h len off b :
      M !! h = Some b → step M (OpCopyout h len off) (RBytes (take (Z.to_nat len) (drop (Z.to_nat off) b))) M
  | step_contig h len b :
      M !! h = Some b → step M (OpContig h len) (RInt (if len <=? Z.of_nat (length b) then 0 else - ENOSPC)) M
  | step_pack h b : M !! h = Some b → step M (OpPack h) (RPtr (Some h)) M.

Definition inv s M : Prop := ∃ P O, pool s P O ∧ store_ok O M.

Lemma inv_holds s M h b :
  inv s M → M !! h = Some b →
  ∃ P R l, holds s P R (Some h) l ∧ packet_ok l ∧ bytes l = b ∧ store_ok R (delete h M).
Proof.
  intros (P & O & Hp & Hs) Hb. destruct (so_packet _ _ Hs _ _ Hb) as (l & Hl & Hok & Hbs).
  exists P, (rest O l.*1), l. split_and!; [by exists O|done|done|]. by eapply store_drop; [|eexists|].
Qed.

(** The packet is [l] now. *)
Lemma holds_inv s P R h l M :
  holds s P R (Some h) l → packet_ok l → store_ok R M → inv s (<[h := bytes l]> M) ∧ M !! h = None.
Proof.
  intros (O & Hp & Hc & <-) Hok Hs. destruct (store_add _ _ _ _ Hs Hc Hok) as [Hs' Hn]. split; [|done].
  by exists P, O.
Qed.

Lemma holds_inv_nil s P R p M : holds s P R p [] → store_ok R M → inv s M.
Proof. clear Hbuf.
  intros (O & Hp & _ & <-) Hs. exists P, O. split; [done|]. by rewrite rest_nil in Hs.
Qed.

(** What one operation does. *)
Definition refines s M (op : iob_op) : Prop :=
  ∃ r s' M', exec op s = Some (r, s') ∧ step M op r M' ∧ inv s' M'.

Lemma alloc_refines s M thr : inv s M → refines s M (OpAlloc thr).
Proof using Type Hbuf.
  intros (P & O & Hp & Hs). unfold refines. simpl.
  destruct (pool_tryalloc s P O thr Hp) as [[Hr _]|(_ & a & F & x & _ & Ha & Hr & Hp1 & Hd)].
  - exists (RPtr NULL), s, M. split_and!; [by run Hr|constructor|by exists P, O].
  - set (O1 := <[a := fresh (io_data x)]> O) in *.
    assert (rest O1 [(a, fresh (io_data x))].*1 = O) as HR.
    { apply map_eq. intros b. simpl. rewrite rest_lookup. case_decide as Hb.
      - assert (b = a) as -> by set_solver. done.
      - unfold O1. rewrite lookup_insert_ne by set_solver. done. }
    destruct (store_add O1 M a [(a, fresh (io_data x))]) as [Hs1 Hn].
    { by rewrite HR. }
    { unfold O1. simpl. by rewrite lookup_insert_eq. }
    { apply packet_ok_alt. split; [done|]. split; [|done]. apply bufs_ok_one. split; simpl; lia. }
    eexists (RPtr (Some a)), _, _. split_and!; [by run Hr|by constructor|]. by exists (taken F P), O1.
Qed.

Lemma free_refines s M h : inv s M → is_Some (M !! h) → refines s M (OpFree h).
Proof.
  intros Hi [b Hb]. destruct (inv_holds _ _ _ _ Hi Hb) as (P & R & l & Hh & Hok & _ & Hs).
  destruct (iob_free_chain_ok _ _ _ _ _ Hh (or_introl Hok)) as (s' & Hr & Hh').
  eexists RNone, s', _. split_and!; [simpl; by run Hr|by eapply step_free|by eapply holds_inv_nil].
Qed.

Lemma trimhead_refines s M h n : inv s M → is_Some (M !! h) → 0 ≤ n → refines s M (OpTrimhead h n).
Proof using Type Hbuf.
  intros Hi [b Hb] Hn. destruct (inv_holds _ _ _ _ Hi Hb) as (P & R & l & Hh & Hok & Hbs & Hs).
  destruct (iob_trimhead_ok Hbuf _ _ _ _ _ n Hh Hok Hn) as (s' & P' & q & l' & Hr & Hh' & Hok' & Hbs').
  destruct l' as [|[h' x] l']; [by destruct Hok'|]. pose proof (holds_head _ _ _ _ _ _ _ Hh') as ->.
  destruct (holds_inv _ _ _ _ _ _ Hh' Hok' Hs) as [Hi' Hnone]. rewrite Hbs', Hbs in Hi'.
  eexists _, s', _. split_and!; [simpl; by run Hr|by econstructor|done].
Qed.

Lemma trimtail_refines s M h n : inv s M → is_Some (M !! h) → 0 ≤ n ≤ INT32_MAX → refines s M (OpTrimtail h n).
Proof using Type Hbuf.
  intros Hi [b Hb] Hn. destruct (inv_holds _ _ _ _ Hi Hb) as (P & R & l & Hh & Hok & Hbs & Hs).
  destruct (iob_trimtail_ok Hbuf _ _ _ _ _ n Hh Hok Hn) as (s' & P' & q & l' & Hr & Hh' & Hbs' & Hok' & Hnil).
  rewrite Hbs in *. destruct (decide (0 < n ∧ Z.of_nat (length b) ≤ n)) as [Hall|Hpart].
  - assert (l' = []) as -> by (by apply Hnil). destruct Hall.
    assert (q = NULL) as -> by (by destruct Hh' as (O & _ & ? & _)).
    eexists _, s', _. split_and!; [simpl; by run Hr|by eapply step_trimtail_all|by eapply holds_inv_nil].
  - destruct Hok' as [->|[Hok' ->]]; [by destruct Hpart; apply Hnil|].
    destruct (holds_inv _ _ _ _ _ _ Hh' Hok' Hs) as [Hi' Hnone]. rewrite Hbs' in Hi'.
    eexists _, s', _. split_and!; [simpl; by run Hr|by eapply step_trimtail; [done|lia]|done].
Qed.

Lemma copyin_refines s M h src off thr :
  up_interrupt_context || sched_idletask = true →
  inv s M → allowed M (OpCopyin h src off thr) → refines s M (OpCopyin h src off thr).
Proof using Type Hbuf.
  intros Hctx Hi (b & Hb & Ho & Hmax). destruct (inv_holds _ _ _ _ Hi Hb) as (P & R & l & Hh & Hok & <- & Hs).
  destruct (copyin_internal_ok Hbuf 0 s P R (Some h) l src off thr true Hh Hok Ho Hmax) as (s' & r & Hr & Hcp);
    [by right; left|]. destruct Hcp as (P' & l' & Hh' & Hok' & Hrr & Hbs' & _).
  destruct (holds_inv _ _ _ _ _ _ Hh' Hok' Hs) as [Hi' _]. rewrite Hbs' in Hi'.
  exists (RInt (Z.of_nat (length src - Z.to_nat r))), s', (<[h := splice (bytes l) (Z.to_nat off) (take (length
    src - Z.to_nat r) src)]> (delete h M)).
  split_and!; [|by constructor; [|lia]|done]. simpl. unfold iob_copyin.
  rewrite (K_bind_Some _ _ s (Z.of_nat (length src - Z.to_nat r)) s'); [done|]. run Hr. unfold mret, K_ret.
  do 2 f_equal. lia.
Qed.

Lemma copyout_refines s M h len off :
  inv s M → is_Some (M !! h) → 0 ≤ len → 0 ≤ off → refines s M (OpCopyout h len off).
Proof.
  intros Hi [b Hb] Hl Ho. destruct (inv_holds _ _ _ _ Hi Hb) as (P & R & l & Hh & Hok & Hbs & _).
  eexists _, s, M. split_and!; [simpl; by run (iob_copyout_ok _ _ _ _ _ len off Hh Hok Hl Ho)| |done].
  rewrite Hbs. by constructor.
Qed.

(** An operation that keeps the bytes of a packet. *)
Lemma same_inv s s' P' R h l' b M :
  inv s M → M !! h = Some b → holds s' P' R (Some h) l' → packet_ok l' → bytes l' = b →
  store_ok R (delete h M) → inv s' M.
Proof.
  intros Hi Hb Hh' Hok' Hbs Hs. destruct (holds_inv _ _ _ _ _ _ Hh' Hok' Hs) as [Hi' _].
  by rewrite Hbs, insert_delete_id in Hi'.
Qed.

Lemma contig_refines s M h len :
  inv s M → is_Some (M !! h) → 0 ≤ len ≤ CONFIG_IOB_BUFSIZE → CONFIG_DEBUG_ASSERTIONS = false →
  refines s M (OpContig h len).
Proof using Type Hbuf.
  intros Hi [b Hb] Hl Has. destruct (inv_holds _ _ _ _ Hi Hb) as (P & R & l & Hh & Hok & Hbs & Hs).
  destruct l as [|[a x] l]; [by destruct Hok|]. pose proof (holds_head _ _ _ _ _ _ _ Hh) as [= <-].
  pose proof (iob_contig_ok Hbuf _ _ _ _ _ _ _ len Hh Hok Hl (or_introl Has)) as Hc. rewrite Hbs in Hc.
  pose proof (step_contig M h len b Hb) as Hst. destruct (len <=? Z.of_nat (length b)).
  - destruct Hc as (s' & P' & x' & l' & Hr & Hh' & Hok' & _ & Hbs').
    exists (RInt 0), s', M. split_and!; [simpl; by run Hr|done|by eapply same_inv].
  - exists (RInt (- ENOSPC)), s, M. split_and!; [simpl; by run Hc|done|done].
Qed.

Lemma pack_refines s M h :
  inv s M → allowed M (OpPack h) → refines s M (OpPack h).
Proof using Type Hbuf.
  intros Hi [(b & Hb & Hne) Has]. destruct (inv_holds _ _ _ _ Hi Hb) as (P & R & l & Hh & Hok & Hbs & Hs).
  destruct (iob_pack_ok Hbuf _ _ _ _ _ Hh Hok) as (s' & P' & l' & Hr & Hh' & Hok' & Hbs' & _); [congruence|by left|].
  exists (RPtr (Some h)), s', M. split_and!; [simpl; by run Hr|by econstructor|].
  eapply same_inv; [done..|congruence|done].
Qed.

Lemma op_refines s M op :
  up_interrupt_context || sched_idletask = true → inv s M → allowed M op → refines s M op.
Proof using Type Hbuf.
  intros Hctx Hi Ha. destruct op; simpl in Ha.
  - by apply alloc_refines.
  - by apply free_refines.
  - destruct Ha. by apply trimhead_refines.
  - destruct Ha. by apply trimtail_refines.
  - by apply copyin_refines.
  - destruct Ha as (? & ? & ?). by apply copyout_refines.
  - destruct Ha as (? & ? & ?). by apply contig_refines.
  - by apply pack_refines.
Qed.

(** The states that a caller gets to from [iob_initialize], with the packets that it
    holds according to the specification. *)
Inductive reach : iob_st → gmap addr (list Z) → Prop :=
  | reach_init : reach iob_initialize ∅
  | reach_step s M op r s' M' :
      reach s M → allowed M op → exec op s = Some (r, s') → step M op r M' → reach s' M'.

Lemma step_functional M op r M1 M2 : step M op r M1 → step M op r M2 → M1 = M2.
Proof. destruct 1; inversion 1; by simplify_eq. Qed.

Lemma reach_inv s M :
  up_interrupt_context || sched_idletask = true → Z.of_nat CONFIG_IOB_NBUFFERS ≤ IOB_SEM_MAX → reach s M → inv s M.
Proof using Type Hbuf.
  intros Hctx Hn. induction 1 as [|s M op r s' M' _ IH Ha He Hst].
  - exists all_free, ∅. split; [apply pool_initialize; lia|apply store_empty].
  - destruct (op_refines s M op Hctx IH Ha) as (r0 & s0 & M0 & He0 & Hst0 & Hi). rewrite He in He0.
    injection He0 as <- <-. by rewrite (step_functional _ _ _ _ _ Hst Hst0).
Qed.
End history.
