(* ===== verification/IobQueue.v ===== *)
(** * IobQueue: queues of packets

    A queue is a chain of containers, which come from a pool of their own.  [queue] relates
    a header to the packets in it; the operations are those of a first-in first-out list
    whose length the pool bounds. *)

From S2P Require Import Prelude IobChain Iob IobSpec IobOps IobStore.
Local Open Scope Z_scope.

Abbreviation qlinks := (IobChain.links qe_flink).
Abbreviation qchain := (IobChain.chain qe_flink).

Section queue.
Context `{Config, IobConfig}.
Implicit Types (s : iob_st) (F : list addr) (O R : mem iob_qentry_s) (q : iob_queue_s).
Implicit Types (l : list (addr * iob_qentry_s)).

(** The containers: [F] are free and [O] in use; no task waits for a buffer. *)
Record qpool s F O : Prop := {
  qp_free : qlinks (qents s) (g_iob_freeqlist s) F;
  qp_owned : O ⊆ qents s;
  qp_nodup : NoDup F;
  qp_disjoint a : a ∈ F → O !! a = None;
  qp_all a : is_Some (qents s !! a) → a ∈ F ∨ is_Some (O !! a);
  qp_sem : g_qentry_sem s = Z.of_nat (length F);
  qp_size : Z.of_nat (size (qents s)) ≤ IOB_SEM_MAX;
  qp_iob_sem : 0 ≤ g_iob_sem s;
}.

(** What the operations on containers leave alone. *)
Definition same_iob s s' : Prop :=
  iobs s' = iobs s ∧ g_iob_freelist s' = g_iob_freelist s ∧ g_iob_committed s' = g_iob_committed s ∧
  g_iob_sem s' = g_iob_sem s ∧ g_throttle_sem s' = g_throttle_sem s.

#[local] Instance same_iob_trans : Transitive same_iob.
Proof. intros s1 s2 s3. unfold same_iob. naive_solver congruence. Qed.
#[local] Instance same_iob_refl : Reflexive same_iob.
Proof. intros s. by split_and!. Qed.

Lemma same_iob_holds s s' P (B : mem iob_s) p (k : list (addr * iob_s)) : holds s P B p k → same_iob s s' →
  holds s' P B p k.
Proof.
  intros (O & Hp & Hc & HR) (Hi & Hf & Hcm & Hs & Ht). exists O. split; [|done].
  destruct Hp. split; rewrite ?Hi, ?Hf, ?Hcm, ?Hs, ?Ht; done.
Qed.

Definition last_ptr l : ptr := fst <$> last l.

(** The packets [ps] are in the queue; [R] are the containers of other queues. *)
Definition queue s F R q (ps : list ptr) : Prop :=
  ∃ O l, qpool s F O ∧ qchain O (qh_head q) l ∧ rest O l.*1 = R ∧
    (l ≠ [] → qh_tail q = last_ptr l) ∧ ps = qe_head <$> l.*2.

Lemma qpool_lookup s F O a x : qpool s F O → O !! a = Some x → qents s !! a = Some x.
Proof. intros Hp HO. by eapply lookup_weaken, qp_owned. Qed.

Lemma qentry_get_run s F O a x : qpool s F O → O !! a = Some x → qentry_get (Some a) s = Some (x, s).
Proof. intros Hp HO. unfold qentry_get, kget. simpl. by rewrite (qpool_lookup _ _ _ _ _ Hp HO). Qed.

Lemma qentry_set_run s a x f :
  qents s !! a = Some x → qentry_set f (Some a) s = Some (tt, set_qents (<[a := f x]> (qents s)) s).
Proof. intros Hx. unfold qentry_set, kput. by rewrite (store_Some _ _ _ _ Hx). Qed.

Lemma qpool_set s F O a x f :
  qpool s F O → O !! a = Some x →
  ∃ s', qentry_set f (Some a) s = Some (tt, s') ∧ qpool s' F (<[a := f x]> O) ∧ same_iob s s'.
Proof.
  intros Hp HO. pose proof (qpool_lookup _ _ _ _ _ Hp HO) as Hx. eexists. split; [by apply qentry_set_run|].
  assert (a ∉ F) as Hn by (intros Hin; by rewrite (qp_disjoint _ _ _ Hp _ Hin) in HO).
  split; [|done]. destruct Hp. split; simpl; try done.
  - eapply links_agree; [done|]. intros b Hb. rewrite lookup_insert_ne; [done|]. by intros ->.
  - by apply insert_mono.
  - intros b Hb. rewrite lookup_insert_ne; [auto|]. by intros ->.
  - intros b Hb. rewrite lookup_insert in Hb |- *. case_decide; [right; eauto|auto].
  - by rewrite map_size_insert_Some.
Qed.

(** ** The containers *)

Lemma qpool_tryalloc s F O :
  qpool s F O →
  match F with
  | [] => iob_tryalloc_qentry s = Some (NULL, s)
  | a :: F' => O !! a = None ∧ ∃ x s', iob_tryalloc_qentry s = Some (Some a, s') ∧ qpool s' F' (<[a := x]> O) ∧
      same_iob s s'
  end.
Proof.
  intros Hp. unfold iob_tryalloc_qentry. pose proof (qp_free _ _ _ Hp) as Hf. erewrite K_bind_Some by done.
  destruct F as [|a F']; [simpl in Hf; by rewrite Hf|]. destruct Hf as (Hh & x & Hx & Hl). rewrite Hh. simpl.
  pose proof (qp_sem _ _ _ Hp) as Hsem. simpl in Hsem.
  assert (O !! a = None) as Ha by (eapply qp_disjoint; [done|set_solver]). split; [done|].
  exists (set_qe_head NULL x). eexists. split.
  { rewrite (K_bind_Some _ _ s tt (set_qents (<[a := set_qe_head NULL x]> (qents s))
      (set_sem_count SemQentry (g_qentry_sem s - 1) (set_freeqlist (qe_flink x) s)))); [done|].
    rewrite (K_bind_Some _ _ s x s) by (unfold qentry_get, kget; simpl; by rewrite Hx).
    do 3 (erewrite K_bind_Some by done). erewrite K_bind_Some by (apply kassert_ok, Z.leb_le; simpl; lia).
    by rewrite (qentry_set_run _ a x). }
  split; [|done]. destruct Hp. nodup_facts. split; simpl; try done.
  - eapply links_agree; [done|]. intros b Hb. rewrite lookup_insert_ne; [done|]. by intros ->.
  - by apply insert_mono.
  - intros b Hb. rewrite lookup_insert_ne; [set_solver|]. by intros ->.
  - intros b Hb. rewrite lookup_insert in Hb |- *. case_decide; [right; eauto|].
    destruct (qp_all0 b Hb) as [[->|]%elem_of_cons|]; [done|by left|by right].
  - lia.
  - by rewrite map_size_insert_Some.
Qed.

Lemma qpool_free s F O a x :
  qpool s F O → O !! a = Some x →
  ∃ s', iob_free_qentry (Some a) s = Some (qe_flink x, s') ∧ qpool s' (a :: F) (delete a O) ∧ same_iob s s'.
Proof.
  intros Hp HO. pose proof (qpool_lookup _ _ _ _ _ Hp HO) as Hx.
  assert (a ∉ F) as Hn by (intros Hin; by rewrite (qp_disjoint _ _ _ Hp _ Hin) in HO).
  assert (length (a :: F) ≤ size (qents s))%nat as Hle.
  { apply lookups_length; [by constructor; [|apply (qp_nodup _ _ _ Hp)]|].
    intros b [->|Hb]%elem_of_cons; [by eexists|]. eapply links_lookup; [apply (qp_free _ _ _ Hp)|done]. }
  unfold iob_free_qentry. run (qentry_get_run _ _ _ _ _ Hp HO). erewrite K_bind_Some by done.
  pose proof (qp_sem _ _ _ Hp) as Hsem. pose proof (qp_size _ _ _ Hp) as Hsz. simpl in Hle.
  rewrite (proj2 (Z.ltb_ge _ _)) by apply (qp_iob_sem _ _ _ Hp).
  eexists. split.
  { rewrite (K_bind_Some _ _ s tt (set_freeqlist (Some a) (set_qents (<[a := set_qe_flink (g_iob_freeqlist s)
      x]> (qents s)) s))).
    2:{ erewrite K_bind_Some by done. by run (qentry_set_run _ _ _ (set_qe_flink (g_iob_freeqlist s)) Hx). }
    erewrite K_bind_Some by (apply post_run; simpl; lia). done. }
  split; [|done]. destruct Hp. split; simpl; try done.
  - split; [done|]. eexists. split; [apply lookup_insert_eq|]. simpl. eapply links_agree; [done|].
    intros b Hb. rewrite lookup_insert_ne; [done|]. by intros ->.
  - apply map_subseteq_spec. intros b y [Hb Hy]%lookup_delete_Some. rewrite lookup_insert_ne by done.
    by eapply lookup_weaken.
  - by constructor.
  - intros b [->|Hb]%elem_of_cons; [apply lookup_delete_eq|]. rewrite lookup_delete_ne; [auto|]. by intros ->.
  - intros b Hb. rewrite lookup_insert in Hb. rewrite lookup_delete. case_decide; [left; set_solver|].
    destruct (qp_all0 b Hb); [left; set_solver|by right].
  - rewrite Hsem. lia.
  - by rewrite map_size_insert_Some.
Qed.

(** ** The operations *)

Lemma tryadd_ok s F R q ps iob :
  queue s F R q ps →
  match F with
  | [] => iob_tryadd_queue iob q s = Some ((- ENOMEM, q), s)
  | a :: F' => ∃ s' q', iob_tryadd_queue iob q s = Some ((0, q'), s') ∧ queue s' F' R q' (ps ++ [iob]) ∧ same_iob s s'
  end.
Proof.
  intros (O & l & Hp & Hc & HR & Ht & ->). pose proof (qpool_tryalloc _ _ _ Hp) as Ha. unfold iob_tryadd_queue.
  destruct F as [|a F']; [by run Ha|]. destruct Ha as (Hn & x & s1 & Hr1 & Hp1 & Hs1). run Hr1. simpl.
  unfold iob_add_queue_internal.
  destruct (qpool_set _ _ _ a x (set_qe_head iob) Hp1) as (s2 & Hr2 & Hp2 & Hs2); [apply lookup_insert_eq|]. run Hr2.
  destruct (qpool_set _ _ _ a (set_qe_head iob x) (set_qe_flink NULL) Hp2) as (s3 & Hr3 & Hp3 & Hs3);
    [apply lookup_insert_eq|]. run Hr3.
  rewrite !insert_insert_eq in Hp3. change (set_qe_flink NULL (set_qe_head iob x)) with (mk_qentry NULL iob) in Hp3.
  assert (a ∉ l.*1) as Hnl.
  { intros ([c z] & -> & Hin)%list_elem_of_fmap. pose proof (chain_lookup _ _ _ _ _ Hc Hin). simpl in *; congruence. }
  assert (same_iob s s3) as Hs03 by (by etrans; [|etrans]).
  destruct (decide (l = [])) as [->|Hne].
  - rewrite Hc. simpl. eexists s3, _. split_and!; [done| |done]. eexists _, [(a, mk_qentry NULL iob)].
    split_and!; [done| |rewrite <- HR; simpl; rest_eq|done|done]. simpl. by rewrite lookup_insert_eq.
  - destruct (exists_last Hne) as (l0 & [b y] & ->). specialize (Ht Hne). unfold last_ptr in Ht.
    rewrite last_snoc in Ht.
    assert (is_null (qh_head q) = false) as -> by (by destruct l0 as [|[]]; destruct Hc as (-> & _)).
    pose proof (chain_NoDup _ _ _ Hc) as Hd. rewrite fmap_app in Hd, Hnl, HR. simpl in Hd, Hnl, HR, Ht. nodup_facts.
    rewrite Ht. run (kassert_ok (negb (is_null (Some b))) s3 eq_refl).
    pose proof (chain_lookup _ _ _ b y Hc ltac:(set_solver)) as Hy.
    destruct (qpool_set _ _ _ b y (set_qe_flink (Some a)) Hp3) as (s4 & Hr4 & Hp4 & Hs4);
      [by rewrite lookup_insert_ne|].
    run Hr4. eexists s4, _. split; [done|]. split; [|by etrans].
    eexists _, (l0 ++ [(b, set_qe_flink (Some a) y); (a, mk_qentry NULL iob)]). split_and!; [done| | | |].
    + simpl. apply chain_app in Hc as (r & Hs & -> & _ & _). apply chain_app. exists (Some b). split.
      * eapply segment_agree; [done|]. same_cells.
      * simpl. rewrite lookup_insert_eq, lookup_insert_ne, lookup_insert_eq by done. done.
    + rewrite <- HR, fmap_app. simpl. rest_eq.
    + intros _. unfold last_ptr. by rewrite last_app.
    + by rewrite !fmap_app, <- (assoc_L (++)).
Qed.

Lemma remove_ok s F R q ps :
  queue s F R q ps →
  match ps with
  | [] => iob_remove_queue q s = Some ((NULL, q), s)
  | p :: ps' => ∃ a s' q', iob_remove_queue q s = Some ((p, q'), s') ∧ queue s' (a :: F) R q' ps' ∧ same_iob s s'
  end.
Proof.
  intros (O & l & Hp & Hc & HR & Ht & ->). unfold iob_remove_queue. destruct l as [|[a x] l]; [by rewrite Hc|].
  pose proof (chain_NoDup _ _ _ Hc) as Hd. simpl in Hd. destruct Hc as (-> & Hx & Hc). simpl.
  run (qentry_get_run _ _ _ _ _ Hp Hx). destruct (qpool_free _ _ _ _ _ Hp Hx) as (s1 & Hr1 & Hp1 & Hs1). run Hr1.
  eexists a, s1, _. split_and!; [done| |done]. nodup_facts. exists (delete a O), l. split_and!; [done| | | |done].
  - simpl. eapply chain_agree; [done|]. same_cells.
  - rewrite <- HR. simpl. rest_eq.
  - intros Hne. simpl. destruct l as [|[b y] l]; [done|]. destruct Hc as (-> & _). simpl. rewrite Ht by done.
    unfold last_ptr. by rewrite last_cons_cons.
Qed.

Lemma peek_ok s F R q ps : queue s F R q ps → iob_peek_queue q s = Some (default NULL (head ps), s).
Proof.
  intros (O & l & Hp & Hc & HR & Ht & ->). unfold iob_peek_queue. destruct l as [|[a x] l]; [by rewrite Hc|].
  destruct Hc as (-> & Hx & _). simpl. by run (qentry_get_run _ _ _ _ _ Hp Hx).
Qed.
End queue.

(** ** A queue is a bounded first-in first-out list *)

Inductive q_op := QAdd (p : ptr) | QRemove | QPeek.
Inductive q_res := QInt (z : Z) | QPtr (p : ptr).

Section fifo.
Context `{Config, IobConfig}.
Implicit Types (s : iob_st) (F : list addr) (R : mem iob_qentry_s) (q : iob_queue_s) (ps : list ptr).

Definition qexec (op : q_op) q : K iob_st (q_res * iob_queue_s) :=
  match op with
  | QAdd p => '(r, q) ← iob_tryadd_queue p q; mret (QInt r, q)
  | QRemove => '(p, q) ← iob_remove_queue q; mret (QPtr p, q)
  | QPeek => p ← iob_peek_queue q; mret (QPtr p, q)
  end.

Fixpoint qrun (ops : list q_op) q : K iob_st (list q_res * iob_queue_s) :=
  match ops with
  | [] => mret ([], q)
  | op :: ops => '(r, q) ← qexec op q; '(rs, q) ← qrun ops q; mret (r :: rs, q)
  end.

(** The reference: a list, and the number of packets that there is room for. *)
Definition fifo_step (op : q_op) (st : list ptr * nat) : q_res * (list ptr * nat) :=
  match op, st with
  | QAdd p, (ps, S n) => (QInt 0, (ps ++ [p], n))
  | QAdd p, (ps, O) => (QInt (- ENOMEM), (ps, O))
  | QRemove, (p :: ps, n) => (QPtr p, (ps, S n))
  | QRemove, ([], n) => (QPtr NULL, ([], n))
  | QPeek, (ps, n) => (QPtr (default NULL (head ps)), (ps, n))
  end.

Fixpoint fifo (ops : list q_op) (st : list ptr * nat) : list q_res * (list ptr * nat) :=
  match ops with
  | [] => ([], st)
  | op :: ops => let '(r, st) := fifo_step op st in let '(rs, st) := fifo ops st in (r :: rs, st)
  end.

Lemma qexec_ok s F R q ps op :
  queue s F R q ps →
  ∃ s' F' q', qexec op q s = Some (((fifo_step op (ps, length F)).1, q'), s') ∧
    queue s' F' R q' (fifo_step op (ps, length F)).2.1 ∧ length F' = (fifo_step op (ps, length F)).2.2.
Proof.
  intros Hq. destruct op as [p| |].
  - pose proof (tryadd_ok _ _ _ _ _ p Hq) as Ha. destruct F as [|a F].
    + exists s, [], q. split_and!; [simpl; by run Ha|done|done].
    + destruct Ha as (s' & q' & Hr & Hq' & _). exists s', F, q'. split_and!; [simpl; by run Hr|done|done].
  - pose proof (remove_ok _ _ _ _ _ Hq) as Ha. destruct ps as [|p ps].
    + exists s, F, q. split_and!; [simpl; by run Ha|done|done].
    + destruct Ha as (a & s' & q' & Hr & Hq' & _). exists s', (a :: F), q'. split_and!; [simpl; by run Hr|done|done].
  - pose proof (peek_ok _ _ _ _ _ Hq) as Ha. exists s, F, q. split_and!; [simpl; by run Ha|done|done].
Qed.

Lemma qrun_ok ops s F R q ps :
  queue s F R q ps →
  ∃ s' F' q', qrun ops q s = Some (((fifo ops (ps, length F)).1, q'), s') ∧
    queue s' F' R q' (fifo ops (ps, length F)).2.1 ∧ length F' = (fifo ops (ps, length F)).2.2.
Proof.
  revert s F q ps. induction ops as [|op ops IH]; intros s F q ps Hq; [by exists s, F, q|].
  destruct (qexec_ok s F R q ps op Hq) as (s1 & F1 & q1 & Hr1 & Hq1 & Hn1). simpl.
  destruct (fifo_step op (ps, length F)) as [r [ps1 n1]]. simpl in *. subst n1.
  destruct (IH s1 F1 q1 ps1 Hq1) as (s2 & F2 & q2 & Hr2 & Hq2 & Hn2).
  destruct (fifo ops (ps1, length F1)) as [rs st]. exists s2, F2, q2. simpl in *. run Hr1. by run Hr2.
Qed.

Definition empty_queue : iob_queue_s := mk_iob_queue NULL NULL.

Lemma iob_qpool_lookup n a x : iob_qpool n !! a = Some x → a ∈ pool_list n.
Proof.
  induction n as [|n IH]; simpl; [done|]. rewrite lookup_insert. case_decide as Ha; [set_solver|].
  intros ?%IH. set_solver.
Qed.

Lemma iob_qpool_links n m :
  (∀ a, a ∈ pool_list n → m !! a = iob_qpool n !! a) → qlinks m (pool_head n) (pool_list n).
Proof.
  revert m. induction n as [|n IH]; intros m Hm; [done|]. simpl. split; [done|].
  eexists. split; [rewrite Hm by set_solver; simpl; apply lookup_insert_eq|]. simpl.
  change (match n with O => NULL | S k => Some (Pos.of_succ_nat k) end) with (pool_head n).
  apply IH. intros a Ha. rewrite Hm by set_solver. simpl. rewrite lookup_insert_ne; [done|].
  intros <-. apply elem_of_pool_list in Ha. lia.
Qed.

Lemma queue_initialize :
  Z.of_nat CONFIG_IOB_NCHAINS ≤ IOB_SEM_MAX →
  queue iob_initialize (pool_list CONFIG_IOB_NCHAINS) ∅ empty_queue [].
Proof.
  intros Hn. exists ∅, []. split_and!; [|done|done|done|done]. split; simpl.
  - by apply iob_qpool_links.
  - apply map_empty_subseteq.
  - apply pool_list_NoDup.
  - intros a _. apply lookup_empty.
  - intros a [x Hx]. left. by apply iob_qpool_lookup in Hx.
  - by rewrite pool_list_length.
  - etrans; [|done]. apply inj_le. clear Hn. induction CONFIG_IOB_NCHAINS as [|n IH]; [done|].
    simpl. rewrite map_size_insert. destruct (_ !! _); simpl; unfold id; lia.
  - lia.
Qed.
End fifo.

(** ** [iob_free_queue] *)

(** What the operations on buffers leave alone. *)
Definition grows (s s' : iob_st) : Prop :=
  qents s' = qents s ∧ g_iob_freeqlist s' = g_iob_freeqlist s ∧ g_qentry_sem s' = g_qentry_sem s ∧
  g_iob_sem s ≤ g_iob_sem s'.

Definition keeps {A} (c : K iob_st A) : Prop := ∀ s a s', c s = Some (a, s') → grows s s'.

Create HintDb keeps.

Section keeps.
Context `{Config, IobConfig}.

Lemma keeps_ret {A} (a : A) : keeps (mret a).
Proof. intros s b s' [= -> ->]. by split_and!. Qed.

Lemma keeps_bind {A B} (c : K iob_st A) (f : A → K iob_st B) : keeps c → (∀ a, keeps (f a)) → keeps (c ≫= f).
Proof.
  intros Hc Hf s b s' (a & s1 & Hr1 & Hr2)%K_bind_inv. apply Hc in Hr1 as (? & ? & ? & ?).
  apply Hf in Hr2 as (? & ? & ? & ?). split_and!; [congruence..|lia].
Qed.

Lemma keeps_get {A} (f : iob_st → option A) : keeps (kget f).
Proof. intros s a s'. unfold kget. destruct (f s); intros; simplify_eq/=. by split_and!. Qed.

Lemma keeps_st_get {A} (f : iob_st → A) : keeps (st_get f).
Proof. apply keeps_get. Qed.

Lemma keeps_iob_get p : keeps (iob_get p).
Proof. apply keeps_get. Qed.

Lemma keeps_lift {A} (o : option A) : keeps (klift o).
Proof. intros s a s'. unfold klift. destruct o; intros; simplify_eq/=. by split_and!. Qed.

Lemma keeps_assert b : keeps (kassert b).
Proof. apply keeps_lift. Qed.

Lemma keeps_when b c : keeps c → keeps (kwhen b c).
Proof. destruct b; [done|]. intros _. apply keeps_ret. Qed.

Lemma keeps_iob_set f p : keeps (iob_set f p).
Proof.
  intros s a s'. unfold iob_set, kput. destruct (store p f (iobs s)); intros; simplify_eq/=. by split_and!.
Qed.

Lemma keeps_freelist p : keeps (st_set (set_freelist p)).
Proof. intros s a s' [= <- <-]. by split_and!. Qed.
Lemma keeps_committed p : keeps (st_set (set_committed p)).
Proof. intros s a s' [= <- <-]. by split_and!. Qed.

Lemma keeps_post i : i ≠ SemQentry → keeps (iob_post i).
Proof.
  intros Hi s a s'. unfold iob_post. erewrite K_bind_Some by done.
  intros (u & s1 & Hk & Hs)%K_bind_inv. unfold kassert, klift in Hk.
  destruct (DEBUGASSERT _); simplify_eq/=. injection Hs as <- <-. unfold grows. simpl.
  destruct i; simpl; split_and!; try done; lia.
Qed.
End keeps.

#[export] Hint Resolve keeps_ret keeps_bind keeps_get keeps_st_get keeps_iob_get keeps_lift keeps_assert
  keeps_when keeps_iob_set
  keeps_freelist keeps_committed keeps_post : keeps.

Section free_queue.
Context `{Config, IobConfig}.
Implicit Types (s : iob_st) (F : list addr) (B : mem iob_s) (ps : list ptr).

Lemma keeps_iob_free p : keeps (iob_free p).
Proof.
  unfold iob_free. apply keeps_bind; [apply keeps_get|]. intros x. cbv zeta.
  repeat first [by apply keeps_post | solve [auto with keeps] | case_match | apply keeps_when
               | apply keeps_bind; [|intros ?]].
Qed.

Lemma keeps_free_chain p : keeps (iob_free_chain p).
Proof.
  unfold iob_free_chain. apply keeps_bind; [apply keeps_get|]. intros n. generalize (S n). clear n. intros n.
  revert p. induction n as [|n IH]; intros p; [by intros s a s' ?|]. cbn [free_chain_loop].
  destruct (is_null p); [apply keeps_ret|]. apply keeps_bind; [apply keeps_iob_free|done].
Qed.

Lemma grows_qpool s s' F O : qpool s F O → grows s s' → qpool s' F O.
Proof.
  intros [] (Hq & Hf & Hs & Hi). split; rewrite ?Hq, ?Hf, ?Hs; try done. lia.
Qed.

(** The packets [ps] are in [B], next to [B']. *)
Fixpoint packets B ps (B' : mem iob_s) : Prop :=
  match ps with
  | [] => B = B'
  | p :: ps => ∃ l, chain B p l ∧ packet_ok l ∧ packets (rest B l.*1) ps B'
  end.

Lemma free_queue_loop_ok fuel s F O p l P B B' :
  qpool s F O → qchain O p l → pool s P B → packets B (qe_head <$> l.*2) B' → (length l < fuel)%nat →
  ∃ s' P', free_queue_loop fuel p s = Some (tt, s') ∧ qpool s' (reverse l.*1 ++ F) (rest O l.*1) ∧ pool s' P' B'.
Proof.
  revert s F O p l P B. induction fuel as [|fuel IH]; intros s F O p l P B Hq Hc Hp Hps Hf; [lia|].
  cbn [free_queue_loop]. destruct l as [|[a x] l].
  { rewrite Hc. simpl in Hps. subst B'. exists s, P. split_and!; [done| |done]. by rewrite rest_nil. }
  pose proof (chain_NoDup _ _ _ Hc) as Hd. simpl in Hd. destruct Hc as (-> & Hx & Hc).
  destruct Hps as (k & Hk & Hok & Hps). change ((a, x).2) with x in Hk. change (is_null (Some a)) with false.
  cbv iota.
  run (qentry_get_run _ _ _ _ _ Hq Hx).
  assert (is_null (qe_head x) = false) as Hnn by (destruct k as [|[]]; [by destruct Hok|by destruct Hk as (-> & _)]).
  run (kassert_ok (negb (is_null (qe_head x))) s ltac:(by rewrite Hnn)).
  destruct (qpool_free _ _ _ _ _ Hq Hx) as (s1 & Hr1 & Hq1 & Hs1). run Hr1.
  assert (holds s1 P (rest B k.*1) (qe_head x) k) as Hh by (eapply same_iob_holds; [by exists B|done]).
  destruct (iob_free_chain_ok _ _ _ _ _ Hh (or_introl Hok)) as (s2 & Hr2 & (B2 & Hp2 & _ & HB2)). run Hr2.
  pose proof (keeps_free_chain _ _ _ _ Hr2) as Hg.
  rewrite rest_nil in HB2. subst B2.
  nodup_facts.
  destruct (IH s2 (a :: F) (delete a O) (qe_flink x) l (gives k.*1 P) (rest B k.*1) (grows_qpool _ _ _ _ Hq1 Hg))
    as (s' & P' & Hr & Hq' & Hp'); [|done|done|simpl in Hf; lia|].
  { eapply chain_agree; [done|]. same_cells. }
  exists s', P'. split_and!; [done| |done]. by rewrite fmap_cons, reverse_cons, <- (assoc_L (++)), rest_cons.
Qed.

Lemma free_queue_ok s F R q ps P B B' :
  queue s F R q ps → pool s P B → packets B ps B' →
  ∃ s' F' P', iob_free_queue q s = Some (mk_iob_queue NULL (qh_tail q), s') ∧
    queue s' (F' ++ F) R (mk_iob_queue NULL (qh_tail q)) [] ∧ length F' = length ps ∧ pool s' P' B'.
Proof.
  intros (O & l & Hq & Hc & HR & Ht & ->) Hp Hps. unfold iob_free_queue. erewrite K_bind_Some by done.
  destruct (free_queue_loop_ok (S (size (qents s))) s F O (qh_head q) l P B B') as (s' & P' & Hr & Hq' & Hp');
    try done.
  { apply le_n_S. rewrite <- (length_fmap fst). apply lookups_length; [by eapply chain_NoDup|].
    intros a ([b x] & -> & Hin)%list_elem_of_fmap. eexists. eapply qpool_lookup; [done|]. by eapply chain_lookup. }
  run Hr. exists s', (reverse l.*1), P'. split_and!; [done| |by rewrite length_reverse, !length_fmap|done].
  exists (rest O l.*1), []. split_and!; [done|done|by rewrite rest_nil|done|done].
Qed.
End free_queue.
