(* ===== verification/IobWait.v ===== *)
(** * IobWait: a buffer for a task that waits

    When no buffer is left, [iob_alloc] waits.  The buffer that another task frees in the
    meantime goes to the committed list, where [iob_tryalloc] does not look, so that the
    task that waits gets it. *)

From S2P Require Import Prelude IobChain Iob IobSpec.
Local Open Scope Z_scope.

Section wait.
Context `{Config, IobConfig}.
Implicit Types (s : iob_st) (P : lists) (O : mem iob_s).

(** A task begins to wait: [nxsem_wait] has decremented the count. *)
Definition waits P : lists := mk_lists (free_bufs P) (committed_bufs P) (S (waiters P)).

Lemma pool_wait s P O :
  pool s P O → free_bufs P = [] → pool (set_sem_count SemIob (g_iob_sem s - 1) s) (waits P) O.
Proof.
  intros Hp HF. pose proof (pool_sem _ _ _ Hp) as Hsem. rewrite HF in Hsem. simpl in Hsem.
  destruct Hp. split; simpl; try done; [rewrite HF; simpl; lia|by right].
Qed.

(** [iob_alloc_committed] takes the first buffer of the committed list; it does not touch
    the counts. *)
Lemma alloc_committed_run s P O a C x :
  pool s P O → committed_bufs P = a :: C → iobs s !! a = Some x → CONFIG_IOB_THROTTLE ≤ 0 →
  ∃ s', iob_alloc_committed s = Some (Some a, s') ∧
    pool s' (mk_lists (free_bufs P) C (waiters P)) (<[a := fresh (io_data x)]> O).
Proof.
  intros Hp HC Hx Hth. pose proof (pool_committed _ _ _ Hp) as Hc. rewrite HC in Hc.
  destruct Hc as (Hh & x' & Hx' & Hl). replace x' with x in Hl by congruence.
  exists (set_iobs (<[a := fresh (io_data x)]> (iobs s)) (set_committed (io_flink x) s)). split.
  { unfold iob_alloc_committed. erewrite K_bind_Some by done. rewrite Hh. simpl. erewrite K_bind_Some; [done|].
    rewrite (K_bind_Some _ _ s x s) by (unfold iob_get, kget; simpl; by rewrite Hx).
    erewrite K_bind_Some by done. by rewrite (clear_run _ a x). }
  destruct Hp. rewrite HC in *.
  assert (O !! a = None) as Ha by (apply pool_disjoint; set_solver). nodup_facts.
  assert (∀ b, b ∈ free_bufs P → b ≠ a) as Hfa by (intros b Hb ->; set_solver).
  split; simpl.
  - eapply links_agree; [done|]. intros b Hb. rewrite lookup_insert_ne; [done|]. intros ->. by eapply Hfa.
  - eapply links_agree; [done|]. intros b Hb. rewrite lookup_insert_ne; [done|]. by intros ->.
  - by apply insert_mono.
  - apply NoDup_app. split_and!; [done|set_solver|done].
  - intros b Hb. rewrite lookup_insert_ne; [set_solver|]. intros ->. set_solver.
  - intros b. rewrite !lookup_insert. case_decide; [right; eauto|]. intros Hb.
    destruct (pool_all b Hb) as [[?|[->|?]%elem_of_cons]%elem_of_app|]; [left; set_solver|done|left;
      set_solver|by right].
  - intros b y. rewrite lookup_insert. case_decide; [intros [= <-]; simpl; subst; eauto|eauto].
  - done.
  - done.
  - by rewrite map_size_insert_Some.
  - lia.
Qed.

(** After [iob_free] there is room for one more. *)
Lemma free_for_waiter s P O a x :
  pool s P O → free_bufs P = [] → O !! a = Some x → io_flink x = NULL →
  ∃ s1 y, iob_free (Some a) (set_sem_count SemIob (g_iob_sem s - 1) s) = Some (NULL, s1) ∧
    pool s1 (mk_lists [] (a :: committed_bufs P) (waiters P)) (delete a O) ∧ iobs s1 !! a = Some y ∧
    (∀ thr, iob_tryalloc thr s1 = Some (NULL, s1)).
Proof.
  intros Hp HF HO Hx. pose proof (pool_wait _ _ _ Hp HF) as Hp1.
  destruct (pool_free_end _ _ _ _ _ Hp1 HO Hx) as (s1 & Hr & Hp2). unfold give, waits in Hp2. simpl in Hp2.
  rewrite HF in Hp2. destruct (links_lookup _ _ _ a (pool_committed _ _ _ Hp2)) as [y Hy]; [simpl; set_solver|].
  exists s1, y. split_and!; [done..|]. intros thr. eapply tryalloc_refused; [done|]. by left.
Qed.

(** The task that waits gets the buffer. *)
Lemma iob_alloc_waits `{IobEnv} s P O a x fuel :
  pool s P O → free_bufs P = [] → committed_bufs P = [] → O !! a = Some x → io_flink x = NULL →
  CONFIG_IOB_THROTTLE ≤ 0 → up_interrupt_context || sched_idletask = false →
  nxsem_wait SemIob s = (iob_free (Some a);; mret 0) (set_sem_count SemIob (g_iob_sem s - 1) s) →
  ∃ s' d, iob_alloc (S fuel) false s = Some (Some a, s') ∧
    pool s' P (<[a := fresh d]> (delete a O)) ∧ Z.of_nat (length d) = CONFIG_IOB_BUFSIZE.
Proof.
  intros Hp HF HC HO Hx Hth Hctx Hwait.
  destruct (free_for_waiter _ _ _ _ _ Hp HF HO Hx) as (s1 & y & Hr & Hp1 & Hy & _).
  destruct (alloc_committed_run s1 _ _ a [] y Hp1) as (s2 & Hr2 & Hp2); [by rewrite HC|done|done|].
  exists s2, (io_data y). split_and!; [| |by apply (pool_data _ _ _ Hp1 a)].
  - unfold iob_alloc. rewrite Hctx. unfold iob_allocwait.
    run (tryalloc_refused _ _ _ false Hp (or_introl HF)). change (is_null NULL) with true. cbn [iob_allocwait_loop].
    unfold throttle_sem. rewrite andb_false_r. rewrite (K_bind_Some _ _ s 0 s1) by (rewrite Hwait; by run Hr).
    change (0 <? 0) with false. cbv iota. run Hr2. run (kassert_ok (negb (is_null (Some a))) s2 eq_refl). done.
  - simpl in Hp2. by destruct P; simplify_eq/=.
Qed.
End wait.
