(* ===== verification/IobProps.v ===== *)
(** * IobProps: the I/O buffers

    The properties of mm/iob, and what does not hold of it. *)

From S2P Require Import Prelude IobChain Iob IobSpec IobOps IobCopyin IobPack IobStore IobQueue IobWait.
Local Open Scope Z_scope.

Section props.
Context `{Config, IobConfig}.

(** C17: Histories of packets.  From [iob_initialize] on, whatever sequence of calls that
    [allowed] permits a caller in a context that must not wait makes, the next call returns,
    and its result and the packets afterwards are those of the specification [step]:
    [iob_trimhead] drops bytes from the front and [iob_trimtail] from the end, [iob_copyin]
    splices as many bytes as there are buffers for, [iob_copyout] reads, [iob_contig] and
    [iob_pack] change no byte, and no call changes the bytes of another packet. *)
Theorem iob_history_refines `{IobEnv} s M op :
  0 < CONFIG_IOB_BUFSIZE < 65536 → Z.of_nat CONFIG_IOB_NBUFFERS ≤ IOB_SEM_MAX →
  up_interrupt_context || sched_idletask = true → reach s M → allowed M op →
  ∃ r s' M', exec op s = Some (r, s') ∧ step M op r M' ∧ reach s' M'.
Proof.
  intros Hbuf Hn Hctx Hre Ha. destruct (op_refines Hbuf s M op Hctx) as (r & s' & M' & He & Hst & _); [|done|].
  - by eapply reach_inv.
  - exists r, s', M'. split_and!; [done..|]. by eapply reach_step.
Qed.

(** C18: The well-formedness that every operation on packets preserves: in every state of a
    history each buffer of the pool is in the free list, in the committed list or in
    exactly one packet; the count of the semaphore is the length of the free list less the
    tasks that wait; every packet is a chain without a cycle, whose buffers hold data
    inside their bounds, none of them empty unless it is the only one, and whose head has
    the length of the packet. *)
Theorem iob_history_wellformed `{IobEnv} s M :
  0 < CONFIG_IOB_BUFSIZE < 65536 → Z.of_nat CONFIG_IOB_NBUFFERS ≤ IOB_SEM_MAX →
  up_interrupt_context || sched_idletask = true → reach s M →
  ∃ P O, pool s P O ∧ store_ok O M.
Proof. intros Hbuf Hn Hctx Hre. exact (reach_inv Hbuf s M Hctx Hn Hre). Qed.

(** C24: Data that [iob_copyin] copies is what [iob_copyout] reads.  With enough free
    buffers for the data all of it is copied, without waiting; it replaces what was at the
    offset, the packet grows to hold it, the rest of the packet is as before, and no other
    buffer in use changes. *)
Theorem iob_copyin_copyout `{IobEnv} fuel s P R p l src off :
  0 < CONFIG_IOB_BUFSIZE < 65536 → holds s P R p l → packet_ok l →
  0 ≤ off ≤ Z.of_nat (length (bytes l)) → off + Z.of_nat (length src) < 65536 →
  0 < Z.of_nat (length src) ≤ CONFIG_IOB_BUFSIZE * Z.of_nat (length (free_bufs P)) →
  ∃ s' P' l', iob_copyin fuel p src off false s = Some (Z.of_nat (length src), s') ∧
    holds s' P' R p l' ∧ packet_ok l' ∧ bytes l' = splice (bytes l) (Z.to_nat off) src ∧
    iob_copyout p (Z.of_nat (length src)) off s' = Some (src, s').
Proof.
  intros Hbuf Hh Hl Ho Hmax Hroom.
  destruct (copyin_internal_ok Hbuf fuel s P R p l src off false true Hh Hl Ho Hmax)
    as (s' & r & Hr & P' & l' & Hh' & Hl' & Hrr & Hbs & Hleft).
  { right. right. split; [done|]. intros HF. rewrite HF in Hroom. simpl in Hroom. lia. }
  assert (r = 0) as ->.
  { destruct (decide (0 < r)) as [Hpos|]; [|lia]. destruct (Hleft Hpos) as [[HF|(_ & ? & _)] Hle]; [|done].
    rewrite HF in Hle. simpl in Hle. lia. }
  replace (length src - Z.to_nat 0)%nat with (length src) in Hbs by lia. rewrite firstn_all in Hbs.
  exists s', P', l'. split; [unfold iob_copyin; run Hr; by rewrite Z.sub_0_r|]. split; [done|]. split; [done|].
  split; [done|]. rewrite (iob_copyout_ok _ _ _ _ _ _ _ Hh' Hl') by lia.
  rewrite Hbs, Nat2Z.id, splice_read by lia. done.
Qed.

(** C26: A queue of packets is a first-in first-out list of bounded length: on every
    sequence of [iob_tryadd_queue], [iob_remove_queue] and [iob_peek_queue], from
    [iob_initialize] and an empty queue on, the code returns what the reference [fifo]
    does, -ENOMEM when all containers are in use included, and the queue ends with the
    packets of the reference. *)
Theorem iob_queue_fifo ops :
  Z.of_nat CONFIG_IOB_NCHAINS ≤ IOB_SEM_MAX →
  ∃ s' F' q', qrun ops empty_queue iob_initialize =
      Some (((fifo ops ([], CONFIG_IOB_NCHAINS)).1, q'), s') ∧
    queue s' F' ∅ q' (fifo ops ([], CONFIG_IOB_NCHAINS)).2.1.
Proof.
  intros Hn. pose proof (qrun_ok ops _ _ _ _ _ (queue_initialize Hn)) as (s' & F' & q' & Hr & Hq & _).
  rewrite pool_list_length in Hr, Hq. by exists s', F', q'.
Qed.

(** [iob_free_queue] releases the containers of a queue and the buffers of its packets,
    all of them and no others: afterwards the queue is empty, its containers are in the
    free list, and the buffers in use are those that were not in a packet of the queue. *)
Theorem iob_free_queue_releases s F R q ps P B B' :
  queue s F R q ps → pool s P B → packets B ps B' →
  ∃ s' F' P', iob_free_queue q s = Some (mk_iob_queue NULL (qh_tail q), s') ∧
    queue s' (F' ++ F) R (mk_iob_queue NULL (qh_tail q)) [] ∧ length F' = length ps ∧ pool s' P' B'.
Proof. apply free_queue_ok. Qed.

(** C27: In a build without a throttle ([CONFIG_IOB_THROTTLE] is not positive), a task
    (not an interrupt handler or the idle task) that calls [iob_alloc], not throttled,
    when no buffer is left gets the buffer that another task frees while it waits: in
    between [iob_tryalloc], throttled or not, does not find that buffer, and afterwards
    the pool is as before.  With a throttle the waiting task need not find its buffer
    ([iob_throttled_asserts] below). *)
Theorem iob_alloc_handover `{IobEnv} fuel s P O a x :
  pool s P O → free_bufs P = [] → committed_bufs P = [] → O !! a = Some x → io_flink x = NULL →
  CONFIG_IOB_THROTTLE ≤ 0 → up_interrupt_context || sched_idletask = false →
  nxsem_wait SemIob s = (iob_free (Some a);; mret 0) (set_sem_count SemIob (g_iob_sem s - 1) s) →
  (∃ s1, iob_free (Some a) (set_sem_count SemIob (g_iob_sem s - 1) s) = Some (NULL, s1) ∧
     ∀ thr, iob_tryalloc thr s1 = Some (NULL, s1)) ∧
  ∃ s' d, iob_alloc (S fuel) false s = Some (Some a, s') ∧ pool s' P (<[a := fresh d]> (delete a O)).
Proof.
  intros Hp HF HC HO Hx Hth Hctx Hwait.
  destruct (free_for_waiter _ _ _ _ _ Hp HF HO Hx) as (s1 & y & Hr & _ & _ & Htry).
  destruct (iob_alloc_waits s P O a x fuel Hp HF HC HO Hx Hth Hctx Hwait) as (s' & d & Hr' & Hp' & _).
  split; [by exists s1|by exists s', d].
Qed.
End props.

(** ** Witnesses *)

#[local] Instance demo_config : Config := {|
  CONFIG_DEBUG_ASSERTIONS := true; CONFIG_DEBUG_FEATURES := true;
  CONFIG_SCHED_TICKLESS_ALARM := false; CONFIG_MAX_WDOGPARMS := 4;
  CONFIG_PREALLOC_WDOGS := 32; CONFIG_WDOG_INTRESERVE := 4;
  CONFIG_RR_INTERVAL := 200; CONFIG_USEC_PER_TICK := 10000;
  CONFIG_MAX_TASKS := 16;
|}.

(** Four buffers of four bytes and two containers. *)
#[local] Instance demo_iob : IobConfig := {|
  CONFIG_IOB_BUFSIZE := 4; CONFIG_IOB_NBUFFERS := 4; CONFIG_IOB_NCHAINS := 2; CONFIG_IOB_THROTTLE := 0;
|}.

#[local] Instance demo_env : IobEnv := {|
  up_interrupt_context := true; sched_idletask := false; nxsem_wait := λ _ s, Some (- EAGAIN, s);
|}.

Definition demo_taken : iob_st :=
  after_take 4 (mk_iob (Some 3%positive) 0 0 0 [0; 0; 0; 0]) iob_initialize.

Lemma demo_taken_pool : pool demo_taken (mk_lists [3%positive; 2%positive;
  1%positive] [] 0) {[4%positive := fresh [0; 0; 0; 0]]}.
Proof.
  apply (pool_taken iob_initialize all_free ∅ 4 [3%positive; 2%positive;
    1%positive] (mk_iob (Some 3%positive) 0 0 0 [0; 0; 0; 0]));
    [by apply pool_initialize|done|done].
Qed.

Lemma demo_taken_holds :
  holds demo_taken (mk_lists [3%positive; 2%positive; 1%positive] [] 0) ∅ (Some 4%positive) [(4%positive,
    fresh [0; 0; 0; 0])].
Proof. eexists. split; [exact demo_taken_pool|]. by split_and!. Qed.

Lemma demo_packet_ok : packet_ok [(4%positive, fresh [0; 0; 0; 0])].
Proof. apply packet_ok_alt. split; [done|]. split; [|done]. apply bufs_ok_one. split; simpl; lia. Qed.

(** The packet after six bytes have been copied into it. *)
Definition demo_filled : iob_st :=
  match exec (OpCopyin 4 [1; 2; 3; 4; 5; 6] 0 false) demo_taken with Some (_, s) => s | None => demo_taken end.

Lemma demo_filled_reach : reach demo_filled {[4%positive := [1; 2; 3; 4; 5; 6]]}.
Proof.
  apply (reach_step demo_taken {[4%positive := []]} (OpCopyin 4 [1; 2; 3; 4; 5; 6] 0 false) (RInt 6)).
  - apply (reach_step iob_initialize ∅ (OpAlloc false) (RPtr (Some 4%positive))); [constructor|done|by vm_compute|].
    by apply step_alloc.
  - exists []. split_and!; [done|lia|simpl; lia|simpl; lia].
  - by vm_compute.
  - set (M := {[4%positive := []]} : gmap addr (list Z)).
    assert ({[4%positive := [1; 2; 3; 4; 5; 6]]} =
      <[4%positive := splice [] (Z.to_nat 0) (take 6 [1; 2; 3; 4; 5;
        6])]> (delete 4%positive M)) as -> by (by vm_compute).
    apply (step_copyin M 4 [1; 2; 3; 4; 5; 6] 0 false [] 6); [done|simpl; lia].
Qed.

Lemma iob_history_refines_witness :
  ∃ r s' M', exec (OpTrimhead 4 5) demo_filled = Some (r, s') ∧
    step {[4%positive := [1; 2; 3; 4; 5; 6]]} (OpTrimhead 4 5) r M' ∧ reach s' M'.
Proof.
  apply (iob_history_refines demo_filled); [simpl; lia|by vm_compute|done|exact demo_filled_reach|].
  split; [by eexists|lia].
Defined.

Lemma iob_history_wellformed_witness :
  ∃ P O, pool demo_filled P O ∧ store_ok O {[4%positive := [1; 2; 3; 4; 5; 6]]}.
Proof. apply iob_history_wellformed; [simpl; lia|by vm_compute|done|exact demo_filled_reach]. Defined.

Lemma iob_copyin_copyout_witness :
  ∃ s' P' l', iob_copyin 1 (Some 4%positive) [9; 8; 7; 6; 5; 4; 3; 2; 1] 0 false demo_taken = Some (9, s') ∧
    holds s' P' ∅ (Some 4%positive) l' ∧ packet_ok l' ∧ bytes l' = [9; 8; 7; 6; 5; 4; 3; 2; 1] ∧
    iob_copyout (Some 4%positive) 9 0 s' = Some ([9; 8; 7; 6; 5; 4; 3; 2; 1], s').
Proof.
  apply (iob_copyin_copyout 1 demo_taken (mk_lists [3%positive; 2%positive; 1%positive] [] 0) ∅ (Some 4%positive)
    [(4%positive, fresh [0; 0; 0; 0])] [9; 8; 7; 6; 5; 4; 3; 2; 1] 0);
    [simpl; lia|exact demo_taken_holds|exact demo_packet_ok|simpl; lia..].
Defined.

Lemma iob_queue_fifo_witness :
  ∃ s' F' q', qrun [QAdd (Some 1%positive); QAdd (Some 2%positive); QAdd (Some 3%positive); QRemove; QPeek]
      empty_queue iob_initialize =
    Some (([QInt 0; QInt 0; QInt (- ENOMEM); QPtr (Some 1%positive); QPtr (Some 2%positive)], q'), s') ∧
    queue s' F' ∅ q' [Some 2%positive].
Proof.
  assert (Z.of_nat CONFIG_IOB_NCHAINS ≤ IOB_SEM_MAX) as Hn by (by vm_compute).
  pose proof (iob_queue_fifo
    [QAdd (Some 1%positive); QAdd (Some 2%positive); QAdd (Some 3%positive); QRemove; QPeek] Hn) as Hres.
  exact Hres.
Defined.

(** One packet in a queue. *)
Lemma iob_free_queue_releases_witness :
  ∃ s q F, queue s F ∅ q [Some 4%positive] ∧
  ∃ s' F' P', iob_free_queue q s = Some (mk_iob_queue NULL (qh_tail q), s') ∧
    queue s' (F' ++ F) ∅ (mk_iob_queue NULL (qh_tail q)) [] ∧ length F' = 1%nat ∧ pool s' P' ∅.
Proof.
  assert (queue demo_taken [2%positive; 1%positive] ∅ empty_queue []) as Hq.
  { assert (Z.of_nat CONFIG_IOB_NCHAINS ≤ IOB_SEM_MAX) as Hn by (by vm_compute).
    destruct (queue_initialize Hn) as (O & l & Hp & Hc & HR & Ht & Hps).
    exists O, l. split_and!; [|done..]. destruct Hp. by split. }
  destruct (tryadd_ok _ _ _ _ _ (Some 4%positive) Hq) as (s & q & _ & Hq' & Hsame).
  destruct (same_iob_holds _ _ _ _ _ _ demo_taken_holds Hsame) as (B & Hp & Hc & HR).
  exists s, q, [1%positive]. split; [exact Hq'|].
  apply (iob_free_queue_releases s _ _ q _ _ B ∅ Hq' Hp). eexists. split; [exact Hc|].
  split; [exact demo_packet_ok|exact HR].
Defined.

(** One buffer, which is in use; the task that holds it frees it when another one waits. *)
#[local] Definition one_iob : IobConfig := {|
  CONFIG_IOB_BUFSIZE := 4; CONFIG_IOB_NBUFFERS := 1; CONFIG_IOB_NCHAINS := 1; CONFIG_IOB_THROTTLE := 0;
|}.

#[local] Definition wait_env : IobEnv := {|
  up_interrupt_context := false; sched_idletask := false;
  nxsem_wait := λ i s, (@iob_free demo_config one_iob (Some 1%positive);;
    mret 0) (set_sem_count i (sem_count i s - 1) s);
|}.

Definition one_taken : iob_st := @after_take one_iob 1 (mk_iob NULL 0 0 0 [0; 0; 0; 0]) (@iob_initialize one_iob).

Lemma one_taken_pool : @pool one_iob one_taken (mk_lists [] [] 0) {[1%positive := fresh [0; 0; 0; 0]]}.
Proof.
  apply (@pool_taken one_iob (@iob_initialize one_iob) (@all_free one_iob) ∅ 1 [] (mk_iob NULL 0 0 0 [0; 0; 0; 0]));
    [by apply pool_initialize|done|done].
Qed.

Lemma iob_alloc_handover_witness :
  (∃ s1, @iob_free demo_config one_iob (Some 1%positive) (set_sem_count SemIob (-1) one_taken) = Some (NULL, s1) ∧
     ∀ thr, @iob_tryalloc demo_config one_iob thr s1 = Some (NULL, s1)) ∧
  ∃ s' d, @iob_alloc demo_config one_iob wait_env 1 false one_taken = Some (Some 1%positive, s') ∧
    @pool one_iob s' (mk_lists [] [] 0) (<[1%positive := fresh d]> (delete 1%positive {[1%positive := fresh [0;
      0; 0; 0]]})).
Proof.
  apply (@iob_alloc_handover demo_config one_iob wait_env 0 one_taken (mk_lists [] [] 0) _ 1 (fresh [0; 0; 0;
    0]) one_taken_pool);
    [done|done|done|done|by vm_compute|done|done].
Defined.

(** ** Counterexamples *)

#[local] Definition release_config : Config := {|
  CONFIG_DEBUG_ASSERTIONS := false; CONFIG_DEBUG_FEATURES := false;
  CONFIG_SCHED_TICKLESS_ALARM := false; CONFIG_MAX_WDOGPARMS := 4;
  CONFIG_PREALLOC_WDOGS := 32; CONFIG_WDOG_INTRESERVE := 4;
  CONFIG_RR_INTERVAL := 200; CONFIG_USEC_PER_TICK := 10000;
  CONFIG_MAX_TASKS := 16;
|}.

(** [iob_clone] copies the data but never sets [io_len] of the copy: the copy says that
    it has three bytes and none can be read. *)
Lemma iob_clone_unreadable :
  ∃ s, (a ← iob_tryalloc false; _ ← iob_copyin 0 a [1; 2; 3] 0 false;
        b ← iob_tryalloc false; r ← iob_clone 0 a b false;
        y ← iob_get b; d ← iob_copyout b 3 0; mret (r, io_pktlen y, io_len y, d)) iob_initialize =
       Some ((0, 3, 0, []), s).
Proof. eexists. vm_compute. reflexivity. Qed.

(** [iob_concat] adds the length of the second packet to the last buffer of the first
    one: eight bytes can be read from the packet, whose length is still six. *)
Lemma iob_concat_length :
  ∃ s, (a ← iob_tryalloc false; _ ← iob_copyin 0 a [1; 2; 3; 4; 5; 6] 0 false;
        b ← iob_tryalloc false; _ ← iob_copyin 0 b [7; 8] 0 false; iob_concat a b;;
        x ← iob_get a; d ← iob_copyout a 9 0; mret (io_pktlen x, d)) iob_initialize =
       Some ((6, [1; 2; 3; 4; 5; 6; 7; 8]), s).
Proof. eexists. vm_compute. reflexivity. Qed.

(** [iob_pack] goes on to the next buffer when it has emptied one: of the buffers with
    one byte each it leaves one with two bytes and one with one. *)
Lemma iob_pack_leaves_room :
  ∃ s, (a ← iob_tryalloc false; _ ← iob_copyin 0 a [1] 0 false;
        b ← iob_tryalloc false; _ ← iob_copyin 0 b [2] 0 false;
        c ← iob_tryalloc false; _ ← iob_copyin 0 c [3] 0 false;
        iob_concat a b;; iob_concat a c;; h ← @iob_pack release_config _ a;
        x ← iob_get h; y ← iob_get (io_flink x); mret (io_len x, io_len y)) iob_initialize = Some ((2, 1), s).
Proof. eexists. vm_compute. reflexivity. Qed.

(** When [iob_pack] frees a buffer in the middle of a packet the assertion of [iob_free]
    fails, since the length of the packet is only kept in its head. *)
Lemma iob_pack_asserts :
  (a ← iob_tryalloc false; _ ← iob_copyin 0 a [1; 2; 3; 4; 5; 6; 7; 8; 9] 0 false;
   a ← iob_trimhead a 3; _ ← iob_contig a 4; a ← iob_trimhead a 2; iob_pack a) iob_initialize = None.
Proof. by vm_compute. Qed.

(** A packet without data has no buffer that [iob_pack] could return. *)
Lemma iob_pack_empty : (a ← iob_tryalloc false; @iob_pack release_config _ a) iob_initialize = None.
Proof. by vm_compute. Qed.

(** An offset behind the end of the packet is reported as a success. *)
Lemma iob_copyin_bad_offset :
  ∃ s, (a ← iob_tryalloc false; iob_copyin 0 a [1; 2; 3] 1 false) iob_initialize = Some (3 + ESPIPE, s).
Proof. eexists. vm_compute. reflexivity. Qed.

(** [iob_navail] counts the containers, not the buffers. *)
Lemma iob_navail_containers :
  ∃ s, (_ ← iob_tryalloc false; iob_navail) iob_initialize = Some (2, s) ∧ g_iob_sem s = 3.
Proof. eexists. split; [vm_compute; reflexivity|done]. Qed.

(** While a task waits for a buffer, a container that is freed is set aside for a task
    that waits for one, of which there is none: two are counted and one can be had. *)
Lemma iob_qentry_lost :
  ∃ q s, iob_tryadd_queue (Some 1%positive) empty_queue iob_initialize = Some ((0, q), s) ∧
  ∃ s', (_ ← iob_remove_queue q; _ ← iob_tryalloc_qentry; iob_tryalloc_qentry) (set_sem_count SemIob (-1) s) =
    Some (NULL, s') ∧ g_qentry_sem s' = 1.
Proof. do 2 eexists. split; [vm_compute; reflexivity|]. eexists. split; [vm_compute; reflexivity|done]. Qed.

(** A throttled task that waits is woken by a buffer that is in the free list, since the
    other count is not negative; the assertion that it is in the committed list fails. *)
#[local] Definition throttle_iob : IobConfig := {|
  CONFIG_IOB_BUFSIZE := 4; CONFIG_IOB_NBUFFERS := 2; CONFIG_IOB_NCHAINS := 1; CONFIG_IOB_THROTTLE := 1;
|}.

#[local] Definition throttle_env : IobEnv := {|
  up_interrupt_context := false; sched_idletask := false;
  nxsem_wait := λ i s, (@iob_free demo_config throttle_iob (Some 2%positive);;
    mret 0) (set_sem_count i (sem_count i s - 1) s);
|}.

Lemma iob_throttled_asserts :
  (_ ← @iob_alloc demo_config throttle_iob throttle_env 1 true;
    @iob_alloc demo_config throttle_iob throttle_env 1 true)
    (@iob_initialize throttle_iob) = None.
Proof. by vm_compute. Qed.
